(* ===== verification/_CoqProject ===== *)
-Q . S2P
Prelude.v
BigInt.v
Types.v
Params.v
StateDB.v
Opcodes.v
Analysis.v
Machine.v
GasTable.v
Instructions.v
JumpTable.v
Precompiles.v
Interp.v
Spec.v
GasSpec.v
ExecSpec.v
PrecompileSpec.v
Safety.v
Fuel.v
Effects.v
Static.v
Taint.v
Alu.v
DataOps.v
Defects.v
AbiTypes.v
AbiPack.v
AbiUnpack.v
AbiNames.v
AbiSpec.v
AbiFuzz.v
Fuzzer.v
FuzzerSpec.v
Dispatch.v
Laws.v
OpNames.v
AbiFields.v
AbiRound.v
AbiLaws.v
Detector.v
RlpTypes.v
RlpEncode.v
RlpDecode.v
RlpSpec.v
RlpRefine.v
RlpStream.v
RlpCanon.v
RlpRaw.v
RlpCache.v
RlpTyped.v
RlpLaws.v
Keccak.v
KeccakSpec.v
KeccakSponge.v
Keys.v
KeccakLaws.v
HexText.v
TrieEncoding.v
TrieNode.v
TrieOps.v
TrieRep.v
TrieSpec.v
TrieDb.v
TrieDbSpec.v
TrieDbLaws.v
TrieHasher.v
TrieEnc.v
TrieCommit.v
TrieLaws.v
SecureTrie.v
SecureLaws.v
TrieProof.v
TrieIter.v
TrieIterSpec.v
TrieUnion.v
TrieIterLaws.v
TrieSync.v
TrieSyncLaws.v
TxTypes.v
TxLaws.v
