(* ===== verification/Prelude.v ===== *)
(** * Mini-EVM overflow fuzzer: verification library

    The program ([src/main.go], [src/detectors], [src/core/vm],
    [src/core/state], with helpers in [src/common], [src/params] and
    [src/accounts/abi]) looks for integer overflows in smart contracts.  It
    compiles and deploys the contracts of a source file into an in-memory
    state database, finds the storage locations behind their constant getters,
    and calls their methods with random data on randomly mutated storage.  The
    virtual machine is go-ethereum's with one change: ADD, SUB, MUL and DIV
    store the program counter at a marker key of the running contract when
    the exact result is not the 256-bit one.  A call that returns without an
    error and leaves a marker is reported.

    Around this core the repository carries parts of go-ethereum that the fuzzer
    uses or was built on: the contract ABI ([src/accounts/abi]), RLP
    ([src/rlp]), Keccak and key handling ([src/crypto]), hexadecimal text
    ([src/common]), the Merkle-Patricia trie with its node store, iterators and
    synchronisation ([src/trie]), transactions, signers and log blooms
    ([src/core/types]).  They are modelled too.

    ** Parts and files

    - [Prelude.v]: results of Go code ([Ok], [Panic], [NoFuel]), 64-bit
      arithmetic, byte slices, the tactics [split_if] and [zbool], the hint
      database [go].
    - [BigInt.v] ([Big]): [math/big] as [Z] and [src/common/math].
      [Types.v] ([Common]): hashes, addresses, padding, hexadecimal text of
      [src/common].  [HexText.v]: [src/common/hexutil], the textual parts of
      [src/common/math] and [types.go].  [Params.v]: [src/params].
    - [StateDB.v]: [src/core/state/statedb.go] and the transfer functions of
      [src/core/evm.go]; accounts in a [gmap], the view [account_at] and the
      equivalence it induces, well-formed databases, sums of balances.
    - The virtual machine, [src/core/vm].  [Opcodes.v] ([Op]), [OpNames.v]:
      [opcodes.go].  [Analysis.v]: [analysis.go].  [Machine.v] ([Vm]): stack,
      memory, contract, errors, environment, the instruction monad [M].
      [GasTable.v] ([Gas]): [gas.go], [gas_table.go].  [Instructions.v]
      ([Instr]): [instructions.go].  [JumpTable.v] ([Table]): [jump_table.go].
      [Precompiles.v]: [contracts.go].  [Interp.v]: [interpreter.go] and
      [evm.go].  Instructions reach the message calls through the record
      [CallOps], which [Interp.v] implements; their contract is the class
      [CallSpec] of [Spec.v], whose instance is proved in [Safety.v].
    - [Fuzzer.v]: the fuzzer of [src/detectors], on a heap of account maps so
      that the sharing done by struct copies is visible.  [Detector.v]: the
      stand-alone detector of [overflowdetection.go] with its callers in
      [src/main.go].  [Dispatch.v]: the goroutines of [src/main.go] as a step
      relation.
    - The ABI, [src/accounts/abi].  [AbiTypes.v]: types, arguments, methods and
      events.  [AbiPack.v]: packing, with a heap for the integers that packing
      changes in place.  [AbiUnpack.v]: unpacking.  [AbiFields.v]: storing into
      the caller's variables.  [AbiFuzz.v]: random call data.
    - RLP, [src/rlp].  [RlpTypes.v]: the type cache and the choice of writers
      and decoders.  [RlpEncode.v], [RlpDecode.v]: the encoder, the decoder and
      the raw helpers.
    - [Keccak.v]: [src/crypto/sha3].  [Keys.v]: [src/crypto/crypto.go].
    - The trie, [src/trie].  [TrieEncoding.v]: [encoding.go].  [TrieNode.v]:
      [node.go].  [TrieOps.v]: [trie.go].  [TrieHasher.v]: [hasher.go].
      [TrieDb.v]: [database.go] on the memory database of [src/ethdb].
      [SecureTrie.v]: [secure_trie.go].  [TrieProof.v]: [proof.go].
      [TrieIter.v]: [iterator.go], the interface [NodeIterator] as a class.
      [TrieSync.v]: [sync.go], the requests as numbered shared objects.
    - [TxTypes.v]: [bloom9.go], [transaction.go] and [transaction_signing.go] of
      [src/core/types], the status of [receipt.go], [rlpHash] of [block.go] on
      the encoder and the sponge, the heap operations of [TrieIter.v].

    ** What the theorems show

    - [Spec.v], [GasSpec.v], [ExecSpec.v], [PrecompileSpec.v]:
      the contracts of the gas functions, instructions, table entries and
      precompiled contracts.  [Safety.v] composes them: a top-level call with
      recursion disabled (the fuzzer's configuration) never panics; every call
      and creation terminates; gas never grows ([fuzz_call_total],
      [call_terminates]).  [Fuel.v]: fuel is not observable.
    - [Effects.v], [Static.v]: which instructions touch what; a static call
      preserves everything but the markers ([static_call_preserves]).
    - [Taint.v]: the markers are exact for one instruction, readable, and sound
      and complete for a whole call ([marker_sound], [marker_complete]).
    - [Alu.v], [DataOps.v]: the functional behaviour of the arithmetic, memory,
      storage, push and jump instructions and of the memory fee.  [Defects.v]:
      where the machine departs from its documentation.  [Laws.v]: modular
      exponentiation, conservation of value, encodings.
    - [FuzzerSpec.v]: the generated inputs, when fuzzing a file finishes, panics
      or waits ([fuzz_file_outcome]), what a report means whatever the copier
      does ([campaign_sound]) and when it copies ([deep_reports_fresh]), the
      false positives when it assigns, the lost reports.  [Dispatch.v]: when
      [dispatcher] returns, its deadlock otherwise, and the termination of
      [main2].  [Detector.v]: exactly what the stand-alone detector reports, and
      what it silently leaves out.
    - [AbiNames.v]: type names are read back.  [AbiSpec.v], [AbiRound.v],
      [AbiLaws.v]: packing computes the encoding of the ABI specification,
      unpacking inverts it and never panics on arbitrary data, and where packing
      misbehaves.  [AbiFields.v], [AbiFuzz.v]: arguments are found in the fields
      they belong to; random call data is an encoding of generated values.
    - [RlpSpec.v], [RlpRefine.v]: the encoder refines a reference encoding.
      [RlpStream.v], [RlpCanon.v], [RlpRaw.v]: the decoder accepts exactly the
      canonical encodings.  [RlpCache.v], [RlpTyped.v]: the cache is sound and
      decoding keeps the type of its target.  [RlpLaws.v]: the theorems.
    - [KeccakSpec.v], [KeccakSponge.v], [KeccakLaws.v]: permutation and sponge
      against a reference written from the definition of Keccak; the address of
      a created contract.  With these, two parameters of the machine have an
      implementation that satisfies their hypotheses.
    - [HexText.v]: numbers are read exactly from their canonical text; hashes
      and checksummed addresses are read back.
    - [TrieRep.v], [TrieSpec.v]: nodes represent canonical trees, operations
      change them at one key, canonical trees are determined by their contents.
      [TrieEnc.v], [TrieCommit.v], [TrieLaws.v]: a trie refines a finite map,
      its hash is a function of the contents, and a committed trie is found
      again.  [TrieDbSpec.v], [TrieDbLaws.v]: garbage collection is exact
      for what is not on disk, before and after commits, and loses nothing.  [SecureLaws.v]: keys are recovered from their
      hashes.  [TrieProof.v]: proofs are sound and complete.
    - [TrieIterSpec.v]: the laws of an iterator ([NodeIteratorLaws]) and, from
      the laws alone, the difference of two iterators; [TrieUnion.v]: the heap
      and the union of iterators; [TrieIterLaws.v]: the iterator over a trie
      keeps the laws and delivers the entries of the map in order.
      [TrieSyncLaws.v]: a synchronisation keeps the database closed under
      children whatever the order of the data, and completes the trie.
    - [TxLaws.v]: what a signer hashes is the canonical encoding of the fields
      it covers; a signed transaction is attributed to its key and to its chain
      alone; log blooms have no false negatives; the price heap implements the
      choice of the best next transaction of all accounts.
    - The module [Concrete] of [Spec.v]: an environment on which the definitions
      run, used by the witnesses of the theorems that have hypotheses.

    ** Fuel and bounds

    The interpreter loop and the calls it nests recurse on fuel.  Any fuel
    above the gas of the call is enough: every iteration that goes on, and
    every nested call, leaves strictly less gas ([Safety.loop_ok]), and more
    fuel changes nothing ([Fuel.fuel_irrelevant]).  The bit-map loops recurse
    on the code length.  Slices have fewer than 2^63 bytes, as Go's [int]
    requires; the bound 2^61 on the gas of [fuzz_call_total] keeps the operand
    lengths of the modular exponentiation contract below 64-bit wrap-around.

    [decodeNode] runs on the length of its buffer, which each nested node
    shortens ([TrieDecodeLaws.decodeNode_total]); operations on a trie on
    [trie_fuel], twice the length of the key and a little more, since a loaded
    node is not a hash; [VerifyProof] on one unit per proof node (with wrong
    keys it may not return at all); [dereference] and [commit] of the node store
    on the height of the node they start from (references go down); the
    iterators on the number of nodes of the trie; [commit] of a synchronisation
    on the number of pending requests, each of which it ends at most once
    ([TrieSyncLaws.commit_ok]).  RLP values and ABI types are decoded on the
    depth of the type and the length of the data.  The theorems state that this
    is enough, as an existential bound or with the fuel the code is given.

    ** Parameters

    The cryptographic functions of the machine (the record [Crypto]: Keccak-256
    and the address derivation, SHA-256, RIPEMD-160, signature recovery, the
    bn256 curve), with their output sizes as hypotheses ([crypto_ok]); the
    struct copier and the table renderer of the fuzzer (the record [Oracles]);
    the compiler's output; whether the log file can be created, the terminal
    opened, and the user quits (the record [Host]); what [os.Stat] and
    [ioutil.ReadDir] find ([Dispatch.stat]).  The copier is
    documented to copy the fields of a struct, which leaves open whether the
    map behind a field is copied or shared; the main theorems hold for every
    copier that keeps databases well formed, and two readings are treated in
    detail ([Fuzzer.deep_copy], [Fuzzer.assign_fields]).  The methods [EncodeRLP] and
    [DecodeRLP] of user types, readers and writers, the assembly permutation of
    Keccak, the multiplication on the secp256k1 curve, signing and recovery with
    their documented laws ([SecpLaws]), the random sources of
    the fuzzer and the ABI generator ([Source]), the cartesian product of the stand-alone
    detector, the order in which Go ranges over maps, leaf callbacks of the
    trie, the priority queue of a synchronisation ([Prque]).  Statements about
    hashes speak of blobs taken from a set without collisions ([blobs]).

    ** Not modelled

    The tracer, the logger and the just-in-time compiler of the machine and its
    integer pool (not observable with debugging off); printing, terminal output
    and the JSON reader of the ABI (Go's); key files and key generation, the
    elliptic curves (third-party); the generated ABI bindings and the simulated
    chain client, blocks and headers, the RLP and JSON forms of receipts and
    transactions other than what is hashed, the wallets and key stores, the
    LevelDB database, logging and metrics: imported from go-ethereum, not
    reached by the fuzzer, and mostly I/O and glue; the address brute forcer and
    the transaction replayer, separate experiments. *)

From stdpp Require Import base list numbers option.
From Stdlib Require Import Lia.

#[local] Open Scope Z_scope.

(** ** Results of Go code

    A Go function either returns ([Ok]), panics ([Panic]: an index or slice
    bound out of range, a nil dereference, an explicit [panic]) or does not
    return ([NoFuel]: a loop exceeds the fuel it is given, or a wait for the
    user never ends). *)
Inductive result (A : Type) : Type :=
| Ok (a : A)
| Panic
| NoFuel.
Arguments Ok {A} _.
Arguments Panic {A}.
Arguments NoFuel {A}.

Definition rbind {A B} (m : result A) (k : A -> result B) : result B :=
  match m with
  | Ok a => k a
  | Panic => Panic
  | NoFuel => NoFuel
  end.

Declare Scope go_scope.
Delimit Scope go_scope with go.
Notation "'let?' x := m 'in' k" := (rbind m (fun x => k))
  (at level 10, x pattern, m at level 200, k at level 200) : go_scope.

Lemma rbind_Ok_inv {A B} (m : result A) (k : A -> result B) b :
  rbind m k = Ok b -> exists a, m = Ok a /\ k a = Ok b.
Proof. destruct m; simpl; naive_solver. Qed.

(** The value of a run that returns. *)
Definition is_ok {A} (r : result A) : bool := match r with Ok _ => true | _ => false end.
Definition value_of {A} (r : result A) (d : A) : A := match r with Ok a => a | _ => d end.

Lemma is_ok_value {A} (r : result A) d : is_ok r = true -> r = Ok (value_of r d).
Proof. by destruct r. Qed.

(** ** Machine integers *)

Definition two64 : Z := 18446744073709551616.
Definition two63 : Z := 9223372036854775808.
Definition two256 : Z := 2 ^ 256.

(** [uint64] arithmetic wraps modulo 2^64. *)
Definition u64 (x : Z) : Z := x mod two64.
(** Conversion to [int64] (two's complement). *)
Definition i64 (x : Z) : Z := let y := x mod two64 in if y <? two63 then y else y - two64.

Definition is_u64 (x : Z) : Prop := 0 <= x < two64.
Definition is_word (x : Z) : Prop := 0 <= x < two256.

Lemma u64_range x : is_u64 (u64 x).
Proof. apply Z.mod_pos_bound. done. Qed.

Lemma u64_id x : is_u64 x -> u64 x = x.
Proof. apply Z.mod_small. Qed.

Lemma i64_id x : 0 <= x < two63 -> i64 x = x.
Proof.
  intros H. unfold i64. rewrite Z.mod_small by (unfold two63, two64 in *; lia).
  destruct (Z.ltb_spec x two63); lia.
Qed.

(** ** Byte slices *)

Abbreviation bytes := (list Z) (only parsing).
Definition byte_ok (b : Z) : Prop := 0 <= b < 256.
Definition bytes_ok (l : bytes) : Prop := Forall byte_ok l.

Definition len {A} (l : list A) : Z := Z.of_nat (length l).

Definition zeros (n : Z) : bytes := replicate (Z.to_nat n) 0.

(** [l[a:b]]: panics unless 0 <= a <= b <= len l. *)
Definition slice {A} (l : list A) (a b : Z) : result (list A) :=
  if (0 <=? a) && (a <=? b) && (b <=? len l)
  then Ok (take (Z.to_nat (b - a)) (drop (Z.to_nat a) l))
  else Panic.

(** [l[i]]: panics unless 0 <= i < len l. *)
Definition index {A} (l : list A) (i : Z) : result A :=
  if 0 <=? i then
    match l !! Z.to_nat i with
    | Some x => Ok x
    | None => Panic
    end
  else Panic.

(** [l[i] = x]. *)
Definition update {A} (l : list A) (i : Z) (x : A) : result (list A) :=
  if (0 <=? i) && (i <? len l) then Ok (<[Z.to_nat i := x]> l) else Panic.

(** Go's [copy(dst, src)]: overwrites the first min(len dst, len src) bytes. *)
Definition copy_into (dst src : bytes) : bytes :=
  take (length dst) src ++ drop (length src) dst.

(** [copy(l[a:b], src)]. *)
Definition copy_at (l : bytes) (a b : Z) (src : bytes) : result bytes :=
  rbind (slice l a b) (fun w =>
  Ok (take (Z.to_nat a) l ++ copy_into w src ++ drop (Z.to_nat b) l)).

Lemma len_nonneg {A} (l : list A) : 0 <= len l.
Proof. unfold len. lia. Qed.
Lemma len_nil {A} : len (@nil A) = 0.
Proof. done. Qed.
Lemma len_cons {A} (x : A) l : len (x :: l) = 1 + len l.
Proof. unfold len. simpl. lia. Qed.
Lemma len_single {A} (x : A) : len [x] = 1.
Proof. done. Qed.
Lemma len_app {A} (l k : list A) : len (l ++ k) = len l + len k.
Proof. unfold len. rewrite length_app. lia. Qed.
Lemma len_zeros n : 0 <= n -> len (zeros n) = n.
Proof. intros. unfold len, zeros. rewrite length_replicate. lia. Qed.
Lemma len_take {A} (l : list A) n : len (take n l) = Z.min (Z.of_nat n) (len l).
Proof. unfold len. rewrite length_take. lia. Qed.
Lemma len_drop {A} (l : list A) n : len (drop n l) = Z.max 0 (len l - Z.of_nat n).
Proof. unfold len. rewrite length_drop. lia. Qed.
Lemma len_copy_into dst src : len (copy_into dst src) = len dst.
Proof. unfold copy_into. rewrite len_app, len_take, len_drop. unfold len. lia. Qed.

Lemma slice_Ok {A} (l : list A) a b :
  0 <= a <= b -> b <= len l ->
  slice l a b = Ok (take (Z.to_nat (b - a)) (drop (Z.to_nat a) l)).
Proof.
  intros. unfold slice.
  replace (_ && _ && _) with true; [done|]. symmetry.
  rewrite !andb_true_iff, !Z.leb_le. lia.
Qed.

Lemma slice_inv {A} (l k : list A) a b :
  slice l a b = Ok k ->
  0 <= a <= b /\ b <= len l /\ k = take (Z.to_nat (b - a)) (drop (Z.to_nat a) l).
Proof.
  unfold slice. destruct (_ && _ && _) eqn:E; [|done]. intros [= <-].
  rewrite !andb_true_iff, !Z.leb_le in E. destruct E as [[??]?]. done.
Qed.

Lemma index_Ok {A} (l : list A) i :
  0 <= i < len l -> exists x, index l i = Ok x /\ l !! Z.to_nat i = Some x.
Proof.
  intros [Hi Hl]. unfold index. rewrite (proj2 (Z.leb_le 0 i)) by done.
  destruct (lookup_lt_is_Some_2 l (Z.to_nat i)) as [x Hx]; [unfold len in Hl; lia|].
  exists x. by rewrite Hx.
Qed.

Lemma copy_at_Ok l a b src :
  0 <= a <= b -> b <= len l -> exists l', copy_at l a b src = Ok l' /\ len l' = len l.
Proof.
  intros Hab Hb. unfold copy_at. rewrite slice_Ok by done. simpl.
  eexists; split; [done|].
  rewrite !len_app, len_copy_into, !len_take, !len_drop. lia.
Qed.

(** *** Slices of a list in parts *)

Lemma slice_mid {A} (pre mid post : list A) a b : a = len pre -> b = a + len mid ->
  slice (pre ++ mid ++ post) a b = Ok mid.
Proof.
  intros -> ->. rewrite slice_Ok; [|pose proof (len_nonneg pre); pose proof (len_nonneg mid); lia|
    rewrite !len_app; pose proof (len_nonneg post); lia].
  replace (len pre + len mid - len pre) with (len mid) by lia. unfold len. rewrite !Nat2Z.id.
  by rewrite drop_app_length, take_app_length.
Qed.

Lemma slice_take {A} (l : list A) n : (n <= length l)%nat -> slice l 0 (Z.of_nat n) = Ok (take n l).
Proof. intros H. rewrite slice_Ok by (unfold len; lia). by rewrite drop_0, Z.sub_0_r, Nat2Z.id. Qed.

Lemma slice_drop {A} (l : list A) n : (n <= length l)%nat -> slice l (Z.of_nat n) (len l) = Ok (drop n l).
Proof.
  intros H. rewrite slice_Ok by (unfold len; lia). rewrite Nat2Z.id, take_ge; [done|].
  rewrite length_drop. unfold len. lia.
Qed.

Lemma copy_at_mid pre old post new a b : a = len pre -> b = a + len old -> len new = len old ->
  copy_at (pre ++ old ++ post) a b new = Ok (pre ++ new ++ post).
Proof.
  intros -> -> Hn. unfold copy_at. rewrite (slice_mid pre old post) by done. cbn [rbind].
  rewrite Z2Nat.inj_add by (pose proof (len_nonneg pre); pose proof (len_nonneg old); lia).
  unfold len in *. rewrite !Nat2Z.id, take_app_length, <-drop_drop, !drop_app_length.
  unfold copy_into. rewrite take_ge, drop_ge by lia. by rewrite app_nil_r.
Qed.

(** ** Byte-wise well-formedness *)

Lemma bytes_ok_nil : bytes_ok [].
Proof. constructor. Qed.
Lemma bytes_ok_app l k : bytes_ok (l ++ k) <-> bytes_ok l /\ bytes_ok k.
Proof. apply Forall_app. Qed.
Lemma bytes_ok_cons b l : bytes_ok (b :: l) <-> byte_ok b /\ bytes_ok l.
Proof. apply Forall_cons_iff. Qed.
Lemma bytes_ok_take n l : bytes_ok l -> bytes_ok (take n l).
Proof. apply Forall_take. Qed.
Lemma bytes_ok_drop n l : bytes_ok l -> bytes_ok (drop n l).
Proof. apply Forall_drop. Qed.
Lemma bytes_ok_zeros n : bytes_ok (zeros n).
Proof. apply Forall_replicate. unfold byte_ok. lia. Qed.
Lemma bytes_ok_copy_into dst src : bytes_ok dst -> bytes_ok src -> bytes_ok (copy_into dst src).
Proof. intros. apply bytes_ok_app. split; [by apply bytes_ok_take|by apply bytes_ok_drop]. Qed.
Lemma bytes_ok_slice l a b k : slice l a b = Ok k -> bytes_ok l -> bytes_ok k.
Proof. intros (_&_&->)%slice_inv ?. by apply bytes_ok_take, bytes_ok_drop. Qed.
Lemma bytes_ok_copy_at l a b src l' :
  copy_at l a b src = Ok l' -> bytes_ok l -> bytes_ok src -> bytes_ok l'.
Proof.
  unfold copy_at. intros (w & Hw & [= <-])%rbind_Ok_inv ??.
  rewrite !bytes_ok_app. repeat split;
    eauto using bytes_ok_take, bytes_ok_drop, bytes_ok_copy_into, bytes_ok_slice.
Qed.

Create HintDb go discriminated.
#[export] Hint Resolve bytes_ok_nil bytes_ok_take bytes_ok_drop bytes_ok_zeros
  bytes_ok_copy_into u64_range len_nonneg : go.

(** ** Proof automation *)

(** Split the conditional or match the goal (or a hypothesis) is stuck on. *)
Ltac split_if :=
  match goal with
  | |- context [if ?b then _ else _] => destruct b eqn:?
  | H : context [if ?b then _ else _] |- _ => destruct b eqn:?
  end.

(** Turn boolean integer tests in the context into propositions. *)
Ltac zbool :=
  repeat match goal with
  | H : (_ && _) = true |- _ => apply andb_true_iff in H as [? ?]
  | H : (_ || _) = false |- _ => apply orb_false_iff in H as [? ?]
  | H : negb _ = true |- _ => apply negb_true_iff in H
  | H : negb _ = false |- _ => apply negb_false_iff in H
  | H : (_ <? _) = true |- _ => apply Z.ltb_lt in H
  | H : (_ <? _) = false |- _ => apply Z.ltb_ge in H
  | H : (_ <=? _) = true |- _ => apply Z.leb_le in H
  | H : (_ <=? _) = false |- _ => apply Z.leb_gt in H
  | H : (_ =? _) = true |- _ => apply Z.eqb_eq in H
  | H : (_ =? _) = false |- _ => apply Z.eqb_neq in H
  end.
