(* ===== verification/BigInt.v ===== *)
(** * [math/big] primitives and package [common/math]

    A [*big.Int] is a [Z].  [SetBytes], [Bytes], [Bits], [BitLen], [Uint64]
    and [Int64] are the methods of Go's [math/big] the code calls; the rest of
    the file translates [src/common/math/big.go] and
    [src/common/math/integer.go].  The theorems relate the word- and
    byte-level loops to arithmetic on [Z]. *)

From Stdlib Require Import Zpow_facts.
From stdpp Require Import base list numbers.
From S2P Require Import Prelude.

#[local] Open Scope Z_scope.

Module Big.

(** ** Methods of [big.Int] *)

(** [z.SetBytes(buf)]: big-endian unsigned value. *)
Definition SetBytes (l : bytes) : Z := fold_left (fun a b => a * 256 + b) l 0.

(** The [n] low-order bytes of [x], big-endian. *)
Fixpoint be_go (n : nat) (x : Z) (acc : bytes) : bytes :=
  match n with
  | O => acc
  | S m => be_go m (x / 256) (x mod 256 :: acc)
  end.
Definition be (n : nat) (x : Z) : bytes := be_go n x [].

Definition BitLen (x : Z) : Z := if x =? 0 then 0 else Z.log2 (Z.abs x) + 1.

(** [x.Bytes()]: the minimal big-endian encoding of |x|. *)
Definition Bytes (x : Z) : bytes := be (Z.to_nat ((BitLen x + 7) / 8)) (Z.abs x).

Fixpoint le_words (n : nat) (x : Z) : list Z :=
  match n with
  | O => []
  | S m => x mod two64 :: le_words m (x / two64)
  end.

(** [x.Bits()]: the 64-bit words of |x|, least significant first. *)
Definition Bits (x : Z) : list Z := le_words (Z.to_nat ((BitLen x + 63) / 64)) (Z.abs x).

(** [x.Uint64()] and [x.Int64()]: the low 64 bits of |x| (negated for a
    negative [x] in the signed case). *)
Definition Uint64 (x : Z) : Z := Z.abs x mod two64.
Definition Int64 (x : Z) : Z := if x <? 0 then i64 (- i64 (Z.abs x)) else i64 (Z.abs x).

(** ** Package [common/math] *)

Definition wordBits : nat := 64.
Definition wordBytes : Z := 8.
Definition tt255 : Z := 2 ^ 255.
Definition tt256 : Z := 2 ^ 256.
Definition tt256m1 : Z := tt256 - 1.

Definition BigMax (x y : Z) : Z := if x <? y then y else x.
Definition BigMin (x y : Z) : Z := if x >? y then y else x.

(** Loop of [FirstBitSet], [n] iterations left, at index [i]. *)
Fixpoint FirstBitSet_go (n : nat) (i : Z) (v : Z) : Z :=
  match n with
  | O => BitLen v
  | S m => if Z.testbit v i then i else FirstBitSet_go m (i + 1) v
  end.
Definition FirstBitSet (v : Z) : Z := FirstBitSet_go (Z.to_nat (BitLen v)) 0 v.

Definition bigEndianByteAt (bigint n : Z) : Z :=
  let words := Bits bigint in
  let i := n / wordBytes in
  match words !! Z.to_nat i with
  | None => 0
  | Some word => Z.shiftr word (8 * (n mod wordBytes)) mod 256
  end.

(** [Byte(bigint, padlength, n)]. *)
Definition Byte (bigint padlength n : Z) : Z :=
  if padlength <=? n then 0 else bigEndianByteAt bigint (padlength - 1 - n).

(** Inner loop of [ReadBits]: [j] bytes of the word [d] left, write index [i]. *)
Fixpoint ReadBits_word (j : nat) (d : Z) (i : nat) (buf : bytes) : nat * bytes :=
  match j, i with
  | S j', S i' => ReadBits_word j' (Z.shiftr d 8) i' (<[i' := d mod 256]> buf)
  | _, _ => (i, buf)
  end.

Fixpoint ReadBits_words (ws : list Z) (i : nat) (buf : bytes) : bytes :=
  match ws with
  | [] => buf
  | d :: ws' => let '(i', buf') := ReadBits_word 8 d i buf in ReadBits_words ws' i' buf'
  end.

Definition ReadBits (bigint : Z) (buf : bytes) : bytes :=
  ReadBits_words (Bits bigint) (length buf) buf.

Definition PaddedBigBytes (bigint n : Z) : bytes :=
  if n <=? BitLen bigint / 8 then Bytes bigint else ReadBits bigint (zeros n).

(** [x.And(x, tt256m1)]. *)
Definition U256 (x : Z) : Z := Z.land x tt256m1.

Definition S256 (x : Z) : Z := if x <? tt255 then x else x - tt256.

(** The two loops of [Exp]: [k] bits of [word] left. *)
Fixpoint Exp_word (k : nat) (word base result : Z) : Z * Z :=
  match k with
  | O => (base, result)
  | S k' =>
      let result' := if Z.land word 1 =? 1 then U256 (result * base) else result in
      let base' := U256 (base * base) in
      Exp_word k' (Z.shiftr word 1) base' result'
  end.

Fixpoint Exp_words (ws : list Z) (base result : Z) : Z * Z :=
  match ws with
  | [] => (base, result)
  | w :: ws' => let '(b, r) := Exp_word wordBits w base result in Exp_words ws' b r
  end.

(** [Exp(base, exponent)]: the value returned and the final content of the
    [base] integer, which the loop overwrites. *)
Definition Exp_mut (base exponent : Z) : Z * Z := Exp_words (Bits exponent) base 1.
Definition Exp (base exponent : Z) : Z := snd (Exp_mut base exponent).

(** [integer.go] *)
Definition MaxUint64 : Z := two64 - 1.
Definition SafeSub (x y : Z) : Z * bool := (u64 (x - y), x <? y).
Definition SafeAdd (x y : Z) : Z * bool := (u64 (x + y), MaxUint64 - x <? y).
Definition SafeMul (x y : Z) : Z * bool :=
  if (x =? 0) || (y =? 0) then (0, false) else (u64 (x * y), MaxUint64 / x <? y).

(** ** Bytes and words *)

Lemma fold_SetBytes l a : fold_left (fun a b => a * 256 + b) l a = a * 256 ^ len l + SetBytes l.
Proof.
  unfold SetBytes. revert a. induction l as [|b l IH]; intros a; cbn [fold_left].
  - rewrite len_nil. lia.
  - rewrite len_cons, (IH (a * 256 + b)), (IH (0 * 256 + b)), Z.pow_add_r by (pose proof (len_nonneg l); lia).
    ring.
Qed.

Lemma SetBytes_app l k : SetBytes (l ++ k) = SetBytes l * 256 ^ len k + SetBytes k.
Proof. unfold SetBytes at 1. by rewrite fold_left_app, fold_SetBytes. Qed.

Lemma SetBytes_snoc l b : SetBytes (l ++ [b]) = SetBytes l * 256 + b.
Proof. rewrite SetBytes_app, len_single. unfold SetBytes at 2. cbn [fold_left]. lia. Qed.

Lemma SetBytes_bound l : bytes_ok l -> 0 <= SetBytes l < 256 ^ len l.
Proof.
  induction l as [|b l IH] using rev_ind; intros Hl; [done|].
  apply bytes_ok_app in Hl as [Hl [Hb _]%bytes_ok_cons].
  rewrite SetBytes_snoc, len_app, len_single.
  rewrite Z.pow_add_r by (pose proof (len_nonneg l); lia).
  specialize (IH Hl). unfold byte_ok in Hb. lia.
Qed.

Lemma be_go_app n x acc : be_go n x acc = be n x ++ acc.
Proof.
  unfold be. revert x acc. induction n as [|n IH]; intros x acc; simpl; [done|].
  rewrite (IH _ (_ :: acc)), (IH _ [_]), <- app_assoc. done.
Qed.

Lemma be_S n x : be (S n) x = be n (x / 256) ++ [x mod 256].
Proof. unfold be at 1. simpl. by rewrite be_go_app. Qed.

Lemma length_be n x : length (be n x) = n.
Proof.
  revert x. induction n as [|n IH]; intros x; [done|].
  rewrite be_S, length_app, IH. simpl. lia.
Qed.

Lemma len_be n x : len (be n x) = Z.of_nat n.
Proof. unfold len. by rewrite length_be. Qed.

Lemma be_ok n x : bytes_ok (be n x).
Proof.
  revert x. induction n as [|n IH]; intros x; [constructor|].
  rewrite be_S. apply bytes_ok_app. split; [done|].
  repeat constructor; apply Z.mod_pos_bound; lia.
Qed.

Lemma SetBytes_be n x : SetBytes (be n x) = x mod 256 ^ Z.of_nat n.
Proof.
  revert x. induction n as [|n IH]; intros x.
  - simpl. by rewrite Z.mod_1_r.
  - rewrite be_S, SetBytes_snoc, IH.
    rewrite Nat2Z.inj_succ, Z.pow_succ_r by lia.
    rewrite Z.rem_mul_r by lia. lia.
Qed.

Lemma be_SetBytes l : bytes_ok l -> be (length l) (SetBytes l) = l.
Proof.
  induction l as [|b l IH] using rev_ind; intros Hl; [done|].
  apply bytes_ok_app in Hl as [Hl [Hb _]%bytes_ok_cons]. unfold byte_ok in Hb.
  rewrite length_app, Nat.add_comm. simpl. rewrite be_S, SetBytes_snoc.
  rewrite Z.div_add_l, (Z.div_small b), Z.add_0_r, (IH Hl) by lia.
  rewrite Z.add_comm, Z.mod_add, Z.mod_small by lia. done.
Qed.

Lemma be_mod n x : be n (x mod 256 ^ Z.of_nat n) = be n x.
Proof.
  rewrite <- SetBytes_be. rewrite <- (length_be n x) at 1. apply be_SetBytes, be_ok.
Qed.

(** A longer big-endian encoding only adds leading zeros. *)
Lemma be_pad n k x : 0 <= x < 256 ^ Z.of_nat n -> be (k + n) x = replicate k 0 ++ be n x.
Proof.
  revert x k. induction n as [|n IH]; intros x k Hx.
  - replace x with 0 by (simpl in Hx; lia). rewrite Nat.add_0_r, app_nil_r.
    clear. induction k as [|k IH]; [done|].
    rewrite be_S. change (0 / 256) with 0. change (0 mod 256) with 0.
    by rewrite IH, replicate_S_end.
  - rewrite Nat.add_succ_r, !be_S, IH, <- app_assoc; [done|].
    rewrite Nat2Z.inj_succ, Z.pow_succ_r in Hx by lia.
    split; [apply Z.div_pos; lia|]. apply Z.div_lt_upper_bound; lia.
Qed.

Lemma BitLen_nonneg x : 0 <= BitLen x.
Proof. unfold BitLen. destruct (x =? 0); [lia|]. pose proof (Z.log2_nonneg (Z.abs x)). lia. Qed.

Lemma BitLen_spec x n : 0 <= n -> (BitLen x <= n <-> Z.abs x < 2 ^ n).
Proof.
  intros Hn. unfold BitLen. destruct (Z.eqb_spec x 0) as [->|Hx].
  - simpl. pose proof (Z.pow_pos_nonneg 2 n). lia.
  - rewrite (Z.log2_lt_pow2 (Z.abs x)) by lia. lia.
Qed.

Lemma pow_256 n : 0 <= n -> 256 ^ n = 2 ^ (8 * n).
Proof. intros. rewrite Z.pow_mul_r by lia. done. Qed.

Lemma abs_lt_256 x n : 0 <= n -> BitLen x <= 8 * n -> Z.abs x < 256 ^ n.
Proof. intros. rewrite pow_256 by done. apply BitLen_spec; lia. Qed.

Lemma SetBytes_Bytes x : SetBytes (Bytes x) = Z.abs x.
Proof.
  unfold Bytes. rewrite SetBytes_be. apply Z.mod_small. split; [lia|].
  pose proof (BitLen_nonneg x). apply abs_lt_256; [lia|].
  rewrite Z2Nat.id by (apply Z.div_pos; lia).
  pose proof (Z.div_mod (BitLen x + 7) 8). pose proof (Z.mod_pos_bound (BitLen x + 7) 8). lia.
Qed.

Lemma Bytes_ok x : bytes_ok (Bytes x).
Proof. apply be_ok. Qed.

Lemma len_Bytes x : len (Bytes x) = (BitLen x + 7) / 8.
Proof. unfold Bytes. rewrite len_be. pose proof (BitLen_nonneg x). rewrite Z2Nat.id; [done|]. apply Z.div_pos; lia. Qed.

(** ** 256-bit words *)

Lemma tt256_pos : 0 < tt256.
Proof. done. Qed.

Lemma U256_mod x : U256 x = x mod tt256.
Proof. unfold U256. change tt256m1 with (Z.ones 256). by rewrite Z.land_ones. Qed.

Lemma U256_range x : is_word (U256 x).
Proof. rewrite U256_mod. apply Z.mod_pos_bound, tt256_pos. Qed.

Lemma U256_id x : is_word x -> U256 x = x.
Proof. rewrite U256_mod. apply Z.mod_small. Qed.

Lemma S256_range x : is_word x -> - tt255 <= S256 x < tt255.
Proof.
  unfold is_word, S256, two256, tt255, tt256. destruct (Z.ltb_spec x (2 ^ 255)); lia.
Qed.

Lemma U256_S256 x : U256 (S256 x) = U256 x.
Proof.
  rewrite !U256_mod. unfold S256. destruct (x <? tt255); [done|].
  replace (x - tt256) with (x + (-1) * tt256) by lia. by rewrite Z.mod_add.
Qed.

Lemma S256_small x : - tt255 <= x < tt255 -> S256 (U256 x) = x.
Proof.
  rewrite U256_mod. unfold S256, tt255, tt256. intros Hx.
  destruct (Z_lt_dec x 0).
  - replace (x mod 2 ^ 256) with (x + 2 ^ 256).
    + destruct (Z.ltb_spec (x + 2 ^ 256) (2 ^ 255)); lia.
    + rewrite <- (Z.mod_add x 1), Z.mul_1_l, Z.mod_small; lia.
  - rewrite Z.mod_small by lia. destruct (Z.ltb_spec x (2 ^ 255)); lia.
Qed.

(** *** Exponentiation by squaring *)

Lemma mul_mod_congr m a a' b b' :
  a mod m = a' mod m -> b mod m = b' mod m -> (a * b) mod m = (a' * b') mod m.
Proof. intros Ha Hb. by rewrite Zmult_mod, Ha, Hb, <- Zmult_mod. Qed.

Lemma pow_mod_congr m a a' n :
  0 < m -> a mod m = a' mod m -> (a ^ n) mod m = (a' ^ n) mod m.
Proof. intros Hm Ha. by rewrite Zpower_mod, Ha, <- Zpower_mod. Qed.

Lemma bit_split w k :
  0 <= k -> w mod 2 ^ (k + 1) = Z.land w 1 + 2 * (Z.shiftr w 1 mod 2 ^ k).
Proof.
  intros Hk. change 1 with (Z.ones 1) at 2. rewrite Z.land_ones, Z.shiftr_div_pow2 by lia.
  rewrite Z.add_comm, Z.pow_add_r, Z.rem_mul_r by lia. lia.
Qed.

Lemma land_1_cases w : Z.land w 1 = 0 \/ Z.land w 1 = 1.
Proof.
  pose proof (Z.land_ones w 1 ltac:(lia)) as H. change (Z.ones 1) with 1 in H. rewrite H.
  pose proof (Z.mod_pos_bound w (2 ^ 1)). lia.
Qed.

Lemma Exp_word_spec k w b r :
  0 <= w ->
  let '(b', r') := Exp_word k w b r in
  b' mod tt256 = b ^ (2 ^ Z.of_nat k) mod tt256 /\
  r' mod tt256 = (r * b ^ (w mod 2 ^ Z.of_nat k)) mod tt256.
Proof.
  pose proof tt256_pos as Hp.
  revert w b r. induction k as [|k IH]; intros w b r Hw; cbn [Exp_word].
  - simpl. by rewrite Z.mod_1_r, Z.pow_0_r, Z.mul_1_r, Z.pow_1_r.
  - set (r1 := if _ =? _ then _ else _).
    specialize (IH (Z.shiftr w 1) (U256 (b * b)) r1).
    destruct (Exp_word _ _ _ _) as [b' r']. destruct IH as [IHb IHr]; [by apply Z.shiftr_nonneg|].
    assert (Hbb : forall n, 0 <= n -> U256 (b * b) ^ n mod tt256 = b ^ (2 * n) mod tt256).
    { intros n Hn. rewrite (pow_mod_congr _ _ (b * b)); [|done|by rewrite U256_mod, Z.mod_mod].
      by rewrite Z.pow_mul_r, Z.pow_2_r by lia. }
    rewrite Nat2Z.inj_succ. split.
    + rewrite IHb, Hbb by (apply Z.pow_nonneg; lia). by rewrite Z.pow_succ_r by lia.
    + rewrite IHr, <- Z.add_1_r, bit_split by lia.
      set (q := _ mod 2 ^ Z.of_nat k).
      assert (0 <= q) by (apply Z.mod_pos_bound, Z.pow_pos_nonneg; lia).
      rewrite (mul_mod_congr _ r1 (r * b ^ Z.land w 1) _ (b ^ (2 * q))), <- Z.mul_assoc, <- Z.pow_add_r.
      * done.
      * destruct (land_1_cases w); lia.
      * lia.
      * unfold r1. destruct (land_1_cases w) as [-> | ->]; simpl.
        -- by rewrite Z.pow_0_r, Z.mul_1_r.
        -- by rewrite U256_mod, Z.mod_mod, Z.pow_1_r.
      * by apply Hbb.
Qed.

Lemma Exp_word_range k w b r : is_word r -> is_word (snd (Exp_word k w b r)).
Proof.
  revert w b r. induction k as [|k IH]; intros w b r Hr; [done|].
  cbn [Exp_word]. apply IH. destruct (_ =? _); [apply U256_range|done].
Qed.

Fixpoint le_value (ws : list Z) : Z :=
  match ws with
  | [] => 0
  | w :: ws' => w + two64 * le_value ws'
  end.

Lemma le_words_ok n x : Forall is_u64 (le_words n x).
Proof.
  revert x. induction n; intros x; constructor; [apply u64_range|done].
Qed.

Lemma le_value_words n x : le_value (le_words n x) = x mod two64 ^ Z.of_nat n.
Proof.
  revert x. induction n as [|n IH]; intros x; cbn [le_words le_value].
  - by rewrite Z.mod_1_r.
  - rewrite IH, Nat2Z.inj_succ, Z.pow_succ_r, Z.rem_mul_r; [done|done| |lia].
    apply Z.pow_pos_nonneg; [done|lia].
Qed.

Lemma le_value_nonneg ws : Forall is_u64 ws -> 0 <= le_value ws.
Proof. induction 1 as [|w ws Hw _ IH]; simpl; [done|]. unfold is_u64, two64 in *. lia. Qed.

Lemma le_value_Bits x : le_value (Bits x) = Z.abs x.
Proof.
  unfold Bits. rewrite le_value_words. apply Z.mod_small. split; [lia|].
  pose proof (BitLen_nonneg x). rewrite Z2Nat.id by (apply Z.div_pos; lia).
  change two64 with (2 ^ 64). rewrite <- Z.pow_mul_r by (try apply Z.div_pos; lia).
  apply BitLen_spec; [apply Z.mul_nonneg_nonneg; [lia|apply Z.div_pos; lia]|].
  pose proof (Z.div_mod (BitLen x + 63) 64). pose proof (Z.mod_pos_bound (BitLen x + 63) 64). lia.
Qed.

Lemma Exp_words_spec ws b r :
  Forall is_u64 ws ->
  snd (Exp_words ws b r) mod tt256 = (r * b ^ le_value ws) mod tt256.
Proof.
  pose proof tt256_pos as Hp.
  intros Hws. revert b r. induction Hws as [|w ws Hw Hws IH]; intros b r; cbn [Exp_words le_value].
  - simpl. by rewrite Z.pow_0_r, Z.mul_1_r.
  - pose proof (Exp_word_spec wordBits w b r) as Hs.
    destruct (Exp_word _ _ _ _) as [b' r']. destruct Hs as [Hb Hr]; [apply Hw|].
    change (2 ^ Z.of_nat wordBits) with two64 in *.
    rewrite (Z.mod_small w) in Hr by apply Hw.
    rewrite IH, (mul_mod_congr _ r' (r * b ^ w) _ (b ^ (two64 * le_value ws))), <- Z.mul_assoc.
    + rewrite <- Z.pow_add_r; [done|apply Hw|]. apply Z.mul_nonneg_nonneg; [done|by apply le_value_nonneg].
    + done.
    + rewrite (pow_mod_congr _ _ (b ^ two64)) by done.
      by rewrite Z.pow_mul_r by (done || by apply le_value_nonneg).
Qed.

Lemma Exp_words_range ws b r : is_word r -> is_word (snd (Exp_words ws b r)).
Proof.
  revert b r. induction ws as [|w ws IH]; intros b r Hr; [done|]. cbn [Exp_words].
  pose proof (Exp_word_range wordBits w b r Hr). destruct (Exp_word _ _ _ _). by apply IH.
Qed.

Lemma Exp_range b e : is_word (Exp b e).
Proof. apply Exp_words_range. by split. Qed.

Lemma Exp_spec b e : 0 <= e -> Exp b e = b ^ e mod tt256.
Proof.
  intros He. rewrite <- (Z.mod_small (Exp b e) tt256) by apply Exp_range.
  unfold Exp, Exp_mut. rewrite Exp_words_spec by apply le_words_ok.
  rewrite le_value_Bits, Z.abs_eq by done. f_equal. lia.
Qed.

(** *** Byte extraction and padded encodings *)

Lemma be_split a b x : be (a + b) x = be a (x / 256 ^ Z.of_nat b) ++ be b x.
Proof.
  revert x. induction b as [|b IH]; intros x.
  - simpl. by rewrite Z.div_1_r, Nat.add_0_r, app_nil_r.
  - rewrite Nat.add_succ_r, !be_S, IH, <- app_assoc, Nat2Z.inj_succ, Z.pow_succ_r by lia.
    by rewrite Z.div_div by lia.
Qed.

Lemma be_congr n x y : x mod 256 ^ Z.of_nat n = y mod 256 ^ Z.of_nat n -> be n x = be n y.
Proof. intros H. by rewrite <- (be_mod n x), H, be_mod. Qed.

Lemma ReadBits_word_spec j d i buf :
  (i <= length buf)%nat ->
  ReadBits_word j d i buf =
    ((i - j)%nat, take (i - j) buf ++ be (Nat.min j i) d ++ drop i buf).
Proof.
  revert d i buf. induction j as [|j IH]; intros d [|i] buf Hi; cbn [ReadBits_word].
  - done.
  - simpl. by rewrite take_drop.
  - simpl. by rewrite drop_0.
  - rewrite IH by (rewrite length_insert; lia). f_equal.
    rewrite take_insert_ge by lia. f_equal. cbn [Nat.min]. rewrite be_S, <- app_assoc.
    rewrite Z.shiftr_div_pow2 by lia. f_equal.
    rewrite (drop_S _ (d mod 256)) by (by apply list_lookup_insert_eq).
    by rewrite drop_insert_lt by lia.
Qed.

Lemma ReadBits_words_spec ws i buf :
  Forall is_u64 ws -> (i <= length buf)%nat ->
  ReadBits_words ws i buf =
    take (i - 8 * length ws) buf ++ be (Nat.min (8 * length ws) i) (le_value ws) ++ drop i buf.
Proof.
  intros Hws. revert i buf. induction Hws as [|w ws Hw Hws IH]; intros i buf Hi.
  - simpl. rewrite Nat.sub_0_r. by rewrite take_drop.
  - cbn [ReadBits_words]. rewrite ReadBits_word_spec by done.
    rewrite IH; [|rewrite !length_app, length_take, length_be, length_drop; lia].
    cbn [length le_value]. set (k := length ws).
    rewrite take_app_le, take_take by (rewrite length_take; lia).
    rewrite (drop_app_length' (take (i - 8) buf)) by (rewrite length_take; lia).
    replace (Nat.min (8 * S k) i) with (Nat.min (8 * k) (i - 8) + Nat.min 8 i)%nat by lia.
    rewrite be_split, <- app_assoc. f_equal; [f_equal; lia|].
    destruct (decide (i <= 8)%nat) as [Hs|Hs].
    + replace (Nat.min (8 * k) (i - 8)) with 0%nat by lia. cbn [be be_go app]. f_equal.
      apply be_congr.
      replace two64 with (256 ^ Z.of_nat (8 - Nat.min 8 i) * 256 ^ Z.of_nat (Nat.min 8 i))
        by (rewrite <- Z.pow_add_r by lia; replace (_ + _)%Z with 8 by lia; done).
      rewrite <- Z.mul_assoc, (Z.mul_comm (256 ^ Z.of_nat (Nat.min 8 i))), Z.mul_assoc.
      by rewrite Z.mod_add by (apply Z.pow_nonzero; lia).
    + replace (Nat.min 8 i) with 8%nat by lia. change (256 ^ Z.of_nat 8) with two64.
      rewrite Z.add_comm, Z.mul_comm, Z.div_add_l, (Z.div_small w), Z.add_0_r by done.
      f_equal. f_equal. apply be_congr. change (256 ^ Z.of_nat 8) with two64.
      by rewrite Z.add_comm, Z.mod_add.
Qed.

Lemma Bits_length_bound x : Z.abs x < 256 ^ Z.of_nat (8 * length (Bits x)).
Proof.
  rewrite <- le_value_Bits. rewrite Nat2Z.inj_mul, Z.pow_mul_r by lia.
  change (256 ^ Z.of_nat 8) with two64.
  pose proof (le_words_ok (Z.to_nat ((BitLen x + 63) / 64)) (Z.abs x)) as H.
  change (le_words _ _) with (Bits x) in H. revert H. generalize (Bits x). clear.
  induction 1 as [|w ws Hw _ IH]; cbn [le_value length]; [done|].
  rewrite Nat2Z.inj_succ, Z.pow_succ_r by lia. unfold is_u64, two64 in *. nia.
Qed.

Lemma ReadBits_zeros x n : ReadBits x (zeros n) = be (Z.to_nat n) (Z.abs x).
Proof.
  unfold ReadBits. rewrite ReadBits_words_spec by (apply le_words_ok || lia).
  rewrite le_value_Bits, drop_all, app_nil_r.
  unfold zeros. rewrite length_replicate, take_replicate, Nat.min_l by lia.
  set (k := (8 * length (Bits x))%nat). pose proof (Bits_length_bound x) as Hb.
  destruct (decide (k <= Z.to_nat n)%nat) as [Hk|Hk].
  - rewrite Nat.min_l by lia. rewrite <- be_pad; [f_equal; lia|]. fold k in Hb. lia.
  - rewrite Nat.min_r by lia. by replace (Z.to_nat n - k)%nat with 0%nat by lia.
Qed.

(** For an integer of at most [8 * n] bits, [PaddedBigBytes] is the
    fixed-width big-endian encoding. *)
Lemma PaddedBigBytes_spec x n :
  0 <= n -> Z.abs x < 256 ^ n -> PaddedBigBytes x n = be (Z.to_nat n) (Z.abs x).
Proof.
  intros Hn Hx. unfold PaddedBigBytes. destruct (Z.leb_spec n (BitLen x / 8)) as [Hl|Hl].
  - rewrite pow_256 in Hx by done. apply (BitLen_spec x (8 * n)) in Hx; [|lia].
    unfold Bytes. f_equal. f_equal.
    assert (8 * (BitLen x / 8) <= BitLen x) by (apply Z.mul_div_le; lia).
    assert (BitLen x = 8 * n) as -> by lia.
    rewrite Z.mul_comm, Z.div_add_l by lia. change (7 / 8) with 0. lia.
  - apply ReadBits_zeros.
Qed.

Lemma le_words_lookup n x i :
  (i < n)%nat -> le_words n x !! i = Some ((x / two64 ^ Z.of_nat i) mod two64).
Proof.
  revert x i. induction n as [|n IH]; intros x [|i] Hi; cbn [le_words lookup list_lookup]; try lia.
  - simpl. by rewrite Z.div_1_r.
  - rewrite IH by lia. rewrite Nat2Z.inj_succ, Z.pow_succ_r by lia.
    rewrite Z.div_div; [done|done|apply Z.pow_pos_nonneg; [done|lia]].
Qed.

Lemma le_words_length n x : length (le_words n x) = n.
Proof. revert x. induction n as [|n IH]; intros x; [done|]. simpl. by rewrite IH. Qed.

Lemma byte_of_word x a r :
  0 <= a -> 0 <= r < 8 ->
  Z.shiftr ((x / two64 ^ a) mod two64) (8 * r) mod 256 = (x / 256 ^ (8 * a + r)) mod 256.
Proof.
  intros Ha Hr. change two64 with (2 ^ 64). change 256 with (2 ^ 8).
  rewrite <- !Z.pow_mul_r by lia. rewrite <- !Z.land_ones, <- !Z.shiftr_div_pow2 by lia.
  apply Z.bits_inj'. intros m Hm. rewrite !Z.land_spec, !Z.shiftr_spec, Z.land_spec by lia.
  rewrite Z.shiftr_spec by lia. destruct (Z_lt_dec m 8).
  - rewrite !Z.ones_spec_low by lia. rewrite !andb_true_r. f_equal. lia.
  - rewrite (Z.ones_spec_high 8) by lia. by rewrite !andb_false_r.
Qed.

Lemma bigEndianByteAt_spec x n : 0 <= n -> bigEndianByteAt x n = (Z.abs x / 256 ^ n) mod 256.
Proof.
  intros Hn. unfold bigEndianByteAt, wordBytes.
  assert (0 <= n / 8) by (apply Z.div_pos; lia).
  pose proof (Z.mod_pos_bound n 8). pose proof (Z.div_mod n 8).
  destruct (decide (Z.to_nat (n / 8) < length (Bits x))%nat) as [Hl|Hl].
  - unfold Bits in *. rewrite le_words_length in Hl. rewrite le_words_lookup by done.
    rewrite Z2Nat.id, byte_of_word by lia. f_equal. f_equal. f_equal. lia.
  - rewrite lookup_ge_None_2 by lia. pose proof (Bits_length_bound x) as Hb.
    rewrite Z.div_small; [done|]. split; [lia|]. eapply Z.lt_le_trans; [done|].
    apply Z.pow_le_mono_r; lia.
Qed.

Lemma Byte_spec x n : 0 <= n < 32 -> Byte x 32 n = (Z.abs x / 256 ^ (31 - n)) mod 256.
Proof.
  intros Hn. unfold Byte. destruct (Z.leb_spec 32 n); [lia|].
  by rewrite bigEndianByteAt_spec by lia.
Qed.

(** ** Overflow-checked [uint64] arithmetic *)

Lemma SafeAdd_spec x y :
  is_u64 x -> is_u64 y ->
  SafeAdd x y = (if x + y <? two64 then (x + y, false) else (x + y - two64, true)).
Proof.
  unfold SafeAdd, MaxUint64, is_u64, u64. intros Hx Hy.
  destruct (Z.ltb_spec (x + y) two64).
  - rewrite Z.mod_small by lia. f_equal. apply Z.ltb_ge. lia.
  - f_equal; [|apply Z.ltb_lt; lia].
    rewrite <- (Z.mod_add _ (-1)), Z.mod_small by (unfold two64 in *; lia).
    unfold two64; lia.
Qed.

Lemma SafeMul_spec x y :
  is_u64 x -> is_u64 y ->
  SafeMul x y = (u64 (x * y), negb (x * y <? two64)).
Proof.
  unfold SafeMul, MaxUint64, is_u64. intros Hx Hy.
  destruct (Z.eqb_spec x 0) as [->|Hx0]; [done|].
  destruct (Z.eqb_spec y 0) as [->|Hy0]; [by rewrite Z.mul_0_r|]. simpl. f_equal.
  pose proof (Z.mul_div_le (two64 - 1) x). pose proof (Z.mul_succ_div_gt (two64 - 1) x).
  destruct (Z.ltb_spec ((two64 - 1) / x) y), (Z.ltb_spec (x * y) two64); simpl; try done; nia.
Qed.

End Big.
