(* ===== verification/Types.v ===== *)
(** * Package [common]: byte helpers, [Hash] and [Address]

    Translates [src/common/bytes.go] (padding, hexadecimal) and the value
    semantics of [Hash] and [Address] from [src/common/types.go].  A Go array
    [[N]byte] is a [list Z] of length [N] whose elements are bytes
    ([array_ok N]); a Go string is the list of its bytes. *)

From Stdlib Require Import Ascii String.
From stdpp Require Import base list numbers gmap.
From S2P Require Import Prelude BigInt.

#[local] Open Scope Z_scope.

Module Common.
Import Big.

(** The bytes of a string literal. *)
Definition of_string (s : string) : bytes :=
  List.map (fun c => Z.of_nat (nat_of_ascii c)) (list_ascii_of_string s).

(** ** [bytes.go] *)

Definition RightPadBytes (slice : bytes) (l : Z) : bytes :=
  if l <=? len slice then slice else copy_into (zeros l) slice.

Definition LeftPadBytes (slice : bytes) (l : Z) : bytes :=
  if l <=? len slice then slice
  else take (Z.to_nat (l - len slice)) (zeros l) ++
       copy_into (drop (Z.to_nat (l - len slice)) (zeros l)) slice.

Definition isHexCharacter (c : Z) : bool :=
  ((48 <=? c) && (c <=? 57)) || ((97 <=? c) && (c <=? 102)) || ((65 <=? c) && (c <=? 70)).

Definition hasHexPrefix (str : bytes) : bool :=
  match str with
  | c0 :: c1 :: _ => (c0 =? 48) && ((c1 =? 120) || (c1 =? 88))
  | _ => false
  end.

Definition isHex (str : bytes) : bool :=
  if negb (len str mod 2 =? 0) then false else forallb isHexCharacter str.

(** [encoding/hex]: the lower-case digit of a nibble and its inverse. *)
Definition hexDigit (n : Z) : Z := if n <? 10 then 48 + n else 87 + n.

Definition fromHexChar (c : Z) : option Z :=
  if (48 <=? c) && (c <=? 57) then Some (c - 48)
  else if (97 <=? c) && (c <=? 102) then Some (c - 87)
  else if (65 <=? c) && (c <=? 70) then Some (c - 55)
  else None.

(** [hex.EncodeToString]. *)
Definition Bytes2Hex (d : bytes) : bytes :=
  flat_map (fun b => [hexDigit (b / 16); hexDigit (b mod 16)]) d.

(** [hex.DecodeString], whose error is ignored: the bytes decoded before the
    first malformed pair. *)
Fixpoint Hex2Bytes (str : bytes) : bytes :=
  match str with
  | c0 :: c1 :: rest =>
      match fromHexChar c0, fromHexChar c1 with
      | Some a, Some b => a * 16 + b :: Hex2Bytes rest
      | _, _ => []
      end
  | _ => []
  end.

Definition ToHex (b : bytes) : bytes :=
  let hex := Bytes2Hex b in
  let hex := if len hex =? 0 then [48] else hex in
  48 :: 120 :: hex.

Definition FromHex (s : bytes) : bytes :=
  let s := if hasHexPrefix s then drop 2 s else s in
  let s := if len s mod 2 =? 1 then 48 :: s else s in
  Hex2Bytes s.

(** ** [types.go] *)

Definition HashLength : nat := 32.
Definition AddressLength : nat := 20.

Definition array_ok (n : nat) (h : bytes) : Prop := length h = n /\ bytes_ok h.
Abbreviation Hash := (list Z) (only parsing).
Abbreviation Address := (list Z) (only parsing).
Definition hash_ok : Hash -> Prop := array_ok HashLength.
Definition address_ok : Address -> Prop := array_ok AddressLength.

(** [SetBytes] on a zero array of [n] bytes: crop from the left, right-align. *)
Definition set_bytes (n : nat) (b : bytes) : bytes :=
  let b := if Nat.ltb n (length b) then drop (length b - n) b else b in
  replicate (n - length b) 0 ++ b.

Definition BytesToHash (b : bytes) : Hash := set_bytes HashLength b.
Definition StringToHash (s : string) : Hash := BytesToHash (of_string s).
Definition BigToHash (b : Z) : Hash := BytesToHash (Bytes b).
Definition Hash_Big (h : Hash) : Z := SetBytes h.
Definition zeroHash : Hash := replicate HashLength 0.
Definition EmptyHash (h : Hash) : bool := bool_decide (h = zeroHash).

Definition BytesToAddress (b : bytes) : Address := set_bytes AddressLength b.
Definition StringToAddress (s : string) : Address := BytesToAddress (of_string s).
Definition BigToAddress (b : Z) : Address := BytesToAddress (Bytes b).
Definition HexToAddress (s : bytes) : Address := BytesToAddress (FromHex s).
Definition Address_Big (a : Address) : Z := SetBytes a.
Definition zeroAddress : Address := replicate AddressLength 0.

Definition IsHexAddress (s : bytes) : bool :=
  let s := if hasHexPrefix s then drop 2 s else s in
  (len s =? 2 * Z.of_nat AddressLength) && isHex s.

(** ** Padding *)

Lemma RightPadBytes_spec s l :
  RightPadBytes s l = s ++ zeros (l - len s).
Proof.
  unfold RightPadBytes. pose proof (len_nonneg s). destruct (Z.leb_spec l (len s)).
  - unfold zeros. replace (Z.to_nat (l - len s)) with 0%nat by lia. by rewrite app_nil_r.
  - unfold copy_into, zeros, len in *. rewrite length_replicate, take_ge, drop_replicate by lia.
    f_equal. f_equal. lia.
Qed.

Lemma len_RightPadBytes s l : len (RightPadBytes s l) = Z.max (len s) l.
Proof.
  rewrite RightPadBytes_spec, len_app. unfold zeros, len. rewrite length_replicate. lia.
Qed.

Lemma RightPadBytes_ok s l : bytes_ok s -> bytes_ok (RightPadBytes s l).
Proof. intros. rewrite RightPadBytes_spec. apply bytes_ok_app. auto with go. Qed.

Lemma LeftPadBytes_spec s l : LeftPadBytes s l = zeros (l - len s) ++ s.
Proof.
  unfold LeftPadBytes. pose proof (len_nonneg s). destruct (Z.leb_spec l (len s)).
  - unfold zeros. by replace (Z.to_nat (l - len s)) with 0%nat by lia.
  - unfold zeros, copy_into, len in *. rewrite take_replicate, drop_replicate, length_replicate.
    rewrite drop_replicate, take_ge by lia.
    rewrite Nat.min_l by lia. f_equal.
    replace (_ - _ - _)%nat with 0%nat by lia. by rewrite app_nil_r.
Qed.

Lemma LeftPadBytes_ok s l : bytes_ok s -> bytes_ok (LeftPadBytes s l).
Proof. intros. rewrite LeftPadBytes_spec. apply bytes_ok_app. auto with go. Qed.

(** ** Fixed-size arrays *)

Lemma set_bytes_ok n b : bytes_ok b -> array_ok n (set_bytes n b).
Proof.
  intros Hb. unfold set_bytes, array_ok. destruct (Nat.ltb_spec n (length b)); split.
  - rewrite length_app, length_replicate, length_drop. lia.
  - apply bytes_ok_app. split; [|auto with go]. apply Forall_replicate. unfold byte_ok. lia.
  - rewrite length_app, length_replicate. lia.
  - apply bytes_ok_app. split; [|done].
    apply Forall_replicate. unfold byte_ok. lia.
Qed.

Lemma set_bytes_be n b : bytes_ok b -> set_bytes n b = be n (SetBytes b).
Proof.
  intros Hb. unfold set_bytes. destruct (Nat.ltb_spec n (length b)) as [Hl|Hl].
  - rewrite length_drop. replace (n - _)%nat with 0%nat by lia. cbn [replicate app].
    rewrite <- (take_drop (length b - n) b) at 3. rewrite SetBytes_app.
    rewrite len_drop. unfold len. replace (Z.max 0 _) with (Z.of_nat n) by lia.
    rewrite <- (be_SetBytes (drop _ b)) at 1 by auto with go.
    rewrite length_drop. replace (length b - (length b - n))%nat with n by lia.
    apply be_congr. by rewrite Z.add_comm, Z.mod_add by (apply Z.pow_nonzero; lia).
  - rewrite <- (be_SetBytes b Hb) at 2. rewrite <- be_pad.
    + f_equal. lia.
    + by apply SetBytes_bound.
Qed.

Lemma BigToHash_be x : BigToHash x = be 32 (Z.abs x).
Proof. unfold BigToHash, BytesToHash. by rewrite set_bytes_be, SetBytes_Bytes by apply Bytes_ok. Qed.

Lemma BigToAddress_be x : BigToAddress x = be 20 (Z.abs x).
Proof. unfold BigToAddress, BytesToAddress. by rewrite set_bytes_be, SetBytes_Bytes by apply Bytes_ok. Qed.

Lemma BigToHash_ok x : hash_ok (BigToHash x).
Proof. apply set_bytes_ok, Bytes_ok. Qed.
Lemma BigToAddress_ok x : address_ok (BigToAddress x).
Proof. apply set_bytes_ok, Bytes_ok. Qed.

Lemma of_string_ok s : bytes_ok (of_string s).
Proof.
  unfold of_string. induction (list_ascii_of_string s) as [|c l IH]; constructor; [|done].
  pose proof (nat_ascii_bounded c). unfold byte_ok. lia.
Qed.

Lemma StringToHash_ok s : hash_ok (StringToHash s).
Proof. apply set_bytes_ok, of_string_ok. Qed.
Lemma StringToAddress_ok s : address_ok (StringToAddress s).
Proof. apply set_bytes_ok, of_string_ok. Qed.
Lemma zeroHash_ok : hash_ok zeroHash.
Proof. split; [done|]. apply Forall_replicate. unfold byte_ok. lia. Qed.

(** The integer read back from a hash is the low 256 bits. *)
Lemma Hash_Big_BigToHash x : Hash_Big (BigToHash x) = Z.abs x mod two256.
Proof. unfold Hash_Big. rewrite BigToHash_be, SetBytes_be. done. Qed.

Lemma Hash_Big_word h : hash_ok h -> is_word (Hash_Big h).
Proof.
  intros [Hl Hb]. unfold Hash_Big. pose proof (SetBytes_bound h Hb) as H.
  unfold len in H. rewrite Hl in H. exact H.
Qed.

Lemma BigToHash_Hash_Big h : hash_ok h -> BigToHash (Hash_Big h) = h.
Proof.
  intros Hh. pose proof (Hash_Big_word h Hh) as Hw. destruct Hh as [Hl Hb].
  rewrite BigToHash_be, Z.abs_eq by apply Hw. unfold Hash_Big.
  change 32%nat with HashLength. rewrite <- Hl. by apply be_SetBytes.
Qed.

Lemma BigToHash_inj x y : is_word x -> is_word y -> BigToHash x = BigToHash y -> x = y.
Proof.
  intros Hx Hy H. apply (f_equal Hash_Big) in H. rewrite !Hash_Big_BigToHash in H.
  unfold is_word in *. rewrite !Z.abs_eq, !Z.mod_small in H by lia. done.
Qed.

Lemma Address_Big_BigToAddress x : Address_Big (BigToAddress x) = Z.abs x mod 2 ^ 160.
Proof. unfold Address_Big. rewrite BigToAddress_be, SetBytes_be. done. Qed.

Lemma Address_Big_bound a : address_ok a -> 0 <= Address_Big a < 2 ^ 160.
Proof.
  intros [Hl Hb]. unfold Address_Big. pose proof (SetBytes_bound a Hb) as H.
  unfold len in H. rewrite Hl in H. exact H.
Qed.

(** ** Hexadecimal round trip *)

Lemma fromHexChar_hexDigit n : 0 <= n < 16 -> fromHexChar (hexDigit n) = Some n.
Proof.
  intros Hn. assert (n = Z.of_nat (Z.to_nat n)) as -> by lia.
  assert (Z.to_nat n < 16)%nat as Hk by lia. revert Hk. generalize (Z.to_nat n). clear.
  intros k Hk. do 16 (destruct k as [|k]; [done|]). lia.
Qed.

Lemma Hex2Bytes_Bytes2Hex d : bytes_ok d -> Hex2Bytes (Bytes2Hex d) = d.
Proof.
  induction 1 as [|b d Hb _ IH]; [done|]. unfold byte_ok in Hb.
  change (Bytes2Hex (b :: d)) with (hexDigit (b / 16) :: hexDigit (b mod 16) :: Bytes2Hex d).
  cbn [Hex2Bytes].
  rewrite !fromHexChar_hexDigit, IH.
  - f_equal. pose proof (Z.div_mod b 16). lia.
  - apply Z.mod_pos_bound. lia.
  - split; [apply Z.div_pos; lia|]. apply Z.div_lt_upper_bound; lia.
Qed.

#[export] Hint Resolve RightPadBytes_ok LeftPadBytes_ok BigToHash_ok BigToAddress_ok
  StringToHash_ok zeroHash_ok of_string_ok : go.

End Common.
