(* ===== verification/Params.v ===== *)
(** * Package [params]: chain configuration, gas tables, protocol constants

    Translates [src/params/config.go], [src/params/gas_table.go] and the
    constants of [src/params/protocol_params.go] the virtual machine reads.
    A [*big.Int] block number that may be nil is an [option Z]. *)

From Stdlib Require Import String.
From stdpp Require Import base numbers option.
From S2P Require Import Prelude BigInt.

#[local] Open Scope Z_scope.

Module Params.
Import Big.

(** ** [protocol_params.go] *)
Definition CallValueTransferGas : Z := 9000.
Definition CallNewAccountGas : Z := 25000.
Definition QuadCoeffDiv : Z := 512.
Definition SstoreSetGas : Z := 20000.
Definition LogDataGas : Z := 8.
Definition CallStipend : Z := 2300.
Definition Sha3Gas : Z := 30.
Definition Sha3WordGas : Z := 6.
Definition SstoreResetGas : Z := 5000.
Definition SstoreClearGas : Z := 5000.
Definition SstoreRefundGas : Z := 15000.
Definition JumpdestGas : Z := 1.
Definition CreateDataGas : Z := 200.
Definition CallCreateDepth : Z := 1024.
Definition LogGas : Z := 375.
Definition CopyGas : Z := 3.
Definition StackLimit : Z := 1024.
Definition LogTopicGas : Z := 375.
Definition CreateGas : Z := 32000.
Definition SuicideRefundGas : Z := 24000.
Definition MemoryGas : Z := 3.
Definition MaxCodeSize : Z := 24576.
Definition EcrecoverGas : Z := 3000.
Definition Sha256BaseGas : Z := 60.
Definition Sha256PerWordGas : Z := 12.
Definition Ripemd160BaseGas : Z := 600.
Definition Ripemd160PerWordGas : Z := 120.
Definition IdentityBaseGas : Z := 15.
Definition IdentityPerWordGas : Z := 3.
Definition ModExpQuadCoeffDiv : Z := 20.
Definition Bn256AddGas : Z := 500.
Definition Bn256ScalarMulGas : Z := 40000.
Definition Bn256PairingBaseGas : Z := 100000.
Definition Bn256PairingPerPointGas : Z := 80000.

(** ** [gas_table.go] *)
Record GasTable := {
  ExtcodeSize : Z;
  ExtcodeCopy : Z;
  Balance : Z;
  SLoad : Z;
  Calls : Z;
  Suicide : Z;
  ExpByte : Z;
  CreateBySuicide : Z
}.

Definition GasTableHomestead : GasTable :=
  {| ExtcodeSize := 20; ExtcodeCopy := 20; Balance := 20; SLoad := 50; Calls := 40;
     Suicide := 0; ExpByte := 10; CreateBySuicide := 0 |}.
Definition GasTableEIP150 : GasTable :=
  {| ExtcodeSize := 700; ExtcodeCopy := 700; Balance := 400; SLoad := 200; Calls := 700;
     Suicide := 5000; ExpByte := 10; CreateBySuicide := 25000 |}.
Definition GasTableEIP158 : GasTable :=
  {| ExtcodeSize := 700; ExtcodeCopy := 700; Balance := 400; SLoad := 200; Calls := 700;
     Suicide := 5000; ExpByte := 50; CreateBySuicide := 25000 |}.

(** ** [config.go] *)
Record ChainConfig := {
  ChainId : option Z;
  HomesteadBlock : option Z;
  DAOForkBlock : option Z;
  DAOForkSupport : bool;
  EIP150Block : option Z;
  EIP155Block : option Z;
  EIP158Block : option Z;
  ByzantiumBlock : option Z
}.

Definition MainnetChainConfig : ChainConfig :=
  {| ChainId := Some 1; HomesteadBlock := Some 1150000; DAOForkBlock := Some 1920000;
     DAOForkSupport := true; EIP150Block := Some 2463000; EIP155Block := Some 2675000;
     EIP158Block := Some 2675000; ByzantiumBlock := Some 4370000 |}.

Definition TestnetChainConfig : ChainConfig :=
  {| ChainId := Some 3; HomesteadBlock := Some 0; DAOForkBlock := None;
     DAOForkSupport := true; EIP150Block := Some 0; EIP155Block := Some 10;
     EIP158Block := Some 10; ByzantiumBlock := Some 1700000 |}.

Definition RinkebyChainConfig : ChainConfig :=
  {| ChainId := Some 4; HomesteadBlock := Some 1; DAOForkBlock := None;
     DAOForkSupport := true; EIP150Block := Some 2; EIP155Block := Some 3;
     EIP158Block := Some 3; ByzantiumBlock := Some 1035301 |}.

Definition TestChainConfig : ChainConfig :=
  {| ChainId := Some 1; HomesteadBlock := Some 0; DAOForkBlock := None;
     DAOForkSupport := false; EIP150Block := Some 0; EIP155Block := Some 0;
     EIP158Block := Some 0; ByzantiumBlock := Some 0 |}.

Definition isForked (s head : option Z) : bool :=
  match s, head with
  | Some s, Some head => s <=? head
  | _, _ => false
  end.

Definition IsHomestead (c : ChainConfig) (num : option Z) : bool := isForked (HomesteadBlock c) num.
Definition IsDAOFork (c : ChainConfig) (num : option Z) : bool := isForked (DAOForkBlock c) num.
Definition IsEIP150 (c : ChainConfig) (num : option Z) : bool := isForked (EIP150Block c) num.
Definition IsEIP155 (c : ChainConfig) (num : option Z) : bool := isForked (EIP155Block c) num.
Definition IsEIP158 (c : ChainConfig) (num : option Z) : bool := isForked (EIP158Block c) num.
Definition IsByzantium (c : ChainConfig) (num : option Z) : bool := isForked (ByzantiumBlock c) num.

(** Method [GasTable]. *)
Definition gas_table (c : ChainConfig) (num : option Z) : GasTable :=
  match num with
  | None => GasTableHomestead
  | Some _ =>
      if IsEIP158 c num then GasTableEIP158
      else if IsEIP150 c num then GasTableEIP150
      else GasTableHomestead
  end.

Record RulesT := {
  RChainId : Z;
  RIsHomestead : bool;
  RIsEIP150 : bool;
  RIsEIP155 : bool;
  RIsEIP158 : bool;
  RIsByzantium : bool
}.

Definition Rules (c : ChainConfig) (num : option Z) : RulesT :=
  {| RChainId := default 0 (ChainId c); RIsHomestead := IsHomestead c num;
     RIsEIP150 := IsEIP150 c num; RIsEIP155 := IsEIP155 c num;
     RIsEIP158 := IsEIP158 c num; RIsByzantium := IsByzantium c num |}.

Definition configNumEqual (x y : option Z) : bool :=
  match x, y with
  | None, None => true
  | Some x, Some y => x =? y
  | _, _ => false
  end.

Definition isForkIncompatible (s1 s2 head : option Z) : bool :=
  (isForked s1 head || isForked s2 head) && negb (configNumEqual s1 s2).

Record ConfigCompatError := {
  What : string;
  StoredConfig : option Z;
  NewConfig : option Z;
  RewindTo : Z
}.

Definition newCompatError (what : string) (storedblock newblock : option Z) : ConfigCompatError :=
  let rew :=
    match storedblock, newblock with
    | None, _ => newblock
    | Some _, None => storedblock
    | Some s, Some n => if s <? n then storedblock else newblock
    end in
  {| What := what; StoredConfig := storedblock; NewConfig := newblock;
     RewindTo := match rew with
                 | Some r => if 0 <? r then u64 (Uint64 r - 1) else 0
                 | None => 0
                 end |}.

Definition checkCompatible (c newcfg : ChainConfig) (head : option Z) : option ConfigCompatError :=
  if isForkIncompatible (HomesteadBlock c) (HomesteadBlock newcfg) head then
    Some (newCompatError "Homestead fork block"%string (HomesteadBlock c) (HomesteadBlock newcfg))
  else if isForkIncompatible (DAOForkBlock c) (DAOForkBlock newcfg) head then
    Some (newCompatError "DAO fork block"%string (DAOForkBlock c) (DAOForkBlock newcfg))
  else if IsDAOFork c head && negb (Bool.eqb (DAOForkSupport c) (DAOForkSupport newcfg)) then
    Some (newCompatError "DAO fork support flag"%string (DAOForkBlock c) (DAOForkBlock newcfg))
  else if isForkIncompatible (EIP150Block c) (EIP150Block newcfg) head then
    Some (newCompatError "EIP150 fork block"%string (EIP150Block c) (EIP150Block newcfg))
  else if isForkIncompatible (EIP155Block c) (EIP155Block newcfg) head then
    Some (newCompatError "EIP155 fork block"%string (EIP155Block c) (EIP155Block newcfg))
  else if isForkIncompatible (EIP158Block c) (EIP158Block newcfg) head then
    Some (newCompatError "EIP158 fork block"%string (EIP158Block c) (EIP158Block newcfg))
  else if IsEIP158 c head && negb (configNumEqual (ChainId c) (ChainId newcfg)) then
    Some (newCompatError "EIP158 chain ID"%string (EIP158Block c) (EIP158Block newcfg))
  else if isForkIncompatible (ByzantiumBlock c) (ByzantiumBlock newcfg) head then
    Some (newCompatError "Byzantium fork block"%string (ByzantiumBlock c) (ByzantiumBlock newcfg))
  else None.

(** The loop of [CheckCompatible], with fuel. *)
Fixpoint CheckCompatible_loop (fuel : nat) (c newcfg : ChainConfig) (bhead : Z)
    (lasterr : option ConfigCompatError) : result (option ConfigCompatError) :=
  match fuel with
  | O => NoFuel
  | S fuel =>
      match checkCompatible c newcfg (Some bhead) with
      | None => Ok lasterr
      | Some err =>
          match lasterr with
          | Some last =>
              if RewindTo err =? RewindTo last then Ok lasterr
              else CheckCompatible_loop fuel c newcfg (RewindTo err) (Some err)
          | None => CheckCompatible_loop fuel c newcfg (RewindTo err) (Some err)
          end
      end
  end.

Definition CheckCompatible (fuel : nat) (c newcfg : ChainConfig) (height : Z) :=
  CheckCompatible_loop fuel c newcfg height None.

(** ** Properties *)

(** A conflict reported at [head] asks for a rewind strictly below [head],
    except at the genesis block. *)
Lemma newCompatError_rewind what s1 s2 head :
  is_u64 head -> isForked s1 (Some head) || isForked s2 (Some head) = true ->
  let r := RewindTo (newCompatError what s1 s2) in
  is_u64 r /\ (r < head \/ r = 0).
Proof.
  intros Hh Hf.
  assert (forall r, r <= head -> is_u64 (if 0 <? r then u64 (Uint64 r - 1) else 0) /\
    ((if 0 <? r then u64 (Uint64 r - 1) else 0) < head \/ (if 0 <? r then u64 (Uint64 r - 1) else 0) = 0)) as Hr.
  { intros r Hr. unfold is_u64 in *. destruct (Z.ltb_spec 0 r); [|split; [done|by right]].
    unfold Uint64. rewrite Z.abs_eq, Z.mod_small, u64_id by (unfold is_u64; lia). lia. }
  destruct s1 as [s1|], s2 as [s2|]; cbn -[Z.ltb Uint64 u64] in *.
  - destruct (Z.ltb_spec s1 s2); apply Hr;
      destruct (Z.leb_spec s1 head), (Z.leb_spec s2 head); try done; lia.
  - apply Hr. destruct (Z.leb_spec s1 head); [lia|done].
  - apply Hr. destruct (Z.leb_spec s2 head); [lia|done].
  - done.
Qed.

Lemma checkCompatible_rewind c n head err :
  is_u64 head -> checkCompatible c n (Some head) = Some err ->
  is_u64 (RewindTo err) /\ (RewindTo err < head \/ RewindTo err = 0).
Proof.
  intros Hh. unfold checkCompatible, isForkIncompatible, IsDAOFork, IsEIP158.
  repeat match goal with
  | |- (if ?b then _ else _) = _ -> _ => destruct b eqn:?
  end; intros [= <-]; zbool; apply newCompatError_rewind; auto;
  apply orb_true_iff; auto.
Qed.

Lemma CheckCompatible_loop_total c n bhead last fuel :
  is_u64 bhead -> bhead + 1 < Z.of_nat fuel ->
  (forall l, last = Some l -> RewindTo l = bhead) ->
  exists r, CheckCompatible_loop fuel c n bhead last = Ok r /\
  match r with
  | None => last = None /\ checkCompatible c n (Some bhead) = None
  | Some err => is_u64 (RewindTo err) /\
      (checkCompatible c n (Some (RewindTo err)) = None \/
       exists err', checkCompatible c n (Some (RewindTo err)) = Some err' /\
                    RewindTo err' = RewindTo err)
  end.
Proof.
  revert bhead last. induction fuel as [|fuel IH]; intros bhead last Hb Hf Hl; [unfold is_u64 in Hb; lia|].
  cbn [CheckCompatible_loop].
  destruct (checkCompatible c n (Some bhead)) as [err|] eqn:Hc.
  - destruct (checkCompatible_rewind _ _ _ _ Hb Hc) as [Hr Hlt].
    assert (RewindTo err < bhead \/ (RewindTo err = 0 /\ bhead = 0)) as Hdec
      by (unfold is_u64 in *; lia).
    destruct last as [last|].
    + specialize (Hl _ eq_refl). destruct (Z.eqb_spec (RewindTo err) (RewindTo last)) as [He|He].
      * exists (Some last). split; [done|]. rewrite Hl in *. split; [done|].
        right. exists err. by rewrite Hc, He.
      * assert (RewindTo err < bhead) by lia.
        destruct (IH (RewindTo err) (Some err)) as (r & Hr1 & Hr2); [done|lia|by intros ? [= ->]|].
        exists r. split; [done|]. destruct r; [done|]. by destruct Hr2.
    + destruct (decide (RewindTo err = bhead)) as [He|He].
      * exists (Some err). destruct fuel as [|fuel]; [unfold is_u64 in *; lia|].
        cbn [CheckCompatible_loop]. rewrite He, Hc, He, Z.eqb_refl. split; [done|].
        split; [done|]. right. exists err. done.
      * destruct (IH (RewindTo err) (Some err)) as (r & Hr1 & Hr2); [done|lia|by intros ? [= ->]|].
        exists r. split; [done|]. destruct r; [done|]. by destruct Hr2.
  - exists last. split; [done|]. destruct last as [l|]; [|done].
    rewrite (Hl l eq_refl). split; [done|]. by left.
Qed.

(** The gas table in force always prices calls at 40 or more. *)
Lemma gas_table_calls c num : 40 <= Calls (gas_table c num).
Proof. unfold gas_table. destruct num; repeat split_if; done. Qed.

End Params.
