(* ===== verification/StateDB.v ===== *)
(** * The mini state database

    Translates [src/core/state/statedb.go] (type [StateDB] with one method
    per operation) and the value-transfer functions of [src/core/evm.go].
    The map of account pointers is a [gmap]; the operations that create a
    missing account as a side effect return the new database.

    [account_at] is the abstract view of the database (an absent account
    reads as a fresh one) and [state_equiv] the equivalence it induces. *)

From stdpp Require Import base list numbers gmap option fin_maps.
From S2P Require Import Prelude BigInt Types.

#[local] Open Scope Z_scope.

Module StateDB.
Import Big Common.

Record State := mkState {
  address : Address;
  balance : Z;
  nonce : Z;
  codeHash : Hash;
  code : bytes;
  isSuicide : bool;
  storage : gmap Hash Hash
}.

Record Log := mkLog {
  LAddress : Address;
  Topics : list Hash;
  Data : bytes;
  BlockNumber : Z
}.

Record StateDB := mkStateDB {
  StateMap : gmap Address State;
  Logs : list Log
}.

Definition New : StateDB := mkStateDB ∅ [].

(** [&State{addr, 0, 0, Hash{}, nil, false, map{}}]. *)
Definition newState (addr : Address) : State :=
  mkState addr 0 0 zeroHash [] false ∅.

Definition setAccount (st : StateDB) (addr : Address) (s : State) : StateDB :=
  mkStateDB (<[addr := s]> (StateMap st)) (Logs st).

Definition CreateAccount (st : StateDB) (addr : Address) : StateDB :=
  setAccount st addr (newState addr).

(** [if _, ok := st.StateMap[addr]; !ok { st.StateMap[addr] = &State{...} }]. *)
Definition ensure (st : StateDB) (addr : Address) : StateDB :=
  match StateMap st !! addr with
  | Some _ => st
  | None => CreateAccount st addr
  end.

(** The account read after [ensure]. *)
Definition account_at (st : StateDB) (addr : Address) : State :=
  default (newState addr) (StateMap st !! addr).

Definition with_balance (s : State) (v : Z) : State :=
  mkState (address s) v (nonce s) (codeHash s) (code s) (isSuicide s) (storage s).
Definition with_nonce (s : State) (v : Z) : State :=
  mkState (address s) (balance s) v (codeHash s) (code s) (isSuicide s) (storage s).
Definition with_code (s : State) (c : bytes) : State :=
  mkState (address s) (balance s) (nonce s) (codeHash s) c (isSuicide s) (storage s).
Definition with_suicide (s : State) : State :=
  mkState (address s) (balance s) (nonce s) (codeHash s) (code s) true (storage s).
Definition with_storage (s : State) (m : gmap Hash Hash) : State :=
  mkState (address s) (balance s) (nonce s) (codeHash s) (code s) (isSuicide s) m.

Definition SubBalance (st : StateDB) (addr : Address) (value : Z) : StateDB :=
  match StateMap st !! addr with
  | None => st
  | Some s => setAccount st addr (with_balance s (balance s - value))
  end.

Definition AddBalance (st : StateDB) (addr : Address) (value : Z) : StateDB :=
  let st := ensure st addr in
  let s := account_at st addr in
  setAccount st addr (with_balance s (balance s + value)).

Definition GetBalance (st : StateDB) (addr : Address) : Z * StateDB :=
  let st := AddBalance st addr 100 in
  (balance (account_at st addr), st).

Definition GetNonce (st : StateDB) (addr : Address) : Z :=
  match StateMap st !! addr with None => 0 | Some s => nonce s end.

Definition SetNonce (st : StateDB) (addr : Address) (value : Z) : StateDB :=
  let st := ensure st addr in
  setAccount st addr (with_nonce (account_at st addr) value).

Definition GetCodeHash (st : StateDB) (addr : Address) : Hash :=
  match StateMap st !! addr with None => zeroHash | Some s => codeHash s end.

Definition GetCode (st : StateDB) (addr : Address) : bytes :=
  match StateMap st !! addr with None => [] | Some s => code s end.

Definition SetCode (st : StateDB) (addr : Address) (c : bytes) : StateDB :=
  let st := ensure st addr in
  setAccount st addr (with_code (account_at st addr) c).

Definition GetCodeSize (st : StateDB) (addr : Address) : Z :=
  match StateMap st !! addr with None => 0 | Some s => len (code s) end.

Definition AddRefund (st : StateDB) (gas : Z) : StateDB := st.
Definition GetRefund (st : StateDB) : Z := 0.

Definition GetState (st : StateDB) (addr : Address) (key : Hash) : Hash * StateDB :=
  let st := ensure st addr in
  (default zeroHash (storage (account_at st addr) !! key), st).

Definition SetState (st : StateDB) (addr : Address) (key value : Hash) : StateDB :=
  let st := ensure st addr in
  let s := account_at st addr in
  setAccount st addr (with_storage s (<[key := value]> (storage s))).

(** The Go method also returns [true]. *)
Definition Suicide (st : StateDB) (addr : Address) : StateDB :=
  let st := ensure st addr in
  setAccount st addr (with_suicide (account_at st addr)).

Definition HasSuicided (st : StateDB) (addr : Address) : bool * StateDB :=
  let st := ensure st addr in
  (isSuicide (account_at st addr), st).

Definition Exist (st : StateDB) (addr : Address) : bool := true.
Definition Empty (st : StateDB) (addr : Address) : bool := true.
Definition RevertToSnapshot (st : StateDB) (id : Z) : StateDB := st.
Definition Snapshot (st : StateDB) : Z := 0.

Definition AddLog (st : StateDB) (l : Log) : StateDB :=
  mkStateDB (StateMap st) (Logs st ++ [l]).
Definition AddPreimage (st : StateDB) (h : Hash) (preimage : bytes) : StateDB := st.

(** ** [src/core/evm.go] *)

Definition CanTransfer (db : StateDB) (addr : Address) (amount : Z) : bool * StateDB :=
  let '(b, db) := GetBalance db addr in (amount <=? b, db).

Definition Transfer (db : StateDB) (sender recipient : Address) (amount : Z) : StateDB :=
  AddBalance (SubBalance db sender amount) recipient amount.

(** ** The abstract view *)

Definition state_equiv (s1 s2 : StateDB) : Prop :=
  (forall a, account_at s1 a = account_at s2 a) /\ Logs s1 = Logs s2.

#[export] Instance state_equiv_equivalence : Equivalence state_equiv.
Proof.
  split.
  - by intros s.
  - intros s1 s2 [H1 H2]. by split; intros; symmetry.
  - intros s1 s2 s3 [H1 H2] [H3 H4]. split; [intros a; by rewrite H1|congruence].
Qed.

Lemma account_at_setAccount st a s b :
  account_at (setAccount st a s) b = if decide (a = b) then s else account_at st b.
Proof.
  unfold account_at, setAccount; simpl. case_decide as Hab.
  - subst. by rewrite lookup_insert_eq.
  - by rewrite lookup_insert_ne.
Qed.

Lemma account_at_ensure st a b : account_at (ensure st a) b = account_at st b.
Proof.
  unfold ensure. destruct (StateMap st !! a) eqn:E; [done|].
  unfold CreateAccount. rewrite account_at_setAccount. case_decide; [|done].
  subst. unfold account_at. by rewrite E.
Qed.

Lemma Logs_ensure st a : Logs (ensure st a) = Logs st.
Proof. unfold ensure. by destruct (StateMap st !! a). Qed.

Lemma ensure_equiv st a : state_equiv (ensure st a) st.
Proof. split; [intros b; apply account_at_ensure|apply Logs_ensure]. Qed.

Lemma ensure_is_Some st a : is_Some (StateMap (ensure st a) !! a).
Proof.
  unfold ensure. destruct (StateMap st !! a) eqn:E; [by eexists|].
  simpl. rewrite lookup_insert_eq. by eexists.
Qed.

Lemma account_at_AddBalance st a v b :
  account_at (AddBalance st a v) b =
  if decide (a = b) then with_balance (account_at st a) (balance (account_at st a) + v)
  else account_at st b.
Proof. unfold AddBalance. by rewrite account_at_setAccount, !account_at_ensure. Qed.

Lemma account_at_SetNonce st a v b :
  account_at (SetNonce st a v) b =
  if decide (a = b) then with_nonce (account_at st a) v else account_at st b.
Proof. unfold SetNonce. by rewrite account_at_setAccount, !account_at_ensure. Qed.

Lemma account_at_SetCode st a v b :
  account_at (SetCode st a v) b =
  if decide (a = b) then with_code (account_at st a) v else account_at st b.
Proof. unfold SetCode. by rewrite account_at_setAccount, !account_at_ensure. Qed.

Lemma account_at_SetState st a k v b :
  account_at (SetState st a k v) b =
  if decide (a = b) then with_storage (account_at st a) (<[k := v]> (storage (account_at st a)))
  else account_at st b.
Proof. unfold SetState. by rewrite account_at_setAccount, !account_at_ensure. Qed.

Lemma account_at_Suicide st a b :
  account_at (Suicide st a) b =
  if decide (a = b) then with_suicide (account_at st a) else account_at st b.
Proof. unfold Suicide. by rewrite account_at_setAccount, !account_at_ensure. Qed.

Lemma account_at_CreateAccount st a b :
  account_at (CreateAccount st a) b = if decide (a = b) then newState a else account_at st b.
Proof. unfold CreateAccount. by rewrite account_at_setAccount. Qed.

Lemma Logs_SetState st a k v : Logs (SetState st a k v) = Logs st.
Proof. unfold SetState. simpl. apply Logs_ensure. Qed.
Lemma Logs_AddBalance st a v : Logs (AddBalance st a v) = Logs st.
Proof. unfold AddBalance. simpl. apply Logs_ensure. Qed.

(** Readers depend on the view only. *)
Lemma GetNonce_view st a : GetNonce st a = nonce (account_at st a).
Proof. unfold GetNonce, account_at. by destruct (StateMap st !! a). Qed.
Lemma GetCode_view st a : GetCode st a = code (account_at st a).
Proof. unfold GetCode, account_at. by destruct (StateMap st !! a). Qed.
Lemma GetCodeHash_view st a : GetCodeHash st a = codeHash (account_at st a).
Proof. unfold GetCodeHash, account_at. by destruct (StateMap st !! a). Qed.
Lemma GetCodeSize_view st a : GetCodeSize st a = len (code (account_at st a)).
Proof. unfold GetCodeSize, account_at. by destruct (StateMap st !! a). Qed.

(** The value of a storage slot. *)
Definition slot (st : StateDB) (a : Address) (k : Hash) : Hash :=
  default zeroHash (storage (account_at st a) !! k).

Lemma GetState_fst st a k : fst (GetState st a k) = slot st a k.
Proof. unfold GetState, slot. simpl. by rewrite account_at_ensure. Qed.
Lemma GetState_snd st a k : state_equiv (snd (GetState st a k)) st.
Proof. apply ensure_equiv. Qed.

Lemma slot_SetState st a k v b j :
  slot (SetState st a k v) b j = if decide (a = b /\ k = j) then v else slot st b j.
Proof.
  unfold slot. rewrite account_at_SetState. destruct (decide (a = b)) as [->|Hab].
  - simpl. destruct (decide (k = j)) as [->|Hk].
    + rewrite lookup_insert_eq. simpl. by rewrite decide_True.
    + rewrite lookup_insert_ne by done. rewrite decide_False by tauto. done.
  - rewrite decide_False by tauto. done.
Qed.

(** The setters respect the equivalence. *)
#[export] Instance account_at_proper : Proper (state_equiv ==> eq ==> eq) account_at.
Proof. intros s1 s2 [H _] a ? <-. apply H. Qed.
#[export] Instance AddBalance_proper : Proper (state_equiv ==> eq ==> eq ==> state_equiv) AddBalance.
Proof.
  intros s1 s2 H a ? <- v ? <-. split.
  - intros b. rewrite !account_at_AddBalance. by rewrite !(proj1 H).
  - rewrite !Logs_AddBalance. apply H.
Qed.
#[export] Instance SetState_proper :
  Proper (state_equiv ==> eq ==> eq ==> eq ==> state_equiv) SetState.
Proof.
  intros s1 s2 H a ? <- k ? <- v ? <-. split.
  - intros b. rewrite !account_at_SetState. by rewrite !(proj1 H).
  - rewrite !Logs_SetState. apply H.
Qed.

(** ** Well-formed databases *)

Record account_ok (s : State) : Prop := mk_account_ok {
  ok_balance : 0 <= balance s;
  ok_nonce : is_u64 (nonce s);
  ok_code : bytes_ok (code s);
  ok_codeLen : len (code s) < two63;
  ok_codeHash : codeHash s = zeroHash;
  ok_storage : map_Forall (fun _ v => hash_ok v) (storage s)
}.

Definition db_ok (st : StateDB) : Prop := forall a, account_ok (account_at st a).

Lemma newState_ok a : account_ok (newState a).
Proof. split; simpl; [lia|by split|constructor|done|done|apply map_Forall_empty]. Qed.

Lemma New_ok : db_ok New.
Proof. intros a. apply newState_ok. Qed.

Lemma db_ok_equiv s1 s2 : state_equiv s1 s2 -> db_ok s1 -> db_ok s2.
Proof. intros [H _] H1 a. rewrite <- H. apply H1. Qed.

Lemma CreateAccount_ok st a : db_ok st -> db_ok (CreateAccount st a).
Proof. intros H b. rewrite account_at_CreateAccount. case_decide; [apply newState_ok|apply H]. Qed.
Lemma AddBalance_ok st a v : db_ok st -> 0 <= v -> db_ok (AddBalance st a v).
Proof.
  intros H Hv b. rewrite account_at_AddBalance. case_decide; [|apply H].
  destruct (H a). split; simpl; try done. lia.
Qed.
Lemma SetNonce_ok st a v : db_ok st -> is_u64 v -> db_ok (SetNonce st a v).
Proof.
  intros H Hv b. rewrite account_at_SetNonce. case_decide; [|apply H]. by destruct (H a).
Qed.
Lemma SetCode_ok st a c : db_ok st -> bytes_ok c -> len c < two63 -> db_ok (SetCode st a c).
Proof.
  intros H Hv Hl b. rewrite account_at_SetCode. case_decide; [|apply H]. by destruct (H a).
Qed.
Lemma SetState_ok st a k v : db_ok st -> hash_ok v -> db_ok (SetState st a k v).
Proof.
  intros H Hv b. rewrite account_at_SetState. case_decide; [|apply H].
  destruct (H a). split; simpl; try done. by apply map_Forall_insert_2.
Qed.
Lemma Suicide_ok st a : db_ok st -> db_ok (Suicide st a).
Proof. intros H b. rewrite account_at_Suicide. case_decide; [|apply H]. by destruct (H a). Qed.
Lemma GetBalance_ok st a : db_ok st -> 0 <= fst (GetBalance st a) /\ db_ok (snd (GetBalance st a)).
Proof.
  intros H. assert (db_ok (AddBalance st a 100)) as H2 by (apply AddBalance_ok; [done|lia]).
  split; [|done]. simpl. apply H2.
Qed.
Lemma GetState_ok st a k : db_ok st -> hash_ok (fst (GetState st a k)) /\ db_ok (snd (GetState st a k)).
Proof.
  intros H. split.
  - rewrite GetState_fst. unfold slot. destruct (storage (account_at st a) !! k) eqn:E.
    + simpl. by eapply (ok_storage _ (H a)).
    + apply zeroHash_ok.
  - eapply db_ok_equiv; [symmetry; apply GetState_snd|done].
Qed.
Lemma AddLog_ok st l : db_ok st -> db_ok (AddLog st l).
Proof. intros H a. apply (H a). Qed.

(** A transfer that [CanTransfer] allowed keeps every balance non-negative. *)
Lemma SubBalance_ok st a v :
  db_ok st -> v <= balance (account_at st a) -> db_ok (SubBalance st a v).
Proof.
  intros H Hv b. unfold SubBalance. destruct (StateMap st !! a) as [s|] eqn:E; [|apply H].
  rewrite account_at_setAccount. case_decide; [|apply H].
  assert (account_at st a = s) as Hs by (unfold account_at; by rewrite E).
  pose proof (H a) as Ha. rewrite Hs in *. destruct Ha. split; simpl; try done. lia.
Qed.

Lemma Transfer_ok st a b v :
  db_ok st -> 0 <= v <= balance (account_at st a) -> db_ok (Transfer st a b v).
Proof. intros H Hv. apply AddBalance_ok; [|lia]. apply SubBalance_ok; [done|lia]. Qed.

(** A transfer to oneself changes nothing, whatever the balance. *)
Lemma Transfer_self st a v :
  is_Some (StateMap st !! a) -> state_equiv (Transfer st a a v) st.
Proof.
  intros [s E]. assert (account_at st a = s) as Hs by (unfold account_at; by rewrite E).
  unfold Transfer, SubBalance. rewrite E. split; [|by rewrite Logs_AddBalance].
  intros b. rewrite account_at_AddBalance, !account_at_setAccount.
  destruct (decide (a = a)); [|done]. case_decide; [|done]. subst b. rewrite Hs.
  destruct s; unfold with_balance; simpl. f_equal. lia.
Qed.

Lemma CanTransfer_true st a v st' :
  CanTransfer st a v = (true, st') ->
  st' = AddBalance st a 100 /\ v <= balance (account_at st' a) /\ is_Some (StateMap st' !! a).
Proof.
  unfold CanTransfer, GetBalance. intros H. injection H as H <-. zbool. repeat split; [done|].
  unfold AddBalance, setAccount; simpl. rewrite lookup_insert_eq. by eexists.
Qed.

Lemma CanTransfer_snd st a v : snd (CanTransfer st a v) = AddBalance st a 100.
Proof. done. Qed.

(** ** Conservation of value *)

Definition total (m : gmap Address State) : Z := map_fold (fun _ s acc => balance s + acc) 0 m.

Lemma total_insert_None m a s :
  m !! a = None -> total (<[a := s]> m) = balance s + total m.
Proof. intros. unfold total. rewrite map_fold_insert_L; [done|intros; lia|done]. Qed.

Lemma total_insert_Some m a s s' :
  m !! a = Some s -> total (<[a := s']> m) = total m - balance s + balance s'.
Proof.
  intros Hm. rewrite <- (insert_delete_id m a s Hm) at 2.
  rewrite <- insert_delete_eq. rewrite !total_insert_None by apply lookup_delete_eq. lia.
Qed.

Lemma total_AddBalance st a v : total (StateMap (AddBalance st a v)) = total (StateMap st) + v.
Proof.
  unfold AddBalance, ensure. destruct (StateMap st !! a) as [s|] eqn:E; simpl.
  - rewrite (total_insert_Some _ _ s) by done. unfold account_at. rewrite E. simpl. lia.
  - rewrite insert_insert_eq, total_insert_None by done. simpl.
    unfold account_at. simpl. rewrite lookup_insert_eq. simpl. lia.
Qed.

Lemma total_SubBalance st a v :
  is_Some (StateMap st !! a) -> total (StateMap (SubBalance st a v)) = total (StateMap st) - v.
Proof.
  intros [s E]. unfold SubBalance. rewrite E. simpl.
  rewrite (total_insert_Some _ _ s) by done. simpl. lia.
Qed.

Lemma total_Transfer st a b v :
  is_Some (StateMap st !! a) -> total (StateMap (Transfer st a b v)) = total (StateMap st).
Proof. intros H. unfold Transfer. rewrite total_AddBalance, total_SubBalance by done. lia. Qed.

#[export] Hint Resolve CreateAccount_ok AddBalance_ok SetNonce_ok SetCode_ok SetState_ok Suicide_ok
  AddLog_ok SubBalance_ok : go.

End StateDB.
