(* ===== verification/Analysis.v ===== *)
(** * Jump destination analysis

    Translates [src/core/vm/analysis.go]: the bitmap that marks the bytes of
    a program that are PUSH data, built eight bits at a time, and the cached
    validity check of a jump destination.  The reference is the instruction
    walk [start]: the n-th instruction of the program begins at byte
    [start code n]. *)

From stdpp Require Import base list numbers gmap option.
From S2P Require Import Prelude BigInt Types Opcodes.

#[local] Open Scope Z_scope.
#[local] Open Scope go_scope.

Module Analysis.
Import Big Common Op.

Abbreviation bitvec := (list Z) (only parsing).
Abbreviation destinations := (gmap (list Z) (list Z)) (only parsing).

(** [bits[i] |= mask]. *)
Definition or_byte (bits : bitvec) (i mask : Z) : result bitvec :=
  let? b := index bits i in
  update bits i (Z.lor b mask).

Definition set (bits : bitvec) (pos : Z) : result bitvec :=
  or_byte bits (pos / 8) (Z.shiftr 0x80 (pos mod 8)).

Definition set8 (bits : bitvec) (pos : Z) : result bitvec :=
  let? bits := or_byte bits (pos / 8) (Z.shiftr 0xFF (pos mod 8)) in
  or_byte bits (pos / 8 + 1) (Z.lxor (Z.shiftr 0xFF (pos mod 8)) 0xFF).

Definition codeSegment (bits : bitvec) (pos : Z) : result bool :=
  if len bits <? pos / 8 then Ok false
  else
    let? b := index bits (pos / 8) in
    Ok (Z.land b (Z.shiftr 0x80 (pos mod 8)) =? 0).

(** [for ; numbits >= 8; numbits -= 8 { bits.set8(pc); pc += 8 }]. *)
Fixpoint bits8_loop (fuel : nat) (numbits pc : Z) (bits : bitvec) : result (Z * Z * bitvec) :=
  match fuel with
  | O => NoFuel
  | S fuel =>
      if 8 <=? numbits then
        let? bits := set8 bits pc in bits8_loop fuel (numbits - 8) (pc + 8) bits
      else Ok (numbits, pc, bits)
  end.

(** [for ; numbits > 0; numbits-- { bits.set(pc); pc++ }]. *)
Fixpoint bits1_loop (fuel : nat) (numbits pc : Z) (bits : bitvec) : result (Z * bitvec) :=
  match fuel with
  | O => NoFuel
  | S fuel =>
      if 0 <? numbits then
        let? bits := set bits pc in bits1_loop fuel (numbits - 1) (pc + 1) bits
      else Ok (pc, bits)
  end.

(** The main loop of [codeBitmap]. *)
Fixpoint codeBitmap_loop (fuel : nat) (code : bytes) (pc : Z) (bits : bitvec) : result bitvec :=
  match fuel with
  | O => NoFuel
  | S fuel =>
      if pc <? len code then
        let? op := index code pc in
        if (PUSH1 <=? op) && (op <=? PUSH32) then
          let numbits := op - PUSH1 + 1 in
          let? (numbits, pc, bits) := bits8_loop 5 numbits (pc + 1) bits in
          let? (pc, bits) := bits1_loop 8 numbits pc bits in
          codeBitmap_loop fuel code pc bits
        else codeBitmap_loop fuel code (pc + 1) bits
      else Ok bits
  end.

Definition codeBitmap (code : bytes) : result bitvec :=
  codeBitmap_loop (S (length code)) code 0 (zeros (len code / 8 + 1 + 4)).

(** [d.has(codehash, code, dest)]: the answer and the updated cache. *)
Definition has (d : destinations) (codehash : Hash) (code : bytes) (dest : Z)
    : result (bool * destinations) :=
  let udest := Uint64 dest in
  if (63 <=? BitLen dest) || (len code <=? udest) then Ok (false, d)
  else
    let? (m, d) :=
      match d !! codehash with
      | Some m => Ok (m, d)
      | None => let? m := codeBitmap code in Ok (m, <[codehash := m]> d)
      end in
    let? op := index code udest in
    if op =? JUMPDEST then
      let? b := codeSegment m udest in Ok (b, d)
    else Ok (false, d).

(** ** Reference: the instruction walk *)

Definition op_at (code : bytes) (pc : Z) : Z := default 0 (code !! Z.to_nat pc).

(** Number of immediate bytes of an opcode. *)
Definition push_size (op : Z) : Z := if IsPush op then op - PUSH1 + 1 else 0.

Fixpoint start (code : bytes) (k : nat) : Z :=
  match k with
  | O => 0
  | S k => start code k + 1 + push_size (op_at code (start code k))
  end.

Definition is_instr (code : bytes) (pos : Z) : Prop := exists k, start code k = pos.

Lemma push_size_range op : 0 <= push_size op <= 32.
Proof.
  unfold push_size, IsPush, PUSH1, PUSH32. destruct (_ && _) eqn:E; zbool; lia.
Qed.

Lemma start_lt code i j : (i < j)%nat -> start code i < start code j.
Proof.
  induction j as [|j IH]; [lia|]. intros Hij. cbn [start].
  pose proof (push_size_range (op_at code (start code j))).
  destruct (decide (i = j)) as [->|]; [lia|]. pose proof (IH ltac:(lia)). lia.
Qed.

Lemma start_nonneg code k : 0 <= start code k.
Proof. destruct k; [done|]. pose proof (start_lt code 0 (S k)). cbn [start] in *. lia. Qed.

Lemma is_instr_gap code k pos :
  start code k < pos < start code (S k) -> ~ is_instr code pos.
Proof.
  intros Hp [j Hj]. destruct (decide (j <= k)%nat).
  - destruct (decide (j = k)) as [->|]; [lia|]. pose proof (start_lt code j k). lia.
  - destruct (decide (j = S k)) as [->|]; [lia|]. pose proof (start_lt code (S k) j). lia.
Qed.

(** ** Bit-level reading of the bitmap *)

Definition getbit (bits : bitvec) (q : Z) : bool :=
  match bits !! Z.to_nat (q / 8) with
  | Some b => Z.testbit b (7 - q mod 8)
  | None => false
  end.

Lemma mask_bit r s : 0 <= r < 8 -> 0 <= s < 8 -> Z.testbit (Z.shiftr 0x80 r) (7 - s) = (r =? s).
Proof.
  intros. rewrite Z.shiftr_spec by lia. change 0x80 with (2 ^ 7).
  rewrite Z.pow2_bits_eqb by lia. destruct (Z.eqb_spec 7 (7 - s + r)), (Z.eqb_spec r s); lia.
Qed.

Lemma mask8_bit r s : 0 <= r < 8 -> 0 <= s < 8 -> Z.testbit (Z.shiftr 0xFF r) (7 - s) = (r <=? s).
Proof.
  intros. rewrite Z.shiftr_spec by lia. change 0xFF with (Z.ones 8).
  destruct (Z.leb_spec r s); [apply Z.ones_spec_low|apply Z.ones_spec_high]; lia.
Qed.

Lemma mask8c_bit r s :
  0 <= r < 8 -> 0 <= s < 8 -> Z.testbit (Z.lxor (Z.shiftr 0xFF r) 0xFF) (7 - s) = (s <? r).
Proof.
  intros. rewrite Z.lxor_spec, mask8_bit by lia. change 0xFF with (Z.ones 8).
  rewrite Z.ones_spec_low by lia. destruct (Z.leb_spec r s), (Z.ltb_spec s r); try done; lia.
Qed.

Lemma or_byte_spec bits i mask :
  0 <= i < len bits ->
  exists bits', or_byte bits i mask = Ok bits' /\ len bits' = len bits /\
  forall q, 0 <= q -> getbit bits' q =
    getbit bits q || ((q / 8 =? i) && Z.testbit mask (7 - q mod 8)).
Proof.
  intros Hi. unfold or_byte. destruct (index_Ok bits i Hi) as (b & -> & Hb). simpl.
  unfold update. replace ((0 <=? i) && (i <? len bits)) with true
    by (symmetry; apply andb_true_iff; split; [apply Z.leb_le|apply Z.ltb_lt]; lia).
  eexists; split; [done|]. split; [unfold len; by rewrite length_insert|].
  intros q Hq. unfold getbit. assert (0 <= q / 8) by (apply Z.div_pos; lia).
  destruct (Z.eqb_spec (q / 8) i) as [->|Hne].
  - rewrite list_lookup_insert_eq by (unfold len in Hi; lia). rewrite Hb. simpl.
    by rewrite Z.lor_spec.
  - rewrite list_lookup_insert_ne by lia. simpl. by rewrite orb_false_r.
Qed.

Lemma set_spec bits p :
  0 <= p -> p / 8 < len bits ->
  exists bits', set bits p = Ok bits' /\ len bits' = len bits /\
  forall q, 0 <= q -> getbit bits' q = getbit bits q || (q =? p).
Proof.
  intros Hp Hl. assert (0 <= p / 8) by (apply Z.div_pos; lia).
  destruct (or_byte_spec bits (p / 8) (Z.shiftr 0x80 (p mod 8)) ltac:(lia)) as (b & H1 & H2 & H3).
  exists b. repeat split; [done..|]. intros q Hq. rewrite H3 by done. f_equal.
  pose proof (Z.mod_pos_bound p 8). pose proof (Z.mod_pos_bound q 8).
  rewrite mask_bit by lia.
  destruct (Z.eqb_spec (q / 8) (p / 8)), (Z.eqb_spec (p mod 8) (q mod 8)), (Z.eqb_spec q p);
    simpl; try done; pose proof (Z.div_mod p 8); pose proof (Z.div_mod q 8); subst; lia.
Qed.

Lemma set8_spec bits p :
  0 <= p -> p / 8 + 1 < len bits ->
  exists bits', set8 bits p = Ok bits' /\ len bits' = len bits /\
  forall q, 0 <= q -> getbit bits' q = getbit bits q || ((p <=? q) && (q <? p + 8)).
Proof.
  intros Hp Hl. assert (0 <= p / 8) by (apply Z.div_pos; lia).
  destruct (or_byte_spec bits (p / 8) (Z.shiftr 0xFF (p mod 8)) ltac:(lia)) as (b & H1 & H2 & H3).
  destruct (or_byte_spec b (p / 8 + 1) (Z.lxor (Z.shiftr 0xFF (p mod 8)) 0xFF) ltac:(lia))
    as (c & H4 & H5 & H6).
  exists c. unfold set8. rewrite H1. simpl. split; [done|]. split; [lia|].
  intros q Hq. rewrite H6, H3 by done. rewrite <- orb_assoc. f_equal.
  pose proof (Z.mod_pos_bound p 8). pose proof (Z.mod_pos_bound q 8).
  rewrite mask8_bit, mask8c_bit by lia.
  pose proof (Z.div_mod p 8). pose proof (Z.div_mod q 8).
  destruct (Z.eqb_spec (q / 8) (p / 8)), (Z.eqb_spec (q / 8) (p / 8 + 1)),
    (Z.leb_spec (p mod 8) (q mod 8)), (Z.ltb_spec (q mod 8) (p mod 8)),
    (Z.leb_spec p q), (Z.ltb_spec q (p + 8)); simpl; try done; lia.
Qed.

Lemma bits8_loop_spec fuel n pc bits :
  0 <= n < 8 * Z.of_nat fuel -> 0 <= pc -> (pc + n) / 8 < len bits ->
  exists n' pc' bits', bits8_loop fuel n pc bits = Ok (n', pc', bits') /\
  0 <= n' < 8 /\ pc' + n' = pc + n /\ pc <= pc' /\ len bits' = len bits /\
  forall q, 0 <= q -> getbit bits' q = getbit bits q || ((pc <=? q) && (q <? pc')).
Proof.
  revert n pc bits. induction fuel as [|fuel IH]; intros n pc bits Hn Hpc Hl; [lia|].
  cbn [bits8_loop]. destruct (Z.leb_spec 8 n).
  - destruct (set8_spec bits pc) as (b & -> & Hb1 & Hb2); [done| |].
    { assert (pc / 8 + 1 <= (pc + n) / 8); [|lia].
      rewrite <- Z.div_add by lia. apply Z.div_le_mono; lia. }
    simpl. destruct (IH (n - 8) (pc + 8) b) as (n' & pc' & b' & -> & H1 & H2 & H3 & H4 & H5);
      [lia|lia| |].
    { rewrite Hb1. replace (pc + 8 + (n - 8)) with (pc + n) by lia. done. }
    exists n', pc', b'. split; [done|]. repeat split; try lia.
    intros q Hq. rewrite H5, Hb2 by done. rewrite <- orb_assoc. f_equal.
    destruct (Z.leb_spec pc q), (Z.ltb_spec q (pc + 8)), (Z.leb_spec (pc + 8) q),
      (Z.ltb_spec q pc'); simpl; try done; lia.
  - exists n, pc, bits. split; [done|]. repeat split; try lia.
    intros q Hq. destruct (Z.leb_spec pc q), (Z.ltb_spec q pc); simpl; rewrite ?orb_false_r; try done; lia.
Qed.

Lemma bits1_loop_spec fuel n pc bits :
  0 <= n < Z.of_nat fuel -> 0 <= pc -> (pc + n) / 8 < len bits ->
  exists bits', bits1_loop fuel n pc bits = Ok (pc + n, bits') /\ len bits' = len bits /\
  forall q, 0 <= q -> getbit bits' q = getbit bits q || ((pc <=? q) && (q <? pc + n)).
Proof.
  revert n pc bits. induction fuel as [|fuel IH]; intros n pc bits Hn Hpc Hl; [lia|].
  cbn [bits1_loop]. destruct (Z.ltb_spec 0 n).
  - destruct (set_spec bits pc) as (b & -> & Hb1 & Hb2); [done| |].
    { eapply Z.le_lt_trans; [|done]. apply Z.div_le_mono; lia. }
    simpl. destruct (IH (n - 1) (pc + 1) b) as (b' & -> & H1 & H2); [lia|lia| |].
    { rewrite Hb1. replace (pc + 1 + (n - 1)) with (pc + n) by lia. done. }
    exists b'. split; [do 2 f_equal; lia|]. split; [lia|].
    intros q Hq. rewrite H2, Hb2 by done. rewrite <- orb_assoc. f_equal.
    destruct (Z.eqb_spec q pc), (Z.leb_spec pc q), (Z.leb_spec (pc + 1) q),
      (Z.ltb_spec q (pc + 1 + (n - 1))), (Z.ltb_spec q (pc + n)); simpl; try done; lia.
  - exists bits. split; [do 2 f_equal; lia|]. split; [done|].
    intros q Hq. destruct (Z.leb_spec pc q), (Z.ltb_spec q (pc + n)); simpl; rewrite ?orb_false_r; try done; lia.
Qed.

(** The bitmap [bits] describes the program up to the instruction boundary [pc]. *)
Definition marks (code : bytes) (pc : Z) (bits : bitvec) : Prop :=
  len bits = len code / 8 + 5 /\
  (forall q, 0 <= q < pc -> (getbit bits q = false <-> is_instr code q)) /\
  (forall q, pc <= q -> getbit bits q = false).

Lemma marks_step code k bits bits' :
  let pc := start code k in
  let n := push_size (op_at code pc) in
  marks code pc bits -> len bits' = len bits ->
  (forall q, 0 <= q -> getbit bits' q = getbit bits q || ((pc + 1 <=? q) && (q <? pc + 1 + n))) ->
  marks code (start code (S k)) bits'.
Proof.
  intros pc n (Hl & Hlo & Hhi) Hl' Hget. pose proof (start_nonneg code k) as Hpc. fold pc in Hpc.
  pose proof (push_size_range (op_at code pc)) as Hn. fold n in Hn.
  cbn [start]. fold pc n. split; [lia|]. split; intros q Hq; rewrite Hget by lia.
  - destruct (Z_lt_dec q pc) as [Hlt|Hge].
    + rewrite <- Hlo by lia. destruct (Z.leb_spec (pc + 1) q); [lia|]. simpl. by rewrite orb_false_r.
    + rewrite Hhi by lia. simpl. destruct (decide (q = pc)) as [->|Hne].
      * destruct (Z.leb_spec (pc + 1) pc); [lia|]. simpl. split; [|done]. intros _. by exists k.
      * destruct (Z.leb_spec (pc + 1) q), (Z.ltb_spec q (pc + 1 + n)); try lia. simpl.
        split; [done|]. intros Hi. exfalso. eapply (is_instr_gap code k q); [|done].
        cbn [start]. fold pc n. lia.
  - rewrite Hhi by lia. simpl. destruct (Z.ltb_spec q (pc + 1 + n)); [lia|]. apply andb_false_r.
Qed.

Lemma codeBitmap_loop_spec code fuel k bits :
  Z.max 0 (len code - start code k) < Z.of_nat fuel ->
  marks code (start code k) bits ->
  exists bits' k', codeBitmap_loop fuel code (start code k) bits = Ok bits' /\
    len code <= start code k' /\ marks code (start code k') bits'.
Proof.
  revert k bits. induction fuel as [|fuel IH]; intros k bits Hf Hm; cbn [codeBitmap_loop].
  - lia.
  - destruct (Z.ltb_spec (start code k) (len code)) as [Hlt|Hge].
    2: { exists bits, k. done. }
    pose proof (start_nonneg code k) as Hpc.
    destruct (index_Ok code (start code k)) as (op & -> & Hop); [lia|]. cbn [rbind].
    assert (Hat : op_at code (start code k) = op) by (unfold op_at; by rewrite Hop).
    pose proof (push_size_range op) as Hn.
    assert (Hnext : start code (S k) = start code k + 1 + push_size op)
      by (cbn [start]; by rewrite Hat).
    assert (HIH : forall bits', marks code (start code (S k)) bits' ->
      exists bits'' k', codeBitmap_loop fuel code (start code (S k)) bits' = Ok bits'' /\
        len code <= start code k' /\ marks code (start code k') bits'').
    { intros b Hb. apply IH; [lia|done]. }
    change ((PUSH1 <=? op) && (op <=? PUSH32)) with (IsPush op).
    pose proof (marks_step code k bits) as Hstep. cbv zeta in Hstep. rewrite Hat in Hstep.
    unfold push_size in *. destruct (IsPush op) eqn:Hp.
    + assert (Hroom : (start code k + 1 + (op - PUSH1 + 1)) / 8 < len bits).
      { destruct Hm as (-> & _). eapply Z.le_lt_trans; [apply (Z.div_le_mono _ (len code + 4 * 8)); lia|].
        rewrite Z.div_add by lia. lia. }
      destruct (bits8_loop_spec 5 (op - PUSH1 + 1) (start code k + 1) bits)
        as (n1 & pc1 & b1 & -> & H1 & H2 & H3 & H4 & H5); [lia|lia|done|]. cbn [rbind].
      destruct (bits1_loop_spec 8 n1 pc1 b1) as (b2 & -> & H6 & H7); [lia|lia| |].
      { rewrite H4. by rewrite H2. }
      cbn [rbind]. rewrite H2, <- Hnext. apply HIH. apply (Hstep b2 Hm); [lia|].
      intros q Hq. rewrite H7, H5 by done. rewrite <- orb_assoc. f_equal. rewrite H2.
      destruct (Z.leb_spec (start code k + 1) q), (Z.ltb_spec q pc1), (Z.leb_spec pc1 q),
        (Z.ltb_spec q (start code k + 1 + (op - PUSH1 + 1))); simpl; try done; lia.
    + rewrite Z.add_0_r in Hnext. rewrite <- Hnext. apply HIH. apply (Hstep bits Hm); [done|].
      intros q Hq. destruct (Z.leb_spec (start code k + 1) q), (Z.ltb_spec q (start code k + 1 + 0));
        simpl; rewrite ?orb_false_r; try done; lia.
Qed.

Lemma getbit_zeros n q : getbit (zeros n) q = false.
Proof.
  unfold getbit, zeros. destruct (replicate _ _ !! _) eqn:E; [|done].
  apply lookup_replicate in E as [-> _]. apply Z.testbit_0_l.
Qed.

Lemma codeBitmap_spec code :
  exists bits, codeBitmap code = Ok bits /\ len bits = len code / 8 + 5 /\
  forall q, 0 <= q < len code -> (getbit bits q = false <-> is_instr code q).
Proof.
  assert (0 <= len code / 8) by (apply Z.div_pos; auto with go; lia).
  destruct (codeBitmap_loop_spec code (S (length code)) 0 (zeros (len code / 8 + 1 + 4)))
    as (bits & k & H1 & H2 & H3 & H4 & H5).
  - simpl. unfold len. lia.
  - split; [rewrite len_zeros by lia; lia|]. split; simpl; intros q Hq; [lia|apply getbit_zeros].
  - exists bits. split; [exact H1|]. split; [done|]. intros q Hq. apply H4. lia.
Qed.

Lemma land_pow2_eqb b n : 0 <= n -> (Z.land b (2 ^ n) =? 0) = negb (Z.testbit b n).
Proof.
  intros Hn. destruct (Z.testbit b n) eqn:E; simpl.
  - apply Z.eqb_neq. intros H. apply (f_equal (fun z => Z.testbit z n)) in H.
    by rewrite Z.land_spec, Z.pow2_bits_true, E, Z.testbit_0_l in H by done.
  - apply Z.eqb_eq, Z.bits_inj'. intros m Hm. rewrite Z.land_spec, Z.pow2_bits_eqb, Z.testbit_0_l by done.
    destruct (Z.eqb_spec n m) as [<-|]; [by rewrite E|apply andb_false_r].
Qed.

Lemma codeSegment_spec bits pos :
  0 <= pos -> pos / 8 < len bits -> codeSegment bits pos = Ok (negb (getbit bits pos)).
Proof.
  intros Hp Hl. assert (0 <= pos / 8) by (apply Z.div_pos; lia).
  unfold codeSegment, getbit. destruct (Z.ltb_spec (len bits) (pos / 8)); [lia|].
  destruct (index_Ok bits (pos / 8)) as (b & -> & ->); [lia|]. simpl. f_equal.
  pose proof (Z.mod_pos_bound pos 8).
  rewrite <- land_pow2_eqb by lia. do 2 f_equal. rewrite Z.shiftr_div_pow2 by lia.
  change 0x80 with (2 ^ 7). rewrite <- Z.pow_sub_r by lia. done.
Qed.

(** The cached bitmap, if any, is the one of this code. *)
Definition cache_ok (d : destinations) (codehash : Hash) (code : bytes) : Prop :=
  forall m, d !! codehash = Some m -> codeBitmap code = Ok m.

Lemma has_spec d h code dest :
  0 <= dest -> cache_ok d h code ->
  exists b d', has d h code dest = Ok (b, d') /\ cache_ok d' h code /\
  (b = true <-> dest < 2 ^ 62 /\ dest < len code /\ op_at code dest = JUMPDEST /\ is_instr code dest).
Proof.
  intros Hd Hc. unfold has, Uint64. rewrite Z.abs_eq by done.
  destruct (Z.leb_spec 63 (BitLen dest)) as [Hb|Hb]; simpl.
  { exists false, d. split; [done|]. split; [done|]. split; [done|]. intros (H & _).
    assert (BitLen dest <= 62) by (apply BitLen_spec; lia). lia. }
  assert (Hd62 : dest < 2 ^ 62) by (pose proof (proj1 (BitLen_spec dest 62 ltac:(lia))); lia).
  rewrite Z.mod_small by (unfold two64; lia).
  destruct (Z.leb_spec (len code) dest).
  { exists false, d. split; [done|]. split; [done|]. split; [done|]. lia. }
  destruct (codeBitmap_spec code) as (bits & Hbits & Hlen & Hget).
  set (look := match d !! h with Some m => Ok (m, d) | None => _ end).
  assert (exists d', look = Ok (bits, d') /\ cache_ok d' h code) as (d' & -> & Hc').
  { unfold look. destruct (d !! h) as [m|] eqn:E.
    - exists d. split; [|done]. specialize (Hc m E). congruence.
    - rewrite Hbits. simpl. eexists; split; [done|]. intros m. rewrite lookup_insert_eq. congruence. }
  simpl. destruct (index_Ok code dest) as (op & -> & Hop); [lia|]. simpl.
  assert (op_at code dest = op) as -> by (unfold op_at; by rewrite Hop).
  destruct (Z.eqb_spec op JUMPDEST) as [->|Hne].
  - assert (dest / 8 <= len code / 8) by (apply Z.div_le_mono; lia).
    rewrite codeSegment_spec by lia. simpl.
    exists (negb (getbit bits dest)), d'. split; [done|]. split; [done|].
    rewrite negb_true_iff, Hget by lia. tauto.
  - exists false, d'. split; [done|]. split; [done|]. split; [done|]. tauto.
Qed.

(** The analysis always ends, even on a stale cache. *)
Lemma has_ends d h code dest : has d h code dest <> NoFuel.
Proof.
  assert (Hi : forall (l : list Z) i, index l i <> NoFuel).
  { intros l i. unfold index. split_if; [by destruct (l !! _)|done]. }
  unfold has. split_if; [done|]. destruct (codeBitmap_spec code) as (bits & -> & _).
  assert (exists m d', match d !! h with
    | Some m => Ok (m, d) | None => rbind (Ok bits) (fun m => Ok (m, <[h := m]> d)) end = Ok (m, d'))
    as (m & d' & ->) by (destruct (d !! h); simpl; by do 2 eexists).
  cbn [rbind]. pose proof (Hi code (Uint64 dest)).
  destruct (index code (Uint64 dest)); cbn [rbind]; [|done|done].
  split_if; [|done]. unfold codeSegment. split_if; [done|].
  pose proof (Hi m (Uint64 dest / 8)). by destruct (index m (Uint64 dest / 8)).
Qed.

End Analysis.
