(* ===== verification/Machine.v ===== *)
(** * The machine state of the virtual machine

    Translates [src/core/vm/errors.go], [stack.go], [stack_table.go],
    [memory.go], [memory_table.go], [common.go], [contract.go] and the data
    types of [evm.go], [interpreter.go] and [contracts.go].

    - The stack is a list with the top element first ([st.data] reversed):
      [Back n] is the n-th element of the list.
    - [*big.Int] stack items are values: every instruction gives up the items
      it pops before they reach the integer pool, so recycling pool items is
      not observable.
    - The Go code splits the interpreter state over several objects reached
      through pointers; here the mutable part of [EVM] and [Interpreter] is
      the record [EVM], and a [frame] collects what one activation of
      [Interpreter.Run] reads and writes.  The jump-destination cache is a Go
      map shared by reference between a contract and the contracts it calls,
      so there is one cache, in [EVM], for a whole call tree.
    - [evm.Callback] is observed through [callbacks], the list of its calls. *)

From stdpp Require Import base list numbers gmap option.
From S2P Require Import Prelude BigInt Types Params StateDB Opcodes Analysis.

#[local] Open Scope Z_scope.
#[local] Open Scope go_scope.

Module Vm.
Import Big Common Params StateDB Analysis.

(** ** Errors *)

Inductive vmerror :=
| ErrOutOfGas
| ErrCodeStoreOutOfGas
| ErrDepth
| ErrTraceLimitReached
| ErrInsufficientBalance
| ErrContractAddressCollision
| errWriteProtection
| errReturnDataOutOfBounds
| errExecutionReverted
| errMaxCodeSizeExceeded
| errGasUintOverflow
| errStackUnderflow (have need : Z)
| errStackLimit (have : Z)
| errInvalidOpcode (op : Z)
| errInvalidJump (op pos : Z)
| errNotOnCurve
| errInvalidCurvePoint
| errBadPairingInput.

#[export] Instance vmerror_eq_dec : EqDecision vmerror.
Proof. solve_decision. Defined.

(** ** [common.go] *)

Definition calcMemSize (off l : Z) : Z := if l =? 0 then 0 else off + l.

Definition getData (data : bytes) (start size : Z) : result bytes :=
  let length := len data in
  let start := if length <? start then length else start in
  let end_ := u64 (start + size) in
  let end_ := if length <? end_ then length else end_ in
  let? d := slice data start end_ in
  Ok (RightPadBytes d (i64 size)).

Definition getDataBig (data : bytes) (start size : Z) : result bytes :=
  let dlen := len data in
  let s := BigMin start dlen in
  let e := BigMin (s + size) dlen in
  let? d := slice data (Uint64 s) (Uint64 e) in
  Ok (RightPadBytes d (i64 (Uint64 size))).

Definition bigUint64 (v : Z) : Z * bool := (Uint64 v, 64 <? BitLen v).

Definition toWordSize (size : Z) : Z :=
  if MaxUint64 - 31 <? size then MaxUint64 / 32 + 1 else (size + 31) / 32.

Definition allZero (b : bytes) : bool := forallb (fun x => x =? 0) b.

(** ** [stack.go], [stack_table.go] *)

Abbreviation Stack := (list Z) (only parsing).

Definition st_push (st : Stack) (d : Z) : Stack := d :: st.

(** [st.pushN(ds...)]: the last item becomes the top. *)
Definition st_pushN (st : Stack) (ds : list Z) : Stack := rev ds ++ st.

Definition st_pop (st : Stack) : result (Z * Stack) :=
  match st with
  | [] => Panic
  | x :: st' => Ok (x, st')
  end.

Definition Back (st : Stack) (n : nat) : result Z :=
  match st !! n with
  | Some x => Ok x
  | None => Panic
  end.

Definition st_peek (st : Stack) : result Z := Back st 0.

Definition st_swap (st : Stack) (n : nat) : result Stack :=
  let? a := Back st (n - 1) in
  let? b := Back st 0 in
  Ok (<[0%nat := a]> (<[(n - 1)%nat := b]> st)).

Definition st_dup (st : Stack) (n : nat) : result Stack :=
  let? a := Back st (n - 1) in
  Ok (st_push st a).

Definition require (st : Stack) (n : Z) : option vmerror :=
  if len st <? n then Some (errStackUnderflow (len st) n) else None.

Definition makeStackFunc (pop push : Z) (st : Stack) : option vmerror :=
  match require st pop with
  | Some err => Some err
  | None => if StackLimit <? len st + push - pop then Some (errStackLimit (len st)) else None
  end.

Definition makeDupStackFunc (n : Z) : Stack -> option vmerror := makeStackFunc n (n + 1).
Definition makeSwapStackFunc (n : Z) : Stack -> option vmerror := makeStackFunc n n.

(** ** [memory.go] *)

Record Memory := mkMemory { store : bytes; lastGasCost : Z }.

Definition NewMemory : Memory := mkMemory [] 0.

Definition mem_Set (m : Memory) (offset size : Z) (value : bytes) : result Memory :=
  if len (store m) <? size then Panic
  else if 0 <? size then
    let? s := copy_at (store m) offset (u64 (offset + size)) value in
    Ok (mkMemory s (lastGasCost m))
  else Ok m.

Definition mem_Resize (m : Memory) (size : Z) : Memory :=
  if len (store m) <? size
  then mkMemory (store m ++ zeros (size - len (store m))) (lastGasCost m)
  else m.

Definition mem_Get (m : Memory) (offset size : Z) : result bytes :=
  if size =? 0 then Ok []
  else if offset <? len (store m) then slice (store m) offset (i64 (offset + size))
  else Ok [].

(** The slice is not modified after it is returned, so sharing the backing
    array with the memory is not observable. *)
Definition mem_GetPtr (m : Memory) (offset size : Z) : result bytes :=
  if size =? 0 then Ok []
  else if offset <? len (store m) then slice (store m) offset (i64 (offset + size))
  else Ok [].

(** ** [memory_table.go] *)

(** [calcMemSize(stack.Back(i), stack.Back(j))]. *)
Definition mem_at (i j : nat) (st : Stack) : result Z :=
  let? off := Back st i in
  let? l := Back st j in
  Ok (calcMemSize off l).

Definition mem_at_const (i : nat) (l : Z) (st : Stack) : result Z :=
  let? off := Back st i in
  Ok (calcMemSize off l).

Definition memorySha3 : Stack -> result Z := mem_at 0 1.
Definition memoryCallDataCopy : Stack -> result Z := mem_at 0 2.
Definition memoryReturnDataCopy : Stack -> result Z := mem_at 0 2.
Definition memoryCodeCopy : Stack -> result Z := mem_at 0 2.
Definition memoryExtCodeCopy : Stack -> result Z := mem_at 1 3.
Definition memoryMLoad : Stack -> result Z := mem_at_const 0 32.
Definition memoryMStore8 : Stack -> result Z := mem_at_const 0 1.
Definition memoryMStore : Stack -> result Z := mem_at_const 0 32.
Definition memoryCreate : Stack -> result Z := mem_at 1 2.

Definition memoryCall (st : Stack) : result Z :=
  let? x := mem_at 5 6 st in
  let? y := mem_at 3 4 st in
  Ok (BigMax x y).
(** [memoryCallCode] has the same body; the jump table uses [memoryCall]. *)
Definition memoryCallCode : Stack -> result Z := memoryCall.

Definition memoryDelegateCall (st : Stack) : result Z :=
  let? x := mem_at 4 5 st in
  let? y := mem_at 2 3 st in
  Ok (BigMax x y).
Definition memoryStaticCall : Stack -> result Z := memoryDelegateCall.

Definition memoryReturn : Stack -> result Z := mem_at 0 1.
Definition memoryRevert : Stack -> result Z := mem_at 0 1.
Definition memoryLog : Stack -> result Z := mem_at 0 1.

(** ** [contract.go] *)

Record Contract := mkContract {
  CallerAddress : Address;
  self : Address;
  Code : bytes;
  CodeHash : Hash;
  CodeAddr : option Address;
  Input : bytes;
  Gas : Z;
  value : option Z;
  DelegateCallFlag : bool
}.

(** [ContractRef]: an account reference or another contract. *)
Inductive ContractRef :=
| AccountRef (a : Address)
| ContractObj (c : Contract).

Definition ref_Address (r : ContractRef) : Address :=
  match r with
  | AccountRef a => a
  | ContractObj c => self c
  end.

(** [NewContract], without the jump-destination cache (see [new_dests]). *)
Definition NewContract (caller object : ContractRef) (v : option Z) (gas : Z) : Contract :=
  mkContract (ref_Address caller) (ref_Address object) [] zeroHash None [] gas v false.

(** The cache of the new contract: the parent's when the caller is a
    contract, a fresh one otherwise. *)
Definition new_dests (caller : ContractRef) (parent : destinations) : destinations :=
  match caller with
  | ContractObj _ => parent
  | AccountRef _ => ∅
  end.

(** [c.AsDelegate()], where [caller] is the caller [c] was created with: the
    type assertion on it panics unless it is a contract. *)
Definition AsDelegate (c : Contract) (caller : ContractRef) : result Contract :=
  match caller with
  | ContractObj parent =>
      Ok (mkContract (CallerAddress parent) (self c) (Code c) (CodeHash c) (CodeAddr c)
            (Input c) (Gas c) (value parent) true)
  | AccountRef _ => Panic
  end.

Definition GetByte (c : Contract) (n : Z) : Z :=
  if n <? len (Code c) then default 0 (Code c !! Z.to_nat n) else 0.
Definition GetOp (c : Contract) (n : Z) : Z := GetByte c n.

Definition with_Gas (c : Contract) (g : Z) : Contract :=
  mkContract (CallerAddress c) (self c) (Code c) (CodeHash c) (CodeAddr c) (Input c) g (value c)
    (DelegateCallFlag c).

Definition UseGas (c : Contract) (gas : Z) : bool * Contract :=
  if Gas c <? gas then (false, c) else (true, with_Gas c (u64 (Gas c - gas))).

Definition Contract_SetCode (c : Contract) (hash : Hash) (code : bytes) : Contract :=
  mkContract (CallerAddress c) (self c) code hash (CodeAddr c) (Input c) (Gas c) (value c)
    (DelegateCallFlag c).

Definition SetCallCode (c : Contract) (addr : Address) (hash : Hash) (code : bytes) : Contract :=
  mkContract (CallerAddress c) (self c) code hash (Some addr) (Input c) (Gas c) (value c)
    (DelegateCallFlag c).

Definition with_Input (c : Contract) (input : bytes) : Contract :=
  mkContract (CallerAddress c) (self c) (Code c) (CodeHash c) (CodeAddr c) input (Gas c) (value c)
    (DelegateCallFlag c).

(** ** Environment and mutable state *)

(** Type [Context]; its [CanTransfer] and [Transfer] fields are always the
    functions of package [core]. *)
Record Context := mkContext {
  GetHash : Z -> Hash;
  Origin : Address;
  GasPrice : Z;
  Coinbase : Address;
  GasLimit : Z;
  CtxBlockNumber : Z;
  Time : Z;
  Difficulty : Z
}.

(** Type [Config] (the tracer, used in debug mode only, is left out). *)
Record Config := mkConfig {
  NoRecursion : bool;
  DisableGasMetering : bool;
  EnablePreimageRecording : bool
}.

(** A precompiled contract (type [PrecompiledContract]). *)
Record PrecompiledContract := mkPrecompiled {
  RequiredGas : bytes -> result Z;
  PRun : bytes -> result (bytes * option vmerror)
}.

(** The cryptographic functions the machine calls: parameters of the model.
    A point of [bn256.G1] or [bn256.G2] is seen through its coordinates. *)
Record Crypto := mkCrypto {
  Keccak256 : bytes -> bytes;
  CreateAddress : Address -> Z -> Address;
  Ecrecover : bytes -> bytes -> option bytes;
  sha256_Sum256 : bytes -> bytes;
  ripemd160_Sum : bytes -> bytes;
  G1 : Type;
  G2 : Type;
  bn256_P : Z;
  G1_Unmarshal : bytes -> option G1;
  G1_CurvePoints : G1 -> Z * Z;
  G1_Add : G1 -> G1 -> G1;
  G1_ScalarMult : G1 -> Z -> G1;
  G1_Marshal : G1 -> bytes;
  G2_Unmarshal : bytes -> option G2;
  G2_CurvePoints : G2 -> (Z * Z) * (Z * Z);
  PairingCheck : list G1 -> list G2 -> bool
}.

(** The immutable part of an [EVM]: context, configuration and the
    cryptographic functions. *)
Record Env := mkEnv {
  ctx : Context;
  chainConfig : ChainConfig;
  vmConfig : Config;
  crypto : Crypto
}.

Definition BlockNum (env : Env) : option Z := Some (CtxBlockNumber (ctx env)).
Definition chainRules (env : Env) : RulesT := Rules (chainConfig env) (BlockNum env).
Definition gasTable (env : Env) : GasTable := gas_table (chainConfig env) (BlockNum env).

(** One call of [evm.Callback]: from [opSload] or from [opSstore]. *)
Inductive callback_event :=
| CbSload (loc : Hash) (val : Z)
| CbSstore (loc : Hash) (val : Z).

Record EVM := mkEVM {
  db : StateDB;
  depth : Z;
  abort : Z;
  callGasTemp : Z;
  readOnly : bool;
  returnData : bytes;
  jumpdests : destinations;
  callbacks : list callback_event
}.

Definition with_db (e : EVM) (d : StateDB) : EVM :=
  mkEVM d (depth e) (abort e) (callGasTemp e) (readOnly e) (returnData e) (jumpdests e) (callbacks e).
Definition with_depth (e : EVM) (n : Z) : EVM :=
  mkEVM (db e) n (abort e) (callGasTemp e) (readOnly e) (returnData e) (jumpdests e) (callbacks e).
Definition with_callGasTemp (e : EVM) (g : Z) : EVM :=
  mkEVM (db e) (depth e) (abort e) g (readOnly e) (returnData e) (jumpdests e) (callbacks e).
Definition with_readOnly (e : EVM) (b : bool) : EVM :=
  mkEVM (db e) (depth e) (abort e) (callGasTemp e) b (returnData e) (jumpdests e) (callbacks e).
Definition with_returnData (e : EVM) (r : bytes) : EVM :=
  mkEVM (db e) (depth e) (abort e) (callGasTemp e) (readOnly e) r (jumpdests e) (callbacks e).
Definition with_jumpdests (e : EVM) (d : destinations) : EVM :=
  mkEVM (db e) (depth e) (abort e) (callGasTemp e) (readOnly e) (returnData e) d (callbacks e).
Definition with_callback (e : EVM) (c : callback_event) : EVM :=
  mkEVM (db e) (depth e) (abort e) (callGasTemp e) (readOnly e) (returnData e) (jumpdests e)
    (callbacks e ++ [c]).

(** [evm.Cancel()]. *)
Definition Cancel (e : EVM) : EVM :=
  mkEVM (db e) (depth e) 1 (callGasTemp e) (readOnly e) (returnData e) (jumpdests e) (callbacks e).

(** The mutable state of a fresh EVM ([NewEVM], [NewInterpreter]). *)
Definition NewEVM (statedb : StateDB) : EVM := mkEVM statedb 0 0 0 false [] ∅ [].

(** What one activation of [Interpreter.Run] works on. *)
Record frame := mkFrame {
  f_pc : Z;
  f_evm : EVM;
  f_contract : Contract;
  f_mem : Memory;
  f_stack : Stack
}.

(** ** The instruction monad *)

Definition M (A : Type) : Type := frame -> result (A * frame).

Definition mret {A} (a : A) : M A := fun f => Ok (a, f).
Definition mbindM {A B} (m : M A) (k : A -> M B) : M B :=
  fun f => rbind (m f) (fun '(a, f') => k a f').
Definition lift {A} (r : result A) : M A := fun f => rbind r (fun a => Ok (a, f)).

Definition pop : M Z :=
  fun f => rbind (st_pop (f_stack f)) (fun '(x, st) =>
    Ok (x, mkFrame (f_pc f) (f_evm f) (f_contract f) (f_mem f) st)).
Definition push (x : Z) : M unit :=
  fun f => Ok (tt, mkFrame (f_pc f) (f_evm f) (f_contract f) (f_mem f) (st_push (f_stack f) x)).
Definition gets {A} (g : frame -> A) : M A := fun f => Ok (g f, f).
Definition set_stack (st : Stack) : M unit :=
  fun f => Ok (tt, mkFrame (f_pc f) (f_evm f) (f_contract f) (f_mem f) st).
Definition set_pc (pc : Z) : M unit :=
  fun f => Ok (tt, mkFrame pc (f_evm f) (f_contract f) (f_mem f) (f_stack f)).
Definition set_evm (e : EVM) : M unit :=
  fun f => Ok (tt, mkFrame (f_pc f) e (f_contract f) (f_mem f) (f_stack f)).
Definition set_contract (c : Contract) : M unit :=
  fun f => Ok (tt, mkFrame (f_pc f) (f_evm f) c (f_mem f) (f_stack f)).
Definition set_mem (m : Memory) : M unit :=
  fun f => Ok (tt, mkFrame (f_pc f) (f_evm f) (f_contract f) m (f_stack f)).
Definition modify_db (g : StateDB -> StateDB) : M unit :=
  fun f => set_evm (with_db (f_evm f) (g (db (f_evm f)))) f.
Definition run_db {A} (g : StateDB -> A * StateDB) : M A :=
  fun f => let '(a, d) := g (db (f_evm f)) in
           rbind (set_evm (with_db (f_evm f) d) f) (fun '(_, f') => Ok (a, f')).

(** The result of an instruction: ([]byte, error). *)
Abbreviation exec := (M (bytes * option vmerror)) (only parsing).
Definition done_with (r : bytes) : exec := mret (r, None).
Definition fail_with (e : vmerror) : exec := mret ([], Some e).

End Vm.

Notation "'let!' x := m 'in' k" := (Vm.mbindM m (fun x => k))
  (at level 10, x pattern, m at level 200, k at level 200) : go_scope.
