(* ===== verification/GasTable.v ===== *)
(** * Gas costs

    Translates [src/core/vm/gas.go] and [src/core/vm/gas_table.go]: one
    function per dynamic gas rule, from the requested memory size to the cost
    (or an error), with the updates of [mem.lastGasCost], [evm.callGasTemp]
    and the state database they make. *)

From stdpp Require Import base list numbers gmap option.
From S2P Require Import Prelude BigInt Types Params StateDB Machine.

#[local] Open Scope Z_scope.
#[local] Open Scope go_scope.

Module Gas.
Import Big Common Params StateDB Vm.

(** ** [gas.go] *)
Definition GasQuickStep : Z := 2.
Definition GasFastestStep : Z := 3.
Definition GasFastStep : Z := 5.
Definition GasMidStep : Z := 8.
Definition GasSlowStep : Z := 10.
Definition GasExtStep : Z := 20.

Definition callGas (gt : GasTable) (availableGas base callCost : Z) : Z * option vmerror :=
  let capped :=
    if 0 <? CreateBySuicide gt then
      let availableGas := u64 (availableGas - base) in
      let gas := u64 (availableGas - availableGas / 64) in
      if (64 <? BitLen callCost) || (gas <? Uint64 callCost) then Some gas else None
    else None in
  match capped with
  | Some gas => (gas, None)
  | None =>
      if 64 <? BitLen callCost then (0, Some errGasUintOverflow)
      else (Uint64 callCost, None)
  end.

(** ** [gas_table.go] *)

Definition memoryGasCost (mem : Memory) (newMemSize : Z) : (Z * option vmerror) * Memory :=
  if newMemSize =? 0 then ((0, None), mem)
  else if 0xffffffffe0 <? newMemSize then ((0, Some errGasUintOverflow), mem)
  else
    let newMemSizeWords := toWordSize newMemSize in
    let newMemSize := u64 (newMemSizeWords * 32) in
    if len (store mem) <? newMemSize then
      let square := u64 (newMemSizeWords * newMemSizeWords) in
      let linCoef := u64 (newMemSizeWords * MemoryGas) in
      let quadCoef := square / QuadCoeffDiv in
      let newTotalFee := u64 (linCoef + quadCoef) in
      let fee := u64 (newTotalFee - lastGasCost mem) in
      ((fee, None), mkMemory (store mem) newTotalFee)
    else ((0, None), mem).

Abbreviation gasM := (M (Z * option vmerror)) (only parsing).

Definition gas_ok (g : Z) : gasM := mret (g, None).
Definition gas_err (e : vmerror) : gasM := mret (0, Some e).

(** [gas, err := memoryGasCost(mem, memorySize); if err != nil { return 0, err }]. *)
Definition with_memory_gas (memorySize : Z) (k : Z -> gasM) : gasM :=
  let! mem := gets f_mem in
  let '((gas, err), mem) := memoryGasCost mem memorySize in
  let! _ := set_mem mem in
  match err with
  | Some e => gas_err e
  | None => k gas
  end.

(** [if gas, overflow = math.SafeAdd(gas, x); overflow { return 0, errGasUintOverflow }]. *)
Definition safe_add (gas x : Z) (k : Z -> gasM) : gasM :=
  let '(gas, overflow) := SafeAdd gas x in
  if overflow then gas_err errGasUintOverflow else k gas.
Definition safe_mul (a x : Z) (k : Z -> gasM) : gasM :=
  let '(gas, overflow) := SafeMul a x in
  if overflow then gas_err errGasUintOverflow else k gas.

Definition back (n : nat) : M Z := fun f => rbind (Back (f_stack f) n) (fun x => Ok (x, f)).

(** [words, overflow := bigUint64(stack.Back(n)); if overflow { ... }]. *)
Definition with_back_u64 (n : nat) (k : Z -> gasM) : gasM :=
  let! v := back n in
  let '(words, overflow) := bigUint64 v in
  if overflow then gas_err errGasUintOverflow else k words.

Section WithEnv.
Context (env : Env).

Definition constGasFunc (gas : Z) (memorySize : Z) : gasM := gas_ok gas.

(** The common shape of the copy instructions: memory, a base price, and a
    price per word of the length at stack position [n]. *)
Definition gas_copy (base : Z) (n : nat) (perWord : Z) (memorySize : Z) : gasM :=
  with_memory_gas memorySize (fun gas =>
  safe_add gas base (fun gas =>
  with_back_u64 n (fun words =>
  safe_mul (toWordSize words) perWord (fun words =>
  safe_add gas words gas_ok)))).

Definition gasCallDataCopy : Z -> gasM := gas_copy GasFastestStep 2 CopyGas.
Definition gasReturnDataCopy : Z -> gasM := gas_copy GasFastestStep 2 CopyGas.
Definition gasCodeCopy : Z -> gasM := gas_copy GasFastestStep 2 CopyGas.
Definition gasExtCodeCopy : Z -> gasM := gas_copy (ExtcodeCopy (gasTable env)) 3 CopyGas.
Definition gasSha3 : Z -> gasM := gas_copy Sha3Gas 1 Sha3WordGas.

Definition gasSStore (memorySize : Z) : gasM :=
  let! y := back 1 in
  let! x := back 0 in
  let! c := gets f_contract in
  let! val := run_db (fun d => GetState d (self c) (BigToHash x)) in
  if EmptyHash val && negb (EmptyHash (BigToHash y)) then gas_ok SstoreSetGas
  else if negb (EmptyHash val) && EmptyHash (BigToHash y) then
    let! _ := modify_db (fun d => AddRefund d SstoreRefundGas) in
    gas_ok SstoreClearGas
  else gas_ok SstoreResetGas.

Definition makeGasLog (n : Z) (memorySize : Z) : gasM :=
  with_back_u64 1 (fun requestedSize =>
  with_memory_gas memorySize (fun gas =>
  safe_add gas LogGas (fun gas =>
  safe_add gas (u64 (n * LogTopicGas)) (fun gas =>
  safe_mul requestedSize LogDataGas (fun memorySizeGas =>
  safe_add gas memorySizeGas gas_ok))))).

Definition gas_mem_plus (base : Z) (memorySize : Z) : gasM :=
  with_memory_gas memorySize (fun gas => safe_add gas base gas_ok).

Definition gasMLoad : Z -> gasM := gas_mem_plus GasFastestStep.
Definition gasMStore8 : Z -> gasM := gas_mem_plus GasFastestStep.
Definition gasMStore : Z -> gasM := gas_mem_plus GasFastestStep.
Definition gasCreate : Z -> gasM := gas_mem_plus CreateGas.

Definition gasBalance (memorySize : Z) : gasM := gas_ok (Balance (gasTable env)).
Definition gasExtCodeSize (memorySize : Z) : gasM := gas_ok (ExtcodeSize (gasTable env)).
Definition gasSLoad (memorySize : Z) : gasM := gas_ok (SLoad (gasTable env)).

Definition gasExp (memorySize : Z) : gasM :=
  let! e := back 1 in
  let expByteLen := (BitLen e + 7) / 8 in
  safe_add (u64 (expByteLen * ExpByte (gasTable env))) GasSlowStep gas_ok.

(** The tail shared by the four call instructions: price the call with
    [callGas] and remember the gas passed to the callee. *)
Definition charge_call (gas : Z) : gasM :=
  let! c := gets f_contract in
  let! requested := back 0 in
  let '(temp, err) := callGas (gasTable env) (Vm.Gas c) gas requested in
  let! e := gets f_evm in
  let! _ := set_evm (with_callGasTemp e temp) in
  match err with
  | Some e => gas_err e
  | None => safe_add gas temp gas_ok
  end.

Definition gasCall (memorySize : Z) : gasM :=
  let gas := Calls (gasTable env) in
  let! v := back 2 in
  let! a := back 1 in
  let! d := gets (fun f => db (f_evm f)) in
  let transfersValue := negb (v =? 0) in
  let addr := BigToAddress a in
  let eip158 := IsEIP158 (chainConfig env) (BlockNum env) in
  let gas :=
    if eip158 then
      if transfersValue && Empty d addr then u64 (gas + CallNewAccountGas) else gas
    else if negb (Exist d addr) then u64 (gas + CallNewAccountGas)
    else gas in
  let gas := if transfersValue then u64 (gas + CallValueTransferGas) else gas in
  with_memory_gas memorySize (fun memoryGas =>
  safe_add gas memoryGas charge_call).

Definition gasCallCode (memorySize : Z) : gasM :=
  let gas := Calls (gasTable env) in
  let! v := back 2 in
  let gas := if negb (v =? 0) then u64 (gas + CallValueTransferGas) else gas in
  with_memory_gas memorySize (fun memoryGas =>
  safe_add gas memoryGas charge_call).

Definition gasReturn (memorySize : Z) : gasM := with_memory_gas memorySize gas_ok.
Definition gasRevert (memorySize : Z) : gasM := with_memory_gas memorySize gas_ok.

Definition gasSuicide (memorySize : Z) : gasM :=
  let! c := gets f_contract in
  let! gas :=
    if IsEIP150 (chainConfig env) (BlockNum env) then
      let gas := Params.Suicide (gasTable env) in
      let! a := back 0 in
      let! d := gets (fun f => db (f_evm f)) in
      let addr := BigToAddress a in
      if IsEIP158 (chainConfig env) (BlockNum env) then
        if Empty d addr then
          let! b := run_db (fun d => GetBalance d (self c)) in
          mret (if negb (b =? 0) then u64 (gas + CreateBySuicide (gasTable env)) else gas)
        else mret gas
      else if negb (Exist d addr) then mret (u64 (gas + CreateBySuicide (gasTable env)))
      else mret gas
    else mret 0 in
  let! s := run_db (fun d => HasSuicided d (self c)) in
  let! _ := if negb s then modify_db (fun d => AddRefund d SuicideRefundGas) else mret tt in
  gas_ok gas.

Definition gasDelegateCall (memorySize : Z) : gasM :=
  with_memory_gas memorySize (fun gas =>
  safe_add gas (Calls (gasTable env)) charge_call).
Definition gasStaticCall : Z -> gasM := gasDelegateCall.

Definition gasPush (memorySize : Z) : gasM := gas_ok GasFastestStep.
Definition gasSwap (memorySize : Z) : gasM := gas_ok GasFastestStep.
Definition gasDup (memorySize : Z) : gasM := gas_ok GasFastestStep.

End WithEnv.
End Gas.
