(* ===== verification/Instructions.v ===== *)
(** * The instructions

    Translates [src/core/vm/instructions.go], one definition per [op*]
    function (and per [make*] generator), in the order of the source.  The
    message calls are reached through the interface [CallOps], which
    [Interp.v] implements with [EVM.Call], [EVM.CallCode], [EVM.DelegateCall],
    [EVM.StaticCall] and [EVM.Create].

    [opAdd], [opSub], [opMul] and [opDiv] are the instrumented instructions:
    when the exact result differs from the 256-bit one they store the program
    counter in the executing contract's storage, at a key made from a marker
    string.  [big.Int.Div] and [Mod] are Euclidean; on the non-negative
    operands they get here that is [Z.div] and [Z.modulo]. *)

From Stdlib Require Import String.
From stdpp Require Import base list numbers gmap option.
From S2P Require Import Prelude BigInt Types Params StateDB Opcodes Analysis Machine.

#[local] Open Scope Z_scope.
#[local] Open Scope go_scope.

Module Instr.
Import Big Common Params StateDB Analysis Vm.

(** The results of the message calls: return data, gas left, error, state. *)
Abbreviation call_result := (result (list Z * Z * option vmerror * EVM)) (only parsing).
Abbreviation create_result := (result (list Z * list Z * Z * option vmerror * EVM)) (only parsing).

Record CallOps := mkCallOps {
  evm_Call : ContractRef -> Address -> bytes -> Z -> Z -> EVM -> call_result;
  evm_CallCode : ContractRef -> Address -> bytes -> Z -> Z -> EVM -> call_result;
  evm_DelegateCall : ContractRef -> Address -> bytes -> Z -> EVM -> call_result;
  evm_StaticCall : ContractRef -> Address -> bytes -> Z -> EVM -> call_result;
  evm_Create : ContractRef -> bytes -> Z -> Z -> EVM -> create_result
}.

(** ** Overflow markers *)

Definition keyAdd : string := "Nyanpass. Overflow detected: Add".
Definition keySub : string := "Nyanpass. Overflow detected: Sub".
Definition keyMul : string := "Nyanpass. Overflow detected: Mul".
Definition keyDiv : string := "Nyanpass. Overflow detected: Div".

(** [big.NewInt(int64(pc))] as a hash. *)
Definition pcHash (pc : Z) : Hash := BigToHash (i64 pc).

(** [evm.StateDB.SetState(contract.Address(), StringToHash(key), BigToHash(pc))]. *)
Definition mark (key : string) : M unit :=
  let! pc := gets f_pc in
  let! c := gets f_contract in
  modify_db (fun d => SetState d (self c) (StringToHash key) (pcHash pc)).

Definition mark_if (b : bool) (key : string) : M unit := if b then mark key else mret tt.

Section WithEnv.
Context (env : Env).

Definition opAdd : exec :=
  let! x := pop in
  let! y := pop in
  let result := x + y in
  let resultMod := U256 result in
  let! _ := push resultMod in
  let! _ := mark_if (negb (result =? resultMod)) keyAdd in
  done_with [].

Definition opSub : exec :=
  let! x := pop in
  let! y := pop in
  let result := x - y in
  let resultMod := U256 result in
  let! _ := push resultMod in
  let! _ := mark_if (negb (result =? resultMod)) keySub in
  done_with [].

Definition opMul : exec :=
  let! x := pop in
  let! y := pop in
  let result := x * y in
  let resultMod := U256 result in
  let! _ := push resultMod in
  let! _ := mark_if (negb (result =? resultMod)) keyMul in
  done_with [].

Definition opDiv : exec :=
  let! x := pop in
  let! y := pop in
  if negb (y =? 0) then
    let result := x / y in
    let resultMod := U256 result in
    let! _ := mark_if (negb (result =? resultMod)) keyDiv in
    let! _ := push resultMod in
    done_with []
  else
    let! _ := push 0 in
    done_with [].

Definition opSdiv : exec :=
  let! x := pop in
  let! y := pop in
  let x := S256 x in
  let y := S256 y in
  if y =? 0 then
    let! _ := push 0 in done_with []
  else
    let n := if x * y <? 0 then -1 else 1 in
    let res := Z.abs x / Z.abs y in
    let! _ := push (U256 (res * n)) in done_with [].

Definition opMod : exec :=
  let! x := pop in
  let! y := pop in
  let! _ := push (if y =? 0 then 0 else U256 (x mod y)) in
  done_with [].

Definition opSmod : exec :=
  let! x := pop in
  let! y := pop in
  let x := S256 x in
  let y := S256 y in
  if y =? 0 then
    let! _ := push 0 in done_with []
  else
    let n := if x <? 0 then -1 else 1 in
    let res := Z.abs x mod Z.abs y in
    let! _ := push (U256 (res * n)) in done_with [].

Definition opExp : exec :=
  let! base := pop in
  let! exponent := pop in
  let! _ := push (Exp base exponent) in
  done_with [].

Definition opSignExtend : exec :=
  let! back := pop in
  if back <? 31 then
    let bit := Uint64 back * 8 + 7 in
    let! num := pop in
    let mask := Z.shiftl 1 bit - 1 in
    let num := if Z.testbit num bit then Z.lor num (Z.lnot mask) else Z.land num mask in
    let! _ := push (U256 num) in
    done_with []
  else done_with [].

Definition opNot : exec :=
  let! x := pop in
  let! _ := push (U256 (Z.lnot x)) in
  done_with [].

Definition opLt : exec :=
  let! x := pop in
  let! y := pop in
  let! _ := push (if x <? y then 1 else 0) in
  done_with [].

Definition opGt : exec :=
  let! x := pop in
  let! y := pop in
  let! _ := push (if y <? x then 1 else 0) in
  done_with [].

Definition opSlt : exec :=
  let! x := pop in
  let! y := pop in
  let x := S256 x in
  let y := S256 y in
  let! _ := push (if x <? S256 y then 1 else 0) in
  done_with [].

Definition opSgt : exec :=
  let! x := pop in
  let! y := pop in
  let x := S256 x in
  let y := S256 y in
  let! _ := push (if y <? x then 1 else 0) in
  done_with [].

Definition opEq : exec :=
  let! x := pop in
  let! y := pop in
  let! _ := push (if x =? y then 1 else 0) in
  done_with [].

Definition opIszero : exec :=
  let! x := pop in
  let! _ := push (if 0 <? x then 0 else 1) in
  done_with [].

Definition opAnd : exec :=
  let! x := pop in
  let! y := pop in
  let! _ := push (Z.land x y) in
  done_with [].

Definition opOr : exec :=
  let! x := pop in
  let! y := pop in
  let! _ := push (Z.lor x y) in
  done_with [].

Definition opXor : exec :=
  let! x := pop in
  let! y := pop in
  let! _ := push (Z.lxor x y) in
  done_with [].

(** The item below the index is overwritten in place. *)
Definition opByte : exec :=
  let! th := pop in
  let! val := pop in
  let! _ := push (if th <? 32 then Byte val 32 (Int64 th) else 0) in
  done_with [].

Definition opAddmod : exec :=
  let! x := pop in
  let! y := pop in
  let! z := pop in
  let! _ := push (if 0 <? z then U256 ((x + y) mod z) else 0) in
  done_with [].

Definition opMulmod : exec :=
  let! x := pop in
  let! y := pop in
  let! z := pop in
  let! _ := push (if 0 <? z then U256 ((x * y) mod z) else 0) in
  done_with [].

Definition memGet (offset size : Z) : M bytes :=
  fun f => rbind (mem_Get (f_mem f) offset size) (fun b => Ok (b, f)).
Definition memSet (offset size : Z) (v : bytes) : M unit :=
  fun f => rbind (mem_Set (f_mem f) offset size v) (fun m => set_mem m f).

Definition opSha3 : exec :=
  let! offset := pop in
  let! size := pop in
  let! data := memGet (Int64 offset) (Int64 size) in
  let hash := Keccak256 (crypto env) data in
  let! _ := if EnablePreimageRecording (vmConfig env)
            then modify_db (fun d => AddPreimage d (BytesToHash hash) data) else mret tt in
  let! _ := push (SetBytes hash) in
  done_with [].

Definition opAddress : exec :=
  let! c := gets f_contract in
  let! _ := push (Address_Big (self c)) in
  done_with [].

Definition opBalance : exec :=
  let! a := pop in
  let! b := run_db (fun d => GetBalance d (BigToAddress a)) in
  let! _ := push b in
  done_with [].

Definition opOrigin : exec :=
  let! _ := push (Address_Big (Origin (ctx env))) in
  done_with [].

Definition opCaller : exec :=
  let! c := gets f_contract in
  let! _ := push (Address_Big (CallerAddress c)) in
  done_with [].

Definition opCallValue : exec :=
  let! c := gets f_contract in
  let! v := lift (match value c with Some v => Ok v | None => Panic end) in
  let! _ := push v in
  done_with [].

Definition opCallDataLoad : exec :=
  let! c := gets f_contract in
  let! off := pop in
  let! d := lift (getDataBig (Input c) off 32) in
  let! _ := push (SetBytes d) in
  done_with [].

Definition opCallDataSize : exec :=
  let! c := gets f_contract in
  let! _ := push (len (Input c)) in
  done_with [].

Definition opCallDataCopy : exec :=
  let! memOffset := pop in
  let! dataOffset := pop in
  let! length := pop in
  let! c := gets f_contract in
  let! d := lift (getDataBig (Input c) dataOffset length) in
  let! _ := memSet (Uint64 memOffset) (Uint64 length) d in
  done_with [].

Definition opReturnDataSize : exec :=
  let! e := gets f_evm in
  let! _ := push (len (returnData e)) in
  done_with [].

Definition opReturnDataCopy : exec :=
  let! memOffset := pop in
  let! dataOffset := pop in
  let! length := pop in
  let! e := gets f_evm in
  let end_ := dataOffset + length in
  if (64 <? BitLen end_) || (len (returnData e) <? Uint64 end_) then
    fail_with errReturnDataOutOfBounds
  else
    let! d := lift (slice (returnData e) (Uint64 dataOffset) (Uint64 end_)) in
    let! _ := memSet (Uint64 memOffset) (Uint64 length) d in
    done_with [].

Definition opExtCodeSize : exec :=
  let! a := pop in
  let! d := gets (fun f => db (f_evm f)) in
  let! _ := push (GetCodeSize d (BigToAddress a)) in
  done_with [].

Definition opCodeSize : exec :=
  let! c := gets f_contract in
  let! _ := push (len (Code c)) in
  done_with [].

Definition opCodeCopy : exec :=
  let! memOffset := pop in
  let! codeOffset := pop in
  let! length := pop in
  let! c := gets f_contract in
  let! codeCopy := lift (getDataBig (Code c) codeOffset length) in
  let! _ := memSet (Uint64 memOffset) (Uint64 length) codeCopy in
  done_with [].

Definition opExtCodeCopy : exec :=
  let! addr := pop in
  let! memOffset := pop in
  let! codeOffset := pop in
  let! length := pop in
  let! d := gets (fun f => db (f_evm f)) in
  let! codeCopy := lift (getDataBig (GetCode d (BigToAddress addr)) codeOffset length) in
  let! _ := memSet (Uint64 memOffset) (Uint64 length) codeCopy in
  done_with [].

Definition opGasprice : exec :=
  let! _ := push (GasPrice (ctx env)) in
  done_with [].

Definition opBlockhash : exec :=
  let! num := pop in
  let bn := CtxBlockNumber (ctx env) in
  let n := bn - 257 in
  let! _ := push (if (n <? num) && (num <? bn)
                  then Hash_Big (GetHash (ctx env) (Uint64 num)) else 0) in
  done_with [].

Definition opCoinbase : exec :=
  let! _ := push (Address_Big (Coinbase (ctx env))) in
  done_with [].

Definition opTimestamp : exec :=
  let! _ := push (U256 (Time (ctx env))) in
  done_with [].

Definition opNumber : exec :=
  let! _ := push (U256 (CtxBlockNumber (ctx env))) in
  done_with [].

Definition opDifficulty : exec :=
  let! _ := push (U256 (Difficulty (ctx env))) in
  done_with [].

Definition opGasLimit : exec :=
  let! _ := push (U256 (GasLimit (ctx env))) in
  done_with [].

Definition opPop : exec :=
  let! _ := pop in
  done_with [].

Definition opMload : exec :=
  let! offset := pop in
  let! d := memGet (Int64 offset) 32 in
  let! _ := push (SetBytes d) in
  done_with [].

Definition opMstore : exec :=
  let! mStart := pop in
  let! val := pop in
  let! _ := memSet (Uint64 mStart) 32 (PaddedBigBytes val 32) in
  done_with [].

Definition opMstore8 : exec :=
  let! off := pop in
  let! val := pop in
  let! m := gets f_mem in
  let! s := lift (update (store m) (Int64 off) (Z.land (Int64 val) 0xff)) in
  let! _ := set_mem (mkMemory s (lastGasCost m)) in
  done_with [].

Definition callback (ev : callback_event) : M unit :=
  let! e := gets f_evm in set_evm (with_callback e ev).

Definition opSload : exec :=
  let! k := pop in
  let loc := BigToHash k in
  let! c := gets f_contract in
  let! h := run_db (fun d => GetState d (self c) loc) in
  let val := Hash_Big h in
  let! _ := push val in
  let! _ := callback (CbSload loc val) in
  done_with [].

Definition opSstore : exec :=
  let! k := pop in
  let loc := BigToHash k in
  let! val := pop in
  let! c := gets f_contract in
  let! _ := modify_db (fun d => SetState d (self c) loc (BigToHash val)) in
  let! _ := callback (CbSstore loc val) in
  done_with [].

(** [contract.jumpdests.has(contract.CodeHash, contract.Code, pos)]. *)
Definition valid_dest (pos : Z) : M bool :=
  let! c := gets f_contract in
  let! e := gets f_evm in
  let! (b, d) := lift (has (jumpdests e) (CodeHash c) (Code c) pos) in
  let! _ := set_evm (with_jumpdests e d) in
  mret b.

Definition opJump : exec :=
  let! pos := pop in
  let! ok := valid_dest pos in
  if negb ok then
    let! c := gets f_contract in
    fail_with (errInvalidJump (GetOp c (Uint64 pos)) pos)
  else
    let! _ := set_pc (Uint64 pos) in
    done_with [].

Definition opJumpi : exec :=
  let! pos := pop in
  let! cond := pop in
  if negb (cond =? 0) then
    let! ok := valid_dest pos in
    if negb ok then
      let! c := gets f_contract in
      fail_with (errInvalidJump (GetOp c (Uint64 pos)) pos)
    else
      let! _ := set_pc (Uint64 pos) in
      done_with []
  else
    let! pc := gets f_pc in
    let! _ := set_pc (u64 (pc + 1)) in
    done_with [].

Definition opJumpdest : exec := done_with [].

Definition opPc : exec :=
  let! pc := gets f_pc in
  let! _ := push pc in
  done_with [].

Definition opMsize : exec :=
  let! m := gets f_mem in
  let! _ := push (len (store m)) in
  done_with [].

Definition opGas : exec :=
  let! c := gets f_contract in
  let! _ := push (Vm.Gas c) in
  done_with [].

(** [contract.Gas += returnGas]. *)
Definition refund_gas (returnGas : Z) : M unit :=
  let! c := gets f_contract in set_contract (with_Gas c (u64 (Vm.Gas c + returnGas))).

Section WithCalls.
Context (ops : CallOps).

Definition opCreate : exec :=
  let! value := pop in
  let! offset := pop in
  let! size := pop in
  let! input := memGet (Int64 offset) (Int64 size) in
  let! c := gets f_contract in
  let gas := Vm.Gas c in
  let gas := if IsEIP150 (chainConfig env) (BlockNum env) then u64 (gas - gas / 64) else gas in
  let '(_, c) := UseGas c gas in
  let! _ := set_contract c in
  let! e := gets f_evm in
  let! (res, addr, returnGas, suberr, e) := lift (evm_Create ops (ContractObj c) input gas value e) in
  let! _ := set_evm e in
  let! _ :=
    if IsHomestead (chainConfig env) (BlockNum env)
       && bool_decide (suberr = Some ErrCodeStoreOutOfGas) then push 0
    else if bool_decide (suberr <> None) && bool_decide (suberr <> Some ErrCodeStoreOutOfGas) then push 0
    else push (Address_Big addr) in
  let! _ := refund_gas returnGas in
  if bool_decide (suberr = Some errExecutionReverted) then done_with res else done_with [].

(** The tail shared by the call instructions: push the success flag, copy the
    return data, take back the gas left. *)
Definition finish_call (retOffset retSize : Z) (r : bytes * Z * option vmerror * EVM) : exec :=
  let '(ret, returnGas, err, e) := r in
  let! _ := set_evm e in
  let! _ := push (if bool_decide (err = None) then 1 else 0) in
  let! _ := if bool_decide (err = None) || bool_decide (err = Some errExecutionReverted)
            then memSet (Uint64 retOffset) (Uint64 retSize) ret else mret tt in
  let! _ := refund_gas returnGas in
  done_with ret.

Definition opCall : exec :=
  let! _ := pop in
  let! e := gets f_evm in
  let gas := callGasTemp e in
  let! addr := pop in
  let! value := pop in
  let! inOffset := pop in
  let! inSize := pop in
  let! retOffset := pop in
  let! retSize := pop in
  let toAddr := BigToAddress addr in
  let value := U256 value in
  let! args := memGet (Int64 inOffset) (Int64 inSize) in
  let gas := if negb (value =? 0) then u64 (gas + CallStipend) else gas in
  let! c := gets f_contract in
  let! r := lift (evm_Call ops (ContractObj c) toAddr args gas value e) in
  finish_call retOffset retSize r.

Definition opCallCode : exec :=
  let! _ := pop in
  let! e := gets f_evm in
  let gas := callGasTemp e in
  let! addr := pop in
  let! value := pop in
  let! inOffset := pop in
  let! inSize := pop in
  let! retOffset := pop in
  let! retSize := pop in
  let toAddr := BigToAddress addr in
  let value := U256 value in
  let! args := memGet (Int64 inOffset) (Int64 inSize) in
  let gas := if negb (value =? 0) then u64 (gas + CallStipend) else gas in
  let! c := gets f_contract in
  let! r := lift (evm_CallCode ops (ContractObj c) toAddr args gas value e) in
  finish_call retOffset retSize r.

Definition opDelegateCall : exec :=
  let! _ := pop in
  let! e := gets f_evm in
  let gas := callGasTemp e in
  let! addr := pop in
  let! inOffset := pop in
  let! inSize := pop in
  let! retOffset := pop in
  let! retSize := pop in
  let toAddr := BigToAddress addr in
  let! args := memGet (Int64 inOffset) (Int64 inSize) in
  let! c := gets f_contract in
  let! r := lift (evm_DelegateCall ops (ContractObj c) toAddr args gas e) in
  finish_call retOffset retSize r.

Definition opStaticCall : exec :=
  let! _ := pop in
  let! e := gets f_evm in
  let gas := callGasTemp e in
  let! addr := pop in
  let! inOffset := pop in
  let! inSize := pop in
  let! retOffset := pop in
  let! retSize := pop in
  let toAddr := BigToAddress addr in
  let! args := memGet (Int64 inOffset) (Int64 inSize) in
  let! c := gets f_contract in
  let! r := lift (evm_StaticCall ops (ContractObj c) toAddr args gas e) in
  finish_call retOffset retSize r.

End WithCalls.

Definition memGetPtr (offset size : Z) : M bytes :=
  fun f => rbind (mem_GetPtr (f_mem f) offset size) (fun b => Ok (b, f)).

Definition opReturn : exec :=
  let! offset := pop in
  let! size := pop in
  let! ret := memGetPtr (Int64 offset) (Int64 size) in
  done_with ret.

Definition opRevert : exec :=
  let! offset := pop in
  let! size := pop in
  let! ret := memGetPtr (Int64 offset) (Int64 size) in
  done_with ret.

Definition opStop : exec := done_with [].

Definition opSuicide : exec :=
  let! c := gets f_contract in
  let! balance := run_db (fun d => GetBalance d (self c)) in
  let! a := pop in
  let! _ := modify_db (fun d => AddBalance d (BigToAddress a) balance) in
  let! _ := modify_db (fun d => StateDB.Suicide d (self c)) in
  done_with [].

(** The topics of a log instruction, in pop order. *)
Fixpoint pop_topics (n : nat) : M (list Hash) :=
  match n with
  | O => mret []
  | S n =>
      let! t := pop in
      let! ts := pop_topics n in
      mret (BigToHash t :: ts)
  end.

Definition makeLog (size : nat) : exec :=
  let! mStart := pop in
  let! mSize := pop in
  let! topics := pop_topics size in
  let! d := memGet (Int64 mStart) (Int64 mSize) in
  let! c := gets f_contract in
  let! _ := modify_db (fun st =>
    AddLog st (mkLog (self c) topics d (Uint64 (CtxBlockNumber (ctx env))))) in
  done_with [].

Definition makePush (size pushByteSize : Z) : exec :=
  let! c := gets f_contract in
  let! pc := gets f_pc in
  let codeLen := len (Code c) in
  let next := i64 (u64 (pc + 1)) in
  let startMin := if next <? codeLen then next else codeLen in
  let endMin := if startMin + pushByteSize <? codeLen then startMin + pushByteSize else codeLen in
  let! d := lift (slice (Code c) startMin endMin) in
  let! _ := push (SetBytes (RightPadBytes d pushByteSize)) in
  let! _ := set_pc (u64 (pc + size)) in
  done_with [].

Definition makeDup (size : nat) : exec :=
  let! st := gets f_stack in
  let! st := lift (st_dup st size) in
  let! _ := set_stack st in
  done_with [].

Definition makeSwap (size : nat) : exec :=
  let! st := gets f_stack in
  let! st := lift (st_swap st (size + 1)) in
  let! _ := set_stack st in
  done_with [].

End WithEnv.
End Instr.
