(* ===== verification/JumpTable.v ===== *)
(** * The jump table

    Translates [src/core/vm/jump_table.go].  An instruction set
    ([[256]operation] in the source, indexed by opcode) is the list of its
    valid entries, looked up first match first; an opcode without an entry
    has Go's zero [operation], whose [valid] flag is false. *)

From stdpp Require Import base list numbers gmap option.
From S2P Require Import Prelude BigInt Types Params StateDB Opcodes Machine GasTable.
From S2P Require Import Instructions.

#[local] Open Scope Z_scope.

Module Table.
Import Op Params Vm Gas Instr.

Record operation := mkOperation {
  execute : exec;
  gasCost : Z -> gasM;
  validateStack : Stack -> option vmerror;
  memorySize : option (Stack -> result Z);
  halts : bool;
  jumps : bool;
  writes : bool;
  valid : bool;
  reverts : bool;
  returns : bool
}.

(** The zero value: calling its nil functions would panic. *)
Definition zero_operation : operation :=
  mkOperation (fun _ => Panic) (fun _ _ => Panic) (fun _ => None) None
    false false false false false false.

(** A valid entry without flags, and the flags. *)
Definition entry (ex : exec) (gas : Z -> gasM) (st : Stack -> option vmerror) : operation :=
  mkOperation ex gas st None false false false true false false.
Definition with_memory (ms : Stack -> result Z) (o : operation) : operation :=
  mkOperation (execute o) (gasCost o) (validateStack o) (Some ms) (halts o) (jumps o) (writes o)
    (valid o) (reverts o) (returns o).
Definition halting (o : operation) : operation :=
  mkOperation (execute o) (gasCost o) (validateStack o) (memorySize o) true (jumps o) (writes o)
    (valid o) (reverts o) (returns o).
Definition jumping (o : operation) : operation :=
  mkOperation (execute o) (gasCost o) (validateStack o) (memorySize o) (halts o) true (writes o)
    (valid o) (reverts o) (returns o).
Definition writing (o : operation) : operation :=
  mkOperation (execute o) (gasCost o) (validateStack o) (memorySize o) (halts o) (jumps o) true
    (valid o) (reverts o) (returns o).
Definition reverting (o : operation) : operation :=
  mkOperation (execute o) (gasCost o) (validateStack o) (memorySize o) (halts o) (jumps o) (writes o)
    (valid o) true (returns o).
Definition returning (o : operation) : operation :=
  mkOperation (execute o) (gasCost o) (validateStack o) (memorySize o) (halts o) (jumps o) (writes o)
    (valid o) (reverts o) true.

Section WithEnv.
Context (env : Env) (ops : CallOps).

Abbreviation table := (list (Z * operation)) (only parsing).

Definition frontier_arith : table := [
  (STOP, halting (entry opStop (constGasFunc 0) (makeStackFunc 0 0)));
  (ADD, entry opAdd (constGasFunc GasFastestStep) (makeStackFunc 2 1));
  (MUL, entry opMul (constGasFunc GasFastStep) (makeStackFunc 2 1));
  (SUB, entry opSub (constGasFunc GasFastestStep) (makeStackFunc 2 1));
  (DIV, entry opDiv (constGasFunc GasFastStep) (makeStackFunc 2 1));
  (SDIV, entry opSdiv (constGasFunc GasFastStep) (makeStackFunc 2 1));
  (MOD, entry opMod (constGasFunc GasFastStep) (makeStackFunc 2 1));
  (SMOD, entry opSmod (constGasFunc GasFastStep) (makeStackFunc 2 1));
  (ADDMOD, entry opAddmod (constGasFunc GasMidStep) (makeStackFunc 3 1));
  (MULMOD, entry opMulmod (constGasFunc GasMidStep) (makeStackFunc 3 1));
  (EXP, entry opExp (gasExp env) (makeStackFunc 2 1));
  (SIGNEXTEND, entry opSignExtend (constGasFunc GasFastStep) (makeStackFunc 2 1))].

Definition frontier_logic : table := [
  (LT, entry opLt (constGasFunc GasFastestStep) (makeStackFunc 2 1));
  (GT, entry opGt (constGasFunc GasFastestStep) (makeStackFunc 2 1));
  (SLT, entry opSlt (constGasFunc GasFastestStep) (makeStackFunc 2 1));
  (SGT, entry opSgt (constGasFunc GasFastestStep) (makeStackFunc 2 1));
  (EQ, entry opEq (constGasFunc GasFastestStep) (makeStackFunc 2 1));
  (ISZERO, entry opIszero (constGasFunc GasFastestStep) (makeStackFunc 1 1));
  (AND, entry opAnd (constGasFunc GasFastestStep) (makeStackFunc 2 1));
  (XOR, entry opXor (constGasFunc GasFastestStep) (makeStackFunc 2 1));
  (OR, entry opOr (constGasFunc GasFastestStep) (makeStackFunc 2 1));
  (NOT, entry opNot (constGasFunc GasFastestStep) (makeStackFunc 1 1));
  (BYTE, entry opByte (constGasFunc GasFastestStep) (makeStackFunc 2 1));
  (SHA3, with_memory memorySha3 (entry (opSha3 env) gasSha3 (makeStackFunc 2 1)))].

Definition frontier_context : table := [
  (ADDRESS, entry opAddress (constGasFunc GasQuickStep) (makeStackFunc 0 1));
  (BALANCE, entry opBalance (gasBalance env) (makeStackFunc 1 1));
  (ORIGIN, entry (opOrigin env) (constGasFunc GasQuickStep) (makeStackFunc 0 1));
  (CALLER, entry opCaller (constGasFunc GasQuickStep) (makeStackFunc 0 1));
  (CALLVALUE, entry opCallValue (constGasFunc GasQuickStep) (makeStackFunc 0 1));
  (CALLDATALOAD, entry opCallDataLoad (constGasFunc GasFastestStep) (makeStackFunc 1 1));
  (CALLDATASIZE, entry opCallDataSize (constGasFunc GasQuickStep) (makeStackFunc 0 1));
  (CALLDATACOPY, with_memory memoryCallDataCopy (entry opCallDataCopy gasCallDataCopy (makeStackFunc 3 0)));
  (CODESIZE, entry opCodeSize (constGasFunc GasQuickStep) (makeStackFunc 0 1));
  (CODECOPY, with_memory memoryCodeCopy (entry opCodeCopy gasCodeCopy (makeStackFunc 3 0)));
  (GASPRICE, entry (opGasprice env) (constGasFunc GasQuickStep) (makeStackFunc 0 1));
  (EXTCODESIZE, entry opExtCodeSize (gasExtCodeSize env) (makeStackFunc 1 1));
  (EXTCODECOPY, with_memory memoryExtCodeCopy (entry opExtCodeCopy (gasExtCodeCopy env) (makeStackFunc 4 0)));
  (BLOCKHASH, entry (opBlockhash env) (constGasFunc GasExtStep) (makeStackFunc 1 1));
  (COINBASE, entry (opCoinbase env) (constGasFunc GasQuickStep) (makeStackFunc 0 1));
  (TIMESTAMP, entry (opTimestamp env) (constGasFunc GasQuickStep) (makeStackFunc 0 1));
  (NUMBER, entry (opNumber env) (constGasFunc GasQuickStep) (makeStackFunc 0 1));
  (DIFFICULTY, entry (opDifficulty env) (constGasFunc GasQuickStep) (makeStackFunc 0 1));
  (GASLIMIT, entry (opGasLimit env) (constGasFunc GasQuickStep) (makeStackFunc 0 1))].

Definition frontier_storage : table := [
  (POP, entry opPop (constGasFunc GasQuickStep) (makeStackFunc 1 0));
  (MLOAD, with_memory memoryMLoad (entry opMload gasMLoad (makeStackFunc 1 1)));
  (MSTORE, with_memory memoryMStore (entry opMstore gasMStore (makeStackFunc 2 0)));
  (MSTORE8, with_memory memoryMStore8 (entry opMstore8 gasMStore8 (makeStackFunc 2 0)));
  (SLOAD, entry opSload (gasSLoad env) (makeStackFunc 1 1));
  (SSTORE, writing (entry opSstore gasSStore (makeStackFunc 2 0)));
  (JUMP, jumping (entry opJump (constGasFunc GasMidStep) (makeStackFunc 1 0)));
  (JUMPI, jumping (entry opJumpi (constGasFunc GasSlowStep) (makeStackFunc 2 0)));
  (PC, entry opPc (constGasFunc GasQuickStep) (makeStackFunc 0 1));
  (MSIZE, entry opMsize (constGasFunc GasQuickStep) (makeStackFunc 0 1));
  (GAS, entry opGas (constGasFunc GasQuickStep) (makeStackFunc 0 1));
  (JUMPDEST, entry opJumpdest (constGasFunc JumpdestGas) (makeStackFunc 0 0))].

(** [PUSH1] .. [PUSH32]: [makePush(n, n)]. *)
Definition push_entry (n : nat) : Z * operation :=
  (PUSH1 + Z.of_nat n - 1, entry (makePush (Z.of_nat n) (Z.of_nat n)) gasPush (makeStackFunc 0 1)).
Definition frontier_push : table := push_entry <$> seq 1 32.

(** [DUP1] .. [DUP16]. *)
Definition dup_entry (n : nat) : Z * operation :=
  (DUP1 + Z.of_nat n - 1, entry (makeDup n) gasDup (makeDupStackFunc (Z.of_nat n))).
Definition frontier_dup : table := dup_entry <$> seq 1 16.

(** [SWAP1] .. [SWAP16]. *)
Definition swap_entry (n : nat) : Z * operation :=
  (SWAP1 + Z.of_nat n - 1, entry (makeSwap n) gasSwap (makeSwapStackFunc (Z.of_nat n + 1))).
Definition frontier_swap : table := swap_entry <$> seq 1 16.

(** [LOG0] .. [LOG4]. *)
Definition log_entry (n : nat) : Z * operation :=
  (LOG0 + Z.of_nat n,
   writing (with_memory memoryLog
     (entry (makeLog env n) (makeGasLog (Z.of_nat n)) (makeStackFunc (Z.of_nat n + 2) 0)))).
Definition frontier_log : table := log_entry <$> seq 0 5.

Definition frontier_system : table := [
  (CREATE, returning (writing (with_memory memoryCreate
             (entry (opCreate env ops) gasCreate (makeStackFunc 3 1)))));
  (CALL, returning (with_memory memoryCall (entry (opCall ops) (gasCall env) (makeStackFunc 7 1))));
  (CALLCODE, returning (with_memory memoryCall
             (entry (opCallCode ops) (gasCallCode env) (makeStackFunc 7 1))));
  (RETURN, halting (with_memory memoryReturn (entry opReturn gasReturn (makeStackFunc 2 0))));
  (SELFDESTRUCT, writing (halting (entry opSuicide (gasSuicide env) (makeStackFunc 1 0))))].

Definition NewFrontierInstructionSet : table :=
  frontier_arith ++ frontier_logic ++ frontier_context ++ frontier_storage ++ frontier_push ++
  frontier_dup ++ frontier_swap ++ frontier_log ++ frontier_system.

Definition NewHomesteadInstructionSet : table :=
  (DELEGATECALL, returning (with_memory memoryDelegateCall
     (entry (opDelegateCall ops) (gasDelegateCall env) (makeStackFunc 6 1))))
  :: NewFrontierInstructionSet.

Definition NewByzantiumInstructionSet : table :=
  (STATICCALL, returning (with_memory memoryStaticCall
     (entry (opStaticCall ops) (gasStaticCall env) (makeStackFunc 6 1)))) ::
  (RETURNDATASIZE, entry opReturnDataSize (constGasFunc GasQuickStep) (makeStackFunc 0 1)) ::
  (RETURNDATACOPY, with_memory memoryReturnDataCopy
     (entry opReturnDataCopy gasReturnDataCopy (makeStackFunc 3 0))) ::
  (REVERT, returning (reverting (with_memory memoryRevert
     (entry opRevert gasRevert (makeStackFunc 2 0))))) ::
  NewHomesteadInstructionSet.

(** The table chosen by [NewInterpreter]. *)
Definition instructionSet : table :=
  if IsByzantium (chainConfig env) (BlockNum env) then NewByzantiumInstructionSet
  else if IsHomestead (chainConfig env) (BlockNum env) then NewHomesteadInstructionSet
  else NewFrontierInstructionSet.

Fixpoint lookup_op (t : table) (op : Z) : operation :=
  match t with
  | [] => zero_operation
  | (o, e) :: t' => if o =? op then e else lookup_op t' op
  end.

Definition JumpTable (op : Z) : operation := lookup_op instructionSet op.

End WithEnv.

(** A property of every entry of the largest table holds of every valid
    operation the interpreter can fetch. *)
Lemma JumpTable_forall (P : Z -> operation -> Prop) env ops op :
  Forall (fun e => P (fst e) (snd e)) (NewByzantiumInstructionSet env ops) ->
  valid (JumpTable env ops op) = true -> P op (JumpTable env ops op).
Proof.
  intros HB.
  assert (Hsub : Forall (fun e => P (fst e) (snd e)) (instructionSet env ops)).
  { assert (HH : Forall (fun e => P (fst e) (snd e)) (NewHomesteadInstructionSet env ops))
      by (do 4 apply Forall_inv_tail in HB; done).
    unfold instructionSet. repeat split_if; [done..|]. by apply Forall_inv_tail in HH. }
  unfold JumpTable. induction Hsub as [|[o e] t He _ IH]; simpl; [done|].
  destruct (Z.eqb_spec o op) as [<-|]; [done|]. exact IH.
Qed.

End Table.
