(* ===== verification/Precompiles.v ===== *)
(** * Precompiled contracts

    Translates [src/core/vm/contracts.go] and [ValidateSignatureValues] of
    [src/crypto/crypto.go].  A native contract is a [PrecompiledContract]: its
    gas price and its body, both of which may panic on the way to [getData].
    The elliptic-curve and hash primitives come from the record [Crypto]. *)

From Stdlib Require Import Zpow_facts.
From stdpp Require Import base list numbers gmap option.
From S2P Require Import Prelude BigInt Types Params Machine.

#[local] Open Scope Z_scope.
#[local] Open Scope go_scope.

Module Precompiles.
Import Big Common Params Vm.

(** ** [crypto.ValidateSignatureValues] *)

Definition secp256k1_N : Z := 0xfffffffffffffffffffffffffffffffebaaedce6af48a03bbfd25e8cd0364141.
Definition secp256k1_halfN : Z := secp256k1_N / 2.

Definition ValidateSignatureValues (v r s : Z) (homestead : bool) : bool :=
  if (r <? 1) || (s <? 1) then false
  else if homestead && (secp256k1_halfN <? s) then false
  else (r <? secp256k1_N) && (s <? secp256k1_N) && ((v =? 0) || (v =? 1)).

Section WithCrypto.
Context (cr : Crypto).

(** ** Contracts 1 to 4 *)

(** [uint64(len(input)+31)/32*perWord + base]. *)
Definition per_word_gas (perWord base : Z) (input : bytes) : result Z :=
  Ok (u64 (u64 ((len input + 31) / 32 * perWord) + base)).

Definition ecrecover_Run (input : bytes) : result (bytes * option vmerror) :=
  let input := RightPadBytes input 128 in
  let? rb := slice input 64 96 in
  let? sb := slice input 96 128 in
  let? vb := index input 63 in
  let v := (vb - 27) mod 256 in
  let? pad := slice input 32 63 in
  if negb (allZero pad) || negb (ValidateSignatureValues v (SetBytes rb) (SetBytes sb) false) then
    Ok ([], None)
  else
    let? hash := slice input 0 32 in
    let? sig := slice input 64 128 in
    match Ecrecover cr hash (sig ++ [v]) with
    | None => Ok ([], None)
    | Some pubKey =>
        let? key := slice pubKey 1 (len pubKey) in
        let h := Keccak256 cr key in
        let? tail := slice h 12 (len h) in
        Ok (LeftPadBytes tail 32, None)
    end.

Definition ecrecover : PrecompiledContract :=
  mkPrecompiled (fun _ => Ok EcrecoverGas) ecrecover_Run.

Definition sha256hash : PrecompiledContract :=
  mkPrecompiled (per_word_gas Sha256PerWordGas Sha256BaseGas)
    (fun input => Ok (sha256_Sum256 cr input, None)).

Definition ripemd160hash : PrecompiledContract :=
  mkPrecompiled (per_word_gas Ripemd160PerWordGas Ripemd160BaseGas)
    (fun input => Ok (LeftPadBytes (ripemd160_Sum cr input) 32, None)).

Definition dataCopy : PrecompiledContract :=
  mkPrecompiled (per_word_gas IdentityPerWordGas IdentityBaseGas)
    (fun input => Ok (input, None)).

(** ** [bigModExp] *)

(** [new(big.Int).SetBytes(getData(input, start, size))]. *)
Definition getInt (input : bytes) (start size : Z) : result Z :=
  let? d := getData input start size in Ok (SetBytes d).

(** [if len(input) > 96 { input[96:] } else { input[:0] }]. *)
Definition modexp_body (input : bytes) : result bytes :=
  if 96 <? len input then slice input 96 (len input) else slice input 0 0.

(** The multiplication complexity, from [max(modLen, baseLen)]. *)
Definition modexp_complexity (gas : Z) : Z :=
  if gas <=? 64 then gas * gas
  else if gas <=? 1024 then gas * gas / 4 + (96 * gas - 3072)
  else gas * gas / 16 + (480 * gas - 199680).

Definition bigModExp_RequiredGas (input : bytes) : result Z :=
  let? baseLen := getInt input 0 32 in
  let? expLen := getInt input 32 32 in
  let? modLen := getInt input 64 32 in
  let? input := modexp_body input in
  let? expHead :=
    if len input <=? baseLen then Ok 0
    else if 32 <? expLen then getInt input (Uint64 baseLen) 32
    else getInt input (Uint64 baseLen) (Uint64 expLen) in
  let msb := if 0 <? BitLen expHead then BitLen expHead - 1 else 0 in
  let adjExpLen := if 32 <? expLen then 8 * (expLen - 32) else 0 in
  let adjExpLen := adjExpLen + msb in
  let gas := modexp_complexity (BigMax modLen baseLen) in
  let gas := gas * BigMax adjExpLen 1 in
  let gas := gas / ModExpQuadCoeffDiv in
  Ok (if 64 <? BitLen gas then MaxUint64 else Uint64 gas).

(** [big.Int.Exp(base, exp, mod)] with mod > 0. *)
Definition expMod (base exp m : Z) : Z := Zpow_mod base exp m.

Definition bigModExp_Run (input : bytes) : result (bytes * option vmerror) :=
  let? baseLen := getInt input 0 32 in
  let? expLen := getInt input 32 32 in
  let? modLen := getInt input 64 32 in
  let baseLen := Uint64 baseLen in
  let expLen := Uint64 expLen in
  let modLen := Uint64 modLen in
  let? input := modexp_body input in
  if (baseLen =? 0) && (modLen =? 0) then Ok ([], None)
  else
    let? base := getInt input 0 baseLen in
    let? exp := getInt input baseLen expLen in
    let? m := getInt input (u64 (baseLen + expLen)) modLen in
    if BitLen m =? 0 then Ok (LeftPadBytes [] (i64 modLen), None)
    else Ok (LeftPadBytes (Bytes (expMod base exp m)) (i64 modLen), None).

Definition bigModExp : PrecompiledContract :=
  mkPrecompiled bigModExp_RequiredGas bigModExp_Run.

(** ** The curve contracts *)

Definition newCurvePoint (blob : bytes) : G1 cr + vmerror :=
  match G1_Unmarshal cr blob with
  | None => inr errNotOnCurve
  | Some p =>
      let '(gx, gy) := G1_CurvePoints cr p in
      if (bn256_P cr <=? gx) || (bn256_P cr <=? gy) then inr errInvalidCurvePoint else inl p
  end.

Definition newTwistPoint (blob : bytes) : G2 cr + vmerror :=
  match G2_Unmarshal cr blob with
  | None => inr errNotOnCurve
  | Some p =>
      let '((xr, xi), (yr, yi)) := G2_CurvePoints cr p in
      if (bn256_P cr <=? xr) || (bn256_P cr <=? xi) || (bn256_P cr <=? yr) || (bn256_P cr <=? yi)
      then inr errInvalidCurvePoint else inl p
  end.

Definition bn256Add_Run (input : bytes) : result (bytes * option vmerror) :=
  let? xb := getData input 0 64 in
  match newCurvePoint xb with
  | inr err => Ok ([], Some err)
  | inl x =>
      let? yb := getData input 64 64 in
      match newCurvePoint yb with
      | inr err => Ok ([], Some err)
      | inl y => Ok (G1_Marshal cr (G1_Add cr x y), None)
      end
  end.

Definition bn256Add : PrecompiledContract := mkPrecompiled (fun _ => Ok Bn256AddGas) bn256Add_Run.

Definition bn256ScalarMul_Run (input : bytes) : result (bytes * option vmerror) :=
  let? pb := getData input 0 64 in
  match newCurvePoint pb with
  | inr err => Ok ([], Some err)
  | inl p =>
      let? k := getInt input 64 32 in
      Ok (G1_Marshal cr (G1_ScalarMult cr p k), None)
  end.

Definition bn256ScalarMul : PrecompiledContract :=
  mkPrecompiled (fun _ => Ok Bn256ScalarMulGas) bn256ScalarMul_Run.

Definition true32Byte : bytes := zeros 31 ++ [1].
Definition false32Byte : bytes := zeros 32.

(** The loop over the pairs of points, [n] iterations from offset [i]. *)
Fixpoint pairing_points (n : nat) (input : bytes) (i : Z) (cs : list (G1 cr)) (ts : list (G2 cr)) :
    result ((list (G1 cr) * list (G2 cr)) + vmerror) :=
  match n with
  | O => Ok (inl (cs, ts))
  | S n =>
      let? cb := slice input i (i + 64) in
      match newCurvePoint cb with
      | inr err => Ok (inr err)
      | inl c =>
          let? tb := slice input (i + 64) (i + 192) in
          match newTwistPoint tb with
          | inr err => Ok (inr err)
          | inl t => pairing_points n input (i + 192) (cs ++ [c]) (ts ++ [t])
          end
      end
  end.

Definition bn256Pairing_Run (input : bytes) : result (bytes * option vmerror) :=
  if 0 <? len input mod 192 then Ok ([], Some errBadPairingInput)
  else
    let? r := pairing_points (Z.to_nat (len input / 192)) input 0 [] [] in
    match r with
    | inr err => Ok ([], Some err)
    | inl (cs, ts) => Ok (if PairingCheck cr cs ts then true32Byte else false32Byte, None)
    end.

Definition bn256Pairing : PrecompiledContract :=
  mkPrecompiled
    (fun input => Ok (u64 (Bn256PairingBaseGas + u64 (len input / 192 * Bn256PairingPerPointGas))))
    bn256Pairing_Run.

(** ** The tables *)

Definition PrecompiledContractsHomestead : list (Address * PrecompiledContract) := [
  (BytesToAddress [1], ecrecover);
  (BytesToAddress [2], sha256hash);
  (BytesToAddress [3], ripemd160hash);
  (BytesToAddress [4], dataCopy)].

Definition PrecompiledContractsByzantium : list (Address * PrecompiledContract) := [
  (BytesToAddress [1], ecrecover);
  (BytesToAddress [2], sha256hash);
  (BytesToAddress [3], ripemd160hash);
  (BytesToAddress [4], dataCopy);
  (BytesToAddress [5], bigModExp);
  (BytesToAddress [6], bn256Add);
  (BytesToAddress [7], bn256ScalarMul);
  (BytesToAddress [8], bn256Pairing)].

End WithCrypto.

(** [precompiles[addr]]: the entry of a Go map literal. *)
Fixpoint find_precompile (t : list (Address * PrecompiledContract)) (a : Address) :
    option PrecompiledContract :=
  match t with
  | [] => None
  | (b, p) :: t => if bool_decide (a = b) then Some p else find_precompile t a
  end.

Definition RunPrecompiledContract (p : PrecompiledContract) (input : bytes) (c : Contract) :
    result (bytes * option vmerror * Contract) :=
  let? gas := RequiredGas p input in
  match UseGas c gas with
  | (true, c) => let? (ret, err) := PRun p input in Ok (ret, err, c)
  | (false, c) => Ok ([], Some ErrOutOfGas, c)
  end.

End Precompiles.
