(* ===== verification/Interp.v ===== *)
(** * The interpreter and the message calls

    Translates [src/core/vm/interpreter.go] ([enforceRestrictions],
    [Interpreter.Run]) and [src/core/vm/evm.go] ([run], [Call], [CallCode],
    [DelegateCall], [StaticCall], [Create]).

    [step] is one iteration of the loop of [Interpreter.Run].  The loop and
    the message calls are mutually recursive in the source; here one [loop]
    recurses on fuel, and the calls are written over an arbitrary loop
    function [lp], which [loop] instantiates with itself at a smaller fuel.
    The tracer hooks, active in debug mode only, are left out. *)

From stdpp Require Import base list numbers gmap option.
From S2P Require Import Prelude BigInt Types Params StateDB Opcodes Analysis Machine GasTable.
From S2P Require Import Instructions JumpTable Precompiles.

#[local] Open Scope Z_scope.
#[local] Open Scope go_scope.

Module Interp.
Import Op Big Common Params StateDB Analysis Vm Instr Table Precompiles.

Section WithEnv.
Context (env : Env).

(** ** [interpreter.go] *)

Definition enforceRestrictions (readOnly : bool) (op : Z) (o : operation) (st : Stack) :
    result (option vmerror) :=
  if RIsByzantium (chainRules env) then
    if readOnly then
      if writes o then Ok (Some errWriteProtection)
      else if op =? CALL then
        let? v := Back st 2 in
        Ok (if 0 <? BitLen v then Some errWriteProtection else None)
      else Ok None
    else Ok None
  else Ok None.

(** An iteration continues the loop or ends the activation with a return
    value and an error. *)
Inductive outcome :=
| Next (f : frame)
| Done (ret : bytes) (err : option vmerror) (f : frame).

(** The requested memory size, rounded up to words. *)
Definition needed_memory (o : operation) (st : Stack) : result (Z + vmerror) :=
  match memorySize o with
  | None => Ok (inl 0)
  | Some ms =>
      let? m := ms st in
      let '(memSize, overflow) := bigUint64 m in
      if overflow then Ok (inr errGasUintOverflow)
      else
        let '(size, overflow) := SafeMul (toWordSize memSize) 32 in
        if overflow then Ok (inr errGasUintOverflow) else Ok (inl size)
  end.

(** Price the operation and consume the gas. *)
Definition charge (o : operation) (size : Z) : M (option vmerror) :=
  if negb (DisableGasMetering (vmConfig env)) then
    let! (cost, err) := gasCost o size in
    match err with
    | Some _ => mret (Some ErrOutOfGas)
    | None =>
        let! c := gets f_contract in
        match UseGas c cost with
        | (true, c) => let! _ := set_contract c in mret None
        | (false, _) => mret (Some ErrOutOfGas)
        end
    end
  else mret None.

(** Expand the memory, execute, and decide how the loop goes on. *)
Definition perform (o : operation) (size : Z) (f : frame) : result outcome :=
  let f := if 0 <? size
           then mkFrame (f_pc f) (f_evm f) (f_contract f) (mem_Resize (f_mem f) size) (f_stack f)
           else f in
  let? (res, err, f) := (let? ((r, e), f) := execute o f in Ok (r, e, f)) in
  let f := if returns o
           then mkFrame (f_pc f) (with_returnData (f_evm f) res) (f_contract f) (f_mem f) (f_stack f)
           else f in
  Ok (match err with
      | Some _ => Done [] err f
      | None =>
          if reverts o then Done res (Some errExecutionReverted) f
          else if halts o then Done res None f
          else if negb (jumps o)
          then Next (mkFrame (u64 (f_pc f + 1)) (f_evm f) (f_contract f) (f_mem f) (f_stack f))
          else Next f
      end).

(** One iteration of [for atomic.LoadInt32(&in.evm.abort) == 0 { ... }]. *)
Definition step (ops : CallOps) (f : frame) : result outcome :=
  if negb (abort (f_evm f) =? 0) then Ok (Done [] None f)
  else
    let op := GetOp (f_contract f) (f_pc f) in
    let o := JumpTable env ops op in
    if negb (valid o) then Ok (Done [] (Some (errInvalidOpcode op)) f)
    else
      match validateStack o (f_stack f) with
      | Some err => Ok (Done [] (Some err) f)
      | None =>
          let? restricted := enforceRestrictions (readOnly (f_evm f)) op o (f_stack f) in
          match restricted with
          | Some err => Ok (Done [] (Some err) f)
          | None =>
              let? need := needed_memory o (f_stack f) in
              match need with
              | inr err => Ok (Done [] (Some err) f)
              | inl size =>
                  let? (err, f) := charge o size f in
                  match err with
                  | Some err => Ok (Done [] (Some err) f)
                  | None => perform o size f
                  end
              end
          end
      end.

Abbreviation run_result := (result (list Z * option vmerror * frame)) (only parsing).

(** ** [evm.go] *)

Section WithLoop.
Context (lp : frame -> run_result).

(** [Interpreter.Run]; the contract is returned for the gas left in it. *)
Definition Run (c : Contract) (input : bytes) (e : EVM) :
    result (bytes * option vmerror * Contract * EVM) :=
  let e := with_depth e (depth e + 1) in
  let e := with_returnData e [] in
  if len (Code c) =? 0 then Ok ([], None, c, with_depth e (depth e - 1))
  else
    let c := with_Input c input in
    let? (ret, err, f) := lp (mkFrame 0 e c NewMemory []) in
    Ok (ret, err, f_contract f, with_depth (f_evm f) (depth (f_evm f) - 1)).

Definition precompiles : list (Address * PrecompiledContract) :=
  if IsByzantium (chainConfig env) (BlockNum env) then PrecompiledContractsByzantium (crypto env)
  else PrecompiledContractsHomestead (crypto env).

Definition run (c : Contract) (input : bytes) (e : EVM) :
    result (bytes * option vmerror * Contract * EVM) :=
  match CodeAddr c with
  | Some a =>
      match find_precompile precompiles a with
      | Some p =>
          let? (ret, err, c) := RunPrecompiledContract p input c in
          Ok (ret, err, c, e)
      | None => Run c input e
      end
  | None => Run c input e
  end.

(** [contract.SetCallCode(&addr, StateDB.GetCodeHash(addr), StateDB.GetCode(addr))]. *)
Definition load_code (c : Contract) (addr : Address) (d : StateDB) : Contract :=
  SetCallCode c addr (GetCodeHash d addr) (GetCode d addr).

(** Run a call and, on an error, revert and consume the gas left. *)
Definition run_and_revert (c : Contract) (input : bytes) (snapshot : Z) (e : EVM) : call_result :=
  let? (ret, err, c, e) := run c input e in
  match err with
  | None => Ok (ret, Vm.Gas c, err, e)
  | Some x =>
      let e := with_db e (RevertToSnapshot (db e) snapshot) in
      let c := if bool_decide (x <> errExecutionReverted) then snd (UseGas c (Vm.Gas c)) else c in
      Ok (ret, Vm.Gas c, err, e)
  end.

Definition no_recursion (e : EVM) : bool := NoRecursion (vmConfig env) && (0 <? depth e).

Definition Call (caller : ContractRef) (addr : Address) (input : bytes) (gas value : Z) (e : EVM) :
    call_result :=
  if no_recursion e then Ok ([], gas, None, e)
  else if CallCreateDepth <? depth e then Ok ([], gas, Some ErrDepth, e)
  else
    let '(can, d) := CanTransfer (db e) (ref_Address caller) value in
    let e := with_db e d in
    if negb can then Ok ([], gas, Some ErrInsufficientBalance, e)
    else
      let snapshot := Snapshot (db e) in
      let missing := negb (Exist (db e) addr) in
      if missing && bool_decide (find_precompile precompiles addr = None)
         && IsEIP158 (chainConfig env) (BlockNum env) && (value =? 0)
      then Ok ([], gas, None, e)
      else
        let e := if missing then with_db e (CreateAccount (db e) addr) else e in
        let e := with_db e (Transfer (db e) (ref_Address caller) addr value) in
        let contract := NewContract caller (AccountRef addr) (Some value) gas in
        let e := with_jumpdests e (new_dests caller (jumpdests e)) in
        let contract := load_code contract addr (db e) in
        run_and_revert contract input snapshot e.

Definition CallCode (caller : ContractRef) (addr : Address) (input : bytes) (gas value : Z)
    (e : EVM) : call_result :=
  if no_recursion e then Ok ([], gas, None, e)
  else if CallCreateDepth <? depth e then Ok ([], gas, Some ErrDepth, e)
  else
    let '(can, d) := CanTransfer (db e) (ref_Address caller) value in
    let e := with_db e d in
    if negb can then Ok ([], gas, Some ErrInsufficientBalance, e)
    else
      let snapshot := Snapshot (db e) in
      let to := AccountRef (ref_Address caller) in
      let contract := NewContract caller to (Some value) gas in
      let e := with_jumpdests e (new_dests caller (jumpdests e)) in
      let contract := load_code contract addr (db e) in
      run_and_revert contract input snapshot e.

Definition DelegateCall (caller : ContractRef) (addr : Address) (input : bytes) (gas : Z) (e : EVM) :
    call_result :=
  if no_recursion e then Ok ([], gas, None, e)
  else if CallCreateDepth <? depth e then Ok ([], gas, Some ErrDepth, e)
  else
    let snapshot := Snapshot (db e) in
    let to := AccountRef (ref_Address caller) in
    let? contract := AsDelegate (NewContract caller to None gas) caller in
    let e := with_jumpdests e (new_dests caller (jumpdests e)) in
    let contract := load_code contract addr (db e) in
    run_and_revert contract input snapshot e.

Definition StaticCall (caller : ContractRef) (addr : Address) (input : bytes) (gas : Z) (e : EVM) :
    call_result :=
  if no_recursion e then Ok ([], gas, None, e)
  else if CallCreateDepth <? depth e then Ok ([], gas, Some ErrDepth, e)
  else
    let entered := negb (readOnly e) in
    let e := if entered then with_readOnly e true else e in
    let snapshot := Snapshot (db e) in
    let contract := NewContract caller (AccountRef addr) (Some 0) gas in
    let e := with_jumpdests e (new_dests caller (jumpdests e)) in
    let contract := load_code contract addr (db e) in
    let? (ret, leftOver, err, e) := run_and_revert contract input snapshot e in
    Ok (ret, leftOver, err, if entered then with_readOnly e false else e).

Definition Keccak256Hash (data : bytes) : Hash := BytesToHash (Keccak256 (crypto env) data).
Definition emptyCodeHash : Hash := Keccak256Hash [].

(** The tail of [Create], from the end of the run of the init code. *)
Definition finish_create (contractAddr : Address) (snapshot : Z) (ret : bytes)
    (err : option vmerror) (c : Contract) (e : EVM) : create_result :=
  let maxCodeSizeExceeded :=
    IsEIP158 (chainConfig env) (BlockNum env) && (MaxCodeSize <? len ret) in
  let '(err, c, e) :=
    if bool_decide (err = None) && negb maxCodeSizeExceeded then
      let createDataGas := u64 (len ret * CreateDataGas) in
      match UseGas c createDataGas with
      | (true, c) => (err, c, with_db e (SetCode (db e) contractAddr ret))
      | (false, c) => (Some ErrCodeStoreOutOfGas, c, e)
      end
    else (err, c, e) in
  let '(c, e) :=
    if maxCodeSizeExceeded
       || (bool_decide (err <> None)
           && (IsHomestead (chainConfig env) (BlockNum env)
               || bool_decide (err <> Some ErrCodeStoreOutOfGas)))
    then
      let e := with_db e (RevertToSnapshot (db e) snapshot) in
      if bool_decide (err <> Some errExecutionReverted) then (snd (UseGas c (Vm.Gas c)), e) else (c, e)
    else (c, e) in
  let err := if maxCodeSizeExceeded && bool_decide (err = None)
             then Some errMaxCodeSizeExceeded else err in
  Ok (ret, contractAddr, Vm.Gas c, err, e).

Definition Create (caller : ContractRef) (code : bytes) (gas value : Z) (e : EVM) : create_result :=
  if CallCreateDepth <? depth e then Ok ([], zeroAddress, gas, Some ErrDepth, e)
  else
    let '(can, d) := CanTransfer (db e) (ref_Address caller) value in
    let e := with_db e d in
    if negb can then Ok ([], zeroAddress, gas, Some ErrInsufficientBalance, e)
    else
      let nonce := GetNonce (db e) (ref_Address caller) in
      let e := with_db e (SetNonce (db e) (ref_Address caller) (u64 (nonce + 1))) in
      let contractAddr := CreateAddress (crypto env) (ref_Address caller) nonce in
      let contractHash := GetCodeHash (db e) contractAddr in
      if negb (GetNonce (db e) contractAddr =? 0)
         || (bool_decide (contractHash <> zeroHash) && bool_decide (contractHash <> emptyCodeHash))
      then Ok ([], zeroAddress, 0, Some ErrContractAddressCollision, e)
      else
        let snapshot := Snapshot (db e) in
        let e := with_db e (CreateAccount (db e) contractAddr) in
        let e := if IsEIP158 (chainConfig env) (BlockNum env)
                 then with_db e (SetNonce (db e) contractAddr 1) else e in
        let e := with_db e (Transfer (db e) (ref_Address caller) contractAddr value) in
        let c := NewContract caller (AccountRef contractAddr) (Some value) gas in
        let e := with_jumpdests e (new_dests caller (jumpdests e)) in
        let c := SetCallCode c contractAddr (Keccak256Hash code) code in
        if no_recursion e then Ok ([], contractAddr, gas, None, e)
        else
          let? (ret, err, c, e) := run c [] e in
          finish_create contractAddr snapshot ret err c e.

Definition call_ops : CallOps := mkCallOps Call CallCode DelegateCall StaticCall Create.

End WithLoop.

(** The loop of [Interpreter.Run] with the nested calls it makes. *)
Fixpoint loop (fuel : nat) (f : frame) : run_result :=
  match fuel with
  | O => NoFuel
  | S n =>
      let? o := step (call_ops (loop n)) f in
      match o with
      | Next f' => loop n f'
      | Done ret err f' => Ok (ret, err, f')
      end
  end.

(** The message calls on a machine with the given fuel. *)
Definition machine (fuel : nat) : CallOps := call_ops (loop fuel).

End WithEnv.
End Interp.
