(* ===== verification/Spec.v ===== *)
(** * Specification layer

    [post] is the program logic of the development: a postcondition for a
    [result], with [p] and [n] telling whether a panic and running out of
    fuel are permitted.  The module [Spec] defines the invariants of the
    machine (database, memory, contract, frame) and the interface [CallSpec]
    that the message calls promise to the call instructions; the module
    [Concrete] gives an environment on which the definitions run. *)

From Stdlib Require Import Lia.
From stdpp Require Import base numbers list gmap option.
From S2P Require Import Prelude BigInt Types Params StateDB Opcodes Analysis Machine GasTable Instructions.
From S2P Require Import JumpTable Interp.
#[local] Open Scope Z_scope.
#[local] Open Scope go_scope.

Module Spec.
Import Big Common Params StateDB Analysis Vm Gas Instr.

(** ** Postconditions *)

Definition post {A} (p n : Prop) (r : result A) (Q : A -> Prop) : Prop :=
  match r with
  | Ok a => Q a
  | Panic => p
  | NoFuel => n
  end.

Lemma post_bind {A B} p n (m : result A) (k : A -> result B) Q :
  post p n m (fun a => post p n (k a) Q) -> post p n (rbind m k) Q.
Proof. by destruct m. Qed.

Lemma post_mono {A} p n (r : result A) (Q R : A -> Prop) :
  post p n r Q -> (forall a, Q a -> R a) -> post p n r R.
Proof. destruct r; simpl; auto. Qed.

Lemma post_Ok {A} p n (r : result A) Q a : post p n r Q -> r = Ok a -> Q a.
Proof. by intros H ->. Qed.

Lemma post_total {A} (r : result A) Q : post False False r Q -> exists a, r = Ok a /\ Q a.
Proof. destruct r; simpl; try done. intros. by eexists. Qed.

Lemma post_bindM {A B} p n (m : M A) (k : A -> M B) f Q :
  post p n (m f) (fun '(a, f') => post p n (k a f') Q) -> post p n (mbindM m k f) Q.
Proof. unfold mbindM. intros H. apply post_bind. eapply post_mono; [done|]. by intros []. Qed.

(** ** Well-formed data *)

(** A byte slice of a length Go can represent. *)
Definition slice_ok (b : bytes) : Prop := bytes_ok b /\ len b < two63.

Lemma slice_ok_nil : slice_ok [].
Proof. by split; [constructor|]. Qed.

Definition stack_ok (st : Stack) : Prop := Forall (fun x => 0 <= x) st.

(** The fee of [w] words of memory, and the value [memoryGasCost] computes for
    it in [uint64] arithmetic. *)
Definition memfee (w : Z) : Z := w * MemoryGas + w * w / QuadCoeffDiv.
Definition memcost (w : Z) : Z := u64 (u64 (w * MemoryGas) + u64 (w * w) / QuadCoeffDiv).

Definition maxWords : Z := 2 ^ 35.

(** Memory is a whole number of words, below the bound of [memoryGasCost],
    and [lastGasCost] is the fee computed for it. *)
Record mem_ok (m : Memory) : Prop := mk_mem_ok {
  mo_bytes : bytes_ok (store m);
  mo_words : exists w, 0 <= w < maxWords /\ len (store m) = 32 * w /\ lastGasCost m = memcost w
}.

(** Between pricing and expansion: [size] bytes are paid for. *)
Record mem_charged (m : Memory) (size : Z) : Prop := mk_mem_charged {
  mc_bytes : bytes_ok (store m);
  mc_words : exists w w', 0 <= w < maxWords /\ 0 <= w' < maxWords /\ len (store m) = 32 * w /\
    size = 32 * w' /\ lastGasCost m = memcost (Z.max w w')
}.

Lemma NewMemory_ok : mem_ok NewMemory.
Proof. split; [constructor|]. exists 0. done. Qed.

Lemma memfee_mono v w : 0 <= v <= w -> memfee v <= memfee w.
Proof.
  intros H. unfold memfee, MemoryGas, QuadCoeffDiv.
  assert (v * v / 512 <= w * w / 512) by (apply Z.div_le_mono; nia). lia.
Qed.

Lemma memfee_bound w : 0 <= w < 2 ^ 32 -> 0 <= memfee w < two63.
Proof.
  intros H. unfold memfee, MemoryGas, QuadCoeffDiv, two63 in *.
  pose proof (Z.div_pos (w * w) 512). pose proof (Z.div_le_upper_bound (w * w) 512 (2 ^ 55)). nia.
Qed.

(** Below 2^32 words the computed fee is exact. *)
Lemma memcost_exact w : 0 <= w < 2 ^ 32 -> memcost w = memfee w.
Proof.
  intros H. pose proof (memfee_bound w H) as Hf. unfold memcost, memfee, MemoryGas in *.
  rewrite (u64_id (w * 3)), (u64_id (w * w)), u64_id; [done|..]; unfold is_u64, two64, two63 in *; nia.
Qed.

Lemma toWordSize_words w : 0 <= w < maxWords -> toWordSize (32 * w) = w.
Proof.
  intros H. unfold toWordSize, MaxUint64, two64, maxWords in *.
  destruct (Z.ltb_spec (18446744073709551616 - 1 - 31) (32 * w)); [lia|].
  symmetry. apply (Z.div_unique _ _ _ 31); lia.
Qed.

(** [memoryGasCost] charges the difference of the computed fees. *)
Lemma memoryGasCost_spec m w' :
  mem_ok m -> 0 <= w' ->
  let '((cost, err), m') := memoryGasCost m (32 * w') in
  store m' = store m /\ is_u64 cost /\
  match err with
  | Some e => e = errGasUintOverflow /\ m' = m
  | None => mem_charged m' (32 * w') /\ cost = u64 (lastGasCost m' - lastGasCost m)
  end.
Proof.
  intros [Hb (w & Hw & Hl & Hc)] Hw'. unfold memoryGasCost.
  assert (Hsame : 32 * w' <= 32 * w ->
    store m = store m /\ is_u64 0 /\ mem_charged m (32 * w') /\ 0 = u64 (lastGasCost m - lastGasCost m)).
  { intros Hle. split; [done|]. split; [by unfold is_u64, two64|]. rewrite Z.sub_diag. split; [|done].
    split; [done|]. exists w, w'. unfold maxWords in *. repeat split; try lia.
    rewrite Hc. f_equal. lia. }
  destruct (Z.eqb_spec (32 * w') 0) as [H0|H0]; [apply Hsame; lia|].
  destruct (Z.ltb_spec 0xffffffffe0 (32 * w')) as [Hbig|Hbig].
  { split; [done|]. by split; [unfold is_u64, two64|]. }
  assert (Hw35 : 0 <= w' < maxWords) by (unfold maxWords; lia).
  cbv zeta. rewrite toWordSize_words by done.
  rewrite (u64_id (w' * 32)) by (unfold is_u64, two64, maxWords in *; lia).
  destruct (Z.ltb_spec (len (store m)) (w' * 32)) as [Hg|Hg]; [|apply Hsame; lia].
  split; [done|]. split; [apply u64_range|]. split; [|done]. split; [done|].
  exists w, w'. rewrite Z.max_r by lia. do 4 (split; [done|]). done.
Qed.

(** Expanding the memory restores the invariant and covers the request. *)
Lemma mem_charged_Resize m size :
  mem_charged m size ->
  let m' := if 0 <? size then mem_Resize m size else m in
  mem_ok m' /\ size <= len (store m') /\ len (store m) <= len (store m').
Proof.
  intros [Hb (w & w' & Hw & Hw' & Hl & Hs & Hc)]. cbv zeta.
  destruct (Z.ltb_spec 0 size) as [H0|H0].
  - unfold mem_Resize. destruct (Z.ltb_spec (len (store m)) size) as [Hlt|Hge]; simpl.
    + rewrite len_app, len_zeros by lia. split; [|lia]. split; simpl.
      * apply bytes_ok_app. auto with go.
      * exists w'. rewrite len_app, len_zeros by lia. repeat split; try lia.
        rewrite Hc. f_equal. lia.
    + split; [|lia]. split; [done|]. exists w. repeat split; try lia. rewrite Hc. f_equal. lia.
  - split; [|lia]. split; [done|]. exists w. repeat split; try lia. rewrite Hc. f_equal. lia.
Qed.

Lemma mem_ok_charged m : mem_ok m -> mem_charged m 0.
Proof.
  intros [Hb (w & Hw & Hl & Hc)]. split; [done|]. exists w, 0. unfold maxWords in *.
  repeat split; try lia. rewrite Hc. f_equal. lia.
Qed.

(** ** What the machine relies on *)

(** Documented output sizes of the cryptographic functions. *)
Record crypto_ok (cr : Crypto) : Prop := mk_crypto_ok {
  ck_keccak : forall d, bytes_ok (Keccak256 cr d) /\ len (Keccak256 cr d) = 32;
  ck_address : forall a n, address_ok (CreateAddress cr a n);
  ck_sha256 : forall d, bytes_ok (sha256_Sum256 cr d) /\ len (sha256_Sum256 cr d) = 32;
  ck_ripemd : forall d, bytes_ok (ripemd160_Sum cr d) /\ len (ripemd160_Sum cr d) = 20;
  ck_recover : forall h s k, Ecrecover cr h s = Some k -> bytes_ok k /\ len k = 65;
  ck_marshal : forall g, bytes_ok (G1_Marshal cr g) /\ len (G1_Marshal cr g) = 64
}.

Record env_ok (env : Env) : Prop := mk_env_ok {
  eo_crypto : crypto_ok (crypto env);
  eo_hash : forall n, hash_ok (GetHash (ctx env) n);
  eo_origin : address_ok (Origin (ctx env));
  eo_coinbase : address_ok (Coinbase (ctx env));
  eo_price : 0 <= GasPrice (ctx env);
  eo_metered : DisableGasMetering (vmConfig env) = false
}.

(** ** Invariants *)

Record contract_ok (c : Contract) : Prop := mk_contract_ok {
  co_caller : address_ok (CallerAddress c);
  co_self : address_ok (self c);
  co_code : slice_ok (Code c);
  co_input : slice_ok (Input c);
  co_gas : is_u64 (Vm.Gas c);
  co_value : exists v, value c = Some v /\ 0 <= v
}.

Record evm_ok (e : EVM) : Prop := mk_evm_ok {
  vo_db : db_ok (db e);
  vo_return : slice_ok (returnData e);
  vo_temp : is_u64 (callGasTemp e)
}.

(** The parts of the machine an instruction leaves alone. *)
Definition keep (e e' : EVM) : Prop :=
  depth e' = depth e /\ abort e' = abort e /\ readOnly e' = readOnly e.

#[export] Instance keep_preorder : PreOrder keep.
Proof. split; [by intros e|]. unfold keep. intros e1 e2 e3 ??. intuition congruence. Qed.

(** The invariant of an activation.  [p] is the permission to panic: without
    it, the cached jump destinations must be those of the running code. *)
Record frame_ok (p : Prop) (f : frame) : Prop := mk_frame_ok {
  fo_pc : is_u64 (f_pc f);
  fo_evm : evm_ok (f_evm f);
  fo_depth : 1 <= depth (f_evm f);
  fo_contract : contract_ok (f_contract f);
  fo_mem : mem_ok (f_mem f);
  fo_stack : stack_ok (f_stack f);
  fo_cache : p \/ cache_ok (jumpdests (f_evm f)) (CodeHash (f_contract f)) (Code (f_contract f))
}.

(** ** The message-call interface *)

(** What a message call with [gas] promises about its results. *)
Definition call_post (p : Prop) (gas : Z) (e : EVM) (ret : bytes) (returnGas : Z) (e' : EVM) : Prop :=
  slice_ok ret /\ 0 <= returnGas <= gas /\ evm_ok e' /\ keep e e' /\
  (p \/ jumpdests e' = jumpdests e).

(** The promise of the message calls to the call instructions, for calls with
    less than [bound] gas. *)
Class CallSpec (p : Prop) (bound : Z) (ops : CallOps) := mkCallSpec {
  Call_spec c a input gas v e :
    contract_ok c -> address_ok a -> slice_ok input -> is_u64 gas -> gas < bound -> 0 <= v ->
    evm_ok e -> 1 <= depth e ->
    post p False (evm_Call ops (ContractObj c) a input gas v e)
      (fun '(ret, g, _, e') => call_post p gas e ret g e');
  CallCode_spec c a input gas v e :
    contract_ok c -> address_ok a -> slice_ok input -> is_u64 gas -> gas < bound -> 0 <= v ->
    evm_ok e -> 1 <= depth e ->
    post p False (evm_CallCode ops (ContractObj c) a input gas v e)
      (fun '(ret, g, _, e') => call_post p gas e ret g e');
  DelegateCall_spec c a input gas e :
    contract_ok c -> address_ok a -> slice_ok input -> is_u64 gas -> gas < bound ->
    evm_ok e -> 1 <= depth e ->
    post p False (evm_DelegateCall ops (ContractObj c) a input gas e)
      (fun '(ret, g, _, e') => call_post p gas e ret g e');
  StaticCall_spec c a input gas e :
    contract_ok c -> address_ok a -> slice_ok input -> is_u64 gas -> gas < bound ->
    evm_ok e -> 1 <= depth e ->
    post p False (evm_StaticCall ops (ContractObj c) a input gas e)
      (fun '(ret, g, _, e') => call_post p gas e ret g e');
  Create_spec c code gas v e :
    contract_ok c -> slice_ok code -> is_u64 gas -> gas < bound -> 0 <= v ->
    evm_ok e -> 1 <= depth e ->
    post p False (evm_Create ops (ContractObj c) code gas v e)
      (fun '(ret, addr, g, _, e') => address_ok addr /\ call_post p gas e ret g e')
}.

(** ** Contracts of the operations *)

(** [execute]: from a frame with [pops] items satisfying [P], the operation
    keeps the invariant, replaces [pops] items by [pushes], and hands back at
    most [allow] gas on top of what the contract holds. *)
Definition exec_post (p : Prop) (allow : EVM -> Stack -> Z) (pops pushes : Z) (f : frame)
    (ret : bytes) (err : option vmerror) (f' : frame) : Prop :=
  slice_ok ret /\ frame_ok p f' /\ keep (f_evm f) (f_evm f') /\
  (exists g, f_contract f' = with_Gas (f_contract f) g /\
    g <= Vm.Gas (f_contract f) + allow (f_evm f) (f_stack f)) /\
  (err = None -> len (f_stack f') = len (f_stack f) - pops + pushes).

Definition exec_spec (p : Prop) (bound : Z) (free : bool) (P : frame -> Prop)
    (allow : EVM -> Stack -> Z) (pops pushes : Z) (ex : exec) : Prop :=
  forall f, frame_ok p f -> P f -> pops <= len (f_stack f) ->
  (free = false -> Vm.Gas (f_contract f) + allow (f_evm f) (f_stack f) < bound) ->
  Vm.Gas (f_contract f) + allow (f_evm f) (f_stack f) < two64 ->
  post p False (ex f) (fun '((ret, err), f') => exec_post p allow pops pushes f ret err f').

(** What pricing leaves alone. *)
Definition gas_frame (f f' : frame) : Prop :=
  f_pc f' = f_pc f /\ f_stack f' = f_stack f /\ f_contract f' = f_contract f /\
  evm_ok (f_evm f') /\ keep (f_evm f) (f_evm f') /\ jumpdests (f_evm f') = jumpdests (f_evm f) /\
  store (f_mem f') = store (f_mem f).

(** [gasCost]: the price, at least one more than [allow] (or just [allow] when
    the operation is [free]), with the memory it pays for. *)
Definition gas_post (free : bool) (allow : EVM -> Stack -> Z) (f : frame) (size cost : Z)
    (err : option vmerror) (f' : frame) : Prop :=
  gas_frame f f' /\
  (err = None -> is_u64 cost /\ allow (f_evm f') (f_stack f') + (if free then 0 else 1) <= cost /\
    mem_charged (f_mem f') size).

Definition gas_spec (p : Prop) (hasmem free : bool) (allow : EVM -> Stack -> Z) (pops : Z)
    (gc : Z -> gasM) : Prop :=
  forall f size, frame_ok p f -> pops <= len (f_stack f) ->
  (exists w, 0 <= w /\ size = 32 * w) -> (hasmem = false -> size = 0) ->
  post p False (gc size f) (fun '((cost, err), f') => gas_post free allow f size cost err f').

(** The memory an operation asked for is there. *)
Definition covered (ms : option (Stack -> result Z)) (f : frame) : Prop :=
  match ms with
  | None => True
  | Some ms => exists m, ms (f_stack f) = Ok m /\ 0 <= m <= len (store (f_mem f))
  end.

Definition mem_total (pops : Z) (ms : option (Stack -> result Z)) : Prop :=
  match ms with
  | None => True
  | Some ms => forall st, stack_ok st -> pops <= len st -> exists m, ms st = Ok m /\ 0 <= m
  end.

Definition has_mem (o : Table.operation) : bool :=
  match Table.memorySize o with Some _ => true | None => false end.

(** An entry of the jump table keeps its contract. *)
Definition op_ok (p : Prop) (bound : Z) (op : Z) (o : Table.operation) : Prop :=
  exists pops pushes allow,
    Table.validateStack o = makeStackFunc pops pushes /\
    (op = Op.CALL -> 3 <= pops) /\
    mem_total pops (Table.memorySize o) /\
    gas_spec p (has_mem o) (Table.halts o || Table.reverts o) allow pops (Table.gasCost o) /\
    exec_spec p bound (Table.halts o || Table.reverts o)
      (fun f => covered (Table.memorySize o) f /\ (op <> 0 -> f_pc f < len (Code (f_contract f))))
      allow pops pushes (Table.execute o).

End Spec.

(** ** A concrete machine

    An instantiation of the parameters on which the definitions run and the
    hypotheses of the theorems hold: constant functions of the documented
    output sizes in place of the cryptography, the main-net configuration at
    a Byzantium block, and two funded-on-read accounts [alice] and [bob]. *)



Module Concrete.
Import Common Params StateDB Vm Interp Spec.

Definition demo_crypto : Crypto :=
  mkCrypto (fun _ => zeros 32) (fun a n => BigToAddress (1000 + n)) (fun _ _ => None)
    (fun _ => zeros 32) (fun _ => zeros 20) unit unit 1 (fun _ => None) (fun _ => (0, 0))
    (fun _ _ => tt) (fun _ _ => tt) (fun _ => zeros 64) (fun _ => None)
    (fun _ => ((0, 0), (0, 0))) (fun _ _ => true).

Definition demo_context : Context :=
  mkContext (fun _ => zeroHash) (BigToAddress 0xa) 0 (BigToAddress 0xc) 8000000 5000000 1 1.

Definition demo_env (noRecursion : bool) : Env :=
  mkEnv demo_context MainnetChainConfig (mkConfig noRecursion false false) demo_crypto.

Definition alice : Address := BigToAddress 0xa1.
Definition bob : Address := BigToAddress 0xb0.
Definition carol : Address := BigToAddress 0xca.

Lemma zeros_ok n k : Z.to_nat n = k -> bytes_ok (zeros n) /\ len (zeros n) = Z.of_nat k.
Proof. intros <-. split; [auto with go|]. unfold len, zeros. by rewrite length_replicate. Qed.

Lemma demo_crypto_ok : crypto_ok demo_crypto.
Proof.
  split; intros; simpl; try done.
  - exact (zeros_ok 32 32 eq_refl).
  - apply BigToAddress_ok.
  - exact (zeros_ok 32 32 eq_refl).
  - exact (zeros_ok 20 20 eq_refl).
  - exact (zeros_ok 64 64 eq_refl).
Qed.

Lemma demo_env_ok b : env_ok (demo_env b).
Proof.
  split; simpl; try done; try apply BigToAddress_ok; [apply demo_crypto_ok|]. intros. apply zeroHash_ok.
Qed.

(** A database holding [code] at [bob]. *)
Definition with_bob (code : bytes) : StateDB := SetCode New bob code.

Lemma bytes_ok_dec (l : bytes) : forallb (fun b => (0 <=? b) && (b <? 256)) l = true -> bytes_ok l.
Proof.
  intros H. apply Forall_forall. intros b Hb. rewrite forallb_forall in H.
  specialize (H b Hb). zbool. done.
Qed.

Lemma with_bob_ok code :
  forallb (fun b => (0 <=? b) && (b <? 256)) code = true -> len code < two63 -> db_ok (with_bob code).
Proof. intros H1 H2. apply SetCode_ok; [apply New_ok|by apply bytes_ok_dec|done]. Qed.

Lemma NewEVM_ok d : db_ok d -> evm_ok (NewEVM d).
Proof. intros H. split; simpl; [done|apply slice_ok_nil|by unfold is_u64, two64]. Qed.

(** 2^256 - 1 + 2, with the sum returned: PUSH32 ff..ff, PUSH1 2, ADD, PUSH1
    0, MSTORE, PUSH1 32, PUSH1 0, RETURN. *)
Definition add_overflow : bytes :=
  [0x7f] ++ replicate 32 255 ++ [0x60; 2; 0x01; 0x60; 0; 0x52; 0x60; 32; 0x60; 0; 0xf3].

End Concrete.
