(* ===== verification/GasSpec.v ===== *)
(** * Contracts of the gas functions

    Every pricing function of [GasTable.v] meets [Spec.gas_spec]: it leaves
    the frame alone except for [lastGasCost], [callGasTemp] and accounts it
    touches, and on success the price is a [uint64] that covers the memory
    asked for and the gas handed to a callee. *)

From stdpp Require Import base list numbers gmap option.
From S2P Require Import Prelude BigInt Types Params StateDB Opcodes Analysis Machine GasTable.
From S2P Require Import Instructions JumpTable Interp Spec.

#[local] Open Scope Z_scope.
#[local] Open Scope go_scope.

Module GasSpec.
Import Big Common Params StateDB Analysis Vm Gas Spec.

Definition no_allow (e : EVM) (st : Stack) : Z := 0.

(** What a call may hand back: the gas given to the callee, which for calls
    that transfer value includes the stipend. *)
Definition temp_allow (e : EVM) (st : Stack) : Z := callGasTemp e.
Definition call_allow (e : EVM) (st : Stack) : Z :=
  callGasTemp e + match st !! 2%nat with Some v => if v =? 0 then 0 else CallStipend | None => 0 end.

Section Gas.
Context (env : Env) (p : Prop).

Lemma gas_frame_refl f : frame_ok p f -> gas_frame f f.
Proof. intros Hf. do 3 (split; [done|]). split; [apply Hf|]. done. Qed.

Lemma gas_post_err free allow f size e f' :
  gas_frame f f' -> gas_post free allow f size 0 (Some e) f'.
Proof. by split. Qed.

(** ** Rules for the combinators *)

Lemma post_safe_add gas x k f Q :
  is_u64 gas -> is_u64 x ->
  Q ((0, Some errGasUintOverflow), f) ->
  (is_u64 (gas + x) -> post p False (k (gas + x) f) Q) ->
  post p False (safe_add gas x k f) Q.
Proof.
  intros Hg Hx He Hk. unfold safe_add. rewrite SafeAdd_spec by done.
  destruct (Z.ltb_spec (gas + x) two64); [|done]. apply Hk. unfold is_u64 in *. lia.
Qed.

Lemma post_safe_mul gas x k f Q :
  is_u64 gas -> is_u64 x ->
  Q ((0, Some errGasUintOverflow), f) ->
  (is_u64 (gas * x) -> post p False (k (gas * x) f) Q) ->
  post p False (safe_mul gas x k f) Q.
Proof.
  intros Hg Hx He Hk. unfold safe_mul. rewrite SafeMul_spec by done.
  destruct (Z.ltb_spec (gas * x) two64); simpl; [|done].
  assert (is_u64 (gas * x)) by (unfold is_u64 in *; nia). rewrite u64_id by done. auto.
Qed.

Lemma Back_ok st n : stack_ok st -> Z.of_nat n < len st -> exists x, Back st n = Ok x /\ 0 <= x.
Proof.
  intros Hs Hn. unfold Back. destruct (lookup_lt_is_Some_2 st n) as [x Hx]; [unfold len in Hn; lia|].
  rewrite Hx. exists x. split; [done|]. by eapply (proj1 (Forall_lookup _ st) Hs).
Qed.

Lemma post_back {A} n (k : Z -> M A) f Q :
  stack_ok (f_stack f) -> Z.of_nat n < len (f_stack f) ->
  (forall x, Back (f_stack f) n = Ok x -> 0 <= x -> post p False (k x f) Q) ->
  post p False (mbindM (back n) k f) Q.
Proof.
  intros Hs Hn Hk. destruct (Back_ok _ _ Hs Hn) as (x & Hx & H0).
  unfold mbindM, back. rewrite Hx. cbn [rbind]. auto.
Qed.

Lemma post_back_u64 n k f Q :
  stack_ok (f_stack f) -> Z.of_nat n < len (f_stack f) ->
  Q ((0, Some errGasUintOverflow), f) ->
  (forall x, is_u64 x -> post p False (k x f) Q) ->
  post p False (with_back_u64 n k f) Q.
Proof.
  intros Hs Hn He Hk. unfold with_back_u64. apply post_back; [done..|]. intros x _ Hx.
  unfold bigUint64. destruct (64 <? BitLen x); [done|]. apply Hk. apply u64_range.
Qed.

(** After charging for memory, the frame differs in [lastGasCost] only. *)
Lemma post_with_memory size k f (Q : (Z * option vmerror) * frame -> Prop) :
  frame_ok p f -> (exists w, 0 <= w /\ size = 32 * w) ->
  (forall err f', gas_frame f f' -> Q ((0, Some err), f')) ->
  (forall gas m, is_u64 gas -> store m = store (f_mem f) -> mem_charged m size ->
    post p False (k gas (mkFrame (f_pc f) (f_evm f) (f_contract f) m (f_stack f))) Q) ->
  post p False (with_memory_gas size k f) Q.
Proof.
  intros Hf (w & Hw & ->) He Hk. unfold with_memory_gas, mbindM, gets. cbn [rbind].
  pose proof (memoryGasCost_spec (f_mem f) w (fo_mem _ _ Hf) Hw) as Hm.
  destruct (memoryGasCost (f_mem f) (32 * w)) as [[gas err] m]. destruct Hm as (H1 & H2 & H3).
  destruct err as [err|]; simpl.
  - apply He. do 3 (split; [done|]). split; [apply Hf|]. done.
  - destruct H3 as [H3 _]. by apply Hk.
Qed.

Lemma gas_frame_mem f m :
  frame_ok p f -> store m = store (f_mem f) ->
  gas_frame f (mkFrame (f_pc f) (f_evm f) (f_contract f) m (f_stack f)).
Proof. intros Hf Hm. do 3 (split; [done|]). split; [apply Hf|]. done. Qed.

(** ** The gas functions *)

Lemma gas_const_spec free pops g :
  1 <= g < two64 -> gas_spec p false free no_allow pops (fun _ => gas_ok g).
Proof.
  intros Hg f size Hf _ _ Hs. simpl. split; [by apply gas_frame_refl|]. intros _.
  rewrite (Hs eq_refl). split; [unfold is_u64; lia|]. unfold no_allow. split; [destruct free; lia|].
  apply mem_ok_charged, Hf.
Qed.

Lemma gas_zero_spec pops : gas_spec p false true no_allow pops (fun _ => gas_ok 0).
Proof.
  intros f size Hf _ _ Hs. simpl. split; [by apply gas_frame_refl|]. intros _.
  rewrite (Hs eq_refl). split; [by unfold is_u64, two64|]. unfold no_allow. split; [lia|].
  apply mem_ok_charged, Hf.
Qed.

Lemma gas_memory_spec pops : gas_spec p true true no_allow pops (fun size => with_memory_gas size gas_ok).
Proof.
  intros f size Hf _ Hw _. apply post_with_memory; [done..| |].
  - intros. by apply gas_post_err.
  - intros gas m H1 H2 H3. simpl. split; [by apply gas_frame_mem|]. intros _.
    unfold no_allow, is_u64 in *. split; [done|]. split; [lia|done].
Qed.

Lemma gas_mem_plus_spec free pops base :
  1 <= base < two64 -> gas_spec p true free no_allow pops (gas_mem_plus base).
Proof.
  intros Hb f size Hf _ Hw _. apply post_with_memory; [done..| |].
  { intros. by apply gas_post_err. }
  intros gas m H1 H2 H3. apply post_safe_add; [done|unfold is_u64; lia| |].
  { apply gas_post_err. by apply gas_frame_mem. }
  intros Hs. simpl. split; [by apply gas_frame_mem|]. intros _. unfold no_allow, is_u64 in *.
  split; [done|]. split; [destruct free; lia|done].
Qed.

Lemma toWordSize_u64 x : is_u64 x -> is_u64 (toWordSize x).
Proof.
  unfold is_u64, toWordSize, MaxUint64. intros H.
  destruct (Z.ltb_spec (two64 - 1 - 31) x); [done|].
  pose proof (Z.div_pos (x + 31) 32). pose proof (Z.div_le_upper_bound (x + 31) 32 (x + 31)). lia.
Qed.

Lemma gas_copy_spec pops base n perWord :
  1 <= base < two64 -> is_u64 perWord -> Z.of_nat n < pops ->
  gas_spec p true false no_allow pops (gas_copy base n perWord).
Proof.
  intros Hb Hp Hn f size Hf Hlen Hw _. apply post_with_memory; [done..| |].
  { intros. by apply gas_post_err. }
  intros gas m H1 H2 H3.
  assert (HF : gas_frame f (mkFrame (f_pc f) (f_evm f) (f_contract f) m (f_stack f)))
    by (by apply gas_frame_mem).
  apply post_safe_add; [done|unfold is_u64; lia|by apply gas_post_err|]. intros Hs.
  apply post_back_u64; [apply Hf|simpl; lia|by apply gas_post_err|]. intros x Hx.
  apply post_safe_mul; [by apply toWordSize_u64|done|by apply gas_post_err|]. intros Hmul.
  apply post_safe_add; [done..|by apply gas_post_err|]. intros Hadd.
  split; [done|]. intros _. unfold no_allow, is_u64 in *. split; [done|]. split; [lia|done].
Qed.

Lemma makeGasLog_spec n pops :
  0 <= n <= 4 -> 2 <= pops -> gas_spec p true false no_allow pops (makeGasLog n).
Proof.
  intros Hn Hp f size Hf Hlen Hw _. unfold makeGasLog.
  apply post_back_u64; [apply Hf|lia|by apply gas_post_err, gas_frame_refl|]. intros x Hx.
  apply post_with_memory; [done..| |].
  { intros. by apply gas_post_err. }
  intros gas m H1 H2 H3.
  assert (HF : gas_frame f (mkFrame (f_pc f) (f_evm f) (f_contract f) m (f_stack f)))
    by (by apply gas_frame_mem).
  apply post_safe_add; [done|by unfold is_u64, two64|by apply gas_post_err|]. intros Hs.
  apply post_safe_add; [done|apply u64_range|by apply gas_post_err|]. intros Hs2.
  apply post_safe_mul; [done|by unfold is_u64, two64|by apply gas_post_err|]. intros Hmul.
  apply post_safe_add; [done..|by apply gas_post_err|]. intros Hadd.
  split; [done|]. intros _. pose proof (u64_range (n * LogTopicGas)).
  unfold no_allow, is_u64, LogGas in *. split; [done|]. split; [lia|done].
Qed.

Ltac table_cases :=
  unfold gasTable, gas_table; repeat match goal with
  | |- context [match ?n with _ => _ end] => destruct n eqn:?
  end; done.

Lemma gasBalance_spec pops : gas_spec p false false no_allow pops (gasBalance env).
Proof. apply gas_const_spec. table_cases. Qed.
Lemma gasExtCodeSize_spec pops : gas_spec p false false no_allow pops (gasExtCodeSize env).
Proof. apply gas_const_spec. table_cases. Qed.
Lemma gasSLoad_spec pops : gas_spec p false false no_allow pops (gasSLoad env).
Proof. apply gas_const_spec. table_cases. Qed.
Lemma gasExtCodeCopy_spec : gas_spec p true false no_allow 4 (gasExtCodeCopy env).
Proof. apply gas_copy_spec; [table_cases|by unfold is_u64, two64|done]. Qed.

Lemma gasExp_spec : gas_spec p false false no_allow 2 (gasExp env).
Proof.
  intros f size Hf Hlen _ Hs. unfold gasExp. apply post_back; [apply Hf|lia|]. intros x _ Hx.
  apply post_safe_add; [apply u64_range|by unfold is_u64, two64|by apply gas_post_err, gas_frame_refl|].
  intros Hadd. split; [by apply gas_frame_refl|]. intros _. rewrite (Hs eq_refl). split; [done|].
  split; [|apply mem_ok_charged, Hf]. unfold no_allow, GasSlowStep.
  destruct (u64_range ((BitLen x + 7) / 8 * ExpByte (gasTable env))). lia.
Qed.

(** Touching an account through the database changes nothing else. *)
Lemma gas_frame_db f d :
  frame_ok p f -> db_ok d ->
  gas_frame f (mkFrame (f_pc f) (with_db (f_evm f) d) (f_contract f) (f_mem f) (f_stack f)).
Proof.
  intros Hf Hd. do 3 (split; [done|]). split; [|done]. destruct (fo_evm _ _ Hf). by split.
Qed.

Lemma gasSStore_spec : gas_spec p false false no_allow 2 gasSStore.
Proof.
  intros f size Hf Hlen _ Hs. unfold gasSStore.
  apply post_back; [apply Hf|lia|]. intros y _ Hy. apply post_back; [apply Hf|lia|]. intros x _ Hx.
  unfold mbindM, gets, run_db, set_evm. cbn [rbind].
  destruct (GetState_ok (db (f_evm f)) (self (f_contract f)) (BigToHash x)
    (vo_db _ (fo_evm _ _ Hf))) as [_ Hd].
  destruct (GetState _ _ _) as [val d]. cbn [rbind snd] in *.
  assert (Hok : forall g, 1 <= g < two64 ->
    gas_post false no_allow f size g None
      (mkFrame (f_pc f) (with_db (f_evm f) d) (f_contract f) (f_mem f) (f_stack f))).
  { intros g Hg. split; [by apply gas_frame_db|]. intros _. rewrite (Hs eq_refl).
    split; [unfold is_u64; lia|]. unfold no_allow. split; [lia|]. apply mem_ok_charged, Hf. }
  repeat split_if; simpl; by apply Hok.
Qed.

Lemma gasSuicide_spec : gas_spec p false true no_allow 1 (gasSuicide env).
Proof.
  intros f size Hf Hlen _ Hs. unfold gasSuicide.
  pose proof (vo_db _ (fo_evm _ _ Hf)) as Hdb. set (a := self (f_contract f)).
  assert (Htail : forall g d, is_u64 g -> db_ok d -> post p False
    ((let! s := run_db (fun d => HasSuicided d a) in
      let! _ := if negb s then modify_db (fun d => AddRefund d SuicideRefundGas) else mret tt in
      gas_ok g) (mkFrame (f_pc f) (with_db (f_evm f) d) (f_contract f) (f_mem f) (f_stack f)))
    (fun '((cost, err), f') => gas_post true no_allow f size cost err f')).
  { intros g d Hg Hd. unfold mbindM, run_db, HasSuicided. cbn [rbind]. simpl.
    assert (Hd2 : db_ok (ensure d a)) by (eapply db_ok_equiv; [symmetry; apply ensure_equiv|done]).
    assert (Hok : gas_post true no_allow f size g None
      (mkFrame (f_pc f) (with_db (f_evm f) (ensure d a)) (f_contract f) (f_mem f) (f_stack f))).
    { split; [by apply gas_frame_db|]. intros _. rewrite (Hs eq_refl). split; [done|].
      unfold no_allow, is_u64 in *. split; [lia|]. apply mem_ok_charged, Hf. }
    by split_if. }
  assert (Hself : mkFrame (f_pc f) (with_db (f_evm f) (db (f_evm f))) (f_contract f) (f_mem f)
    (f_stack f) = f) by (by destruct f as [? [] ???]).
  unfold mbindM at 1. unfold gets at 1. cbn [rbind].
  destruct (IsEIP150 (chainConfig env) (BlockNum env)).
  2: { rewrite <- Hself at 1. apply Htail; [by unfold is_u64, two64|done]. }
  apply post_bindM. apply post_back; [apply Hf|lia|]. intros x _ Hx.
  unfold mbindM at 1. unfold gets at 1. cbn [rbind]. unfold Empty, Exist. cbn [negb].
  assert (Hsu : is_u64 (Params.Suicide (gasTable env))) by table_cases.
  split_if.
  - unfold mbindM at 1, run_db at 1. unfold GetBalance. cbn [rbind]. simpl.
    apply (Htail _ (AddBalance (db (f_evm f)) a 100)).
    + split_if; [apply u64_range|done].
    + apply AddBalance_ok; [done|lia].
  - simpl. rewrite <- Hself at 1. by apply Htail.
Qed.

(** ** The call instructions *)

Lemma callGas_u64 gt a b c : is_u64 (fst (callGas gt a b c)).
Proof. unfold callGas. repeat split_if; simpl; try apply u64_range; by unfold is_u64, two64. Qed.

(** [charge_call], from an already priced frame [f1]. *)
Lemma charge_call_spec f f1 size gas allow extra :
  gas_frame f f1 -> mem_charged (f_mem f1) size -> stack_ok (f_stack f) -> 1 <= len (f_stack f) ->
  is_u64 gas -> (forall e st, allow e st = callGasTemp e + extra st) -> 1 + extra (f_stack f) <= gas ->
  post p False (charge_call env gas f1)
    (fun '((cost, err), f') => gas_post false allow f size cost err f').
Proof.
  intros HF Hm Hst Hlen Hg Hal Hex. destruct HF as (F1 & F2 & F3 & F4 & F5 & F6 & F7).
  unfold charge_call, mbindM at 1, gets at 1. cbn [rbind].
  apply post_back; [by rewrite F2|rewrite F2; lia|]. intros x _ Hx.
  pose proof (callGas_u64 (gasTable env) (Vm.Gas (f_contract f1)) gas x) as Ht.
  destruct (callGas _ _ _ _) as [temp err]. simpl in Ht.
  unfold mbindM, gets, set_evm. cbn [rbind].
  set (f2 := mkFrame _ _ _ _ _).
  assert (HF2 : gas_frame f f2).
  { do 3 (split; [done|]). split; [|done]. destruct F4. by split. }
  destruct err as [err|]; [by apply gas_post_err|].
  apply post_safe_add; [done..|by apply gas_post_err|]. intros Hadd.
  split; [done|]. intros _. split; [done|]. split; [|done].
  rewrite Hal. simpl. rewrite F2. lia.
Qed.

Lemma Calls_range : 40 <= Calls (gasTable env) <= 700.
Proof. table_cases. Qed.

Definition stipend (st : Stack) : Z :=
  match st !! 2%nat with Some v => if v =? 0 then 0 else CallStipend | None => 0 end.

Lemma Back_stipend st v :
  Back st 2 = Ok v -> stipend st = if v =? 0 then 0 else CallStipend.
Proof. unfold Back, stipend. destruct (st !! 2%nat); [|done]. by intros [= ->]. Qed.

Lemma stipend_nonneg st : 0 <= stipend st.
Proof. unfold stipend, CallStipend. destruct (st !! 2%nat); [|done]. split_if; done. Qed.

(** Memory and base price, then [charge_call]. *)
Lemma call_tail_spec f size gas :
  frame_ok p f -> 3 <= len (f_stack f) -> (exists w, 0 <= w /\ size = 32 * w) ->
  40 + stipend (f_stack f) <= gas < two63 ->
  post p False (with_memory_gas size (fun memoryGas => safe_add gas memoryGas (charge_call env)) f)
    (fun '((cost, err), f') => gas_post false call_allow f size cost err f').
Proof.
  intros Hf Hlen Hw Hg. apply post_with_memory; [done..| |].
  { intros. by apply gas_post_err. }
  intros mg m H1 H2 H3. pose proof (gas_frame_mem _ _ Hf H2) as HF.
  pose proof (stipend_nonneg (f_stack f)).
  apply post_safe_add; [unfold is_u64, two63, two64 in *; lia|done|by apply gas_post_err|]. intros Hs.
  apply (charge_call_spec f _ size _ call_allow stipend); try done; [apply Hf|lia|].
  unfold is_u64 in H1. lia.
Qed.

Lemma gasCall_spec : gas_spec p true false call_allow 7 (gasCall env).
Proof.
  intros f size Hf Hlen Hw _. unfold gasCall. pose proof Calls_range as Hc.
  apply post_back; [apply Hf|lia|]. intros v Hv Hv0. apply post_back; [apply Hf|lia|]. intros a _ Ha.
  unfold mbindM at 1, gets at 1. cbn [rbind]. unfold Empty, Exist. cbn [negb].
  apply call_tail_spec; [done|lia|done|]. rewrite (Back_stipend _ _ Hv).
  unfold CallNewAccountGas, CallValueTransferGas, CallStipend, two63 in *.
  rewrite (u64_id (Calls (gasTable env) + 25000)) by (unfold is_u64, two64; lia).
  destruct (IsEIP158 _ _), (v =? 0); simpl; rewrite ?u64_id by (unfold is_u64, two64; lia); lia.
Qed.

Lemma gasCallCode_spec : gas_spec p true false call_allow 7 (gasCallCode env).
Proof.
  intros f size Hf Hlen Hw _. unfold gasCallCode. pose proof Calls_range as Hc.
  apply post_back; [apply Hf|lia|]. intros v Hv Hv0.
  apply call_tail_spec; [done|lia|done|]. rewrite (Back_stipend _ _ Hv).
  unfold CallValueTransferGas, CallStipend, two63 in *.
  destruct (v =? 0); simpl; rewrite ?u64_id by (unfold is_u64, two64; lia); lia.
Qed.

Lemma gasDelegateCall_spec : gas_spec p true false temp_allow 6 (gasDelegateCall env).
Proof.
  intros f size Hf Hlen Hw _. pose proof Calls_range as Hc. apply post_with_memory; [done..| |].
  { intros. by apply gas_post_err. }
  intros mg m H1 H2 H3. pose proof (gas_frame_mem _ _ Hf H2) as HF.
  apply post_safe_add; [done|unfold is_u64, two64 in *; lia|by apply gas_post_err|]. intros Hs.
  apply (charge_call_spec f _ size _ temp_allow (fun _ => 0)); try done; [apply Hf|lia| |].
  - intros. unfold temp_allow. lia.
  - unfold is_u64 in H1. lia.
Qed.

End Gas.
End GasSpec.
