(* ===== verification/ExecSpec.v ===== *)
(** * Contracts of the instructions and of the jump table

    Every [op*] function of [Instructions.v] meets [Spec.exec_spec]: from a
    well-formed frame with enough stack items (and, where the instruction
    declares it, enough memory) it does not panic, keeps the frame well
    formed, and changes the stack height by the declared amount.  The call
    instructions are verified against the interface [CallSpec].  The module
    [TableSpec] puts the contracts together for the entries of the instruction
    sets. *)

From Stdlib Require Import Lia.
From stdpp Require Import base numbers list gmap option.
From S2P Require Import Prelude BigInt Types Params StateDB Opcodes Analysis Machine GasTable Instructions.
From S2P Require Import JumpTable Interp Spec GasSpec.
#[local] Open Scope Z_scope.
#[local] Open Scope go_scope.

Module ExecSpec.
Import Big Common Params StateDB Analysis Vm Instr Spec GasSpec.

(** ** Non-negative values *)

Lemma U256_nonneg x : 0 <= U256 x.
Proof. apply U256_range. Qed.
Lemma Exp_nonneg b e : 0 <= Exp b e.
Proof. apply Exp_range. Qed.
Lemma Z_ite_nonneg (b : bool) : 0 <= (if b then 1 else 0).
Proof. by destruct b. Qed.
Lemma Z_ite_nonneg' (b : bool) : 0 <= (if b then 0 else 1).
Proof. by destruct b. Qed.
Lemma land_nonneg' x y : 0 <= x -> 0 <= Z.land x y.
Proof. intros. apply Z.land_nonneg. by left. Qed.
Lemma lor_nonneg' x y : 0 <= x -> 0 <= y -> 0 <= Z.lor x y.
Proof. intros. by apply Z.lor_nonneg. Qed.
Lemma lxor_nonneg' x y : 0 <= x -> 0 <= y -> 0 <= Z.lxor x y.
Proof. intros. apply Z.lxor_nonneg. tauto. Qed.
Lemma SetBytes_nonneg l : bytes_ok l -> 0 <= SetBytes l.
Proof. apply SetBytes_bound. Qed.
Lemma Hash_Big_nonneg h : hash_ok h -> 0 <= Hash_Big h.
Proof. intros. by apply Hash_Big_word. Qed.
Lemma Address_Big_nonneg a : address_ok a -> 0 <= Address_Big a.
Proof. intros. by apply Address_Big_bound. Qed.
Lemma ite_nonneg (b : bool) x y : 0 <= x -> 0 <= y -> 0 <= (if b then x else y).
Proof. by destruct b. Qed.
Lemma Byte_nonneg x n : 0 <= Byte x 32 n.
Proof.
  unfold Byte. split_if; [done|]. unfold bigEndianByteAt. destruct (_ !! _); [|done].
  apply Z.mod_pos_bound. done.
Qed.
Lemma mod_nonneg x y : 0 <= x -> 0 <= y -> 0 <= x mod y.
Proof.
  intros. destruct (decide (y = 0)) as [->|]; [by rewrite Z.mod_0_r|]. apply Z.mod_pos_bound. lia.
Qed.

#[local] Hint Resolve U256_nonneg Exp_nonneg Z_ite_nonneg Z_ite_nonneg' land_nonneg' lor_nonneg'
  lxor_nonneg' SetBytes_nonneg Hash_Big_nonneg Address_Big_nonneg ite_nonneg Byte_nonneg
  mod_nonneg len_nonneg Z.le_refl : go.

(** ** Symbolic execution *)

Ltac go_run :=
  cbv beta iota zeta delta [mbindM mret lift pop push gets set_stack set_pc set_evm set_contract
    set_mem modify_db run_db done_with fail_with st_pop st_push rbind post fst snd
    f_pc f_evm f_contract f_mem f_stack].

(** Introduce a frame, keeping its parts in the context. *)
Ltac exec_intro :=
  intros f Hf HP Hlen Hbound Hgas; pose proof (fo_stack _ _ Hf) as Hst;
  destruct f as [pc e c m st]; cbn [f_pc f_evm f_contract f_mem f_stack] in *.

Lemma stack_ok_cons x st : stack_ok (x :: st) <-> 0 <= x /\ stack_ok st.
Proof. apply Forall_cons_iff. Qed.

(** Name the top item of the stack. *)
Ltac item x Hx :=
  match goal with
  | Hst : stack_ok ?s, Hlen : _ <= len _ |- _ =>
      is_var s; let st := fresh "st" in
      destruct s as [|x st];
      [exfalso; clear -Hlen; rewrite ?len_cons, len_nil in Hlen; lia|];
      apply stack_ok_cons in Hst as [Hx Hst]
  end.

Ltac items := repeat (let x := fresh "x" in let H := fresh "Hx" in item x H).

Ltac stack_height := rewrite ?len_cons; lia.

Section Exec.
Context (env : Env) (p : Prop) (bound : Z) (ops : CallOps).
Hypothesis Henv : env_ok env.

Definition any (f : frame) : Prop := True.

(** ** Closing lemmas *)

Lemma exec_close f pc' e' m' st' ret err pops pushes :
  frame_ok p f -> slice_ok ret -> is_u64 pc' -> evm_ok e' -> keep (f_evm f) e' ->
  (p \/ cache_ok (jumpdests e') (CodeHash (f_contract f)) (Code (f_contract f))) ->
  mem_ok m' -> stack_ok st' -> (err = None -> len st' = len (f_stack f) - pops + pushes) ->
  exec_post p no_allow pops pushes f ret err (mkFrame pc' e' (f_contract f) m' st').
Proof.
  intros Hf Hr Hpc He Hk Hc Hm Hs Hl. split; [done|]. split.
  { split; simpl; try done; [|apply Hf]. destruct Hk as [-> _]. apply Hf. }
  split; [done|]. split; [|done]. exists (Vm.Gas (f_contract f)). simpl. unfold no_allow.
  split; [by destruct (f_contract f)|lia].
Qed.

Lemma close_stack f st' pops pushes :
  frame_ok p f -> stack_ok st' -> len st' = len (f_stack f) - pops + pushes ->
  exec_post p no_allow pops pushes f [] None
    (mkFrame (f_pc f) (f_evm f) (f_contract f) (f_mem f) st').
Proof.
  intros Hf Hs Hl. apply exec_close; try done; try apply Hf. apply slice_ok_nil.
Qed.

Lemma close_db f d' st' pops pushes :
  frame_ok p f -> db_ok d' -> stack_ok st' -> len st' = len (f_stack f) - pops + pushes ->
  exec_post p no_allow pops pushes f [] None
    (mkFrame (f_pc f) (with_db (f_evm f) d') (f_contract f) (f_mem f) st').
Proof.
  intros Hf Hd Hs Hl. apply exec_close; try done; try apply Hf; [apply slice_ok_nil|].
  destruct (fo_evm _ _ Hf). by split.
Qed.

(** ** Arithmetic, comparison and bit operations *)

Abbreviation plain := (exec_spec p bound false any no_allow) (only parsing).

Ltac finish_stack :=
  match goal with
  | Hf : frame_ok _ _ |- _ => apply (close_stack _ _ _ _ Hf)
  end; [repeat (apply stack_ok_cons; split); auto with go; try lia|cbn [f_stack]; stack_height].

Ltac finish_db :=
  match goal with
  | Hf : frame_ok _ _ |- _ => apply (close_db _ _ _ _ _ Hf)
  end; [|repeat (apply stack_ok_cons; split); auto with go; try lia|cbn [f_stack]; stack_height].

Lemma frame_db f : frame_ok p f -> db_ok (db (f_evm f)).
Proof. intros Hf. apply Hf. Qed.

Lemma opAdd_spec : plain 2 1 opAdd.
Proof.
  exec_intro. item x Hx. item y Hy. unfold opAdd, mark_if, mark. go_run. split_if; go_run.
  - finish_db. apply SetState_ok; [apply (frame_db _ Hf)|apply BigToHash_ok].
  - finish_stack.
Qed.

Lemma opSub_spec : plain 2 1 opSub.
Proof.
  exec_intro. item x Hx. item y Hy. unfold opSub, mark_if, mark. go_run. split_if; go_run.
  - finish_db. apply SetState_ok; [apply (frame_db _ Hf)|apply BigToHash_ok].
  - finish_stack.
Qed.

Lemma opMul_spec : plain 2 1 opMul.
Proof.
  exec_intro. item x Hx. item y Hy. unfold opMul, mark_if, mark. go_run. split_if; go_run.
  - finish_db. apply SetState_ok; [apply (frame_db _ Hf)|apply BigToHash_ok].
  - finish_stack.
Qed.

Lemma opDiv_spec : plain 2 1 opDiv.
Proof.
  exec_intro. item x Hx. item y Hy. unfold opDiv, mark_if, mark. go_run.
  split_if; go_run; [split_if; go_run|].
  - finish_db. apply SetState_ok; [apply (frame_db _ Hf)|apply BigToHash_ok].
  - finish_stack.
  - finish_stack.
Qed.

Ltac exec2 op := exec_intro; items; unfold op; go_run; repeat (split_if; go_run); finish_stack.

Lemma opSdiv_spec : plain 2 1 opSdiv.
Proof. exec2 opSdiv. Qed.
Lemma opMod_spec : plain 2 1 opMod.
Proof. exec2 opMod. Qed.
Lemma opSmod_spec : plain 2 1 opSmod.
Proof. exec2 opSmod. Qed.
Lemma opExp_spec : plain 2 1 opExp.
Proof. exec2 opExp. Qed.
Lemma opSignExtend_spec : plain 2 1 opSignExtend.
Proof. exec2 opSignExtend. Qed.
Lemma opLt_spec : plain 2 1 opLt.
Proof. exec2 opLt. Qed.
Lemma opGt_spec : plain 2 1 opGt.
Proof. exec2 opGt. Qed.
Lemma opSlt_spec : plain 2 1 opSlt.
Proof. exec2 opSlt. Qed.
Lemma opSgt_spec : plain 2 1 opSgt.
Proof. exec2 opSgt. Qed.
Lemma opEq_spec : plain 2 1 opEq.
Proof. exec2 opEq. Qed.
Lemma opAnd_spec : plain 2 1 opAnd.
Proof. exec2 opAnd. Qed.
Lemma opOr_spec : plain 2 1 opOr.
Proof. exec2 opOr. Qed.
Lemma opXor_spec : plain 2 1 opXor.
Proof. exec2 opXor. Qed.
Lemma opByte_spec : plain 2 1 opByte.
Proof. exec2 opByte. Qed.

Ltac exec1 op := exec_intro; items; unfold op; go_run; finish_stack.

Lemma opNot_spec : plain 1 1 opNot.
Proof. exec1 opNot. Qed.
Lemma opIszero_spec : plain 1 1 opIszero.
Proof. exec1 opIszero. Qed.
Lemma opPop_spec : plain 1 0 opPop.
Proof. exec1 opPop. Qed.

Ltac exec3 op := exec_intro; items; unfold op; go_run; finish_stack.

Lemma opAddmod_spec : plain 3 1 opAddmod.
Proof. exec3 opAddmod. Qed.
Lemma opMulmod_spec : plain 3 1 opMulmod.
Proof. exec3 opMulmod. Qed.

(** ** Context *)

Ltac exec0 op := exec_intro; unfold op; go_run; finish_stack.

Lemma opAddress_spec : plain 0 1 opAddress.
Proof. exec0 opAddress. apply Address_Big_nonneg. apply (co_self _ (fo_contract _ _ Hf)). Qed.
Lemma opOrigin_spec : plain 0 1 (opOrigin env).
Proof. exec0 opOrigin. apply Address_Big_nonneg, Henv. Qed.
Lemma opCaller_spec : plain 0 1 opCaller.
Proof. exec0 opCaller. apply Address_Big_nonneg. apply (co_caller _ (fo_contract _ _ Hf)). Qed.
Lemma opCallDataSize_spec : plain 0 1 opCallDataSize.
Proof. exec0 opCallDataSize. Qed.
Lemma opReturnDataSize_spec : plain 0 1 opReturnDataSize.
Proof. exec0 opReturnDataSize. Qed.
Lemma opCodeSize_spec : plain 0 1 opCodeSize.
Proof. exec0 opCodeSize. Qed.
Lemma opGasprice_spec : plain 0 1 (opGasprice env).
Proof. exec0 opGasprice. apply Henv. Qed.
Lemma opCoinbase_spec : plain 0 1 (opCoinbase env).
Proof. exec0 opCoinbase. apply Address_Big_nonneg, Henv. Qed.
Lemma opTimestamp_spec : plain 0 1 (opTimestamp env).
Proof. exec0 opTimestamp. Qed.
Lemma opNumber_spec : plain 0 1 (opNumber env).
Proof. exec0 opNumber. Qed.
Lemma opDifficulty_spec : plain 0 1 (opDifficulty env).
Proof. exec0 opDifficulty. Qed.
Lemma opGasLimit_spec : plain 0 1 (opGasLimit env).
Proof. exec0 opGasLimit. Qed.
Lemma opPc_spec : plain 0 1 opPc.
Proof. exec0 opPc. apply (fo_pc _ _ Hf). Qed.
Lemma opMsize_spec : plain 0 1 opMsize.
Proof. exec0 opMsize. Qed.
Lemma opGas_spec : plain 0 1 opGas.
Proof. exec0 opGas. apply (co_gas _ (fo_contract _ _ Hf)). Qed.
Lemma opJumpdest_spec : plain 0 0 opJumpdest.
Proof. exec0 opJumpdest. Qed.

Lemma opBalance_spec : plain 1 1 opBalance.
Proof.
  exec_intro. item x Hx. unfold opBalance. go_run.
  destruct (GetBalance_ok (db e) (BigToAddress x) (frame_db _ Hf)) as [H1 H2].
  destruct (GetBalance _ _) as [b d]. go_run. by finish_db.
Qed.

Lemma opCallValue_spec : plain 0 1 opCallValue.
Proof.
  exec_intro. unfold opCallValue. go_run. destruct (co_value _ (fo_contract _ _ Hf)) as (v & Hv & H0).
  cbn [f_contract] in Hv. rewrite Hv. go_run. finish_stack.
Qed.

Lemma opExtCodeSize_spec : plain 1 1 opExtCodeSize.
Proof. exec1 opExtCodeSize. rewrite GetCodeSize_view. auto with go. Qed.

Lemma opBlockhash_spec : plain 1 1 (opBlockhash env).
Proof. exec1 opBlockhash. apply ite_nonneg; [|done]. apply Hash_Big_nonneg, Henv. Qed.

(** ** Memory *)

Abbreviation with_mem ms := (exec_spec p bound false (covered (Some ms)) no_allow) (only parsing).

Lemma mem_ok_len m : mem_ok m -> len (store m) < 2 ^ 40.
Proof. intros [_ (w & Hw & -> & _)]. unfold maxWords in Hw. lia. Qed.

Lemma Uint64_id x : is_u64 x -> Uint64 x = x.
Proof. intros H. unfold Uint64. rewrite Z.abs_eq by apply H. by apply Z.mod_small. Qed.
Lemma Int64_id x : 0 <= x < two63 -> Int64 x = x.
Proof.
  intros H. unfold Int64. destruct (Z.ltb_spec x 0); [lia|]. rewrite Z.abs_eq by lia. by apply i64_id.
Qed.

Lemma mem_Get_ok m off size :
  mem_ok m -> 0 <= off -> 0 <= size -> calcMemSize off size <= len (store m) ->
  exists d, mem_Get m (Int64 off) (Int64 size) = Ok d /\ slice_ok d.
Proof.
  intros Hm Ho Hs Hc. pose proof (mem_ok_len m Hm). unfold calcMemSize in Hc. unfold mem_Get.
  destruct (Z.eqb_spec size 0) as [->|Hne].
  { exists []. split; [done|apply slice_ok_nil]. }
  rewrite !Int64_id by (unfold two63; lia). destruct (Z.eqb_spec size 0); [lia|].
  destruct (Z.ltb_spec off (len (store m))); [|lia].
  rewrite i64_id by (unfold two63; lia). rewrite slice_Ok by lia. eexists; split; [done|].
  split; [apply bytes_ok_take, bytes_ok_drop, Hm|]. rewrite len_take, len_drop. unfold two63. lia.
Qed.

Lemma mem_Set_ok m off size v :
  mem_ok m -> 0 <= off -> 0 <= size -> calcMemSize off size <= len (store m) -> bytes_ok v ->
  exists m', mem_Set m (Uint64 off) (Uint64 size) v = Ok m' /\ mem_ok m' /\
    len (store m') = len (store m).
Proof.
  intros Hm Ho Hs Hc Hv. pose proof (mem_ok_len m Hm). pose proof (len_nonneg (store m)).
  unfold calcMemSize in Hc. unfold mem_Set.
  destruct (Z.eqb_spec size 0) as [->|Hne].
  { exists m. split; [|done]. change (Uint64 0) with 0. destruct (Z.ltb_spec (len (store m)) 0); [lia|done]. }
  rewrite !Uint64_id by (unfold is_u64, two64; lia).
  destruct (Z.ltb_spec (len (store m)) size); [lia|]. destruct (Z.ltb_spec 0 size); [|lia].
  rewrite u64_id by (unfold is_u64, two64; lia).
  destruct (copy_at_Ok (store m) off (off + size) v) as (l & Hl & Hlen); [lia|lia|].
  rewrite Hl. cbn [rbind]. eexists; split; [done|]. split; [|done].
  destruct Hm as [Hb (w & Hw & Hw2 & Hw3)]. split; simpl.
  - by eapply bytes_ok_copy_at.
  - exists w. by rewrite Hlen.
Qed.

Lemma getDataBig_ok data start size :
  bytes_ok data -> len data < two63 -> 0 <= start -> 0 <= size ->
  exists d, getDataBig data start size = Ok d /\ bytes_ok d.
Proof.
  intros Hb Hl H1 H2. unfold getDataBig, BigMin. pose proof (len_nonneg data).
  rewrite !Z.gtb_ltb.
  set (s := if len data <? start then len data else start).
  assert (Hs : 0 <= s <= len data) by (unfold s; destruct (Z.ltb_spec (len data) start); lia).
  set (t := if len data <? s + size then len data else s + size).
  assert (Ht : s <= t <= len data) by (unfold t; destruct (Z.ltb_spec (len data) (s + size)); lia).
  rewrite !Uint64_id by (unfold is_u64, two63, two64 in *; lia). rewrite slice_Ok by lia.
  cbn [rbind]. eexists; split; [done|]. auto with go.
Qed.

Lemma close_mem f m' st' ret pops pushes :
  frame_ok p f -> mem_ok m' -> slice_ok ret -> stack_ok st' ->
  len st' = len (f_stack f) - pops + pushes ->
  exec_post p no_allow pops pushes f ret None
    (mkFrame (f_pc f) (f_evm f) (f_contract f) m' st').
Proof. intros Hf Hd Hr Hs Hl. apply exec_close; try done; apply Hf. Qed.

Ltac finish_mem :=
  match goal with
  | Hf : frame_ok _ _ |- _ => apply (close_mem _ _ _ _ _ _ Hf)
  end; [try done|try apply slice_ok_nil; try done
       |repeat (apply stack_ok_cons; split); auto with go; try lia|cbn [f_stack]; stack_height].

(** Read the declared memory bound off the stack. *)
Ltac use_covered :=
  match goal with
  | HP : covered (Some _) _ |- _ =>
      let v := fresh "v" in destruct HP as (v & HP & Hcov);
      cbn [f_stack f_mem] in HP, Hcov; injection HP as <-
  end.

Lemma opMload_spec : with_mem memoryMLoad 1 1 opMload.
Proof.
  exec_intro. items. use_covered. unfold opMload, memGet. go_run.
  destruct (mem_Get_ok m x 32) as (d & Hd & Hdo); [apply (fo_mem _ _ Hf)|done|done|lia|].
  change 32 with (Int64 32). rewrite Hd. go_run. finish_mem; [apply (fo_mem _ _ Hf)|].
  apply SetBytes_nonneg, Hdo.
Qed.

Lemma PaddedBigBytes_ok x n : bytes_ok (PaddedBigBytes x n).
Proof.
  unfold PaddedBigBytes. split_if; [apply Bytes_ok|]. rewrite ReadBits_zeros. apply be_ok.
Qed.

Lemma opMstore_spec : with_mem memoryMStore 2 0 opMstore.
Proof.
  exec_intro. items. use_covered. unfold opMstore, memSet. go_run.
  destruct (mem_Set_ok m x 32 (PaddedBigBytes x0 32)) as (m' & Hm & Hm' & _);
    [apply (fo_mem _ _ Hf)|done|done|lia|apply PaddedBigBytes_ok|].
  change (Uint64 32) with 32 in Hm. rewrite Hm. go_run. finish_mem.
Qed.

Lemma opMstore8_spec : with_mem memoryMStore8 2 0 opMstore8.
Proof.
  exec_intro. items. use_covered. unfold opMstore8. go_run.
  pose proof (mem_ok_len m (fo_mem _ _ Hf)). unfold calcMemSize in Hcov. simpl in Hcov.
  rewrite Int64_id by (unfold two63; lia). unfold update.
  destruct (Z.leb_spec 0 x); [|lia]. destruct (Z.ltb_spec x (len (store m))); [|lia].
  go_run. finish_mem. destruct (fo_mem _ _ Hf) as [Hb (w & Hw & Hw2 & Hw3)]. cbn [f_mem] in *.
  split; simpl.
  - apply Forall_insert; [done|]. unfold byte_ok. change 255 with (Z.ones 8).
    rewrite Z.land_ones by lia. apply Z.mod_pos_bound. lia.
  - exists w. unfold len in *. by rewrite length_insert.
Qed.

Lemma opSha3_spec : with_mem memorySha3 2 1 (opSha3 env).
Proof.
  exec_intro. items. use_covered. unfold opSha3, memGet. go_run.
  destruct (mem_Get_ok m x x0) as (d & Hd & Hdo); [apply (fo_mem _ _ Hf)|done|done|lia|].
  rewrite Hd. go_run. destruct (ck_keccak _ (eo_crypto _ Henv) d) as [Hk _].
  apply SetBytes_nonneg in Hk. split_if; go_run.
  - unfold AddPreimage. finish_db. apply (frame_db _ Hf).
  - finish_stack.
Qed.

Lemma opCallDataLoad_spec : plain 1 1 opCallDataLoad.
Proof.
  exec_intro. items. unfold opCallDataLoad. go_run.
  destruct (co_input _ (fo_contract _ _ Hf)) as [Hb Hl].
  destruct (getDataBig_ok (Input c) x 32) as (d & Hd & Hdo); [done..|].
  rewrite Hd. go_run. finish_stack.
Qed.

(** The copy instructions, from any well-formed source. *)
Lemma copy_spec m src a b l :
  mem_ok m -> slice_ok src -> 0 <= a -> 0 <= b -> 0 <= l -> calcMemSize a l <= len (store m) ->
  exists d m', getDataBig src b l = Ok d /\ mem_Set m (Uint64 a) (Uint64 l) d = Ok m' /\ mem_ok m'.
Proof.
  intros Hm [Hs Hl] Ha Hb H0 Hc. destruct (getDataBig_ok src b l) as (d & Hd & Hdo); [done..|].
  destruct (mem_Set_ok m a l d) as (m' & H1 & H2 & _); [done..|]. by exists d, m'.
Qed.

Lemma opCallDataCopy_spec : with_mem memoryCallDataCopy 3 0 opCallDataCopy.
Proof.
  exec_intro. items. use_covered. unfold opCallDataCopy, memSet. go_run.
  destruct (copy_spec m (Input c) x x0 x1) as (d & m' & H1 & H2 & H3);
    [apply (fo_mem _ _ Hf)|apply (co_input _ (fo_contract _ _ Hf))|done..|lia|].
  rewrite H1. go_run. rewrite H2. go_run. finish_mem.
Qed.

Lemma opCodeCopy_spec : with_mem memoryCodeCopy 3 0 opCodeCopy.
Proof.
  exec_intro. items. use_covered. unfold opCodeCopy, memSet. go_run.
  destruct (copy_spec m (Code c) x x0 x1) as (d & m' & H1 & H2 & H3);
    [apply (fo_mem _ _ Hf)|apply (co_code _ (fo_contract _ _ Hf))|done..|lia|].
  rewrite H1. go_run. rewrite H2. go_run. finish_mem.
Qed.

Lemma GetCode_ok d a : db_ok d -> slice_ok (GetCode d a).
Proof. intros H. rewrite GetCode_view. split; apply H. Qed.

Lemma opExtCodeCopy_spec : with_mem memoryExtCodeCopy 4 0 opExtCodeCopy.
Proof.
  exec_intro. items. use_covered. unfold opExtCodeCopy, memSet. go_run.
  destruct (copy_spec m (GetCode (db e) (BigToAddress x)) x0 x1 x2) as (d & m' & H1 & H2 & H3);
    [apply (fo_mem _ _ Hf)|apply GetCode_ok, (frame_db _ Hf)|done..|lia|].
  rewrite H1. go_run. rewrite H2. go_run. finish_mem.
Qed.

Lemma opReturnDataCopy_spec : with_mem memoryReturnDataCopy 3 0 opReturnDataCopy.
Proof.
  exec_intro. items. use_covered. unfold opReturnDataCopy, memSet. go_run.
  destruct (vo_return _ (fo_evm _ _ Hf)) as [Hb Hl]. cbn [f_evm] in Hb, Hl.
  destruct (_ || _) eqn:E; go_run.
  { apply exec_close; try done; try apply Hf. apply slice_ok_nil. }
  zbool. apply (BitLen_spec (x0 + x1) 64) in H; [|lia]. rewrite Z.abs_eq in H by lia.
  rewrite Uint64_id in H0 by (unfold is_u64, two64; lia).
  rewrite !(Uint64_id x0), (Uint64_id (x0 + x1)) by (unfold is_u64, two64; lia).
  rewrite slice_Ok by lia. go_run.
  destruct (mem_Set_ok m x x1 (take (Z.to_nat (x0 + x1 - x0)) (drop (Z.to_nat x0) (returnData e))))
    as (m' & H1 & H2 & _); [apply (fo_mem _ _ Hf)|done|done|lia|auto with go|].
  rewrite H1. go_run. finish_mem.
Qed.

(** ** Storage and jumps *)

Ltac close_by lem := match goal with Hf : frame_ok _ ?f |- _ => apply (lem f) end.

Lemma opSload_spec : plain 1 1 opSload.
Proof.
  exec_intro. items. unfold opSload, callback. go_run.
  destruct (GetState_ok (db e) (self c) (BigToHash x) (frame_db _ Hf)) as [H1 H2].
  destruct (GetState _ _ _) as [h d]. cbn [fst snd] in *. go_run.
  close_by exec_close; try done; try apply Hf.
  - apply slice_ok_nil.
  - destruct (fo_evm _ _ Hf). by split.
  - apply stack_ok_cons. auto with go.
  - cbn [f_stack]. intros _. stack_height.
Qed.

Lemma opSstore_spec : plain 2 0 opSstore.
Proof.
  exec_intro. items. unfold opSstore, callback. go_run.
  close_by exec_close; try done; try apply Hf.
  - apply slice_ok_nil.
  - destruct (fo_evm _ _ Hf). split; try done. cbn [with_callback with_db db].
    apply SetState_ok; [done|auto with go].
  - cbn [f_stack]. intros _. stack_height.
Qed.

(** A jump check may panic only on a stale cache. *)
Lemma valid_dest_ok pos (k : bool -> exec) f Q :
  frame_ok p f -> 0 <= pos ->
  (forall b d, (p \/ cache_ok d (CodeHash (f_contract f)) (Code (f_contract f))) ->
    post p False (k b (mkFrame (f_pc f) (with_jumpdests (f_evm f) d) (f_contract f) (f_mem f)
      (f_stack f))) Q) ->
  post p False (mbindM (valid_dest pos) k f) Q.
Proof.
  intros Hf Hpos Hk. destruct f as [pc e c m st]. unfold valid_dest. go_run.
  cbn [f_pc f_evm f_contract f_mem f_stack] in Hk.
  destruct (fo_cache _ _ Hf) as [Hp|Hc].
  - destruct (has _ _ _ _) as [[b d]| |] eqn:E; [|done|].
    + apply Hk. by left.
    + by apply has_ends in E.
  - cbn [f_evm f_contract] in Hc. destruct (has_spec _ _ _ pos Hpos Hc) as (b & d & -> & Hd & _). apply Hk. by right.
Qed.

Lemma close_jump f pc' d st' ret err pops :
  frame_ok p f -> is_u64 pc' -> slice_ok ret -> stack_ok st' ->
  (p \/ cache_ok d (CodeHash (f_contract f)) (Code (f_contract f))) ->
  len st' = len (f_stack f) - pops ->
  exec_post p no_allow pops 0 f ret err
    (mkFrame pc' (with_jumpdests (f_evm f) d) (f_contract f) (f_mem f) st').
Proof.
  intros Hf Hpc Hr Hs Hd Hl. apply exec_close; try done; try apply Hf; [|lia].
  destruct (fo_evm _ _ Hf). by split.
Qed.

Lemma opJump_spec : plain 1 0 opJump.
Proof.
  exec_intro. items. unfold opJump. apply post_bindM. go_run.
  apply valid_dest_ok; [|done|].
  { destruct Hf; by split. }
  intros b d Hd. destruct b; go_run;
    close_by close_jump; try done; cbn [f_stack];
    try apply u64_range; try apply slice_ok_nil; try apply Hf; stack_height.
Qed.

Lemma opJumpi_spec : plain 2 0 opJumpi.
Proof.
  exec_intro. items. unfold opJumpi. apply post_bindM. go_run. split_if.
  2: { go_run. close_by exec_close; try done; try apply Hf;
       [apply slice_ok_nil|apply u64_range|]. intros _. cbn [f_stack]. stack_height. }
  apply valid_dest_ok; [|done|].
  { destruct Hf; by split. }
  intros b d Hd. destruct b; go_run;
    close_by close_jump; try done; cbn [f_stack];
    try apply u64_range; try apply slice_ok_nil; try apply Hf; stack_height.
Qed.

(** ** Stack instructions *)

Lemma makePush_spec n :
  0 <= n <= 32 ->
  exec_spec p bound false (fun f => f_pc f < len (Code (f_contract f))) no_allow 0 1 (makePush n n).
Proof.
  intros Hn. exec_intro. unfold makePush. go_run.
  destruct (co_code _ (fo_contract _ _ Hf)) as [Hb Hl]. cbn [f_contract] in Hb, Hl.
  pose proof (fo_pc _ _ Hf) as Hpc. cbn [f_pc] in Hpc. unfold is_u64 in Hpc.
  assert (Hnext : i64 (u64 (pc + 1)) < len (Code c) -> i64 (u64 (pc + 1)) = pc + 1).
  { intros. rewrite u64_id by (unfold is_u64, two63, two64 in *; lia).
    destruct (decide (pc + 1 = two63)) as [E|]; [|apply i64_id; lia].
    lia. }
  set (s := if i64 (u64 (pc + 1)) <? len (Code c) then _ else _).
  assert (Hs : 0 <= s <= len (Code c)).
  { unfold s. destruct (Z.ltb_spec (i64 (u64 (pc + 1))) (len (Code c))); [|lia].
    rewrite Hnext by done. split; [lia|]. rewrite <- Hnext; lia. }
  set (t := if s + n <? len (Code c) then _ else _).
  assert (Ht : s <= t <= len (Code c)) by (unfold t; destruct (Z.ltb_spec (s + n) (len (Code c))); lia).
  rewrite slice_Ok by lia. go_run.
  close_by exec_close; try done; try apply Hf.
  - apply slice_ok_nil.
  - apply u64_range.
  - apply stack_ok_cons. split; [|done]. apply SetBytes_nonneg. auto with go.
  - intros _. cbn [f_stack]. stack_height.
Qed.

Lemma makeDup_spec n : (1 <= n)%nat -> plain (Z.of_nat n) (Z.of_nat n + 1) (makeDup n).
Proof.
  intros Hn. exec_intro. unfold makeDup, st_dup. go_run.
  destruct (Back_ok st (n - 1) Hst ltac:(lia)) as (x & -> & Hx). go_run. finish_stack.
Qed.

Lemma makeSwap_spec n : (1 <= n)%nat -> plain (Z.of_nat n + 1) (Z.of_nat n + 1) (makeSwap n).
Proof.
  intros Hn. exec_intro. unfold makeSwap, st_swap. go_run.
  destruct (Back_ok st (n + 1 - 1) Hst ltac:(lia)) as (x & -> & Hx). go_run.
  destruct (Back_ok st 0 Hst ltac:(lia)) as (y & -> & Hy). go_run.
  apply (close_stack _ _ _ _ Hf); [by repeat apply Forall_insert|].
  cbn [f_stack]. unfold len. rewrite !length_insert. lia.
Qed.

(** ** Logs and the halting instructions *)

Lemma pop_topics_ok n : forall pc e c m st, stack_ok st -> Z.of_nat n <= len st ->
  exists ts st', pop_topics n (mkFrame pc e c m st) = Ok (ts, mkFrame pc e c m st') /\
    stack_ok st' /\ len st' = len st - Z.of_nat n.
Proof.
  induction n as [|n IH]; intros pc e c m st Hst Hlen.
  - exists [], st. cbn [pop_topics]. go_run. split; [done|]. split; [done|lia].
  - item x Hx. destruct (IH pc e c m st0) as (ts & st' & H1 & H2 & H3); [done|rewrite len_cons in Hlen; lia|].
    exists (BigToHash x :: ts), st'. cbn [pop_topics]. go_run. rewrite H1. split; [done|].
    split; [done|]. rewrite len_cons. lia.
Qed.

Lemma makeLog_spec n :
  with_mem memoryLog (Z.of_nat n + 2) 0 (makeLog env n).
Proof.
  exec_intro. item x Hx. item y Hy. use_covered. unfold makeLog, memGet. go_run.
  destruct (pop_topics_ok n pc e c m st) as (ts & st' & H1 & H2 & H3);
    [done|rewrite !len_cons in Hlen; lia|].
  rewrite H1. go_run.
  destruct (mem_Get_ok m x y) as (d & Hd & Hdo); [apply (fo_mem _ _ Hf)|done|done|lia|].
  rewrite Hd. go_run. finish_db. apply AddLog_ok, (frame_db _ Hf).
Qed.

Abbreviation ending P := (exec_spec p bound true P no_allow) (only parsing).

Lemma opReturn_spec : ending (covered (Some memoryReturn)) 2 0 opReturn.
Proof.
  exec_intro. items. use_covered. unfold opReturn, memGetPtr. go_run.
  destruct (mem_Get_ok m x x0) as (d & Hd & Hdo); [apply (fo_mem _ _ Hf)|done|done|lia|].
  change mem_GetPtr with mem_Get. rewrite Hd. go_run. finish_mem. apply (fo_mem _ _ Hf).
Qed.

Lemma opRevert_spec : ending (covered (Some memoryRevert)) 2 0 opRevert.
Proof. exact opReturn_spec. Qed.

Lemma opStop_spec : ending any 0 0 opStop.
Proof. exec0 opStop. Qed.

Lemma opSuicide_spec : ending any 1 0 opSuicide.
Proof.
  exec_intro. items. unfold opSuicide. go_run.
  destruct (GetBalance_ok (db e) (self c) (frame_db _ Hf)) as [H1 H2].
  destruct (GetBalance _ _) as [b d]. go_run. cbn [fst snd] in *.
  unfold with_db. cbn [db depth abort callGasTemp readOnly returnData jumpdests callbacks].
  apply (close_db _ _ _ _ _ Hf); [by apply Suicide_ok, AddBalance_ok|done|cbn [f_stack]; stack_height].
Qed.

(** ** Calls *)

Lemma BigMax_le x y z : BigMax x y <= z -> x <= z /\ y <= z.
Proof. unfold BigMax. destruct (Z.ltb_spec x y); lia. Qed.

Lemma call_frame pc e c m st0 st gas ret g e' allow :
  frame_ok p (mkFrame pc e c m st0) -> call_post p gas e ret g e' -> stack_ok st ->
  g <= allow -> Vm.Gas c + allow < two64 -> forall m', mem_ok m' ->
  frame_ok p (mkFrame pc e' (with_Gas c (u64 (Vm.Gas c + g))) m' st) /\
  u64 (Vm.Gas c + g) <= Vm.Gas c + allow.
Proof.
  intros Hf (C1 & C2 & C3 & C4 & C5) Hst Hg Hlt m' Hm.
  destruct (co_gas _ (fo_contract _ _ Hf)) as [G1 G2]. cbn [f_contract] in G1, G2.
  rewrite u64_id by (unfold is_u64; lia). split; [|lia].
  destruct Hf as [F1 F2 F3 F4 F5 F6 F7]. cbn [f_pc f_evm f_contract f_mem f_stack] in *.
  split; cbn [f_pc f_evm f_contract f_mem f_stack]; try done.
  - destruct C4 as [-> _]. done.
  - destruct F4. split; try done. cbn [Vm.Gas with_Gas]. unfold is_u64. lia.
  - cbn [CodeHash Code with_Gas]. destruct C5 as [|C5]; [by left|]. rewrite C5. done.
Qed.

Lemma finish_call_spec pc e c m st0 st gas ret g err e' ro rs allow pops :
  frame_ok p (mkFrame pc e c m st0) -> call_post p gas e ret g e' -> stack_ok st ->
  0 <= ro -> 0 <= rs -> calcMemSize ro rs <= len (store m) ->
  g <= allow e st0 -> Vm.Gas c + allow e st0 < two64 -> len st = len st0 - pops ->
  post p False (finish_call ro rs (ret, g, err, e') (mkFrame pc e c m st))
    (fun '((ret, err), f') => exec_post p allow pops 1 (mkFrame pc e c m st0) ret err f').
Proof.
  intros Hf Hpost Hst Hro Hrs Hcov Hg Hlt Hl.
  assert (Hend : forall m' x, mem_ok m' -> 0 <= x -> exec_post p allow pops 1
    (mkFrame pc e c m st0) ret None
    (mkFrame pc e' (with_Gas c (u64 (Vm.Gas c + g))) m' (x :: st))).
  { intros m' x Hm Hx.
    destruct (call_frame pc e c m st0 (x :: st) gas ret g e' (allow e st0) Hf Hpost) with (m' := m')
      as [H1 H2]; [by apply stack_ok_cons|done..|].
    destruct Hpost as (C1 & C2 & C3 & C4 & C5).
    split; [done|]. split; [done|]. split; [done|]. split; [by eexists|].
    intros _. cbn [f_stack]. rewrite len_cons. lia. }
  unfold finish_call, refund_gas, memSet. go_run.
  assert (Hx : 0 <= (if bool_decide (err = None) then 1 else 0)) by auto with go.
  destruct (_ || _); go_run.
  - destruct Hpost as ([Hb _] & _).
    destruct (mem_Set_ok m ro rs ret (fo_mem _ _ Hf)) as (m' & Hm & Hm' & _); [done..|].
    rewrite Hm. go_run. by apply Hend.
  - apply Hend; [apply (fo_mem _ _ Hf)|done].
Qed.

Context {HC : CallSpec p bound ops}.

(** The callee's gas: what was set aside, plus the stipend. *)
Lemma callee_gas (temp v G : Z) :
  is_u64 temp -> 0 <= G -> G + (temp + (if v =? 0 then 0 else CallStipend)) < two64 ->
  let gas := if negb (U256 v =? 0) then u64 (temp + CallStipend) else temp in
  is_u64 gas /\ gas <= temp + (if v =? 0 then 0 else CallStipend).
Proof.
  intros [T1 T2] HG Hlt. cbv zeta. destruct (Z.eqb_spec v 0) as [->|Hv].
  - change (U256 0) with 0. simpl. split; [done|lia].
  - unfold CallStipend in *. destruct (U256 v =? 0); simpl; [split; [done|lia]|].
    rewrite u64_id by (unfold is_u64; lia). unfold is_u64. lia.
Qed.

Abbreviation calling ms := (exec_spec p bound false (covered (Some ms))) (only parsing).

Lemma opCall_spec : calling memoryCall call_allow 7 1 (opCall ops).
Proof.
  exec_intro. item q Hq. item addr Ha. item v Hv. item io Hio. item is' His. item ro Hro. item rs Hrs.
  use_covered. destruct Hcov as [_ [Hr Hi]%BigMax_le]. unfold opCall, memGet. go_run.
  pose proof (fo_contract _ _ Hf) as Hc. cbn [f_contract] in Hc.
  destruct (mem_Get_ok m io is') as (args & -> & Hargs); [apply (fo_mem _ _ Hf)|done|done|lia|]. go_run.
  pose proof (vo_temp _ (fo_evm _ _ Hf)) as Ht. cbn [f_evm] in Ht.
  destruct (callee_gas (callGasTemp e) v (Vm.Gas c) Ht) as [G1 G2];
    [apply (co_gas _ Hc)|exact Hgas|].
  assert (Hb : Vm.Gas c + (callGasTemp e + (if v =? 0 then 0 else CallStipend)) < bound)
    by exact (Hbound eq_refl).
  destruct (co_gas _ Hc) as [G3 _]. set (gas := if negb (U256 v =? 0) then _ else _) in *.
  assert (Hlt : gas < bound) by lia.
  pose proof (Call_spec c (BigToAddress addr) args gas (U256 v) e Hc (BigToAddress_ok _) Hargs G1
    Hlt (U256_nonneg v) (fo_evm _ _ Hf) (fo_depth _ _ Hf)) as Hcall.
  destruct (evm_Call ops _ _ _ _ _ _) as [[[[ret g] err] e']| |]; [|done|done]. go_run.
  eapply finish_call_spec; try done.
  - transitivity gas; [apply Hcall|exact G2].
  - rewrite !len_cons. lia.
Qed.

Lemma opCallCode_spec : calling memoryCall call_allow 7 1 (opCallCode ops).
Proof.
  exec_intro. item q Hq. item addr Ha. item v Hv. item io Hio. item is' His. item ro Hro. item rs Hrs.
  use_covered. destruct Hcov as [_ [Hr Hi]%BigMax_le]. unfold opCallCode, memGet. go_run.
  pose proof (fo_contract _ _ Hf) as Hc. cbn [f_contract] in Hc.
  destruct (mem_Get_ok m io is') as (args & -> & Hargs); [apply (fo_mem _ _ Hf)|done|done|lia|]. go_run.
  pose proof (vo_temp _ (fo_evm _ _ Hf)) as Ht. cbn [f_evm] in Ht.
  destruct (callee_gas (callGasTemp e) v (Vm.Gas c) Ht) as [G1 G2];
    [apply (co_gas _ Hc)|exact Hgas|].
  assert (Hb : Vm.Gas c + (callGasTemp e + (if v =? 0 then 0 else CallStipend)) < bound)
    by exact (Hbound eq_refl).
  destruct (co_gas _ Hc) as [G3 _]. set (gas := if negb (U256 v =? 0) then _ else _) in *.
  assert (Hlt : gas < bound) by lia.
  pose proof (CallCode_spec c (BigToAddress addr) args gas (U256 v) e Hc (BigToAddress_ok _) Hargs G1
    Hlt (U256_nonneg v) (fo_evm _ _ Hf) (fo_depth _ _ Hf)) as Hcall.
  destruct (evm_CallCode ops _ _ _ _ _ _) as [[[[ret g] err] e']| |]; [|done|done]. go_run.
  eapply finish_call_spec; try done.
  - transitivity gas; [apply Hcall|exact G2].
  - rewrite !len_cons. lia.
Qed.

Lemma opDelegateCall_spec : calling memoryDelegateCall temp_allow 6 1 (opDelegateCall ops).
Proof.
  exec_intro. item q Hq. item addr Ha. item io Hio. item is' His. item ro Hro. item rs Hrs.
  use_covered. destruct Hcov as [_ [Hr Hi]%BigMax_le]. unfold opDelegateCall, memGet. go_run.
  pose proof (fo_contract _ _ Hf) as Hc. cbn [f_contract] in Hc.
  destruct (mem_Get_ok m io is') as (args & -> & Hargs); [apply (fo_mem _ _ Hf)|done|done|lia|]. go_run.
  pose proof (vo_temp _ (fo_evm _ _ Hf)) as Ht. cbn [f_evm] in Ht.
  specialize (Hbound eq_refl). unfold temp_allow in Hbound. destruct (co_gas _ Hc) as [G3 _].
  assert (Hlt : callGasTemp e < bound) by lia.
  pose proof (DelegateCall_spec c (BigToAddress addr) args _ e Hc (BigToAddress_ok _) Hargs Ht
    Hlt (fo_evm _ _ Hf) (fo_depth _ _ Hf)) as Hcall.
  destruct (evm_DelegateCall ops _ _ _ _ _) as [[[[ret g] err] e']| |]; [|done|done]. go_run.
  eapply finish_call_spec; try done; [apply Hcall|]. rewrite !len_cons. lia.
Qed.

Lemma opStaticCall_spec : calling memoryDelegateCall temp_allow 6 1 (opStaticCall ops).
Proof.
  exec_intro. item q Hq. item addr Ha. item io Hio. item is' His. item ro Hro. item rs Hrs.
  use_covered. destruct Hcov as [_ [Hr Hi]%BigMax_le]. unfold opStaticCall, memGet. go_run.
  pose proof (fo_contract _ _ Hf) as Hc. cbn [f_contract] in Hc.
  destruct (mem_Get_ok m io is') as (args & -> & Hargs); [apply (fo_mem _ _ Hf)|done|done|lia|]. go_run.
  pose proof (vo_temp _ (fo_evm _ _ Hf)) as Ht. cbn [f_evm] in Ht.
  specialize (Hbound eq_refl). unfold temp_allow in Hbound. destruct (co_gas _ Hc) as [G3 _].
  assert (Hlt : callGasTemp e < bound) by lia.
  pose proof (StaticCall_spec c (BigToAddress addr) args _ e Hc (BigToAddress_ok _) Hargs Ht
    Hlt (fo_evm _ _ Hf) (fo_depth _ _ Hf)) as Hcall.
  destruct (evm_StaticCall ops _ _ _ _ _) as [[[[ret g] err] e']| |]; [|done|done]. go_run.
  eapply finish_call_spec; try done; [apply Hcall|]. rewrite !len_cons. lia.
Qed.

(** The gas [opCreate] passes on, all of it or all but one 64th. *)
Lemma create_gas (b : bool) G :
  is_u64 G -> let gas := if b then u64 (G - G / 64) else G in is_u64 gas /\ gas <= G.
Proof.
  intros [H1 H2]. cbv zeta. destruct b; [|unfold is_u64; lia].
  assert (0 <= G / 64 <= G) by (split; [apply Z.div_pos|apply Z.div_le_upper_bound]; lia).
  rewrite u64_id by (unfold is_u64; lia). unfold is_u64. lia.
Qed.

Lemma opCreate_spec :
  exec_spec p bound false (covered (Some memoryCreate)) no_allow 3 1 (opCreate env ops).
Proof.
  exec_intro. item v Hv. item io Hio. item is' His. use_covered. unfold opCreate, memGet. go_run.
  pose proof (fo_contract _ _ Hf) as Hc. cbn [f_contract] in Hc.
  destruct (mem_Get_ok m io is') as (args & -> & Hargs); [apply (fo_mem _ _ Hf)|done|done|lia|]. go_run.
  destruct (create_gas (IsEIP150 (chainConfig env) (BlockNum env)) (Vm.Gas c) (co_gas _ Hc)) as [G1 G2].
  set (gas := if IsEIP150 _ _ then _ else _) in *. unfold UseGas.
  destruct (Z.ltb_spec (Vm.Gas c) gas) as [|_]; [lia|]. go_run.
  destruct (co_gas _ Hc) as [G3 G4]. unfold is_u64 in G1.
  rewrite (u64_id (Vm.Gas c - gas)) by (unfold is_u64; lia).
  set (c1 := with_Gas c (Vm.Gas c - gas)).
  assert (Hc1 : contract_ok c1).
  { destruct Hc. split; try done. unfold c1. cbn [Vm.Gas with_Gas]. unfold is_u64; lia. }
  specialize (Hbound eq_refl). unfold no_allow in Hbound.
  assert (Hlt : gas < bound) by lia.
  pose proof (Create_spec c1 args gas v e Hc1 Hargs G1 Hlt Hv (fo_evm _ _ Hf) (fo_depth _ _ Hf)) as Hcall.
  destruct (evm_Create ops _ _ _ _ _) as [[[[[ret a] g] err] e']| |]; [|done|done].
  destruct Hcall as [Haddr Hpost]. unfold refund_gas.
  assert (Hf1 : frame_ok p (mkFrame pc e c1 m st0)).
  { destruct Hf. by split. }
  assert (Hend : forall r x, slice_ok r -> 0 <= x ->
    exec_post p no_allow 3 1 (mkFrame pc e c m (v :: io :: is' :: st0)) r None
      (mkFrame pc e' (with_Gas c1 (u64 (Vm.Gas c1 + g))) m (x :: st0))).
  { intros r x Hr Hx.
    assert (Hc1g : Vm.Gas c1 = Vm.Gas c - gas) by done.
    destruct (call_frame pc e c1 m st0 (x :: st0) gas ret g e' gas Hf1 Hpost) with (m' := m)
      as [H1 H2]; [by apply stack_ok_cons|apply Hpost|lia|apply (fo_mem _ _ Hf)|].
    destruct Hpost as (C1 & C2 & C3 & C4 & C5).
    split; [done|]. split; [done|]. split; [done|]. split.
    - eexists. split; [done|]. cbn [f_contract]. unfold no_allow. lia.
    - intros _. cbn [f_stack]. rewrite !len_cons. lia. }
  pose proof (Address_Big_nonneg a Haddr). destruct Hpost as (C1 & _).
  go_run. repeat (split_if; go_run); apply Hend; try done; apply slice_ok_nil.
Qed.

End Exec.
End ExecSpec.

(** ** The jump table keeps the contracts

    Every valid entry of the instruction sets meets [Spec.op_ok]: its stack
    check, memory size, price and body fit together. *)



Module TableSpec.
Import Op Params Vm Gas Instr Table Spec GasSpec ExecSpec.

Lemma exec_spec_weaken p bound free (P P' : frame -> Prop) allow pops pushes ex :
  (forall f, P' f -> P f) ->
  exec_spec p bound free P allow pops pushes ex -> exec_spec p bound free P' allow pops pushes ex.
Proof. intros HP H f Hf H'. apply H; auto. Qed.

Lemma mem_at_total i j pops :
  Z.of_nat i < pops -> Z.of_nat j < pops -> mem_total pops (Some (mem_at i j)).
Proof.
  intros Hi Hj st Hst Hlen. unfold mem_at.
  destruct (Back_ok st i Hst ltac:(lia)) as (x & -> & Hx).
  destruct (Back_ok st j Hst ltac:(lia)) as (y & -> & Hy). cbn [rbind].
  eexists; split; [done|]. unfold calcMemSize. split_if; [done|lia].
Qed.

Lemma mem_at_const_total i l pops : Z.of_nat i < pops -> 0 <= l -> mem_total pops (Some (mem_at_const i l)).
Proof.
  intros Hi Hl st Hst Hlen. unfold mem_at_const.
  destruct (Back_ok st i Hst ltac:(lia)) as (x & -> & Hx). cbn [rbind].
  eexists; split; [done|]. unfold calcMemSize. split_if; [done|lia].
Qed.

Lemma mem_max_total f g pops :
  mem_total pops (Some f) -> mem_total pops (Some g) ->
  mem_total pops (Some (fun st => rbind (f st) (fun x => rbind (g st) (fun y => Ok (Big.BigMax x y))))).
Proof.
  intros Hf Hg st Hst Hlen. destruct (Hf st Hst Hlen) as (x & -> & Hx).
  destruct (Hg st Hst Hlen) as (y & -> & Hy). cbn [rbind]. eexists; split; [done|].
  unfold Big.BigMax. by split_if.
Qed.

Section Table.
Context (env : Env) (p : Prop) (bound : Z) (ops : CallOps).
Hypothesis Henv : env_ok env.
Context {HC : CallSpec p bound ops}.

(** Entries without memory. *)
Lemma op_ok_plain op o pops pushes :
  validateStack o = makeStackFunc pops pushes -> (op = CALL -> 3 <= pops) ->
  memorySize o = None ->
  gas_spec p false (halts o || reverts o) no_allow pops (gasCost o) ->
  exec_spec p bound (halts o || reverts o) any no_allow pops pushes (execute o) ->
  op_ok p bound op o.
Proof.
  intros H1 H2 H3 H4 H5. exists pops, pushes, no_allow. split; [done|]. split; [done|].
  unfold has_mem. rewrite H3. split; [done|]. split; [done|].
  eapply exec_spec_weaken; [|done]. done.
Qed.

(** Entries with memory. *)
Lemma op_ok_mem op o ms pops pushes allow :
  validateStack o = makeStackFunc pops pushes -> (op = CALL -> 3 <= pops) ->
  memorySize o = Some ms -> mem_total pops (Some ms) ->
  gas_spec p true (halts o || reverts o) allow pops (gasCost o) ->
  exec_spec p bound (halts o || reverts o) (covered (Some ms)) allow pops pushes (execute o) ->
  op_ok p bound op o.
Proof.
  intros H1 H2 H3 H4 H5 H6. exists pops, pushes, allow. split; [done|]. split; [done|].
  unfold has_mem. rewrite H3. split; [done|]. split; [done|].
  eapply exec_spec_weaken; [|done]. by intros f [].
Qed.

Abbreviation entries_ok := (Forall (fun e => op_ok p bound (fst e) (snd e))) (only parsing).

Ltac plain_entry spec :=
  apply Forall_cons_2; [eapply op_ok_plain; [reflexivity|done|reflexivity|
    cbn [gasCost halts reverts entry halting jumping writing reverting returning with_memory orb];
    first [by apply gas_const_spec | apply gas_zero_spec | apply gasExp_spec | apply gasBalance_spec
          | apply gasExtCodeSize_spec | apply gasSLoad_spec | apply gasSStore_spec | apply gasSuicide_spec]|
    by apply spec]|].

Ltac total :=
  first [by apply mem_at_total | by apply mem_at_const_total
        | apply mem_max_total; by apply mem_at_total].

Ltac mem_entry gas spec :=
  apply Forall_cons_2; [eapply op_ok_mem;
    [reflexivity|done|reflexivity|total|by apply gas|by apply spec]|].

Lemma frontier_arith_ok : entries_ok (frontier_arith env).
Proof.
  unfold frontier_arith.
  plain_entry opStop_spec. plain_entry opAdd_spec. plain_entry opMul_spec. plain_entry opSub_spec.
  plain_entry opDiv_spec. plain_entry opSdiv_spec. plain_entry opMod_spec. plain_entry opSmod_spec.
  plain_entry opAddmod_spec. plain_entry opMulmod_spec. plain_entry opExp_spec.
  plain_entry opSignExtend_spec. constructor.
Qed.

Lemma frontier_logic_ok : entries_ok (frontier_logic env).
Proof.
  unfold frontier_logic.
  plain_entry opLt_spec. plain_entry opGt_spec. plain_entry opSlt_spec. plain_entry opSgt_spec.
  plain_entry opEq_spec. plain_entry opIszero_spec. plain_entry opAnd_spec. plain_entry opXor_spec.
  plain_entry opOr_spec. plain_entry opNot_spec. plain_entry opByte_spec.
  mem_entry gas_copy_spec opSha3_spec. constructor.
Qed.

Lemma frontier_context_ok : entries_ok (frontier_context env).
Proof.
  unfold frontier_context.
  plain_entry opAddress_spec. plain_entry opBalance_spec. plain_entry opOrigin_spec.
  plain_entry opCaller_spec. plain_entry opCallValue_spec. plain_entry opCallDataLoad_spec.
  plain_entry opCallDataSize_spec. mem_entry gas_copy_spec opCallDataCopy_spec.
  plain_entry opCodeSize_spec. mem_entry gas_copy_spec opCodeCopy_spec. plain_entry opGasprice_spec.
  plain_entry opExtCodeSize_spec. mem_entry gasExtCodeCopy_spec opExtCodeCopy_spec.
  plain_entry opBlockhash_spec. plain_entry opCoinbase_spec. plain_entry opTimestamp_spec.
  plain_entry opNumber_spec. plain_entry opDifficulty_spec. plain_entry opGasLimit_spec. constructor.
Qed.

Lemma frontier_storage_ok : entries_ok (frontier_storage env).
Proof.
  unfold frontier_storage.
  plain_entry opPop_spec. mem_entry gas_mem_plus_spec opMload_spec.
  mem_entry gas_mem_plus_spec opMstore_spec. mem_entry gas_mem_plus_spec opMstore8_spec.
  plain_entry opSload_spec. plain_entry opSstore_spec. plain_entry opJump_spec.
  plain_entry opJumpi_spec. plain_entry opPc_spec. plain_entry opMsize_spec. plain_entry opGas_spec.
  plain_entry opJumpdest_spec. constructor.
Qed.

Lemma frontier_push_ok : entries_ok (frontier_push).
Proof.
  apply Forall_fmap, Forall_forall. intros n [Hn Hn2]%List.in_seq.
  exists 0, 1, no_allow. split; [done|]. split; [simpl; unfold PUSH1, CALL; lia|]. split; [done|]. split.
  - by apply gas_const_spec.
  - eapply exec_spec_weaken; [|apply makePush_spec; lia]. intros f [_ H]. apply H.
    simpl. unfold PUSH1. lia.
Qed.

Lemma frontier_dup_ok : entries_ok (frontier_dup).
Proof.
  apply Forall_fmap, Forall_forall. intros n [Hn Hn2]%List.in_seq.
  eapply op_ok_plain; [reflexivity| |reflexivity|by apply gas_const_spec|by apply makeDup_spec].
  simpl. unfold DUP1, CALL. lia.
Qed.

Lemma frontier_swap_ok : entries_ok (frontier_swap).
Proof.
  apply Forall_fmap, Forall_forall. intros n [Hn Hn2]%List.in_seq.
  eapply op_ok_plain; [reflexivity| |reflexivity|by apply gas_const_spec|by apply makeSwap_spec].
  simpl. unfold SWAP1, CALL. lia.
Qed.

Lemma frontier_log_ok : entries_ok (frontier_log env).
Proof.
  apply Forall_fmap, Forall_forall. intros n [Hn Hn2]%List.in_seq.
  eapply op_ok_mem; [reflexivity| |reflexivity|apply mem_at_total; lia|apply makeGasLog_spec; lia
                    |by apply makeLog_spec].
  simpl. unfold LOG0, CALL. lia.
Qed.

Lemma frontier_system_ok : entries_ok (frontier_system env ops).
Proof.
  unfold frontier_system. mem_entry gas_mem_plus_spec opCreate_spec.
  mem_entry gasCall_spec opCall_spec. mem_entry gasCallCode_spec opCallCode_spec.
  mem_entry gas_memory_spec opReturn_spec. plain_entry opSuicide_spec. constructor.
Qed.

Lemma byzantium_ok : entries_ok (NewByzantiumInstructionSet env ops).
Proof.
  unfold NewByzantiumInstructionSet, NewHomesteadInstructionSet.
  mem_entry gasDelegateCall_spec opStaticCall_spec. plain_entry opReturnDataSize_spec.
  mem_entry gas_copy_spec opReturnDataCopy_spec. mem_entry gas_memory_spec opRevert_spec.
  mem_entry gasDelegateCall_spec opDelegateCall_spec. unfold NewFrontierInstructionSet.
  rewrite !Forall_app. repeat split.
  - apply frontier_arith_ok.
  - apply frontier_logic_ok.
  - apply frontier_context_ok.
  - apply frontier_storage_ok.
  - apply frontier_push_ok.
  - apply frontier_dup_ok.
  - apply frontier_swap_ok.
  - apply frontier_log_ok.
  - apply frontier_system_ok.
Qed.

(** Every operation the interpreter can fetch meets its contract. *)
Lemma JumpTable_ok op :
  valid (JumpTable env ops op) = true -> op_ok p bound op (JumpTable env ops op).
Proof. apply JumpTable_forall. apply byzantium_ok. Qed.

End Table.
End TableSpec.
