(* ===== verification/PrecompileSpec.v ===== *)
(** * Contracts of the precompiled contracts

    Every native contract returns well-formed data and consumes no more than
    the gas it is given.  [bigModExp] can panic (its [getData] calls wrap
    around for operand lengths near 2^64), but only when called with at least
    [modexpGasLimit] gas, since such lengths are priced out below it. *)

From Stdlib Require Import Zpow_facts.
From stdpp Require Import base list numbers gmap option.
From S2P Require Import Prelude BigInt Types Params Machine Precompiles Interp Spec ExecSpec.

#[local] Open Scope Z_scope.
#[local] Open Scope go_scope.

Module PrecompileSpec.
Import Big Common Params Vm Precompiles Spec ExecSpec.

Definition modexpGasLimit : Z := 2 ^ 61.

(** ** [getData] *)

Lemma getData_ok data start size :
  slice_ok data -> is_u64 start -> is_u64 size -> Z.min start (len data) + size < two64 ->
  exists d, getData data start size = Ok d /\ bytes_ok d /\ len d < two63 /\
    (size < two63 -> len d = size).
Proof.
  intros [Hb Hl] [H1 H2] [H3 H4] Hmin. pose proof (len_nonneg data) as H0. unfold getData.
  set (s := if len data <? start then len data else start).
  assert (Hs : s = Z.min start (len data)) by (unfold s; destruct (Z.ltb_spec (len data) start); lia).
  rewrite u64_id by (unfold is_u64; lia).
  set (t := if len data <? s + size then len data else s + size).
  assert (Ht : t = Z.min (s + size) (len data))
    by (unfold t; destruct (Z.ltb_spec (len data) (s + size)); lia).
  rewrite slice_Ok by lia. cbn [rbind]. eexists; split; [done|]. split; [auto with go|].
  assert (Hlen : len (take (Z.to_nat (t - s)) (drop (Z.to_nat s) data)) = t - s)
    by (rewrite len_take, len_drop; lia).
  assert (Hi : i64 size < two63).
  { unfold i64. rewrite Z.mod_small by lia. destruct (Z.ltb_spec size two63); [done|].
    unfold two63, two64 in *. lia. }
  rewrite len_RightPadBytes, Hlen. split; [lia|]. intros Hsz. rewrite i64_id by lia. lia.
Qed.

Lemma getInt_ok data start size :
  slice_ok data -> is_u64 start -> is_u64 size -> Z.min start (len data) + size < two64 ->
  exists x, getInt data start size = Ok x /\ 0 <= x /\ exists k, 0 <= k < two63 /\ x < 256 ^ k.
Proof.
  intros H1 H2 H3 H4. unfold getInt. destruct (getData_ok data start size H1 H2 H3 H4)
    as (d & -> & Hd & Hl & Hs). cbn [rbind]. pose proof (SetBytes_bound d Hd) as Hb.
  eexists; split; [done|]. split; [lia|]. exists (len d). split; [|lia]. pose proof (len_nonneg d). lia.
Qed.

(** The three length words. *)
Lemma modexp_lengths input :
  slice_ok input ->
  exists b e m, getInt input 0 32 = Ok b /\ getInt input 32 32 = Ok e /\ getInt input 64 32 = Ok m /\
    0 <= b /\ 0 <= e /\ 0 <= m.
Proof.
  intros Hi. pose proof (proj2 Hi) as Hl. pose proof (len_nonneg input).
  destruct (getInt_ok input 0 32 Hi) as (b & -> & Hb & _);
    [by unfold is_u64, two64|by unfold is_u64, two64|unfold two63, two64 in *; lia|].
  destruct (getInt_ok input 32 32 Hi) as (e & -> & He & _);
    [by unfold is_u64, two64|by unfold is_u64, two64|unfold two63, two64 in *; lia|].
  destruct (getInt_ok input 64 32 Hi) as (m & -> & Hm & _);
    [by unfold is_u64, two64|by unfold is_u64, two64|unfold two63, two64 in *; lia|].
  by exists b, e, m.
Qed.

Lemma modexp_body_ok input : slice_ok input -> exists r, modexp_body input = Ok r /\ slice_ok r.
Proof.
  intros [Hb Hl]. pose proof (len_nonneg input). unfold modexp_body.
  destruct (Z.ltb_spec 96 (len input)); rewrite slice_Ok by lia; eexists; split; try done;
    (split; [auto with go|rewrite len_take, len_drop; lia]).
Qed.

(** ** The price of [bigModExp] *)

Lemma modexp_complexity_lower x : 1 <= x -> 1 <= modexp_complexity x /\ x * x / 16 <= modexp_complexity x.
Proof.
  intros Hx. unfold modexp_complexity.
  pose proof (Z.mul_div_le (x * x) 16). pose proof (Z.mul_succ_div_gt (x * x) 16).
  pose proof (Z.mul_div_le (x * x) 4). pose proof (Z.mul_succ_div_gt (x * x) 4).
  destruct (Z.leb_spec x 64); [nia|]. destruct (Z.leb_spec x 1024); nia.
Qed.

(** Operand lengths that could wrap are priced above [modexpGasLimit]. *)
Lemma bigModExp_price input b e m :
  slice_ok input ->
  getInt input 0 32 = Ok b -> getInt input 32 32 = Ok e -> getInt input 64 32 = Ok m ->
  0 <= b -> 0 <= e -> 0 <= m ->
  exists g, bigModExp_RequiredGas input = Ok g /\ is_u64 g /\
  (1 <= Z.max m b -> two63 <= Z.max e m -> modexpGasLimit <= g).
Proof.
  intros Hi Eb Ee Em Hb He Hm. unfold bigModExp_RequiredGas. rewrite Eb, Ee, Em. cbn [rbind].
  destruct (modexp_body_ok input Hi) as (r & -> & Hr). cbn [rbind].
  set (hd := if len r <=? b then _ else _).
  assert (Hhd : exists h, hd = Ok h /\ 0 <= h).
  { unfold hd. pose proof (len_nonneg r). pose proof (proj2 Hr).
    destruct (Z.leb_spec (len r) b); [by exists 0|].
    assert (Hub : Uint64 b = b) by (apply Uint64_id; unfold is_u64, two63, two64 in *; lia).
    rewrite Hub. destruct (Z.ltb_spec 32 e).
    - destruct (getInt_ok r b 32 Hr) as (x & -> & Hx & _);
        [unfold is_u64, two63, two64 in *; lia|by unfold is_u64, two64|unfold two63, two64 in *; lia|].
      by exists x.
    - destruct (getInt_ok r b (Uint64 e) Hr) as (x & -> & Hx & _);
        [unfold is_u64, two63, two64 in *; lia|apply u64_range| |by exists x].
      rewrite Uint64_id by (unfold is_u64, two64; lia). unfold two63, two64 in *; lia. }
  destruct Hhd as (h & -> & Hh). cbn [rbind]. eexists; split; [done|].
  set (adj := (if 32 <? e then 8 * (e - 32) else 0) + _).
  assert (Hadj : 0 <= adj /\ (32 < e -> 8 * (e - 32) <= adj)).
  { unfold adj. pose proof (BitLen_nonneg h). destruct (Z.ltb_spec 32 e), (Z.ltb_spec 0 (BitLen h)); lia. }
  unfold BigMax. set (mx := if m <? b then b else m).
  assert (Hmx : mx = Z.max m b) by (unfold mx; destruct (Z.ltb_spec m b); lia).
  set (aj := if adj <? 1 then 1 else adj).
  assert (Haj : 1 <= aj /\ adj <= aj) by (unfold aj; destruct (Z.ltb_spec adj 1); lia).
  set (G := modexp_complexity mx * aj / ModExpQuadCoeffDiv).
  assert (Hexact : 0 <= G -> G <= (if 64 <? BitLen G then MaxUint64 else Uint64 G) \/
                             MaxUint64 = (if 64 <? BitLen G then MaxUint64 else Uint64 G)).
  { intros HG. destruct (Z.ltb_spec 64 (BitLen G)) as [Hl|Hl]; [by right|]. left.
    apply (BitLen_spec G 64) in Hl; [|lia]. rewrite Uint64_id; [lia|]. unfold is_u64, two64. lia. }
  split.
  { destruct (64 <? BitLen G); [by unfold is_u64, MaxUint64, two64|apply u64_range]. }
  intros H1 H2. rewrite <- Hmx in H1.
  destruct (modexp_complexity_lower mx H1) as [C1 C2].
  assert (HG : modexpGasLimit <= G).
  { unfold G, ModExpQuadCoeffDiv, modexpGasLimit. apply Z.div_le_lower_bound; [lia|].
    destruct (Z_le_gt_dec two63 e) as [He63|He63].
    - unfold two63 in *. nia.
    - assert (two63 <= mx) by lia.
      assert (2 ^ 122 <= mx * mx / 16) by (apply Z.div_le_lower_bound; unfold two63 in *; nia). nia. }
  unfold modexpGasLimit in *. destruct (Hexact ltac:(lia)) as [Hx|Hx]; [lia|].
  rewrite <- Hx. by unfold MaxUint64, two64.
Qed.

Lemma len_Bytes_bound x k : 0 <= k -> 0 <= x < 256 ^ k -> len (Bytes x) <= k.
Proof.
  intros Hk Hx. rewrite len_Bytes. rewrite pow_256 in Hx by done.
  assert (BitLen x <= 8 * k) by (apply BitLen_spec; lia).
  assert ((BitLen x + 7) / 8 < k + 1) by (apply Z.div_lt_upper_bound; lia). lia.
Qed.

Lemma i64_bound x : i64 x < two63.
Proof.
  unfold i64. pose proof (Z.mod_pos_bound x two64 ltac:(done)).
  destruct (Z.ltb_spec (x mod two64) two63); unfold two63, two64 in *; lia.
Qed.

Lemma LeftPadBytes_slice_ok b n : slice_ok b -> n < two63 -> slice_ok (LeftPadBytes b n).
Proof.
  intros [Hb Hl] Hn. split; [auto with go|]. rewrite LeftPadBytes_spec, len_app.
  unfold zeros. unfold len at 1. rewrite length_replicate. lia.
Qed.

Lemma expMod_spec b e m : 0 < m -> expMod b e m = b ^ e mod m.
Proof. intros. apply Zpow_mod_correct. lia. Qed.

Lemma getInt_post (p : Prop) data start size :
  slice_ok data -> is_u64 start -> is_u64 size ->
  p \/ Z.min start (len data) + size < two64 ->
  post p False (getInt data start size)
    (fun x => 0 <= x /\ exists k, 0 <= k < two63 /\ x < 256 ^ k).
Proof.
  intros Hd Hs Hz [Hp|Hmin].
  - unfold getInt, getData. set (w := slice _ _ _). destruct w as [d| |] eqn:E; simpl; [|done|].
    2: { revert E. unfold w, slice. by split_if. }
    subst w. pose proof (bytes_ok_slice _ _ _ _ E (proj1 Hd)) as Hb.
    apply slice_inv in E as (E1 & E2 & E3). pose proof (RightPadBytes_ok d (i64 size) Hb) as Hr.
    pose proof (SetBytes_bound _ Hr). split; [lia|]. eexists; split; [|apply H].
    rewrite len_RightPadBytes. pose proof (i64_bound size). pose proof (len_nonneg d).
    assert (len d <= len data) by (rewrite E3, len_take, len_drop; lia). destruct Hd. lia.
  - destruct (getInt_ok data start size Hd Hs Hz Hmin) as (x & -> & Hx & Hk). done.
Qed.

(** [bigModExp] returns well-formed data; it panics only if the gas limit
    allows lengths that wrap. *)
Lemma bigModExp_Run_ok (p : Prop) input g :
  slice_ok input -> bigModExp_RequiredGas input = Ok g -> p \/ g < modexpGasLimit ->
  post p False (bigModExp_Run input) (fun '(ret, _) => slice_ok ret).
Proof.
  intros Hi Hg Hp.
  destruct (modexp_lengths input Hi) as (b & e & m & Eb & Ee & Em & Hb & He & Hm).
  destruct (bigModExp_price input b e m Hi Eb Ee Em Hb He Hm) as (g' & Hg' & _ & Hbig).
  assert (g' = g) as -> by congruence. unfold bigModExp_Run. rewrite Eb, Ee, Em. cbn [rbind].
  destruct (modexp_body_ok input Hi) as (r & -> & Hr). cbn [rbind].
  split_if; [apply slice_ok_nil|].
  assert (Hmax : 1 <= Z.max m b).
  { destruct (decide (b = 0)) as [->|]; [|lia]. destruct (decide (m = 0)) as [->|]; [done|lia]. }
  assert (Hu : forall x, is_u64 (Uint64 x)) by (intros; apply u64_range).
  assert (Hle : forall x, 0 <= x -> Uint64 x <= x).
  { intros x Hx. unfold Uint64. rewrite Z.abs_eq by done. by apply Z.mod_le. }
  assert (Hsmall : p \/ Uint64 e < two63 /\ Uint64 m < two63).
  { destruct Hp as [Hp|Hp]; [by left|]. right. pose proof (Hle e He). pose proof (Hle m Hm).
    destruct (Z_lt_dec (Z.max e m) two63); [lia|]. specialize (Hbig Hmax ltac:(lia)). lia. }
  pose proof (proj2 Hr) as Hlr. pose proof (len_nonneg r).
  destruct (getInt_ok r 0 (Uint64 b) Hr) as (x & -> & Hx & _);
    [by unfold is_u64, two64|done|destruct (Hu b); unfold two63, two64 in *; lia|]. cbn [rbind].
  assert (Hmin : forall s, Z.min s (len r) < two63) by lia.
  apply post_bind. eapply post_mono.
  { apply (getInt_post p r (Uint64 b) (Uint64 e)); try done.
    destruct Hsmall as [|[Se _]]; [by left|right]. pose proof (Hmin (Uint64 b)).
    unfold two63, two64 in *. lia. }
  intros y [Hy _]. apply post_bind. eapply post_mono.
  { apply (getInt_post p r (u64 (Uint64 b + Uint64 e)) (Uint64 m)); try done; [apply u64_range|].
    destruct Hsmall as [|[_ Sm]]; [by left|right]. pose proof (Hmin (u64 (Uint64 b + Uint64 e))).
    unfold two63, two64 in *. lia. }
  intros z (Hz & k & Hk & Hzk). split_if.
  - apply LeftPadBytes_slice_ok; [apply slice_ok_nil|apply i64_bound].
  - apply LeftPadBytes_slice_ok; [|apply i64_bound]. split; [apply Bytes_ok|].
    assert (Hz0 : 0 < z).
    { destruct (decide (z = 0)) as [->|]; [done|lia]. }
    rewrite expMod_spec by done. pose proof (Z.mod_pos_bound (x ^ y) z Hz0).
    pose proof (len_Bytes_bound (x ^ y mod z) k ltac:(lia) ltac:(lia)). lia.
Qed.

(** ** All native contracts *)

Definition precompile_ok (p : Prop) (P : PrecompiledContract) : Prop :=
  forall input, slice_ok input -> exists g, RequiredGas P input = Ok g /\ is_u64 g /\
  (p \/ g < modexpGasLimit -> post p False (PRun P input) (fun '(ret, _) => slice_ok ret)).

Section Contracts.
Context (cr : Crypto) (p : Prop).
Hypothesis Hcr : crypto_ok cr.

Lemma slice_ok_of b n : bytes_ok b /\ len b = n -> n < two63 -> slice_ok b.
Proof. intros [Hb <-] Hn. by split. Qed.

Lemma ecrecover_ok : precompile_ok p (ecrecover cr).
Proof.
  intros input Hi. exists EcrecoverGas. split; [done|]. split; [by unfold is_u64, two64|]. intros _.
  cbn [PRun ecrecover]. unfold ecrecover_Run. set (inp := RightPadBytes input 128).
  assert (Hl : 128 <= len inp) by (unfold inp; rewrite len_RightPadBytes; lia).
  rewrite !slice_Ok by lia. cbn [rbind].
  destruct (index_Ok inp 63 ltac:(lia)) as (v & -> & _). cbn [rbind]. split_if; [apply slice_ok_nil|].
  destruct (Ecrecover _ _ _) as [key|] eqn:Ek; [|apply slice_ok_nil].
  apply (ck_recover _ Hcr) in Ek as [Hk Hkl]. rewrite slice_Ok by lia. cbn [rbind].
  set (kk := take _ _). destruct (ck_keccak _ Hcr kk) as [Hh Hhl]. rewrite slice_Ok by lia. cbn [rbind post].
  apply LeftPadBytes_slice_ok; [|done]. split; [auto with go|]. rewrite len_take. unfold two63. lia.
Qed.

Lemma per_word_gas_u64 a b input : exists g, per_word_gas a b input = Ok g /\ is_u64 g.
Proof. eexists; split; [done|]. apply u64_range. Qed.

Lemma sha256hash_ok : precompile_ok p (sha256hash cr).
Proof.
  intros input Hi. destruct (per_word_gas_u64 Sha256PerWordGas Sha256BaseGas input) as (g & Hg & Hu).
  exists g. split; [done|]. split; [done|]. intros _. simpl.
  by eapply slice_ok_of; [apply (ck_sha256 _ Hcr)|].
Qed.

Lemma ripemd160hash_ok : precompile_ok p (ripemd160hash cr).
Proof.
  intros input Hi. destruct (per_word_gas_u64 Ripemd160PerWordGas Ripemd160BaseGas input) as (g & Hg & Hu).
  exists g. split; [done|]. split; [done|]. intros _. cbn [PRun ripemd160hash post].
  apply LeftPadBytes_slice_ok; [|done]. by eapply slice_ok_of; [apply (ck_ripemd _ Hcr)|].
Qed.

Lemma dataCopy_ok : precompile_ok p dataCopy.
Proof.
  intros input Hi. destruct (per_word_gas_u64 IdentityPerWordGas IdentityBaseGas input) as (g & Hg & Hu).
  by exists g.
Qed.

Lemma bigModExp_ok : precompile_ok p bigModExp.
Proof.
  intros input Hi. destruct (modexp_lengths input Hi) as (b & e & m & Eb & Ee & Em & Hb & He & Hm).
  destruct (bigModExp_price input b e m Hi Eb Ee Em Hb He Hm) as (g & Hg & Hu & _).
  exists g. split; [done|]. split; [done|]. intros Hp. by eapply bigModExp_Run_ok.
Qed.

Lemma getData_small input start size :
  slice_ok input -> 0 <= start <= 64 -> 0 <= size <= 64 ->
  exists d, getData input start size = Ok d.
Proof.
  intros Hi Hs Hz. destruct (getData_ok input start size Hi) as (d & H & _);
    [unfold is_u64, two64; lia|unfold is_u64, two64; lia|unfold two64; lia|]. by exists d.
Qed.

Lemma bn256Add_ok : precompile_ok p (bn256Add cr).
Proof.
  intros input Hi. exists Bn256AddGas. split; [done|]. split; [by unfold is_u64, two64|]. intros _.
  cbn [PRun bn256Add]. unfold bn256Add_Run.
  destruct (getData_small input 0 64) as (d & ->); [done|lia|lia|]. cbn [rbind].
  destruct (newCurvePoint cr d); [|apply slice_ok_nil].
  destruct (getData_small input 64 64) as (d' & ->); [done|lia|lia|]. cbn [rbind].
  destruct (newCurvePoint cr d'); [|apply slice_ok_nil].
  by eapply slice_ok_of; [apply (ck_marshal _ Hcr)|].
Qed.

Lemma bn256ScalarMul_ok : precompile_ok p (bn256ScalarMul cr).
Proof.
  intros input Hi. exists Bn256ScalarMulGas. split; [done|]. split; [by unfold is_u64, two64|]. intros _.
  cbn [PRun bn256ScalarMul]. unfold bn256ScalarMul_Run, getInt.
  destruct (getData_small input 0 64) as (d & ->); [done|lia|lia|]. cbn [rbind].
  destruct (newCurvePoint cr d); [|apply slice_ok_nil].
  destruct (getData_small input 64 32) as (d' & ->); [done|lia|lia|]. cbn [rbind].
  by eapply slice_ok_of; [apply (ck_marshal _ Hcr)|].
Qed.

Lemma pairing_points_ok n input : forall i cs ts,
  0 <= i -> i + 192 * Z.of_nat n <= len input -> exists r, pairing_points cr n input i cs ts = Ok r.
Proof.
  induction n as [|n IH]; intros i cs ts Hi Hn; cbn [pairing_points]; [by eexists|].
  rewrite !slice_Ok by lia. cbn [rbind]. destruct (newCurvePoint cr _); [|by eexists].
  destruct (newTwistPoint cr _); [|by eexists]. apply IH; lia.
Qed.

Lemma bn256Pairing_ok : precompile_ok p (bn256Pairing cr).
Proof.
  intros input Hi. eexists. split; [done|]. split; [apply u64_range|]. intros _.
  cbn [PRun bn256Pairing]. unfold bn256Pairing_Run. split_if; [apply slice_ok_nil|].
  pose proof (len_nonneg input). pose proof (Z.mul_div_le (len input) 192).
  assert (0 <= len input / 192) by (apply Z.div_pos; lia).
  destruct (pairing_points_ok (Z.to_nat (len input / 192)) input 0 [] []) as (r & ->); [lia|lia|].
  cbn [rbind]. destruct r as [[cs ts]|]; [|apply slice_ok_nil]. cbn [post].
  destruct (PairingCheck cr cs ts); unfold true32Byte, false32Byte; split; try done;
    repeat constructor; done.
Qed.

Lemma precompiles_ok : Forall (fun e => precompile_ok p (snd e)) (PrecompiledContractsByzantium cr).
Proof.
  repeat constructor; [apply ecrecover_ok|apply sha256hash_ok|apply ripemd160hash_ok|apply dataCopy_ok
    |apply bigModExp_ok|apply bn256Add_ok|apply bn256ScalarMul_ok|apply bn256Pairing_ok].
Qed.

End Contracts.

Lemma find_precompile_ok p (env : Env) a P :
  crypto_ok (crypto env) -> find_precompile (Interp.precompiles env) a = Some P -> precompile_ok p P.
Proof.
  intros Hcr. pose proof (precompiles_ok (crypto env) p Hcr) as H.
  assert (Hall : Forall (fun e => precompile_ok p (snd e)) (Interp.precompiles env)).
  { unfold Interp.precompiles. split_if; [done|].
    change (PrecompiledContractsByzantium (crypto env))
      with (PrecompiledContractsHomestead (crypto env) ++ drop 4 (PrecompiledContractsByzantium (crypto env)))
      in H. by apply Forall_app in H as [H _]. }
  clear H. induction Hall as [|[b q] t Hq _ IH]; simpl; [done|]. split_if; [by intros [= <-]|done].
Qed.

(** Running a native contract. *)
Lemma RunPrecompiledContract_ok (p : Prop) P input c :
  precompile_ok p P -> slice_ok input -> is_u64 (Vm.Gas c) -> p \/ Vm.Gas c < modexpGasLimit ->
  post p False (RunPrecompiledContract P input c) (fun '(ret, _, c') =>
    slice_ok ret /\ exists g, c' = with_Gas c g /\ 0 <= g <= Vm.Gas c).
Proof.
  intros HP Hi Hg Hlim. unfold RunPrecompiledContract.
  destruct (HP input Hi) as (g & -> & Hu & Hrun). cbn [rbind]. unfold UseGas, is_u64 in *.
  destruct (Z.ltb_spec (Vm.Gas c) g); simpl.
  - split; [apply slice_ok_nil|]. exists (Vm.Gas c). split; [by destruct c|lia].
  - apply post_bind. eapply post_mono; [apply Hrun; destruct Hlim; [by left|right; lia]|].
    intros [ret err] Hr. simpl. split; [done|]. eexists; split; [done|].
    rewrite u64_id by (unfold is_u64; lia). lia.
Qed.

End PrecompileSpec.
