(* ===== verification/Safety.v ===== *)
(** * Safety and termination of the interpreter

    [step_ok] composes the contracts of [TableSpec.v] into one iteration of
    the interpreter loop.  [loop_ok] and the specifications of the message
    calls follow by induction on the fuel: the loop never runs out of fuel
    when the fuel exceeds the gas, because every iteration that goes on and
    every nested call leaves strictly less gas.  The closing theorems state
    this for the entry points, without permission to panic when recursion is
    disabled (the configuration of the fuzzer) and with it otherwise. *)

From stdpp Require Import base list numbers gmap option.
From S2P Require Import Prelude BigInt Types Params StateDB Opcodes Analysis Machine GasTable.
From S2P Require Import Instructions JumpTable Precompiles Interp Spec GasSpec.
From S2P Require Import ExecSpec PrecompileSpec.

#[local] Open Scope Z_scope.
#[local] Open Scope go_scope.

Module Safety.
Import Op Big Common Params StateDB Analysis Vm Instr Table Precompiles Interp Spec Concrete ExecSpec PrecompileSpec.

Section Step.
Context (env : Env) (p : Prop) (bound : Z) (ops : CallOps).
Hypothesis Henv : env_ok env.
Hypothesis Hops : forall op, valid (JumpTable env ops op) = true -> op_ok p bound op (JumpTable env ops op).

(** What one iteration guarantees: the next frame is well formed, its stack
    within the limit, and it has strictly less gas; at the end, the machine
    is well formed and the contract has no more gas than before. *)
Definition outcome_ok (f : frame) (o : outcome) : Prop :=
  match o with
  | Next f' =>
      frame_ok p f' /\ len (f_stack f') <= StackLimit /\ keep (f_evm f) (f_evm f') /\
      exists g, f_contract f' = with_Gas (f_contract f) g /\ g < Vm.Gas (f_contract f)
  | Done ret _ f' =>
      slice_ok ret /\ evm_ok (f_evm f') /\ keep (f_evm f) (f_evm f') /\
      exists g, f_contract f' = with_Gas (f_contract f) g /\ 0 <= g <= Vm.Gas (f_contract f)
  end.

Lemma with_Gas_self c : with_Gas c (Vm.Gas c) = c.
Proof. by destruct c. Qed.

Lemma done_ok f err : frame_ok p f -> outcome_ok f (Done [] err f).
Proof.
  intros Hf. split; [apply slice_ok_nil|]. split; [apply Hf|]. split; [done|].
  exists (Vm.Gas (f_contract f)). rewrite with_Gas_self. split; [done|].
  destruct (co_gas _ (fo_contract _ _ Hf)). lia.
Qed.

Lemma makeStackFunc_None pops pushes st :
  makeStackFunc pops pushes st = None -> pops <= len st /\ len st - pops + pushes <= StackLimit.
Proof.
  unfold makeStackFunc, require. repeat split_if; try done. intros _. zbool. lia.
Qed.

Lemma GetOp_in_code c pc : GetOp c pc <> 0 -> pc < len (Code c).
Proof. unfold GetOp, GetByte. split_if; [zbool; done|done]. Qed.

(** The size asked for is a whole number of words and covers the request. *)
Lemma needed_memory_spec o st pops :
  stack_ok st -> pops <= len st -> mem_total pops (memorySize o) ->
  post p False (needed_memory o st) (fun r => forall size, r = inl size ->
    (exists w, 0 <= w /\ size = 32 * w) /\ (has_mem o = false -> size = 0) /\
    match memorySize o with
    | None => True
    | Some ms => exists m, ms st = Ok m /\ 0 <= m <= size
    end).
Proof.
  intros Hst Hlen Htot. unfold needed_memory, has_mem, mem_total in *.
  destruct (memorySize o) as [ms|].
  2: { simpl. intros size [= <-]. split; [exists 0; lia|]. done. }
  destruct (Htot st Hst Hlen) as (m & -> & Hm). cbn [rbind]. unfold bigUint64.
  destruct (Z.ltb_spec 64 (BitLen m)) as [Hb|Hb]; [by simpl|].
  assert (Hm64 : m < two64) by (apply (BitLen_spec m 64) in Hb; [unfold two64; lia|lia]).
  assert (Hu : Uint64 m = m) by (unfold Uint64; rewrite Z.abs_eq, Z.mod_small by lia; done).
  rewrite Hu. clear Hu Hb.
  assert (Hw : 0 <= toWordSize m < two64 /\ m <= 32 * toWordSize m).
  { unfold toWordSize, MaxUint64. destruct (Z.ltb_spec (two64 - 1 - 31) m).
    - unfold two64 in *. split; [|change ((18446744073709551616 - 1) / 32 + 1) with 576460752303423488; lia].
      change ((18446744073709551616 - 1) / 32 + 1) with 576460752303423488. lia.
    - pose proof (Z.mul_div_le (m + 31) 32). pose proof (Z.mul_succ_div_gt (m + 31) 32).
      split; [|lia]. unfold two64 in *. lia. }
  destruct Hw as [Hw1 Hw2]. rewrite SafeMul_spec by (done || by unfold is_u64, two64).
  destruct (Z.ltb_spec (toWordSize m * 32) two64); simpl; [|done].
  intros size [= <-]. rewrite u64_id by (unfold is_u64; lia).
  split; [exists (toWordSize m); lia|]. split; [done|]. exists m. split; [done|lia].
Qed.

(** Pricing: on success the gas is consumed, and the gas the operation may
    hand back is strictly covered by the price. *)
Lemma charge_spec o size f pops allow :
  frame_ok p f -> pops <= len (f_stack f) ->
  (exists w, 0 <= w /\ size = 32 * w) -> (has_mem o = false -> size = 0) ->
  gas_spec p (has_mem o) (halts o || reverts o) allow pops (gasCost o) ->
  post p False (charge env o size f) (fun '(err, f') =>
    f_pc f' = f_pc f /\ f_stack f' = f_stack f /\ evm_ok (f_evm f') /\ keep (f_evm f) (f_evm f') /\
    jumpdests (f_evm f') = jumpdests (f_evm f) /\
    exists g, f_contract f' = with_Gas (f_contract f) g /\ is_u64 g /\ g <= Vm.Gas (f_contract f) /\
    (err = None ->
      mem_charged (f_mem f') size /\
      g + allow (f_evm f') (f_stack f') + (if halts o || reverts o then 0 else 1)
        <= Vm.Gas (f_contract f))).
Proof.
  intros Hf Hlen Hsize Hmem Hgas. unfold charge. rewrite (eo_metered _ Henv). cbn [negb].
  apply post_bindM. eapply post_mono; [by apply Hgas|]. intros [[cost err] f1].
  intros ((H1 & H2 & H3 & H4 & H5 & H6 & H7) & H8).
  pose proof (co_gas _ (fo_contract _ _ Hf)) as Hg.
  destruct err as [err|]; simpl; repeat (split; [done|]).
  { exists (Vm.Gas (f_contract f)). rewrite with_Gas_self. repeat split; (done || apply Hg). }
  unfold mbindM, gets. cbn [rbind]. rewrite H3. unfold UseGas. destruct (Z.ltb_spec (Vm.Gas (f_contract f)) cost) as [Hlt|Hge]; simpl.
  { repeat (split; [done|]). exists (Vm.Gas (f_contract f)). rewrite with_Gas_self.
    repeat split; (done || apply Hg). }
  repeat (split; [done|]). destruct (H8 eq_refl) as (Hc & Hall & Hch). unfold is_u64 in Hc, Hg.
  exists (Vm.Gas (f_contract f) - cost). rewrite u64_id by (unfold is_u64; lia).
  split; [done|]. split; [unfold is_u64; lia|]. split; [lia|]. intros _. split; [done|lia].
Qed.

Lemma contract_ok_Gas c g : contract_ok c -> is_u64 g -> contract_ok (with_Gas c g).
Proof. intros [] Hg. by split. Qed.

(** A frame after pricing, seen from the frame before it. *)
Record priced (allow : EVM -> Stack -> Z) (free : bool) (size : Z) (f f1 : frame) (g : Z) : Prop :=
  mk_priced {
    pr_pc : f_pc f1 = f_pc f;
    pr_stack : f_stack f1 = f_stack f;
    pr_evm : evm_ok (f_evm f1);
    pr_keep : keep (f_evm f) (f_evm f1);
    pr_dests : jumpdests (f_evm f1) = jumpdests (f_evm f);
    pr_contract : f_contract f1 = with_Gas (f_contract f) g;
    pr_gas : is_u64 g;
    pr_le : g <= Vm.Gas (f_contract f);
    pr_mem : mem_charged (f_mem f1) size;
    pr_allow : g + allow (f_evm f1) (f_stack f1) + (if free then 0 else 1) <= Vm.Gas (f_contract f)
  }.

(** Execution of a priced operation. *)
Lemma perform_spec op o size f f1 g pops pushes allow :
  Vm.Gas (f_contract f) <= bound ->
  frame_ok p f -> makeStackFunc pops pushes (f_stack f) = None ->
  op = GetOp (f_contract f) (f_pc f) ->
  match memorySize o with
  | None => True
  | Some ms => exists m, ms (f_stack f) = Ok m /\ 0 <= m <= size
  end ->
  priced allow (halts o || reverts o) size f f1 g ->
  exec_spec p bound (halts o || reverts o)
    (fun f => covered (memorySize o) f /\ (op <> 0 -> f_pc f < len (Code (f_contract f))))
    allow pops pushes (execute o) ->
  post p False (perform o size f1) (outcome_ok f).
Proof.
  intros Hb Hf Hst Hop Hms Hp Hex. apply makeStackFunc_None in Hst as [Hlen Hlim].
  destruct Hp as [P1 P2 P3 P4 P5 P6 P7 P8 P9 P10].
  pose proof (co_gas _ (fo_contract _ _ Hf)) as Hg. unfold is_u64 in Hg.
  destruct (mem_charged_Resize _ _ P9) as (Hm1 & Hm2 & _). unfold perform.
  set (m' := if 0 <? size then mem_Resize (f_mem f1) size else f_mem f1) in *.
  replace (if 0 <? size then _ else f1)
    with (mkFrame (f_pc f1) (f_evm f1) (f_contract f1) m' (f_stack f1))
    by (unfold m'; destruct f1; simpl; by split_if).
  set (f2 := mkFrame _ _ _ m' _).
  assert (Hf2 : frame_ok p f2).
  { split; simpl; try done.
    - rewrite P1. apply Hf.
    - destruct P4 as (-> & _). apply Hf.
    - rewrite P6. apply contract_ok_Gas; [apply Hf|done].
    - rewrite P2. apply Hf.
    - rewrite P5, P6. apply Hf. }
  apply post_bind, post_bind. eapply post_mono.
  { apply (Hex f2 Hf2).
    - split.
      + unfold covered. destruct (memorySize o) as [ms|]; [|done].
        destruct Hms as (mm & Hmm & Hmm2). exists mm. simpl. rewrite P2. split; [done|lia].
      + intros Hne. simpl. rewrite P1, P6. simpl. apply GetOp_in_code. congruence.
    - simpl. rewrite P2. done.
    - intros Hfree. rewrite Hfree in P10. unfold f2. cbn [f_contract f_evm f_stack]. rewrite P6. simpl. lia.
    - unfold f2. cbn [f_contract f_evm f_stack]. rewrite P6. cbn [Vm.Gas with_Gas].
      destruct (halts o || reverts o); lia. }
  intros [[ret err] f3] (E1 & E2 & E3 & (g3 & E4 & E5) & E6). simpl in E3, E4, E5, E6. simpl.
  set (f4 := if returns o then _ else f3).
  assert (Hf4 : frame_ok p f4 /\ keep (f_evm f) (f_evm f4) /\ f_contract f4 = with_Gas (f_contract f) g3
                /\ f_stack f4 = f_stack f3).
  { assert (Hk : keep (f_evm f) (f_evm f3)) by (by etrans).
    assert (Hc : f_contract f3 = with_Gas (f_contract f) g3) by (by rewrite E4, P6).
    unfold f4. destruct (returns o); [|done]. split; [|done].
    destruct E2 as [? [] ?????]. by split. }
  clearbody f4. destruct Hf4 as (F1 & F2 & F3 & F4).
  pose proof (co_gas _ (fo_contract _ _ F1)) as Hg4. rewrite F3 in Hg4. simpl in Hg4.
  assert (Hg3 : g3 + (if halts o || reverts o then 0 else 1) <= Vm.Gas (f_contract f))
    by (rewrite P6 in E5; simpl in E5; lia).
  assert (Hdone : forall r x, slice_ok r -> outcome_ok f (Done r x f4)).
  { intros r x Hr. split; [done|]. split; [apply F1|]. split; [done|]. exists g3. split; [done|].
    unfold is_u64 in Hg4. destruct (halts o || reverts o); lia. }
  destruct err as [err|]; [apply Hdone, slice_ok_nil|].
  destruct (reverts o) eqn:Hr; [by apply Hdone|]. destruct (halts o) eqn:Hh; [by apply Hdone|].
  simpl in Hg3. specialize (E6 eq_refl). rewrite P2 in E6. rewrite <- F4 in E6.
  destruct (negb (jumps o)); (split; [|split; [simpl; lia|split; [done|exists g3; split; [done|lia]]]]).
  - destruct F1. split; simpl; try done. apply u64_range.
  - done.
Qed.

(** One iteration. *)
Lemma step_ok f :
  Vm.Gas (f_contract f) <= bound -> frame_ok p f -> len (f_stack f) <= StackLimit ->
  post p False (step env ops f) (outcome_ok f).
Proof.
  intros Hb Hf Hlim. unfold step. split_if; [by apply done_ok|].
  set (op := GetOp _ _). destruct (valid (JumpTable env ops op)) eqn:Hv; cbn [negb];
    [|by apply done_ok].
  destruct (Hops op Hv) as (pops & pushes & allow & O1 & O2 & O3 & O4 & O5).
  set (o := JumpTable env ops op) in *. rewrite O1.
  destruct (makeStackFunc pops pushes (f_stack f)) eqn:Hst; [by apply done_ok|].
  pose proof (makeStackFunc_None _ _ _ Hst) as [Hlen _].
  apply post_bind. eapply post_mono with (Q := fun _ => True).
  { unfold enforceRestrictions. repeat split_if; try done. zbool.
    unfold Back. destruct (f_stack f !! 2%nat) eqn:E; [done|].
    apply lookup_ge_None_1 in E. specialize (O2 ltac:(done)). unfold len in Hlen. lia. }
  intros [r|] _; [by apply done_ok|].
  apply post_bind. eapply post_mono; [by apply (needed_memory_spec _ _ pops); [apply Hf|..]|].
  intros [size|err] Hsize; [|by apply done_ok].
  destruct (Hsize size eq_refl) as (Hw & Hn & Hms).
  apply post_bind. eapply post_mono; [by apply (charge_spec o size f pops allow)|].
  intros [err f1] (C1 & C2 & C3 & C4 & C5 & g & C6 & C7 & C8 & C9).
  destruct err as [err|].
  - split; [apply slice_ok_nil|]. split; [done|]. split; [done|]. exists g.
    unfold is_u64 in C7. split; [done|lia].
  - destruct (C9 eq_refl) as [C10 C11]. by eapply (perform_spec op o).
Qed.

End Step.

(** ** The loop and the calls *)

Section Machine.
Context (env : Env) (p : Prop).
Hypothesis Henv : env_ok env.
Hypothesis Hmode : p \/ NoRecursion (vmConfig env) = true.

(** What an activation guarantees. *)
Definition run_post (e : EVM) (gas : Z) (ret : bytes) (c' : Contract) (e' : EVM) : Prop :=
  slice_ok ret /\ evm_ok e' /\ keep e e' /\ 0 <= Vm.Gas c' <= gas.

Definition loop_spec (bound : Z) (lp : frame -> result (bytes * option vmerror * frame)) : Prop :=
  forall f, frame_ok p f -> len (f_stack f) <= StackLimit -> Vm.Gas (f_contract f) < bound ->
  post p False (lp f) (fun '(ret, _, f') =>
    run_post (f_evm f) (Vm.Gas (f_contract f)) ret (f_contract f') (f_evm f')).

Definition ref_ok (r : ContractRef) : Prop :=
  match r with AccountRef a => address_ok a | ContractObj c => contract_ok c end.

Lemma ref_Address_ok r : ref_ok r -> address_ok (ref_Address r).
Proof. destruct r; [done|]. apply co_self. Qed.

Section Calls.
Context (bound : Z) (lp : frame -> result (bytes * option vmerror * frame)).
Hypothesis Hlp : loop_spec bound lp.

Lemma Run_ok c input e :
  contract_ok c -> slice_ok input -> evm_ok e -> 0 <= depth e -> Vm.Gas c < bound ->
  (p \/ cache_ok (jumpdests e) (CodeHash c) (Code c)) ->
  post p False (Run lp c input e)
    (fun '(ret, _, c', e') => run_post e (Vm.Gas c) ret c' e').
Proof.
  intros Hc Hi He Hd Hb Hca. unfold Run. split_if.
  - split; [apply slice_ok_nil|]. destruct He. split; [by split; [|apply slice_ok_nil|]|].
    destruct (co_gas _ Hc). split; [|lia]. unfold keep. simpl. split; [lia|done].
  - set (f := mkFrame _ _ _ _ _).
    assert (Hf : frame_ok p f).
    { destruct He, Hc. split; simpl; try done; try lia.
      - by split; [|apply slice_ok_nil|].
      - apply NewMemory_ok.
      - constructor. }
    apply post_bind. eapply post_mono; [apply (Hlp f Hf); done|].
    intros [[ret err] f'] (R1 & R2 & R3 & R4). split; [done|]. destruct R2. split; [by split|].
    split; [|done]. destruct R3 as (K1 & K2 & K3). unfold keep. simpl in *.
    split; [rewrite K1; lia|done].
Qed.

Lemma run_ok c input e :
  contract_ok c -> slice_ok input -> evm_ok e -> 0 <= depth e -> Vm.Gas c < bound ->
  (p \/ Vm.Gas c < modexpGasLimit) ->
  (p \/ cache_ok (jumpdests e) (CodeHash c) (Code c)) ->
  post p False (run env lp c input e)
    (fun '(ret, _, c', e') => run_post e (Vm.Gas c) ret c' e').
Proof.
  intros Hc Hi He Hd Hb Hlim Hca. unfold run.
  destruct (CodeAddr c) as [a|]; [|by apply Run_ok].
  destruct (find_precompile (precompiles env) a) as [P|] eqn:EP; [|by apply Run_ok].
  apply post_bind. eapply post_mono.
  { apply (RunPrecompiledContract_ok p P input c); try done; [|apply Hc].
    eapply find_precompile_ok; [apply Henv|done]. }
  intros [[ret err] c'] (R1 & g & -> & R2). done.
Qed.

(** The result of a message call, whoever made it. *)
Definition call_out (gas : Z) (e : EVM) (ret : bytes) (g : Z) (e' : EVM) : Prop :=
  slice_ok ret /\ 0 <= g <= gas /\ evm_ok e' /\ keep e e'.

Lemma UseGas_all c : is_u64 (Vm.Gas c) -> Vm.Gas (snd (UseGas c (Vm.Gas c))) = 0.
Proof. intros H. unfold UseGas. rewrite Z.ltb_irrefl. simpl. by rewrite Z.sub_diag. Qed.

Lemma run_and_revert_ok c input snap e :
  contract_ok c -> slice_ok input -> evm_ok e -> 0 <= depth e -> Vm.Gas c < bound ->
  (p \/ Vm.Gas c < modexpGasLimit) ->
  (p \/ cache_ok (jumpdests e) (CodeHash c) (Code c)) ->
  post p False (run_and_revert env lp c input snap e)
    (fun '(ret, g, _, e') => call_out (Vm.Gas c) e ret g e').
Proof.
  intros Hc Hi He Hd Hb Hlim Hca. unfold run_and_revert. apply post_bind.
  eapply post_mono; [by apply run_ok|]. intros [[[ret err] c'] e'] (R1 & R2 & R3 & R4).
  destruct (co_gas _ Hc) as [G1 G2].
  destruct err as [err|]; [|done]. unfold RevertToSnapshot.
  split; [done|]. split; [|destruct R2; split; [by split|done]].
  split_if; [|done]. rewrite UseGas_all by (unfold is_u64; lia). lia.
Qed.

(** A contract about to run code loaded from the database. *)
Lemma load_code_ok caller a v gas d addr :
  ref_ok caller -> address_ok a -> is_u64 gas -> 0 <= v -> db_ok d ->
  contract_ok (load_code (NewContract caller (AccountRef a) (Some v) gas) addr d).
Proof.
  intros Hr Ha Hg Hv Hd. split; simpl; try done.
  - by apply ref_Address_ok.
  - by apply GetCode_ok.
  - apply slice_ok_nil.
  - by exists v.
Qed.

Lemma with_dests_ok e d : evm_ok e -> evm_ok (with_jumpdests e d).
Proof. intros []. by split. Qed.
Lemma with_db_ok e d : evm_ok e -> db_ok d -> evm_ok (with_db e d).
Proof. intros [] H. by split. Qed.

(** The new contract's cache is fresh, or panics are permitted. *)
Definition fresh_or (caller : ContractRef) : Prop := p \/ exists a, caller = AccountRef a.

Lemma fresh_cache caller d h code :
  fresh_or caller -> p \/ cache_ok (new_dests caller d) h code.
Proof. intros [|[a ->]]; [by left|right]. intros m. simpl. by rewrite lookup_empty. Qed.

Section OneCall.
Context (caller : ContractRef) (gas : Z) (e : EVM).
Hypothesis Hcaller : ref_ok caller.
Hypothesis Hgas : is_u64 gas.
Hypothesis Hbound : gas < bound.
Hypothesis He : evm_ok e.
Hypothesis Hdepth : 0 <= depth e.
Hypothesis Hrun : no_recursion env e = false -> (p \/ gas < modexpGasLimit) /\ fresh_or caller.

Lemma call_out_same : call_out gas e [] gas e.
Proof. destruct Hgas. split; [apply slice_ok_nil|]. split; [lia|]. done. Qed.

Lemma CanTransfer_ok v :
  db_ok (snd (CanTransfer (db e) (ref_Address caller) v)).
Proof. rewrite CanTransfer_snd. apply AddBalance_ok; [apply He|lia]. Qed.

Lemma Call_ok addr input v :
  address_ok addr -> slice_ok input -> 0 <= v ->
  post p False (Call env lp caller addr input gas v e)
    (fun '(ret, g, _, e') => call_out gas e ret g e').
Proof.
  intros Ha Hi Hv. unfold Call. destruct (no_recursion env e) eqn:Hn; [apply call_out_same|].
  destruct (Hrun eq_refl) as [Hlim Hfresh]. split_if; [apply call_out_same|].
  pose proof (CanTransfer_ok v) as Hd. destruct (CanTransfer _ _ _) as [can d] eqn:Ecan. simpl in Hd.
  destruct can; cbn [negb].
  2: { destruct call_out_same as (?&?&?&?). split; [done|]. split; [done|]. split; [|done].
       by apply with_db_ok. }
  unfold Exist. cbn [negb andb]. apply CanTransfer_true in Ecan as (_ & Hle & _).
  set (e1 := with_db (with_db e d) _).
  assert (He1 : evm_ok e1).
  { apply with_db_ok; [by apply with_db_ok|]. apply Transfer_ok; [done|cbn [db with_db]; lia]. }
  eapply post_mono.
  - apply run_and_revert_ok; try done.
    + by apply load_code_ok; [..|apply He1].
    + by apply with_dests_ok.
    + by apply fresh_cache.
  - intros [[[ret g] err] e'] (R1 & R2 & R3 & R4). done.
Qed.

Lemma CallCode_ok addr input v :
  address_ok addr -> slice_ok input -> 0 <= v ->
  post p False (CallCode env lp caller addr input gas v e)
    (fun '(ret, g, _, e') => call_out gas e ret g e').
Proof.
  intros Ha Hi Hv. unfold CallCode. destruct (no_recursion env e) eqn:Hn; [apply call_out_same|].
  destruct (Hrun eq_refl) as [Hlim Hfresh]. split_if; [apply call_out_same|].
  pose proof (CanTransfer_ok v) as Hd. destruct (CanTransfer _ _ _) as [can d] eqn:Ecan. simpl in Hd.
  assert (He1 : evm_ok (with_db e d)) by (by apply with_db_ok).
  destruct can; cbn [negb].
  2: { destruct call_out_same as (?&?&?&?). done. }
  eapply post_mono.
  - apply run_and_revert_ok; try done.
    + apply load_code_ok; try done. by apply ref_Address_ok.
    + by apply with_dests_ok.
    + by apply fresh_cache.
  - intros [[[ret g] err] e'] (R1 & R2 & R3 & R4). done.
Qed.

Lemma StaticCall_ok addr input :
  address_ok addr -> slice_ok input ->
  post p False (StaticCall env lp caller addr input gas e)
    (fun '(ret, g, _, e') => call_out gas e ret g e').
Proof.
  intros Ha Hi. unfold StaticCall. destruct (no_recursion env e) eqn:Hn; [apply call_out_same|].
  destruct (Hrun eq_refl) as [Hlim Hfresh]. split_if; [apply call_out_same|].
  set (e1 := if negb (readOnly e) then with_readOnly e true else e).
  assert (He1 : evm_ok e1 /\ depth e1 = depth e /\ abort e1 = abort e /\
                readOnly e1 = true).
  { unfold e1. destruct (readOnly e) eqn:E; simpl; [done|]. destruct He. by split. }
  destruct He1 as (He1 & D1 & D2 & D3). apply post_bind. eapply post_mono.
  - apply run_and_revert_ok; try done.
    + apply load_code_ok; try done. apply He1.
    + by apply with_dests_ok.
    + simpl. by rewrite D1.
    + by apply fresh_cache.
  - intros [[[ret g] err] e'] (R1 & R2 & R3 & R4 & R5 & R6). simpl in *.
    split; [done|]. split; [done|].
    destruct (readOnly e) eqn:E; simpl; (split; [destruct R3; by split|]); unfold keep; simpl;
      repeat split; congruence.
Qed.

(** A delegate call needs a calling contract; from an account it panics. *)
Lemma DelegateCall_ok c addr input :
  caller = ContractObj c -> address_ok addr -> slice_ok input ->
  post p False (DelegateCall env lp caller addr input gas e)
    (fun '(ret, g, _, e') => call_out gas e ret g e').
Proof.
  intros Hcc Ha Hi. unfold DelegateCall. destruct (no_recursion env e) eqn:Hn; [apply call_out_same|].
  destruct (Hrun eq_refl) as [Hlim Hfresh]. split_if; [apply call_out_same|]. subst caller. cbn [AsDelegate rbind]. simpl in Hcaller.
  eapply post_mono.
  - apply run_and_revert_ok; try done.
    + destruct Hcaller. split; simpl; try done; [by apply GetCode_ok; apply He|apply slice_ok_nil].
    + by apply with_dests_ok.
    + by apply fresh_cache.
  - intros [[[ret g] err] e'] (R1 & R2 & R3 & R4). done.
Qed.

(** The new account's balance after a creation is never negative, even if its
    address is the creator's. *)
Lemma create_transfer_ok d a v (b : bool) addr :
  db_ok d -> is_Some (StateMap d !! a) -> 0 <= v <= balance (account_at d a) ->
  let d1 := CreateAccount d addr in
  let d2 := if b then SetNonce d1 addr 1 else d1 in
  db_ok (Transfer d2 a addr v).
Proof.
  intros Hd Hs Hv. cbv zeta. set (d2 := if b then _ else _).
  assert (Hd2 : db_ok d2).
  { unfold d2. destruct b; [apply SetNonce_ok; [|by unfold is_u64, two64]|]; by apply CreateAccount_ok. }
  assert (Hb : forall x, x <> addr -> balance (account_at d2 x) = balance (account_at d x)).
  { intros x Hx. unfold d2. destruct b; rewrite ?account_at_SetNonce, ?account_at_CreateAccount;
      repeat case_decide; congruence. }
  destruct (decide (a = addr)) as [->|Hne].
  - eapply db_ok_equiv; [symmetry; apply Transfer_self|done]. unfold d2.
    assert (is_Some (StateMap (CreateAccount d addr) !! addr)) as Hc
      by (simpl; rewrite lookup_insert_eq; by eexists).
    destruct b; [|done]. unfold SetNonce. simpl. rewrite lookup_insert_eq. by eexists.
  - apply Transfer_ok; [done|]. by rewrite Hb.
Qed.

Lemma finish_create_ok addr snap ret err c' e' :
  run_post e gas ret c' e' ->
  post p False (finish_create env addr snap ret err c' e')
    (fun '(r, a, g, _, e'') => a = addr /\ call_out gas e r g e'').
Proof.
  intros (R1 & R2 & R3 & R4). destruct Hgas as [G1 G2]. unfold finish_create.
  set (big := IsEIP158 _ _ && _).
  set (st := if bool_decide (err = None) && negb big then _ else _).
  assert (Hst : let '(_, c1, e1) := st in evm_ok e1 /\ keep e e1 /\ 0 <= Vm.Gas c1 <= gas).
  { unfold st. split_if; [|done]. unfold UseGas. split_if; [done|]. zbool.
    split; [|split; [done|]].
    - apply with_db_ok; [done|]. destruct R1. apply SetCode_ok; [apply R2|done|done].
    - pose proof (u64_range (len ret * CreateDataGas)) as [U1 U2]. cbn [Vm.Gas with_Gas].
      rewrite (u64_id (_ - _)) by (unfold is_u64; lia). lia. }
  clearbody st. destruct st as [[err1 c1] e1]. destruct Hst as (S1 & S2 & S3).
  unfold RevertToSnapshot.
  set (fin := if _ || _ then _ else _).
  assert (Hfin : let '(c2, e2) := fin in evm_ok e2 /\ keep e e2 /\ 0 <= Vm.Gas c2 <= gas).
  { unfold fin. destruct S1. repeat split_if; simpl; (split; [by split|split; [done|]]); try done.
    rewrite UseGas_all by (unfold is_u64; lia). lia. }
  clearbody fin. destruct fin as [c2 e2]. simpl. destruct Hfin as (F1 & F2 & F3).
  split; [done|]. split; [done|]. done.
Qed.

Lemma Create_ok code v :
  slice_ok code -> 0 <= v ->
  post p False (Create env lp caller code gas v e)
    (fun '(ret, a, g, _, e') => address_ok a /\ call_out gas e ret g e' /\
       (no_recursion env e = true -> jumpdests e' = jumpdests e \/ exists a, caller = AccountRef a)).
Proof.
  intros Hcode Hv. unfold Create.
  assert (Hz : address_ok zeroAddress) by (split; [done|apply Forall_replicate; unfold byte_ok; lia]).
  split_if.
  { split; [done|]. split; [apply call_out_same|]. by left. }
  pose proof (CanTransfer_ok v) as Hd. destruct (CanTransfer _ _ _) as [can d] eqn:Ecan. simpl in Hd.
  assert (He1 : evm_ok (with_db e d)) by (by apply with_db_ok).
  destruct can; cbn [negb].
  2: { split; [done|]. destruct call_out_same as (?&?&?&?). split; [done|]. by left. }
  apply CanTransfer_true in Ecan as (_ & Hle & Hsome). cbn [db with_db].
  set (who := ref_Address caller) in *. set (nonce := GetNonce d who).
  set (d1 := SetNonce d who _).
  assert (Hd1 : db_ok d1) by (apply SetNonce_ok; [done|apply u64_range]).
  assert (Hb1 : balance (account_at d1 who) = balance (account_at d who))
    by (unfold d1; rewrite account_at_SetNonce; by case_decide).
  assert (Hs1 : is_Some (StateMap d1 !! who))
    by (unfold d1, SetNonce; simpl; rewrite lookup_insert_eq; by eexists).
  set (addr := CreateAddress _ _ _).
  assert (Haddr : address_ok addr) by apply Henv.
  split_if.
  { split; [done|]. split; [|by left]. destruct Hgas. split; [apply slice_ok_nil|].
    split; [lia|]. split; [|done]. by apply with_db_ok. }
  pose proof (create_transfer_ok d1 who v (IsEIP158 (chainConfig env) (BlockNum env)) addr Hd1 Hs1
    ltac:(lia)) as Hd2. cbv zeta in Hd2.
  set (e2 := if IsEIP158 _ _ then _ else _).
  assert (Edb : db e2 = if IsEIP158 (chainConfig env) (BlockNum env)
    then SetNonce (CreateAccount d1 addr) addr 1 else CreateAccount d1 addr)
    by (unfold e2; by split_if).
  assert (Hk2 : keep e e2 /\ jumpdests e2 = jumpdests e /\ slice_ok (returnData e2) /\
                is_u64 (callGasTemp e2) /\ no_recursion env e2 = no_recursion env e)
    by (unfold e2; destruct He; by split_if).
  clearbody e2. destruct Hk2 as (K1 & K2 & K3 & K4 & K5). rewrite <- Edb in Hd2.
  set (e3 := with_jumpdests _ _).
  assert (He3 : evm_ok e3) by (by split).
  assert (Hkeep : keep e e3) by done.
  change (no_recursion env e3) with (no_recursion env e2). rewrite K5.
  destruct (no_recursion env e) eqn:Hn.
  { split; [done|]. destruct Hgas. split; [split; [apply slice_ok_nil|split; [lia|done]]|].
    intros _. unfold e3. destruct caller as [a|c]; [right; by exists a|left]. simpl. done. }
  destruct (Hrun eq_refl) as [Hlim Hfresh]. apply post_bind. eapply post_mono.
  - apply run_ok; try done.
    + split; simpl; try done; [by apply ref_Address_ok|apply slice_ok_nil|by exists v].
    + apply slice_ok_nil.
    + destruct Hkeep as [-> _]. done.
    + by apply fresh_cache.
  - intros [[[ret err] c'] e'] (R1 & R2 & R3 & R4). eapply post_mono.
    + apply finish_create_ok. split; [done|]. split; [done|]. split; [by etrans|done].
    + intros [[[[r a] g] x] e4] [-> Hout]. done.
Qed.

End OneCall.

(** A nested call either returns at once (recursion disabled) or may panic. *)
Lemma nested e : 1 <= depth e -> no_recursion env e = true \/ p.
Proof.
  intros Hd. destruct Hmode as [|Hm]; [by right|left]. unfold no_recursion. rewrite Hm.
  apply Z.ltb_lt. lia.
Qed.

Lemma call_post_same gas e : evm_ok e -> is_u64 gas -> call_post p gas e [] gas e.
Proof.
  intros He [? ?]. split; [apply slice_ok_nil|]. split; [lia|]. split; [done|]. split; [done|].
  by right.
Qed.

Lemma call_out_post gas e ret g e' : p -> call_out gas e ret g e' -> call_post p gas e ret g e'.
Proof. intros Hp (H1 & H2 & H3 & H4). repeat (split; [done|]). by left. Qed.

#[local] Instance calls_spec : CallSpec p bound (call_ops env lp).
Proof.
  split.
  - intros c a input gas v e Hc Ha Hi Hg Hb Hv He Hd. cbn [evm_Call call_ops].
    destruct (nested e Hd) as [Hn|Hp].
    + unfold Call. rewrite Hn. by apply call_post_same.
    + eapply post_mono; [apply Call_ok; try done; try lia; by split; left|].
      intros [[[r g] x] e']. by apply call_out_post.
  - intros c a input gas v e Hc Ha Hi Hg Hb Hv He Hd. cbn [evm_CallCode call_ops].
    destruct (nested e Hd) as [Hn|Hp].
    + unfold CallCode. rewrite Hn. by apply call_post_same.
    + eapply post_mono; [apply CallCode_ok; try done; try lia; by split; left|].
      intros [[[r g] x] e']. by apply call_out_post.
  - intros c a input gas e Hc Ha Hi Hg Hb He Hd. cbn [evm_DelegateCall call_ops].
    destruct (nested e Hd) as [Hn|Hp].
    + unfold DelegateCall. rewrite Hn. by apply call_post_same.
    + eapply post_mono; [apply (DelegateCall_ok (ContractObj c) gas e) with (c := c);
        try done; try lia; by split; left|].
      intros [[[r g] x] e']. by apply call_out_post.
  - intros c a input gas e Hc Ha Hi Hg Hb He Hd. cbn [evm_StaticCall call_ops].
    destruct (nested e Hd) as [Hn|Hp].
    + unfold StaticCall. rewrite Hn. by apply call_post_same.
    + eapply post_mono; [apply StaticCall_ok; try done; try lia; by split; left|].
      intros [[[r g] x] e']. by apply call_out_post.
  - intros c code gas v e Hc Hcode Hg Hb Hv He Hd. cbn [evm_Create call_ops].
    destruct (nested e Hd) as [Hn|Hp].
    + eapply post_mono; [apply Create_ok; try done; try lia; congruence|].
      intros [[[[r a] g] x] e'] (H1 & (O1 & O2 & O3 & O4) & H3). split; [done|].
      repeat (split; [done|]). right. by destruct (H3 Hn) as [|[? ?]].
    + eapply post_mono; [apply Create_ok; try done; try lia; by split; left|].
      intros [[[[r a] g] x] e'] (H1 & H2 & _). split; [done|]. by apply call_out_post.
Qed.

End Calls.

(** Fuel above the gas is enough, whatever the code does. *)
Lemma loop_ok n : loop_spec (Z.of_nat n) (loop env n).
Proof.
  induction n as [|n IH]; intros f Hf Hst Hg.
  { destruct (co_gas _ (fo_contract _ _ Hf)). lia. }
  cbn [loop]. apply post_bind. eapply post_mono.
  { apply (step_ok env p (Z.of_nat n)); [done| |lia|done|done].
    intros op. apply TableSpec.JumpTable_ok; [done|]. by apply calls_spec. }
  intros [f'|ret err f']; simpl.
  - intros (H1 & H2 & H3 & g & H4 & H5). eapply post_mono.
    + apply IH; [done|done|]. rewrite H4. simpl. lia.
    + intros [[r x] f2] (R1 & R2 & R3 & R4). split; [done|]. split; [done|].
      split; [by etrans|]. rewrite H4 in R4. simpl in R4. lia.
  - intros (H1 & H2 & H3 & g & H4 & H5). split; [done|]. split; [done|]. split; [done|].
    rewrite H4. simpl. lia.
Qed.

(** The message calls, with enough fuel. *)
Lemma machine_Call_ok fuel caller addr input gas v e :
  ref_ok caller -> address_ok addr -> slice_ok input -> is_u64 gas -> 0 <= v ->
  evm_ok e -> 0 <= depth e -> gas < Z.of_nat fuel ->
  (no_recursion env e = false -> (p \/ gas < modexpGasLimit) /\ fresh_or caller) ->
  post p False (evm_Call (machine env fuel) caller addr input gas v e)
    (fun '(ret, g, _, e') => call_out gas e ret g e').
Proof. intros. apply (Call_ok (Z.of_nat fuel)); try done. apply loop_ok. Qed.

Lemma machine_Create_ok fuel caller code gas v e :
  ref_ok caller -> slice_ok code -> is_u64 gas -> 0 <= v ->
  evm_ok e -> 0 <= depth e -> gas < Z.of_nat fuel ->
  (no_recursion env e = false -> (p \/ gas < modexpGasLimit) /\ fresh_or caller) ->
  post p False (evm_Create (machine env fuel) caller code gas v e)
    (fun '(ret, a, g, _, e') => address_ok a /\ call_out gas e ret g e').
Proof.
  intros. eapply post_mono; [apply (Create_ok (Z.of_nat fuel)); try done; apply loop_ok|].
  intros [[[[r a] g] x] e'] (H8 & H9 & _). done.
Qed.

End Machine.

(** ** The entry points of the fuzzer *)

(** A call made from outside (by an account) on a machine with recursion
    disabled, as the fuzzer configures it. *)
Record fuzz_call (env : Env) (caller addr : Address) (input : bytes) (gas v : Z) (e : EVM) : Prop := {
  fc_env : env_ok env;
  fc_norec : NoRecursion (vmConfig env) = true;
  fc_caller : address_ok caller;
  fc_addr : address_ok addr;
  fc_input : slice_ok input;
  fc_gas : 0 <= gas < modexpGasLimit;
  fc_value : 0 <= v;
  fc_evm : evm_ok e;
  fc_depth : 0 <= depth e
}.

(** C1: a top-level call of the fuzzer never panics and always returns: for
    every code, input, value and gas below 2^61, with any fuel above the gas,
    [EVM.Call] returns a result whose gas left is between 0 and the gas given,
    and the state database stays well formed. *)
Theorem fuzz_call_total env caller addr input gas v e fuel :
  fuzz_call env caller addr input gas v e -> gas < Z.of_nat fuel ->
  exists ret left_over err e',
    Call env (loop env fuel) (AccountRef caller) addr input gas v e = Ok (ret, left_over, err, e') /\
    0 <= left_over <= gas /\ db_ok (db e') /\ depth e' = depth e.
Proof.
  intros [H1 H2 H3 H4 H5 H6 H7 H8 H9] Hfuel.
  destruct (post_total _ _ (machine_Call_ok env False H1 (or_intror H2) fuel (AccountRef caller) addr
    input gas v e H3 H4 H5 ltac:(unfold is_u64, modexpGasLimit, two64 in *; lia) H7 H8 H9 Hfuel
    ltac:(intros _; split; right; [lia|by eexists])))
    as ([[[ret g] err] e'] & HE & (R1 & R2 & R3 & R4)).
  exists ret, g, err, e'. split; [exact HE|]. split; [done|]. split; [apply R3|apply R4].
Qed.

Lemma demo_fuzz_call : fuzz_call (demo_env true) alice bob [] 100 0 (NewEVM (with_bob add_overflow)).
Proof.
  split; try apply BigToAddress_ok; try done.
  - apply demo_env_ok.
  - apply slice_ok_nil.
  - by apply NewEVM_ok, with_bob_ok.
Qed.

Lemma fuzz_call_total_witness :
  exists ret left_over err e',
    Call (demo_env true) (loop (demo_env true) 101) (AccountRef alice) bob [] 100 0
      (NewEVM (with_bob add_overflow)) = Ok (ret, left_over, err, e') /\
    0 <= left_over <= 100 /\ db_ok (db e') /\ depth e' = 0.
Proof. apply (fuzz_call_total _ _ _ _ _ _ _ 101 demo_fuzz_call). lia. Defined.

(** C2: with recursion enabled a call may panic (see [shared_cache_panics]),
    but it always terminates: with any fuel above the gas the interpreter,
    including all nested calls, does not run out of fuel, and a call that
    returns gives back no more gas than it got. *)
Theorem call_terminates env caller addr input gas v e fuel :
  env_ok env -> ref_ok caller -> address_ok addr -> slice_ok input -> is_u64 gas -> 0 <= v ->
  evm_ok e -> 0 <= depth e -> gas < Z.of_nat fuel ->
  match Call env (loop env fuel) caller addr input gas v e with
  | Ok (_, left_over, _, e') => 0 <= left_over <= gas /\ db_ok (db e')
  | Panic => True
  | NoFuel => False
  end.
Proof.
  intros H1 H2 H3 H4 H5 H6 H7 H8 H9.
  pose proof (machine_Call_ok env True H1 (or_introl I) fuel caller addr input gas v e H2 H3 H4 H5 H6
    H7 H8 H9 ltac:(intros _; by split; left)) as H. cbn [evm_Call machine call_ops] in H.
  destruct (Call _ _ _ _ _ _ _ _) as [[[[ret g] err] e']| |]; [|done|done].
  destruct H as (R1 & R2 & R3 & R4). split; [done|apply R3].
Qed.

Lemma call_terminates_witness :
  match Call (demo_env false) (loop (demo_env false) 101) (AccountRef alice) bob [] 100 0
    (NewEVM (with_bob add_overflow)) with
  | Ok (_, left_over, _, e') => 0 <= left_over <= 100 /\ db_ok (db e')
  | Panic => True
  | NoFuel => False
  end.
Proof.
  apply (call_terminates (demo_env false)); [apply demo_env_ok|apply BigToAddress_ok|
    apply BigToAddress_ok|apply slice_ok_nil|by unfold is_u64, two64|done|
    by apply NewEVM_ok, with_bob_ok|done|lia].
Defined.

(** contract creation terminates under the same conditions and returns a
    well-formed address and database. *)
Theorem create_terminates env caller code gas v e fuel :
  env_ok env -> ref_ok caller -> slice_ok code -> is_u64 gas -> 0 <= v ->
  evm_ok e -> 0 <= depth e -> gas < Z.of_nat fuel ->
  match Create env (loop env fuel) caller code gas v e with
  | Ok (_, addr, left_over, _, e') => address_ok addr /\ 0 <= left_over <= gas /\ db_ok (db e')
  | Panic => True
  | NoFuel => False
  end.
Proof.
  intros H1 H2 H3 H4 H5 H6 H7 H8.
  pose proof (machine_Create_ok env True H1 (or_introl I) fuel caller code gas v e H2 H3 H4 H5 H6
    H7 H8 ltac:(intros _; by split; left)) as H. cbn [evm_Create machine call_ops] in H.
  destruct (Create _ _ _ _ _ _ _) as [[[[[ret a] g] err] e']| |]; [|done|done].
  destruct H as (R1 & R2 & R3 & R4 & R5). split; [done|]. split; [done|apply R4].
Qed.

Lemma create_terminates_witness :
  match Create (demo_env false) (loop (demo_env false) 101) (AccountRef alice) add_overflow 100 0
    (NewEVM New) with
  | Ok (_, addr, left_over, _, e') => address_ok addr /\ 0 <= left_over <= 100 /\ db_ok (db e')
  | Panic => True
  | NoFuel => False
  end.
Proof.
  apply (create_terminates (demo_env false)); [apply demo_env_ok|apply BigToAddress_ok|
    split; [by apply bytes_ok_dec|done]|by unfold is_u64, two64|done|apply NewEVM_ok, New_ok|done|lia].
Defined.

End Safety.
