(* ===== verification/Fuel.v ===== *)
(** * Fuel is not observable

    More fuel never changes a result: a run that ends with some fuel ends with
    the same result with any larger fuel.  [rle] is the information order on
    results ([NoFuel] below everything); the instructions are monotone in the
    call interface, hence so is the loop. *)

From stdpp Require Import base list numbers gmap option.
From S2P Require Import Prelude BigInt Types Params StateDB Opcodes Analysis Machine GasTable.
From S2P Require Import Instructions JumpTable Precompiles Interp Spec Safety.

#[local] Open Scope Z_scope.
#[local] Open Scope go_scope.

Module Fuel.
Import Common Vm Instr Table Interp Spec Concrete.

Definition rle {A} (r r' : result A) : Prop := r = NoFuel \/ r = r'.

#[export] Instance rle_preorder {A} : PreOrder (@rle A).
Proof. split; [by right|]. intros x y z [-> | ->] [-> | ->]; unfold rle; auto. Qed.

Lemma rle_bind {A B} (m m' : result A) (k k' : A -> result B) :
  rle m m' -> (forall a, rle (k a) (k' a)) -> rle (rbind m k) (rbind m' k').
Proof. intros [-> | ->] Hk; [by left|]. destruct m'; simpl; [apply Hk|by right..]. Qed.

(** Pointwise order on instructions, operations and call interfaces. *)
Definition mle {A} (m m' : M A) : Prop := forall f, rle (m f) (m' f).

Lemma mle_refl {A} (m : M A) : mle m m.
Proof. by right. Qed.

Lemma mle_bind {A B} (m m' : M A) (k k' : A -> M B) :
  mle m m' -> (forall a, mle (k a) (k' a)) -> mle (mbindM m k) (mbindM m' k').
Proof. intros Hm Hk f. apply rle_bind; [apply Hm|]. intros [a f']. apply Hk. Qed.

Lemma mle_lift {A} (r r' : result A) : rle r r' -> mle (lift r) (lift r').
Proof. intros H f. apply rle_bind; [done|]. by right. Qed.

Record ops_le (o o' : CallOps) : Prop := {
  le_Call : forall c a i g v e, rle (evm_Call o c a i g v e) (evm_Call o' c a i g v e);
  le_CallCode : forall c a i g v e, rle (evm_CallCode o c a i g v e) (evm_CallCode o' c a i g v e);
  le_DelegateCall : forall c a i g e, rle (evm_DelegateCall o c a i g e) (evm_DelegateCall o' c a i g e);
  le_StaticCall : forall c a i g e, rle (evm_StaticCall o c a i g e) (evm_StaticCall o' c a i g e);
  le_Create : forall c i g v e, rle (evm_Create o c i g v e) (evm_Create o' c i g v e)
}.

(** Two operations that differ in the results of their nested calls only. *)
Record op_le (o o' : operation) : Prop := {
  ol_execute : mle (execute o) (execute o');
  ol_gas : gasCost o = gasCost o';
  ol_stack : validateStack o = validateStack o';
  ol_mem : memorySize o = memorySize o';
  ol_halts : halts o = halts o';
  ol_jumps : jumps o = jumps o';
  ol_writes : writes o = writes o';
  ol_valid : valid o = valid o';
  ol_reverts : reverts o = reverts o';
  ol_returns : returns o = returns o'
}.

Lemma op_le_refl o : op_le o o.
Proof. split; try done. apply mle_refl. Qed.

Lemma op_le_mk ex ex' g st ms h j w v r rt :
  mle ex ex' -> op_le (mkOperation ex g st ms h j w v r rt) (mkOperation ex' g st ms h j w v r rt).
Proof. by split. Qed.

(** Compare two entries built with the same flags. *)
Ltac entry_le lem :=
  apply Forall2_cons; [split; [reflexivity|
    cbv beta iota delta [snd returning writing with_memory entry execute gasCost validateStack
      memorySize halts jumps writes valid reverts returns];
    apply op_le_mk, lem]|].

Section Order.
Context (env : Env) (ops ops' : CallOps).
Hypothesis Hle : ops_le ops ops'.

Ltac call_mono :=
  repeat first [apply mle_bind; [first [apply mle_refl | apply mle_lift; apply Hle]|intros]
               | apply mle_refl
               | match goal with |- context [let '(_, _) := ?x in _] => destruct x end].

Lemma opCall_le : mle (opCall ops) (opCall ops').
Proof. unfold opCall. call_mono. Qed.
Lemma opCallCode_le : mle (opCallCode ops) (opCallCode ops').
Proof. unfold opCallCode. call_mono. Qed.
Lemma opDelegateCall_le : mle (opDelegateCall ops) (opDelegateCall ops').
Proof. unfold opDelegateCall. call_mono. Qed.
Lemma opStaticCall_le : mle (opStaticCall ops) (opStaticCall ops').
Proof. unfold opStaticCall. call_mono. Qed.
Lemma opCreate_le : mle (opCreate env ops) (opCreate env ops').
Proof. unfold opCreate. call_mono. Qed.

(** The tables agree entry by entry. *)
Definition table_le (t t' : list (Z * operation)) : Prop :=
  Forall2 (fun e e' => fst e = fst e' /\ op_le (snd e) (snd e')) t t'.

Lemma table_le_refl t : table_le t t.
Proof. induction t as [|[o e] t IH]; constructor; [|done]. split; [done|apply op_le_refl]. Qed.

Lemma frontier_le : table_le (NewFrontierInstructionSet env ops) (NewFrontierInstructionSet env ops').
Proof.
  unfold NewFrontierInstructionSet. repeat (apply Forall2_app; [apply table_le_refl|]).
  unfold frontier_system.
  entry_le opCreate_le.
  entry_le opCall_le.
  entry_le opCallCode_le.
  apply table_le_refl.
Qed.

Lemma homestead_le : table_le (NewHomesteadInstructionSet env ops) (NewHomesteadInstructionSet env ops').
Proof.
  unfold NewHomesteadInstructionSet. entry_le opDelegateCall_le. apply frontier_le.
Qed.

Lemma byzantium_le : table_le (NewByzantiumInstructionSet env ops) (NewByzantiumInstructionSet env ops').
Proof.
  unfold NewByzantiumInstructionSet. entry_le opStaticCall_le.
  do 3 (apply Forall2_cons; [split; [done|apply op_le_refl]|]). apply homestead_le.
Qed.

Lemma JumpTable_le op : op_le (JumpTable env ops op) (JumpTable env ops' op).
Proof.
  unfold JumpTable.
  assert (H : table_le (instructionSet env ops) (instructionSet env ops')).
  { unfold instructionSet. repeat split_if; [apply byzantium_le|apply homestead_le|apply frontier_le]. }
  induction H as [|[o e] [o' e'] t t' [He1 He2] _ IH]; simpl; [apply op_le_refl|].
  simpl in *. subst. by destruct (o' =? op).
Qed.

Lemma perform_le o o' size f : op_le o o' -> rle (perform o size f) (perform o' size f).
Proof.
  intros [H1 _ _ _ H2 H3 _ _ H4 H5]. unfold perform. rewrite H2, H3, H4, H5.
  apply rle_bind; [|by right]. apply rle_bind; [apply H1|by right].
Qed.

Lemma step_le f : rle (step env ops f) (step env ops' f).
Proof.
  unfold step. split_if; [by right|].
  pose proof (JumpTable_le (GetOp (f_contract f) (f_pc f))) as Ho. destruct Ho as [] eqn:E. clear E.
  set (o := JumpTable env ops _) in *. set (o' := JumpTable env ops' _) in *.
  rewrite ol_valid0, ol_stack0. split_if; [by right|]. destruct (validateStack o' _); [by right|].
  apply rle_bind; [unfold enforceRestrictions; rewrite ol_writes0; by right|].
  intros [r|]; [by right|]. apply rle_bind; [unfold needed_memory; rewrite ol_mem0; by right|].
  intros [size|]; [|by right]. apply rle_bind; [unfold charge; rewrite ol_gas0; by right|].
  intros [[err|] f1]; [by right|]. apply perform_le. by split.
Qed.

End Order.

(** ** The calls are monotone in the loop *)

Section Calls.
Context (env : Env) (lp lp' : frame -> result (list Z * option vmerror * frame)).
Hypothesis Hlp : forall f, rle (lp f) (lp' f).

Lemma Run_le c i e : rle (Run lp c i e) (Run lp' c i e).
Proof. unfold Run. split_if; [by right|]. apply rle_bind; [apply Hlp|by right]. Qed.

Lemma run_le c i e : rle (run env lp c i e) (run env lp' c i e).
Proof.
  unfold run. destruct (CodeAddr c); [|apply Run_le].
  destruct (Precompiles.find_precompile _ _); [by right|apply Run_le].
Qed.

Lemma run_and_revert_le c i s e : rle (run_and_revert env lp c i s e) (run_and_revert env lp' c i s e).
Proof. apply rle_bind; [apply run_le|by right]. Qed.

Lemma call_ops_le : ops_le (call_ops env lp) (call_ops env lp').
Proof.
  split; intros; cbn [evm_Call evm_CallCode evm_DelegateCall evm_StaticCall evm_Create call_ops].
  - unfold Call. destruct (no_recursion env e); [by right|]. destruct (_ <? depth e); [by right|].
    destruct (StateDB.CanTransfer _ _ _) as [can d]. destruct can; cbn [negb]; [|by right].
    destruct (_ && (v =? 0)); [by right|]. apply run_and_revert_le.
  - unfold CallCode. destruct (no_recursion env e); [by right|]. destruct (_ <? depth e); [by right|].
    destruct (StateDB.CanTransfer _ _ _) as [can d]. destruct can; cbn [negb]; [|by right].
    apply run_and_revert_le.
  - unfold DelegateCall. destruct (no_recursion env e); [by right|].
    destruct (_ <? depth e); [by right|]. apply rle_bind; [by right|].
    intros. apply run_and_revert_le.
  - unfold StaticCall. destruct (no_recursion env e); [by right|].
    destruct (_ <? depth e); [by right|].
    apply rle_bind; [apply run_and_revert_le|by right].
  - unfold Create. destruct (_ <? depth e); [by right|].
    destruct (StateDB.CanTransfer _ _ _) as [can d]. destruct can; cbn [negb]; [|by right].
    destruct (_ || _); [by right|]. destruct (no_recursion env _); [by right|].
    apply rle_bind; [apply run_le|by right].
Qed.

End Calls.

Lemma loop_le_S env n f : rle (loop env n f) (loop env (S n) f).
Proof.
  revert f. induction n as [|n IH]; intros f; [by left|].
  change (loop env (S (S n)) f) with
    (rbind (step env (call_ops env (loop env (S n))) f) (fun o =>
      match o with Next f' => loop env (S n) f' | Done r e f' => Ok (r, e, f') end)).
  cbn [loop]. apply rle_bind; [apply step_le, call_ops_le, IH|].
  intros [f'|]; [apply IH|by right].
Qed.

Lemma loop_le env n m f : (n <= m)%nat -> rle (loop env n f) (loop env m f).
Proof. induction 1 as [|m _ IH]; [done|]. etrans; [apply IH|apply loop_le_S]. Qed.

Lemma Call_le env n m c a i g v e :
  (n <= m)%nat -> rle (Call env (loop env n) c a i g v e) (Call env (loop env m) c a i g v e).
Proof.
  intros H. apply (le_Call (call_ops env (loop env n)) (call_ops env (loop env m))).
  apply call_ops_le. intros. by apply loop_le.
Qed.

Lemma Call_fuel_wlog env n m c a i g v e :
  (n <= m)%nat -> Call env (loop env n) c a i g v e <> NoFuel ->
  Call env (loop env n) c a i g v e = Call env (loop env m) c a i g v e.
Proof. intros H Hn. by destruct (Call_le env n m c a i g v e H). Qed.

(** the fuel is not observable: two runs of the same call with any fuels
    above the gas give the same result, so the model is the one Go execution. *)
Theorem fuel_irrelevant env caller addr input gas v e n m :
  env_ok env -> Safety.ref_ok caller -> address_ok addr -> slice_ok input -> is_u64 gas -> 0 <= v ->
  evm_ok e -> 0 <= depth e -> gas < Z.of_nat n -> gas < Z.of_nat m ->
  Call env (loop env n) caller addr input gas v e = Call env (loop env m) caller addr input gas v e.
Proof.
  intros H1 H2 H3 H4 H5 H6 H7 H8 Hn Hm.
  assert (Hk : forall k, gas < Z.of_nat k -> Call env (loop env k) caller addr input gas v e <> NoFuel).
  { intros k Hk Hbad. pose proof (Safety.machine_Call_ok env True H1 (or_introl I) k caller addr input
      gas v e H2 H3 H4 H5 H6 H7 H8 Hk ltac:(intros _; by split; left)) as H.
    cbn [evm_Call machine call_ops] in H. by rewrite Hbad in H. }
  destruct (decide (n <= m)%nat).
  - apply Call_fuel_wlog; auto.
  - symmetry. apply Call_fuel_wlog; auto. lia.
Qed.

Lemma fuel_irrelevant_witness :
  Call (demo_env false) (loop (demo_env false) 101) (AccountRef alice) bob [] 100 0
    (NewEVM (with_bob add_overflow)) =
  Call (demo_env false) (loop (demo_env false) 300) (AccountRef alice) bob [] 100 0
    (NewEVM (with_bob add_overflow)).
Proof.
  apply (fuel_irrelevant (demo_env false)); [apply demo_env_ok|apply BigToAddress_ok|
    apply BigToAddress_ok|apply slice_ok_nil|by unfold is_u64, two64|done|
    by apply NewEVM_ok, with_bob_ok|done|lia|lia].
Defined.

End Fuel.
