(* ===== verification/Effects.v ===== *)
(** * What the instructions can change

    [quiet] relates two databases that differ in balances only.  [calm] lifts
    it to frames: the program counter, the running contract's identity and
    code, and the read-only flag are also unchanged.  Every instruction
    outside a short list is calm; the list is made of the marking
    instructions, [SSTORE], [LOG*], [SELFDESTRUCT], the jumps and pushes
    (which move the program counter) and the calls. *)

From stdpp Require Import base list numbers gmap option.
From S2P Require Import Prelude BigInt Types Params StateDB Opcodes Analysis Machine GasTable.
From S2P Require Import Instructions JumpTable Interp.

#[local] Open Scope Z_scope.
#[local] Open Scope go_scope.

Module Effects.
Import Op Common Params StateDB Analysis Vm Gas Instr Table Interp.

(** ** Databases *)

(** An account without its balance. *)
Definition core_of (s : State) : State := with_balance s 0.

Definition quiet (d d' : StateDB) : Prop :=
  Logs d' = Logs d /\ forall a, core_of (account_at d' a) = core_of (account_at d a).

#[export] Instance quiet_preorder : PreOrder quiet.
Proof.
  split; [by intros d|]. intros d1 d2 d3 [L1 H1] [L2 H2]. split; [congruence|].
  intros a. by rewrite H2, H1.
Qed.

Lemma quiet_equiv d d' : state_equiv d d' -> quiet d d'.
Proof. intros [H1 H2]. split; [done|]. intros a. by rewrite H1. Qed.

Lemma quiet_AddBalance d a v : quiet d (AddBalance d a v).
Proof.
  split; [apply Logs_AddBalance|]. intros b. rewrite account_at_AddBalance. by case_decide; subst.
Qed.

Lemma quiet_SubBalance d a v : quiet d (SubBalance d a v).
Proof.
  unfold SubBalance. destruct (StateMap d !! a) as [s|] eqn:E; [|done]. split; [done|].
  intros b. rewrite account_at_setAccount. case_decide; [|done]. subst.
  unfold account_at. by rewrite E.
Qed.

Lemma quiet_Transfer d a b v : quiet d (Transfer d a b v).
Proof. etrans; [apply quiet_SubBalance|apply quiet_AddBalance]. Qed.

Lemma quiet_GetBalance d a : quiet d (snd (GetBalance d a)).
Proof. apply quiet_AddBalance. Qed.
Lemma quiet_CanTransfer d a v : quiet d (snd (CanTransfer d a v)).
Proof. rewrite CanTransfer_snd. apply quiet_AddBalance. Qed.
Lemma quiet_ensure d a : quiet d (ensure d a).
Proof. apply quiet_equiv. symmetry. apply ensure_equiv. Qed.
Lemma quiet_GetState d a k : quiet d (snd (GetState d a k)).
Proof. apply quiet_ensure. Qed.
Lemma quiet_HasSuicided d a : quiet d (snd (HasSuicided d a)).
Proof. apply quiet_ensure. Qed.

Lemma quiet_slot d d' a k : quiet d d' -> slot d' a k = slot d a k.
Proof.
  intros [_ H]. unfold slot. specialize (H a). apply (f_equal storage) in H. simpl in H. by rewrite H.
Qed.

(** ** Frames *)

Record calm (f f' : frame) : Prop := mk_calm {
  cm_db : quiet (db (f_evm f)) (db (f_evm f'));
  cm_pc : f_pc f' = f_pc f;
  cm_readOnly : readOnly (f_evm f') = readOnly (f_evm f);
  cm_abort : abort (f_evm f') = abort (f_evm f);
  cm_depth : depth (f_evm f') = depth (f_evm f);
  cm_self : self (f_contract f') = self (f_contract f);
  cm_code : Code (f_contract f') = Code (f_contract f);
  cm_hash : CodeHash (f_contract f') = CodeHash (f_contract f)
}.

#[export] Instance calm_preorder : PreOrder calm.
Proof.
  split; [by intros f|]. intros f1 f2 f3 [] []. split; try congruence. by etrans.
Qed.

Definition calmM {A} (m : M A) : Prop := forall f a f', m f = Ok (a, f') -> calm f f'.

Lemma calm_ret {A} (a : A) : calmM (mret a).
Proof. intros f b f' [= _ <-]. done. Qed.

Lemma calm_bind {A B} (m : M A) (k : A -> M B) :
  calmM m -> (forall a, calmM (k a)) -> calmM (mbindM m k).
Proof.
  intros Hm Hk f b f' H. unfold mbindM in H. apply rbind_Ok_inv in H as ([a f1] & H1 & H2).
  etrans; [by eapply Hm|by eapply Hk].
Qed.

Lemma calm_lift {A} (r : result A) : calmM (lift r).
Proof. intros f a f' H. apply rbind_Ok_inv in H as (x & _ & [= _ <-]). done. Qed.

Lemma calm_pop : calmM pop.
Proof. intros f a f' H. apply rbind_Ok_inv in H as ([x st] & _ & [= _ <-]). done. Qed.
Lemma calm_push x : calmM (push x).
Proof. intros f a f' [= _ <-]. done. Qed.
Lemma calm_gets {A} (g : frame -> A) : calmM (gets g).
Proof. intros f a f' [= _ <-]. done. Qed.
Lemma calm_set_stack st : calmM (set_stack st).
Proof. intros f a f' [= _ <-]. done. Qed.
Lemma calm_set_mem m : calmM (set_mem m).
Proof. intros f a f' [= _ <-]. done. Qed.

Lemma calm_modify_db g : (forall d, quiet d (g d)) -> calmM (modify_db g).
Proof. intros H f a f' [= _ <-]. by split; [apply H|..]. Qed.

Lemma calm_run_db {A} (g : StateDB -> A * StateDB) : (forall d, quiet d (snd (g d))) -> calmM (run_db g).
Proof.
  intros H f a f' Hr. unfold run_db in Hr. specialize (H (db (f_evm f))).
  destruct (g (db (f_evm f))) as [x d]. injection Hr as _ <-. by split.
Qed.

Lemma calm_callback ev : calmM (callback ev).
Proof. intros f a f' [= _ <-]. done. Qed.

Lemma calm_back n : calmM (back n).
Proof. intros f a f' H. apply rbind_Ok_inv in H as (x & _ & [= _ <-]). done. Qed.
Lemma calm_memGet o s : calmM (memGet o s).
Proof. intros f a f' H. apply rbind_Ok_inv in H as (x & _ & [= _ <-]). done. Qed.
Lemma calm_memGetPtr o s : calmM (memGetPtr o s).
Proof. intros f a f' H. apply rbind_Ok_inv in H as (x & _ & [= _ <-]). done. Qed.
Lemma calm_memSet o s v : calmM (memSet o s v).
Proof. intros f a f' H. apply rbind_Ok_inv in H as (x & _ & [= _ <-]). done. Qed.

Lemma calm_refund_gas g : calmM (refund_gas g).
Proof. intros f a f' [= _ <-]. done. Qed.

Lemma calm_set_temp {A} (k : M A) t :
  calmM k -> calmM (let! e := gets f_evm in let! _ := set_evm (with_callGasTemp e t) in k).
Proof.
  intros Hk f a f' H. unfold mbindM, gets, set_evm in H. cbn [rbind] in H.
  apply Hk in H. etrans; [|done]. by split.
Qed.

Lemma calm_valid_dest pos : calmM (valid_dest pos).
Proof.
  intros f a f' H. unfold valid_dest, mbindM, gets, lift, set_evm in H. cbn [rbind] in H.
  destruct (has _ _ _ _) as [[b d]| |]; cbn [rbind] in H; [|done|done]. injection H as _ <-. done.
Qed.

Lemma calm_gas_ok g : calmM (gas_ok g).
Proof. apply calm_ret. Qed.
Lemma calm_gas_err e : calmM (gas_err e).
Proof. apply calm_ret. Qed.
Lemma calm_done_with r : calmM (done_with r).
Proof. apply calm_ret. Qed.
Lemma calm_fail_with e : calmM (fail_with e).
Proof. apply calm_ret. Qed.

(** ** Automation: calmness follows the structure of the code *)

Create HintDb calm discriminated.
#[export] Hint Resolve calm_gas_ok calm_gas_err calm_done_with calm_fail_with calm_ret calm_lift calm_pop calm_push calm_gets calm_set_stack calm_set_mem
  calm_callback calm_back calm_memGet calm_memGetPtr calm_memSet calm_refund_gas calm_valid_dest
  quiet_AddBalance quiet_GetBalance quiet_GetState quiet_HasSuicided : calm.

Ltac calm_go :=
  repeat first
    [ solve [auto with calm]
    | apply calm_bind; [|intros]
    | apply calm_modify_db; intros; (reflexivity || auto with calm)
    | apply calm_run_db; intros; auto with calm
    | match goal with
      | |- calmM (let '(_, _) := ?x in _) => destruct x
      | |- calmM (if ?b then _ else _) => destruct b
      | |- calmM (match ?b with _ => _ end) => destruct b
      end ].

(** ** Prices *)

Lemma calm_with_memory_gas size k : (forall g, calmM (k g)) -> calmM (with_memory_gas size k).
Proof. intros Hk. unfold with_memory_gas, gas_err. calm_go; done. Qed.
Lemma calm_safe_add a x k : (forall g, calmM (k g)) -> calmM (safe_add a x k).
Proof. intros Hk. unfold safe_add, gas_err. calm_go; done. Qed.
Lemma calm_safe_mul a x k : (forall g, calmM (k g)) -> calmM (safe_mul a x k).
Proof. intros Hk. unfold safe_mul, gas_err. calm_go; done. Qed.
Lemma calm_with_back_u64 n k : (forall g, calmM (k g)) -> calmM (with_back_u64 n k).
Proof. intros Hk. unfold with_back_u64, gas_err. calm_go; done. Qed.
Lemma calm_charge_call env g : calmM (charge_call env g).
Proof.
  unfold charge_call. apply calm_bind; [apply calm_gets|intros c]. apply calm_bind; [apply calm_back|intros r].
  destruct (callGas _ _ _ _) as [t err]. apply calm_set_temp.
  destruct err; [apply calm_ret|]. apply calm_safe_add. intros. apply calm_ret.
Qed.

Ltac calm_gas :=
  repeat first [apply calm_with_memory_gas; intros | apply calm_safe_add; intros
               | apply calm_safe_mul; intros | apply calm_with_back_u64; intros
               | apply calm_charge_call | progress calm_go].

Section Prices.
Context (env : Env).

Lemma calm_const g size : calmM (constGasFunc g size).
Proof. apply calm_ret. Qed.
Lemma calm_gas_copy b n w size : calmM (gas_copy b n w size).
Proof. unfold gas_copy. calm_gas. Qed.
Lemma calm_gas_mem_plus b size : calmM (gas_mem_plus b size).
Proof. unfold gas_mem_plus. calm_gas. Qed.
Lemma calm_makeGasLog n size : calmM (makeGasLog n size).
Proof. unfold makeGasLog. calm_gas. Qed.
Lemma calm_gasSStore size : calmM (gasSStore size).
Proof. unfold gasSStore, gas_ok. calm_gas. Qed.
Lemma calm_gasExp size : calmM (gasExp env size).
Proof. unfold gasExp. calm_gas. Qed.
Lemma calm_gasCall size : calmM (gasCall env size).
Proof. unfold gasCall. calm_gas. Qed.
Lemma calm_gasCallCode size : calmM (gasCallCode env size).
Proof. unfold gasCallCode. calm_gas. Qed.
Lemma calm_gasDelegateCall size : calmM (gasDelegateCall env size).
Proof. unfold gasDelegateCall. calm_gas. Qed.
Lemma calm_gasReturn size : calmM (gasReturn size).
Proof. unfold gasReturn. calm_gas. Qed.
Lemma calm_gasSuicide size : calmM (gasSuicide env size).
Proof. unfold gasSuicide, gas_ok. calm_gas. Qed.

Lemma calm_gasCallDataCopy size : calmM (gasCallDataCopy size).
Proof. apply calm_gas_copy. Qed.
Lemma calm_gasReturnDataCopy size : calmM (gasReturnDataCopy size).
Proof. apply calm_gas_copy. Qed.
Lemma calm_gasCodeCopy size : calmM (gasCodeCopy size).
Proof. apply calm_gas_copy. Qed.
Lemma calm_gasExtCodeCopy size : calmM (gasExtCodeCopy env size).
Proof. apply calm_gas_copy. Qed.
Lemma calm_gasSha3 size : calmM (gasSha3 size).
Proof. apply calm_gas_copy. Qed.
Lemma calm_gasMLoad size : calmM (gasMLoad size).
Proof. apply calm_gas_mem_plus. Qed.
Lemma calm_gasMStore size : calmM (gasMStore size).
Proof. apply calm_gas_mem_plus. Qed.
Lemma calm_gasMStore8 size : calmM (gasMStore8 size).
Proof. apply calm_gas_mem_plus. Qed.
Lemma calm_gasCreate size : calmM (gasCreate size).
Proof. apply calm_gas_mem_plus. Qed.
Lemma calm_gasBalance size : calmM (gasBalance env size).
Proof. apply calm_ret. Qed.
Lemma calm_gasExtCodeSize size : calmM (gasExtCodeSize env size).
Proof. apply calm_ret. Qed.
Lemma calm_gasSLoad size : calmM (gasSLoad env size).
Proof. apply calm_ret. Qed.
Lemma calm_gasPush size : calmM (gasPush size).
Proof. apply calm_ret. Qed.
Lemma calm_gasSwap size : calmM (gasSwap size).
Proof. apply calm_ret. Qed.
Lemma calm_gasDup size : calmM (gasDup size).
Proof. apply calm_ret. Qed.
Lemma calm_gasRevert size : calmM (gasRevert size).
Proof. apply calm_gasReturn. Qed.
Lemma calm_gasStaticCall size : calmM (gasStaticCall env size).
Proof. apply calm_gasDelegateCall. Qed.

End Prices.

#[export] Hint Resolve calm_const calm_makeGasLog calm_gasSStore calm_gasExp calm_gasCall
  calm_gasCallCode calm_gasDelegateCall calm_gasReturn calm_gasSuicide calm_gasCallDataCopy
  calm_gasReturnDataCopy calm_gasCodeCopy calm_gasExtCodeCopy calm_gasSha3 calm_gasMLoad
  calm_gasMStore calm_gasMStore8 calm_gasCreate calm_gasBalance calm_gasExtCodeSize calm_gasSLoad
  calm_gasPush calm_gasSwap calm_gasDup calm_gasRevert calm_gasStaticCall : calm.

Ltac table_entries tac :=
  unfold NewByzantiumInstructionSet, NewHomesteadInstructionSet, NewFrontierInstructionSet;
  do 5 (apply Forall_cons_2; [tac|]);
  rewrite !Forall_app;
  split; [unfold frontier_arith; do 12 (apply Forall_cons_2; [tac|]); apply Forall_nil_2|];
  split; [unfold frontier_logic; do 12 (apply Forall_cons_2; [tac|]); apply Forall_nil_2|];
  split; [unfold frontier_context; do 19 (apply Forall_cons_2; [tac|]); apply Forall_nil_2|];
  split; [unfold frontier_storage; do 12 (apply Forall_cons_2; [tac|]); apply Forall_nil_2|];
  split; [apply Forall_fmap, Forall_forall; intros ? Hin%List.in_seq; tac|];
  split; [apply Forall_fmap, Forall_forall; intros ? Hin%List.in_seq; tac|];
  split; [apply Forall_fmap, Forall_forall; intros ? Hin%List.in_seq; tac|];
  split; [apply Forall_fmap, Forall_forall; intros ? Hin%List.in_seq; tac|];
  unfold frontier_system; do 5 (apply Forall_cons_2; [tac|]); apply Forall_nil_2.

(** Every pricing function of every instruction set is calm. *)
Lemma gasCost_calm env ops op size :
  valid (JumpTable env ops op) = true -> calmM (gasCost (JumpTable env ops op) size).
Proof.
  apply (JumpTable_forall (fun _ o => calmM (gasCost o size))).
  table_entries ltac:(cbn [fst snd gasCost entry halting jumping writing reverting returning with_memory
    compose push_entry dup_entry swap_entry log_entry]; auto with calm).
Qed.

Lemma charge_calm env o size : calmM (gasCost o size) -> calmM (charge env o size).
Proof.
  intros Hg f a f' H. unfold charge in H. destruct (negb _); [|by injection H as _ <-].
  unfold mbindM at 1 in H. apply rbind_Ok_inv in H as ([[cost err] f1] & H1 & H2).
  apply Hg in H1. etrans; [exact H1|]. clear H1.
  destruct err; [by injection H2 as _ <-|]. unfold mbindM, gets in H2. cbn [rbind] in H2.
  unfold UseGas in H2. destruct (_ <? cost); injection H2 as _ <-; by split.
Qed.

(** ** Instructions that are not in the list *)

Definition moves_pc (op : Z) : bool := (op =? JUMP) || (op =? JUMPI) || IsPush op.
Definition marks_overflow (op : Z) : bool := (op =? ADD) || (op =? SUB) || (op =? MUL) || (op =? DIV).
Definition is_call (op : Z) : bool :=
  (op =? CALL) || (op =? CALLCODE) || (op =? DELEGATECALL) || (op =? STATICCALL) || (op =? CREATE).
Definition is_log (op : Z) : bool := (LOG0 <=? op) && (op <=? LOG4).

Definition calm_op (op : Z) : bool :=
  negb (moves_pc op) && negb (marks_overflow op) && negb (is_call op) && negb (is_log op) &&
  negb (op =? SSTORE) && negb (op =? SELFDESTRUCT).

Ltac head t := match t with ?f _ => head f | _ => t end.
Ltac unfold_op := match goal with |- calmM ?m => let h := head m in unfold h end.

Lemma calm_makeDup n : calmM (makeDup n).
Proof. unfold makeDup. calm_go. Qed.
Lemma calm_makeSwap n : calmM (makeSwap n).
Proof. unfold makeSwap. calm_go. Qed.

Lemma push_not_calm n : (1 <= n < 1 + 32)%nat -> calm_op (PUSH1 + Z.of_nat n - 1) = false.
Proof.
  intros Hn. unfold calm_op, moves_pc. assert (IsPush (PUSH1 + Z.of_nat n - 1) = true) as ->.
  { unfold IsPush, PUSH1, PUSH32. apply andb_true_iff. rewrite !Z.leb_le. lia. }
  by rewrite orb_true_r.
Qed.

Lemma log_not_calm n : (0 <= n < 0 + 5)%nat -> calm_op (LOG0 + Z.of_nat n) = false.
Proof.
  intros Hn. unfold calm_op. assert (is_log (LOG0 + Z.of_nat n) = true) as ->.
  { unfold is_log, LOG0, LOG4. apply andb_true_iff. rewrite !Z.leb_le. lia. }
  by rewrite !andb_false_r.
Qed.

Ltac calm_entry :=
  cbn [fst snd execute entry halting jumping writing reverting returning with_memory
    compose push_entry dup_entry swap_entry log_entry];
  first [ discriminate
        | rewrite push_not_calm by lia; discriminate
        | rewrite log_not_calm by lia; discriminate
        | intros _; first [apply calm_makeDup | apply calm_makeSwap | unfold_op; calm_go] ].

Lemma execute_calm env ops op :
  valid (JumpTable env ops op) = true -> calm_op op = true ->
  calmM (execute (JumpTable env ops op)).
Proof.
  apply (JumpTable_forall (fun op o => calm_op op = true -> calmM (execute o))).
  table_entries calm_entry.
Qed.

End Effects.
