(* ===== verification/Static.v ===== *)
(** * Static calls

    In read-only mode (Byzantium's [STATICCALL]) the interpreter rejects the
    writing instructions.  What is left can still change the database in two
    ways: reading a balance adds to it ([StateDB.GetBalance]), and the
    instrumented arithmetic stores overflow markers.  [static_rel] says that
    nothing else changes; [static_call_preserves] proves it for whole call
    trees. *)

From stdpp Require Import base list numbers gmap option.
From S2P Require Import Prelude BigInt Types Params StateDB Opcodes Analysis Machine GasTable.
From S2P Require Import Instructions JumpTable Precompiles Interp Spec Effects.

#[local] Open Scope Z_scope.
#[local] Open Scope go_scope.

Module Static.
Import Op Common Params StateDB Analysis Vm Gas Instr Table Interp Effects Concrete.

(** The storage keys of the overflow markers. *)
Definition marker_keys : list Hash :=
  [StringToHash keyAdd; StringToHash keySub; StringToHash keyMul; StringToHash keyDiv].

Record static_rel (d d' : StateDB) : Prop := mk_static {
  sr_logs : Logs d' = Logs d;
  sr_nonce : forall a, nonce (account_at d' a) = nonce (account_at d a);
  sr_code : forall a, code (account_at d' a) = code (account_at d a);
  sr_suicide : forall a, isSuicide (account_at d' a) = isSuicide (account_at d a);
  sr_slot : forall a k, k ∉ marker_keys -> slot d' a k = slot d a k
}.

#[export] Instance static_rel_preorder : PreOrder static_rel.
Proof.
  split; [by intros d|]. intros d1 d2 d3 [] []. split; [congruence|intros..].
  - by rewrite sr_nonce1, sr_nonce0.
  - by rewrite sr_code1, sr_code0.
  - by rewrite sr_suicide1, sr_suicide0.
  - by rewrite sr_slot1, sr_slot0.
Qed.

Lemma quiet_static d d' : quiet d d' -> static_rel d d'.
Proof.
  intros H. pose proof (proj2 H) as Hc. split; [apply H|intros..].
  - specialize (Hc a). by apply (f_equal nonce) in Hc.
  - specialize (Hc a). by apply (f_equal code) in Hc.
  - specialize (Hc a). by apply (f_equal isSuicide) in Hc.
  - by apply quiet_slot.
Qed.

Lemma SetState_static d a k v : k ∈ marker_keys -> static_rel d (SetState d a k v).
Proof.
  intros Hk. split; [apply Logs_SetState|intros..].
  - rewrite account_at_SetState. by case_decide; subst.
  - rewrite account_at_SetState. by case_decide; subst.
  - rewrite account_at_SetState. by case_decide; subst.
  - rewrite slot_SetState. case_decide as Hd; [|done]. destruct Hd as [_ ->]. done.
Qed.

(** ** Machine level *)

Definition static_evm (e e' : EVM) : Prop :=
  static_rel (db e) (db e') /\ readOnly e' = readOnly e.

#[export] Instance static_evm_preorder : PreOrder static_evm.
Proof.
  split; [by intros e|]. intros e1 e2 e3 [H1 H2] [H3 H4]. split; [by etrans|congruence].
Qed.

(** Nested calls in read-only mode. *)
Record ops_static (o : CallOps) : Prop := {
  os_Call : forall c a i g v e r, evm_Call o c a i g v e = Ok r -> readOnly e = true -> static_evm e (snd r);
  os_CallCode : forall c a i g v e r, evm_CallCode o c a i g v e = Ok r -> readOnly e = true -> static_evm e (snd r);
  os_DelegateCall : forall c a i g e r, evm_DelegateCall o c a i g e = Ok r -> readOnly e = true -> static_evm e (snd r);
  os_StaticCall : forall c a i g e r, evm_StaticCall o c a i g e = Ok r -> readOnly e = true -> static_evm e (snd r)
}.

Definition staticM {A} (m : M A) : Prop :=
  forall f a f', m f = Ok (a, f') -> readOnly (f_evm f) = true -> static_evm (f_evm f) (f_evm f').

Lemma static_of_calm {A} (m : M A) : calmM m -> staticM m.
Proof.
  intros H f a f' Hm _. apply H in Hm. split; [apply quiet_static|]; apply Hm.
Qed.

Lemma static_bind {A B} (m : M A) (k : A -> M B) :
  staticM m -> (forall a, staticM (k a)) -> staticM (mbindM m k).
Proof.
  intros Hm Hk f b f' H Hr. unfold mbindM in H. apply rbind_Ok_inv in H as ([a f1] & H1 & H2).
  pose proof (Hm _ _ _ H1 Hr) as Hs. etrans; [exact Hs|]. eapply Hk; [exact H2|].
  destruct Hs as [_ ->]. done.
Qed.

Lemma static_set_pc pc : staticM (set_pc pc).
Proof. intros f a f' [= _ <-] _. done. Qed.

Lemma static_mark_if b key : StringToHash key ∈ marker_keys -> staticM (mark_if b key).
Proof.
  intros Hk. destruct b; [|apply static_of_calm, calm_ret].
  intros f a f' [= _ <-] _. split; [|done]. by apply SetState_static.
Qed.

Ltac static_go :=
  repeat first
    [ apply static_set_pc
    | apply static_mark_if; unfold marker_keys; set_solver
    | apply static_of_calm; solve [auto with calm]
    | apply static_bind; [|intros]
    | match goal with
      | |- staticM (if ?b then _ else _) => destruct b
      | |- staticM (let '(_, _) := ?x in _) => destruct x
      end ].

(** The return to the caller: the machine of the callee is installed. *)
Lemma finish_call_static ro rs ret g err e' f a f' :
  finish_call ro rs (ret, g, err, e') f = Ok (a, f') -> static_evm e' (f_evm f').
Proof.
  unfold finish_call, mbindM, set_evm, push, refund_gas. cbn [rbind].
  intros H. apply rbind_Ok_inv in H as ([u f1] & H1 & H2). injection H2 as _ <-. cbn [f_evm].
  destruct (_ || _).
  - unfold memSet in H1. apply rbind_Ok_inv in H1 as (m & _ & [= _ <-]). done.
  - injection H1 as _ <-. done.
Qed.

(** Instructions that read the machine [e0] first and install another one at
    the end: [from e0 Q m] says that the machine installed satisfies [Q]. *)
Definition from {A} (e0 : EVM) (Q : EVM -> Prop) (m : M A) : Prop :=
  forall f b f', f_evm f = e0 -> m f = Ok (b, f') -> Q (f_evm f').

Definition evm_same {A} (m : M A) : Prop := forall f a f', m f = Ok (a, f') -> f_evm f' = f_evm f.

Lemma same_pop : evm_same pop.
Proof. intros f a f' H. by apply rbind_Ok_inv in H as ([x st] & _ & [= _ <-]). Qed.
Lemma same_gets {A} (g : frame -> A) : evm_same (gets g).
Proof. by intros f a f' [= _ <-]. Qed.
Lemma same_memGet o s : evm_same (memGet o s).
Proof. intros f a f' H. by apply rbind_Ok_inv in H as (x & _ & [= _ <-]). Qed.

Lemma from_evm {A} e0 Q (k : EVM -> M A) : from e0 Q (k e0) -> from e0 Q (mbindM (gets f_evm) k).
Proof. intros Hk f b f' <- H. by eapply Hk. Qed.

Lemma from_same {A B} e0 Q (m : M A) (k : A -> M B) :
  evm_same m -> (forall a, from e0 Q (k a)) -> from e0 Q (mbindM m k).
Proof.
  intros Hm Hk f b f' Hf H. unfold mbindM in H. apply rbind_Ok_inv in H as ([a f1] & H1 & H2).
  eapply Hk; [|exact H2]. apply Hm in H1. congruence.
Qed.

Lemma from_lift {A B} e0 Q (r : result A) (k : A -> M B) :
  (forall a, r = Ok a -> from e0 Q (k a)) -> from e0 Q (mbindM (lift r) k).
Proof.
  intros Hk f b f' Hf H. unfold mbindM, lift in H. apply rbind_Ok_inv in H as ([a f1] & H1 & H2).
  apply rbind_Ok_inv in H1 as (x & H0 & [= <- <-]). by eapply Hk.
Qed.

Ltac call_static os :=
  intros f a f' H Hr;
  refine ((_ : from (f_evm f) (static_evm (f_evm f)) _) f a f' eq_refl H);
  repeat first [ apply from_evm
               | apply from_same; [first [apply same_pop | apply same_gets | apply same_memGet]|intros] ];
  apply from_lift; intros [[[ret g] err] e'] Hcall;
  intros f1 b f2 _ H2; apply finish_call_static in H2;
  etrans; [by eapply (os _ ltac:(eassumption)) in Hcall|exact H2].

Section Ops.
Context (env : Env) (ops : CallOps).
Hypothesis Hops : ops_static ops.

Lemma opCall_static : staticM (opCall ops).
Proof. unfold opCall. call_static os_Call. Qed.
Lemma opCallCode_static : staticM (opCallCode ops).
Proof. unfold opCallCode. call_static os_CallCode. Qed.
Lemma opDelegateCall_static : staticM (opDelegateCall ops).
Proof. unfold opDelegateCall. call_static os_DelegateCall. Qed.
Lemma opStaticCall_static : staticM (opStaticCall ops).
Proof. unfold opStaticCall. call_static os_StaticCall. Qed.

Lemma opAdd_static : staticM opAdd.
Proof. unfold opAdd. static_go. Qed.
Lemma opSub_static : staticM opSub.
Proof. unfold opSub. static_go. Qed.
Lemma opMul_static : staticM opMul.
Proof. unfold opMul. static_go. Qed.
Lemma opDiv_static : staticM opDiv.
Proof. unfold opDiv. static_go. Qed.
Lemma opJump_static : staticM opJump.
Proof. unfold opJump. static_go. Qed.
Lemma opJumpi_static : staticM opJumpi.
Proof. unfold opJumpi. static_go. Qed.
Lemma makePush_static n m : staticM (makePush n m).
Proof. unfold makePush. static_go. Qed.

Ltac static_entry :=
  cbn [fst snd execute writes entry halting jumping writing reverting returning with_memory
    compose push_entry dup_entry swap_entry log_entry];
  first [ by left
        | right; first [ apply opCall_static | apply opCallCode_static | apply opDelegateCall_static
          | apply opStaticCall_static | apply opAdd_static | apply opSub_static | apply opMul_static
          | apply opDiv_static | apply opJump_static | apply opJumpi_static | apply makePush_static
          | apply static_of_calm; first [apply calm_makeDup | apply calm_makeSwap | unfold_op; calm_go] ] ].

(** An instruction either is rejected in read-only mode or is static. *)
Lemma execute_static op :
  valid (JumpTable env ops op) = true ->
  writes (JumpTable env ops op) = true \/ staticM (execute (JumpTable env ops op)).
Proof.
  apply (JumpTable_forall (fun _ o => writes o = true \/ staticM (execute o))).
  table_entries static_entry.
Qed.

End Ops.

(** ** Runs *)

Definition frame_of (o : outcome) : frame := match o with Next f => f | Done _ _ f => f end.

Section Runs.
Context (env : Env).
Hypothesis Hbyz : RIsByzantium (chainRules env) = true.

Lemma perform_static o size f oc :
  staticM (execute o) -> perform o size f = Ok oc -> readOnly (f_evm f) = true ->
  static_evm (f_evm f) (f_evm (frame_of oc)).
Proof.
  intros Hs H Hr. unfold perform in H.
  apply rbind_Ok_inv in H as ([[res err] f1] & H1 & [= <-]).
  apply rbind_Ok_inv in H1 as ([[r x] f2] & H1 & [= -> -> ->]).
  assert (Hf : static_evm (f_evm f) (f_evm f1)).
  { pose proof (Hs _ _ _ H1) as Hx. destruct (0 <? size); by apply Hx. }
  by destruct (returns o), err, (reverts o), (halts o), (negb (jumps o)).
Qed.

(** One iteration in read-only mode. *)
Lemma step_static ops f oc :
  ops_static ops -> step env ops f = Ok oc -> readOnly (f_evm f) = true ->
  static_evm (f_evm f) (f_evm (frame_of oc)).
Proof.
  intros Hops H Hr. unfold step in H. destruct (negb (abort _ =? 0)); [by injection H as <-|].
  set (op := GetOp _ _) in *. destruct (valid (JumpTable env ops op)) eqn:Hv; cbn [negb] in H;
    [|by injection H as <-].
  destruct (validateStack _ _); [by injection H as <-|].
  apply rbind_Ok_inv in H as (restricted & Hres & H).
  destruct restricted as [err|]; [by injection H as <-|].
  assert (Hw : writes (JumpTable env ops op) = false).
  { unfold enforceRestrictions in Hres. rewrite Hbyz, Hr in Hres. by destruct (writes _). }
  apply rbind_Ok_inv in H as (need & _ & H). destruct need as [size|]; [|by injection H as <-].
  apply rbind_Ok_inv in H as ([err f1] & Hch & H).
  pose proof (charge_calm env _ size (gasCost_calm env ops op size Hv)) as Hcalm.
  pose proof (static_of_calm _ Hcalm _ _ _ Hch Hr) as Hs1.
  destruct err as [err|]; [by injection H as <-|].
  destruct (execute_static env ops Hops op Hv) as [Hbad|Hex]; [congruence|].
  etrans; [exact Hs1|]. eapply perform_static; [exact Hex|exact H|]. destruct Hs1 as [_ ->]. done.
Qed.

Definition loop_static (lp : frame -> result (list Z * option vmerror * frame)) : Prop :=
  forall f r err f', lp f = Ok (r, err, f') -> readOnly (f_evm f) = true ->
  static_evm (f_evm f) (f_evm f').

Section Calls.
Context (lp : frame -> result (list Z * option vmerror * frame)).
Hypothesis Hlp : loop_static lp.

Lemma run_static c i e r err c' e' :
  run env lp c i e = Ok (r, err, c', e') -> readOnly e = true -> static_evm e e'.
Proof.
  assert (HR : forall r err c' e', Run lp c i e = Ok (r, err, c', e') -> readOnly e = true -> static_evm e e').
  { clear r err c' e'. intros r err c' e' H Hr. unfold Run in H. destruct (_ =? 0); [by injection H as _ _ _ <-|].
    apply rbind_Ok_inv in H as ([[ret er] f'] & H1 & [= _ _ _ <-]).
    exact (Hlp _ _ _ _ H1 Hr). }
  unfold run. destruct (CodeAddr c); [|apply HR]. destruct (Precompiles.find_precompile _ _); [|apply HR].
  intros H Hr. by apply rbind_Ok_inv in H as ([[ret er] c2] & H1 & [= _ _ _ <-]).
Qed.

Lemma run_and_revert_static c i s e r :
  run_and_revert env lp c i s e = Ok r -> readOnly e = true -> static_evm e (snd r).
Proof.
  intros H Hr. unfold run_and_revert in H.
  apply rbind_Ok_inv in H as ([[[ret err] c'] e'] & H1 & H2).
  pose proof (run_static _ _ _ _ _ _ _ H1 Hr). by destruct err; injection H2 as <-.
Qed.

Lemma quiet_evm e d : quiet (db e) d -> static_evm e (with_db e d).
Proof. intros H. split; [by apply quiet_static|done]. Qed.

Lemma call_ops_static : ops_static (call_ops env lp).
Proof.
  split; intros until r; cbn [evm_Call evm_CallCode evm_DelegateCall evm_StaticCall call_ops]; intros H Hr.
  - unfold Call in H. destruct (no_recursion env e); [by injection H as <-|].
    destruct (_ <? depth e); [by injection H as <-|].
    pose proof (quiet_CanTransfer (db e) (ref_Address c) v) as Hq.
    destruct (CanTransfer _ _ _) as [can d]. pose proof (quiet_evm e d Hq) as Hd.
    destruct can; cbn [negb] in H; [|by injection H as <-]. unfold Exist in H. cbn [negb andb] in H.
    apply run_and_revert_static in H; [|exact Hr]. etrans; [|exact H].
    etrans; [exact Hd|]. apply (quiet_evm (with_db e d)), quiet_Transfer.
  - unfold CallCode in H. destruct (no_recursion env e); [by injection H as <-|].
    destruct (_ <? depth e); [by injection H as <-|].
    pose proof (quiet_CanTransfer (db e) (ref_Address c) v) as Hq.
    destruct (CanTransfer _ _ _) as [can d]. pose proof (quiet_evm e d Hq) as Hd.
    destruct can; cbn [negb] in H; [|by injection H as <-].
    apply run_and_revert_static in H; [|exact Hr]. etrans; [exact Hd|exact H].
  - unfold DelegateCall in H. destruct (no_recursion env e); [by injection H as <-|].
    destruct (_ <? depth e); [by injection H as <-|].
    apply rbind_Ok_inv in H as (c2 & _ & H). exact (run_and_revert_static _ _ _ _ _ H Hr).
  - unfold StaticCall in H. destruct (no_recursion env e); [by injection H as <-|].
    destruct (_ <? depth e); [by injection H as <-|]. rewrite Hr in H. cbn [negb] in H.
    apply rbind_Ok_inv in H as ([[[ret g'] err] e'] & H & [= <-]). exact (run_and_revert_static _ _ _ _ _ H Hr).
Qed.

End Calls.

Lemma loop_is_static n : loop_static (loop env n).
Proof.
  induction n as [|n IH]; intros f r err f' H Hr; [done|]. cbn [loop] in H.
  apply rbind_Ok_inv in H as (oc & H1 & H2).
  apply step_static in H1; [|by apply call_ops_static|done].
  destruct oc as [f1|r1 e1 f1]; simpl in *.
  - etrans; [exact H1|]. eapply IH; [exact H2|]. destruct H1 as [_ ->]. done.
  - injection H2 as _ _ <-. done.
Qed.

End Runs.

(** C3: a static call preserves the state: whatever code runs, at any depth,
    with any fuel, [EVM.StaticCall] under the Byzantium rules leaves logs,
    nonces, code, self-destruct flags and every storage slot of every account
    as they were, except the four overflow-marker slots (and balances, which
    [GetBalance] tops up), and restores the read-only flag. *)
Theorem static_call_preserves env fuel caller addr input gas e ret left_over err e' :
  RIsByzantium (chainRules env) = true ->
  StaticCall env (loop env fuel) caller addr input gas e = Ok (ret, left_over, err, e') ->
  static_rel (db e) (db e') /\ readOnly e' = readOnly e.
Proof.
  intros Hbyz H. unfold StaticCall in H. destruct (no_recursion env e); [by injection H as _ _ _ <-|].
  destruct (_ <? depth e); [by injection H as _ _ _ <-|].
  apply rbind_Ok_inv in H as ([[[r g] x] e1] & H & [= _ _ _ <-]).
  apply (run_and_revert_static env) in H as [H1 H2];
    [|by apply loop_is_static|by destruct (readOnly e) eqn:E; cbn].
  cbn [snd] in *. destruct (readOnly e) eqn:E; cbn in *; split; try done; congruence.
Qed.

(** The callee of [static_call_preserves_witness]: it overflows, so it stores a
    marker, then tries to store 1 at key 1, which is rejected. *)
Definition overflow_and_store : bytes :=
  [0x7f] ++ replicate 32 255 ++ [0x60; 2; 0x01; 0x60; 1; 0x60; 1; 0x55; 0x00].

Definition static_demo :=
  value_of (StaticCall (demo_env false) (loop (demo_env false) 40) (AccountRef alice) bob [] 1000
    (NewEVM (with_bob overflow_and_store))) ([], 0, None, NewEVM New).

(** The static call at [bob]: it fails with the write protection and leaves
    slot 1 empty, but the addition marker has been written. *)
Lemma static_call_preserves_witness :
  static_rel (with_bob overflow_and_store) (db (snd static_demo)) /\
  snd (fst static_demo) = Some errWriteProtection /\
  slot (db (snd static_demo)) bob (BigToHash 1) = zeroHash /\
  slot (db (snd static_demo)) bob (StringToHash keyAdd) = BigToHash 35.
Proof.
  split; [|by vm_compute].
  apply (static_call_preserves (demo_env false) 40 (AccountRef alice) bob [] 1000
    (NewEVM (with_bob overflow_and_store)) (fst (fst (fst static_demo))) (snd (fst (fst static_demo)))
    (snd (fst static_demo)) (snd static_demo) eq_refl).
  rewrite <- !surjective_pairing. apply is_ok_value. by vm_compute.
Defined.

End Static.
