(* ===== verification/Taint.v ===== *)
(** * Overflow markers

    The purpose of the instrumented machine: an arithmetic instruction whose
    exact result does not fit a word leaves a marker in the storage of the
    running contract.  The file shows that the markers mean what the detector
    reads into them: each instrumented instruction marks exactly on overflow,
    markers are distinct and never zero, and over a whole run with recursion
    disabled a marker slot changes only where an overflow happened or the
    contract itself stored to that slot. *)

From Stdlib Require Import String.
From stdpp Require Import base list numbers gmap option.
From S2P Require Import Prelude BigInt Types Params StateDB Opcodes Analysis Machine GasTable.
From S2P Require Import Instructions JumpTable Precompiles Interp Spec GasSpec.
From S2P Require Import ExecSpec PrecompileSpec Safety Effects Static.

#[local] Open Scope Z_scope.
#[local] Open Scope go_scope.

Module Taint.
Import Op Big Common Params StateDB Analysis Vm Gas Instr Table Interp Effects Static Spec Concrete.

(** ** The instrumented instructions *)

(** The machine after marking [key], or unchanged. *)
Definition marked (b : bool) (key : string) (f : frame) : EVM :=
  if b then with_db (f_evm f)
    (SetState (db (f_evm f)) (self (f_contract f)) (StringToHash key) (pcHash (f_pc f)))
  else f_evm f.

Definition binop_frame (e : EVM) (v : Z) (f : frame) : frame :=
  mkFrame (f_pc f) e (f_contract f) (f_mem f) (v :: drop 2 (f_stack f)).

Lemma U256_fits x : (x =? U256 x) = bool_decide (is_word x).
Proof.
  destruct (Z.eqb_spec x (U256 x)) as [H|H]; symmetry.
  - apply bool_decide_eq_true. rewrite H. apply U256_range.
  - apply bool_decide_eq_false. intros Hw. apply H. by rewrite U256_id.
Qed.

Lemma push_marked f x y st key v b :
  f_stack f = x :: y :: st ->
  (let! _ := push v in let! _ := mark_if b key in done_with [])
    (mkFrame (f_pc f) (f_evm f) (f_contract f) (f_mem f) st) =
  Ok (([], None), binop_frame (marked b key f) v f).
Proof. intros Hst. unfold binop_frame. rewrite Hst. by destruct b. Qed.

Section Instrumented.
Context (f : frame) (x y : Z) (st : list Z).
Hypothesis Hst : f_stack f = x :: y :: st.

Ltac two_pops := unfold mbindM at 1 2, pop at 1 2; rewrite Hst; cbn [rbind st_pop f_stack f_pc f_evm f_contract f_mem].

Lemma opAdd_eq :
  opAdd f = Ok (([], None),
    binop_frame (marked (negb (bool_decide (is_word (x + y)))) keyAdd f) (U256 (x + y)) f).
Proof. unfold opAdd. two_pops. rewrite U256_fits. by apply (push_marked f x y). Qed.

Lemma opSub_eq :
  opSub f = Ok (([], None),
    binop_frame (marked (negb (bool_decide (is_word (x - y)))) keySub f) (U256 (x - y)) f).
Proof. unfold opSub. two_pops. rewrite U256_fits. by apply (push_marked f x y). Qed.

Lemma opMul_eq :
  opMul f = Ok (([], None),
    binop_frame (marked (negb (bool_decide (is_word (x * y)))) keyMul f) (U256 (x * y)) f).
Proof. unfold opMul. two_pops. rewrite U256_fits. by apply (push_marked f x y). Qed.

Lemma opDiv_eq :
  opDiv f = Ok (([], None),
    if y =? 0 then binop_frame (f_evm f) 0 f
    else binop_frame (marked (negb (bool_decide (is_word (x / y)))) keyDiv f) (U256 (x / y)) f).
Proof.
  unfold opDiv. two_pops. destruct (y =? 0); cbn [negb].
  - unfold binop_frame. by rewrite Hst.
  - rewrite U256_fits. unfold binop_frame. rewrite Hst. by destruct (negb _).
Qed.

End Instrumented.

Lemma word_sum x y : is_word x -> is_word y -> negb (bool_decide (is_word (x + y))) = (two256 <=? x + y).
Proof.
  unfold is_word. intros. case_bool_decide; simpl; symmetry; [apply Z.leb_gt|apply Z.leb_le]; lia.
Qed.
Lemma word_diff x y : is_word x -> is_word y -> negb (bool_decide (is_word (x - y))) = (x <? y).
Proof.
  unfold is_word. intros. case_bool_decide; simpl; symmetry; [apply Z.ltb_ge|apply Z.ltb_lt]; lia.
Qed.
Lemma word_prod x y : is_word x -> is_word y -> negb (bool_decide (is_word (x * y))) = (two256 <=? x * y).
Proof.
  unfold is_word. intros. case_bool_decide; simpl; symmetry; [apply Z.leb_gt|apply Z.leb_le]; nia.
Qed.
Lemma word_quot x y : is_word x -> is_word y -> y <> 0 -> is_word (x / y).
Proof.
  unfold is_word. intros [] [] ?. split; [apply Z.div_pos; lia|].
  assert (x / y <= x) by (apply Z.div_le_upper_bound; nia). lia.
Qed.

(** C4: the instrumented instructions are exact on words: ADD, SUB and MUL
    push the result modulo 2^256 and store the program counter at their marker
    key exactly when the true result leaves the word range (a sum or product of
    2^256 or more, a negative difference); DIV pushes the quotient (0 for a
    zero divisor) and never marks; nothing else of the frame changes. *)
Theorem arith_marks_exactly f x y st :
  f_stack f = x :: y :: st -> is_word x -> is_word y ->
  opAdd f = Ok (([], None), binop_frame (marked (two256 <=? x + y) keyAdd f) ((x + y) mod two256) f) /\
  opSub f = Ok (([], None), binop_frame (marked (x <? y) keySub f) ((x - y) mod two256) f) /\
  opMul f = Ok (([], None), binop_frame (marked (two256 <=? x * y) keyMul f) ((x * y) mod two256) f) /\
  opDiv f = Ok (([], None), binop_frame (f_evm f) (if y =? 0 then 0 else x / y) f).
Proof.
  intros Hst Hx Hy. change two256 with tt256 at 2 3 5. rewrite <- !U256_mod.
  rewrite (opAdd_eq f x y st Hst), (opSub_eq f x y st Hst), (opMul_eq f x y st Hst),
    (opDiv_eq f x y st Hst), word_sum, word_diff, word_prod by done.
  repeat split. destruct (Z.eqb_spec y 0) as [->|Hne]; [done|].
  pose proof (word_quot x y Hx Hy Hne). rewrite bool_decide_true, U256_id by done. done.
Qed.

Lemma arith_marks_exactly_witness :
  let f := mkFrame 7 (NewEVM New) (NewContract (AccountRef alice) (AccountRef bob) (Some 0) 9)
             NewMemory [two256 - 1; 2; 5] in
  opAdd f = Ok (([], None), binop_frame (marked true keyAdd f) 1 f) /\
  opSub f = Ok (([], None), binop_frame (marked false keySub f) (two256 - 3) f).
Proof.
  intros f. destruct (arith_marks_exactly f (two256 - 1) 2 [5] eq_refl) as (H1 & H2 & _);
    [by vm_compute|by vm_compute|].
  split; [rewrite H1|rewrite H2]; by vm_compute.
Defined.

(** ** Marker keys and values *)

Lemma pcHash_value pc : 0 <= pc < two63 -> Hash_Big (pcHash pc) = pc.
Proof.
  intros H. unfold pcHash. rewrite i64_id by done. rewrite Hash_Big_BigToHash, Z.abs_eq by lia.
  apply Z.mod_small. unfold two63, two256 in *. lia.
Qed.

Lemma pcHash_nonzero pc : 0 < pc < two63 -> pcHash pc <> zeroHash.
Proof.
  intros H E. apply (f_equal Hash_Big) in E. rewrite pcHash_value in E by lia.
  vm_compute in E. lia.
Qed.

(** the four marker keys are pairwise distinct 32-byte words, and a marker
    stored at a program counter between 1 and 2^63 is read back as that program
    counter; in particular it is not the zero word of an unmarked slot. *)
Theorem markers_readable d a pc :
  0 < pc < two63 ->
  NoDup marker_keys /\ Forall hash_ok marker_keys /\
  forall k, k ∈ marker_keys ->
    Hash_Big (fst (GetState (SetState d a k (pcHash pc)) a k)) = pc /\
    fst (GetState (SetState d a k (pcHash pc)) a k) <> zeroHash.
Proof.
  intros Hpc. split; [|split].
  - apply (bool_decide_unpack _). by vm_compute.
  - repeat (apply Forall_cons_2; [apply StringToHash_ok|]). apply Forall_nil_2.
  - intros k _. rewrite GetState_fst, slot_SetState, decide_True by done.
    split; [apply pcHash_value; lia|by apply pcHash_nonzero].
Qed.

Lemma markers_readable_witness :
  Hash_Big (fst (GetState (SetState New bob (StringToHash keyMul) (pcHash 77)) bob (StringToHash keyMul))) = 77.
Proof.
  apply (markers_readable New bob 77); [by unfold two63|]. unfold marker_keys. set_solver.
Defined.

(** ** Instructions that leave the storage alone *)

(** [f'] differs from [f] neither in storage nor in what identifies the
    running code. *)
Record tame (f f' : frame) : Prop := mk_tame {
  tm_slots : forall a k, slot (db (f_evm f')) a k = slot (db (f_evm f)) a k;
  tm_pc : f_pc f' = f_pc f;
  tm_depth : depth (f_evm f') = depth (f_evm f);
  tm_self : self (f_contract f') = self (f_contract f);
  tm_code : Code (f_contract f') = Code (f_contract f)
}.

#[export] Instance tame_preorder : PreOrder tame.
Proof.
  split; [by intros f|]. intros f1 f2 f3 [] []. split; congruence.
Qed.

Lemma tame_of_calm f f' : calm f f' -> tame f f'.
Proof. intros []. split; try done. intros. by apply quiet_slot. Qed.

(** Tame when run inside a call (depth at least one). *)
Definition tameM {A} (m : M A) : Prop :=
  forall f a f', 1 <= depth (f_evm f) -> m f = Ok (a, f') -> tame f f'.

Lemma tameM_calm {A} (m : M A) : calmM m -> tameM m.
Proof. intros H f a f' _ Hm. apply tame_of_calm. by eapply H. Qed.

Lemma tame_bind {A B} (m : M A) (k : A -> M B) :
  tameM m -> (forall a, tameM (k a)) -> tameM (mbindM m k).
Proof.
  intros Hm Hk f b f' Hd H. unfold mbindM in H. apply rbind_Ok_inv in H as ([a f1] & H1 & H2).
  pose proof (Hm _ _ _ Hd H1) as Ht. etrans; [exact Ht|]. eapply Hk; [|exact H2].
  by rewrite (tm_depth _ _ Ht).
Qed.

Lemma tame_modify_db g :
  (forall d a k, slot (g d) a k = slot d a k) -> tameM (modify_db g).
Proof. intros H f a f' _ [= _ <-]. by split; [intros; apply H|..]. Qed.

Lemma slot_Suicide d a b k : slot (StateDB.Suicide d a) b k = slot d b k.
Proof. unfold slot. rewrite account_at_Suicide. by case_decide; subst. Qed.

Lemma makeLog_tame env n : tameM (makeLog env n).
Proof.
  assert (Ht : forall k, calmM (pop_topics k)).
  { induction k as [|k IH]; cbn [pop_topics]; [apply calm_ret|].
    apply calm_bind; [apply calm_pop|intros]. apply calm_bind; [done|intros]. apply calm_ret. }
  unfold makeLog. do 2 (apply tame_bind; [apply tameM_calm, calm_pop|intros]).
  apply tame_bind; [apply tameM_calm, Ht|intros].
  apply tame_bind; [apply tameM_calm, calm_memGet|intros].
  apply tame_bind; [apply tameM_calm, calm_gets|intros].
  apply tame_bind; [by apply tame_modify_db|intros]. apply tameM_calm, calm_done_with.
Qed.

Lemma opSuicide_tame : tameM opSuicide.
Proof.
  unfold opSuicide. apply tame_bind; [apply tameM_calm, calm_gets|intros].
  apply tame_bind; [apply tameM_calm, calm_run_db; intros; apply quiet_GetBalance|intros].
  apply tame_bind; [apply tameM_calm, calm_pop|intros].
  apply tame_bind; [apply tameM_calm, calm_modify_db; intros; apply quiet_AddBalance|intros].
  apply tame_bind; [|intros; apply tameM_calm, calm_done_with].
  apply tame_modify_db. intros. apply slot_Suicide.
Qed.

(** *** Calls that return at once *)

(** With recursion disabled the machine comes back unchanged. *)
Record ops_idle (o : CallOps) : Prop := {
  oi_Call : forall c a i g v e r, 1 <= depth e -> evm_Call o c a i g v e = Ok r -> snd r = e;
  oi_CallCode : forall c a i g v e r, 1 <= depth e -> evm_CallCode o c a i g v e = Ok r -> snd r = e;
  oi_DelegateCall : forall c a i g e r, 1 <= depth e -> evm_DelegateCall o c a i g e = Ok r -> snd r = e;
  oi_StaticCall : forall c a i g e r, 1 <= depth e -> evm_StaticCall o c a i g e = Ok r -> snd r = e
}.

Lemma call_ops_idle env lp : NoRecursion (vmConfig env) = true -> ops_idle (call_ops env lp).
Proof.
  intros Hn. assert (H : forall e, 1 <= depth e -> no_recursion env e = true).
  { intros e He. unfold no_recursion. rewrite Hn. apply Z.ltb_lt. lia. }
  split; intros until r; cbn [evm_Call evm_CallCode evm_DelegateCall evm_StaticCall call_ops];
    intros Hd; [unfold Call|unfold CallCode|unfold DelegateCall|unfold StaticCall];
    rewrite (H e Hd); by intros [= <-].
Qed.

(** [atM e0 m]: run on the machine [e0], [m] is calm. *)
Definition atM {A} (e0 : EVM) (m : M A) : Prop :=
  forall f b f', f_evm f = e0 -> m f = Ok (b, f') -> calm f f'.

Lemma at_evm {A} e0 (k : EVM -> M A) : atM e0 (k e0) -> atM e0 (mbindM (gets f_evm) k).
Proof. intros Hk f b f' <- H. by eapply Hk. Qed.

Lemma at_same {A B} e0 (m : M A) (k : A -> M B) :
  evm_same m -> calmM m -> (forall a, atM e0 (k a)) -> atM e0 (mbindM m k).
Proof.
  intros Hs Hm Hk f b f' Hf H. unfold mbindM in H. apply rbind_Ok_inv in H as ([a f1] & H1 & H2).
  etrans; [by eapply Hm|]. eapply Hk; [|exact H2]. apply Hs in H1. congruence.
Qed.

Lemma at_lift {A B} e0 (r : result A) (k : A -> M B) :
  (forall a, r = Ok a -> atM e0 (k a)) -> atM e0 (mbindM (lift r) k).
Proof.
  intros Hk f b f' Hf H. unfold mbindM, lift in H. apply rbind_Ok_inv in H as ([a f1] & H1 & H2).
  apply rbind_Ok_inv in H1 as (x & H0 & [= <- <-]). by eapply Hk.
Qed.

Lemma finish_call_at ro rs ret g err e0 : atM e0 (finish_call ro rs (ret, g, err, e0)).
Proof.
  intros f b f' <- H. unfold finish_call in H. unfold mbindM at 1, set_evm in H. cbn [rbind] in H.
  replace (mkFrame (f_pc f) (f_evm f) (f_contract f) (f_mem f) (f_stack f)) with f in H by (by destruct f).
  revert H. match goal with |- ?m f = _ -> _ => enough (Hc : calmM m) by apply Hc end.
  apply calm_bind; [apply calm_push|intros]. apply calm_bind; [|intros].
  - destruct (_ || _); [apply calm_memSet|apply calm_ret].
  - apply calm_bind; [apply calm_refund_gas|intros; apply calm_done_with].
Qed.

Ltac idle_call Hops :=
  intros f a f' Hd H; apply tame_of_calm;
  refine ((_ : atM (f_evm f) _) f a f' eq_refl H);
  repeat first [ apply at_evm
               | apply at_same;
                 [first [apply same_pop | apply same_gets | apply same_memGet]
                 |first [apply calm_pop | apply calm_gets | apply calm_memGet]|intros] ];
  apply at_lift; intros [[[ret g] err] e'] Hcall;
  apply Hops in Hcall; [|exact Hd]; cbn [snd] in Hcall; subst e'; apply finish_call_at.

Section Idle.
Context (env : Env) (ops : CallOps).
Hypothesis Hops : ops_idle ops.

Lemma opCall_tame : tameM (opCall ops).
Proof. unfold opCall. idle_call (oi_Call _ Hops). Qed.
Lemma opCallCode_tame : tameM (opCallCode ops).
Proof. unfold opCallCode. idle_call (oi_CallCode _ Hops). Qed.
Lemma opDelegateCall_tame : tameM (opDelegateCall ops).
Proof. unfold opDelegateCall. idle_call (oi_DelegateCall _ Hops). Qed.
Lemma opStaticCall_tame : tameM (opStaticCall ops).
Proof. unfold opStaticCall. idle_call (oi_StaticCall _ Hops). Qed.

(** ** The effect of an operation on storage and program counter *)

Inductive effect (op : Z) (o : operation) : Prop :=
| eff_tame : tameM (execute o) -> jumps o = false -> effect op o
| eff_push n : 1 <= n <= 32 -> execute o = makePush n n -> jumps o = false -> effect op o
| eff_jump : execute o = opJump \/ execute o = opJumpi -> jumps o = true -> effect op o
| eff_add : op = ADD -> execute o = opAdd -> jumps o = false -> effect op o
| eff_sub : op = SUB -> execute o = opSub -> jumps o = false -> effect op o
| eff_mul : op = MUL -> execute o = opMul -> jumps o = false -> effect op o
| eff_div : op = DIV -> execute o = opDiv -> jumps o = false -> effect op o
| eff_store : op = SSTORE -> execute o = opSstore -> jumps o = false -> effect op o
| eff_create : op = CREATE -> effect op o.

Ltac effect_entry :=
  cbn [fst snd compose push_entry dup_entry swap_entry log_entry];
  first [ apply eff_add; reflexivity | apply eff_sub; reflexivity | apply eff_mul; reflexivity
        | apply eff_div; reflexivity | apply eff_store; reflexivity | apply eff_create; reflexivity
        | apply eff_jump; [left; reflexivity|reflexivity] | apply eff_jump; [right; reflexivity|reflexivity]
        | eapply eff_push; [|reflexivity|reflexivity]; lia
        | apply eff_tame; [|reflexivity];
          cbn [execute entry halting jumping writing reverting returning with_memory];
          first [ apply opCall_tame | apply opCallCode_tame | apply opDelegateCall_tame
                | apply opStaticCall_tame | apply makeLog_tame | apply opSuicide_tame
                | apply tameM_calm; first [apply calm_makeDup | apply calm_makeSwap | unfold_op; calm_go] ] ].

Lemma table_effect op :
  valid (JumpTable env ops op) = true -> effect op (JumpTable env ops op).
Proof. apply (JumpTable_forall effect). table_entries effect_entry. Qed.

End Idle.

(** ** Causes *)

Definition op_here (f : frame) : Z := GetOp (f_contract f) (f_pc f).

(** The instruction at [f] overflows and marks key [k]. *)
Definition overflows (f : frame) (k : Hash) : Prop :=
  exists x y st, f_stack f = x :: y :: st /\
  ((op_here f = ADD /\ k = StringToHash keyAdd /\ ~ is_word (x + y)) \/
   (op_here f = SUB /\ k = StringToHash keySub /\ ~ is_word (x - y)) \/
   (op_here f = MUL /\ k = StringToHash keyMul /\ ~ is_word (x * y)) \/
   (op_here f = DIV /\ k = StringToHash keyDiv /\ y <> 0 /\ ~ is_word (x / y))).

(** The instruction at [f] stores to key [k]. *)
Definition stores (f : frame) (k : Hash) : Prop :=
  op_here f = SSTORE /\ exists loc v st, f_stack f = loc :: v :: st /\ BigToHash loc = k.

Definition creates (f : frame) : Prop := op_here f = CREATE.

(** What one instruction does to the storage of the running contract. *)
Definition slot_step (f : frame) (d' : StateDB) : Prop :=
  forall k, slot d' (self (f_contract f)) k = slot (db (f_evm f)) (self (f_contract f)) k \/
    (overflows f k /\ slot d' (self (f_contract f)) k = pcHash (f_pc f)) \/ stores f k.

(** *** Jumps, pushes and stores in detail *)

Lemma makePush_eff n f r f' :
  makePush n n f = Ok (r, f') ->
  f_evm f' = f_evm f /\ f_contract f' = f_contract f /\ f_pc f' = u64 (f_pc f + n).
Proof.
  unfold makePush, mbindM, gets, lift, push, set_pc, done_with, mret. cbn [rbind].
  destruct (slice _ _ _); cbn [rbind]; [|done|done]. by intros [= _ <-].
Qed.

Lemma has_true d h code pos d' :
  0 <= pos -> has d h code pos = Ok (true, d') -> code !! Z.to_nat (Uint64 pos) = Some JUMPDEST /\
    Uint64 pos < len code.
Proof.
  intros Hpos. unfold has. destruct (_ || _) eqn:E; [done|]. zbool. intros H1.
  apply rbind_Ok_inv in H1 as ([m d1] & _ & H1). apply rbind_Ok_inv in H1 as (op & Hop & H1).
  unfold index in Hop. destruct (0 <=? Uint64 pos); [|done].
  destruct (code !! Z.to_nat (Uint64 pos)) as [x|]; [|done]. injection Hop as Hop.
  destruct (op =? JUMPDEST) eqn:Eo; [|done]. zbool. split; [congruence|done].
Qed.

Lemma GetOp_lookup c pc x : pc < len (Code c) -> Code c !! Z.to_nat pc = Some x -> GetOp c pc = x.
Proof. intros H1 H2. unfold GetOp, GetByte. rewrite (proj2 (Z.ltb_lt _ _)) by done. by rewrite H2. Qed.

(** A valid destination is a JUMPDEST of the running code. *)
Lemma valid_dest_eff pos f b f' :
  0 <= pos -> valid_dest pos f = Ok (b, f') ->
  db (f_evm f') = db (f_evm f) /\ f_contract f' = f_contract f /\ f_stack f' = f_stack f /\
  (b = true -> GetOp (f_contract f) (Uint64 pos) = JUMPDEST).
Proof.
  intros Hpos. unfold valid_dest, mbindM, gets, lift, set_evm, mret. cbn [rbind].
  destruct (has _ _ _ _) as [[b' d]| |] eqn:E; cbn [rbind]; [|done|done]. intros [= <- <-].
  repeat (split; [done|]). intros ->. apply has_true in E as [E1 E2]; [|done]. by apply GetOp_lookup.
Qed.

Lemma opJump_eff f r x f' :
  stack_ok (f_stack f) -> opJump f = Ok ((r, x), f') ->
  db (f_evm f') = db (f_evm f) /\ f_contract f' = f_contract f /\
  (x = None -> GetOp (f_contract f) (f_pc f') = JUMPDEST).
Proof.
  intros Hst. unfold opJump. unfold mbindM at 1, pop. destruct (f_stack f) as [|pos st]; [done|].
  cbn [st_pop rbind]. apply ExecSpec.stack_ok_cons in Hst as [Hpos _].
  intros H. unfold mbindM at 1 in H. apply rbind_Ok_inv in H as ([b f1] & H1 & H2).
  apply valid_dest_eff in H1 as (V1 & V2 & V3 & V4); [|done]. cbn [f_evm f_contract] in *.
  destruct b; cbn [negb] in H2; injection H2 as <- <- <-;
    (split; [exact V1|split; [exact V2|intros ?; try done; by apply V4]]).
Qed.

Lemma opJumpi_eff f r x f' :
  stack_ok (f_stack f) -> opJumpi f = Ok ((r, x), f') ->
  db (f_evm f') = db (f_evm f) /\ f_contract f' = f_contract f /\
  (x = None -> GetOp (f_contract f) (f_pc f') = JUMPDEST \/ f_pc f' = u64 (f_pc f + 1)).
Proof.
  intros Hst. unfold opJumpi. unfold mbindM at 1, pop. destruct (f_stack f) as [|pos st]; [done|].
  cbn [st_pop rbind]. unfold mbindM at 1, pop. cbn [f_stack]. destruct st as [|cond st]; [done|].
  cbn [st_pop rbind]. apply ExecSpec.stack_ok_cons in Hst as [Hpos _].
  destruct (negb (cond =? 0)).
  - intros H. unfold mbindM at 1 in H. apply rbind_Ok_inv in H as ([b f1] & H1 & H2).
    apply valid_dest_eff in H1 as (V1 & V2 & V3 & V4); [|done]. cbn [f_evm f_contract] in *.
    destruct b; cbn [negb] in H2; injection H2 as <- <- <-;
      (split; [exact V1|split; [exact V2|intros ?; try done; left; by apply V4]]).
  - intros [= _ _ <-]. cbn [f_evm f_contract f_pc]. auto.
Qed.

Lemma opSstore_eff f r f' :
  opSstore f = Ok (r, f') -> exists loc v st, f_stack f = loc :: v :: st /\
  f_pc f' = f_pc f /\ f_contract f' = f_contract f /\
  db (f_evm f') = SetState (db (f_evm f)) (self (f_contract f)) (BigToHash loc) (BigToHash v).
Proof.
  unfold opSstore. unfold mbindM at 1, pop. destruct (f_stack f) as [|loc st]; [done|].
  cbn [st_pop rbind]. unfold mbindM at 1, pop. cbn [f_stack]. destruct st as [|v st]; [done|].
  cbn [st_pop rbind]. intros [= _ <-]. by exists loc, v, st.
Qed.

(** An instrumented instruction that returns had two operands. *)
Lemma two_operands (k : Z -> Z -> exec) f r :
  (let! x := pop in let! y := pop in k x y) f = Ok r -> exists x y st, f_stack f = x :: y :: st.
Proof.
  unfold mbindM at 1, pop at 1. destruct (f_stack f) as [|x [|y st]] eqn:E; [done|done|].
  intros _. by exists x, y, st.
Qed.

Lemma slot_marked b key f a k :
  slot (db (marked b key f)) a k =
  if b && bool_decide (a = self (f_contract f)) && bool_decide (k = StringToHash key)
  then pcHash (f_pc f) else slot (db (f_evm f)) a k.
Proof.
  unfold marked. destruct b; [|done]. cbn [db with_db andb]. rewrite slot_SetState.
  destruct (decide (a = self (f_contract f))) as [->|Ha].
  - rewrite bool_decide_true by done. destruct (decide (k = StringToHash key)) as [->|Hk].
    + rewrite bool_decide_true, decide_True by done. done.
    + rewrite bool_decide_false by done. rewrite decide_False by (intros [? ?]; congruence). done.
  - rewrite bool_decide_false by done. rewrite decide_False by (intros [? ?]; congruence). done.
Qed.

(** ** One iteration *)

Section Step.
Context (env : Env) (bound : Z) (lp : frame -> result (list Z * option vmerror * frame)).
Hypothesis Henv : env_ok env.
Hypothesis Hnorec : NoRecursion (vmConfig env) = true.
Hypothesis Hlp : Safety.loop_spec False bound lp.

Abbreviation ops := (call_ops env lp) (only parsing).

(** The frame the instruction runs on: the one fetched, priced and expanded. *)
Record ready (f f2 : frame) : Prop := mk_ready {
  rd_pc : f_pc f2 = f_pc f;
  rd_stack : f_stack f2 = f_stack f;
  rd_depth : depth (f_evm f2) = depth (f_evm f);
  rd_self : self (f_contract f2) = self (f_contract f);
  rd_code : Code (f_contract f2) = Code (f_contract f);
  rd_slots : forall a k, slot (db (f_evm f2)) a k = slot (db (f_evm f)) a k
}.

(** An iteration ends without touching storage, or executes its operation on
    a ready frame. *)
Lemma step_cases f oc :
  frame_ok False f -> Vm.Gas (f_contract f) <= bound -> step env ops f = Ok oc ->
  (exists ret err f', oc = Done ret err f' /\
     forall a k, slot (db (f_evm f')) a k = slot (db (f_evm f)) a k) \/
  exists f2 res err f3, let o := JumpTable env ops (op_here f) in
    valid o = true /\ ready f f2 /\ execute o f2 = Ok ((res, err), f3) /\
    db (f_evm (frame_of oc)) = db (f_evm f3) /\
    forall f', oc = Next f' ->
      err = None /\ halts o = false /\ f_contract f' = f_contract f3 /\ f_stack f' = f_stack f3 /\
      f_pc f' = if jumps o then f_pc f3 else u64 (f_pc f3 + 1).
Proof.
  intros Hf Hb H. unfold step in H.
  assert (Hsame : forall ret err, oc = Done ret err f -> exists ret err f', oc = Done ret err f' /\
     forall a k, slot (db (f_evm f')) a k = slot (db (f_evm f)) a k) by (intros; by do 3 eexists).
  destruct (negb (abort _ =? 0)); [left; injection H as <-; eauto|]. fold (op_here f) in H.
  set (o := JumpTable env ops (op_here f)) in *.
  destruct (valid o) eqn:Hv; cbn [negb] in H; [|left; injection H as <-; eauto].
  assert (Hok : op_ok False bound (op_here f) o).
  { apply TableSpec.JumpTable_ok; [done| |done]. apply Safety.calls_spec; [done|by right|done]. }
  destruct Hok as (pops & pushes & allow & O1 & O2 & O3 & O4 & O5).
  rewrite O1 in H. destruct (makeStackFunc pops pushes (f_stack f)) eqn:Hst;
    [left; injection H as <-; eauto|]. apply Safety.makeStackFunc_None in Hst as [Hlen _].
  apply rbind_Ok_inv in H as (restricted & _ & H).
  destruct restricted as [err|]; [left; injection H as <-; eauto|].
  apply rbind_Ok_inv in H as (need & Hneed & H).
  destruct need as [size|]; [|left; injection H as <-; eauto].
  pose proof (post_Ok _ _ _ _ _ (Safety.needed_memory_spec False o _ pops (fo_stack _ _ Hf) Hlen O3) Hneed
    size eq_refl) as (Hw & Hn & _).
  apply rbind_Ok_inv in H as ([err f1] & Hch & H).
  pose proof (post_Ok _ _ _ _ _ (Safety.charge_spec env False Henv o size f pops allow Hf Hlen Hw Hn O4) Hch)
    as (C1 & C2 & _ & C4 & _ & g & C6 & _).
  pose proof (charge_calm env o size (gasCost_calm env ops _ size Hv) _ _ _ Hch) as Hcalm.
  assert (Hslots : forall a k, slot (db (f_evm f1)) a k = slot (db (f_evm f)) a k)
    by (intros; by apply quiet_slot, Hcalm).
  destruct err as [err|]; [left; injection H as <-; eauto|]. right.
  unfold perform in H. apply rbind_Ok_inv in H as ([[res err] f3] & H1 & [= <-]).
  apply rbind_Ok_inv in H1 as ([[r x] f3'] & H1 & [= -> -> ->]).
  eexists _, res, err, f3. split; [exact Hv|]. split; [|split; [exact H1|]].
  { destruct C4 as (C4 & _). destruct (0 <? size); split; simpl; try done; by rewrite C6. }
  clear H1. split.
  { by destruct (returns o), err, (reverts o), (halts o), (negb (jumps o)). }
  intros f' Hnext. destruct err; [by destruct (returns o)|]. destruct (reverts o); [done|].
  destruct (halts o); [done|].
  destruct (returns o), (jumps o); cbn [negb] in Hnext; injection Hnext as <-; done.
Qed.

(** An instrumented instruction: the slots it leaves alone, and its mark. *)
Lemma mark_effect f f2 key v f3 (b : bool) :
  ready f f2 -> f3 = binop_frame (marked b key f2) v f2 ->
  forall k, slot (db (f_evm f3)) (self (f_contract f)) k = slot (db (f_evm f)) (self (f_contract f)) k \/
    b = true /\ k = StringToHash key /\
    slot (db (f_evm f3)) (self (f_contract f)) k = pcHash (f_pc f).
Proof.
  intros [] ->. intros k. cbn [f_evm binop_frame]. rewrite slot_marked, rd_self0, rd_pc0, rd_slots0.
  destruct b; [|by left]. rewrite bool_decide_true by done. cbn [andb].
  case_bool_decide; [by right|by left].
Qed.

(** Storage effect of an iteration that does not create a contract. *)
Lemma step_slots f oc :
  frame_ok False f -> Vm.Gas (f_contract f) <= bound -> ~ creates f -> step env ops f = Ok oc ->
  slot_step f (db (f_evm (frame_of oc))).
Proof.
  intros Hf Hb Hnc Hs. destruct (step_cases f oc Hf Hb Hs)
    as [(ret & err & f' & -> & Hd)|(f2 & res & err & f3 & Hv & Hr & Hex & Hdb & _)].
  { intros k. left. apply Hd. }
  rewrite Hdb. clear Hdb Hs. pose proof Hr as [R1 R2 R3 R4 R5 R6].
  assert (Hd2 : 1 <= depth (f_evm f2)) by (rewrite R3; apply Hf).
  assert (Hst2 : stack_ok (f_stack f2)) by (rewrite R2; apply Hf).
  assert (Hquiet : db (f_evm f3) = db (f_evm f2) -> slot_step f (db (f_evm f3)))
    by (intros E k; left; by rewrite E).
  destruct (table_effect env ops (call_ops_idle env lp Hnorec) (op_here f) Hv) as
    [Ht _|n Hn Ee _|Ee _|Eo Ee _|Eo Ee _|Eo Ee _|Eo Ee _|Eo Ee _|Eo];
    try (rewrite Ee in Hex).
  - intros k. left. rewrite (tm_slots _ _ (Ht _ _ _ Hd2 Hex)). apply R6.
  - apply makePush_eff in Hex as (E1 & _). apply Hquiet. by rewrite E1.
  - destruct Ee as [Ee|Ee]; rewrite Ee in Hex;
      [apply opJump_eff in Hex as (E1 & _)|apply opJumpi_eff in Hex as (E1 & _)]; auto.
  - destruct (two_operands _ _ _ Hex) as (x & y & st & Hst). rewrite (opAdd_eq f2 x y st Hst) in Hex.
    injection Hex as _ _ Hf3. intros k.
    destruct (mark_effect f f2 _ _ f3 _ Hr (eq_sym Hf3) k) as [E|(Hn & -> & E)]; [by left|].
    right; left. split; [|done]. exists x, y, st. rewrite <- R2. split; [done|].
    left. apply negb_true_iff, bool_decide_eq_false in Hn. done.
  - destruct (two_operands _ _ _ Hex) as (x & y & st & Hst). rewrite (opSub_eq f2 x y st Hst) in Hex.
    injection Hex as _ _ Hf3. intros k.
    destruct (mark_effect f f2 _ _ f3 _ Hr (eq_sym Hf3) k) as [E|(Hn & -> & E)]; [by left|].
    right; left. split; [|done]. exists x, y, st. rewrite <- R2. split; [done|].
    right; left. apply negb_true_iff, bool_decide_eq_false in Hn. done.
  - destruct (two_operands _ _ _ Hex) as (x & y & st & Hst). rewrite (opMul_eq f2 x y st Hst) in Hex.
    injection Hex as _ _ Hf3. intros k.
    destruct (mark_effect f f2 _ _ f3 _ Hr (eq_sym Hf3) k) as [E|(Hn & -> & E)]; [by left|].
    right; left. split; [|done]. exists x, y, st. rewrite <- R2. split; [done|].
    right; right; left. apply negb_true_iff, bool_decide_eq_false in Hn. done.
  - destruct (two_operands _ _ _ Hex) as (x & y & st & Hst). rewrite (opDiv_eq f2 x y st Hst) in Hex.
    injection Hex as _ _ Hf3. intros k. destruct (y =? 0) eqn:Ey; zbool.
    { left. subst f3. apply R6. }
    destruct (mark_effect f f2 _ _ f3 _ Hr (eq_sym Hf3) k) as [E|(Hn & -> & E)]; [by left|].
    right; left. split; [|done]. exists x, y, st. rewrite <- R2. split; [done|].
    right; right; right. apply negb_true_iff, bool_decide_eq_false in Hn. done.
  - apply opSstore_eff in Hex as (loc & v & st & E1 & _ & _ & E4). intros k. rewrite E4, R4, slot_SetState.
    case_decide as Hd; [|left; apply R6]. right; right. split; [done|]. destruct Hd as [_ Hk].
    exists loc, v, st. by rewrite <- R2.
  - done.
Qed.

Lemma JumpTable_STOP : halts (JumpTable env ops STOP) = true.
Proof. unfold JumpTable, instructionSet. by repeat split_if. Qed.

(** Only a jump to a JUMPDEST can bring the program counter to zero. *)
Lemma step_pc f f' :
  frame_ok False f -> Vm.Gas (f_contract f) <= bound -> ~ creates f -> step env ops f = Ok (Next f') ->
  f_pc f' <> 0 \/ GetOp (f_contract f') 0 = JUMPDEST.
Proof.
  intros Hf Hb Hnc Hs. destruct (step_cases f _ Hf Hb Hs)
    as [(ret & err & f0 & E & _)|(f2 & res & err & f3 & Hv & Hr & Hex & _ & Hnext)]; [done|].
  destruct (Hnext f' eq_refl) as (-> & Hh & Hc & _ & Hpc). clear Hnext Hs.
  pose proof Hr as [R1 R2 R3 R4 R5 R6].
  assert (Hd2 : 1 <= depth (f_evm f2)) by (rewrite R3; apply Hf).
  assert (Hst2 : stack_ok (f_stack f2)) by (rewrite R2; apply Hf).
  assert (Hlt : 0 <= f_pc f < two63).
  { destruct (fo_pc _ _ Hf) as [P1 _]. split; [done|].
    assert (op_here f <> STOP) by (intros E; rewrite E, JumpTable_STOP in Hh; done).
    eapply Z.lt_trans; [by apply Safety.GetOp_in_code|].
    apply (co_code _ (fo_contract _ _ Hf)). }
  assert (Hstep1 : forall n, 0 <= n <= 33 -> u64 (f_pc f2 + 1 + n) <> 0).
  { intros n Hn. rewrite R1, u64_id by (unfold is_u64, two63, two64 in *; lia). lia. }
  assert (Hplain : f_pc f3 = f_pc f2 -> u64 (f_pc f3 + 1) <> 0).
  { intros ->. rewrite <- (Z.add_0_r (f_pc f2 + 1)). apply Hstep1. lia. }
  destruct (table_effect env ops (call_ops_idle env lp Hnorec) (op_here f) Hv) as
    [Ht Hj|n Hn Ee Hj|Ee Hj|Eo Ee Hj|Eo Ee Hj|Eo Ee Hj|Eo Ee Hj|Eo Ee Hj|Eo];
    try (rewrite Ee in Hex); try done; rewrite Hj in Hpc; rewrite Hpc.
  - left. apply Hplain, (Ht _ _ _ Hd2 Hex).
  - apply makePush_eff in Hex as (_ & _ & E). left. rewrite E.
    rewrite (u64_id (f_pc f2 + n)) by (rewrite R1; unfold is_u64, two63, two64 in *; lia).
    replace (f_pc f2 + n + 1) with (f_pc f2 + 1 + n) by lia. apply Hstep1. lia.
  - destruct (decide (f_pc f3 = 0)) as [E0|]; [|by left]. destruct Ee as [Ee|Ee]; rewrite Ee in Hex.
    + apply opJump_eff in Hex as (_ & E1 & E2); [|done]. right. rewrite Hc, E1, <- E0. by apply E2.
    + apply opJumpi_eff in Hex as (_ & E1 & E2); [|done]. destruct (E2 eq_refl) as [E3|E3].
      * right. by rewrite Hc, E1, <- E0.
      * left. rewrite E3, <- (Z.add_0_r (f_pc f2 + 1)). apply Hstep1. lia.
  - left. apply Hplain. destruct (two_operands _ _ _ Hex) as (x & y & st & Hst).
    rewrite (opAdd_eq f2 x y st Hst) in Hex. by injection Hex as _ <-.
  - left. apply Hplain. destruct (two_operands _ _ _ Hex) as (x & y & st & Hst).
    rewrite (opSub_eq f2 x y st Hst) in Hex. by injection Hex as _ <-.
  - left. apply Hplain. destruct (two_operands _ _ _ Hex) as (x & y & st & Hst).
    rewrite (opMul_eq f2 x y st Hst) in Hex. by injection Hex as _ <-.
  - left. apply Hplain. destruct (two_operands _ _ _ Hex) as (x & y & st & Hst).
    rewrite (opDiv_eq f2 x y st Hst) in Hex. injection Hex as _ <-. by destruct (y =? 0).
  - left. apply Hplain. by apply opSstore_eff in Hex as (loc & v & st & _ & E & _).
Qed.

Lemma execute_arith :
  execute (JumpTable env ops ADD) = opAdd /\ execute (JumpTable env ops SUB) = opSub /\
  execute (JumpTable env ops MUL) = opMul /\ execute (JumpTable env ops DIV) = opDiv.
Proof. unfold JumpTable, instructionSet. by repeat split_if. Qed.

Lemma marked_slot f f2 key v :
  ready f f2 ->
  slot (db (f_evm (binop_frame (marked true key f2) v f2))) (self (f_contract f)) (StringToHash key)
  = pcHash (f_pc f).
Proof.
  intros []. cbn [f_evm binop_frame]. rewrite slot_marked, rd_self0, rd_pc0.
  by rewrite !bool_decide_true.
Qed.

(** An overflow that is executed is marked. *)
Lemma step_marks f f' k :
  frame_ok False f -> Vm.Gas (f_contract f) <= bound -> overflows f k ->
  step env ops f = Ok (Next f') -> slot (db (f_evm f')) (self (f_contract f)) k = pcHash (f_pc f).
Proof.
  intros Hf Hb (x & y & st & Hst & Hcase) Hs. destruct (step_cases f _ Hf Hb Hs)
    as [(ret & err & f0 & E & _)|(f2 & res & err & f3 & Hv & Hr & Hex & Hdb & _)]; [done|].
  cbn [frame_of] in Hdb. rewrite Hdb. pose proof Hr as [R1 R2 _ _ _ _]. rewrite <- R2 in Hst.
  destruct execute_arith as (E1 & E2 & E3 & E4).
  assert (Hn : forall z, ~ is_word z -> negb (bool_decide (is_word z)) = true)
    by (intros; by rewrite bool_decide_false).
  destruct Hcase as [(Eo & -> & Ho)|[(Eo & -> & Ho)|[(Eo & -> & Ho)|(Eo & -> & Hy & Ho)]]];
    rewrite Eo in Hex; apply Hn in Ho.
  - rewrite E1, (opAdd_eq f2 x y st Hst), Ho in Hex. injection Hex as _ _ <-. by apply marked_slot.
  - rewrite E2, (opSub_eq f2 x y st Hst), Ho in Hex. injection Hex as _ _ <-. by apply marked_slot.
  - rewrite E3, (opMul_eq f2 x y st Hst), Ho in Hex. injection Hex as _ _ <-. by apply marked_slot.
  - rewrite E4, (opDiv_eq f2 x y st Hst), Ho, (proj2 (Z.eqb_neq y 0) Hy) in Hex.
    injection Hex as _ _ <-. by apply marked_slot.
Qed.

End Step.

(** ** Whole runs *)

Section Run.
Context (env : Env).
Hypothesis Henv : env_ok env.
Hypothesis Hnorec : NoRecursion (vmConfig env) = true.

(** [reached n f m g]: the run of [loop env n] from [f] comes to the frame [g]
    with fuel [m] left. *)
Inductive reached : nat -> frame -> nat -> frame -> Prop :=
| reached_here n f : reached n f n f
| reached_next n f f1 m g :
    step env (call_ops env (loop env n)) f = Ok (Next f1) -> reached n f1 m g -> reached (S n) f m g.

Lemma reached_trans n f m g k h : reached n f m g -> reached m g k h -> reached n f k h.
Proof. induction 1; [done|]. intros. by eapply reached_next; [|apply IHreached]. Qed.

(** The run goes through the frames it reaches. *)
Lemma reached_loop n f m g r : reached n f m g -> loop env n f = r -> loop env m g = r.
Proof. induction 1 as [|n f f1 m g Hs _ IH]; [done|]. cbn [loop]. rewrite Hs. done. Qed.

(** The invariant of a run: well formed, with enough fuel, and never at a zero
    program counter with operands on the stack unless at a JUMPDEST. *)
Record run_inv (a : Address) (n : nat) (f : frame) : Prop := mk_run_inv {
  ri_ok : frame_ok False f;
  ri_limit : len (f_stack f) <= StackLimit;
  ri_gas : Vm.Gas (f_contract f) < Z.of_nat n;
  ri_self : self (f_contract f) = a;
  ri_pc : f_pc f = 0 -> f_stack f = [] \/ GetOp (f_contract f) 0 = JUMPDEST
}.

Lemma run_inv_step a n f f1 :
  run_inv a (S n) f -> ~ creates f -> step env (call_ops env (loop env n)) f = Ok (Next f1) ->
  run_inv a n f1.
Proof.
  intros [H1 H2 H3 H4 H5] Hnc Hs.
  assert (Hl : Safety.loop_spec False (Z.of_nat n) (loop env n))
    by (apply Safety.loop_ok; [done|by right]).
  pose proof (Safety.step_ok env False (Z.of_nat n) (call_ops env (loop env n)) Henv) as Hok.
  specialize (Hok (fun op => TableSpec.JumpTable_ok env False (Z.of_nat n) _ Henv op
    (HC := Safety.calls_spec env False Henv (or_intror Hnorec) _ _ Hl)) f ltac:(lia) H1 H2).
  pose proof (post_Ok _ _ _ _ _ Hok Hs) as (N1 & N2 & N3 & g & N4 & N5).
  split; try done.
  - rewrite N4. simpl. lia.
  - rewrite N4. done.
  - intros H0. destruct (step_pc env (Z.of_nat n) (loop env n) Henv Hnorec Hl f f1 H1 ltac:(lia) Hnc Hs);
      [done|by right].
Qed.

(** An overflowing instruction is never at program counter 0. *)
Lemma overflows_pc a n f k : run_inv a n f -> overflows f k -> 0 < f_pc f < two63.
Proof.
  intros [H1 _ _ _ H5] (x & y & st & Hst & Hcase). destruct (fo_pc _ _ H1) as [P1 _].
  assert (Hop : op_here f <> 0 /\ op_here f <> JUMPDEST)
    by (destruct Hcase as [[-> _]|[[-> _]|[[-> _]|[-> _]]]]; done).
  destruct Hop as [O1 O2]. split.
  - destruct (decide (f_pc f = 0)) as [E|]; [|lia]. destruct (H5 E) as [E2|E2]; [congruence|].
    unfold op_here in O2. rewrite E in O2. done.
  - eapply Z.lt_trans; [by apply Safety.GetOp_in_code|]. apply (co_code _ (fo_contract _ _ H1)).
Qed.

(** A slot that changed during a run was overflow-marked, stored to, or the
    run created a contract. *)
Lemma loop_sound a n f r err f' k :
  run_inv a n f -> loop env n f = Ok (r, err, f') ->
  slot (db (f_evm f')) a k <> slot (db (f_evm f)) a k ->
  exists m g, reached n f m g /\ (overflows g k \/ stores g k \/ creates g).
Proof.
  revert f. induction n as [|n IH]; intros f Hinv Hl Hne; [done|].
  destruct (decide (op_here f = CREATE)) as [Hc|Hnc].
  { exists (S n), f. split; [constructor|]. by right; right. }
  assert (Hlp : Safety.loop_spec False (Z.of_nat n) (loop env n))
    by (apply Safety.loop_ok; [done|by right]).
  cbn [loop] in Hl. apply rbind_Ok_inv in Hl as (oc & Hs & Hl).
  pose proof Hinv as [I1 _ I3 I4 _].
  pose proof (step_slots env (Z.of_nat n) (loop env n) Henv Hnorec Hlp f oc I1 ltac:(lia) Hnc Hs k) as Hk.
  rewrite I4 in Hk. destruct Hk as [Hsame|Hcause].
  2: { exists (S n), f. split; [constructor|]. destruct Hcause as [[? _]|?]; auto. }
  destruct oc as [f1|r1 e1 f1]; cbn [frame_of] in Hsame.
  - destruct (IH f1) as (m & g & Hr & Hg); [by eapply run_inv_step|done|congruence|].
    exists m, g. split; [by eapply reached_next|done].
  - injection Hl as _ _ <-. congruence.
Qed.

(** A non-zero marker survives: later marks are non-zero too. *)
Lemma loop_keeps a n f r err f' k :
  run_inv a n f -> loop env n f = Ok (r, err, f') ->
  (forall m g, reached n f m g -> ~ stores g k /\ ~ creates g) ->
  slot (db (f_evm f)) a k <> zeroHash -> slot (db (f_evm f')) a k <> zeroHash.
Proof.
  revert f. induction n as [|n IH]; intros f Hinv Hl Hno Hnz; [done|].
  destruct (Hno (S n) f (reached_here _ _)) as [Hns Hnc].
  assert (Hlp : Safety.loop_spec False (Z.of_nat n) (loop env n))
    by (apply Safety.loop_ok; [done|by right]).
  cbn [loop] in Hl. apply rbind_Ok_inv in Hl as (oc & Hs & Hl).
  pose proof Hinv as [I1 _ I3 I4 _].
  pose proof (step_slots env (Z.of_nat n) (loop env n) Henv Hnorec Hlp f oc I1 ltac:(lia) Hnc Hs k) as Hk.
  rewrite I4 in Hk.
  assert (Hnz1 : slot (db (f_evm (frame_of oc))) a k <> zeroHash).
  { destruct Hk as [->|[[Ho ->]|Hst]]; [done| |done]. apply pcHash_nonzero. by eapply overflows_pc. }
  destruct oc as [f1|r1 e1 f1]; cbn [frame_of] in Hnz1.
  - eapply IH; [by eapply run_inv_step|exact Hl| |exact Hnz1].
    intros m g Hr. apply (Hno m g). by eapply reached_next.
  - injection Hl as _ _ <-. done.
Qed.

Lemma reached_inv a n f m g :
  run_inv a n f -> reached n f m g -> (forall k h, reached n f k h -> ~ creates h) -> run_inv a m g.
Proof.
  intros Hi Hr. induction Hr as [|n f f1 m g Hs Hr IH]; intros Hno; [done|]. apply IH.
  - eapply run_inv_step; [done|apply (Hno (S n)), reached_here|done].
  - intros k h Hh. apply (Hno k). by eapply reached_next.
Qed.

(** An executed overflow leaves a non-zero marker at the end of the run. *)
Lemma loop_complete a n f r err f' k m g g' :
  run_inv a n f -> loop env n f = Ok (r, err, f') ->
  (forall m g, reached n f m g -> ~ stores g k /\ ~ creates g) ->
  reached n f (S m) g -> overflows g k ->
  step env (call_ops env (loop env m)) g = Ok (Next g') ->
  slot (db (f_evm f')) a k <> zeroHash.
Proof.
  intros Hi Hl Hno Hr Ho Hs.
  assert (Hg : run_inv a (S m) g) by (eapply reached_inv; [done|done|intros; by eapply Hno]).
  assert (Hlp : Safety.loop_spec False (Z.of_nat m) (loop env m))
    by (apply Safety.loop_ok; [done|by right]).
  pose proof Hg as [G1 _ G3 G4 _].
  pose proof (step_marks env (Z.of_nat m) (loop env m) Henv Hnorec Hlp g g' k G1 ltac:(lia) Ho Hs) as Hm.
  rewrite G4 in Hm.
  assert (Hr' : reached n f m g')
    by (eapply reached_trans; [exact Hr|eapply reached_next; [exact Hs|constructor]]).
  eapply (loop_keeps a m g').
  - eapply run_inv_step; [exact Hg| |exact Hs]. by eapply Hno.
  - by eapply reached_loop.
  - intros j h Hh. eapply Hno. by eapply reached_trans.
  - rewrite Hm. apply pcHash_nonzero. by eapply overflows_pc.
Qed.

(** *** Executable exploration of a run *)

(** The frame after [k] iterations. *)
Fixpoint frame_at (k n : nat) (f : frame) : option frame :=
  match k, n with
  | O, _ => Some f
  | S k, S n =>
      match step env (call_ops env (loop env n)) f with
      | Ok (Next f1) => frame_at k n f1
      | _ => None
      end
  | S _, O => None
  end.

Lemma frame_at_reached k n f g : frame_at k n f = Some g -> reached n f (n - k) g.
Proof.
  revert n f. induction k as [|k IH]; intros n f H; cbn [frame_at] in H.
  { rewrite Nat.sub_0_r. injection H as <-. constructor. }
  destruct n as [|n]; [done|]. destruct (step _ _ f) as [[f1|]| |] eqn:E; try done.
  cbn [Nat.sub]. eapply reached_next; [exact E|]. by apply IH.
Qed.

(** Every instruction of the run satisfies [P]. *)
Fixpoint all_ops (P : Z -> bool) (n : nat) (f : frame) : bool :=
  P (op_here f) &&
  match n with
  | O => true
  | S n =>
      match step env (call_ops env (loop env n)) f with
      | Ok (Next f1) => all_ops P n f1
      | _ => true
      end
  end.

Lemma all_ops_reached P n f m g : all_ops P n f = true -> reached n f m g -> P (op_here g) = true.
Proof.
  intros Ha Hr. induction Hr as [n f|n f f1 m g Hs _ IH].
  - destruct n; cbn [all_ops] in Ha; by apply andb_true_iff in Ha as [Ha _].
  - cbn [all_ops] in Ha. apply andb_true_iff in Ha as [_ Ha]. rewrite Hs in Ha. auto.
Qed.

End Run.

(** ** Calls from outside *)

(** The frame with which [Call] starts the interpreter. *)
Definition entry_frame (caller addr : Address) (input : bytes) (gas v : Z) (e : EVM) : frame :=
  let e := with_db e (snd (CanTransfer (db e) caller v)) in
  let e := with_db e (Transfer (db e) caller addr v) in
  let e := with_jumpdests e ∅ in
  let c := load_code (NewContract (AccountRef caller) (AccountRef addr) (Some v) gas) addr (db e) in
  mkFrame 0 (with_returnData (with_depth e (depth e + 1)) []) (with_Input c input) NewMemory [].

Lemma quiet_entry caller addr input gas v e :
  quiet (db e) (db (f_evm (entry_frame caller addr input gas v e))).
Proof. etrans; [apply (quiet_CanTransfer (db e) caller v)|apply quiet_Transfer]. Qed.

(** A call leaves the storage alone or runs the interpreter from the entry
    frame and returns the database it ends with. *)
Lemma Call_runs env lp caller addr input gas v e ret g err e' :
  Call env lp (AccountRef caller) addr input gas v e = Ok (ret, g, err, e') ->
  quiet (db e) (db e') \/
  exists r x f', lp (entry_frame caller addr input gas v e) = Ok (r, x, f') /\
    db e' = db (f_evm f') /\ fst (CanTransfer (db e) caller v) = true.
Proof.
  intros H. unfold Call in H. destruct (no_recursion env e); [injection H as _ _ _ <-; by left|].
  destruct (_ <? depth e); [injection H as _ _ _ <-; by left|].
  cbn [ref_Address] in H. pose proof (quiet_CanTransfer (db e) caller v) as Hq.
  pose proof (quiet_entry caller addr input gas v e) as Hqe. unfold entry_frame in *.
  destruct (CanTransfer (db e) caller v) as [can d]. cbn [fst snd] in *.
  destruct can; cbn [negb] in H; [|injection H as _ _ _ <-; by left].
  unfold Exist in H. cbn [negb andb] in H. unfold run_and_revert in H.
  apply rbind_Ok_inv in H as ([[[r x] c'] e1] & Hrun & H).
  assert (He : db e' = db e1) by (by destruct x; injection H as _ _ _ <-). rewrite He. clear H He.
  unfold run in Hrun. cbn [CodeAddr load_code SetCallCode] in Hrun.
  destruct (Precompiles.find_precompile _ _).
  { apply rbind_Ok_inv in Hrun as ([[? ?] ?] & _ & [= _ _ _ <-]). by left. }
  unfold Run in Hrun. destruct (_ =? 0); [injection Hrun as _ _ _ <-; by left|].
  apply rbind_Ok_inv in Hrun as ([[r1 x1] f1] & Hl & [= _ _ _ <-]). right.
  exists r1, x1, f1. done.
Qed.

Lemma entry_inv env caller addr input gas v e fuel :
  Safety.fuzz_call env caller addr input gas v e -> gas < Z.of_nat fuel ->
  fst (CanTransfer (db e) caller v) = true ->
  run_inv addr fuel (entry_frame caller addr input gas v e).
Proof.
  intros [F1 F2 F3 F4 F5 F6 F7 F8 F9] Hfuel Hcan.
  assert (Hg : is_u64 gas) by (unfold is_u64, PrecompileSpec.modexpGasLimit, two64 in *; lia).
  destruct (CanTransfer (db e) caller v) as [can d] eqn:E. cbn [fst] in Hcan. subst can.
  apply CanTransfer_true in E as E2. destruct E2 as (Ed & Hle & _).
  assert (Hd : db_ok d) by (rewrite Ed; apply AddBalance_ok; [apply F8|lia]).
  assert (Hd2 : db_ok (Transfer d caller addr v)) by (apply Transfer_ok; [done|lia]).
  unfold entry_frame. rewrite E. cbn [fst snd db with_db].
  split; cbn [f_pc f_stack f_contract self with_Input load_code SetCallCode NewContract ref_Address Vm.Gas];
    try done; [|by intros _; left].
  split; cbn [f_pc f_evm f_contract f_mem f_stack]; try done.
  - destruct F8. split; cbn; [done|apply slice_ok_nil|done].
  - cbn. lia.
  - destruct (Safety.load_code_ok (AccountRef caller) addr v gas (Transfer d caller addr v) addr F3 F4 Hg F7 Hd2).
    by split.
  - apply NewMemory_ok.
  - apply Forall_nil_2.
  - right. intros m. cbn. by rewrite lookup_empty.
Qed.

(** If a fuzzer call changes a storage slot of its target, the run reached an
    instruction that accounts for it. *)
Lemma call_sound env caller addr input gas v e fuel ret left_over err e' k :
  Safety.fuzz_call env caller addr input gas v e -> gas < Z.of_nat fuel ->
  Call env (loop env fuel) (AccountRef caller) addr input gas v e = Ok (ret, left_over, err, e') ->
  slot (db e') addr k <> slot (db e) addr k ->
  exists m g, reached env fuel (entry_frame caller addr input gas v e) m g /\
    (overflows g k \/ stores g k \/ creates g).
Proof.
  intros Hfc Hfuel Hcall Hne. apply Call_runs in Hcall as [Hq|(r & x & f' & Hl & Hdb & Hcan)].
  { by rewrite (quiet_slot _ _ _ _ Hq) in Hne. }
  pose proof (entry_inv _ _ _ _ _ _ _ _ Hfc Hfuel Hcan) as Hinv. destruct Hfc.
  eapply (loop_sound env); try done. rewrite <- Hdb.
  by rewrite (quiet_slot _ _ _ _ (quiet_entry caller addr input gas v e)).
Qed.

(** C5: no false positives: if a fuzzer call changes a storage slot of its
    target, a marker slot in particular, then the run reached an instruction
    that overflowed and marks exactly that slot, or an SSTORE to that slot, or
    a CREATE. *)
Theorem marker_sound env caller addr input gas v e fuel ret left_over err e' k :
  Safety.fuzz_call env caller addr input gas v e -> gas < Z.of_nat fuel ->
  Call env (loop env fuel) (AccountRef caller) addr input gas v e = Ok (ret, left_over, err, e') ->
  slot (db e') addr k <> slot (db e) addr k ->
  exists m g, reached env fuel (entry_frame caller addr input gas v e) m g /\
    (overflows g k \/ stores g k \/ creates g).
Proof. apply call_sound. Qed.

Definition demo_call :=
  value_of (Call (demo_env true) (loop (demo_env true) 101) (AccountRef alice) bob [] 100 0
    (NewEVM (with_bob add_overflow))) ([], 0, None, NewEVM New).
Definition demo_entry : frame := entry_frame alice bob [] 100 0 (NewEVM (with_bob add_overflow)).

Lemma demo_call_ok :
  Call (demo_env true) (loop (demo_env true) 101) (AccountRef alice) bob [] 100 0
    (NewEVM (with_bob add_overflow)) =
  Ok (fst (fst (fst demo_call)), snd (fst (fst demo_call)), snd (fst demo_call), snd demo_call).
Proof. rewrite <- !surjective_pairing. apply is_ok_value. by vm_compute. Qed.

Lemma marker_sound_witness :
  exists m g, reached (demo_env true) 101 demo_entry m g /\
    (overflows g (StringToHash keyAdd) \/ stores g (StringToHash keyAdd) \/ creates g).
Proof.
  apply (marker_sound (demo_env true) alice bob [] 100 0 (NewEVM (with_bob add_overflow)) 101 _ _ _ _
    (StringToHash keyAdd) Safety.demo_fuzz_call ltac:(lia) demo_call_ok).
  apply (bool_decide_unpack _). by vm_compute.
Defined.

(** The conditions under which [Call] runs the code of its target. *)
Record enters (env : Env) (caller addr : Address) (v : Z) (e : EVM) : Prop := {
  en_rec : no_recursion env e = false;
  en_depth : depth e <= CallCreateDepth;
  en_funds : fst (CanTransfer (db e) caller v) = true;
  en_native : Precompiles.find_precompile (precompiles env) addr = None;
  en_code : GetCode (db e) addr <> []
}.

Lemma Call_enters env lp caller addr input gas v e ret g err e' :
  enters env caller addr v e ->
  Call env lp (AccountRef caller) addr input gas v e = Ok (ret, g, err, e') ->
  exists r x f', lp (entry_frame caller addr input gas v e) = Ok (r, x, f') /\ db e' = db (f_evm f').
Proof.
  intros [N1 N2 N3 N4 N5] H. unfold Call in H. rewrite N1 in H.
  destruct (Z.ltb_spec CallCreateDepth (depth e)); [lia|].
  cbn [ref_Address] in H. unfold entry_frame.
  pose proof (quiet_entry caller addr input gas v e) as Hq. unfold entry_frame in Hq.
  destruct (CanTransfer (db e) caller v) as [can d]. cbn [fst snd] in *. rewrite N3 in H.
  cbn [negb] in H. unfold Exist in H. cbn [negb andb] in H. unfold run_and_revert in H.
  apply rbind_Ok_inv in H as ([[[r x] c'] e1] & Hrun & H).
  assert (He : db e' = db e1) by (by destruct x; injection H as _ _ _ <-). rewrite He. clear H He.
  unfold run in Hrun. cbn [CodeAddr load_code SetCallCode] in Hrun. rewrite N4 in Hrun.
  unfold Run in Hrun.
  match type of Hrun with (if len ?cd =? 0 then _ else _) = _ => assert (Hlen : len cd <> 0) end.
  { cbn [Code load_code SetCallCode f_evm db with_db with_depth with_returnData with_jumpdests] in *.
    rewrite GetCode_view in N5 |- *. destruct Hq as [_ Hq]. specialize (Hq addr).
    apply (f_equal code) in Hq. cbn in Hq. rewrite Hq. intros E. apply N5.
    unfold len in E. apply nil_length_inv. lia. }
  rewrite (proj2 (Z.eqb_neq _ 0) Hlen) in Hrun.
  apply rbind_Ok_inv in Hrun as ([[r1 x1] f1] & Hl & [= _ _ _ <-]).
  by exists r1, x1, f1.
Qed.

(** C6: no false negatives: if a fuzzer call runs its target's code, reaches an
    instruction that overflows and executes it (the iteration continues), and
    the run neither stores to that marker slot nor creates contracts, then
    after the call the marker slot of the target is not zero. *)
Theorem marker_complete env caller addr input gas v e fuel ret left_over err e' k m g g' :
  Safety.fuzz_call env caller addr input gas v e -> gas < Z.of_nat fuel ->
  enters env caller addr v e ->
  Call env (loop env fuel) (AccountRef caller) addr input gas v e = Ok (ret, left_over, err, e') ->
  (forall n h, reached env fuel (entry_frame caller addr input gas v e) n h -> ~ stores h k /\ ~ creates h) ->
  reached env fuel (entry_frame caller addr input gas v e) (S m) g -> overflows g k ->
  step env (call_ops env (loop env m)) g = Ok (Next g') ->
  slot (db e') addr k <> zeroHash.
Proof.
  intros Hfc Hfuel Hen Hcall Hno Hr Ho Hs.
  apply Call_enters in Hcall as (r & x & f' & Hl & Hdb); [|done]. rewrite Hdb.
  pose proof (entry_inv _ _ _ _ _ _ _ _ Hfc Hfuel (en_funds _ _ _ _ _ Hen)) as Hinv. destruct Hfc.
  by eapply (loop_complete env).
Qed.

Definition demo_add : frame := default demo_entry (frame_at (demo_env true) 2 101 demo_entry).
Definition is_next (r : result outcome) : bool := match r with Ok (Next _) => true | _ => false end.
Definition next_frame (r : result outcome) (d : frame) : frame :=
  match r with Ok (Next f) => f | _ => d end.
Lemma is_next_frame r d : is_next r = true -> r = Ok (Next (next_frame r d)).
Proof. by destruct r as [[]| |]. Qed.

Definition demo_next : frame :=
  next_frame (step (demo_env true) (call_ops (demo_env true) (loop (demo_env true) 98)) demo_add) demo_entry.

Lemma demo_enters : enters (demo_env true) alice bob 0 (NewEVM (with_bob add_overflow)).
Proof. split; by vm_compute. Qed.

Lemma demo_add_reached : reached (demo_env true) 101 demo_entry 99 demo_add.
Proof.
  apply (frame_at_reached (demo_env true) 2 101). unfold demo_add.
  assert (H : bool_decide (is_Some (frame_at (demo_env true) 2 101 demo_entry)) = true) by (by vm_compute).
  by destruct (frame_at (demo_env true) 2 101 demo_entry).
Qed.

Lemma marker_complete_witness : slot (db (snd demo_call)) bob (StringToHash keyAdd) <> zeroHash.
Proof.
  apply (marker_complete (demo_env true) alice bob [] 100 0 (NewEVM (with_bob add_overflow)) 101 _ _ _ _
    (StringToHash keyAdd) 98 demo_add demo_next Safety.demo_fuzz_call ltac:(lia) demo_enters demo_call_ok).
  - intros n h Hr.
    assert (Ha : all_ops (demo_env true) (fun op => negb (op =? SSTORE) && negb (op =? CREATE)) 101
      demo_entry = true) by (by vm_compute).
    pose proof (all_ops_reached _ _ _ _ _ _ Ha Hr) as Hop.
    apply andb_true_iff in Hop as [H1 H2].
    apply negb_true_iff, Z.eqb_neq in H1. apply negb_true_iff, Z.eqb_neq in H2.
    split; [intros [E _]; exact (H1 E)|exact H2].
  - exact demo_add_reached.
  - exists 2, (two256 - 1), []. split; [by vm_compute|]. left. split; [by vm_compute|].
    split; [reflexivity|]. intros [_ H]. by vm_compute in H.
  - apply is_next_frame. by vm_compute.
Defined.

End Taint.
