(* ===== verification/Alu.v ===== *)
(** * The arithmetic and logic instructions compute their specification

    The uninstrumented ALU instructions against independent definitions on
    256-bit words: truncated signed division and remainder on the two's
    complement reading, sign extension, byte selection, modular
    exponentiation, and the modular and comparison instructions. *)

From stdpp Require Import base list numbers gmap option.
From S2P Require Import Prelude BigInt Types Params StateDB Opcodes Analysis Machine GasTable.
From S2P Require Import Instructions JumpTable Interp Spec.

#[local] Open Scope Z_scope.
#[local] Open Scope go_scope.

Module Alu.
Import Big Common StateDB Vm Instr Concrete.

(** ** Reference semantics on words *)

(** The two's complement value of a word. *)
Definition signed (x : Z) : Z := if x <? 2 ^ 255 then x else x - two256.

(** The word with a given two's complement value. *)
Definition word (x : Z) : Z := x mod two256.

(** [x] sign-extended from its [back]-th byte. *)
Definition sign_extend (back x : Z) : Z :=
  let n := 8 * (back + 1) in
  let low := x mod 2 ^ n in
  word (if low <? 2 ^ (n - 1) then low else low - 2 ^ n).

(** The [i]-th byte of a word, counted from the most significant one. *)
Definition byte_of (i x : Z) : Z := if i <? 32 then (x / 256 ^ (31 - i)) mod 256 else 0.

(** What an instruction that pops [n] items and pushes [v] does to a frame. *)
Definition pushes (n : nat) (v : Z) (f : frame) : result ((bytes * option vmerror) * frame) :=
  Ok (([], None), mkFrame (f_pc f) (f_evm f) (f_contract f) (f_mem f) (v :: drop n (f_stack f))).

(** ** Auxiliary facts *)

Lemma S256_signed x : S256 x = signed x.
Proof. done. Qed.

Lemma U256_word x : U256 x = word x.
Proof. apply U256_mod. Qed.

Lemma signed_zero x : is_word x -> signed x = 0 -> x = 0.
Proof. unfold signed, is_word, two256. intros Hx. destruct (Z.ltb_spec x (2 ^ 255)); lia. Qed.

Lemma quot_sign a b : b <> 0 -> Z.abs a / Z.abs b * (if a * b <? 0 then -1 else 1) = Z.quot a b.
Proof.
  intros Hb. rewrite <- Z.quot_div_nonneg by lia. rewrite Z.quot_abs by done.
  destruct (Z.ltb_spec (a * b) 0) as [H|H].
  - assert (Z.quot a b <= 0).
    { destruct (Z_le_gt_dec 0 a).
      - assert (b < 0) by nia. rewrite <- (Z.opp_involutive b), Z.quot_opp_r by lia.
        pose proof (Z.quot_pos a (- b)). lia.
      - assert (0 < b) by nia. rewrite <- (Z.opp_involutive a), Z.quot_opp_l by lia.
        pose proof (Z.quot_pos (- a) b). lia. }
    lia.
  - assert (0 <= Z.quot a b); [|lia]. destruct (Z_le_gt_dec 0 a).
    + destruct (decide (a = 0)) as [->|]; [by rewrite Z.quot_0_l|]. apply Z.quot_pos; nia.
    + assert (b < 0) by nia. rewrite <- Z.quot_opp_opp by lia. apply Z.quot_pos; lia.
Qed.

Lemma rem_sign a b : b <> 0 -> Z.abs a mod Z.abs b * (if a <? 0 then -1 else 1) = Z.rem a b.
Proof.
  intros Hb. rewrite <- Z.rem_mod_nonneg by lia. rewrite Z.rem_abs_r by done.
  destruct (Z.ltb_spec a 0).
  - rewrite Z.abs_neq, Z.rem_opp_l by lia. lia.
  - rewrite Z.abs_eq by lia. lia.
Qed.

(** Sign extension by masking is sign extension by value. *)
Lemma mod_pow2_succ x k : 0 <= k -> x mod 2 ^ (k + 1) = x mod 2 ^ k + 2 ^ k * Z.b2z (Z.testbit x k).
Proof.
  intros Hk. rewrite Z.testbit_spec', Z.pow_add_r by lia. apply Z.rem_mul_r; [|lia].
  pose proof (Z.pow_pos_nonneg 2 k). lia.
Qed.

Lemma lor_high_ones x k : 0 <= k -> Z.lor x (Z.lnot (Z.ones k)) = x mod 2 ^ k - 2 ^ k.
Proof.
  intros Hk. pose proof (Z.pow_pos_nonneg 2 k ltac:(lia) Hk) as Hp.
  rewrite <- (Z.lnot_involutive x) at 1. rewrite <- Z.lnot_land, Z.land_ones by done.
  unfold Z.lnot. replace (Z.pred (- x)) with (2 ^ k - 1 - x mod 2 ^ k + (- (x / 2 ^ k) - 1) * 2 ^ k).
  2: { pose proof (Z.div_mod x (2 ^ k)). lia. }
  pose proof (Z.mod_pos_bound x (2 ^ k) Hp).
  rewrite Z.mod_add, Z.mod_small by lia. lia.
Qed.

Lemma sign_extend_mask back x :
  0 <= back < 31 ->
  let bit := back * 8 + 7 in
  let mask := Z.shiftl 1 bit - 1 in
  U256 (if Z.testbit x bit then Z.lor x (Z.lnot mask) else Z.land x mask) = sign_extend back x.
Proof.
  intros Hb. cbv zeta. set (k := back * 8 + 7). rewrite Z.shiftl_1_l, U256_word.
  replace (2 ^ k - 1) with (Z.ones k) by (rewrite Z.ones_equiv; lia).
  unfold sign_extend. replace (8 * (back + 1)) with (k + 1) by lia.
  replace (k + 1 - 1) with k by lia. f_equal.
  pose proof (Z.pow_pos_nonneg 2 k ltac:(lia) ltac:(lia)) as Hp.
  pose proof (Z.mod_pos_bound x (2 ^ k) Hp). rewrite mod_pow2_succ by lia.
  destruct (Z.testbit x k); cbn [Z.b2z].
  - destruct (Z.ltb_spec (x mod 2 ^ k + 2 ^ k * 1) (2 ^ k)); [lia|].
    rewrite lor_high_ones, Z.pow_add_r by lia. lia.
  - destruct (Z.ltb_spec (x mod 2 ^ k + 2 ^ k * 0) (2 ^ k)); [|lia].
    rewrite Z.land_ones by lia. lia.
Qed.

(** ** The instructions *)

Section Binary.
Context (f : frame) (x y : Z) (st : list Z).
Hypothesis Hst : f_stack f = x :: y :: st.
Hypothesis Hx : is_word x.
Hypothesis Hy : is_word y.

Ltac alu op :=
  unfold op, pushes, mbindM, pop, push, done_with, mret; rewrite Hst;
  cbn [st_pop rbind f_stack f_pc f_evm f_contract f_mem st_push drop].

Lemma opSdiv_alu :
  opSdiv f = pushes 2 (if y =? 0 then 0 else word (Z.quot (signed x) (signed y))) f.
Proof.
  alu opSdiv. rewrite !S256_signed, <- U256_word. destruct (Z.eqb_spec y 0) as [->|Hne].
  - done.
  - destruct (Z.eqb_spec (signed y) 0) as [E|E]; [by apply signed_zero in E|].
    rewrite <- quot_sign by done. done.
Qed.

Lemma opSmod_alu :
  opSmod f = pushes 2 (if y =? 0 then 0 else word (Z.rem (signed x) (signed y))) f.
Proof.
  alu opSmod. rewrite !S256_signed, <- U256_word. destruct (Z.eqb_spec y 0) as [->|Hne].
  - done.
  - destruct (Z.eqb_spec (signed y) 0) as [E|E]; [by apply signed_zero in E|].
    rewrite <- rem_sign by done. done.
Qed.

Lemma opMod_alu : opMod f = pushes 2 (if y =? 0 then 0 else x mod y) f.
Proof.
  alu opMod. destruct (Z.eqb_spec y 0); [done|]. unfold is_word in *.
  rewrite U256_id; [done|]. pose proof (Z.mod_pos_bound x y). unfold is_word. lia.
Qed.

Lemma opExp_alu : opExp f = pushes 2 (word (x ^ y)) f.
Proof. alu opExp. rewrite Exp_spec by apply Hy. done. Qed.

Lemma opSignExtend_alu :
  opSignExtend f = pushes 2 (if x <? 31 then sign_extend x y else y) f.
Proof.
  alu opSignExtend. destruct (Z.ltb_spec x 31) as [Hlt|Hge]; [|done].
  cbn [st_pop rbind f_stack f_pc f_evm f_contract f_mem st_push drop]. destruct Hx as [Hx0 _].
  assert (Hu : Uint64 x = x) by (unfold Uint64; rewrite Z.abs_eq, Z.mod_small by (unfold two64; lia); done).
  rewrite Hu. pose proof (sign_extend_mask x y ltac:(lia)) as H. cbv zeta in H. by rewrite H.
Qed.

Lemma opByte_alu : opByte f = pushes 2 (byte_of x y) f.
Proof.
  alu opByte. unfold byte_of. destruct (Z.ltb_spec x 32) as [Hlt|Hge]; [|done].
  destruct Hx as [Hx0 _], Hy as [Hy0 _]. unfold Int64. destruct (Z.ltb_spec x 0); [lia|].
  rewrite Z.abs_eq, i64_id by (unfold two63; lia). by rewrite Byte_spec, Z.abs_eq by lia.
Qed.

Lemma S256_twice : S256 (S256 y) = S256 y.
Proof.
  unfold S256, is_word, tt255, tt256, two256 in *. destruct (Z.ltb_spec y (2 ^ 255)).
  - destruct (Z.ltb_spec y (2 ^ 255)); lia.
  - destruct (Z.ltb_spec (y - 2 ^ 256) (2 ^ 255)); lia.
Qed.

Lemma compare_alu :
  opLt f = pushes 2 (if x <? y then 1 else 0) f /\ opGt f = pushes 2 (if y <? x then 1 else 0) f /\
  opSlt f = pushes 2 (if signed x <? signed y then 1 else 0) f /\
  opSgt f = pushes 2 (if signed y <? signed x then 1 else 0) f /\
  opEq f = pushes 2 (if x =? y then 1 else 0) f.
Proof.
  repeat split.
  - alu opLt. done.
  - alu opGt. done.
  - alu opSlt. rewrite S256_twice. done.
  - alu opSgt. done.
  - alu opEq. done.
Qed.

End Binary.

Lemma modular_alu f x y z st :
  f_stack f = x :: y :: z :: st -> is_word z ->
  opAddmod f = pushes 3 (if z =? 0 then 0 else (x + y) mod z) f /\
  opMulmod f = pushes 3 (if z =? 0 then 0 else (x * y) mod z) f.
Proof.
  intros Hst [Hz0 Hz]. unfold opAddmod, opMulmod, pushes, mbindM, pop, push, done_with, mret. rewrite Hst.
  cbn [st_pop rbind f_stack f_pc f_evm f_contract f_mem st_push drop].
  destruct (Z.ltb_spec 0 z) as [Hp|Hp], (Z.eqb_spec z 0) as [E|E]; try lia; [|done].
  rewrite !U256_id; [done|..]; unfold is_word; pose proof (Z.mod_pos_bound (x + y) z Hp);
    pose proof (Z.mod_pos_bound (x * y) z Hp); lia.
Qed.

(** C7: signed arithmetic: on words, SDIV and SMOD compute the truncated
    quotient and remainder of the two's complement values (0 for a zero
    divisor), SLT and SGT compare the two's complement values, and SIGNEXTEND
    extends the sign from the given byte; nothing else of the frame changes. *)
Theorem signed_alu f x y st :
  f_stack f = x :: y :: st -> is_word x -> is_word y ->
  opSdiv f = pushes 2 (if y =? 0 then 0 else word (Z.quot (signed x) (signed y))) f /\
  opSmod f = pushes 2 (if y =? 0 then 0 else word (Z.rem (signed x) (signed y))) f /\
  opSlt f = pushes 2 (if signed x <? signed y then 1 else 0) f /\
  opSgt f = pushes 2 (if signed y <? signed x then 1 else 0) f /\
  opSignExtend f = pushes 2 (if x <? 31 then sign_extend x y else y) f.
Proof.
  intros H Hx Hy. split; [by apply (opSdiv_alu f x y st)|]. split; [by apply (opSmod_alu f x y st)|].
  destruct (compare_alu f x y st) as (_ & _ & H1 & H2 & _); [done..|]. split; [done|]. split; [done|].
  by apply (opSignExtend_alu f x y st).
Qed.

(** A frame with the given stack. *)
Definition demo_frame (st : list Z) : frame :=
  mkFrame 3 (NewEVM New) (NewContract (AccountRef alice) (AccountRef bob) (Some 0) 9) NewMemory st.

(** -7 / 2 = -3 and -7 < 2. *)
Lemma signed_alu_witness :
  opSdiv (demo_frame [two256 - 7; 2; 5]) = pushes 2 (two256 - 3) (demo_frame [two256 - 7; 2; 5]) /\
  opSlt (demo_frame [two256 - 7; 2; 5]) = pushes 2 1 (demo_frame [two256 - 7; 2; 5]).
Proof.
  destruct (signed_alu (demo_frame [two256 - 7; 2; 5]) (two256 - 7) 2 [5] eq_refl) as (H1 & _ & H2 & _);
    [by vm_compute|by vm_compute|]. rewrite H1, H2. by vm_compute.
Defined.

(** unsigned arithmetic: on words, MOD, ADDMOD and MULMOD compute the
    remainder with exact intermediate results (0 for a zero modulus), EXP the
    power modulo 2^256, BYTE the selected byte, and the comparisons the
    unsigned and signed orders. *)
Theorem unsigned_alu f x y z st :
  f_stack f = x :: y :: z :: st -> is_word x -> is_word y -> is_word z ->
  opMod f = pushes 2 (if y =? 0 then 0 else x mod y) f /\
  opAddmod f = pushes 3 (if z =? 0 then 0 else (x + y) mod z) f /\
  opMulmod f = pushes 3 (if z =? 0 then 0 else (x * y) mod z) f /\
  opExp f = pushes 2 (word (x ^ y)) f /\
  opByte f = pushes 2 (byte_of x y) f /\
  opLt f = pushes 2 (if x <? y then 1 else 0) f /\ opGt f = pushes 2 (if y <? x then 1 else 0) f /\
  opSlt f = pushes 2 (if signed x <? signed y then 1 else 0) f /\
  opSgt f = pushes 2 (if signed y <? signed x then 1 else 0) f /\
  opEq f = pushes 2 (if x =? y then 1 else 0) f.
Proof.
  intros H Hx Hy Hz. destruct (modular_alu f x y z st H Hz) as [H1 H2].
  split; [by apply (opMod_alu f x y (z :: st))|]. split; [done|]. split; [done|].
  split; [by apply (opExp_alu f x y (z :: st))|]. split; [by apply (opByte_alu f x y (z :: st))|].
  by apply (compare_alu f x y (z :: st)).
Qed.

Lemma unsigned_alu_witness :
  opMulmod (demo_frame [two256 - 1; two256 - 1; 12]) = pushes 3 9 (demo_frame [two256 - 1; two256 - 1; 12]) /\
  opExp (demo_frame [2; 255; 0]) = pushes 2 (2 ^ 255) (demo_frame [2; 255; 0]).
Proof.
  split.
  - destruct (unsigned_alu (demo_frame [two256 - 1; two256 - 1; 12]) (two256 - 1) (two256 - 1) 12 [] eq_refl)
      as (_ & _ & H & _); [by vm_compute..|]. rewrite H. by vm_compute.
  - destruct (unsigned_alu (demo_frame [2; 255; 0]) 2 255 0 [] eq_refl) as (_ & _ & _ & H & _);
      [by vm_compute..|]. rewrite H. by vm_compute.
Defined.

End Alu.
