(* ===== verification/DataOps.v ===== *)
(** * Memory, stack and code access

    Round trips and frame conditions for the byte-level operations: what is
    written to memory is read back, elsewhere nothing changes; MSTORE/MLOAD
    and SSTORE/SLOAD round trips on words; PUSH reads its operand from the
    code, padded with zeros past its end; memory expansion is charged the
    difference of the fees. *)

From stdpp Require Import base list numbers gmap option.
From S2P Require Import Prelude BigInt Types Params StateDB Opcodes Analysis Machine GasTable.
From S2P Require Import Instructions JumpTable Interp Spec GasSpec ExecSpec Alu.

#[local] Open Scope Z_scope.
#[local] Open Scope go_scope.

Module DataOps.
Import Big Common Params StateDB Analysis Vm Gas Instr Spec Concrete ExecSpec Alu.

(** ** Memory *)

Lemma copy_into_full w v : length v = length w -> copy_into w v = v.
Proof. intros H. unfold copy_into. rewrite take_ge, drop_ge, app_nil_r by lia. done. Qed.

(** The contents after a write. *)
Definition spliced (l : bytes) (off : Z) (v : bytes) : bytes :=
  take (Z.to_nat off) l ++ v ++ drop (Z.to_nat off + length v) l.

Lemma mem_Set_spliced m off v :
  0 <= off -> 0 < len v -> off + len v <= len (store m) -> len (store m) < 2 ^ 40 ->
  mem_Set m off (len v) v = Ok (mkMemory (spliced (store m) off v) (lastGasCost m)).
Proof.
  intros Ho Hs Hl Hm. unfold mem_Set. destruct (Z.ltb_spec (len (store m)) (len v)); [lia|].
  destruct (Z.ltb_spec 0 (len v)); [|lia].
  rewrite u64_id by (unfold is_u64, two64; lia). unfold copy_at. rewrite slice_Ok by lia. cbn [rbind].
  unfold spliced. rewrite copy_into_full.
  - by replace (Z.to_nat (off + len v)) with (Z.to_nat off + length v)%nat by (unfold len; lia).
  - rewrite length_take, length_drop. unfold len in *. lia.
Qed.

Lemma mem_Get_slice m off size :
  0 <= off -> 0 < size -> off + size <= len (store m) -> len (store m) < 2 ^ 40 ->
  mem_Get m off size = Ok (take (Z.to_nat size) (drop (Z.to_nat off) (store m))).
Proof.
  intros Ho Hs Hl Hm. unfold mem_Get. destruct (Z.eqb_spec size 0); [lia|].
  destruct (Z.ltb_spec off (len (store m))); [|lia].
  rewrite i64_id by (unfold two63; lia). rewrite slice_Ok by lia. do 2 f_equal. lia.
Qed.

Lemma spliced_same l off v :
  0 <= off -> off + len v <= len l ->
  take (length v) (drop (Z.to_nat off) (spliced l off v)) = v.
Proof.
  intros Ho Hl. unfold spliced, len in *.
  rewrite drop_app_length' by (rewrite length_take; lia). by rewrite take_app_length.
Qed.

Lemma spliced_before l off v o s :
  0 <= o -> 0 <= s -> o + s <= off -> off + len v <= len l ->
  take (Z.to_nat s) (drop (Z.to_nat o) (spliced l off v)) = take (Z.to_nat s) (drop (Z.to_nat o) l).
Proof.
  intros Ho Hs Hb Hl. unfold spliced, len in *.
  rewrite drop_app_le by (rewrite length_take; lia).
  rewrite take_app_le by (rewrite length_drop, length_take; lia).
  rewrite <- (take_drop (Z.to_nat off) l) at 2.
  rewrite drop_app_le by (rewrite length_take; lia).
  by rewrite take_app_le by (rewrite length_drop, length_take; lia).
Qed.

Lemma spliced_after l off v o :
  0 <= off -> off + len v <= o -> o <= len l ->
  drop (Z.to_nat o) (spliced l off v) = drop (Z.to_nat o) l.
Proof.
  intros Ho Hb Hl. unfold spliced, len in *. rewrite app_assoc.
  rewrite drop_app_ge by (rewrite length_app, length_take; lia). rewrite drop_drop. f_equal.
  rewrite length_app, length_take. lia.
Qed.

(** memory behaves as an array of bytes: within the bounds of a memory
    below 2^40 bytes, writing [v] at [off] succeeds, reading the same range
    gives [v] back, and every range disjoint from it reads as before. *)
Theorem memory_read_write m off v :
  0 <= off -> 0 < len v -> off + len v <= len (store m) -> len (store m) < 2 ^ 40 ->
  exists m', mem_Set m off (len v) v = Ok m' /\ len (store m') = len (store m) /\
    mem_Get m' off (len v) = Ok v /\
    forall o s, 0 <= o -> 0 < s -> o + s <= len (store m) -> o + s <= off \/ off + len v <= o ->
      mem_Get m' o s = mem_Get m o s.
Proof.
  intros Ho Hs Hl Hm. rewrite mem_Set_spliced by done. eexists; split; [done|]. cbn [store].
  assert (Hlen : len (spliced (store m) off v) = len (store m)).
  { unfold spliced. rewrite !len_app, len_take, len_drop. unfold len in *. lia. }
  split; [done|]. split.
  - rewrite mem_Get_slice by (cbn [store]; lia). cbn [store]. f_equal.
    unfold len at 1. rewrite Nat2Z.id. by apply spliced_same.
  - intros o s Ho' Hs' Hb Hdis. rewrite !mem_Get_slice by (cbn [store]; lia). cbn [store]. f_equal.
    destruct Hdis; [apply spliced_before; lia|by rewrite spliced_after by lia].
Qed.

Lemma memory_read_write_witness :
  let m := mkMemory (zeros 64) 6 in
  exists m', mem_Set m 3 2 [7; 9] = Ok m' /\ mem_Get m' 3 2 = Ok [7; 9] /\
    mem_Get m' 5 4 = mem_Get m 5 4.
Proof.
  intros m. destruct (memory_read_write m 3 [7; 9]) as (m' & H1 & _ & H2 & H3); [by vm_compute..|].
  exists m'. split; [exact H1|]. split; [exact H2|]. apply H3; [lia..|by vm_compute|by right].
Defined.

(** ** MSTORE / MLOAD *)

Lemma PaddedBigBytes_len v : is_word v -> len (PaddedBigBytes v 32) = 32.
Proof. intros [H0 H1]. rewrite PaddedBigBytes_spec by (rewrite ?Z.abs_eq; done). by rewrite len_be. Qed.

Lemma SetBytes_PaddedBigBytes v : is_word v -> SetBytes (PaddedBigBytes v 32) = v.
Proof.
  intros [H0 H1]. rewrite PaddedBigBytes_spec by (rewrite ?Z.abs_eq; done).
  rewrite SetBytes_be, Z.abs_eq by done. apply Z.mod_small. done.
Qed.

(** storing a word in memory and loading it from the same offset gives
    the word back: MSTORE at [off] (covered by the memory) followed by MLOAD
    of [off] leaves the stored word on the stack. *)
Theorem mstore_mload pc e c m off v st :
  mem_ok m -> 0 <= off -> off + 32 <= len (store m) -> is_word v ->
  exists m', opMstore (mkFrame pc e c m (off :: v :: st)) = Ok (([], None), mkFrame pc e c m' st) /\
    mem_ok m' /\
    opMload (mkFrame pc e c m' (off :: st)) = Ok (([], None), mkFrame pc e c m' (v :: st)).
Proof.
  intros Hm Ho Hl Hv. pose proof (mem_ok_len m Hm) as Hmax. pose proof (PaddedBigBytes_len v Hv) as Hp.
  destruct (mem_Set_ok m off 32 (PaddedBigBytes v 32) Hm Ho ltac:(lia)) as (m' & H1 & H2 & H3);
    [unfold calcMemSize; simpl; lia|apply PaddedBigBytes_ok|].
  exists m'. change (Uint64 32) with 32 in H1. split; [|split; [done|]].
  - unfold opMstore, memSet. ExecSpec.go_run. by rewrite H1.
  - unfold opMload, memGet. ExecSpec.go_run.
    rewrite Int64_id by (unfold two63; lia). rewrite Uint64_id in H1 by (unfold is_u64, two64; lia).
    rewrite <- Hp in H1 at 1. rewrite mem_Set_spliced in H1 by lia. injection H1 as <-.
    cbn [store] in *. rewrite mem_Get_slice by (cbn [store]; lia). ExecSpec.go_run. cbn [store].
    replace (Z.to_nat 32) with (length (PaddedBigBytes v 32)) by (unfold len in Hp; lia).
    rewrite spliced_same by lia. by rewrite SetBytes_PaddedBigBytes.
Qed.

Lemma demo_memory_ok : mem_ok (mkMemory (zeros 64) 6).
Proof. split; [apply bytes_ok_zeros|]. exists 2. by vm_compute. Qed.

Lemma mstore_mload_witness :
  exists m', opMstore (mkFrame 0 (NewEVM New) (NewContract (AccountRef alice) (AccountRef bob) None 0)
      (mkMemory (zeros 64) 6) [17; two256 - 5]) =
    Ok (([], None), mkFrame 0 (NewEVM New) (NewContract (AccountRef alice) (AccountRef bob) None 0) m' []).
Proof.
  destruct (mstore_mload 0 (NewEVM New) (NewContract (AccountRef alice) (AccountRef bob) None 0)
    (mkMemory (zeros 64) 6) 17 (two256 - 5) [] demo_memory_ok) as (m' & H & _); [lia|by vm_compute..|].
  exists m'. exact H.
Defined.

(** ** SSTORE / SLOAD *)

(** storage round trip: SSTORE of a word followed by SLOAD of the same key
    pushes the word, reports both accesses to the callback in order, and
    changes no other slot. *)
Theorem sstore_sload pc e c m key v st :
  is_word v ->
  exists e1 e2,
    opSstore (mkFrame pc e c m (key :: v :: st)) = Ok (([], None), mkFrame pc e1 c m st) /\
    opSload (mkFrame pc e1 c m (key :: st)) = Ok (([], None), mkFrame pc e2 c m (v :: st)) /\
    callbacks e2 = callbacks e ++ [CbSstore (BigToHash key) v; CbSload (BigToHash key) v] /\
    forall a k, (a, k) <> (self c, BigToHash key) -> slot (db e2) a k = slot (db e) a k.
Proof.
  intros Hv. unfold opSstore, opSload, callback.
  set (d1 := SetState (db e) (self c) (BigToHash key) (BigToHash v)).
  pose proof (GetState_fst d1 (self c) (BigToHash key)) as Hg.
  pose proof (GetState_snd d1 (self c) (BigToHash key)) as Hs.
  destruct (GetState d1 (self c) (BigToHash key)) as [h d2] eqn:E. cbn [fst snd] in Hg, Hs.
  assert (Hh : Hash_Big h = v).
  { rewrite Hg. unfold d1. rewrite slot_SetState, decide_True by done.
    rewrite Hash_Big_BigToHash, Z.abs_eq by apply Hv. apply Z.mod_small. done. }
  exists (with_callback (with_db e d1) (CbSstore (BigToHash key) v)).
  exists (with_callback (with_db (with_callback (with_db e d1) (CbSstore (BigToHash key) v)) d2)
    (CbSload (BigToHash key) v)).
  split; [done|]. split; [|split].
  - go_run. cbn [db with_callback with_db]. rewrite E. go_run. by rewrite Hh.
  - cbn. by rewrite <- app_assoc.
  - intros a k Hne. cbn [db with_callback with_db]. unfold slot. rewrite (proj1 Hs a). fold (slot d1 a k).
    unfold d1. rewrite slot_SetState, decide_False; [done|]. intros [<- <-]. done.
Qed.

Lemma sstore_sload_witness :
  exists e1, opSstore (demo_frame [8; 1234; 5]) =
    Ok (([], None), mkFrame 3 e1 (f_contract (demo_frame [])) NewMemory [5]).
Proof.
  destruct (sstore_sload 3 (NewEVM New) (f_contract (demo_frame [])) NewMemory 8 1234 [5])
    as (e1 & e2 & H & _); [by vm_compute|]. exists e1. exact H.
Defined.

(** ** PUSH *)

(** The [n] bytes of code after [pc], with zeros past the end. *)
Definition code_bytes (code : bytes) (pc : Z) (n : nat) : bytes :=
  (fun i => default 0 (code !! (Z.to_nat pc + 1 + i)%nat)) <$> seq 0 n.

Lemma code_bytes_slice code pc n :
  code_bytes code pc n =
  take n (drop (Z.to_nat pc + 1) code) ++ replicate (n - (length code - (Z.to_nat pc + 1))) 0.
Proof.
  apply list_eq. intros i. unfold code_bytes. rewrite list_lookup_fmap.
  destruct (decide (i < n)%nat) as [Hi|Hi].
  - rewrite lookup_seq_lt by done. cbn [fmap option_fmap option_map Nat.add].
    destruct (decide (Z.to_nat pc + 1 + i < length code)%nat) as [Hc|Hc].
    + rewrite lookup_app_l by (rewrite length_take, length_drop; lia).
      rewrite lookup_take_lt, lookup_drop by done.
      destruct (lookup_lt_is_Some_2 code (Z.to_nat pc + 1 + i) Hc) as [b Hb]. by rewrite Hb.
    + rewrite lookup_app_r by (rewrite length_take, length_drop; lia).
      rewrite lookup_replicate_2 by (rewrite length_take, length_drop; lia).
      by rewrite lookup_ge_None_2 by lia.
  - rewrite lookup_seq_ge by lia. cbn. symmetry. apply lookup_ge_None_2.
    rewrite length_app, length_take, length_drop, length_replicate. lia.
Qed.

(** PUSHn pushes the big-endian value of the n code bytes that follow it,
    reading zeros past the end of the code, and advances the program counter
    by n (the interpreter adds one). *)
Theorem push_reads_code pc e c m st n :
  0 <= pc < len (Code c) -> len (Code c) < two63 - 64 -> (1 <= n <= 32)%nat ->
  makePush (Z.of_nat n) (Z.of_nat n) (mkFrame pc e c m st) =
  Ok (([], None), mkFrame (pc + Z.of_nat n) e c m (SetBytes (code_bytes (Code c) pc n) :: st)).
Proof.
  intros Hpc Hlen Hn. unfold makePush. go_run.
  rewrite (u64_id (pc + 1)), i64_id, (u64_id (pc + Z.of_nat n)) by (unfold is_u64, two63, two64 in *; lia).
  set (s := if pc + 1 <? len (Code c) then _ else _).
  assert (Hs : s = pc + 1) by (unfold s; destruct (Z.ltb_spec (pc + 1) (len (Code c))); lia).
  set (t := if s + Z.of_nat n <? len (Code c) then _ else _).
  assert (Ht : t = Z.min (s + Z.of_nat n) (len (Code c)))
    by (unfold t; destruct (Z.ltb_spec (s + Z.of_nat n) (len (Code c))); lia).
  rewrite slice_Ok by lia. go_run. do 4 f_equal. f_equal.
  rewrite RightPadBytes_spec, code_bytes_slice. unfold zeros.
  rewrite len_take, len_drop, Ht, Hs. clear s t Hs Ht. unfold len in *.
  replace (Z.to_nat (pc + 1)) with (Z.to_nat pc + 1)%nat by lia. f_equal; [|f_equal; lia].
  destruct (decide (Z.to_nat pc + 1 + n <= length (Code c))%nat).
  - f_equal. lia.
  - rewrite !take_ge by (rewrite length_drop; lia). done.
Qed.

Definition push_code : Contract :=
  SetCallCode (NewContract (AccountRef alice) (AccountRef bob) None 0) bob zeroHash [0x61; 0x12; 0x34; 0x61; 0x56].

Lemma push_reads_code_witness :
  makePush 2 2 (mkFrame 3 (NewEVM New) push_code NewMemory []) =
  Ok (([], None), mkFrame 5 (NewEVM New) push_code NewMemory [0x5600]).
Proof.
  apply (push_reads_code 3 (NewEVM New) push_code NewMemory [] 2); [by vm_compute|by vm_compute|lia].
Defined.

(** ** Jumps *)

(** C8: a jump goes exactly to the JUMPDEST instructions of the code: with a
    coherent cache, JUMP to [pos] continues at [pos] when [pos] is the start of
    an instruction (not push data) holding JUMPDEST, and otherwise fails with
    an invalid-jump error, without panicking. *)
Theorem jump_exact pc e c m pos st :
  0 <= pos -> len (Code c) < 2 ^ 62 -> cache_ok (jumpdests e) (CodeHash c) (Code c) ->
  exists d, cache_ok d (CodeHash c) (Code c) /\
  ((pos < len (Code c) /\ op_at (Code c) pos = Op.JUMPDEST /\ is_instr (Code c) pos /\
    opJump (mkFrame pc e c m (pos :: st)) =
      Ok (([], None), mkFrame pos (with_jumpdests e d) c m st)) \/
   (~ (pos < len (Code c) /\ op_at (Code c) pos = Op.JUMPDEST /\ is_instr (Code c) pos) /\
    exists err, opJump (mkFrame pc e c m (pos :: st)) =
      Ok (([], Some err), mkFrame pc (with_jumpdests e d) c m st))).
Proof.
  intros Hpos Hlen Hc. destruct (has_spec _ _ (Code c) pos Hpos Hc) as (b & d & Hh & Hd & Hb).
  exists d. split; [done|]. unfold opJump, valid_dest. go_run. rewrite Hh. go_run.
  destruct b; go_run.
  - left. destruct (proj1 Hb eq_refl) as (H1 & H2 & H3 & H4). repeat (split; [done|]).
    rewrite Uint64_id by (unfold is_u64, two64; lia). done.
  - right. split; [|by eexists]. intros (H1 & H2 & H3).
    assert (false = true) by (apply Hb; repeat split; try done; lia). done.
Qed.

(** PUSH1 5b, JUMP, JUMPDEST: position 1 is push data. *)
Definition jump_code : Contract :=
  SetCallCode (NewContract (AccountRef alice) (AccountRef bob) None 0) bob zeroHash [0x60; 0x5b; 0x56; 0x5b].

Lemma jump_exact_witness :
  exists d err, opJump (mkFrame 2 (NewEVM New) jump_code NewMemory [1]) =
    Ok (([], Some err), mkFrame 2 (with_jumpdests (NewEVM New) d) jump_code NewMemory []).
Proof.
  destruct (jump_exact 2 (NewEVM New) jump_code NewMemory 1 []) as (d & _ & [(_ & _ & _ & H)|(_ & err & H)]);
    [lia|by vm_compute|intros x; cbn; by rewrite lookup_empty| |].
  - exfalso. apply (f_equal (fun r => match r with Ok ((_, None), _) => true | _ => false end)) in H.
    by vm_compute in H.
  - by exists d, err.
Defined.

(** ** Memory fees *)

(** C9: memory expansion is charged exactly: as long as sizes stay below 2^32
    words, expanding a memory of [w] words to [w'] words costs the difference
    3*w' + w'^2/512 - (3*w + w^2/512), or nothing if it does not grow, so the
    fees paid over a run telescope to the fee of the final size. *)
Theorem memory_fee_exact m w w' :
  mem_ok m -> len (store m) = 32 * w -> 0 <= w < 2 ^ 32 -> 0 <= w' < 2 ^ 32 ->
  exists m', memoryGasCost m (32 * w') = ((memfee (Z.max w w') - memfee w, None), m') /\
    mem_charged m' (32 * w').
Proof.
  intros Hm Hw Hr Hr'. pose proof (memoryGasCost_spec m w' Hm ltac:(lia)) as H.
  destruct (memoryGasCost m (32 * w')) as [[cost err] m'] eqn:E. destruct H as (H1 & H2 & H3).
  destruct err as [err|].
  - exfalso. unfold memoryGasCost in E. destruct (32 * w' =? 0); [done|].
    destruct (Z.ltb_spec 0xffffffffe0 (32 * w')); [lia|]. by split_if.
  - destruct H3 as [H3 H4]. exists m'. split; [|done]. do 3 f_equal.
    destruct Hm as [_ (w0 & _ & E0 & E1)]. assert (w0 = w) as -> by lia.
    destruct H3 as [_ (w1 & w2 & _ & _ & E2 & E3 & E4)]. rewrite H1 in E2.
    assert (w1 = w) as -> by lia. assert (w2 = w') as -> by lia.
    rewrite H4, E4, E1, !memcost_exact by lia.
    pose proof (memfee_bound (Z.max w w') ltac:(lia)). pose proof (memfee_bound w Hr).
    pose proof (memfee_mono w (Z.max w w') ltac:(lia)).
    apply u64_id. unfold is_u64, two63, two64 in *. lia.
Qed.

Lemma memory_fee_exact_witness :
  exists m', memoryGasCost (mkMemory (zeros 64) 6) (32 * 1000) = ((4947, None), m').
Proof.
  destruct (memory_fee_exact (mkMemory (zeros 64) 6) 2 1000 demo_memory_ok) as (m' & H & _);
    [by vm_compute|lia|lia|]. exists m'. exact H.
Defined.

(** the guard of [memoryGasCost] is too weak: its comment says that
    0xffffffffe0 bytes is the largest size whose fee does not overflow, but
    already at 2^32 words the square wraps to zero, and the fee charged is
    2^55 short of the formula. *)
Theorem memory_fee_wraps :
  32 * 2 ^ 32 <= 0xffffffffe0 /\
  fst (memoryGasCost NewMemory (32 * 2 ^ 32)) = (3 * 2 ^ 32, None) /\
  memfee (2 ^ 32) = 3 * 2 ^ 32 + 2 ^ 55.
Proof. by vm_compute. Qed.

End DataOps.
