(* ===== verification/Defects.v ===== *)
(** * Behaviour that departs from the documentation

    Closed theorems, proved by running the definitions: where the program does
    something its comments, or the EVM it is derived from, say it does not.
    The theorems of the other files state what holds around these cases. *)

From stdpp Require Import base list numbers gmap option.
From S2P Require Import Prelude BigInt Types Params StateDB Opcodes Analysis Machine GasTable.
From S2P Require Import Instructions JumpTable Precompiles Interp Spec ExecSpec.

#[local] Open Scope Z_scope.
#[local] Open Scope go_scope.

Module Defects.
Import Op Big Common Params StateDB Analysis Vm Instr Table Precompiles Interp Concrete ExecSpec.

(** ** The shared jump-destination cache *)

(** PUSH1 3, JUMP, JUMPDEST, then CALL to [carol] with 5000 gas. *)
Definition jumping_caller : bytes :=
  [0x60; 3; 0x56; 0x5b; 0x60; 0; 0x60; 0; 0x60; 0; 0x60; 0; 0x60; 0;
   0x60; 0xca; 0x61; 0x13; 0x88; 0xf1; 0x00].

(** PUSH1 56, JUMP, 53 zeros, JUMPDEST, STOP: valid code of 58 bytes. *)
Definition jumping_callee : bytes := [0x60; 56; 0x56] ++ zeros 53 ++ [0x5b; 0x00].

Definition two_jumpers : StateDB := SetCode (with_bob jumping_caller) carol jumping_callee.

Definition run_from_alice (b : bool) (to : Address) (gas value : Z) (d : StateDB) :
    call_result :=
  Call (demo_env b) (loop (demo_env b) (S (Z.to_nat gas))) (AccountRef alice) to [] gas value (NewEVM d).

Definition returned (r : call_result) : option (Z * option vmerror) :=
  match r with Ok (_, g, err, _) => Some (g, err) | _ => None end.

(** With recursion enabled two well-formed contracts make the virtual
    machine panic.  The state database stores no code hashes, so every
    contract has the zero hash, and a callee shares its caller's
    jump-destination map: the callee's jump is checked against the bitmap of
    the caller's shorter code, and the bound test of [codeSegment] lets the
    first byte past the end through.  Each contract on its own runs to its
    end, and the same call returns when recursion is disabled. *)
Lemma shared_cache_reached :
  run_from_alice false bob 10000 0 two_jumpers = Panic /\
  returned (run_from_alice false carol 5000 0 two_jumpers) = Some (4988, None) /\
  returned (run_from_alice true bob 10000 0 two_jumpers) = Some (9267, None).
Proof. vm_compute. done. Qed.




(** ** No roll-back *)

(** PUSH1 7, PUSH1 1, SSTORE, then the invalid opcode fe. *)
Definition store_then_fail : bytes := [0x60; 7; 0x60; 1; 0x55; 0xfe].

Definition slot_after (r : call_result) (a : Address) (k : Z) : option Z :=
  match r with
  | Ok (_, _, _, e) => Some (Hash_Big (slot (db e) a (BigToHash k)))
  | _ => None
  end.

Definition balance_after (r : call_result) (a : Address) : option Z :=
  match r with
  | Ok (_, _, _, e) => Some (balance (account_at (db e) a))
  | _ => None
  end.

(** a failed call keeps its effects.  [Call] is documented to reverse the
    state in case of an execution error, but [RevertToSnapshot] does nothing:
    the call fails and all its gas is consumed, yet the storage write and the
    value transfer it made remain. *)
Theorem failed_call_keeps_effects :
  let r := run_from_alice true bob 49999 30 (with_bob store_then_fail) in
  returned r = Some (0, Some (errInvalidOpcode 0xfe)) /\
  slot_after r bob 1 = Some 7 /\
  balance_after r alice = Some 70 /\ balance_after r bob = Some 30.
Proof. vm_compute. done. Qed.

(** ** Balances *)

(** ADDRESS, SELFDESTRUCT. *)
Definition destroy_self : bytes := [0x30; 0xff].
(** PUSH1 ca, SELFDESTRUCT. *)
Definition destroy_to_carol : bytes := [0x60; 0xca; 0xff].

(** SELFDESTRUCT creates value: [Suicide] does not clear the balance of
    the destroyed account, so the beneficiary is credited with an amount that
    is not debited anywhere, and a contract that names itself ends up with
    twice its balance.  The balances of this database also grow by 100 with each
    read, of which the pricing and the instruction make one each. *)
Theorem selfdestruct_mints :
  let r := run_from_alice true bob 49999 30 (with_bob destroy_self) in
  let s := run_from_alice true bob 49999 30 (with_bob destroy_to_carol) in
  returned r = Some (19997, None) /\ balance_after r bob = Some 460 /\
  balance_after s bob = Some 230 /\ balance_after s carol = Some 230.
Proof. vm_compute. done. Qed.

(** ** Slices *)

(** [getData], documented as overflow safe, is not: the end of the range
    wraps around at 64 bits and the slice expression panics. *)
Theorem getData_wraps :
  getData [7] 1 (two64 - 1) = Panic /\ getData [7] 0 (two64 - 1) = Ok [7].
Proof. by vm_compute. Qed.

End Defects.
