(* ===== verification/AbiTypes.v ===== *)
(** * ABI: types, arguments, methods and events

    Translates [src/accounts/abi/type.go] (parsing of type names),
    [argument.go] (the argument lists), [method.go], [event.go] and
    [abi.go] (the tables), with the parts of Go's reflection that they use.

    A Go type is a tree ([gtyp]); the types that occur are those the package
    builds itself and those of the values a caller passes.  Names are ASCII
    strings.  The JSON reader is Go's: [UnmarshalJSON] starts from the fields
    it has read. *)

From Stdlib Require Import String Ascii.
From stdpp Require Import base list numbers option strings pretty.
From S2P Require Import Prelude BigInt Types.

#[local] Open Scope Z_scope.
#[local] Open Scope go_scope.

Module AbiTypes.
Import Big Common.

(** ** Go types *)

(** int or uint, and the sized integers. *)
Inductive width := WInt | W8 | W16 | W32 | W64.

Inductive gtyp :=
| GBool
| GInt (w : width)
| GUint (w : width)
| GString
| GBig                             (* big.Int, a struct *)
| GAddress                         (* common.Address, a [20]byte *)
| GHash                            (* common.Hash, a [32]byte *)
| GInterface
| GPtr (e : gtyp)
| GSlice (e : gtyp)
| GArray (n : Z) (e : gtyp).

Inductive kind :=
| KBool | KInt (w : width) | KUint (w : width) | KString | KStruct | KArray | KInterface | KPtr | KSlice.

#[export] Instance width_eq_dec : EqDecision width.
Proof. solve_decision. Defined.
#[export] Instance gtyp_eq_dec : EqDecision gtyp.
Proof. solve_decision. Defined.
#[export] Instance kind_eq_dec : EqDecision kind.
Proof. solve_decision. Defined.

Definition kind_of (t : gtyp) : kind :=
  match t with
  | GBool => KBool
  | GInt w => KInt w
  | GUint w => KUint w
  | GString => KString
  | GBig => KStruct
  | GAddress | GHash | GArray _ _ => KArray
  | GInterface => KInterface
  | GPtr _ => KPtr
  | GSlice _ => KSlice
  end.

(** The element type of a slice, an array or a pointer. *)
Definition elem_of_typ (t : gtyp) : option gtyp :=
  match t with
  | GAddress | GHash => Some (GUint W8)
  | GPtr e | GSlice e | GArray _ e => Some e
  | _ => None
  end.

Definition width_bytes (w : width) : Z := match w with W8 => 1 | W16 => 2 | W32 => 4 | _ => 8 end.

(** The size of a value in memory. *)
Fixpoint size_of (t : gtyp) : Z :=
  match t with
  | GBool => 1
  | GInt w | GUint w => width_bytes w
  | GString | GInterface => 16
  | GBig => 32
  | GAddress => 20
  | GHash => 32
  | GPtr _ => 8
  | GSlice _ => 24
  | GArray n e => n * size_of e
  end.

(** [reflect.ArrayOf] refuses arrays larger than the address space. *)
Definition ArrayOf (n : Z) (e : gtyp) : result gtyp :=
  if (0 <? size_of e) && (MaxUint64 / size_of e <? n) then Panic else Ok (GArray n e).

(** ** [Type] *)

Inductive type_tag :=
| IntTy | UintTy | BoolTy | StringTy | SliceTy | ArrayTy | AddressTy
| FixedBytesTy | BytesTy | HashTy | FixedPointTy | FunctionTy.

#[export] Instance type_tag_eq_dec : EqDecision type_tag.
Proof. solve_decision. Defined.

Inductive abi_Type := mkType {
  Elem : option abi_Type;
  Kind : kind;
  GoType : gtyp;
  Size : Z;
  T : type_tag;
  stringKind : string
}.

(** [reflectIntKindAndType]. *)
Definition int_width (size : Z) : option width :=
  if size =? 8 then Some W8
  else if size =? 16 then Some W16
  else if size =? 32 then Some W32
  else if size =? 64 then Some W64
  else None.
Definition reflectIntKindAndType (unsigned : bool) (size : Z) : kind * gtyp :=
  match int_width size with
  | Some w => if unsigned then (KUint w, GUint w) else (KInt w, GInt w)
  | None => (KPtr, GPtr GBig)
  end.

Definition requiresLengthPrefix (t : abi_Type) : bool :=
  match T t with StringTy | BytesTy | SliceTy => true | _ => false end.

(** ** Parsing type names *)

Inductive typeErr :=
| invalidArgType                   (* the brackets do not match *)
| invalidArrayFormat
| badSize
| unsupportedArg (t : string).

Abbreviation chars := (list ascii) (only parsing).

Definition is_digit (c : ascii) : bool := let n := nat_of_ascii c in (48 <=? n)%nat && (n <=? 57)%nat.
Definition is_letter (c : ascii) : bool :=
  let n := nat_of_ascii c in ((65 <=? n)%nat && (n <=? 90)%nat) || ((97 <=? n)%nat && (n <=? 122)%nat).

(** The longest prefix of characters that satisfy [p], and the rest. *)
Fixpoint span (p : ascii -> bool) (s : chars) : chars * chars :=
  match s with
  | c :: s' => if p c then let '(a, b) := span p s' in (c :: a, b) else ([], s)
  | [] => ([], [])
  end.

Definition Count (s : chars) (c : ascii) : nat := length (filter (fun x => x = c) s).

(** [t[:i]] and [t[i:]] at the last occurrence of the character. *)
Fixpoint split_last (c : ascii) (s : chars) : option (chars * chars) :=
  match s with
  | [] => None
  | x :: s' =>
      match split_last c s' with
      | Some (a, b) => Some (x :: a, b)
      | None => if Ascii.eqb x c then Some ([], s) else None
      end
  end.

(** All matches of [0-9]+ . *)
Fixpoint digit_runs (fuel : nat) (s : chars) : list chars :=
  match fuel with
  | O => []
  | S fuel =>
      match snd (span (negb ∘ is_digit) s) with
      | [] => []
      | s' => let '(run, rest) := span is_digit s' in run :: digit_runs fuel rest
      end
  end.

Definition digit_value (c : ascii) : Z := Z.of_nat (nat_of_ascii c) - 48.
Definition decimal (s : chars) : Z := fold_left (fun a c => a * 10 + digit_value c) s 0.

(** [strconv.Atoi] of an unsigned text. *)
Definition Atoi (s : chars) : option Z :=
  if bool_decide (s = []) || negb (forallb is_digit s) then None
  else if decimal s <? two63 then Some (decimal s) else None.

(** The first match of ([a-zA-Z]+)(([0-9]+)(x([0-9]+))?)? : the groups 0 to 3. *)
Definition first_match (s : chars) : option (chars * chars * chars * chars) :=
  match snd (span (negb ∘ is_letter) s) with
  | [] => None
  | s' =>
      let '(g1, s2) := span is_letter s' in
      let '(g3, s3) := span is_digit s2 in
      match g3 with
      | [] => Some (g1, g1, [], [])
      | _ =>
          let g2 :=
            match s3 with
            | c :: s4 =>
                match fst (span is_digit s4) with
                | [] => g3
                | ds => if Ascii.eqb c "x" then g3 ++ c :: ds else g3
                end
            | [] => g3
            end in
          Some (g1 ++ g2, g1, g2, g3)
      end
  end.

Definition of_chars (s : chars) : string := string_of_list_ascii s.

(** The base type of a name and its size. *)
Definition base_type (t varType : string) (varSize : Z) : result (typeErr + abi_Type) :=
  let mk k g size tag := Ok (inr (mkType None k g size tag t)) in
  if String.eqb varType "int" then
    let '(k, g) := reflectIntKindAndType false varSize in mk k g varSize IntTy
  else if String.eqb varType "uint" then
    let '(k, g) := reflectIntKindAndType true varSize in mk k g varSize UintTy
  else if String.eqb varType "bool" then mk KBool GBool 0 BoolTy
  else if String.eqb varType "address" then mk KArray GAddress 20 AddressTy
  else if String.eqb varType "string" then mk KString GString 0 StringTy
  else if String.eqb varType "bytes" then
    if varSize =? 0 then mk KSlice (GSlice (GUint W8)) 0 BytesTy
    else let? g := ArrayOf varSize (GUint W8) in mk KArray g varSize FixedBytesTy
  else if String.eqb varType "function" then
    let? g := ArrayOf 24 (GUint W8) in mk KArray g 24 FunctionTy
  else Ok (inl (unsupportedArg t)).

Fixpoint NewType_fuel (fuel : nat) (t : chars) : result (typeErr + abi_Type) :=
  match fuel with
  | O => NoFuel
  | S fuel =>
      if negb (Count t "[" =? Count t "]")%nat then Ok (inl invalidArgType)
      else
        match split_last "[" t with
        | Some (t', sliced) =>
            let? r := NewType_fuel fuel t' in
            match r with
            | inl err => Ok (inl err)
            | inr embeddedType =>
                match digit_runs (length sliced) sliced with
                | [] =>
                    Ok (inr (mkType (Some embeddedType) KSlice (GSlice (GoType embeddedType)) 0 SliceTy (of_chars t)))
                | [intz] =>
                    match Atoi intz with
                    | None => Ok (inl badSize)
                    | Some n =>
                        let? g := ArrayOf n (GoType embeddedType) in
                        Ok (inr (mkType (Some embeddedType) KArray g n ArrayTy (of_chars t)))
                    end
                | _ => Ok (inl invalidArrayFormat)
                end
            end
        | None =>
            match first_match t with
            | None => Panic
            | Some (g0, g1, g2, g3) =>
                match g3 with
                | [] =>
                    if String.eqb (of_chars g0) "uint" || String.eqb (of_chars g0) "int"
                    then Ok (inl (unsupportedArg (of_chars t)))
                    else base_type (of_chars t) (of_chars g1) 0
                | _ =>
                    match Atoi g2 with
                    | None => Ok (inl badSize)
                    | Some varSize => base_type (of_chars t) (of_chars g1) varSize
                    end
                end
            end
        end
  end.

(** Every step removes a bracket. *)
Definition NewType (t : string) : result (typeErr + abi_Type) :=
  let s := list_ascii_of_string t in NewType_fuel (S (length s)) s.

Definition Type_String (t : abi_Type) : string := stringKind t.

(** ** Arguments, methods, events *)

Record Argument := mkArgument { ArgName : string; ArgType : abi_Type; Indexed : bool }.

Fixpoint LengthNonIndexed (arguments : list Argument) : nat :=
  match arguments with
  | [] => 0
  | arg :: arguments => if Indexed arg then LengthNonIndexed arguments else S (LengthNonIndexed arguments)
  end.

Definition NonIndexed (arguments : list Argument) : list Argument :=
  filter (fun arg => Indexed arg = false) arguments.

Definition isTuple (arguments : list Argument) : bool := (1 <? length arguments)%nat.

Record Method := mkMethod {
  Name : string;
  Const : bool;
  Inputs : list Argument;
  Outputs : list Argument
}.

Definition Sig (m : Method) : string :=
  (Name m ++ "(" ++ String.concat "," (Type_String ∘ ArgType <$> Inputs m) ++ ")")%string.

Definition output_string (output : Argument) : string :=
  ((if String.eqb (ArgName output) "" then "" else ArgName output ++ " ") ++ Type_String (ArgType output))%string.

Definition Method_String (m : Method) : string :=
  let inputs := (fun input => ArgName input ++ " " ++ Type_String (ArgType input))%string <$> Inputs m in
  let constant := if Const m then "constant "%string else ""%string in
  ("function " ++ Name m ++ "(" ++ String.concat ", " inputs ++ ") " ++ constant ++
   "returns(" ++ String.concat ", " (output_string <$> Outputs m) ++ ")")%string.

Record Event := mkEvent { EName : string; Anonymous : bool; EInputs : list Argument }.

Definition event_input (input : Argument) : string :=
  (ArgName input ++ (if Indexed input then " indexed " else " ") ++ Type_String (ArgType input))%string.

Definition Event_String (e : Event) : string :=
  ("e " ++ EName e ++ "(" ++ String.concat ", " (event_input <$> EInputs e) ++ ")")%string.

Definition Event_sig (e : Event) : string :=
  (EName e ++ "(" ++ String.concat "," (Type_String ∘ ArgType <$> EInputs e) ++ ")")%string.

Section Hash.
Context (Keccak256 : bytes -> bytes).

Definition Method_Id (m : Method) : result bytes := slice (Keccak256 (of_string (Sig m))) 0 4.

Definition Event_Id (e : Event) : Hash := BytesToHash (Keccak256 (of_string (Event_sig e))).

End Hash.

(** ** [ABI]

    A map is the list of its entries, in the order Go ranges over it. *)

Record ABI := mkABI {
  Constructor : Method;
  Methods : list (string * Method);
  Events : list (string * Event)
}.

Definition zeroMethod : Method := mkMethod "" false [] [].

Fixpoint lookup_named {A} (m : list (string * A)) (name : string) : option A :=
  match m with
  | [] => None
  | (n, x) :: m => if String.eqb n name then Some x else lookup_named m name
  end.

Fixpoint assign {A} (m : list (string * A)) (name : string) (x : A) : list (string * A) :=
  match m with
  | [] => [(name, x)]
  | (n, y) :: m => if String.eqb n name then (n, x) :: m else (n, y) :: assign m name x
  end.

(** [abi.Methods[name]], the zero value when there is none. *)
Definition method_named (a : ABI) (name : string) : Method := default zeroMethod (lookup_named (Methods a) name).

(** *** Reading the JSON interface *)

(** What Go's JSON reader passes to [Argument.UnmarshalJSON]. *)
Record extarg := { xName : string; xType : string; xIndexed : bool }.

Definition unmarshal_argument (a : extarg) : result (typeErr + Argument) :=
  let? r := NewType (xType a) in
  Ok match r with
     | inl err => inl err
     | inr t => inr (mkArgument (xName a) t (xIndexed a))
     end.

(** The reader stops at the first error. *)
Fixpoint unmarshal_arguments (l : list extarg) : result (typeErr + list Argument) :=
  match l with
  | [] => Ok (inr [])
  | a :: l =>
      let? r := unmarshal_argument a in
      match r with
      | inl err => Ok (inl err)
      | inr arg =>
          let? r := unmarshal_arguments l in
          Ok match r with inl err => inl err | inr args => inr (arg :: args) end
      end
  end.

Record field := {
  fType : string;
  fName : string;
  fConstant : bool;
  fAnonymous : bool;
  fInputs : list extarg;
  fOutputs : list extarg
}.

(** The tables under construction, with the two counters. *)
Record building := { bABI : ABI; functionCnt : nat; eventCnt : nat }.

(** A field after its arguments were read. *)
Definition add_field (b : building) (f : field) (ins outs : list Argument) : building :=
  let a := bABI b in
  if String.eqb (fType f) "constructor" then
    {| bABI := mkABI (mkMethod "" false ins []) (Methods a) (Events a);
       functionCnt := functionCnt b; eventCnt := eventCnt b |}
  else if String.eqb (fType f) "function" || String.eqb (fType f) "" then
    let ms :=
      match lookup_named (Methods a) (fName f) with
      | Some m => assign (Methods a) (fName f ++ pretty (functionCnt b))%string m
      | None => Methods a
      end in
    {| bABI := mkABI (Constructor a) (assign ms (fName f) (mkMethod (fName f) (fConstant f) ins outs)) (Events a);
       functionCnt := S (functionCnt b); eventCnt := eventCnt b |}
  else if String.eqb (fType f) "event" then
    let es :=
      match lookup_named (Events a) (fName f) with
      | Some e => assign (Events a) (fName f ++ pretty (eventCnt b))%string e
      | None => Events a
      end in
    {| bABI := mkABI (Constructor a) (Methods a) (assign es (fName f) (mkEvent (fName f) (fAnonymous f) ins));
       functionCnt := functionCnt b; eventCnt := S (eventCnt b) |}
  else b.

(** All fields are read before the tables are filled; inputs come before
    outputs, as compilers print them. *)
Fixpoint read_fields (fs : list field) : result (typeErr + list (field * list Argument * list Argument)) :=
  match fs with
  | [] => Ok (inr [])
  | f :: fs =>
      let? r1 := unmarshal_arguments (fInputs f) in
      match r1 with
      | inl err => Ok (inl err)
      | inr ins =>
          let? r2 := unmarshal_arguments (fOutputs f) in
          match r2 with
          | inl err => Ok (inl err)
          | inr outs =>
              let? r := read_fields fs in
              Ok match r with inl err => inl err | inr rest => inr ((f, ins, outs) :: rest) end
          end
      end
  end.

Definition UnmarshalJSON (fs : list field) : result (typeErr + ABI) :=
  let? r := read_fields fs in
  Ok match r with
     | inl err => inl err
     | inr fields =>
         let start := {| bABI := mkABI zeroMethod [] []; functionCnt := 0; eventCnt := 0 |} in
         inr (bABI (fold_left (fun b '(f, ins, outs) => add_field b f ins outs) fields start))
     end.

(** [JSON]: the tables of the document, [None] when there is an error.  The
    document is given as the fields Go's JSON reader finds in it, if it can
    read it. *)
Definition JSON (document : option (list field)) : result (option ABI) :=
  match document with
  | None => Ok None
  | Some fs => let? r := UnmarshalJSON fs in Ok match r with inl _ => None | inr abi => Some abi end
  end.

(** The first method with the id, in the order of the map. *)
Fixpoint find_id (Keccak256 : bytes -> bytes) (ms : list (string * Method)) (id : bytes) : result (option Method) :=
  match ms with
  | [] => Ok None
  | (_, m) :: ms =>
      let? mid := Method_Id Keccak256 m in
      if bool_decide (mid = id) then Ok (Some m) else find_id Keccak256 ms id
  end.

(** [None] is the error; the data is sliced first. *)
Definition MethodById (Keccak256 : bytes -> bytes) (a : ABI) (sigdata : bytes) : result (option Method) :=
  let? id := slice sigdata 0 4 in find_id Keccak256 (Methods a) id.

End AbiTypes.
