(* ===== verification/AbiPack.v ===== *)
(** * ABI: packing

    Translates [src/accounts/abi/pack.go], [numbers.go] and [error.go], the
    packing methods of [type.go], [argument.go] and [abi.go], and what they
    use of [reflect.go].

    A Go value is a tree ([gval]): the values the package can pack, pointers
    to them and interfaces.  [math.U256] works in place, so a
    [*big.Int] is a reference into a heap of integers ([ints]) that packing
    updates; the other pointers are only followed.  Integers of type [int] are
    64 bits wide. *)

From Stdlib Require Import String.
From stdpp Require Import base list numbers option strings.
From S2P Require Import Prelude BigInt Types AbiTypes.

#[local] Open Scope Z_scope.
#[local] Open Scope go_scope.

Module AbiPack.
Import Big Common AbiTypes.

(** ** Values *)

Inductive gval :=
| VBool (b : bool)
| VInt (w : width) (z : Z)
| VUint (w : width) (z : Z)
| VString (s : bytes)
| VBigPtr (r : nat)                          (* *big.Int *)
| VPtr (v : gval)
| VNil (e : gtyp)                            (* a nil pointer *)
| VSlice (e : gtyp) (vs : list gval)
| VArray (t : gtyp) (vs : list gval)         (* of an array type *)
| VIface                                     (* an interface, in a slice of them *)
| VNewBig (z : Z).                           (* a *big.Int nobody else refers to *)

Fixpoint typ_of (v : gval) : gtyp :=
  match v with
  | VBool _ => GBool
  | VInt w _ => GInt w
  | VUint w _ => GUint w
  | VString _ => GString
  | VBigPtr _ => GPtr GBig
  | VPtr v => GPtr (typ_of v)
  | VNil e => GPtr e
  | VSlice e _ => GSlice e
  | VArray t _ => t
  | VIface => GInterface
  | VNewBig _ => GPtr GBig
  end.

Definition val_kind (v : gval) : kind := kind_of (typ_of v).

(** [v.Len()]: of a string, a slice or an array. *)
Definition val_len (v : gval) : result Z :=
  match v with
  | VString s => Ok (len s)
  | VSlice _ vs | VArray _ vs => Ok (len vs)
  | _ => Panic
  end.

Definition elems (v : gval) : list gval :=
  match v with VSlice _ vs | VArray _ vs => vs | _ => [] end.

(** The bytes of a slice or array of bytes; another element type is a panic of
    [Value.Bytes] and of [reflect.Copy]. *)
Definition val_bytes (v : gval) : result bytes :=
  if bool_decide (elem_of_typ (typ_of v) = Some (GUint W8))
  then Ok ((fun x => match x with VUint _ z => z | _ => 0 end) <$> elems v)
  else Panic.

(** Bytes as an array or a slice. *)
Definition byte_vals (b : bytes) : list gval := VUint W8 <$> b.

(** A pointer to anything but a [big.Int] is followed. *)
Fixpoint indirect (v : gval) : result gval :=
  match v with
  | VPtr v => indirect v
  | VNil _ => Panic
  | _ => Ok v
  end.

(** ** Checking types *)

Inductive packErr :=
| wrongType                                  (* cannot use ... as type ... as argument *)
| countMismatch (got want : nat)
| noMethod (name : string).

Fixpoint sliceTypeCheck (t : abi_Type) (val : gval) : result (option packErr) :=
  match val_kind val with
  | KSlice | KArray =>
      let? l := val_len val in
      if bool_decide (T t = ArrayTy) && negb (l =? Size t) then Ok (Some wrongType)
      else
        match t with
        | mkType (Some e) _ _ _ _ _ =>
            let elem_kind :=
              match elem_of_typ (typ_of val) with
              | Some g => Ok (if bool_decide (kind_of g = Kind e) then None else Some wrongType)
              | None => Panic
              end in
            match T e with
            | SliceTy => if 0 <? l then let? x := index (elems val) 0 in sliceTypeCheck e x else elem_kind
            | ArrayTy => let? x := index (elems val) 0 in sliceTypeCheck e x
            | _ => elem_kind
            end
        | _ => Panic
        end
  | _ => Ok (Some wrongType)
  end.

Definition typeCheck (t : abi_Type) (value : gval) : result (option packErr) :=
  match T t with
  | SliceTy | ArrayTy => sliceTypeCheck t value
  | FixedBytesTy =>
      if negb (bool_decide (Kind t = val_kind value)) then Ok (Some wrongType)
      else let? l := val_len value in Ok (if Size t =? l then None else Some wrongType)
  | _ => Ok (if bool_decide (Kind t = val_kind value) then None else Some wrongType)
  end.

(** ** Packing a value *)

Abbreviation ints := (list Z) (only parsing).

(** [abi.U256]: the argument itself is reduced. *)
Definition abi_U256 (n : Z) : bytes := PaddedBigBytes (U256 n) 32.

Definition packInt (n : Z) : bytes := abi_U256 n.

Definition packNum (h : ints) (value : gval) : result (bytes * ints) :=
  match value with
  | VUint _ z | VInt _ z => Ok (packInt z, h)
  | VBigPtr r =>
      match h !! r with
      | Some n => Ok (abi_U256 n, <[r := U256 n]> h)
      | None => Panic
      end
  | VNewBig n => Ok (abi_U256 n, h)
  | _ => Panic
  end.

Definition packBytesSlice (b : bytes) (l : Z) : bytes :=
  packInt l ++ RightPadBytes b (i64 (i64 (l + 31) ÷ 32 * 32)).

Definition packElement (t : abi_Type) (h : ints) (v : gval) : result (bytes * ints) :=
  match T t with
  | IntTy | UintTy => packNum h v
  | StringTy => match v with VString s => Ok (packBytesSlice s (len s), h) | _ => Panic end
  | AddressTy => let? b := val_bytes v in Ok (LeftPadBytes b 32, h)
  | BoolTy =>
      match v with
      | VBool b => Ok (PaddedBigBytes (if b then 1 else 0) 32, h)
      | _ => Panic
      end
  | BytesTy => let? b := val_bytes v in let? l := val_len v in Ok (packBytesSlice b l, h)
  | FixedBytesTy | FunctionTy => let? b := val_bytes v in Ok (RightPadBytes b 32, h)
  | _ => Panic
  end.

(** The elements of a slice or an array, one after the other. *)
Fixpoint pack_each (pack : ints -> gval -> result (packErr + bytes * ints)) (h : ints) (vs : list gval)
  : result (packErr + bytes * ints) :=
  match vs with
  | [] => Ok (inr ([], h))
  | v :: vs =>
      let? r := pack h v in
      match r with
      | inl err => Ok (inl err)
      | inr (b, h) =>
          let? r := pack_each pack h vs in
          Ok match r with inl err => inl err | inr (bs, h) => inr (b ++ bs, h) end
      end
  end.

Fixpoint pack (t : abi_Type) (h : ints) (v : gval) {struct t} : result (packErr + bytes * ints) :=
  let? v := indirect v in
  let? err := typeCheck t v in
  match err with
  | Some err => Ok (inl err)
  | None =>
      match t with
      | mkType (Some e) _ _ _ (SliceTy | ArrayTy) _ =>
          let? r := pack_each (pack e) h (elems v) in
          match r with
          | inl err => Ok (inl err)
          | inr (packed, h) =>
              Ok (inr (if bool_decide (T t = SliceTy) then packBytesSlice packed (len (elems v)) else packed, h))
          end
      | mkType None _ _ _ (SliceTy | ArrayTy) _ => Panic
      | _ => let? r := packElement t h v in Ok (inr r)
      end
  end.

(** ** Packing arguments *)

(** The length of the heads. *)
Definition input_offset (args : list Argument) : Z :=
  fold_left (fun off arg =>
    i64 (off + match T (ArgType arg) with ArrayTy => i64 (32 * Size (ArgType arg)) | _ => 32 end)) args 0.

(** The heads and the tails so far. *)
Fixpoint pack_args (inputOffset : Z) (ret variableInput : bytes) (h : ints) (ins : list Argument) (args : list gval)
  : result (packErr + bytes * ints) :=
  match ins, args with
  | input :: ins, a :: args =>
      let? r := pack (ArgType input) h a in
      match r with
      | inl err => Ok (inl err)
      | inr (packed, h) =>
          if requiresLengthPrefix (ArgType input) then
            let offset := i64 (inputOffset + len variableInput) in
            pack_args inputOffset (ret ++ packInt offset) (variableInput ++ packed) h ins args
          else pack_args inputOffset (ret ++ packed) variableInput h ins args
      end
  | _, _ => Ok (inr (ret ++ variableInput, h))
  end.

Definition Arguments_Pack (arguments : list Argument) (h : ints) (args : list gval) : result (packErr + bytes * ints) :=
  if negb (length args =? length arguments)%nat then Ok (inl (countMismatch (length args) (length arguments)))
  else pack_args (input_offset arguments) [] [] h arguments args.

Definition PackValues (arguments : list Argument) (h : ints) (args : list gval) : result (packErr + bytes * ints) :=
  Arguments_Pack arguments h args.

Definition ABI_Pack (Keccak256 : bytes -> bytes) (abi : ABI) (name : string) (h : ints) (args : list gval)
  : result (packErr + bytes * ints) :=
  if String.eqb name "" then Arguments_Pack (Inputs (Constructor abi)) h args
  else
    match lookup_named (Methods abi) name with
    | None => Ok (inl (noMethod name))
    | Some method =>
        let? r := Arguments_Pack (Inputs method) h args in
        match r with
        | inl err => Ok (inl err)
        | inr (arguments, h) => let? id := Method_Id Keccak256 method in Ok (inr (id ++ arguments, h))
        end
    end.

End AbiPack.
