(* ===== verification/AbiUnpack.v ===== *)
(** * ABI: unpacking

    Translates [src/accounts/abi/unpack.go], and [Arguments.UnpackValues] and
    [getArraySize] of [argument.go].  Storing the values into the caller's
    variables is in [AbiFields.v].

    The data has no spare capacity behind it, so slicing past its end panics.
    Integers of type [int] are 64 bits wide. *)

From Stdlib Require Import String.
From stdpp Require Import base list numbers option strings.
From S2P Require Import Prelude BigInt Types AbiTypes AbiPack.

#[local] Open Scope Z_scope.
#[local] Open Scope go_scope.

Module AbiUnpack.
Import Big Common AbiTypes AbiPack.

Inductive unpackErr :=
| lengthInsufficient                (* the data ends before the value *)
| overBoundary                      (* an offset or a length points past the data *)
| largerThanInt64
| negativeSize
| errBadBool
| badFunctionType
| invalidType.

(** The value of the low bytes as a signed integer. *)
Definition signed (bits x : Z) : Z := let y := x mod 2 ^ bits in if y <? 2 ^ (bits - 1) then y else y - 2 ^ bits.

Definition readInteger (k : kind) (b : bytes) : result gval :=
  let low w := slice b (len b - width_bytes w) (len b) in
  match k with
  | KUint ((W8 | W16 | W32 | W64) as w) => let? l := low w in Ok (VUint w (SetBytes l))
  | KInt ((W8 | W16 | W32 | W64) as w) => let? l := low w in Ok (VInt w (signed (8 * width_bytes w) (SetBytes l)))
  | _ => Ok (VNewBig (SetBytes b))
  end.

Definition readBool (word : bytes) : result (unpackErr + gval) :=
  let? high := slice word 0 31 in
  if negb (forallb (Z.eqb 0) high) then Ok (inl errBadBool)
  else
    let? b := index word 31 in
    Ok (if b =? 0 then inr (VBool false) else if b =? 1 then inr (VBool true) else inl errBadBool).

Definition readFunctionType (t : abi_Type) (word : bytes) : result (unpackErr + gval) :=
  if negb (bool_decide (T t = FunctionTy)) then Ok (inl invalidType)
  else
    let? garbage := slice word 24 32 in
    if negb (SetBytes garbage =? 0) then Ok (inl badFunctionType)
    else let? b := slice word 0 24 in Ok (inr (VArray (GArray 24 (GUint W8)) (byte_vals b))).

(** [word] is the data from the index on: [word[0:t.Size]] may reach past the
    thirty-two bytes. *)
Definition readFixedBytes (t : abi_Type) (word : bytes) : result (unpackErr + gval) :=
  if negb (bool_decide (T t = FixedBytesTy)) then Ok (inl invalidType)
  else let? b := slice word 0 (Size t) in Ok (inr (VArray (GoType t) (byte_vals b))).

Fixpoint getFullElemSize_from (size : Z) (elem : abi_Type) : result Z :=
  match elem with
  | mkType (Some e) _ _ n ArrayTy _ => getFullElemSize_from (i64 (size * n)) e
  | mkType None _ _ _ ArrayTy _ => Panic
  | _ => Ok size
  end.
Definition getFullElemSize (elem : abi_Type) : result Z := getFullElemSize_from 32 elem.

(** The offset at [index] and the length it points to. *)
Definition lengthPrefixPointsTo (index : Z) (output : bytes) : result (unpackErr + Z * Z) :=
  let? word := slice output index (i64 (index + 32)) in
  let bigOffsetEnd := SetBytes word + 32 in
  let outputLength := len output in
  if outputLength <? bigOffsetEnd then Ok (inl overBoundary)
  else if 63 <? BitLen bigOffsetEnd then Ok (inl largerThanInt64)
  else
    let offsetEnd := i64 (Uint64 bigOffsetEnd) in
    let? lword := slice output (i64 (offsetEnd - 32)) offsetEnd in
    let lengthBig := SetBytes lword in
    let totalSize := bigOffsetEnd + lengthBig in
    if 63 <? BitLen totalSize then Ok (inl largerThanInt64)
    else if outputLength <? totalSize then Ok (inl lengthInsufficient)
    else Ok (inr (i64 (Uint64 bigOffsetEnd), i64 (Uint64 lengthBig))).

(** The elements at [i], [i + elemSize], ... *)
Fixpoint unpack_each (toGo : Z -> result (unpackErr + gval)) (g : gtyp) (elemSize i : Z) (n : nat)
  : result (unpackErr + list gval) :=
  match n with
  | O => Ok (inr [])
  | S n =>
      let? r := toGo i in
      match r with
      | inl err => Ok (inl err)
      | inr v =>
          (* refSlice.Index(j).Set(v) *)
          if negb (bool_decide (typ_of v = g)) then Panic
          else
            let? r := unpack_each toGo g elemSize (i64 (i + elemSize)) n in
            Ok match r with inl err => inl err | inr vs => inr (v :: vs) end
      end
  end.

(** [forEachUnpack], with the unpacking of an element. *)
Definition forEachUnpack (t e : abi_Type) (toGo : Z -> result (unpackErr + gval)) (output : bytes) (start size : Z)
  : result (unpackErr + gval) :=
  if size <? 0 then Ok (inl negativeSize)
  else if len output <? i64 (start + i64 (32 * size)) then Ok (inl overBoundary)
  else
    let? elemSize := match T t with ArrayTy => getFullElemSize e | _ => Ok 32 end in
    let? r := unpack_each toGo (GoType e) elemSize start (Z.to_nat size) in
    Ok match r with
       | inl err => inl err
       | inr vs => inr (match T t with SliceTy => VSlice (GoType e) vs | _ => VArray (GoType t) vs end)
       end.

Fixpoint toGoType (t : abi_Type) (index : Z) (output : bytes) {struct t} : result (unpackErr + gval) :=
  if len output <? i64 (index + 32) then Ok (inl lengthInsufficient)
  else
    let? pointed :=
      if requiresLengthPrefix t then lengthPrefixPointsTo index output
      else let? _ := slice output index (i64 (index + 32)) in Ok (inr (0, 0)) in
    match pointed with
    | inl err => Ok (inl err)
    | inr (begin, n) =>
        let word := slice output index (i64 (index + 32)) in
        match t with
        | mkType (Some e) _ _ _ SliceTy _ => forEachUnpack t e (fun i => toGoType e i output) output begin n
        | mkType (Some e) _ _ size ArrayTy _ => forEachUnpack t e (fun i => toGoType e i output) output index size
        | mkType None _ _ _ (SliceTy | ArrayTy) _ => Panic
        | _ =>
            match T t with
            | StringTy => let? s := slice output begin (i64 (begin + n)) in Ok (inr (VString s))
            | IntTy | UintTy => let? w := word in let? v := readInteger (Kind t) w in Ok (inr v)
            | BoolTy => let? w := word in readBool w
            | AddressTy => let? w := word in Ok (inr (VArray GAddress (byte_vals (BytesToAddress w))))
            | HashTy => let? w := word in Ok (inr (VArray GHash (byte_vals (BytesToHash w))))
            | BytesTy => let? s := slice output begin (i64 (begin + n)) in Ok (inr (VSlice (GUint W8) (byte_vals s)))
            | FixedBytesTy => let? w := slice output index (len output) in readFixedBytes t w
            | FunctionTy => let? w := word in readFunctionType t w
            | _ => Ok (inl invalidType)
            end
        end
    end.

(** ** Arguments *)

Fixpoint array_size_from (size : Z) (arr : abi_Type) : result Z :=
  match arr with
  | mkType (Some e) _ _ n ArrayTy _ => array_size_from (i64 (size * n)) e
  | mkType None _ _ _ ArrayTy _ => Panic
  | _ => Ok size
  end.
Definition getArraySize (arr : abi_Type) : result Z :=
  match Elem arr with Some e => array_size_from (Size arr) e | None => Panic end.

(** From argument number [index] on. *)
Fixpoint unpack_values (index virtualArgs : Z) (args : list Argument) (data : bytes) : result (unpackErr + list gval) :=
  match args with
  | [] => Ok (inr [])
  | arg :: args =>
      let? r := toGoType (ArgType arg) (i64 (i64 (index + virtualArgs) * 32)) data in
      let? virtualArgs :=
        match T (ArgType arg) with
        | ArrayTy => let? n := getArraySize (ArgType arg) in Ok (i64 (virtualArgs + i64 (n - 1)))
        | _ => Ok virtualArgs
        end in
      match r with
      | inl err => Ok (inl err)
      | inr v =>
          let? r := unpack_values (index + 1) virtualArgs args data in
          Ok match r with inl err => inl err | inr vs => inr (v :: vs) end
      end
  end.

Definition UnpackValues (arguments : list Argument) (data : bytes) : result (unpackErr + list gval) :=
  unpack_values 0 0 (NonIndexed arguments) data.

End AbiUnpack.
