(* ===== verification/AbiNames.v ===== *)
(** * ABI: type names

    The grammar of type names, as a type [aty] with its printer, and the proof
    that [NewType] reads back every name ([newtype_reads_names]). *)

From Stdlib Require Import String Ascii Lia.
From stdpp Require Import base list numbers option strings.
From S2P Require Import Prelude BigInt Types AbiTypes.

#[local] Open Scope Z_scope.
#[local] Open Scope go_scope.

Module AbiNames.
Import Big AbiTypes.

(** ** Types *)

Inductive aty :=
| AInt (n : Z) | AUint (n : Z) | ABool | AAddress | AString | ABytes
| AFixed (n : Z)
| AFunction
| ASlice (t : aty)
| AArray (n : Z) (t : aty).

(** Decimal digits. *)
Fixpoint dec_go (fuel : nat) (n : Z) (acc : list ascii) : list ascii :=
  match fuel with
  | O => acc
  | S fuel =>
      let acc := ascii_of_nat (Z.to_nat (48 + n mod 10)) :: acc in
      if n / 10 =? 0 then acc else dec_go fuel (n / 10) acc
  end.
Definition dec (n : Z) : list ascii := dec_go 20 n [].

Definition str (s : string) : list ascii := list_ascii_of_string s.

Fixpoint print (t : aty) : list ascii :=
  match t with
  | AInt n => str "int" ++ dec n
  | AUint n => str "uint" ++ dec n
  | ABool => str "bool"
  | AAddress => str "address"
  | AString => str "string"
  | ABytes => str "bytes"
  | AFixed n => str "bytes" ++ dec n
  | AFunction => str "function"
  | ASlice t => print t ++ str "[]"
  | AArray n t => print t ++ str "[" ++ dec n ++ str "]"
  end.

(** The Go type of its values. *)
Fixpoint gotype (t : aty) : gtyp :=
  match t with
  | AInt n => snd (reflectIntKindAndType false n)
  | AUint n => snd (reflectIntKindAndType true n)
  | ABool => GBool
  | AAddress => GAddress
  | AString => GString
  | ABytes => GSlice (GUint W8)
  | AFixed n => GArray n (GUint W8)
  | AFunction => GArray 24 (GUint W8)
  | ASlice t => GSlice (gotype t)
  | AArray n t => GArray n (gotype t)
  end.

Definition tag_of (t : aty) : type_tag :=
  match t with
  | AInt _ => IntTy | AUint _ => UintTy | ABool => BoolTy | AAddress => AddressTy | AString => StringTy
  | ABytes => BytesTy | AFixed _ => FixedBytesTy | AFunction => FunctionTy | ASlice _ => SliceTy | AArray _ _ => ArrayTy
  end.

Definition size_in (t : aty) : Z :=
  match t with
  | AInt n | AUint n | AFixed n | AArray n _ => n
  | AAddress => 20
  | AFunction => 24
  | _ => 0
  end.

(** The description [NewType] is to return. *)
Fixpoint describe (t : aty) : abi_Type :=
  mkType (match t with ASlice e | AArray _ e => Some (describe e) | _ => None end)
    (kind_of (gotype t)) (gotype t) (size_in t) (tag_of t) (of_chars (print t)).

(** Sizes that an [int] holds and arrays that fit in the address space. *)
Fixpoint valid (t : aty) : Prop :=
  match t with
  | AInt n | AUint n => 0 <= n < two63
  | AFixed n => 0 < n < two63
  | ASlice t => valid t
  | AArray n t => valid t /\ 0 <= n < two63 /\ (0 < size_of (gotype t) -> n * size_of (gotype t) <= MaxUint64)
  | _ => True
  end.

(** ** Decimal numbers *)

Lemma digit_char d : 0 <= d < 10 -> nat_of_ascii (ascii_of_nat (Z.to_nat (48 + d))) = Z.to_nat (48 + d).
Proof. intros Hd. apply nat_ascii_embedding. lia. Qed.

Lemma is_digit_char d : 0 <= d < 10 -> is_digit (ascii_of_nat (Z.to_nat (48 + d))) = true.
Proof. intros Hd. unfold is_digit. rewrite digit_char by done. apply andb_true_iff. split; apply Nat.leb_le; lia. Qed.

Lemma dec_go_spec fuel n acc : 0 <= n < 10 ^ Z.of_nat fuel -> (0 < fuel)%nat -> exists ds,
  dec_go fuel n acc = ds ++ acc /\ ds <> [] /\ forallb is_digit ds = true /\ forall a, fold_left (fun a c => a * 10 + digit_value c) ds a = a * 10 ^ len ds + n.
Proof.
  revert n acc. induction fuel as [|fuel IH]; intros n acc Hn Hf; [lia|]. cbn [dec_go].
  assert (0 <= n mod 10 < 10) as Hm by (apply Z.mod_pos_bound; lia). pose proof (Z.div_mod n 10 ltac:(lia)) as Hdm.
  set (c := ascii_of_nat (Z.to_nat (48 + n mod 10))).
  assert (digit_value c = n mod 10) as Hc by (unfold digit_value, c; rewrite digit_char by done; lia).
  assert (is_digit c = true) as Hcd by (by apply is_digit_char).
  destruct (Z.eqb_spec (n / 10) 0) as [E|E].
  - exists [c]. split; [done|]. split; [done|]. split; [simpl; by rewrite Hcd|]. intros a. simpl. rewrite Hc, len_single. lia.
  - destruct (IH (n / 10) (c :: acc)) as (ds & -> & _ & Hds & Hv).
    { rewrite Nat2Z.inj_succ, Z.pow_succ_r in Hn by lia. split; [apply Z.div_pos; lia|]. apply Z.div_lt_upper_bound; lia. }
    { destruct fuel; [|lia]. change (10 ^ Z.of_nat 1) with 10 in Hn. rewrite Z.div_small in E by lia. done. }
    exists (ds ++ [c]). split; [by rewrite <-app_assoc|]. split; [by destruct ds|].
    split; [rewrite forallb_app, Hds; simpl; by rewrite Hcd|].
    intros a. rewrite fold_left_app, Hv. simpl. rewrite Hc, len_app, len_single, Z.pow_add_r by (pose proof (len_nonneg ds); lia). lia.
Qed.

Lemma dec_spec n : 0 <= n < two63 -> dec n <> [] /\ forallb is_digit (dec n) = true /\ Atoi (dec n) = Some n.
Proof.
  intros Hn. destruct (dec_go_spec 20 n []) as (ds & E & Hne & Hd & Hv).
  { split; [lia|]. eapply Z.lt_trans; [apply Hn|]. vm_compute. reflexivity. }
  { lia. }
  unfold dec. rewrite E, app_nil_r. split; [done|]. split; [done|]. unfold Atoi. rewrite bool_decide_false, Hd by done. simpl.
  unfold decimal. rewrite Hv, Z.mul_0_l, Z.add_0_l, (proj2 (Z.ltb_lt n two63)) by lia. done.
Qed.

(** ** Scanning *)

Lemma span_app p a b : forallb p a = true -> match b with [] => True | c :: _ => p c = false end -> span p (a ++ b) = (a, b).
Proof.
  intros Ha Hb. induction a as [|c a IH]; simpl.
  - destruct b as [|c b]; [done|]. simpl. by rewrite Hb.
  - simpl in Ha. apply andb_true_iff in Ha as [Hc Ha]. by rewrite Hc, (IH Ha).
Qed.

Lemma count_app a b c : Count (a ++ b) c = (Count a c + Count b c)%nat.
Proof. unfold Count. by rewrite filter_app, length_app. Qed.

Lemma count_none p s c : forallb p s = true -> p c = false -> Count s c = 0%nat.
Proof.
  intros Hs Hc. induction s as [|x s IH]; [done|]. simpl in Hs. apply andb_true_iff in Hs as [Hx Hs].
  unfold Count in *. rewrite filter_cons_False; [by apply IH|]. intros ->. congruence.
Qed.

Lemma split_last_none s c : Count s c = 0%nat -> split_last c s = None.
Proof.
  induction s as [|x s IH]; [done|]. unfold Count in *. rewrite filter_cons. destruct (decide (x = c)) as [->|Hne]; [done|].
  intros H. simpl. rewrite IH by done. by destruct (Ascii.eqb_spec x c).
Qed.

Lemma split_last_at a b c : Count b c = 0%nat -> split_last c (a ++ c :: b) = Some (a, c :: b).
Proof.
  intros Hb. induction a as [|x a IH]; simpl.
  - rewrite (split_last_none b c Hb). by rewrite Ascii.eqb_refl.
  - by rewrite IH.
Qed.

(** ** Base names *)

Definition is_name_char (c : ascii) : bool := is_letter c || is_digit c.

Lemma letters_no_digit c : is_letter c = true -> is_digit c = false.
Proof.
  unfold is_letter, is_digit. intros H. apply orb_true_iff in H as [H|H]; apply andb_true_iff in H as [H1 H2];
    apply Nat.leb_le in H1, H2; apply andb_false_iff; right; apply Nat.leb_gt; lia.
Qed.

Lemma first_match_name name n : forallb is_letter name = true -> name <> [] -> 0 <= n < two63 ->
  first_match name = Some (name, name, [], []) /\ first_match (name ++ dec n) = Some (name ++ dec n, name, dec n, dec n).
Proof.
  intros Hl Hne Hn. destruct (dec_spec n Hn) as (Hd & Hdd & _).
  assert (forall s, snd (span (negb ∘ is_letter) (name ++ s)) = name ++ s) as Hskip.
  { intros s. destruct name as [|c name]; [done|]. simpl in Hl |- *. apply andb_true_iff in Hl as [Hc _]. by rewrite Hc. }
  unfold first_match. split.
  - specialize (Hskip []). rewrite app_nil_r in Hskip. rewrite Hskip. destruct name as [|c name]; [done|].
    pose proof (span_app is_letter (c :: name) [] Hl I) as E. rewrite app_nil_r in E. by rewrite E.
  - rewrite Hskip. destruct (name ++ dec n) as [|c s] eqn:E; [by destruct name|]. rewrite <-E.
    rewrite (span_app is_letter name (dec n) Hl).
    2:{ destruct (dec n) as [|x l]; [done|]. simpl in Hdd. apply andb_true_iff in Hdd as [Hx _].
        destruct (is_letter x) eqn:Ex; [|done]. apply letters_no_digit in Ex. congruence. }
    pose proof (span_app is_digit (dec n) [] Hdd I) as E2. rewrite app_nil_r in E2. rewrite E2.
    destruct (dec n) as [|x l] eqn:Ed; [done|]. done.
Qed.

(** ** Reading names *)

Lemma of_str s : of_chars (str s) = s.
Proof. apply string_of_list_ascii_of_string. Qed.

Lemma int_kind b n : fst (reflectIntKindAndType b n) = kind_of (snd (reflectIntKindAndType b n)).
Proof. unfold reflectIntKindAndType. destruct (int_width n), b; done. Qed.

Lemma ArrayOf_fits n e : (0 < size_of e -> n * size_of e <= MaxUint64) -> ArrayOf n e = Ok (GArray n e).
Proof.
  intros H. unfold ArrayOf. destruct (Z.ltb_spec 0 (size_of e)) as [Hs|Hs]; [|done]. simpl.
  rewrite (proj2 (Z.ltb_ge _ _)); [done|]. apply Z.div_le_lower_bound; [done|]. specialize (H Hs). lia.
Qed.

Lemma ArrayOf_bytes n : n < two63 -> ArrayOf n (GUint W8) = Ok (GArray n (GUint W8)).
Proof. intros H. apply ArrayOf_fits. intros _. unfold MaxUint64, two63, two64 in *. simpl. lia. Qed.

(** A name of letters, and one with a size. *)
Lemma NewType_plain fuel name : forallb is_letter (str name) = true -> name <> ""%string -> name <> "int"%string -> name <> "uint"%string ->
  NewType_fuel (S fuel) (str name) = base_type name name 0.
Proof.
  intros Hl Hne Hi Hu. cbn [NewType_fuel]. rewrite !(count_none is_letter) by done. simpl negb. cbn iota.
  rewrite (split_last_none _ _ (count_none is_letter _ "[" Hl eq_refl)).
  destruct (first_match_name (str name) 0 Hl) as [-> _]; [by destruct name|unfold two63; lia|]. rewrite of_str.
  rewrite (proj2 (String.eqb_neq name "uint")), (proj2 (String.eqb_neq name "int")) by done. done.
Qed.

Lemma NewType_sized fuel name n : forallb is_letter (str name) = true -> name <> ""%string -> 0 <= n < two63 ->
  NewType_fuel (S fuel) (str name ++ dec n) = base_type (of_chars (str name ++ dec n)) name n.
Proof.
  intros Hl Hne Hn. destruct (dec_spec n Hn) as (Hd & Hdd & Ha). cbn [NewType_fuel].
  assert (forallb is_name_char (str name ++ dec n) = true) as Hc.
  { rewrite forallb_app. apply andb_true_iff. split; apply forallb_forall; intros c Hc; unfold is_name_char; apply orb_true_iff;
      [left; by apply (proj1 (forallb_forall _ _) Hl)|right; by apply (proj1 (forallb_forall _ _) Hdd)]. }
  rewrite !(count_none is_name_char) by done. simpl negb. cbn iota.
  rewrite (split_last_none _ _ (count_none is_name_char _ "[" Hc eq_refl)).
  destruct (first_match_name (str name) n Hl) as [_ ->]; [by destruct name|done|].
  destruct (dec n) as [|x l] eqn:Ed; [done|]. rewrite Ha, of_str. done.
Qed.

Lemma print_balanced t : valid t -> Count (print t) "[" = Count (print t) "]".
Proof.
  assert (forall n, 0 <= n < two63 -> Count (dec n) "[" = 0%nat /\ Count (dec n) "]" = 0%nat) as Hdec.
  { intros n Hn. destruct (dec_spec n Hn) as (_ & Hd & _). by split; apply (count_none is_digit). }
  induction t as [n|n| | | | |n| |t IH|n t IH]; intros Hv; cbn [valid] in Hv; cbn [print]; rewrite ?count_app; try done.
  - by destruct (Hdec n Hv) as [-> ->].
  - by destruct (Hdec n Hv) as [-> ->].
  - destruct (Hdec n ltac:(lia)) as [-> ->]. done.
  - by rewrite (IH Hv).
  - destruct Hv as (Hv & Hn & _). destruct (Hdec n Hn) as [-> ->]. rewrite (IH Hv). change (Count (str "[") "[") with 1%nat. change (Count (str "]") "]") with 1%nat. change (Count (str "[") "]") with 0%nat. change (Count (str "]") "[") with 0%nat. lia.
Qed.

Lemma digit_runs_of n fuel : 0 <= n < two63 -> digit_runs (S (S fuel)) (str "[" ++ dec n ++ str "]") = [dec n].
Proof.
  intros Hn. destruct (dec_spec n Hn) as (Hd & Hdd & _). cbn [digit_runs].
  assert (snd (span (negb ∘ is_digit) (str "[" ++ dec n ++ str "]")) = dec n ++ str "]") as ->.
  { rewrite (span_app _ (str "[") (dec n ++ str "]")); [done|done|]. destruct (dec n) as [|x l]; [done|]. simpl in Hdd |- *.
    apply andb_true_iff in Hdd as [-> _]. done. }
  destruct (dec n ++ str "]") as [|x l] eqn:E; [by destruct (dec n)|]. rewrite <-E, (span_app is_digit (dec n) (str "]") Hdd eq_refl).
  f_equal.
Qed.

Fixpoint depth (t : aty) : nat := match t with ASlice t | AArray _ t => S (depth t) | _ => 0 end.

Lemma depth_length t : (depth t <= length (print t))%nat.
Proof. induction t; simpl; rewrite ?length_app; simpl; try lia. Qed.

Lemma GoType_describe t : GoType (describe t) = gotype t.
Proof. by destruct t. Qed.

Lemma NewType_print fuel t : valid t -> (depth t < fuel)%nat -> NewType_fuel fuel (print t) = Ok (inr (describe t)).
Proof.
  revert fuel. induction t as [n|n| | | | |n| |t IH|n t IH]; intros [|fuel] Hv Hf; try lia; simpl in Hv.
  3-6,8: apply NewType_plain; done.
  1-3: cbn [print]; rewrite NewType_sized by (done || lia); unfold base_type; simpl String.eqb; cbn iota.
  - rewrite (surjective_pairing (reflectIntKindAndType false n)), int_kind. done.
  - rewrite (surjective_pairing (reflectIntKindAndType true n)), int_kind. done.
  - rewrite (proj2 (Z.eqb_neq n 0)) by lia. rewrite ArrayOf_bytes by lia. done.
  - pose proof (print_balanced (ASlice t) Hv) as Hb. cbn [NewType_fuel]. rewrite Hb, Nat.eqb_refl. simpl negb. cbn iota.
    cbn [print]. change (str "[]") with ("["%char :: str "]"). rewrite (split_last_at (print t) (str "]") "[") by done. rewrite IH by (done || (simpl in Hf; lia)). cbn [rbind].
    change (digit_runs _ _) with (@nil (list ascii)). cbn iota. by rewrite GoType_describe.
  - pose proof (print_balanced (AArray n t) Hv) as Hb. destruct Hv as (Hv & Hn & Hs). destruct (dec_spec n Hn) as (Hd & Hdd & Ha).
    cbn [NewType_fuel]. rewrite Hb, Nat.eqb_refl. simpl negb. cbn iota. cbn [print].
    change (print t ++ str "[" ++ dec n ++ str "]") with (print t ++ "["%char :: (dec n ++ str "]")).
    rewrite (split_last_at (print t) (dec n ++ str "]") "[").
    2:{ rewrite count_app, (count_none is_digit) by done. done. }
    rewrite IH by (done || (simpl in Hf; lia)). cbn [rbind].
    change ("["%char :: (dec n ++ str "]")) with (str "[" ++ dec n ++ str "]").
    replace (length (str "[" ++ dec n ++ str "]")) with (S (S (length (dec n)))) by (rewrite !length_app; simpl; lia).
    rewrite digit_runs_of, Ha by done. by rewrite GoType_describe, ArrayOf_fits.
Qed.

(** C25: [NewType] is the inverse of printing: it accepts the name of every type of
    the grammar and returns its description, kinds, Go types and sizes
    included, arrays and slices nested to any depth. *)
Theorem newtype_reads_names (t : aty) : valid t -> NewType (of_chars (print t)) = Ok (inr (describe t)).
Proof.
  intros Hv. unfold NewType, of_chars. rewrite list_ascii_of_string_of_list_ascii. apply NewType_print; [done|].
  pose proof (depth_length t). lia.
Qed.

Lemma newtype_reads_names_witness :
  NewType "uint8[3][]" = Ok (inr (describe (ASlice (AArray 3 (AUint 8))))).
Proof. apply (newtype_reads_names (ASlice (AArray 3 (AUint 8)))). vm_compute. repeat split; intros; discriminate. Defined.

End AbiNames.
