(* ===== verification/AbiSpec.v ===== *)
(** * ABI: the encoding, and packing

    The encoding of arguments after the contract ABI specification, on
    abstract values: a tuple is its heads followed by its tails, the head of a
    dynamic part being its offset ([tuple], [enc]).  [Arguments.Pack] computes
    it when every argument is elementary, a string, bytes, or a slice or an
    array of elementary values ([pack_args_spec]). *)

From Stdlib Require Import String Ascii Lia.
From stdpp Require Import base list numbers option strings.
From S2P Require Import Prelude BigInt Types AbiTypes AbiPack AbiNames.

#[local] Open Scope Z_scope.
#[local] Open Scope go_scope.

Module AbiSpec.
Import Big Common AbiTypes AbiPack AbiNames.

(** ** The specification *)

(** Integers are 256-bit words; addresses, byte strings and functions are
    bytes. *)
Inductive aval := ANum (w : Z) | AFlag (b : bool) | ARaw (b : bytes) | AList (l : list aval).

Fixpoint dynamic (t : aty) : bool :=
  match t with
  | AString | ABytes | ASlice _ => true
  | AArray _ t => dynamic t
  | _ => false
  end.

(** A part of a tuple: whether it is dynamic, and its encoding. *)
Abbreviation part := (bool * bytes)%type (only parsing).

Definition head_len (p : part) : Z := if fst p then 32 else len (snd p).
Definition heads_len (ps : list part) : Z := foldr (fun p n => head_len p + n) 0 ps.

Fixpoint heads (off : Z) (ps : list part) : bytes :=
  match ps with
  | [] => []
  | (d, b) :: ps => if d : bool then be 32 off ++ heads (off + len b) ps else b ++ heads off ps
  end.

Fixpoint tails (ps : list part) : bytes :=
  match ps with
  | [] => []
  | (d, b) :: ps => (if d : bool then b else []) ++ tails ps
  end.

Definition tuple (ps : list part) : bytes := heads (heads_len ps) ps ++ tails ps.

(** Bytes followed by zeros up to a multiple of thirty-two. *)
Definition padded (b : bytes) : bytes := b ++ zeros ((- len b) mod 32).

Fixpoint enc (t : aty) (x : aval) : bytes :=
  match t, x with
  | (AInt _ | AUint _), ANum w => be 32 w
  | ABool, AFlag b => be 32 (if b then 1 else 0)
  | AAddress, ARaw b => zeros 12 ++ b
  | (AFixed _ | AFunction), ARaw b => padded b
  | (AString | ABytes), ARaw b => be 32 (len b) ++ padded b
  | ASlice t, AList l => be 32 (len l) ++ tuple ((fun x => (dynamic t, enc t x)) <$> l)
  | AArray _ t, AList l => tuple ((fun x => (dynamic t, enc t x)) <$> l)
  | _, _ => []
  end.

Definition encode (args : list (aty * aval)) : bytes :=
  tuple ((fun a => (dynamic (fst a), enc (fst a) (snd a))) <$> args).

(** ** Supported arguments *)

Definition elementary (t : aty) : bool :=
  match t with
  | AInt _ | AUint _ | ABool | AAddress | AFunction => true
  | AFixed n => n <=? 32
  | _ => false
  end.

Definition supported (t : aty) : bool :=
  match t with
  | AString | ABytes => true
  | ASlice t => elementary t
  | AArray n t => elementary t
  | _ => elementary t
  end.

(** *** Go values that stand for abstract ones *)

Definition width_bits (w : width) : Z := 8 * width_bytes w.

Definition byte_array (g : gtyp) : Prop := kind_of g = KArray /\ elem_of_typ g = Some (GUint W8).

Inductive stands (h : ints) : aty -> gval -> aval -> Prop :=
| st_uint n w z : int_width n = Some w -> 0 <= z < 2 ^ width_bits w -> stands h (AUint n) (VUint w z) (ANum z)
| st_int n w z : int_width n = Some w -> - 2 ^ (width_bits w - 1) <= z < 2 ^ (width_bits w - 1) ->
    stands h (AInt n) (VInt w z) (ANum (U256 z))
| st_ubig n r z : int_width n = None -> h !! r = Some z -> stands h (AUint n) (VBigPtr r) (ANum (U256 z))
| st_ibig n r z : int_width n = None -> h !! r = Some z -> stands h (AInt n) (VBigPtr r) (ANum (U256 z))
| st_bool b : stands h ABool (VBool b) (AFlag b)
| st_address g b : byte_array g -> length b = 20%nat -> bytes_ok b -> stands h AAddress (VArray g (byte_vals b)) (ARaw b)
| st_fixed n g b : byte_array g -> len b = n -> bytes_ok b -> stands h (AFixed n) (VArray g (byte_vals b)) (ARaw b)
| st_function g b : byte_array g -> length b = 24%nat -> bytes_ok b -> stands h AFunction (VArray g (byte_vals b)) (ARaw b)
| st_string s : bytes_ok s -> stands h AString (VString s) (ARaw s)
| st_bytes b : bytes_ok b -> stands h ABytes (VSlice (GUint W8) (byte_vals b)) (ARaw b).

(** Behind any number of pointers. *)
Definition reps (h : ints) (t : aty) (v : gval) (x : aval) : Prop :=
  exists v', indirect v = Ok v' /\ stands h t v' x.

Inductive reps_arg (h : ints) : aty -> gval -> aval -> Prop :=
| ra_one t v x : reps h t v x -> reps_arg h t v x
| ra_slice t v e vs xs : indirect v = Ok (VSlice e vs) -> kind_of e = kind_of (gotype t) ->
    Forall2 (reps h t) vs xs -> reps_arg h (ASlice t) v (AList xs)
| ra_array n t v e vs xs : indirect v = Ok (VArray (GArray n e) vs) -> kind_of e = kind_of (gotype t) -> len vs = n ->
    Forall2 (reps h t) vs xs -> reps_arg h (AArray n t) v (AList xs).

(** Packing reduces the integers it meets modulo 2^256 and changes no others. *)
Definition settles (h h' : ints) : Prop :=
  forall r, h' !! r = h !! r \/ h' !! r = U256 <$> h !! r.

(** ** Words *)

Lemma packInt_word n : packInt n = be 32 (U256 n).
Proof.
  unfold packInt, abi_U256. pose proof (U256_range n) as Hr. unfold is_word, two256 in Hr.
  rewrite PaddedBigBytes_spec; rewrite ?Z.abs_eq by lia; [done|lia|]. change (256 ^ 32) with (2 ^ 256). lia.
Qed.

Lemma packInt_small n : 0 <= n < two63 -> packInt n = be 32 n.
Proof. intros Hn. rewrite packInt_word, U256_id; [done|]. unfold is_word, two63, two256 in *. change (2 ^ 256) with (2 ^ 193 * 2 ^ 63). lia. Qed.

Lemma settles_refl h : settles h h.
Proof. by left. Qed.

Lemma settles_trans a b c : settles a b -> settles b c -> settles a c.
Proof.
  intros H1 H2 r. destruct (H2 r) as [-> | ->]; [apply H1|]. right. destruct (H1 r) as [-> | ->]; [done|].
  destruct (a !! r); [|done]. simpl. by rewrite (U256_id (U256 _)) by apply U256_range.
Qed.

Lemma settles_insert h r n : h !! r = Some n -> settles h (<[r := U256 n]> h).
Proof.
  intros Hr q. destruct (decide (q = r)) as [->|Hne]; [right|left; by rewrite list_lookup_insert_ne].
  rewrite list_lookup_insert_eq by (by eapply lookup_lt_Some). by rewrite Hr.
Qed.

Lemma stands_settles h h' t v x : settles h h' -> stands h t v x -> stands h' t v x.
Proof.
  intros Hs H. destruct H; try (by constructor).
  - destruct (Hs r) as [E|E]; rewrite H0 in E; [by constructor|]. simpl in E. rewrite <-(U256_id (U256 z)) by apply U256_range. by constructor.
  - destruct (Hs r) as [E|E]; rewrite H0 in E; [by constructor|]. simpl in E. rewrite <-(U256_id (U256 z)) by apply U256_range. by constructor.
Qed.

Lemma reps_settles h h' t v x : settles h h' -> reps h t v x -> reps h' t v x.
Proof. intros Hs (v' & Hi & Hv). exists v'. split; [done|by eapply stands_settles]. Qed.

(** ** Packing one value *)

Lemma val_bytes_array g b : byte_array g -> val_bytes (VArray g (byte_vals b)) = Ok b.
Proof.
  intros [_ He]. unfold val_bytes. simpl typ_of. rewrite bool_decide_true by done. f_equal. simpl. unfold byte_vals.
  rewrite <-list_fmap_compose. apply list_fmap_id.
Qed.

Lemma val_bytes_slice b : val_bytes (VSlice (GUint W8) (byte_vals b)) = Ok b.
Proof. unfold val_bytes. simpl. f_equal. unfold byte_vals. rewrite <-list_fmap_compose. apply list_fmap_id. Qed.

Lemma len_byte_vals b : len (byte_vals b) = len b.
Proof. unfold len, byte_vals. by rewrite length_fmap. Qed.

Lemma right_pad_word b : 0 < len b <= 32 -> RightPadBytes b 32 = padded b.
Proof.
  intros Hb. rewrite RightPadBytes_spec. unfold padded. do 2 f_equal.
  rewrite <-(Z.mod_unique (- len b) 32 (-1) (32 - len b)) by lia. done.
Qed.

Lemma packBytesSlice_spec b : len b < two63 - 32 -> packBytesSlice b (len b) = be 32 (len b) ++ padded b.
Proof.
  intros Hb. pose proof (len_nonneg b) as Hl. unfold packBytesSlice. rewrite packInt_small by lia. f_equal.
  rewrite RightPadBytes_spec. unfold padded. do 2 f_equal. rewrite (i64_id (len b + 31)) by lia. rewrite Z.quot_div_nonneg by lia.
  pose proof (Z.div_mod (len b + 31) 32 ltac:(lia)) as Hdm. pose proof (Z.mod_pos_bound (len b + 31) 32 ltac:(lia)) as Hm.
  rewrite i64_id by lia.
  rewrite <-(Z.mod_unique (- len b) 32 (- ((len b + 31) / 32)) ((len b + 31) / 32 * 32 - len b)) by lia. done.
Qed.

Definition small (x : aval) : Prop := match x with ARaw b => len b < two63 - 32 | _ => True end.

Lemma stands_word h t v x : stands h t v x -> match x with ANum w => U256 w = w | _ => True end.
Proof.
  destruct 1 as [n w z Hw Hz| | | | | | | | |]; try done; try (apply U256_id, U256_range).
  apply U256_id. unfold is_word, two256. assert (2 ^ width_bits w <= 2 ^ 64) by (apply Z.pow_le_mono_r; [lia|]; by destruct w).
  change (2 ^ 256) with (2 ^ 192 * 2 ^ 64). lia.
Qed.

Lemma T_describe t : T (describe t) = tag_of t.
Proof. by destruct t. Qed.
Lemma Kind_describe t : Kind (describe t) = kind_of (gotype t).
Proof. by destruct t. Qed.
Lemma Size_describe t : Size (describe t) = size_in t.
Proof. by destruct t. Qed.

(** What is packed without a loop. *)
Definition simple (t : aty) : bool := match t with ASlice _ | AArray _ _ => false | _ => true end.

Lemma pack_simple t h v : simple t = true -> pack (describe t) h v =
  (let? v := indirect v in let? err := typeCheck (describe t) v in
   match err with Some err => Ok (inl err) | None => let? r := packElement (describe t) h v in Ok (inr r) end).
Proof. by destruct t. Qed.

Lemma typeCheck_kind t v : simple t = true -> (forall n, t <> AFixed n) -> val_kind v = kind_of (gotype t) -> typeCheck (describe t) v = Ok None.
Proof.
  intros Hs Hf Hk. destruct t; try done; unfold typeCheck; cbn [describe T tag_of Kind]; try (by rewrite bool_decide_true). by destruct (Hf n).
Qed.

Lemma pack_ref h t r z : h !! r = Some z -> tag_of t = IntTy \/ tag_of t = UintTy ->
  exists h', packElement (describe t) h (VBigPtr r) = Ok (be 32 (U256 z), h') /\ settles h h'.
Proof.
  intros Hr Ht. exists (<[r := U256 z]> h). split; [|by apply settles_insert]. rewrite <-packInt_word. unfold packElement.
  rewrite T_describe. destruct Ht as [-> | ->]; simpl; by rewrite Hr.
Qed.

Lemma pack_stands h t v x : stands h t v x -> simple t = true -> valid t -> (forall n, t = AFixed n -> n <= 32) -> small x ->
  typeCheck (describe t) v = Ok None /\ exists h', packElement (describe t) h v = Ok (enc t x, h') /\ settles h h'.
Proof.
  intros Hs Hsim Hv H32 Hsm. pose proof (stands_word _ _ _ _ Hs) as Hw.
  destruct Hs as [n w z Hn Hz|n w z Hn Hz|n r z Hn Hr|n r z Hn Hr|b|g b [Hk He] Hl Hb|n g b [Hk He] Hl Hb|g b [Hk He] Hl Hb|s Hb|b Hb]; simpl in Hv.
  - split; [apply typeCheck_kind; [done..|]; simpl; unfold reflectIntKindAndType; by rewrite Hn|].
    exists h. change (packElement _ h _) with (Ok (packInt z, h)). rewrite packInt_word, Hw. split; [done|apply settles_refl].
  - split; [apply typeCheck_kind; [done..|]; simpl; unfold reflectIntKindAndType; by rewrite Hn|].
    exists h. change (packElement _ h _) with (Ok (packInt z, h)). rewrite packInt_word. split; [done|apply settles_refl].
  - split; [apply typeCheck_kind; [done..|]; simpl; unfold reflectIntKindAndType; by rewrite Hn|]. apply pack_ref; [done|first [by left|by right]].
  - split; [apply typeCheck_kind; [done..|]; simpl; unfold reflectIntKindAndType; by rewrite Hn|]. apply pack_ref; [done|first [by left|by right]].
  - split; [done|]. exists h. split; [|apply settles_refl]. by destruct b.
  - split; [unfold typeCheck; simpl; unfold val_kind; simpl; by rewrite Hk|]. exists h. split; [|apply settles_refl].
    unfold packElement. cbn [describe T tag_of]. rewrite val_bytes_array by done. cbn [rbind]. rewrite LeftPadBytes_spec. unfold len. by rewrite Hl.
  - assert (n <= 32) as Hn32 by (by apply H32). split.
    + unfold typeCheck. cbn [describe T tag_of Kind gotype]. unfold val_kind. simpl typ_of. rewrite Hk. simpl. rewrite len_byte_vals, Hl.
      by rewrite Z.eqb_refl.
    + exists h. split; [|apply settles_refl]. unfold packElement. cbn [describe T tag_of]. rewrite val_bytes_array by done. cbn [rbind].
      rewrite right_pad_word by lia. done.
  - split; [unfold typeCheck; simpl; unfold val_kind; simpl; by rewrite Hk|]. exists h. split; [|apply settles_refl].
    unfold packElement. cbn [describe T tag_of]. rewrite val_bytes_array by done. cbn [rbind]. rewrite right_pad_word by (unfold len; lia). done.
  - split; [done|]. exists h. split; [|apply settles_refl]. unfold packElement. cbn [describe T tag_of]. rewrite packBytesSlice_spec by done. done.
  - split; [done|]. exists h. split; [|apply settles_refl]. unfold packElement. cbn [describe T tag_of].
    rewrite val_bytes_slice. cbn [rbind val_len]. rewrite len_byte_vals. rewrite packBytesSlice_spec by done. done.
Qed.

Lemma pack_reps h t v x : reps h t v x -> simple t = true -> valid t -> (forall n, t = AFixed n -> n <= 32) -> small x ->
  exists h', pack (describe t) h v = Ok (inr (enc t x, h')) /\ settles h h'.
Proof.
  intros (v' & Hi & Hs) Hsim Hv H32 Hsm. rewrite pack_simple, Hi by done. cbn [rbind].
  destruct (pack_stands h t v' x Hs Hsim Hv H32 Hsm) as (-> & h' & -> & Hset). by exists h'.
Qed.

(** ** Sequences of elementary values *)

Lemma elementary_simple t : elementary t = true -> simple t = true /\ dynamic t = false /\ (forall n, t = AFixed n -> n <= 32).
Proof. destruct t; try done. simpl. intros H%Z.leb_le. repeat split; try done. by intros m [= ->]. Qed.

Lemma elementary_small h t v x : elementary t = true -> stands h t v x -> small x.
Proof.
  intros He Hs. destruct Hs as [| | | | |g b _ Hl _|n g b _ Hl _|g b _ Hl _| |]; try done; simpl; unfold two63.
  - unfold len. rewrite Hl. lia.
  - simpl in He. apply Z.leb_le in He. lia.
  - unfold len. rewrite Hl. lia.
Qed.

Lemma elementary_len h t v x : elementary t = true -> valid t -> stands h t v x -> len (enc t x) = 32.
Proof.
  assert (forall b, 0 < len b <= 32 -> len (padded b) = 32) as Hp.
  { intros b Hb. rewrite <-right_pad_word, len_RightPadBytes by done. lia. }
  intros He Hv Hs. destruct Hs as [| | | |b|g b _ Hl _|n g b _ Hl _|g b _ Hl _| |]; try done; cbn [enc]; rewrite ?len_be; try done.
  - rewrite len_app, len_zeros by lia. unfold len. rewrite Hl. done.
  - simpl in He, Hv. apply Z.leb_le in He. apply Hp. lia.
  - apply Hp. unfold len. rewrite Hl. lia.
Qed.

(** Static parts have no tails. *)
Lemma tuple_static (bs : list bytes) : tuple ((fun b => (false, b)) <$> bs) = List.concat bs.
Proof.
  unfold tuple. generalize (heads_len ((fun b => (false, b)) <$> bs)) as off. intros off.
  assert (tails ((fun b => (false, b)) <$> bs) = []) as -> by (induction bs as [|b bs IH]; [done|by simpl]).
  rewrite app_nil_r. induction bs as [|b bs IH]; [done|]. simpl. f_equal. exact IH.
Qed.

Lemma enc_list t l : dynamic t = false -> tuple ((fun x => (dynamic t, enc t x)) <$> l) = List.concat (enc t <$> l).
Proof. intros ->. rewrite <-tuple_static. f_equal. by rewrite <-list_fmap_compose. Qed.

Lemma len_enc_list h t vs xs : elementary t = true -> valid t -> Forall2 (reps h t) vs xs -> len (List.concat (enc t <$> xs)) = 32 * len xs.
Proof.
  intros He Hv. induction 1 as [|v x vs xs (v' & _ & Hs) _ IH]; [done|]. cbn [fmap list_fmap List.concat].
  rewrite len_app, len_cons, (elementary_len _ _ _ _ He Hv Hs), IH. lia.
Qed.

Lemma pack_each_spec h t vs xs : elementary t = true -> valid t -> Forall2 (reps h t) vs xs ->
  exists h', pack_each (pack (describe t)) h vs = Ok (inr (List.concat (enc t <$> xs), h')) /\ settles h h'.
Proof.
  intros He Hv Hr. destruct (elementary_simple t He) as (Hsim & _ & H32). revert h xs Hr.
  induction vs as [|v vs IH]; intros h xs Hr; inversion Hr as [|? x ? xs' Hx Hxs]; subst; [exists h; split; [done|apply settles_refl]|].
  assert (small x) as Hsm by (destruct Hx as (v' & _ & Hs); by eapply elementary_small).
  cbn [pack_each]. destruct (pack_reps h t v x Hx Hsim Hv H32 Hsm) as (h1 & -> & Hs1). cbn [rbind].
  destruct (IH h1 xs') as (h2 & E2 & Hs2). { eapply Forall2_impl; [exact Hxs|]. intros a b. by apply reps_settles. }
  rewrite E2. cbn [rbind]. exists h2. split; [done|by eapply settles_trans].
Qed.

Lemma pack_slice h t v e vs xs : elementary t = true -> valid t -> indirect v = Ok (VSlice e vs) -> kind_of e = kind_of (gotype t) ->
  Forall2 (reps h t) vs xs -> len vs < two63 - 32 ->
  exists h', pack (describe (ASlice t)) h v = Ok (inr (enc (ASlice t) (AList xs), h')) /\ settles h h'.
Proof.
  intros He Hv Hi Hk Hr Hl. cbn [describe pack]. rewrite Hi. cbn [rbind].
  assert (typeCheck (describe (ASlice t)) (VSlice e vs) = Ok None) as Htc.
  { unfold typeCheck. cbn [describe T tag_of sliceTypeCheck]. unfold val_kind. cbn [typ_of kind_of val_len rbind elem_of_typ].
    rewrite (bool_decide_false (SliceTy = ArrayTy)) by done. cbn [andb]. rewrite Kind_describe, (bool_decide_true (kind_of e = _)) by done.
    rewrite T_describe. by destruct t. }
  cbn [describe] in Htc. rewrite Htc. cbn [rbind elems]. destruct (pack_each_spec h t vs xs He Hv Hr) as (h' & -> & Hs). cbn [rbind].
  exists h'. split; [|done]. cbn [T]. rewrite bool_decide_true by done. do 3 f_equal. cbn [enc].
  rewrite enc_list by (by apply elementary_simple). unfold packBytesSlice. pose proof (len_nonneg vs) as Hnn.
  rewrite packInt_small by lia. pose proof (Forall2_length _ _ _ Hr) as Hlen. assert (len xs = len vs) as Exs by (unfold len; by rewrite Hlen).
  rewrite Exs. f_equal. rewrite RightPadBytes_spec. pose proof (len_enc_list h t vs xs He Hv Hr) as Hc. rewrite Hc.
  rewrite (i64_id (len vs + 31)) by lia. rewrite Z.quot_div_nonneg by lia.
  pose proof (Z.div_mod (len vs + 31) 32 ltac:(lia)). pose proof (Z.mod_pos_bound (len vs + 31) 32 ltac:(lia)). rewrite i64_id by lia.
  unfold zeros. match goal with |- context [Z.to_nat ?k] => replace (Z.to_nat k) with 0%nat by lia end. by rewrite app_nil_r.
Qed.

Lemma pack_array h n t v e vs xs : elementary t = true -> valid t -> indirect v = Ok (VArray (GArray n e) vs) -> kind_of e = kind_of (gotype t) ->
  len vs = n -> Forall2 (reps h t) vs xs ->
  exists h', pack (describe (AArray n t)) h v = Ok (inr (enc (AArray n t) (AList xs), h')) /\ settles h h'.
Proof.
  intros He Hv Hi Hk Hl Hr. cbn [describe pack]. rewrite Hi. cbn [rbind].
  assert (typeCheck (describe (AArray n t)) (VArray (GArray n e) vs) = Ok None) as Htc.
  { unfold typeCheck. cbn [describe T tag_of sliceTypeCheck]. unfold val_kind. cbn [typ_of kind_of val_len rbind elem_of_typ Size size_in].
    rewrite Hl, Z.eqb_refl, andb_false_r. rewrite Kind_describe, (bool_decide_true (kind_of e = _)) by done. rewrite T_describe. by destruct t. }
  cbn [describe] in Htc. rewrite Htc. cbn [rbind elems]. destruct (pack_each_spec h t vs xs He Hv Hr) as (h' & -> & Hs). cbn [rbind].
  exists h'. split; [|done]. cbn [T]. rewrite (bool_decide_false (ArrayTy = SliceTy)) by done. do 3 f_equal. cbn [enc].
  by rewrite enc_list by (by apply elementary_simple).
Qed.

(** ** Packing arguments *)

Definition part_of (a : aty * aval) : part := (dynamic (fst a), enc (fst a) (snd a)).

(** The Go values of the arguments stand for the abstract ones. *)
Inductive args_rep (h : ints) : list Argument -> list gval -> list (aty * aval) -> Prop :=
| args_nil : args_rep h [] [] []
| args_cons a t v x ins vs axs : ArgType a = describe t -> reps_arg h t v x -> args_rep h ins vs axs ->
    args_rep h (a :: ins) (v :: vs) ((t, x) :: axs).

Definition arg_ok (a : aty * aval) : Prop := supported (fst a) = true /\ valid (fst a).

Lemma args_rep_settles h h' ins vs axs : settles h h' -> args_rep h ins vs axs -> args_rep h' ins vs axs.
Proof.
  intros Hs. induction 1 as [|a t v x ins vs axs Ha Hr _ IH]; [constructor|]. constructor; [done| |done].
  destruct Hr as [t v x Hr|t v e vs' xs Hi Hk Hr|n t v e vs' xs Hi Hk Hl Hr].
  - constructor. by eapply reps_settles.
  - eapply ra_slice; [done..|]. eapply Forall2_impl; [done|]. intros b c. by apply reps_settles.
  - eapply ra_array; [done..|]. eapply Forall2_impl; [done|]. intros b c. by apply reps_settles.
Qed.

Lemma supported_prefix t : supported t = true -> requiresLengthPrefix (describe t) = dynamic t.
Proof. intros Hs. destruct t as [| | | | | | | |t|n t]; try done. simpl in *. by destruct (elementary_simple t Hs) as (_ & -> & _). Qed.

Lemma len_heads off ps : len (heads off ps) = heads_len ps.
Proof.
  revert off. induction ps as [|[d b] ps IH]; intros off; [done|]. cbn [heads heads_len foldr]. unfold head_len. simpl fst. simpl snd.
  destruct d; rewrite len_app, ?len_be, IH; done.
Qed.

Lemma len_tuple ps : len (tuple ps) = heads_len ps + len (tails ps).
Proof. unfold tuple. by rewrite len_app, len_heads. Qed.

(** The code's size of a head. *)
Lemma head_size h t v x : supported t = true -> valid t -> reps_arg h t v x ->
  match T (describe t) with ArrayTy => 32 * Size (describe t) | _ => 32 end = head_len (dynamic t, enc t x).
Proof.
  intros Hs Hv Hr. rewrite T_describe, Size_describe. unfold head_len. simpl fst. simpl snd.
  destruct Hr as [t v x (v' & _ & Hr)|t v e vs xs Hi Hk Hr|n t v e vs xs Hi Hk Hl Hr].
  - assert (elementary t = true -> len (enc t x) = 32) as He by (intros He; by eapply elementary_len).
    destruct t; try done; simpl dynamic; cbn iota; try (by rewrite He). by inversion Hr.
  - done.
  - simpl in Hs, Hv. destruct Hv as (Hv & _). destruct (elementary_simple t Hs) as (_ & Hd & _). simpl dynamic. rewrite Hd. cbn iota.
    cbn [enc size_in tag_of]. rewrite enc_list, (len_enc_list h t vs xs Hs Hv Hr) by done. pose proof (Forall2_length _ _ _ Hr) as E.
    unfold len in *. lia.
Qed.

Lemma pack_arg h t v x : supported t = true -> valid t -> reps_arg h t v x -> len (enc t x) < two63 ->
  exists h', pack (describe t) h v = Ok (inr (enc t x, h')) /\ settles h h'.
Proof.
  intros Hs Hv Hr Hl. destruct Hr as [t v x Hr|t v e vs xs Hi Hk Hr|n t v e vs xs Hi Hk Hn Hr].
  - apply pack_reps; [done| |done| |].
    + destruct Hr as (v' & _ & Hr). by inversion Hr.
    + intros n ->. simpl in Hs. by apply Z.leb_le in Hs.
    + destruct Hr as (v' & _ & Hr). destruct Hr; try done; cbn [enc] in Hl; simpl; unfold padded in Hl; rewrite ?len_app, ?len_be in Hl.
      1-3: simpl in Hs, Hv; try apply Z.leb_le in Hs; unfold two63, len in *; lia.
      1-2: match goal with |- len ?b < _ => pose proof (len_nonneg (zeros ((- len b) mod 32))) end; lia.
  - simpl in Hs, Hv. eapply pack_slice; try done. cbn [enc] in Hl. rewrite len_app, len_be, enc_list in Hl by (by apply elementary_simple).
    rewrite (len_enc_list h t vs xs Hs Hv Hr) in Hl. pose proof (Forall2_length _ _ _ Hr). unfold len in *. lia.
  - simpl in Hs. destruct Hv as (Hv & _). by eapply pack_array.
Qed.

Lemma heads_len_nonneg ps : 0 <= heads_len ps.
Proof. induction ps as [|[[] b] ps IH]; simpl; unfold head_len; simpl; [lia..|]. pose proof (len_nonneg b). lia. Qed.

Lemma heads_len_cons p ps : heads_len (p :: ps) = head_len p + heads_len ps.
Proof. done. Qed.

Lemma parts_cons t x axs : part_of <$> (t, x) :: axs = (dynamic t, enc t x) :: (part_of <$> axs).
Proof. done. Qed.

Lemma input_offset_spec h ins vs axs acc : args_rep h ins vs axs -> Forall arg_ok axs -> 0 <= acc ->
  acc + heads_len (part_of <$> axs) < two63 ->
  fold_left (fun off arg => i64 (off + match T (ArgType arg) with ArrayTy => i64 (32 * Size (ArgType arg)) | _ => 32 end)) ins acc
    = acc + heads_len (part_of <$> axs).
Proof.
  intros Hr. revert acc. induction Hr as [|a t v x ins vs axs Ha Hx _ IH]; intros acc Hok Hacc Hb; [simpl; lia|].
  inversion Hok as [|? ? [Hs Hv] Hok']; subst. simpl in Hs, Hv. rewrite parts_cons, heads_len_cons in Hb |- *. cbn [fold_left].
  pose proof (head_size h t v x Hs Hv Hx) as Hh. pose proof (heads_len_nonneg (part_of <$> axs)) as Hnn. rewrite <-Hh in Hb |- *. rewrite Ha.
  assert (match T (describe t) with ArrayTy => i64 (32 * Size (describe t)) | _ => 32 end =
    match T (describe t) with ArrayTy => 32 * Size (describe t) | _ => 32 end) as ->.
  { destruct t as [| | | | | | | |t|n t]; try done. cbn [describe T tag_of Size size_in] in Hb |- *. simpl in Hv. apply i64_id. lia. }
  assert (0 <= match T (describe t) with ArrayTy => 32 * Size (describe t) | _ => 32 end) as Hp.
  { destruct t as [| | | | | | | |t|n t]; try done. cbn [describe T tag_of Size size_in]. simpl in Hv. lia. }
  rewrite i64_id, IH by (done || lia). lia.
Qed.

Lemma pack_args_spec h ins vs axs off ret var : args_rep h ins vs axs -> Forall arg_ok axs -> 0 <= off ->
  heads_len (part_of <$> axs) < two63 -> off + len var + len (tails (part_of <$> axs)) < two63 ->
  exists h', pack_args off ret var h ins vs =
    Ok (inr (ret ++ heads (off + len var) (part_of <$> axs) ++ var ++ tails (part_of <$> axs), h')) /\ settles h h'.
Proof.
  revert vs axs h ret var. induction ins as [|a ins IH]; intros vs axs h ret var Hr Hok Hoff Hh Hb.
  { inversion Hr; subst. exists h. split; [|apply settles_refl]. simpl. by rewrite app_nil_r. }
  inversion Hr as [|? t v x ? vs' axs' Ha Hx Hrest]; subst. inversion Hok as [|? ? [Hs Hv] Hok']; subst. simpl in Hs, Hv.
  rewrite parts_cons in Hb, Hh |- *. rewrite heads_len_cons in Hh. unfold head_len in Hh. cbn [tails heads fst snd] in Hb, Hh |- *.
  rewrite len_app in Hb. pose proof (heads_len_nonneg (part_of <$> axs')) as Hnn. pose proof (len_nonneg var) as Hvn.
  pose proof (len_nonneg (tails (part_of <$> axs'))) as Htn.
  assert (len (enc t x) < two63) as Hlen by (destruct (dynamic t); [lia|lia]).
  destruct (pack_arg h t v x Hs Hv Hx Hlen) as (h1 & Hp & Hs1). cbn [pack_args]. rewrite Ha, Hp. cbn [rbind].
  rewrite supported_prefix by done. pose proof (args_rep_settles h h1 _ _ _ Hs1 Hrest) as Hr1.
  pose proof (len_nonneg (enc t x)) as Hen. destruct (dynamic t).
  - destruct (IH vs' axs' h1 (ret ++ packInt (i64 (off + len var))) (var ++ enc t x) Hr1 Hok' Hoff) as (h2 & -> & Hs2).
    { lia. }
    { rewrite len_app. lia. }
    exists h2. split; [|by eapply settles_trans]. rewrite i64_id, packInt_small by lia. rewrite len_app.
    replace (off + (len var + len (enc t x))) with (off + len var + len (enc t x)) by lia. by rewrite <-!app_assoc.
  - rewrite len_nil in Hb. destruct (IH vs' axs' h1 (ret ++ enc t x) var Hr1 Hok' Hoff) as (h2 & -> & Hs2); [lia|lia|].
    exists h2. split; [|by eapply settles_trans]. simpl. by rewrite <-!app_assoc.
Qed.

Lemma args_rep_length h ins vs axs : args_rep h ins vs axs -> length vs = length ins.
Proof. induction 1; simpl; congruence. Qed.

Lemma Arguments_Pack_spec h ins vs axs : args_rep h ins vs axs -> Forall arg_ok axs -> len (encode axs) < two63 ->
  exists h', Arguments_Pack ins h vs = Ok (inr (encode axs, h')) /\ settles h h'.
Proof.
  intros Hr Hok Hb. unfold Arguments_Pack. rewrite (args_rep_length _ _ _ _ Hr), Nat.eqb_refl. cbn [negb].
  change (encode axs) with (tuple (part_of <$> axs)) in *. rewrite len_tuple in Hb.
  pose proof (len_nonneg (tails (part_of <$> axs))) as Htn.
  unfold input_offset. rewrite (input_offset_spec h ins vs axs 0 Hr Hok) by lia. rewrite Z.add_0_l.
  destruct (pack_args_spec h ins vs axs (heads_len (part_of <$> axs)) [] [] Hr Hok) as (h' & -> & Hs).
  { apply heads_len_nonneg. }
  { lia. }
  { rewrite len_nil. lia. }
  exists h'. split; [|done]. rewrite len_nil, Z.add_0_r. done.
Qed.

End AbiSpec.
