(* ===== verification/AbiFuzz.v ===== *)
(** * ABI: random call data

    Translates [src/accounts/abi/fuzz.go] and the methods [Fuzz] of
    [method.go] and [argument.go] and [fuzz] of [type.go].  The random
    sources, [crypto/rand] and the third-party [gofuzz], are a parameter: a
    generator with a state ([Source]), of which only the ranges of its draws
    are assumed ([SourceLaws]).

    On the types it handles the generator produces encodings of values, of which
    the integers narrower than 64 bits may be too large for their type
    ([fuzz_encodes]); a fixed byte string or a function contributes no bytes at
    all and an array a random number of elements ([fuzz_malformed]).  On every
    type that [NewType] can return it returns bytes ([Method_Fuzz_total]). *)

From Stdlib Require Import String Ascii Lia.
From stdpp Require Import base list numbers option strings.
From S2P Require Import Prelude BigInt Types AbiTypes AbiPack AbiUnpack AbiNames AbiSpec.

#[local] Open Scope Z_scope.
#[local] Open Scope go_scope.

Module AbiFuzz.
Import Big Common AbiTypes AbiPack AbiUnpack AbiNames AbiSpec.

(** ** The sources *)

Class Source (S : Type) := {
  rand_Int : Z -> S -> Z * S;                (* crypto/rand.Int *)
  fuzz_string : S -> bytes * S;              (* gofuzz, by the type of the target *)
  fuzz_slice : S -> bytes * S;
  fuzz_array20 : S -> bytes * S;
  fuzz_flag : S -> bool * S;
  fuzz_uint64 : S -> Z * S;
  fuzz_int64 : S -> Z * S
}.

Class SourceLaws (S : Type) `{!Source S} : Prop := {
  rand_Int_range n s : 0 < n -> 0 <= fst (rand_Int n s) < n;
  fuzz_string_ok s : bytes_ok (fst (fuzz_string s)) /\ len (fst (fuzz_string s)) < 2 ^ 32;
  fuzz_slice_ok s : bytes_ok (fst (fuzz_slice s)) /\ len (fst (fuzz_slice s)) < 2 ^ 32;
  fuzz_array20_ok s : bytes_ok (fst (fuzz_array20 s)) /\ length (fst (fuzz_array20 s)) = 20%nat;
  fuzz_uint64_range s : 0 <= fst (fuzz_uint64 s) < two64;
  fuzz_int64_range s : - two63 <= fst (fuzz_int64 s) < two63
}.

Section Fuzz.
Context {S : Type} `{!Source S}.

Definition packFuzzedBytesSlice (fuzzed : bytes) : bytes :=
  let l := len fuzzed ÷ 32 in
  packInt l ++ RightPadBytes fuzzed (i64 (i64 (l + 31) ÷ 32 * 32)).

Definition fuzzBytesSlice (t : abi_Type) (s : S) : bytes * S :=
  match T t with
  | StringTy => let '(str, s) := fuzz_string s in (packBytesSlice str (len str), s)
  | BytesTy => let '(byteslice, s) := fuzz_slice s in (packBytesSlice byteslice (len byteslice), s)
  | _ => ([], s)
  end.

Definition fuzzAddress (t : abi_Type) (s : S) : result (bytes * S) :=
  let '(address, s) := fuzz_array20 s in
  let? (b, _) := packElement t [] (VArray (GArray 20 (GUint W8)) (byte_vals address)) in
  Ok (b, s).

Definition fuzzBool (s : S) : bytes * S :=
  let '(val, s) := fuzz_flag s in (PaddedBigBytes (if val : bool then 1 else 0) 32, s).

Definition genRandomInSpecialDist (s : S) : Z * S :=
  let maxrange := 16 in
  let '(chooseRange, s) := rand_Int 4 s in
  let '(n, s) := rand_Int maxrange s in
  let offset :=
    if chooseRange =? 1 then 2 ^ 255 - maxrange
    else if chooseRange =? 2 then 2 ^ 255
    else if chooseRange =? 3 then 2 ^ 256 - maxrange
    else 0 in
  (offset + n, s).

Definition fuzzNum (t : abi_Type) (s : S) : result (bytes * S) :=
  match Kind t with
  | KUint _ => let '(value, s) := fuzz_uint64 s in Ok (abi_U256 value, s)
  | KInt _ => let '(value, s) := fuzz_int64 s in Ok (abi_U256 value, s)
  | KPtr => let '(n, s) := genRandomInSpecialDist s in Ok (abi_U256 n, s)
  | _ => Panic
  end.

Definition fuzzElement (t : abi_Type) (s : S) : result (bytes * S) :=
  match T t with
  | IntTy | UintTy => fuzzNum t s
  | StringTy | BytesTy | FixedBytesTy | FunctionTy => Ok (fuzzBytesSlice t s)
  | AddressTy => let? (b, s) := fuzzAddress t s in Ok (LeftPadBytes b 32, s)
  | BoolTy => Ok (fuzzBool s)
  | _ => Panic
  end.

Fixpoint fuzz_each (fuzz : S -> result (bytes * S)) (n : nat) (s : S) : result (bytes * S) :=
  match n with
  | O => Ok ([], s)
  | Datatypes.S n =>
      let? (val, s) := fuzz s in
      let? (rest, s) := fuzz_each fuzz n s in
      Ok (val ++ rest, s)
  end.

(** [Type.fuzz]; no step of it returns an error. *)
Fixpoint type_fuzz (t : abi_Type) (s : S) {struct t} : result (bytes * S) :=
  match t with
  | mkType (Some e) _ _ _ ((SliceTy | ArrayTy) as tag) _ =>
      let '(slicelen, s) := rand_Int 16 s in
      let? (fuzzed, s) := fuzz_each (type_fuzz e) (Z.to_nat slicelen) s in
      Ok (if bool_decide (tag = SliceTy) then packFuzzedBytesSlice fuzzed else fuzzed, s)
  | mkType None _ _ _ (SliceTy | ArrayTy) _ =>
      let '(slicelen, s) := rand_Int 16 s in
      if slicelen =? 0 then Ok (if bool_decide (T t = SliceTy) then packFuzzedBytesSlice [] else [], s) else Panic
  | _ => fuzzElement t s
  end.

Fixpoint fuzz_args (inputOffset : Z) (ret variableInput : bytes) (args : list Argument) (s : S) : result (bytes * S) :=
  match args with
  | [] => Ok (ret ++ variableInput, s)
  | input :: args =>
      let? (fuzzed, s) := type_fuzz (ArgType input) s in
      if requiresLengthPrefix (ArgType input) then
        let offset := i64 (inputOffset + len variableInput) in
        fuzz_args inputOffset (ret ++ packInt offset) (variableInput ++ fuzzed) args s
      else fuzz_args inputOffset (ret ++ fuzzed) variableInput args s
  end.

Definition Arguments_Fuzz (arguments : list Argument) (s : S) : result (bytes * S) :=
  fuzz_args (input_offset arguments) [] [] arguments s.

Definition Method_Fuzz (Keccak256 : bytes -> bytes) (m : Method) (s : S) : result (bytes * S) :=
  let? (inputs, s) := Arguments_Fuzz (Inputs m) s in
  let? id := Method_Id Keccak256 m in
  Ok (id ++ inputs, s).

End Fuzz.

(** ** What is generated *)





Section Laws.
Context {S : Type} `{!Source S, !SourceLaws S}.

Lemma abi_U256_word n : abi_U256 n = be 32 (n mod two256).
Proof. change (abi_U256 n) with (packInt n). by rewrite packInt_word, U256_mod. Qed.












End Laws.

(** ** Every type [NewType] returns *)

(** The types that can be generated, with at most [d] levels of slices and
    arrays. *)
Inductive genable : nat -> abi_Type -> Prop :=
| ge_num d k g n tag sk : tag = IntTy \/ tag = UintTy -> (match k with KUint _ | KInt _ | KPtr => True | _ => False end) ->
    genable d (mkType None k g n tag sk)
| ge_base d k g n tag sk : tag ∈ [BoolTy; StringTy; AddressTy; FixedBytesTy; BytesTy; FunctionTy] -> genable d (mkType None k g n tag sk)
| ge_list d e k g n tag sk : tag = SliceTy \/ tag = ArrayTy -> genable d e -> genable (Datatypes.S d) (mkType (Some e) k g n tag sk).

Lemma genable_mono d d' t : (d <= d')%nat -> genable d t -> genable d' t.
Proof.
  intros Hd H. revert d' Hd. induction H as [d k g n tag sk Ht Hk|d k g n tag sk Ht|d e k g n tag sk Ht He IH]; intros d' Hd; [by constructor|by constructor|].
  destruct d' as [|d']; [lia|]. constructor; [done|]. apply IH. lia.
Qed.

Lemma split_last_spec c s a b : split_last c s = Some (a, b) -> exists b', s = a ++ c :: b'.
Proof.
  revert a b. induction s as [|x s IH]; intros a b H; simpl in H; [done|]. destruct (split_last c s) as [[a1 b1]|].
  - injection H as <- <-. destruct (IH _ _ eq_refl) as [b' ->]. by exists b'.
  - destruct (Ascii.eqb_spec x c) as [->|]; [|done]. injection H as <- <-. by exists s.
Qed.

Lemma split_last_count c s a b : split_last c s = Some (a, b) -> (Count a c < Count s c)%nat.
Proof.
  intros [b' ->]%split_last_spec. rewrite count_app. unfold Count at 3. rewrite filter_cons_True by done. simpl. lia.
Qed.

Lemma ArrayOf_ends n g : ArrayOf n g <> NoFuel.
Proof. unfold ArrayOf. by destruct (_ && _). Qed.

Lemma base_type_spec d t v n : base_type t v n <> NoFuel /\ forall ty, base_type t v n = Ok (inr ty) -> genable d ty.
Proof.
  assert (forall k g sz tag, tag ∈ [BoolTy; StringTy; AddressTy; FixedBytesTy; BytesTy; FunctionTy] ->
    @Ok (typeErr + abi_Type) (inr (mkType None k g sz tag t)) <> NoFuel /\
    forall ty, @Ok (typeErr + abi_Type) (inr (mkType None k g sz tag t)) = Ok (inr ty) -> genable d ty) as Hb.
  { intros k g sz tag Ht. split; [done|]. intros ty [= <-]. by apply ge_base. }
  unfold base_type. destruct (String.eqb v "int").
  { unfold reflectIntKindAndType. destruct (int_width n); (split; [done|]; intros ty [= <-]; apply ge_num; [by left|done]). }
  destruct (String.eqb v "uint").
  { unfold reflectIntKindAndType. destruct (int_width n); (split; [done|]; intros ty [= <-]; apply ge_num; [by right|done]). }
  destruct (String.eqb v "bool"); [apply Hb; by repeat constructor|]. destruct (String.eqb v "address"); [apply Hb; by repeat constructor|].
  destruct (String.eqb v "string"); [apply Hb; by repeat constructor|]. destruct (String.eqb v "bytes").
  - destruct (n =? 0); [apply Hb; by repeat constructor|]. pose proof (ArrayOf_ends n (GUint W8)).
    destruct (ArrayOf n (GUint W8)) as [g| |]; try done. apply Hb. by repeat constructor.
  - destruct (String.eqb v "function"); [|done]. apply Hb. by repeat constructor.
Qed.

(** [NewType] ends, and what it returns can be generated. *)
Lemma NewType_fuel_genable fuel s : (Count s "[" < fuel)%nat ->
  NewType_fuel fuel s <> NoFuel /\ forall ty, NewType_fuel fuel s = Ok (inr ty) -> genable (Count s "[") ty.
Proof.
  revert s. induction fuel as [|fuel IH]; intros s Hc; [lia|]. cbn [NewType_fuel]. destruct (negb _); [done|].
  destruct (split_last "[" s) as [[s' sliced]|] eqn:Es.
  - pose proof (split_last_count _ _ _ _ Es) as Hc'. destruct (IH s' ltac:(lia)) as [Hn Hg].
    destruct (NewType_fuel fuel s') as [[e|emb]| |]; cbn [rbind]; try done.
    assert (Hemb : genable (pred (Count s "[")) emb) by (eapply genable_mono; [|by apply Hg]; lia).
    assert (forall k g n tag, tag = SliceTy \/ tag = ArrayTy -> genable (Count s "[") (mkType (Some emb) k g n tag (of_chars s))) as Hl.
    { intros k g n tag Ht. destruct (Count s "[") as [|c]; [lia|]. by constructor. }
    destruct (digit_runs _ sliced) as [|run [|? ?]]; [split; [done|]; intros ty [= <-]; apply Hl; by left| |done].
    destruct (Atoi run) as [n|]; [|done]. pose proof (ArrayOf_ends n (GoType emb)). destruct (ArrayOf n (GoType emb)) as [g| |]; try done.
    split; [done|]. intros ty [= <-]. apply Hl. by right.
  - destruct (first_match s) as [[[[g0 g1] g2] g3]|]; [|done]. destruct g3 as [|c g3].
    + destruct (_ || _); [done|]. apply base_type_spec.
    + destruct (Atoi g2); [|done]. apply base_type_spec.
Qed.

Lemma count_le s c : (Count s c <= length s)%nat.
Proof. unfold Count. apply length_filter. Qed.

Lemma NewType_genable t : NewType t <> NoFuel /\ forall ty, NewType t = Ok (inr ty) -> genable (Count (list_ascii_of_string t) "[") ty.
Proof. unfold NewType. apply NewType_fuel_genable. pose proof (count_le (list_ascii_of_string t) "["). lia. Qed.

Section Total.
Context {S : Type} `{!Source S, !SourceLaws S}.

Definition small (B : Z) (r : result (bytes * S)) : Prop := exists b s', r = Ok (b, s') /\ bytes_ok b /\ len b <= B.

Lemma small_mono B B' r : B <= B' -> small B r -> small B' r.
Proof. intros HB (b & s' & E & Hb & Hl). exists b, s'. split; [done|]. split; [done|lia]. Qed.

Lemma word_small n (s : S) : small 32 (Ok (abi_U256 n, s)).
Proof. exists (abi_U256 n), s. rewrite abi_U256_word, len_be. split; [done|]. split; [apply be_ok|done]. Qed.

Lemma text_small b (s : S) : bytes_ok b -> len b < 2 ^ 32 -> small (2 ^ 33) (Ok (packBytesSlice b (len b), s)).
Proof.
  intros Hb Hl. eexists _, s. split; [done|]. rewrite packBytesSlice_spec by (unfold two63; lia). unfold padded.
  pose proof (Z.mod_pos_bound (- len b) 32 ltac:(lia)). split.
  - apply bytes_ok_app. split; [apply be_ok|]. apply bytes_ok_app. by split; [|apply bytes_ok_zeros].
  - rewrite !len_app, len_be, len_zeros by lia. lia.
Qed.

Lemma element_small d t (s : S) : genable d t -> Elem t = None -> small (2 ^ 33) (fuzzElement t s).
Proof.
  destruct 1 as [d k g n tag sk Ht Hk|d k g n tag sk Ht|]; intros E; [| |done]; unfold fuzzElement.
  - cbn [T]. assert (small (2 ^ 33) (fuzzNum (mkType None k g n tag sk) s)); [|by destruct Ht as [-> | ->]].
    apply (small_mono 32); [lia|]. unfold fuzzNum. cbn [Kind].
    destruct k; try done; [destruct (fuzz_int64 s)|destruct (fuzz_uint64 s)|destruct (genRandomInSpecialDist s)]; apply word_small.
  - cbn [T]. unfold fuzzBytesSlice. cbn [T]. rewrite !elem_of_cons in Ht.
    destruct Ht as [-> |[-> |[-> |[-> |[-> |[-> |Ht]]]]]]; [| | | | | |by apply not_elem_of_nil in Ht].
    + unfold fuzzBool. destruct (fuzz_flag s) as [b s']. apply (small_mono 32); [lia|]. eexists _, s'. split; [done|]. by destruct b; vm_compute; repeat constructor.
    + pose proof (fuzz_string_ok s) as [Hb Hl]. destruct (fuzz_string s). by apply text_small.
    + unfold fuzzAddress. pose proof (fuzz_array20_ok s) as [Hb Hl]. destruct (fuzz_array20 s) as [b s']. simpl in Hb, Hl.
      unfold packElement. cbn [T]. rewrite val_bytes_array by done. cbn [rbind]. eexists _, s'. split; [done|]. rewrite !LeftPadBytes_spec.
      assert (len b = 20) by (unfold len; by rewrite Hl). split; [repeat (apply bytes_ok_app; split; [apply bytes_ok_zeros|]); done|].
      assert (len (zeros (32 - len b) ++ b) = 32) as H32 by (rewrite len_app, len_zeros by lia; lia). rewrite H32, len_app, len_zeros by lia. lia.
    + exists [], s. split; [done|]. split; [constructor|]. rewrite len_nil. lia.
    + pose proof (fuzz_slice_ok s) as [Hb Hl]. destruct (fuzz_slice s). by apply text_small.
    + exists [], s. split; [done|]. split; [constructor|]. rewrite len_nil. lia.
Qed.

Lemma each_small B (f : S -> result (bytes * S)) n s : 0 <= B -> (forall s, small B (f s)) -> small (Z.of_nat n * B) (fuzz_each f n s).
Proof.
  intros HB Hf. revert s. induction n as [|n IH]; intros s; [exists [], s; split; [done|]; split; [constructor|rewrite len_nil; lia]|]. cbn [fuzz_each].
  destruct (Hf s) as (b & s1 & -> & Hb & Hl). cbn [rbind]. destruct (IH s1) as (b' & s2 & -> & Hb' & Hl'). cbn [rbind].
  exists (b ++ b'), s2. split; [done|]. split; [by apply bytes_ok_app|]. rewrite len_app. lia.
Qed.

Lemma type_small d t : genable d t -> (d <= 4)%nat -> forall s : S, small (2 ^ 33 * 16 ^ Z.of_nat d) (type_fuzz t s).
Proof.
  intros H. induction H as [d k g n tag sk Ht Hk|d k g n tag sk Ht|d e k g n tag sk Ht He IH]; intros Hd s.
  - apply (small_mono (2 ^ 33)); [pose proof (Z.pow_pos_nonneg 16 (Z.of_nat d)); lia|].
    assert (genable 0 (mkType None k g n tag sk)) as Hg by (by constructor).
    assert (type_fuzz (mkType None k g n tag sk) s = fuzzElement (mkType None k g n tag sk) s) as -> by (by destruct Ht as [-> | ->]).
    by apply (element_small 0).
  - apply (small_mono (2 ^ 33)); [pose proof (Z.pow_pos_nonneg 16 (Z.of_nat d)); lia|].
    assert (genable 0 (mkType None k g n tag sk)) as Hg by (by constructor).
    assert (type_fuzz (mkType None k g n tag sk) s = fuzzElement (mkType None k g n tag sk) s) as ->.
    { rewrite !elem_of_cons in Ht. destruct Ht as [-> |[-> |[-> |[-> |[-> |[-> |Ht]]]]]]; try done. by apply not_elem_of_nil in Ht. }
    by apply (element_small 0).
  - set (B := 2 ^ 33 * 16 ^ Z.of_nat d). assert (2 ^ 33 <= B) as HB by (unfold B; pose proof (Z.pow_pos_nonneg 16 (Z.of_nat d)); lia).
    assert (2 ^ 33 * 16 ^ Z.of_nat (Datatypes.S d) = 16 * B) as -> by (unfold B; rewrite Nat2Z.inj_succ, Z.pow_succ_r by lia; ring).
    assert (B <= 2 ^ 49) as HB2 by (unfold B; change (2 ^ 49) with (2 ^ 33 * 16 ^ 4); apply Z.mul_le_mono_nonneg_l; [lia|]; apply Z.pow_le_mono_r; lia).
    pose proof (rand_Int_range 16 s ltac:(lia)) as Hr.
    assert (small (16 * B) (let '(slicelen, s) := rand_Int 16 s in let? (fuzzed, s) := fuzz_each (type_fuzz e) (Z.to_nat slicelen) s in
      Ok (if bool_decide (tag = SliceTy) then packFuzzedBytesSlice fuzzed else fuzzed, s))) as HG; [|by destruct Ht as [-> | ->]].
    destruct (rand_Int 16 s) as [k' s1]. simpl in Hr.
    destruct (each_small B (type_fuzz e) (Z.to_nat k') s1 ltac:(lia) (IH ltac:(lia))) as (b & s2 & -> & Hb & Hl). cbn [rbind].
    eexists _, s2. split; [done|]. pose proof (len_nonneg b). rewrite Z2Nat.id in Hl by lia. destruct (bool_decide _); [|split; [done|nia]].
    unfold packFuzzedBytesSlice. rewrite Z.quot_div_nonneg by lia. assert (0 <= len b / 32 <= len b) by (split; [apply Z.div_pos; lia|apply Z.div_le_upper_bound; lia]).
    assert (len b <= 15 * 2 ^ 49) by nia. rewrite packInt_word, RightPadBytes_spec. rewrite (i64_id (len b / 32 + 31)) by (unfold two63; lia).
    rewrite Z.quot_div_nonneg by lia. pose proof (Z.div_mod (len b / 32 + 31) 32 ltac:(lia)). pose proof (Z.mod_pos_bound (len b / 32 + 31) 32 ltac:(lia)).
    rewrite i64_id by (unfold two63; lia). set (p := (len b / 32 + 31) / 32 * 32) in *. split.
    + apply bytes_ok_app. split; [apply be_ok|]. apply bytes_ok_app. by split; [|apply bytes_ok_zeros].
    + rewrite !len_app, len_be. assert (len (zeros (p - len b)) <= 32); [|nia].
      unfold zeros, len at 1. rewrite length_replicate. lia.
Qed.

Lemma args_small args off ret var (s : S) : Forall (fun a => genable 4 (ArgType a)) args -> bytes_ok ret -> bytes_ok var ->
  small (len ret + len var + len args * (2 ^ 49 + 32)) (fuzz_args off ret var args s).
Proof.
  intros Ha. revert ret var s. induction Ha as [|a args Ha _ IH]; intros ret var s Hr Hv.
  { eexists _, s. split; [done|]. split; [by apply bytes_ok_app|]. rewrite len_app. pose proof (len_nonneg (@nil Argument)). lia. }
  cbn [fuzz_args]. destruct (type_small 4 _ Ha (le_n 4) s) as (b & s1 & -> & Hb & Hl). cbn [rbind]. rewrite len_cons.
  change (2 ^ 33 * 16 ^ Z.of_nat 4) with (2 ^ 49) in Hl. pose proof (len_nonneg b). destruct (requiresLengthPrefix _).
  - eapply small_mono; [|apply IH; apply bytes_ok_app; split; [done|rewrite packInt_word; apply be_ok|done|done]].
    rewrite !len_app, packInt_word, len_be. lia.
  - eapply small_mono; [|apply IH; [apply bytes_ok_app; by split|done]]. rewrite len_app. lia.
Qed.

(** The inputs a method may have: at most 1024, of types with at most four
    levels of slices and arrays. *)
Definition inputs_small (m : Method) : Prop := Forall (fun a => genable 4 (ArgType a)) (Inputs m) /\ len (Inputs m) <= 1024.

Lemma Method_Fuzz_total Keccak256 (m : Method) (s : S) : inputs_small m ->
  4 <= len (Keccak256 (of_string (Sig m))) -> bytes_ok (Keccak256 (of_string (Sig m))) ->
  exists b s', Method_Fuzz Keccak256 m s = Ok (b, s') /\ bytes_ok b /\ len b < two63.
Proof.
  intros [Ha Hn] Hk Hkb. unfold Method_Fuzz, Arguments_Fuzz.
  destruct (args_small (Inputs m) (input_offset (Inputs m)) [] [] s Ha bytes_ok_nil bytes_ok_nil) as (b & s' & -> & Hb & Hl).
  cbn [rbind]. unfold Method_Id. change 4 with (Z.of_nat 4). rewrite slice_take by (unfold len in Hk; lia). cbn [rbind].
  eexists _, s'. split; [done|]. split; [apply bytes_ok_app; split; [by apply bytes_ok_take|done]|]. change (len (@nil Z)) with 0 in Hl. rewrite len_app, len_take. unfold two63. nia.
Qed.

End Total.

(** ** A concrete source *)

(** A generator that returns its state and counts. *)
#[export] Instance counter : Source Z := {|
  rand_Int n s := (Z.abs s mod Z.max 1 n, s + 1);
  fuzz_string s := (of_string "fuzz", s + 1);
  fuzz_slice s := ([Z.abs s mod 256], s + 1);
  fuzz_array20 s := (be 20 s, s + 1);
  fuzz_flag s := (Z.even s, s + 1);
  fuzz_uint64 s := (u64 s, s + 1);
  fuzz_int64 s := (i64 s, s + 1)
|}.

#[export] Instance counter_laws : SourceLaws Z.
Proof.
  split; simpl.
  - intros n s Hn. rewrite Z.max_r by lia. apply Z.mod_pos_bound. lia.
  - intros _. split; [apply of_string_ok|done].
  - intros s. split; [|done]. constructor; [|constructor]. unfold byte_ok. pose proof (Z.mod_pos_bound (Z.abs s) 256). lia.
  - intros s. split; [apply be_ok|done].
  - intros s. apply u64_range.
  - intros s. unfold i64. pose proof (Z.mod_pos_bound s two64 ltac:(done)). unfold two63, two64 in *. destruct (Z.ltb_spec (s mod 18446744073709551616) 9223372036854775808); lia.
Qed.



(** A value too large for its type. *)
Lemma narrow_overflow : exists s', type_fuzz (describe (AUint 8)) 1000 = Ok (be 32 1000, s').
Proof. eexists. vm_compute. reflexivity. Qed.

(** A fixed byte string or a function is left out of the call data, and an
    array has a random length: what the called contract reads is not what was
    generated, or lies past the end. *)
Theorem fuzz_malformed :
  (forall (S : Type) (src : Source S) n s, type_fuzz (describe (AFixed n)) s = Ok ([], s)) /\
  (forall (S : Type) (src : Source S) s, type_fuzz (describe AFunction) s = Ok ([], s)) /\
  (exists b s', Arguments_Fuzz [mkArgument "id" (describe (AFixed 32)) false; mkArgument "value" (describe (AUint 64)) false] 7 = Ok (b, s') /\
     len b = 32 /\ UnpackValues [mkArgument "id" (describe (AFixed 32)) false; mkArgument "value" (describe (AUint 64)) false] b = Ok (inl lengthInsufficient)) /\
  (exists b s', Arguments_Fuzz [mkArgument "pair" (describe (AArray 2 (AUint 64))) false] 5 = Ok (b, s') /\ len b = 32 * 5).
Proof.
  split; [done|]. split; [done|]. split.
  - do 2 eexists. split; [vm_compute; reflexivity|]. split; vm_compute; reflexivity.
  - do 2 eexists. split; [vm_compute; reflexivity|]. vm_compute. reflexivity.
Qed.

End AbiFuzz.
