(* ===== verification/Fuzzer.v ===== *)
(** * The fuzzer

    Translates [src/detectors/common.go], [contractutils.go] and
    [fuzzint.go]: input generation, deployment of the compiled contracts, the
    search for the storage locations behind constant getters, and the fuzzing
    campaign [FuzzContracts].  The tables of the compiled contracts are read by
    [JSON] of [AbiTypes.v] and the random call data is made by [Method_Fuzz] of
    [AbiFuzz.v].

    Parameters of the model, because their code is outside the repository:
    the struct copier behind [BackupStates] and [RestoreStates] and the table
    renderer behind [GenTable] ([Oracles]), the random sources ([Source]), the
    compiler's output, as Go's JSON reader delivers it, and whether the log
    file can be created, the terminal opened and the user presses q ([Host]).
    What is drawn on the terminal is left out.

    [ContractUtils.state] and [stateBackup] are structs that hold a reference
    to a map of accounts, so copying a struct may share the map: the model
    keeps a heap of account maps and struct values that refer to them. *)

From Stdlib Require Import String.
From stdpp Require Import base list numbers gmap option strings pretty.
From S2P Require Import Prelude BigInt Types Params StateDB Opcodes Analysis Machine.
From S2P Require Import Instructions Interp AbiTypes AbiFuzz.

#[local] Open Scope Z_scope.
#[local] Open Scope go_scope.

Module Fuzzer.
Import Big Common Params StateDB Vm Instr Interp AbiTypes AbiFuzz.

(** ** [common.go] *)

Definition keyPrefix : string := "Nyanpass. Overflow detected: ".
Definition add : string := (keyPrefix ++ "Add")%string.
Definition sub : string := (keyPrefix ++ "Sub")%string.
Definition mul : string := (keyPrefix ++ "Mul")%string.
Definition div : string := (keyPrefix ++ "Div")%string.

Fixpoint StringInSlice (a : string) (l : list string) : bool :=
  match l with
  | [] => false
  | b :: l' => if String.eqb b a then true else StringInSlice a l'
  end.

(** [big.Int.Exp] with a nil modulus. *)
Definition big_Exp (x y : Z) : Z := if y <=? 0 then 1 else x ^ y.

(** [for i := a; i < b; i++]. *)
Definition range (a b : Z) : list Z := (fun k => a + Z.of_nat k) <$> seq 0 (Z.to_nat (b - a)).

(** A slice of pointers to integers: the cells and the references to them. *)
Record ints := mkInts { cells : list Z; refs : list nat }.

(** [append(res, value.Exp(2, i, nil))]: overwrite the cell and append its reference. *)
Definition append_exp (s : ints) (i : Z) : ints :=
  mkInts (<[0%nat := big_Exp 2 i]> (cells s)) (refs s ++ [0%nat]).
(** [append(res, v)] for a newly allocated integer [v]. *)
Definition append_new (s : ints) (v : Z) : ints :=
  mkInts (cells s ++ [v]) (refs s ++ [length (cells s)]).

Definition GenerateIntBySize (size : Z) : ints :=
  let s := mkInts [0] [] in
  let s := fold_left append_exp (range 0 9) s in
  let s := fold_left append_exp (range (size - 8) (size + 1)) s in
  let intMax := big_Exp 2 size in
  let s := fold_left append_new (range 1 9) s in
  fold_left append_new ((fun i => intMax - i) <$> range 0 9) s.

(** The integers the slice holds. *)
Definition values (s : ints) : list Z := (fun r => default 0 (cells s !! r)) <$> refs s.

Definition testaddress (i : nat) : Address :=
  BytesToAddress (of_string ("testaddress" ++ pretty (N.of_nat i))%string).
Definition GenerateAddress : list Address := testaddress <$> seq 0 10.
Definition GenerateAddresses : list (list Address) :=
  (fun i => take i GenerateAddress) <$> seq 0 10.

(** [crypto.Keccak256([]byte(method.Sig()))[:4]]. *)
Definition Id (env : Env) (m : Method) : bytes := take 4 (Keccak256 (crypto env) (of_string (Sig m))).

(** An argument for [ABI.Pack]. *)
Inductive input :=
| InAddresses (l : list Address)
| InInt (x : Z)
| InAddress (a : Address).

(** The values tried for one argument; none for the other types.  ([NewType]
    sets [Elem] in every slice type.) *)
Definition arg_inputs (t : abi_Type) : option (list input) :=
  match T t with
  | SliceTy =>
      match T <$> Elem t with
      | Some AddressTy => Some (InAddresses <$> GenerateAddresses)
      | _ => None
      end
  | UintTy => Some (InInt <$> values (GenerateIntBySize (Size t)))
  | AddressTy => Some (InAddress <$> GenerateAddress)
  | _ => None
  end.

(** The argument lists [cartesian.Iter] is called with and their number; [None]
    when there is no such function. *)
Definition GenerateInputsByABI (a : ABI) (function : string) : option (list (list input) * Z) :=
  let m := method_named a function in
  if negb (String.eqb (Name m) function) then None
  else
    let d := omap (arg_inputs ∘ ArgType) (Inputs m) in
    Some (d, fold_left (fun total s => i64 (total * len s)) d 1).

(** ** [contractutils.go] *)

(** A [state.StateDB] struct: a reference to an account map, and the logs. *)
Record SDB := mkSDB { mapRef : nat; SLogs : list Log }.
Abbreviation Heap := (gmap nat (gmap Address State)) (only parsing).

(** [ContractUtils]: the heap of account maps, the structs [state] and
    [stateBackup], and the machine (whose [StateDB] is [state]). *)
Record World := mkWorld {
  heap : Heap;
  state : SDB;
  stateBackup : option SDB;
  evm : EVM
}.

(** The database [state] stands for. *)
Definition view (w : World) : StateDB :=
  mkStateDB (default ∅ (heap w !! mapRef (state w))) (SLogs (state w)).

(** Write the database through [state]'s reference. *)
Definition set_view (w : World) (d : StateDB) : World :=
  mkWorld (<[mapRef (state w) := StateMap d]> (heap w)) (mkSDB (mapRef (state w)) (Logs d))
    (stateBackup w) (evm w).

Definition with_evm (w : World) (e : EVM) : World :=
  mkWorld (heap w) (state w) (stateBackup w) e.

Definition on_view {A} (g : StateDB -> A * StateDB) (w : World) : A * World :=
  let '(a, d) := g (view w) in (a, set_view w d).

Definition contractcreator : string := "One key to rule them all".
Definition contractattacker : string := "Contract Attacker...maybe".
Definition ContractCreater : Address := StringToAddress contractcreator.
Definition ContractAttacker : Address := StringToAddress contractattacker.

(** The gas of every call. *)
Definition callGasLimit : Z := 100000000000.

(** The context of [DeployContracts]; [now] is [time.Now().Unix()]. *)
Definition fuzz_context (now : Z) : Context :=
  mkContext (fun n => BigToHash (i64 n)) zeroAddress 100 zeroAddress 0 4370001 now 100.
Definition fuzz_env (cr : Crypto) (now : Z) : Env :=
  mkEnv (fuzz_context now) MainnetChainConfig (mkConfig true false false) cr.

(** [BytesToHash(abi.U256(value))]. *)
Definition abi_U256 (n : Z) : bytes := PaddedBigBytes (U256 n) 32.

Record SimpleContract := mkSimpleContract { CName : string; CAddress : Address; CABI : ABI }.

Section WithMachine.
Context (env : Env) (fuel : nat).

(** [SimpleContract.Call] and [ContractUtils.SimpleCall]. *)
Definition SimpleCall (caller addr : Address) (calldata : bytes) (w : World) :
    result (bytes * option vmerror * World) :=
  let? (ret, _, err, e) :=
    Call env (loop env fuel) (AccountRef caller) addr calldata callGasLimit 0
      (with_db (evm w) (view w)) in
  Ok (ret, err, with_evm (set_view w (db e)) e).

Definition SetStorage (addr : Address) (loc : Hash) (v : Z) (w : World) : World :=
  set_view w (SetState (view w) addr loc (BytesToHash (abi_U256 v))).

Definition GetStorage (addr : Address) (loc : Hash) (w : World) : Hash * World :=
  on_view (fun d => GetState d addr loc) w.

(** *** Deployment *)

(** One compiled contract: its name, its hexadecimal code, and the fields of its
    ABI if that is a JSON text. *)
Record compiled := mkCompiled { cname : string; cbin : string; cabi : option (list field) }.

(** The contracts in the compiler's output; none when the compiler fails. *)
Definition CompileContract (output : option (list compiled)) : list compiled := default [] output.

Record Deployment := mkDeployment {
  dWorld : World;
  Contracts : list (string * SimpleContract);
  MainContract : option SimpleContract;
  methodsandeventscount : Z
}.

(** The accounts of the creator and of the attacker, in a new database. *)
Definition initial_state : StateDB :=
  let d := AddBalance New ContractCreater 100 in
  let d := AddBalance d ContractAttacker 100 in
  let d := SetNonce d ContractCreater 20 in
  SetNonce d ContractAttacker 20.

Definition initial_world : World :=
  mkWorld {[0%nat := StateMap initial_state]} (mkSDB 0 []) None (NewEVM New).

(** One iteration of the loop over [solcout.Contracts]. *)
Definition deploy_one (c : compiled) (dep : Deployment) : result Deployment :=
  let w := dWorld dep in
  let? (_, caddr, _, err, e) :=
    Create env (loop env fuel) (AccountRef ContractCreater) (Hex2Bytes (of_string (cbin c)))
      callGasLimit 0 (with_db (evm w) (view w)) in
  let w := with_evm (set_view w (AddBalance (db e) caddr 100)) e in
  let dropped := mkDeployment w (Contracts dep) (MainContract dep) (methodsandeventscount dep) in
  match err with
  | Some _ => Ok dropped
  | None =>
    let? abidecode := JSON (cabi c) in
    match abidecode with
    | None => Ok dropped
    | Some abi =>
      let sc := mkSimpleContract (cname c) caddr abi in
      let n := len (Methods abi) + len (Events abi) in
      let contracts := Contracts dep ++ [(cname c, sc)] in
      Ok (if methodsandeventscount dep <? n
          then mkDeployment w contracts (Some sc) n
          else mkDeployment w contracts (MainContract dep) (methodsandeventscount dep))
    end
  end.

Fixpoint deploy_all (l : list compiled) (dep : Deployment) : result Deployment :=
  match l with
  | [] => Ok dep
  | c :: l' => let? dep := deploy_one c dep in deploy_all l' dep
  end.

Definition DeployContracts (solcout : list compiled) : result Deployment :=
  deploy_all solcout (mkDeployment initial_world [] None 0).

(** *** Storage locations of the constants *)

Definition SetSkippedVars (names : list string) : list string :=
  if 0 <? len names then names else ["name"; "symbol"; "totalSupply"; "decimals"].

Definition constant_num (m : Method) : bool :=
  Const m && (len (Inputs m) =? 0) &&
  match Outputs m with
  | [o] => bool_decide (T (ArgType o) = UintTy) || bool_decide (T (ArgType o) = IntTy)
  | _ => false
  end.

Definition FilterOutConstantNumABI (a : ABI) : list (string * Method) :=
  List.filter (fun p => constant_num p.2) (Methods a).

Fixpoint first_sload (l : list callback_event) : Hash :=
  match l with
  | [] => zeroHash
  | CbSload loc _ :: _ => loc
  | CbSstore _ _ :: l' => first_sload l'
  end.

(** The location of the first SLOAD of the call, the zero hash if there is none. *)
Definition TouchSload (addr : Address) (m : Method) (w : World) :
    result (Hash * option vmerror * World) :=
  let seen := length (callbacks (evm w)) in
  let? (_, err, w) := SimpleCall ContractCreater addr (Id env m) w in
  Ok (first_sload (drop seen (callbacks (evm w))), err, w).

Fixpoint storage_locs (addr : Address) (skipped : list string) (l : list (string * Method))
    (w : World) : result (list (string * Hash) * World) :=
  match l with
  | [] => Ok ([], w)
  | (c, m) :: l' =>
      if StringInSlice c skipped then storage_locs addr skipped l' w
      else
        let? (loc, _, w) := TouchSload addr m w in
        let? (rest, w) := storage_locs addr skipped l' w in
        Ok ((c, loc) :: rest, w)
  end.

Definition GetStorageLoc (c : SimpleContract) (skipped : list string) (w : World) :
    result (list (string * Hash) * World) :=
  storage_locs (CAddress c) skipped (FilterOutConstantNumABI (CABI c)) w.

(** ** [fuzzint.go] *)

(** The number for the draws [chooseRange] from [0, 4) and [n] from [0, maxrange). *)
Definition maxrange : Z := 16.
Definition special_dist (chooseRange n : Z) : Z :=
  if chooseRange =? 0 then n
  else if chooseRange =? 1 then (2 ^ 255 - maxrange) + n
  else if chooseRange =? 2 then 2 ^ 255 + n
  else if chooseRange =? 3 then (2 ^ 256 - maxrange) + n
  else n.

Definition overflowTopic : bytes :=
  Hex2Bytes (of_string "FEE46111846A282E8199035721DD0334C2BC5C016AE4E72B924003431D6A8759").

Fixpoint CheckEvent (logs : list Log) : bool :=
  match logs with
  | [] => false
  | l :: logs' =>
      match Topics l with
      | t :: _ => if bool_decide (overflowTopic = t) then true else CheckEvent logs'
      | [] => false
      end
  end.

(** The loop of [CheckOverflowStorage] over the marker names. *)
Fixpoint check_ops (addr : Address) (ops : list string) (w : World) : bool * World :=
  match ops with
  | [] => (false, w)
  | op :: ops' =>
      let '(res, w) := GetStorage addr (StringToHash op) w in
      if bool_decide (res <> zeroHash) then (true, w) else check_ops addr ops' w
  end.

Definition CheckOverflowStorage (addr : Address) (w : World) : bool * World :=
  check_ops addr [add; sub; mul; div] w.

(** [bufio.NewWriter(f)]: a buffer of 4096 bytes in front of the file.  Writes
    to the file do not fail. *)
Record Writer := mkWriter { w_buf : bytes; w_file : bytes }.
Definition bufSize : Z := 4096.

Definition Flush (w : Writer) : Writer := mkWriter [] (w_file w ++ w_buf w).

(** [Write] fills the buffer and flushes it while the data does not fit; data
    that meets an empty buffer it does not fit in goes straight to the file. *)
Definition Write_empty (w : Writer) (p : bytes) : Writer :=
  if bufSize <? len p then mkWriter [] (w_file w ++ p) else mkWriter p (w_file w).
Definition Writer_Write (w : Writer) (p : bytes) : Writer :=
  let available := bufSize - len (w_buf w) in
  if available <? len p then
    if len (w_buf w) =? 0 then Write_empty w p
    else
      let n := Z.to_nat available in
      Write_empty (Flush (mkWriter (w_buf w ++ take n p) (w_file w))) (drop n p)
  else mkWriter (w_buf w ++ p) (w_file w).

(** The copier, and the table renderer: the writes it makes for the given rows. *)
Record Oracles := mkOracles {
  Copy : Heap -> SDB -> SDB -> Heap * SDB;
  Render : list (list bytes) -> list bytes
}.

(** Whether [os.Create] succeeds, [ui.Init] succeeds, and the user ends
    [ui.Loop] by pressing q. *)
Record Host := mkHost { os_Create : bool; ui_Init : bool; ui_quit : bool }.

Definition StorageMutateNum : nat := 100.
Definition MaxRuns : nat := 100.

Section WithOracles.
Context (o : Oracles) {R : Type} `{!Source R}.

(** The world, the log, the random sources, and the reports: the method's
    number, the call data, and the world the run started in. *)
Record Campaign := mkCampaign {
  cWorld : World;
  cWriter : Writer;
  cRand : R;
  cReports : list (nat * bytes * World)
}.

Definition GenRandomInSpecialDist (s : R) : Z * R :=
  let '(chooseRange, s) := rand_Int 4 s in
  let '(n, s) := rand_Int maxrange s in
  (special_dist chooseRange n, s).

(** [cu.stateBackup = state.New(); copier.Copy(cu.stateBackup, cu.state)]. *)
Definition BackupStates (w : World) : World :=
  let r := fresh (dom (heap w)) in
  let '(h, b) := Copy o (<[r := ∅]> (heap w)) (mkSDB r []) (state w) in
  mkWorld h (state w) (Some b) (evm w).

(** [copier.Copy(cu.state, cu.stateBackup)]; it always follows a backup. *)
Definition RestoreStates (w : World) : World :=
  match stateBackup w with
  | None => w
  | Some b => let '(h, s) := Copy o (heap w) (state w) b in mkWorld h s (stateBackup w) (evm w)
  end.

Section WithTarget.
Context (target : SimpleContract) (constantsLoc : list (string * Hash)).

Fixpoint fuzz_storage (locs : list (string * Hash)) (w : World) (s : R) : World * R :=
  match locs with
  | [] => (w, s)
  | (_, loc) :: locs' =>
      let '(n, s) := GenRandomInSpecialDist s in
      fuzz_storage locs' (SetStorage (CAddress target) loc n w) s
  end.

Definition FuzzStorage (w : World) (s : R) : World * R := fuzz_storage constantsLoc w s.

(** The rows of [getConstantsTable] and [GenTable]: names and values. *)
Fixpoint storage_rows (locs : list (string * Hash)) (w : World) : list (bytes * bytes) * World :=
  match locs with
  | [] => ([], w)
  | (name, loc) :: locs' =>
      let '(h, w) := GetStorage (CAddress target) loc w in
      let '(rows, w) := storage_rows locs' w in
      ((of_string name, 48 :: 120 :: Bytes2Hex h) :: rows, w)
  end.

Definition getConstantsTable (w : World) : list (bytes * bytes) * World :=
  storage_rows constantsLoc w.

Definition GenTable (methodname calldata : bytes) (w : World) (wr : Writer) : World * Writer :=
  let '(rows, w) := storage_rows constantsLoc w in
  let table :=
    ((fun r => [of_string "Storage"; r.1; r.2]) <$> rows) ++
    [[of_string "Method"; methodname; calldata]] in
  (w, fold_left Writer_Write (Render o table) wr).

(** One run: back up, call, look for markers, restore.  The result says
    whether the run is reported. *)
Definition fuzz_run (calldata : bytes) (w : World) : result (bool * World) :=
  let w := BackupStates w in
  let? (_, err, w) := SimpleCall ContractCreater (CAddress target) calldata w in
  let '(overflowStateExist, w) := CheckOverflowStorage (CAddress target) w in
  let w := RestoreStates w in
  Ok (bool_decide (err = None) && overflowStateExist, w).

(** The loop over [j] for method number [m]: [n] runs are left, [cnt] is
    [attackVectorCnt]; the result says whether [break methodFuzz] was executed. *)
Fixpoint run_loop (m : nat) (method : Method) (n : nat) (cnt : Z) (c : Campaign) :
    result (bool * Z * Campaign) :=
  match n with
  | O => Ok (false, cnt, c)
  | S n =>
      let? (calldata, s) := Method_Fuzz (Keccak256 (crypto env)) method (cRand c) in
      let? (reported, w) := fuzz_run calldata (cWorld c) in
      let '(cnt, c) :=
        if reported : bool then
          let '(w, wr) := GenTable (of_string (Sig method)) (ToHex calldata) w (cWriter c) in
          (cnt + 1, mkCampaign w wr s (cReports c ++ [(m, calldata, cWorld c)]))
        else (cnt, mkCampaign w (cWriter c) s (cReports c)) in
      if 5 <? cnt then Ok (true, cnt, mkCampaign (cWorld c) (Flush (cWriter c)) (cRand c) (cReports c))
      else run_loop m method n cnt c
  end.

(** The loop over [i], of which [n] iterations are left. *)
Fixpoint mutate_loop (m : nat) (method : Method) (n : nat) (cnt : Z) (c : Campaign) : result Campaign :=
  match n with
  | O => Ok c
  | S n =>
      let '(w, s) := FuzzStorage (cWorld c) (cRand c) in
      let '(_, w) := getConstantsTable w in
      let? (stop, cnt, c) := run_loop m method MaxRuns cnt (mkCampaign w (cWriter c) s (cReports c)) in
      if stop : bool then Ok c else mutate_loop m method n cnt c
  end.

(** The loop over the methods. *)
Fixpoint method_loop (methods : list (string * Method)) (m : nat) (c : Campaign) : result Campaign :=
  match methods with
  | [] => Ok c
  | (_, method) :: methods' =>
      if Const method then method_loop methods' (S m) c
      else
        let? c := mutate_loop m method StorageMutateNum 0 c in
        method_loop methods' (S m) c
  end.

(** The log file is created empty and closed at the end, without a flush.  With
    a user interface the campaign is over when the user presses q; [NoFuel] if
    that never happens. *)
Definition FuzzContracts (host : Host) (enableUI : bool) (w : World) (s : R) : result Campaign :=
  if negb (os_Create host) then Panic
  else if enableUI && negb (ui_Init host) then Panic
  else
    let '(_, w) := getConstantsTable w in
    let? c := method_loop (Methods (CABI target)) 0 (mkCampaign w (mkWriter [] []) s []) in
    if enableUI && negb (ui_quit host) then NoFuel else Ok c.

End WithTarget.

(** The zero value of [SimpleContract]. *)
Definition zeroContract : SimpleContract := mkSimpleContract "" zeroAddress (mkABI zeroMethod [] []).

(** The main contract, the locations of its constants, and the world. *)
Definition NewContractFuzzer (output : option (list compiled)) :
    result (SimpleContract * list (string * Hash) * World) :=
  let? dep := DeployContracts (CompileContract output) in
  let target := default zeroContract (MainContract dep) in
  let? (locs, w) := GetStorageLoc target (SetSkippedVars []) (dWorld dep) in
  Ok (target, locs, w).

(** One task of the dispatcher. *)
Definition fuzz_file (host : Host) (enableUI : bool) (output : option (list compiled)) (s : R) :
    result Campaign :=
  let? (target, locs, w) := NewContractFuzzer output in
  FuzzContracts target locs host enableUI w s.

End WithOracles.
End WithMachine.

Arguments Campaign : clear implicits.

(** Two copiers.  [assign_fields] assigns every field of the destination, as
    Go's struct assignment does: the map is then shared.  [deep_copy] copies
    the contents of the map the destination refers to. *)
Definition assign_fields (h : Heap) (to from : SDB) : Heap * SDB := (h, from).
Definition deep_copy (h : Heap) (to from : SDB) : Heap * SDB :=
  (<[mapRef to := default ∅ (h !! mapRef from)]> h, mkSDB (mapRef to) (SLogs from)).

End Fuzzer.
