(* ===== verification/FuzzerSpec.v ===== *)
(** * Theorems about the fuzzer

    The outcome of the whole pipeline (deployment, search for the storage
    locations, campaign), what its reports mean whatever the copier does, and
    what happens with a copier that assigns struct fields and with one that
    copies the accounts. *)

From Stdlib Require Import String Ascii.
From stdpp Require Import base list numbers gmap option strings.
From S2P Require Import Prelude BigInt Types Params StateDB Opcodes Analysis Machine.
From S2P Require Import Instructions Precompiles Interp Spec ExecSpec PrecompileSpec.
From S2P Require Import Safety Fuel Effects Static Taint AbiTypes AbiFuzz Fuzzer.

#[local] Open Scope Z_scope.
#[local] Open Scope go_scope.

Module FuzzerSpec.
Import Common StateDB Vm Instr Interp Spec ExecSpec Safety Concrete AbiTypes AbiFuzz Fuzzer.

(** ** Input generation *)

(** References to existing cells keep their values when cells are added. *)
Definition refs_ok (s : ints) : Prop := Forall (fun r => (r < length (cells s))%nat) (refs s).

Lemma append_new_values l s :
  refs_ok s ->
  values (fold_left append_new l s) = values s ++ l /\ refs_ok (fold_left append_new l s).
Proof.
  revert s. induction l as [|v l IH]; intros s Hs; simpl; [by rewrite app_nil_r|].
  assert (Hs' : refs_ok (append_new s v)).
  { unfold refs_ok, append_new in *. simpl. rewrite length_app. apply Forall_app. split.
    - eapply Forall_impl; [done|]. simpl. lia.
    - constructor; [simpl; lia|constructor]. }
  destruct (IH _ Hs') as [-> ?]. split; [|done]. rewrite cons_middle, app_assoc. f_equal.
  unfold values, append_new. simpl. rewrite fmap_app. simpl. rewrite lookup_app_r, Nat.sub_diag by lia.
  f_equal. apply map_ext_in_iff. intros r Hr. f_equal. apply lookup_app_l.
  eapply Forall_forall in Hs; [exact Hs|]. by apply list_elem_of_In.
Qed.

(** The powers all go through one cell. *)
Lemma append_exp_shared l s x :
  cells s = [x] -> l <> [] ->
  fold_left append_exp l s = mkInts [big_Exp 2 (List.last l 0)] (refs s ++ replicate (length l) 0%nat).
Proof.
  revert s x. induction l as [|i l IH]; intros s x Hs Hl; [done|]. simpl.
  destruct l as [|j l].
  - simpl. unfold append_exp. by rewrite Hs.
  - rewrite (IH _ (big_Exp 2 i)); [|unfold append_exp; by rewrite Hs|done]. f_equal.
    unfold append_exp. simpl. by rewrite <- app_assoc.
Qed.

Lemma length_range a b : length (range a b) = Z.to_nat (b - a).
Proof. unfold range. by rewrite length_fmap, length_seq. Qed.

Lemma last_range a b : a < b -> List.last (range a b) 0 = b - 1.
Proof.
  intros H. unfold range. replace (Z.to_nat (b - a)) with (S (Z.to_nat (b - a - 1))) by lia.
  rewrite seq_S, fmap_app. simpl. rewrite last_last. lia.
Qed.

(** [GenerateIntBySize] does not generate what its comments say: the
    eighteen powers of two are one shared integer, so the list holds 2^size
    eighteen times instead of 2^0..2^8 and 2^(size-8)..2^size; only 1..8 and
    2^size-8..2^size are generated as intended. *)
Theorem generated_ints size :
  values (GenerateIntBySize size) =
  replicate 18 (big_Exp 2 size) ++ [1; 2; 3; 4; 5; 6; 7; 8] ++
  ((fun i => big_Exp 2 size - i) <$> [0; 1; 2; 3; 4; 5; 6; 7; 8]).
Proof.
  unfold GenerateIntBySize. rewrite (append_exp_shared (range 0 9) _ 0) by done.
  rewrite (append_exp_shared (range (size - 8) (size + 1)) _ (big_Exp 2 8)).
  2: done. 2: { intros E%(f_equal length). rewrite length_range in E. simpl in E. lia. }
  rewrite last_range, !length_range by lia. simpl (refs _).
  replace (size + 1 - (size - 8)) with 9 by lia. replace (size + 1 - 1) with size by lia.
  set (s := mkInts _ _). assert (Hs : refs_ok s) by (repeat constructor; simpl; lia).
  destruct (append_new_values (range 1 9) s Hs) as [H1 H2].
  destruct (append_new_values ((fun i => big_Exp 2 size - i) <$> range 0 9) _ H2) as [-> _].
  rewrite H1. by rewrite <- app_assoc.
Qed.

(** the random values written to the constants are 256-bit words within 16
    of 0, of 2^255 or of 2^256 (the comment announces wider regions, 2^10
    values at the ends and 200 in the middle). *)
Theorem random_regions c n :
  0 <= c < 4 -> 0 <= n < 16 ->
  let r := special_dist c n in
  is_word r /\ (0 <= r < 16 \/ 2 ^ 255 - 16 <= r < 2 ^ 255 + 16 \/ 2 ^ 256 - 16 <= r).
Proof.
  intros Hc Hn. unfold special_dist, maxrange, is_word, two256.
  assert (2 ^ 256 = 2 * 2 ^ 255) by done. assert (1024 < 2 ^ 255) by done.
  assert (c = 0 \/ c = 1 \/ c = 2 \/ c = 3) as [-> | [-> | [-> | ->]]] by lia; simpl (_ =? _); cbn iota; lia.
Qed.

Lemma random_regions_witness :
  special_dist 3 15 = 2 ^ 256 - 1 /\ is_word (special_dist 3 15).
Proof. split; [done|]. apply (random_regions 3 15); lia. Defined.

(** [CheckEvent] finds the overflow event exactly when it is emitted before
    any event without topics: an anonymous event hides all later ones. *)
Theorem CheckEvent_exact logs :
  CheckEvent logs = true <->
  exists before l rest ts, logs = before ++ l :: rest /\
    Topics l = overflowTopic :: ts /\ Forall (fun l => Topics l <> []) before.
Proof.
  split.
  - induction logs as [|l logs IH]; [done|]. simpl. destruct (Topics l) as [|t ts] eqn:E; [done|].
    case_bool_decide as Ht.
    + intros _. exists [], l, logs, ts. subst. done.
    + intros (b & l' & r & ts' & -> & H1 & H2)%IH. exists (l :: b), l', r, ts'.
      split; [done|]. split; [done|]. constructor; [congruence|done].
  - intros (b & l & r & ts & -> & H1 & H2). induction H2 as [|x b Hx _ IH]; simpl.
    + rewrite H1. by rewrite bool_decide_true.
    + destruct (Topics x); [done|]. by case_bool_decide.
Qed.

(** ** Well-formed worlds *)

Definition heap_ok (h : gmap nat (gmap Address State)) : Prop :=
  forall r, db_ok (mkStateDB (default ∅ (h !! r)) []).

Record world_ok (w : World) : Prop := mk_world_ok {
  wo_heap : heap_ok (heap w);
  wo_ref : is_Some (heap w !! mapRef (state w));
  wo_backup : forall b, stateBackup w = Some b -> is_Some (heap w !! mapRef b);
  wo_return : slice_ok (returnData (evm w));
  wo_temp : is_u64 (callGasTemp (evm w));
  wo_depth : depth (evm w) = 0
}.

(** What is asked of the copier: the maps it leaves behind are well formed,
    references stay valid, and the destination's is valid. *)
Definition copier_ok (o : Oracles) : Prop :=
  forall h to from, heap_ok h -> is_Some (h !! mapRef to) -> is_Some (h !! mapRef from) ->
  let '(h', to') := Copy o h to from in
  heap_ok h' /\ is_Some (h' !! mapRef to') /\ (forall r, is_Some (h !! r) -> is_Some (h' !! r)).

Lemma view_set_view w d : view (set_view w d) = d.
Proof. unfold view, set_view. simpl. rewrite lookup_insert_eq. by destruct d. Qed.

Lemma view_with_evm w e : view (with_evm w e) = view w.
Proof. done. Qed.

Lemma db_ok_Logs d l : db_ok d -> db_ok (mkStateDB (StateMap d) l).
Proof. intros H a. apply (H a). Qed.

Lemma view_ok w : heap_ok (heap w) -> db_ok (view w).
Proof. intros H. apply (db_ok_Logs _ (SLogs (state w)) (H _)). Qed.

Lemma heap_ok_insert h r d : heap_ok h -> db_ok d -> heap_ok (<[r := StateMap d]> h).
Proof.
  intros Hh Hd r'. destruct (decide (r = r')) as [->|].
  - rewrite lookup_insert_eq. by apply db_ok_Logs.
  - rewrite lookup_insert_ne by done. apply Hh.
Qed.

Lemma is_Some_insert {A} (h : gmap nat A) r x r' : is_Some (h !! r') -> is_Some (<[r := x]> h !! r').
Proof. rewrite lookup_insert_is_Some. destruct (decide (r = r')); auto. Qed.

Lemma set_view_ok w d : world_ok w -> db_ok d -> world_ok (set_view w d).
Proof.
  intros [H1 H2 H3 H4 H5 H6] Hd. split; simpl; try done.
  - by apply heap_ok_insert.
  - rewrite lookup_insert_eq. by eexists.
  - intros b Hb. apply is_Some_insert. by apply H3.
Qed.

Lemma GetStorage_ok addr loc w : world_ok w -> world_ok (GetStorage addr loc w).2.
Proof.
  intros H. unfold GetStorage, on_view. destruct (GetState (view w) addr loc) as [v d] eqn:E. simpl.
  apply set_view_ok; [done|]. change d with (v, d).2. rewrite <- E.
  apply GetState_ok, view_ok, H.
Qed.

Lemma abi_U256_ok v : bytes_ok (abi_U256 v).
Proof. apply PaddedBigBytes_ok. Qed.

Lemma SetStorage_ok addr loc v w : world_ok w -> world_ok (SetStorage addr loc v w).
Proof.
  intros H. apply set_view_ok; [done|]. apply SetState_ok; [apply view_ok, H|].
  apply set_bytes_ok, abi_U256_ok.
Qed.

(** ** Totality *)

Lemma fuzz_env_ok cr now : crypto_ok cr -> env_ok (fuzz_env cr now).
Proof.
  intros H. assert (address_ok zeroAddress) by (split; [done|]; apply Forall_replicate; by unfold byte_ok).
  split; simpl; try done. intros. apply BigToHash_ok.
Qed.

Section Total.
Context (cr : Crypto) (now : Z) (fuel : nat).
Hypothesis Hcr : crypto_ok cr.
Hypothesis Hfuel : callGasLimit < Z.of_nat fuel.
Let env := fuzz_env cr now.

Lemma world_evm_ok w : world_ok w -> evm_ok (with_db (evm w) (view w)).
Proof. intros []. split; simpl; try done. by apply view_ok. Qed.

Lemma SimpleCall_fuzz_call w addr calldata :
  world_ok w -> address_ok addr -> slice_ok calldata ->
  fuzz_call env ContractCreater addr calldata callGasLimit 0 (with_db (evm w) (view w)).
Proof.
  intros Hw Ha Hc. split; try done.
  - by apply fuzz_env_ok.
  - apply StringToAddress_ok.
  - by apply world_evm_ok.
  - simpl. by rewrite (wo_depth _ Hw).
Qed.

Lemma SimpleCall_ok w addr calldata :
  world_ok w -> address_ok addr -> slice_ok calldata ->
  exists ret err w', SimpleCall env fuel ContractCreater addr calldata w = Ok (ret, err, w') /\ world_ok w'
    /\ stateBackup w' = stateBackup w /\ mapRef (state w') = mapRef (state w)
    /\ forall r, r <> mapRef (state w) -> heap w' !! r = heap w !! r.
Proof.
  intros Hw Ha Hc.
  destruct (post_total _ _ (machine_Call_ok env False (fuzz_env_ok _ _ Hcr) (or_intror eq_refl) fuel
    (AccountRef ContractCreater) addr calldata callGasLimit 0 (with_db (evm w) (view w))
    (StringToAddress_ok _) Ha Hc ltac:(done) ltac:(done) (world_evm_ok w Hw)
    ltac:(simpl; by rewrite (wo_depth _ Hw)) Hfuel ltac:(intros _; split; right; [done|by eexists])))
    as ([[[ret g] err] e'] & HE & (R1 & R2 & R3 & R4)).
  unfold SimpleCall. cbn [evm_Call machine call_ops] in HE. rewrite HE. cbn [rbind].
  eexists _, _, _. split; [done|]. destruct R3 as [D1 D2 D3], R4 as (K1 & _). split; [|split; [done|split; [done|]]].
  - destruct (set_view_ok w (db e') Hw D1) as [S1 S2 S3 S4 S5 S6]. split; try done.
    simpl in *. rewrite K1. apply Hw.
  - intros r Hr. simpl. by rewrite lookup_insert_ne.
Qed.

(** Reading the markers and the constants. *)
Lemma check_ops_ok addr ops w : world_ok w -> world_ok (check_ops addr ops w).2.
Proof.
  revert w. induction ops as [|op ops IH]; intros w Hw; cbn [check_ops]; [done|].
  pose proof (GetStorage_ok addr (StringToHash op) w Hw) as H.
  destruct (GetStorage addr (StringToHash op) w) as [v w']. simpl in H.
  case_bool_decide; [done|by apply IH].
Qed.

Lemma storage_rows_ok target locs w : world_ok w -> world_ok (storage_rows target locs w).2.
Proof.
  revert w. induction locs as [|[name loc] locs IH]; intros w Hw; cbn [storage_rows]; [done|].
  pose proof (GetStorage_ok (CAddress target) loc w Hw) as H.
  destruct (GetStorage (CAddress target) loc w) as [v w']. simpl in H.
  specialize (IH w' H). by destruct (storage_rows target locs w').
Qed.

Context (o : Oracles) {R : Type} `{!Source R, !SourceLaws R}.
Hypothesis Ho : copier_ok o.

Lemma fuzz_storage_ok target locs w (s : R) : world_ok w -> world_ok (fuzz_storage target locs w s).1.
Proof.
  revert w s. induction locs as [|[name loc] locs IH]; intros w s Hw; cbn [fuzz_storage]; [done|].
  destruct (GenRandomInSpecialDist s). by apply IH, SetStorage_ok.
Qed.

Lemma BackupStates_ok w :
  world_ok w -> world_ok (BackupStates o w) /\ is_Some (stateBackup (BackupStates o w)).
Proof.
  intros [H1 H2 H3 H4 H5 H6]. unfold BackupStates. set (r := fresh _).
  pose proof Ho as Hc. specialize (Hc (<[r := ∅]> (heap w)) (mkSDB r []) (state w)).
  destruct (Copy o _ _ _) as [h b]. destruct Hc as (C1 & C2 & C3).
  - change ∅ with (StateMap New). apply heap_ok_insert; [done|apply New_ok].
  - simpl. rewrite lookup_insert_eq. by eexists.
  - by apply is_Some_insert.
  - split; [|by eexists]. split; simpl; try done.
    + by apply C3, is_Some_insert.
    + by intros b' [= <-].
Qed.

Lemma RestoreStates_ok w : world_ok w -> world_ok (RestoreStates o w).
Proof.
  intros Hw. unfold RestoreStates. destruct (stateBackup w) as [b|] eqn:E; [|done].
  destruct Hw as [H1 H2 H3 H4 H5 H6]. pose proof Ho as Hc.
  specialize (Hc (heap w) (state w) b H1 H2 (H3 b E)).
  destruct (Copy o _ _ _) as [h s]. destruct Hc as (C1 & C2 & C3).
  split; simpl; try done. intros b' [= <-]. by apply C3, H3.
Qed.

Context (target : SimpleContract) (locs : list (string * Hash)).
Hypothesis Haddr : address_ok (CAddress target).

Lemma fuzz_run_ok calldata w :
  world_ok w -> slice_ok calldata ->
  exists b w', fuzz_run env fuel o target calldata w = Ok (b, w') /\ world_ok w'.
Proof.
  intros Hw Hc. unfold fuzz_run. destruct (BackupStates_ok w Hw) as [Hb _].
  destruct (SimpleCall_ok _ (CAddress target) calldata Hb Haddr Hc) as (ret & err & w1 & -> & H1 & _).
  cbn [rbind]. pose proof (check_ops_ok (CAddress target) [add; sub; mul; div] w1 H1) as H2.
  unfold CheckOverflowStorage. destruct (check_ops _ _ w1) as [b w2].
  eexists _, _. split; [done|]. by apply RestoreStates_ok.
Qed.

Lemma GenTable_ok sig cd w wr : world_ok w -> world_ok (GenTable o target locs sig cd w wr).1.
Proof.
  intros Hw. unfold GenTable. pose proof (storage_rows_ok target locs w Hw) as H.
  by destruct (storage_rows target locs w).
Qed.

(** The call data of a method. *)
Lemma calldata_ok m (s : R) : inputs_small m ->
  exists cd s', Method_Fuzz (Keccak256 (crypto env)) m s = Ok (cd, s') /\ slice_ok cd.
Proof.
  intros Hm. destruct (ck_keccak _ Hcr (of_string (Sig m))) as [H1 H2].
  destruct (Method_Fuzz_total (Keccak256 (crypto env)) m s Hm) as (cd & s' & E & Hb & Hl); [change (crypto env) with cr; rewrite H2; lia|exact H1|].
  by exists cd, s'.
Qed.

(** The reports of method number [m]. *)
Definition reports_of (m : nat) (c : Campaign R) : list (nat * bytes * World) :=
  List.filter (fun r => Nat.eqb r.1.1 m) (cReports c).

(** From [c] to [c'] at most [n] reports were made, all by method [m]. *)
Definition extends (m : nat) (n : Z) (c c' : Campaign R) : Prop :=
  world_ok (cWorld c') /\
  exists l, cReports c' = cReports c ++ l /\ Forall (fun r => r.1.1 = m) l /\ len l <= n.

Lemma extends_refl m n c : world_ok (cWorld c) -> 0 <= n -> extends m n c c.
Proof. intros H Hn. split; [done|]. exists []. rewrite app_nil_r. split; [done|]. by split; [constructor|]. Qed.

Lemma run_loop_ok m meth n cnt c :
  inputs_small meth -> world_ok (cWorld c) -> cnt <= 5 ->
  exists stop cnt' c', run_loop env fuel o target locs m meth n cnt c = Ok (stop, cnt', c') /\
    cnt' <= 6 /\ (stop = false -> cnt' <= 5) /\ extends m (cnt' - cnt) c c'.
Proof.
  intros Hm. revert cnt c. induction n as [|n IH]; intros cnt c Hw Hcnt; cbn [run_loop].
  { eexists _, _, _. split; [done|]. split; [lia|]. split; [done|]. apply extends_refl; [done|lia]. }
  destruct (calldata_ok meth (cRand c) Hm) as (cd & s & -> & Hcd). cbn [rbind].
  destruct (fuzz_run_ok cd (cWorld c) Hw Hcd) as (b & w & -> & Hw').
  cbn [rbind]. destruct b.
  - pose proof (GenTable_ok (of_string (Sig meth)) (ToHex cd) w (cWriter c) Hw') as Hg.
    destruct (GenTable _ _ _ _ _ _ _) as [w2 wr]. simpl in Hg.
    destruct (Z.ltb_spec 5 (cnt + 1)).
    + eexists _, _, _. split; [done|]. split; [lia|]. split; [done|]. split; [done|].
      simpl. eexists. split; [done|]. split; [by constructor|]. rewrite len_single. lia.
    + destruct (IH (cnt + 1) (mkCampaign w2 wr s (cReports c ++ [(m, cd, cWorld c)])) Hg ltac:(lia))
        as (stop & cnt' & c' & -> & H1 & H2 & H3 & l & H4 & H5 & H6).
      eexists _, _, _. split; [done|]. split; [done|]. split; [done|]. split; [done|].
      exists ((m, cd, cWorld c) :: l). rewrite H4. simpl. rewrite <- app_assoc, len_cons.
      split; [done|]. split; [by constructor|lia].
  - destruct (Z.ltb_spec 5 cnt); [lia|].
    destruct (IH cnt (mkCampaign w (cWriter c) s (cReports c)) Hw' Hcnt)
      as (stop & cnt' & c' & -> & H1 & H2 & H3 & l & H4 & H5 & H6).
    eexists _, _, _. split; [done|]. split; [done|]. split; [done|]. split; [done|]. by exists l.
Qed.

Lemma extends_trans m n1 n2 c1 c2 c3 :
  extends m n1 c1 c2 -> extends m n2 c2 c3 -> extends m (n1 + n2) c1 c3.
Proof.
  intros (H1 & l1 & H2 & H3 & H4) (H5 & l2 & H6 & H7 & H8). split; [done|].
  exists (l1 ++ l2). rewrite H6, H2, len_app, <- app_assoc. split; [done|]. split; [|lia].
  by apply Forall_app.
Qed.

Lemma mutate_loop_ok m meth n cnt c :
  inputs_small meth -> world_ok (cWorld c) -> cnt <= 5 ->
  exists c', mutate_loop env fuel o target locs m meth n cnt c = Ok c' /\ extends m (6 - cnt) c c'.
Proof.
  intros Hm. revert cnt c. induction n as [|n IH]; intros cnt c Hw Hcnt; cbn [mutate_loop].
  { eexists. split; [done|]. apply extends_refl; [done|lia]. }
  pose proof (fuzz_storage_ok target locs _ (cRand c) Hw) as H1. unfold FuzzStorage, getConstantsTable.
  destruct (fuzz_storage target locs (cWorld c) (cRand c)) as [w1 s1]. cbn [fst] in H1.
  pose proof (storage_rows_ok target locs w1 H1) as H2.
  destruct (storage_rows target locs w1) as [rows w2]. simpl in H2.
  destruct (run_loop_ok m meth MaxRuns cnt (mkCampaign w2 (cWriter c) s1 (cReports c)) Hm H2 Hcnt)
    as (stop & cnt' & c1 & -> & H3 & H4 & H5). cbn [rbind].
  assert (H6 : extends m (cnt' - cnt) c c1) by exact H5.
  destruct stop.
  - eexists. split; [done|]. destruct H6 as (? & l & ? & ? & ?). split; [done|]. exists l.
    repeat split; (done || lia).
  - destruct (IH cnt' c1 ltac:(apply H5) (H4 eq_refl)) as (c' & -> & H7).
    eexists. split; [done|]. replace (6 - cnt) with ((cnt' - cnt) + (6 - cnt')) by lia.
    by eapply extends_trans.
Qed.

(** Every report names a method before number [m], and none has more than six. *)
Definition reports_bounded (m : nat) (c : Campaign R) : Prop :=
  Forall (fun r => (r.1.1 < m)%nat) (cReports c) /\ forall k, len (reports_of k c) <= 6.

Lemma filter_none {A} (P : A -> bool) l : Forall (fun x => P x = false) l -> List.filter P l = [].
Proof. induction 1 as [|x l Hx _ IH]; simpl; [done|]. by rewrite Hx. Qed.

Lemma extends_bounded m c c' : extends m 6 c c' -> reports_bounded m c -> reports_bounded (S m) c'.
Proof.
  intros (_ & l & H2 & H3 & H4) [H5 H6]. split.
  - rewrite H2. apply Forall_app. split; [eapply Forall_impl; [exact H5|]; simpl; lia|].
    eapply Forall_impl; [exact H3|]. simpl. intros. lia.
  - intros k. specialize (H6 k). unfold reports_of in *. rewrite H2, List.filter_app, len_app.
    destruct (Nat.eqb_spec k m) as [->|Hk].
    + rewrite (filter_none _ (cReports c)), len_nil.
      * pose proof (List.filter_length_le (fun r : nat * bytes * World => Nat.eqb r.1.1 m) l). unfold len in *. lia.
      * eapply Forall_impl; [exact H5|]. simpl. intros x Hx. apply Nat.eqb_neq. lia.
    + rewrite (filter_none _ l), len_nil; [lia|].
      eapply Forall_impl; [exact H3|]. simpl. intros x Hx. apply Nat.eqb_neq. lia.
Qed.

Lemma method_loop_ok methods m c :
  Forall (fun p => inputs_small p.2) methods -> world_ok (cWorld c) -> reports_bounded m c ->
  exists c', method_loop env fuel o target locs methods m c = Ok c' /\
    world_ok (cWorld c') /\ forall k, len (reports_of k c') <= 6.
Proof.
  intros Hm. revert m c. induction Hm as [|[name meth] methods Hmeth _ IH]; intros m c Hw Hr; cbn [method_loop].
  - eexists. split; [done|]. by split; [|apply Hr].
  - destruct (Const meth).
    + apply IH; [done|]. destruct Hr as [H1 H2]. split; [|done].
      eapply Forall_impl; [exact H1|]. simpl. lia.
    + destruct (mutate_loop_ok m meth StorageMutateNum 0 c Hmeth Hw ltac:(lia))
        as (c1 & -> & H1). cbn [rbind]. apply IH; [apply H1|].
      by eapply extends_bounded.
Qed.

(** What becomes of a campaign: it panics if the log file cannot be created or
    the terminal cannot be opened, waits for ever if the user does not press q,
    and otherwise ends. *)
Lemma FuzzContracts_ok host enableUI w (s : R) :
  Forall (fun p => inputs_small p.2) (Methods (CABI target)) -> world_ok w ->
  if negb (os_Create host) || (enableUI && negb (ui_Init host)) then FuzzContracts env fuel o target locs host enableUI w s = Panic
  else if enableUI && negb (ui_quit host) then FuzzContracts env fuel o target locs host enableUI w s = NoFuel
  else exists c, FuzzContracts env fuel o target locs host enableUI w s = Ok c /\
    world_ok (cWorld c) /\ forall k, len (reports_of k c) <= 6.
Proof.
  intros Hm Hw. unfold FuzzContracts, getConstantsTable. destruct (negb (os_Create host)); [done|]. cbn [orb].
  destruct (enableUI && negb (ui_Init host)); [done|].
  pose proof (storage_rows_ok target locs w Hw) as H. destruct (storage_rows target locs w) as [rows w'].
  destruct (method_loop_ok (Methods (CABI target)) 0 (mkCampaign w' (mkWriter [] []) s []) Hm H) as (c & -> & H1 & H2).
  { split; [constructor|]. intros k. unfold reports_of. simpl. rewrite len_nil. lia. }
  cbn [rbind]. destruct (enableUI && negb (ui_quit host)); [done|]. by exists c.
Qed.

End Total.

(** ** Deployment *)

Lemma Hex2Bytes_ok s : bytes_ok (Hex2Bytes s).
Proof.
  revert s. fix IH 1. intros [|c0 [|c1 s]]; [constructor|constructor|]. cbn [Hex2Bytes].
  assert (Hd : forall c x, fromHexChar c = Some x -> 0 <= x < 16).
  { intros c x. unfold fromHexChar. repeat split_if; intros [= <-]; zbool; lia. }
  destruct (fromHexChar c0) as [x|] eqn:E0; [|constructor].
  destruct (fromHexChar c1) as [y|] eqn:E1; [|constructor].
  apply Hd in E0, E1. constructor; [unfold byte_ok; lia|]. apply IH.
Qed.

Lemma initial_state_ok : db_ok initial_state.
Proof.
  unfold initial_state. do 2 (apply SetNonce_ok; [|by unfold is_u64, two64]).
  do 2 (apply AddBalance_ok; [|lia]). apply New_ok.
Qed.

Lemma initial_world_ok : world_ok initial_world.
Proof.
  split; [|by eexists|done|apply slice_ok_nil|by unfold is_u64, two64|done].
  intros r. unfold initial_world. cbn [heap].
  destruct (decide (r = 0%nat)) as [->|].
  - rewrite lookup_singleton_eq. apply db_ok_Logs, initial_state_ok.
  - rewrite lookup_singleton_ne by done. apply New_ok.
Qed.

(** *** The ABI of a contract *)

(** An argument of the document: [NewType] does not panic on its type, which has
    at most four levels of slices and arrays. *)
Definition extarg_ok (a : extarg) : Prop :=
  NewType (xType a) <> Panic /\ (Count (list_ascii_of_string (xType a)) "["%char <= 4)%nat.
Definition field_ok (f : field) : Prop :=
  Forall extarg_ok (fInputs f) /\ Forall extarg_ok (fOutputs f) /\ len (fInputs f) <= 1024.
Definition document_ok (doc : option (list field)) : Prop := forall fs, doc = Some fs -> Forall field_ok fs.

(** A compiled contract: code that fits in memory and such a document. *)
Definition compiled_ok (c : compiled) : Prop :=
  len (Hex2Bytes (of_string (cbin c))) < two63 /\ document_ok (cabi c).

Definition args_genable (l : list extarg) (args : list Argument) : Prop :=
  Forall (fun a => genable 4 (ArgType a)) args /\ length args = length l.

Lemma unmarshal_arguments_ok l : Forall extarg_ok l ->
  exists r, unmarshal_arguments l = Ok r /\ forall args, r = inr args -> args_genable l args.
Proof.
  induction 1 as [|a l [Ha Hc] _ IH]; cbn [unmarshal_arguments]; [eexists; split; [done|]; by intros args [= <-]|].
  unfold unmarshal_argument. destruct (NewType_genable (xType a)) as [Hn Hg].
  destruct (NewType (xType a)) as [[e|t]| |]; cbn [rbind]; [by eexists| |done|done].
  destruct IH as (r & -> & Hr). cbn [rbind]. eexists. split; [done|]. intros args E. destruct r as [e|args']; [done|].
  injection E as <-. destruct (Hr _ eq_refl) as [H1 H2]. split; [|simpl; by rewrite H2].
  constructor; [|done]. eapply genable_mono; [exact Hc|]. by apply Hg.
Qed.

Lemma read_fields_ok fs : Forall field_ok fs ->
  exists r, read_fields fs = Ok r /\
    forall l, r = inr l -> Forall (fun x => inputs_small (mkMethod "" false x.1.2 [])) l.
Proof.
  induction 1 as [|f fs (Hi & Ho & Hn) _ IH]; cbn [read_fields]; [eexists; split; [done|]; by intros l [= <-]|].
  destruct (unmarshal_arguments_ok _ Hi) as (r1 & -> & H1). cbn [rbind]. destruct r1 as [e|ins]; [by eexists|].
  destruct (unmarshal_arguments_ok _ Ho) as (r2 & -> & _). cbn [rbind]. destruct r2 as [e|outs]; [by eexists|].
  destruct IH as (r & -> & Hr). cbn [rbind]. eexists. split; [done|]. intros l E. destruct r as [e|l']; [done|].
  injection E as <-. destruct (H1 _ eq_refl) as [G1 G2]. constructor; [|by apply Hr]. split; [done|].
  simpl. unfold len in *. rewrite G2. exact Hn.
Qed.

Lemma assign_ok {A} (P : A -> Prop) m name x : P x -> Forall (fun p : string * A => P p.2) m -> Forall (fun p => P p.2) (assign m name x).
Proof.
  intros Hx. induction 1 as [|[n y] m Hy Hm IH]; cbn [assign]; [by repeat constructor|].
  destruct (String.eqb n name); by constructor.
Qed.

Lemma lookup_named_ok {A} (P : A -> Prop) m name x : Forall (fun p : string * A => P p.2) m -> lookup_named m name = Some x -> P x.
Proof. induction 1 as [|[n y] m Hy _ IH]; cbn [lookup_named]; [done|]. destruct (String.eqb n name); [by intros [= <-]|done]. Qed.

Lemma add_field_ok b f ins outs : inputs_small (mkMethod "" false ins []) ->
  Forall (fun p => inputs_small p.2) (Methods (bABI b)) -> Forall (fun p => inputs_small p.2) (Methods (bABI (add_field b f ins outs))).
Proof.
  intros Hi Hm. unfold add_field. destruct (String.eqb (fType f) "constructor"); [done|].
  destruct (_ || _); [|by destruct (String.eqb (fType f) "event")]. cbn [bABI Methods]. apply assign_ok; [exact Hi|].
  destruct (lookup_named _ _) as [m|] eqn:E; [|done]. apply assign_ok; [|done]. by apply (lookup_named_ok inputs_small) in E.
Qed.

Lemma JSON_ok doc : document_ok doc ->
  exists r, JSON doc = Ok r /\ forall abi, r = Some abi -> Forall (fun p => inputs_small p.2) (Methods abi).
Proof.
  intros Hd. destruct doc as [fs|]; [|by eexists]. specialize (Hd fs eq_refl). unfold JSON, UnmarshalJSON.
  destruct (read_fields_ok fs Hd) as (r & -> & Hr). cbn [rbind]. eexists. split; [done|]. intros abi E.
  destruct r as [e|l]; [done|]. injection E as <-. specialize (Hr l eq_refl). set (b := Build_building _ _ _).
  assert (Hb : Forall (fun p => inputs_small p.2) (Methods (bABI b))) by constructor. clearbody b.
  revert b Hb. induction Hr as [|[[f ins] outs] l Hi _ IH]; intros b Hb; cbn [fold_left]; [done|].
  apply IH. by apply add_field_ok.
Qed.

Section Deploy.
Context (cr : Crypto) (now : Z) (fuel : nat).
Hypothesis Hcr : crypto_ok cr.
Hypothesis Hfuel : callGasLimit < Z.of_nat fuel.
Let env := fuzz_env cr now.

Definition weight (sc : SimpleContract) : Z := len (Methods (CABI sc)) + len (Events (CABI sc)).

(** The main contract is one of the deployed contracts, none of which has more
    methods and events. *)
Record deployment_ok (dep : Deployment) : Prop := mk_deployment_ok {
  do_world : world_ok (dWorld dep);
  do_address : Forall (fun p => address_ok (CAddress p.2)) (Contracts dep);
  do_methods : Forall (fun p => Forall (fun q => inputs_small q.2) (Methods (CABI p.2))) (Contracts dep);
  do_main : forall sc, MainContract dep = Some sc ->
    sc ∈ (Contracts dep).*2 /\ weight sc = methodsandeventscount dep;
  do_none : MainContract dep = None -> methodsandeventscount dep = 0;
  do_max : Forall (fun p => weight p.2 <= methodsandeventscount dep) (Contracts dep)
}.

Lemma deploy_one_ok c dep :
  deployment_ok dep -> compiled_ok c ->
  exists dep', deploy_one env fuel c dep = Ok dep' /\ deployment_ok dep'.
Proof.
  intros [D1 D2 D2' D3 D4 D5] [Hlen Hdoc]. unfold deploy_one.
  destruct (post_total _ _ (machine_Create_ok env False (fuzz_env_ok _ _ Hcr) (or_intror eq_refl) fuel
    (AccountRef ContractCreater) (Hex2Bytes (of_string (cbin c))) callGasLimit 0
    (with_db (evm (dWorld dep)) (view (dWorld dep)))
    (StringToAddress_ok _) (conj (Hex2Bytes_ok _) Hlen) ltac:(done) ltac:(done) (world_evm_ok _ D1)
    ltac:(simpl; by rewrite (wo_depth _ D1)) Hfuel ltac:(intros _; split; right; [done|by eexists])))
    as ([[[[ret a] g] err] e'] & HE & Ha & (R1 & R2 & R3 & R4)).
  cbn [evm_Create machine call_ops] in HE. rewrite HE. cbn [rbind].
  set (w := with_evm _ _).
  assert (Hw : world_ok w).
  { destruct R3 as [E1 E2 E3], R4 as (K1 & _).
    destruct (set_view_ok (dWorld dep) (AddBalance (db e') a 100) D1) as [S1 S2 S3 S4 S5 S6].
    { apply AddBalance_ok; [done|lia]. }
    split; try done. simpl in *. rewrite K1. apply D1. }
  clearbody w. destruct err as [err|]; [by eexists|].
  destruct (JSON_ok (cabi c) Hdoc) as (doc & -> & Hsmall). cbn [rbind]. destruct doc as [abi|]; [|by eexists].
  specialize (Hsmall abi eq_refl).
  set (sc := mkSimpleContract _ _ _). assert (Hsc : weight sc = len (Methods abi) + len (Events abi)) by done.
  destruct (Z.ltb_spec (methodsandeventscount dep) (len (Methods abi) + len (Events abi)));
    (eexists; split; [done|]; split; simpl; try done).
  - apply Forall_app. by split; [|constructor].
  - apply Forall_app. by split; [|constructor].
  - intros x [= <-]. split; [|done]. rewrite fmap_app. apply elem_of_app. right. constructor.
  - apply Forall_app. split; [|constructor; [simpl; lia|constructor]].
    eapply Forall_impl; [exact D5|]. simpl. lia.
  - apply Forall_app. by split; [|constructor].
  - apply Forall_app. by split; [|constructor].
  - intros x Hx. destruct (D3 x Hx). split; [|done]. rewrite fmap_app. apply elem_of_app. by left.
  - apply Forall_app. split; [done|]. constructor; [simpl; lia|constructor].
Qed.

Lemma deploy_all_ok l dep :
  deployment_ok dep -> Forall compiled_ok l ->
  exists dep', deploy_all env fuel l dep = Ok dep' /\ deployment_ok dep'.
Proof.
  revert dep. induction l as [|c l IH]; intros dep Hd Hl; cbn [deploy_all]; [by eexists|].
  apply Forall_cons_iff in Hl as [Hc Hl].
  destruct (deploy_one_ok c dep Hd Hc) as (dep1 & -> & H1). by apply IH.
Qed.

Lemma DeployContracts_ok solcout :
  Forall compiled_ok solcout ->
  exists dep, DeployContracts env fuel solcout = Ok dep /\ deployment_ok dep.
Proof.
  intros H. apply deploy_all_ok; [|done]. split; simpl; try done. apply initial_world_ok.
Qed.

Lemma Id_ok m : slice_ok (Id env m).
Proof.
  destruct (ck_keccak _ Hcr (of_string (Sig m))) as [H1 H2]. split.
  - by apply bytes_ok_take.
  - unfold Id. rewrite len_take. unfold two63. lia.
Qed.

Lemma storage_locs_ok addr skipped l w :
  world_ok w -> address_ok addr ->
  exists r w', storage_locs env fuel addr skipped l w = Ok (r, w') /\ world_ok w'.
Proof.
  intros Hw Ha. revert w Hw. induction l as [|[c m] l IH]; intros w Hw; cbn [storage_locs]; [by eexists _, _|].
  destruct (StringInSlice c skipped); [by apply IH|]. unfold TouchSload.
  destruct (SimpleCall_ok cr now fuel Hcr Hfuel w addr (Id env m) Hw Ha (Id_ok m))
    as (ret & err & w1 & E & H1 & _). fold env in E. rewrite E. cbn [rbind].
  destruct (IH w1 H1) as (r & w2 & -> & H2). cbn [rbind]. by eexists _, _.
Qed.

End Deploy.

(** What is deployed can be fuzzed. *)
Lemma NewContractFuzzer_ok cr now fuel output :
  crypto_ok cr -> callGasLimit < Z.of_nat fuel -> Forall compiled_ok (CompileContract output) ->
  exists target locs w, NewContractFuzzer (fuzz_env cr now) fuel output = Ok (target, locs, w) /\
    world_ok w /\ address_ok (CAddress target) /\ Forall (fun p => inputs_small p.2) (Methods (CABI target)).
Proof.
  intros Hcr Hfuel Hs. unfold NewContractFuzzer.
  destruct (DeployContracts_ok cr now fuel Hcr Hfuel _ Hs) as (dep & -> & Hd). cbn [rbind].
  set (target := default zeroContract (MainContract dep)).
  assert (Ht : address_ok (CAddress target) /\ Forall (fun p => inputs_small p.2) (Methods (CABI target))).
  { unfold target. destruct (MainContract dep) as [sc|] eqn:Em; simpl.
    - destruct (do_main _ Hd sc Em) as [Hin _]. apply list_elem_of_fmap in Hin as (x & -> & Hin). split.
      + by eapply Forall_forall in Hin; [|apply (do_address _ Hd)].
      + by eapply Forall_forall in Hin; [|apply (do_methods _ Hd)].
    - split; [|constructor]. split; [done|]. apply Forall_replicate. by unfold byte_ok. }
  clearbody target. unfold GetStorageLoc.
  destruct (storage_locs_ok cr now fuel Hcr Hfuel (CAddress target) (SetSkippedVars [])
    (FilterOutConstantNumABI (CABI target)) (dWorld dep) (do_world _ Hd) (proj1 Ht)) as (locs & w & -> & Hw).
  cbn [rbind]. by exists target, locs, w.
Qed.

(** C11: what becomes of fuzzing one file, exactly.  Given compiler output in
    which [NewType] panics on no argument type and methods have at most 1024
    inputs with at most four levels of slices and arrays, for everything that is
    drawn and every copier that keeps the databases well formed, deploying the
    contracts and locating the constants always succeeds; then the task panics
    iff the log file cannot be created or the user interface is enabled and
    cannot be started, does not return iff the interface is enabled and the user
    never quits, and otherwise runs the whole campaign to its end, with at most
    six reports for each method. *)
Theorem fuzz_file_outcome {R : Type} `{!Source R, !SourceLaws R} cr now fuel o host enableUI output (s : R) :
  crypto_ok cr -> callGasLimit < Z.of_nat fuel -> copier_ok o -> Forall compiled_ok (CompileContract output) ->
  if negb (os_Create host) || (enableUI && negb (ui_Init host))
  then fuzz_file (fuzz_env cr now) fuel o host enableUI output s = Panic
  else if enableUI && negb (ui_quit host)
  then fuzz_file (fuzz_env cr now) fuel o host enableUI output s = NoFuel
  else exists c, fuzz_file (fuzz_env cr now) fuel o host enableUI output s = Ok c /\
    forall m, len (reports_of m c) <= 6.
Proof.
  intros Hcr Hfuel Ho Hs. unfold fuzz_file.
  destruct (NewContractFuzzer_ok cr now fuel output Hcr Hfuel Hs) as (target & locs & w & -> & Hw & Ha & Hm). cbn [rbind].
  pose proof (FuzzContracts_ok cr now fuel Hcr Hfuel o Ho target locs Ha host enableUI w s Hm Hw) as H.
  destruct (_ || _); [exact H|]. destruct (_ && _); [exact H|]. destruct H as (c & E & _ & H). by exists c.
Qed.

Lemma assign_fields_ok o : Copy o = assign_fields -> copier_ok o.
Proof. intros E h to from H1 H2 H3. rewrite E. simpl. done. Qed.

Lemma deep_copy_ok o : Copy o = deep_copy -> copier_ok o.
Proof.
  intros E h to from H1 H2 H3. rewrite E. simpl. split; [|split].
  - change (default ∅ (h !! mapRef from)) with (StateMap (mkStateDB (default ∅ (h !! mapRef from)) [])).
    by apply heap_ok_insert.
  - rewrite lookup_insert_eq. by eexists.
  - intros r Hr. by apply is_Some_insert.
Qed.

(** A contract with one method, for the witnesses. *)
Definition quiet_oracles (cp : gmap nat (gmap Address State) -> SDB -> SDB ->
    gmap nat (gmap Address State) * SDB) : Oracles := mkOracles cp (fun _ => []).
Definition demo_host : Host := mkHost true true true.

Definition demo_solc : list compiled :=
  [mkCompiled "Token" "6001600155" (Some [{| fType := "function"; fName := "mint"; fConstant := false; fAnonymous := false;
     fInputs := [{| xName := "to"; xType := "address[]"; xIndexed := false |}]; fOutputs := [] |}])].

Lemma demo_solc_ok : Forall compiled_ok demo_solc.
Proof.
  apply Forall_cons_2; [|apply Forall_nil_2]. split; [by vm_compute|]. intros fs [= <-].
  apply Forall_cons_2; [|apply Forall_nil_2]. split; [|split; [apply Forall_nil_2|by vm_compute]].
  apply Forall_cons_2; [|apply Forall_nil_2]. split; [by vm_compute|vm_compute; lia].
Qed.

Lemma fuzz_file_outcome_witness :
  (exists c, fuzz_file (fuzz_env demo_crypto 0) (Z.to_nat 100000000001) (quiet_oracles assign_fields) demo_host true (Some demo_solc) 1 = Ok c) /\
  fuzz_file (fuzz_env demo_crypto 0) (Z.to_nat 100000000001) (quiet_oracles assign_fields) (mkHost false true true) false (Some demo_solc) 1 = Panic.
Proof.
  assert (callGasLimit < Z.of_nat (Z.to_nat 100000000001)) as Hf by (unfold callGasLimit; rewrite Z2Nat.id; lia). split.
  - destruct (fuzz_file_outcome demo_crypto 0 (Z.to_nat 100000000001) (quiet_oracles assign_fields) demo_host true (Some demo_solc) 1
      demo_crypto_ok Hf (assign_fields_ok (quiet_oracles assign_fields) eq_refl) demo_solc_ok) as (c & H & _). by exists c.
  - exact (fuzz_file_outcome demo_crypto 0 (Z.to_nat 100000000001) (quiet_oracles assign_fields) (mkHost false true true) false (Some demo_solc) 1
      demo_crypto_ok Hf (assign_fields_ok (quiet_oracles assign_fields) eq_refl) demo_solc_ok).
Defined.

(** ** Backup and restore *)

(** with a copier that assigns struct fields, [RestoreStates] restores the
    logs and nothing else: the backup shares the map of accounts, so storage
    markers, balances and code left by a run are still there for the next. *)
Theorem restore_keeps_accounts o caller addr calldata env fuel w ret err w' :
  Copy o = assign_fields ->
  SimpleCall env fuel caller addr calldata (BackupStates o w) = Ok (ret, err, w') ->
  StateMap (view (RestoreStates o w')) = StateMap (view w') /\
  Logs (view (RestoreStates o w')) = Logs (view w).
Proof.
  intros Hcopy H. unfold SimpleCall in H.
  apply rbind_Ok_inv in H as ([[[r g] x] e] & _ & [= <- <- <-]).
  unfold RestoreStates, BackupStates, view. rewrite Hcopy. done.
Qed.

Definition demo_world (code : bytes) : World :=
  mkWorld {[0%nat := StateMap (SetCode initial_state bob code)]} (mkSDB 0 []) None (NewEVM New).

Lemma demo_world_ok code :
  forallb (fun b => (0 <=? b) && (b <? 256)) code = true -> len code < two63 -> world_ok (demo_world code).
Proof.
  intros H1 H2. split; [|simpl; rewrite lookup_singleton_eq; by eexists|done|apply slice_ok_nil|by unfold is_u64, two64|done].
  intros r. unfold demo_world. cbn [heap]. destruct (decide (r = 0%nat)) as [->|].
  - rewrite (lookup_singleton_eq 0%nat). apply (db_ok_Logs (SetCode initial_state bob code)).
    apply SetCode_ok; [apply initial_state_ok|by apply bytes_ok_dec|done].
  - rewrite lookup_singleton_ne by done. apply New_ok.
Qed.

Definition demo_run (cp : gmap nat (gmap Address State) -> SDB -> SDB -> gmap nat (gmap Address State) * SDB) :=
  value_of (SimpleCall (fuzz_env demo_crypto 0) 100 ContractCreater bob []
    (BackupStates (quiet_oracles cp) (demo_world add_overflow))) ([], None, demo_world []).

Lemma demo_run_ok cp :
  is_ok (SimpleCall (fuzz_env demo_crypto 0) 100 ContractCreater bob []
    (BackupStates (quiet_oracles cp) (demo_world add_overflow))) = true ->
  SimpleCall (fuzz_env demo_crypto 0) 100 ContractCreater bob []
    (BackupStates (quiet_oracles cp) (demo_world add_overflow)) =
  Ok ((demo_run cp).1.1, (demo_run cp).1.2, (demo_run cp).2).
Proof. intros H. rewrite <- !surjective_pairing. by apply is_ok_value. Qed.

Lemma restore_keeps_accounts_witness :
  StateMap (view (RestoreStates (quiet_oracles assign_fields) (demo_run assign_fields).2)) =
  StateMap (view (demo_run assign_fields).2).
Proof.
  apply (restore_keeps_accounts (quiet_oracles assign_fields) ContractCreater bob []
    (fuzz_env demo_crypto 0) 100 (demo_world add_overflow) _ _ _ eq_refl
    (demo_run_ok assign_fields ltac:(vm_compute; reflexivity))).
Defined.

(** What a run and the check of the markers leave alone. *)
Record same_but_view (w w' : World) : Prop := mk_same_but_view {
  sv_backup : stateBackup w' = stateBackup w;
  sv_ref : mapRef (state w') = mapRef (state w);
  sv_heap : forall r, r <> mapRef (state w) -> heap w' !! r = heap w !! r
}.

#[export] Instance same_but_view_preorder : PreOrder same_but_view.
Proof.
  split; [done|]. intros w1 w2 w3 [A1 A2 A3] [B1 B2 B3]. split; [congruence|congruence|].
  intros r Hr. rewrite B3 by congruence. by apply A3.
Qed.

Lemma set_view_same w d : same_but_view w (set_view w d).
Proof. split; [done|done|]. intros r Hr. simpl. by rewrite lookup_insert_ne. Qed.

Lemma with_evm_same w e : same_but_view w (with_evm w e).
Proof. done. Qed.

Lemma SimpleCall_same env fuel caller addr cd w ret err w' :
  SimpleCall env fuel caller addr cd w = Ok (ret, err, w') -> same_but_view w w'.
Proof.
  intros H. unfold SimpleCall in H. apply rbind_Ok_inv in H as ([[[r g] x] e] & _ & [= <- <- <-]).
  etrans; [apply set_view_same|apply with_evm_same].
Qed.

Lemma check_ops_same addr ops w : same_but_view w (check_ops addr ops w).2.
Proof.
  revert w. induction ops as [|op ops IH]; intros w; cbn [check_ops]; [done|].
  assert (H : same_but_view w (GetStorage addr (StringToHash op) w).2) by apply set_view_same.
  destruct (GetStorage addr (StringToHash op) w) as [v w']. simpl in H.
  case_bool_decide; [done|]. by etrans.
Qed.

Lemma fresh_ref w : world_ok w -> fresh (dom (heap w)) <> mapRef (state w).
Proof.
  intros Hw E. pose proof (is_fresh (dom (heap w))) as Hn. rewrite E in Hn.
  apply Hn. apply elem_of_dom, Hw.
Qed.

Lemma restore_deep o w w' :
  Copy o = deep_copy -> world_ok w -> same_but_view (BackupStates o w) w' ->
  view (RestoreStates o w') = view w.
Proof.
  intros Hcopy Hw [H1 H2 H3]. revert H1 H2 H3. unfold BackupStates. rewrite Hcopy.
  set (f := fresh (dom (heap w))). cbn [deep_copy mapRef SLogs state stateBackup heap]. intros H1 H2 H3.
  assert (Hf : f <> mapRef (state w)) by by apply fresh_ref.
  unfold RestoreStates. rewrite H1, Hcopy. unfold view, deep_copy.
  cbn [heap state mapRef SLogs]. rewrite lookup_insert_eq, H3 by done.
  rewrite lookup_insert_eq. cbn [default]. by rewrite lookup_insert_ne.
Qed.

(** with a copier that copies the accounts, a run followed by
    [RestoreStates] leaves exactly the database it started from. *)
Theorem restore_undoes_run o caller addr calldata env fuel w ret err w' :
  Copy o = deep_copy -> world_ok w ->
  SimpleCall env fuel caller addr calldata (BackupStates o w) = Ok (ret, err, w') ->
  view (RestoreStates o w') = view w.
Proof. intros Hcopy Hw H. apply restore_deep; [done|done|]. by eapply SimpleCall_same. Qed.

Lemma restore_undoes_run_witness :
  view (RestoreStates (quiet_oracles deep_copy) (demo_run deep_copy).2) = view (demo_world add_overflow).
Proof.
  apply (restore_undoes_run (quiet_oracles deep_copy) ContractCreater bob []
    (fuzz_env demo_crypto 0) 100 (demo_world add_overflow) _ _ _ eq_refl
    (demo_world_ok add_overflow eq_refl ltac:(vm_compute; reflexivity))
    (demo_run_ok deep_copy ltac:(vm_compute; reflexivity))).
Defined.

(** CALLDATASIZE, PUSH1 5, JUMPI, STOP, JUMPDEST, PUSH1 1, PUSH1 0, SUB, PUSH1
    0, PUSH1 0, REVERT: stops on empty call data; otherwise underflows and
    reverts. *)
Definition guarded : bytes :=
  [0x36; 0x60; 5; 0x57; 0x00; 0x5b; 0x60; 1; 0x60; 0; 0x03; 0x60; 0; 0x60; 0; 0xfd].

(** The verdicts on a sequence of runs. *)
Fixpoint verdicts (o : Oracles) (target : SimpleContract) (l : list bytes) (w : World) : option (list bool) :=
  match l with
  | [] => Some []
  | cd :: l' =>
      match fuzz_run (fuzz_env demo_crypto 0) 100 o target cd w with
      | Ok (b, w') => cons b <$> verdicts o target l' w'
      | _ => None
      end
  end.

Definition demo_target : SimpleContract := mkSimpleContract "Guarded" bob (mkABI zeroMethod [] []).

(** a false positive.  On a contract that reverts when it underflows, a run
    that underflows is rightly not reported; but with a copier that assigns
    struct fields its marker stays, and the next run, which executes STOP and
    nothing else, is reported.  With a copier that copies the accounts neither
    run is reported. *)
Theorem stale_marker_reported :
  verdicts (quiet_oracles assign_fields) demo_target [[]; [1]; []] (demo_world guarded)
    = Some [false; false; true] /\
  verdicts (quiet_oracles deep_copy) demo_target [[]; [1]; []] (demo_world guarded)
    = Some [false; false; false].
Proof. vm_compute. done. Qed.

(** ** Soundness of the reports *)

Definition unmarked (target : SimpleContract) (w : World) : Prop :=
  forall k, k ∈ Static.marker_keys -> slot (view w) (CAddress target) k = zeroHash.

(** What a report of the call data [cd] in the world [w] stands for: after the
    backup the call returns without an error and leaves a marker, and either the
    marker was there before the call or the call reached an instruction that
    overflows and sets it (or a store to its slot, or a contract creation). *)
Definition justified (env : Env) (fuel : nat) (o : Oracles) (target : SimpleContract) (cd : bytes) (w : World) : Prop :=
  let w1 := BackupStates o w in
  let e := with_db (evm w1) (view w1) in
  exists ret g e' k, k ∈ Static.marker_keys /\
    Call env (loop env fuel) (AccountRef ContractCreater) (CAddress target) cd callGasLimit 0 e = Ok (ret, g, None, e') /\
    slot (db e') (CAddress target) k <> zeroHash /\
    (slot (view w1) (CAddress target) k <> zeroHash \/
     exists m f, Taint.reached env fuel (Taint.entry_frame ContractCreater (CAddress target) cd callGasLimit 0 e) m f /\
       (Taint.overflows f k \/ Taint.stores f k \/ Taint.creates f)).

Lemma GetStorage_slot addr loc w a k :
  slot (view (GetStorage addr loc w).2) a k = slot (view w) a k /\
  (GetStorage addr loc w).1 = slot (view w) addr loc.
Proof.
  unfold GetStorage, on_view. pose proof (GetState_fst (view w) addr loc) as H1.
  pose proof (GetState_snd (view w) addr loc) as H2.
  destruct (GetState (view w) addr loc) as [v d]. simpl in *. rewrite view_set_view.
  split; [|done]. unfold slot. by rewrite (proj1 H2).
Qed.

Lemma check_ops_hit addr ops w :
  (check_ops addr ops w).1 = true ->
  exists op, op ∈ ops /\ slot (view w) addr (StringToHash op) <> zeroHash.
Proof.
  revert w. induction ops as [|op ops IH]; intros w; cbn [check_ops]; [done|].
  destruct (GetStorage_slot addr (StringToHash op) w addr (StringToHash op)) as [_ H1].
  assert (H2 : forall k, slot (view (GetStorage addr (StringToHash op) w).2) addr k = slot (view w) addr k)
    by (intros k; apply GetStorage_slot).
  destruct (GetStorage addr (StringToHash op) w) as [v w']. simpl in *. subst v. case_bool_decide as Hb.
  - intros _. exists op. split; [constructor|done].
  - intros (op' & Hin & Hs)%IH. rewrite H2 in Hs. exists op'. split; [by constructor|done].
Qed.

Lemma detector_keys op : op ∈ [add; sub; mul; div] -> StringToHash op ∈ Static.marker_keys.
Proof.
  change Static.marker_keys with (StringToHash <$> [add; sub; mul; div]). intros H. by apply list_elem_of_fmap_2.
Qed.

(** Induction over the campaign: an invariant of the worlds between the runs, and
    what it gives about a run that is reported. *)
Section Induction.
Context (env : Env) (fuel : nat) (o : Oracles) {R : Type} `{!Source R} (target : SimpleContract) (locs : list (string * Hash)).
Context (I : World -> Prop) (P : bytes -> World -> Prop).
Hypothesis HIstorage : forall w (s : R), I w -> I (fuzz_storage target locs w s).1.
Hypothesis HIrows : forall w, I w -> I (storage_rows target locs w).2.
Hypothesis HIrun : forall meth (s s' : R) cd w b w', inputs_small meth -> I w ->
  Method_Fuzz (Keccak256 (crypto env)) meth s = Ok (cd, s') ->
  fuzz_run env fuel o target cd w = Ok (b, w') -> I w' /\ (b = true -> P cd w).

(** A report of the campaign: the call data is that of a method that is not
    constant. *)
Definition report_of (r : nat * bytes * World) : Prop :=
  (exists name meth (s s' : R), Methods (CABI target) !! r.1.1 = Some (name, meth) /\ Const meth = false /\
     Method_Fuzz (Keccak256 (crypto env)) meth s = Ok (r.1.2, s')) /\ P r.1.2 r.2.

Definition going (c : Campaign R) : Prop := I (cWorld c) /\ Forall report_of (cReports c).

Lemma GenTable_inv sig cd w wr : I w -> I (GenTable o target locs sig cd w wr).1.
Proof. intros Hw. unfold GenTable. apply HIrows in Hw. by destruct (storage_rows target locs w). Qed.

Lemma run_loop_inv m name meth n cnt c stop cnt' c' :
  inputs_small meth -> Methods (CABI target) !! m = Some (name, meth) -> Const meth = false ->
  going c -> run_loop env fuel o target locs m meth n cnt c = Ok (stop, cnt', c') -> going c'.
Proof.
  intros Hs Hm Hc. revert cnt c. induction n as [|n IH]; intros cnt c Hg; cbn [run_loop]; [by intros [= _ _ <-]|].
  intros H. apply rbind_Ok_inv in H as ([cd s] & Hf & H). apply rbind_Ok_inv in H as ([b w] & Hrun & H). destruct Hg as [Hg1 Hg2].
  destruct (HIrun _ _ _ _ _ _ _ Hs Hg1 Hf Hrun) as [Hw Hb]. destruct b.
  - pose proof (GenTable_inv (of_string (Sig meth)) (ToHex cd) w (cWriter c) Hw) as Hg.
    destruct (GenTable _ _ _ _ _ _ _) as [w2 wr]. simpl in Hg.
    assert (Forall report_of (cReports c ++ [(m, cd, cWorld c)])).
    { apply Forall_app. split; [done|]. constructor; [|constructor]. split; [by exists name, meth, (cRand c), s|by apply Hb]. }
    destruct (5 <? cnt + 1); [injection H as <- <- <-; by split|]. eapply IH, H. by split.
  - destruct (5 <? cnt); [injection H as <- <- <-; by split|]. eapply IH, H. by split.
Qed.

Lemma mutate_loop_inv m name meth n cnt c c' :
  inputs_small meth -> Methods (CABI target) !! m = Some (name, meth) -> Const meth = false ->
  going c -> mutate_loop env fuel o target locs m meth n cnt c = Ok c' -> going c'.
Proof.
  intros Hs Hm Hc. revert cnt c. induction n as [|n IH]; intros cnt c Hg; cbn [mutate_loop]; [by intros [= <-]|].
  destruct Hg as [Hg1 Hg2]. unfold FuzzStorage, getConstantsTable. pose proof (HIstorage _ (cRand c) Hg1) as H1.
  destruct (fuzz_storage target locs (cWorld c) (cRand c)) as [w1 s1]. cbn [fst] in H1. apply HIrows in H1.
  destruct (storage_rows target locs w1) as [rows w2]. cbn [snd] in H1. intros H.
  apply rbind_Ok_inv in H as ([[stop cnt'] c1] & Hrun & H).
  eapply run_loop_inv in Hrun; [|done|done|done|by split]. destruct stop; [by injection H as <-|]. by eapply IH.
Qed.

Lemma method_loop_inv methods m c c' :
  Forall (fun p => inputs_small p.2) methods -> (forall i x, methods !! i = Some x -> Methods (CABI target) !! (m + i)%nat = Some x) ->
  going c -> method_loop env fuel o target locs methods m c = Ok c' -> going c'.
Proof.
  intros Hs. revert m c. induction Hs as [|[name meth] methods Hmeth _ IH]; intros m c Hm Hg; cbn [method_loop]; [by intros [= <-]|].
  assert (Hm' : forall i x, methods !! i = Some x -> Methods (CABI target) !! (S m + i)%nat = Some x)
    by (intros i x Hx; rewrite Nat.add_succ_comm; by apply Hm).
  destruct (Const meth) eqn:Ec; [by apply IH|]. intros H. apply rbind_Ok_inv in H as (c1 & H1 & H2).
  eapply mutate_loop_inv in H1; [by eapply IH|done| |done|done]. specialize (Hm 0%nat _ eq_refl). by rewrite Nat.add_0_r in Hm.
Qed.

Lemma FuzzContracts_inv host enableUI w s c :
  Forall (fun p => inputs_small p.2) (Methods (CABI target)) -> I w ->
  FuzzContracts env fuel o target locs host enableUI w s = Ok c -> Forall report_of (cReports c).
Proof.
  intros Hs Hw H. unfold FuzzContracts, getConstantsTable in H. destruct (negb _); [done|]. destruct (_ && _); [done|].
  apply HIrows in Hw. destruct (storage_rows target locs w) as [rows w1]. cbn [snd] in Hw.
  apply rbind_Ok_inv in H as (c1 & H1 & H). destruct (_ && _); [done|]. injection H as <-.
  eapply method_loop_inv in H1; [apply H1|done|done|]. split; [done|constructor].
Qed.

End Induction.

Section Sound.
Context (cr : Crypto) (now : Z) (fuel : nat) (o : Oracles) {R : Type} `{!Source R, !SourceLaws R} (target : SimpleContract).
Hypothesis Hcr : crypto_ok cr.
Hypothesis Hfuel : callGasLimit < Z.of_nat fuel.
Hypothesis Ho : copier_ok o.
Hypothesis Haddr : address_ok (CAddress target).
Let env := fuzz_env cr now.

Lemma fuzz_run_sound cd w b w' :
  world_ok w -> slice_ok cd -> fuzz_run env fuel o target cd w = Ok (b, w') ->
  world_ok w' /\ (b = true -> justified env fuel o target cd w).
Proof.
  intros Hw Hcd Hrun.
  destruct (fuzz_run_ok cr now fuel Hcr Hfuel o Ho target Haddr cd w Hw Hcd) as (b1 & w1' & E & Hw').
  fold env in E. rewrite Hrun in E. injection E as <- <-. split; [done|].
  destruct (BackupStates_ok o Ho w Hw) as [Hb _].
  unfold fuzz_run in Hrun. apply rbind_Ok_inv in Hrun as ([[ret err] w1] & Hcall & Hrun).
  pose proof (check_ops_hit (CAddress target) [add; sub; mul; div] w1) as Hhit.
  unfold CheckOverflowStorage in Hrun. destruct (check_ops _ _ w1) as [hit w2]. simpl in Hhit.
  injection Hrun as <- <-. intros [Herr%bool_decide_eq_true_1 Hh]%andb_true_iff. subst err.
  destruct (Hhit Hh) as (op & Hop & Hne). apply detector_keys in Hop.
  pose proof (SimpleCall_fuzz_call cr now Hcr _ (CAddress target) cd Hb Haddr Hcd) as Hfc.
  unfold SimpleCall in Hcall. apply rbind_Ok_inv in Hcall as ([[[r g] x] e'] & Hcall & [= -> -> <-]).
  rewrite view_with_evm, view_set_view in Hne.
  exists ret, g, e', (StringToHash op). split; [done|]. split; [done|]. split; [done|].
  destruct (decide (slot (view (BackupStates o w)) (CAddress target) (StringToHash op) = zeroHash)) as [E|E]; [right|by left].
  apply (Taint.call_sound env ContractCreater (CAddress target) cd callGasLimit 0 _ fuel _ _ _ _ (StringToHash op) Hfc Hfuel Hcall).
  cbn [db with_db]. by rewrite E.
Qed.

Lemma calldata_slice meth (s s' : R) cd : inputs_small meth -> Method_Fuzz (Keccak256 (crypto env)) meth s = Ok (cd, s') -> slice_ok cd.
Proof.
  intros Hm E. destruct (calldata_ok cr now fuel Hcr meth s Hm) as (cd' & s1 & E' & H). fold env in E'. rewrite E in E'. by injection E' as <- _.
Qed.

(** *** A copier that copies the accounts *)

Hypothesis Hcopy : Copy o = deep_copy.
Context (locs : list (string * Hash)).
Hypothesis Hlocs : Forall (fun p => p.2 ∉ Static.marker_keys) locs.

(** What holds between two runs. *)
Definition clean (w : World) : Prop := world_ok w /\ unmarked target w.

Lemma fuzz_run_clean cd w b w' : clean w -> slice_ok cd -> fuzz_run env fuel o target cd w = Ok (b, w') -> clean w'.
Proof.
  intros [Hw Hu] Hcd Hrun. destruct (fuzz_run_sound cd w b w' Hw Hcd Hrun) as [Hw' _]. split; [done|].
  unfold fuzz_run in Hrun. apply rbind_Ok_inv in Hrun as ([[ret err] w1] & Hcall & Hrun).
  pose proof (SimpleCall_same _ _ _ _ _ _ _ _ _ Hcall) as S1. pose proof (check_ops_same (CAddress target) [add; sub; mul; div] w1) as S2.
  unfold CheckOverflowStorage in Hrun. destruct (check_ops _ _ w1) as [hit w2]. simpl in S2. injection Hrun as _ <-.
  intros k Hk. rewrite (restore_deep o w) by (done || by etrans). by apply Hu.
Qed.

Lemma clean_storage_rows l w : clean w -> clean (storage_rows target l w).2.
Proof.
  intros [Hw Hu]. split; [by apply storage_rows_ok|]. clear Hw. revert w Hu.
  induction l as [|[name loc] l IH]; intros w Hu; cbn [storage_rows]; [done|].
  assert (H : unmarked target (GetStorage (CAddress target) loc w).2).
  { intros k Hk. destruct (GetStorage_slot (CAddress target) loc w (CAddress target) k) as [-> _]. by apply Hu. }
  destruct (GetStorage (CAddress target) loc w) as [v w']. simpl in H.
  specialize (IH w' H). by destruct (storage_rows target l w').
Qed.

Lemma clean_fuzz_storage l w (s : R) :
  Forall (fun p => p.2 ∉ Static.marker_keys) l -> clean w -> clean (fuzz_storage target l w s).1.
Proof.
  intros Hl. revert w s. induction Hl as [|[name loc] l Hn _ IH]; intros w s [Hw Hu]; cbn [fuzz_storage]; [done|].
  destruct (GenRandomInSpecialDist s) as [x s']. apply IH. split; [by apply SetStorage_ok|].
  intros k Hk. unfold SetStorage. rewrite view_set_view, slot_SetState, decide_False; [by apply Hu|].
  simpl in Hn. intros [_ <-]. done.
Qed.

(** With such a copier, from a database without markers and when no constant
    lives at a marker's key, no report is due to a marker of an earlier run. *)
Lemma deep_reports_fresh host enableUI w (s : R) c :
  Forall (fun p => inputs_small p.2) (Methods (CABI target)) -> world_ok w -> unmarked target w ->
  FuzzContracts env fuel o target locs host enableUI w s = Ok c -> Forall (fun r => unmarked target r.2) (cReports c).
Proof.
  intros Hm Hw Hu H. apply (FuzzContracts_inv env fuel o target locs clean (fun _ w => unmarked target w)) in H; [|..|done|done].
  - eapply Forall_impl; [exact H|]. intros r [_ Hr]. exact Hr.
  - intros w0 s0 H0. by apply clean_fuzz_storage.
  - intros w0 H0. by apply clean_storage_rows.
  - intros meth s0 s1 cd w0 b w1 Hmeth H0 Hf Hrun. split; [|intros _; apply H0].
    eapply fuzz_run_clean; [exact H0| |exact Hrun]. by eapply calldata_slice.
Qed.

End Sound.

(** C12: what a report means, whatever the copier does to the databases as long as
    they stay well formed: its call data is call data of the method it names,
    which is not constant, and in the world its run started from the call
    returned without an error and left a marker at the contract, and either the
    run reached an instruction that overflows and sets that marker (or an SSTORE
    to its slot, or a CREATE), or the marker was already there.  (The second case
    is what happens with a copier that assigns struct fields, see
    [stale_marker_reported]; it cannot happen with one that copies the accounts,
    see [deep_reports_fresh].) *)
Theorem campaign_sound {R : Type} `{!Source R, !SourceLaws R} cr now fuel o target locs host enableUI w (s : R) c :
  crypto_ok cr -> callGasLimit < Z.of_nat fuel -> copier_ok o -> address_ok (CAddress target) ->
  Forall (fun p => inputs_small p.2) (Methods (CABI target)) -> world_ok w ->
  FuzzContracts (fuzz_env cr now) fuel o target locs host enableUI w s = Ok c ->
  Forall (report_of (R := R) (fuzz_env cr now) target (justified (fuzz_env cr now) fuel o target)) (cReports c).
Proof.
  intros Hcr Hfuel Ho Ha Hm Hw H. eapply (FuzzContracts_inv _ _ _ _ _ world_ok); [..|exact Hm|exact Hw|exact H].
  - intros w0 s0 H0. by apply fuzz_storage_ok.
  - intros w0 H0. by apply storage_rows_ok.
  - intros meth s0 s1 cd w0 b w1 Hmeth H0 Hf Hrun. apply fuzz_run_sound; try done. by eapply calldata_slice.
Qed.

(** *** More fuel *)

Lemma SimpleCall_more env n m caller addr cd w x : (n <= m)%nat ->
  SimpleCall env n caller addr cd w = Ok x -> SimpleCall env m caller addr cd w = Ok x.
Proof.
  intros Hnm H. unfold SimpleCall in *. rewrite <-(Fuel.Call_fuel_wlog env n m); [exact H|done|]. intros E. by rewrite E in H.
Qed.

Lemma fuzz_run_more env n m o target cd w x : (n <= m)%nat -> fuzz_run env n o target cd w = Ok x -> fuzz_run env m o target cd w = Ok x.
Proof.
  intros Hnm H. unfold fuzz_run in *. apply rbind_Ok_inv in H as (y & Hc & H). by rewrite (SimpleCall_more _ n m _ _ _ _ _ Hnm Hc).
Qed.

Section More.
Context (env : Env) (n m : nat) (o : Oracles) {R : Type} `{!Source R} (target : SimpleContract) (locs : list (string * Hash)).
Hypothesis Hnm : (n <= m)%nat.

Lemma run_loop_more i meth k cnt (c : Campaign R) x :
  run_loop env n o target locs i meth k cnt c = Ok x -> run_loop env m o target locs i meth k cnt c = Ok x.
Proof.
  revert cnt c. induction k as [|k IH]; intros cnt c; cbn [run_loop]; [done|]. intros H.
  apply rbind_Ok_inv in H as ([cd s] & -> & H). cbn [rbind]. apply rbind_Ok_inv in H as ([b w] & Hr & H).
  rewrite (fuzz_run_more _ n m _ _ _ _ _ Hnm Hr). cbn [rbind]. destruct b.
  - destruct (GenTable _ _ _ _ _ _ _). destruct (5 <? cnt + 1); [done|by apply IH].
  - destruct (5 <? cnt); [done|by apply IH].
Qed.

Lemma mutate_loop_more i meth k cnt (c : Campaign R) x :
  mutate_loop env n o target locs i meth k cnt c = Ok x -> mutate_loop env m o target locs i meth k cnt c = Ok x.
Proof.
  revert cnt c. induction k as [|k IH]; intros cnt c; cbn [mutate_loop]; [done|].
  destruct (FuzzStorage _ _ _ _). destruct (getConstantsTable _ _ _). intros H. apply rbind_Ok_inv in H as ([[stop cnt'] c1] & Hr & H).
  rewrite (run_loop_more _ _ _ _ _ _ Hr). cbn [rbind]. destruct stop; [done|by apply IH].
Qed.

Lemma FuzzContracts_more host enableUI w (s : R) c :
  FuzzContracts env n o target locs host enableUI w s = Ok c -> FuzzContracts env m o target locs host enableUI w s = Ok c.
Proof.
  assert (Hl : forall methods i (c x : Campaign R), method_loop env n o target locs methods i c = Ok x ->
    method_loop env m o target locs methods i c = Ok x).
  { induction methods as [|[name meth] methods IH]; intros i c0 x; cbn [method_loop]; [done|].
    destruct (Const meth); [apply IH|]. intros H. apply rbind_Ok_inv in H as (c1 & H1 & H).
    rewrite (mutate_loop_more _ _ _ _ _ _ H1). by apply IH. }
  unfold FuzzContracts. destruct (negb _); [done|]. destruct (_ && _); [done|]. destruct (getConstantsTable _ _ _).
  intros H. apply rbind_Ok_inv in H as (c1 & H1 & H). by rewrite (Hl _ _ _ _ H1).
Qed.

End More.

Definition overflow_target : SimpleContract :=
  mkSimpleContract "Overflow" bob (mkABI zeroMethod [("mint", mkMethod "mint" false [] [])] []).

(** The campaign on a contract that overflows, with the field-assigning copier. *)
Definition demo_campaign : result (Campaign Z) :=
  FuzzContracts (fuzz_env demo_crypto 0) 100 (quiet_oracles assign_fields) overflow_target [("supply", zeroHash)] demo_host false
    (demo_world add_overflow) 1.

(** Six reports are made, and each is justified. *)
Lemma campaign_sound_witness :
  exists c, FuzzContracts (fuzz_env demo_crypto 0) (Z.to_nat 100000000001) (quiet_oracles assign_fields)
    overflow_target [("supply", zeroHash)] demo_host false (demo_world add_overflow) 1 = Ok c /\
  length (cReports c) = 6%nat /\
  Forall (report_of (R := Z) (fuzz_env demo_crypto 0) overflow_target
    (justified (fuzz_env demo_crypto 0) (Z.to_nat 100000000001) (quiet_oracles assign_fields) overflow_target)) (cReports c).
Proof.
  assert (Hf : callGasLimit < Z.of_nat (Z.to_nat 100000000001)) by (unfold callGasLimit; rewrite Z2Nat.id; lia).
  destruct demo_campaign as [c| |] eqn:E; [|by vm_compute in E..].
  assert (Hn : length (cReports c) = 6%nat).
  { apply (f_equal (fun r => match r with Ok c => length (cReports c) | _ => 0%nat end)) in E. rewrite <-E. by vm_compute. }
  unfold demo_campaign in E. apply (FuzzContracts_more _ 100 (Z.to_nat 100000000001)) in E; [|apply Nat2Z.inj_le; unfold callGasLimit in Hf; lia].
  exists c. split; [exact E|]. split; [exact Hn|].
  apply (campaign_sound demo_crypto 0 (Z.to_nat 100000000001) (quiet_oracles assign_fields) overflow_target
    [("supply", zeroHash)] demo_host false (demo_world add_overflow) 1 c demo_crypto_ok Hf
    (assign_fields_ok (quiet_oracles assign_fields) eq_refl) (BigToAddress_ok _)).
  - apply Forall_cons_2; [|apply Forall_nil_2]. split; [apply Forall_nil_2|by vm_compute].
  - exact (demo_world_ok add_overflow eq_refl ltac:(vm_compute; reflexivity)).
  - exact E.
Defined.

(** ** The log file *)

(** Writes that fit in the buffer stay in it. *)
Lemma writes_buffered ps wr :
  len (w_buf wr) + len (concat ps) <= bufSize ->
  fold_left Writer_Write ps wr = mkWriter (w_buf wr ++ concat ps) (w_file wr).
Proof.
  revert wr. induction ps as [|p ps IH]; intros wr H; simpl.
  - rewrite app_nil_r. by destruct wr.
  - simpl in H. rewrite len_app in H. pose proof (len_nonneg (concat ps)).
    assert (E : Writer_Write wr p = mkWriter (w_buf wr ++ p) (w_file wr)).
    { unfold Writer_Write. destruct (Z.ltb_spec (bufSize - len (w_buf wr)) (len p)); [lia|done]. }
    rewrite E, IH; simpl; [by rewrite <- app_assoc|]. rewrite len_app. lia.
Qed.

Section Lost.
Context (env : Env) (fuel : nat) (o : Oracles) {R : Type} `{!Source R} (target : SimpleContract) (locs : list (string * Hash)) (B : Z).
Hypothesis HB : forall t, len (concat (Render o t)) <= B.

(** All that was written is in the buffer. *)
Definition buffered (c : Campaign R) : Prop :=
  w_file (cWriter c) = [] /\ len (w_buf (cWriter c)) <= B * len (cReports c).

Lemma GenTable_buffered sig cd w0 w wr s0 s reps r :
  buffered (mkCampaign w0 wr s0 reps) -> B * len (reps ++ [r]) <= bufSize ->
  let '(w', wr') := GenTable o target locs sig cd w wr in buffered (mkCampaign w' wr' s (reps ++ [r])).
Proof.
  unfold buffered, GenTable. simpl. rewrite len_app, len_single. intros [H1 H2] H3.
  destruct (storage_rows target locs w) as [rows w'].
  set (t := _ ++ _). pose proof (HB t).
  rewrite writes_buffered by lia. simpl. split; [done|]. rewrite len_app. lia.
Qed.

Lemma run_loop_buffered m meth n cnt c stop cnt' c' :
  0 <= B -> run_loop env fuel o target locs m meth n cnt c = Ok (stop, cnt', c') ->
  len (cReports c) <= len (cReports c') /\ cnt' - cnt = len (cReports c') - len (cReports c) /\
  (stop = true -> 5 < cnt') /\
  (stop = false -> buffered c -> B * len (cReports c') <= bufSize -> buffered c').
Proof.
  intros HB0. revert cnt c. induction n as [|n IH]; intros cnt c; cbn [run_loop].
  { intros [= <- <- <-]. split; [lia|]. split; [lia|]. by split. }
  intros H. apply rbind_Ok_inv in H as ([cd s] & _ & H). apply rbind_Ok_inv in H as ([b w] & _ & H). destruct b.
  - pose proof (GenTable_buffered (of_string (Sig meth)) (ToHex cd) (cWorld c) w (cWriter c) (cRand c) s (cReports c)
      (m, cd, cWorld c)) as Hg.
    destruct (GenTable _ _ _ _ _ _ _) as [w2 wr].
    assert (Hl : len (cReports c ++ [(m, cd, cWorld c)]) = len (cReports c) + 1) by by rewrite len_app.
    destruct (Z.ltb_spec 5 (cnt + 1)).
    + injection H as <- <- <-. cbn [cReports]. split; [lia|]. split; [lia|]. by split.
    + apply IH in H as (H1 & H2 & H3 & H4). cbn [cReports] in *. rewrite Hl in *.
      split; [lia|]. split; [lia|]. split; [done|]. intros Hs Hbuf HBl. apply H4; [done| |done].
      apply Hg; [by destruct c|]. nia.
  - destruct (Z.ltb_spec 5 cnt); [|by apply IH in H].
    injection H as <- <- <-. cbn [cReports]. split; [lia|]. split; [lia|]. by split.
Qed.

Lemma mutate_loop_buffered m meth n cnt c c' :
  0 <= B -> mutate_loop env fuel o target locs m meth n cnt c = Ok c' ->
  len (cReports c) <= len (cReports c') /\
  (cnt + len (cReports c') - len (cReports c) <= 5 -> buffered c -> B * len (cReports c') <= bufSize ->
   buffered c').
Proof.
  intros HB0. revert cnt c. induction n as [|n IH]; intros cnt c; cbn [mutate_loop]; [by intros [= <-]|].
  destruct (FuzzStorage target locs _ _) as [w1 s1]. destruct (getConstantsTable target locs _) as [rows w2]. intros H.
  apply rbind_Ok_inv in H as ([[stop cnt'] c1] & Hrun & H).
  apply run_loop_buffered in Hrun as (H1 & H2 & H3 & H4); [|done]. cbn [cReports] in *. destruct stop.
  - injection H as <-. split; [done|]. specialize (H3 eq_refl). lia.
  - apply IH in H as [H5 H6]. split; [lia|]. intros Hc Hbuf HBl. apply H6; [lia| |done].
    apply H4; [done|done|nia].
Qed.

End Lost.

(** reports are lost.  The buffered log is flushed only when a method
    reaches its sixth report, and not when the file is closed: if a method has
    at most five reports and they fit in the buffer, the log file stays empty. *)
Theorem few_reports_lost {R : Type} `{!Source R} env fuel o target locs B m meth n w (s : R) c :
  0 <= B -> (forall t, len (concat (Render o t)) <= B) ->
  mutate_loop env fuel o target locs m meth n 0 (mkCampaign w (mkWriter [] []) s []) = Ok c ->
  len (cReports c) <= 5 -> B * len (cReports c) <= bufSize ->
  w_file (cWriter c) = [].
Proof.
  intros HB0 HB H H1 H2. eapply mutate_loop_buffered in H as [_ H]; [|done|done].
  assert (buffered B c) as [Hfile _]; [|done]. apply H; [change (0 + len (cReports c) - 0 <= 5); lia| |done].
  split; [done|]. change (0 <= B * 0). lia.
Qed.

(** PUSH1 1, PUSH1 0, SUB, STOP when the last byte of the call data is below 9
    and STOP otherwise: three of the hundred runs underflow, as the input counts
    upwards from 6; each table has 200 bytes. *)
Definition underflowing : bytes :=
  [0x60; 9; 0x60; 4; 0x35; 0x10; 0x60; 10; 0x57; 0x00; 0x5b; 0x60; 1; 0x60; 0; 0x03; 0x00].
Definition loud_oracles : Oracles := mkOracles deep_copy (fun _ => [zeros 200]).
Definition counting : Method :=
  mkMethod "count" false [mkArgument "n" (mkType None (KUint W64) (GUint W64) 64 UintTy "uint64") false] [].
Definition three_start : Campaign Z := mkCampaign (demo_world underflowing) (mkWriter [] []) 6 [].
Definition three_reports : Campaign Z :=
  value_of (mutate_loop (fuzz_env demo_crypto 0) 100 loud_oracles overflow_target [] 0 counting 1 0 three_start) three_start.

Lemma few_reports_lost_witness :
  len (cReports three_reports) = 3 /\ len (w_buf (cWriter three_reports)) = 600 /\
  w_file (cWriter three_reports) = [].
Proof.
  split; [by vm_compute|]. split; [by vm_compute|].
  apply (few_reports_lost (fuzz_env demo_crypto 0) 100 loud_oracles overflow_target [] 200 0 counting 1
    (demo_world underflowing) 6 three_reports).
  - lia.
  - intros t. by vm_compute.
  - apply is_ok_value. by vm_compute.
  - by vm_compute.
  - by vm_compute.
Defined.

End FuzzerSpec.
