(* ===== verification/Dispatch.v ===== *)
(** * The dispatchers

    Translates [src/main.go]: [dispatcher] (used by [main]) and [main2] start
    workers that range over a channel of tasks, look at the path they are given,
    send a task for each file, and then wait for the workers and close the
    channel, in one order or the other.  A run is a path of the interleaving
    relation [step] between the main goroutine and the workers; the process can
    also end in a state ([exits]), by [log.Fatal] or because a task panics while
    it is made (in the main goroutine) or run (in a worker).

    What [os.Stat] and [ioutil.ReadDir] say of the path is an argument
    ([stat]); which tasks panic or do not return is a parameter
    ([fuzz_file_outcome] of [FuzzerSpec.v] says when those of [dispatcher] do).  Command line flags, the
    printed messages and the profiling server are left out. *)

From Stdlib Require Import String.
From stdpp Require Import base list numbers relations strings.
From S2P Require Import Prelude.

#[local] Open Scope nat_scope.

Module Dispatch.

(** What comes of running a task. *)
Inductive ending := Returns | Panics | Blocks.

Section Dispatch.
Context {task : Type} (new_panics : task -> bool) (run : task -> ending).

(** What is left of the main goroutine. *)
Inductive instr :=
| Send (t : task)
| Wait
| Close
| Fatal.

Inductive worker :=
| Receiving
| Running (t : task)
| Exited.

Record system := mkSystem {
  main : list instr;
  tasks : list task;
  closed : bool;
  wg : nat;
  workers : list worker;
  finished : list task
}.

(** [make(chan ..., 16)]. *)
Definition capacity : nat := 16.

(** The process after the workers have been started. *)
Definition started (n : nat) (k : list instr) : system := mkSystem k [] false n (replicate n Receiving) [].

Inductive step : system -> system -> Prop :=
| step_send t k q cl n ws d :
    new_panics t = false -> length q < capacity ->
    step (mkSystem (Send t :: k) q cl n ws d) (mkSystem k (q ++ [t]) cl n ws d)
| step_wait k q cl ws d :
    step (mkSystem (Wait :: k) q cl 0 ws d) (mkSystem k q cl 0 ws d)
| step_close k q n ws d :
    step (mkSystem (Close :: k) q false n ws d) (mkSystem k q true n ws d)
| step_receive k t q cl n ws d i :
    ws !! i = Some Receiving ->
    step (mkSystem k (t :: q) cl n ws d) (mkSystem k q cl n (<[i := Running t]> ws) d)
| step_run k q cl n ws d i t :
    ws !! i = Some (Running t) -> run t = Returns ->
    step (mkSystem k q cl n ws d) (mkSystem k q cl n (<[i := Receiving]> ws) (d ++ [t]))
| step_exit k n ws d i :
    ws !! i = Some Receiving ->
    step (mkSystem k [] true (S n) ws d) (mkSystem k [] true n (<[i := Exited]> ws) d).

(** The process ends here, with all its goroutines. *)
Inductive exits : system -> Prop :=
| exits_fatal k q cl n ws d : exits (mkSystem (Fatal :: k) q cl n ws d)
| exits_new t k q cl n ws d : new_panics t = true -> exits (mkSystem (Send t :: k) q cl n ws d)
| exits_run k q cl n ws d i t : ws !! i = Some (Running t) -> run t = Panics -> exits (mkSystem k q cl n ws d).

(** A worker is in a task that does not return. *)
Definition blocked (s : system) : Prop := exists t, Running t ∈ workers s /\ run t = Blocks.

(** ** Runs are finite *)

Definition instr_weight (x : instr) : nat := match x with Send _ => 4 | _ => 1 end.
Definition worker_weight (w : worker) : nat :=
  match w with Receiving => 1 | Running _ => 3 | Exited => 0 end.
Definition weight (s : system) : nat :=
  sum_list_with instr_weight (main s) + 3 * length (tasks s) + sum_list_with worker_weight (workers s).

Lemma sum_insert {A} (f : A -> nat) l i x y :
  l !! i = Some x -> sum_list_with f (<[i := y]> l) + f x = sum_list_with f l + f y.
Proof.
  revert i. induction l as [|z l IH]; intros [|i] H; simplify_eq/=; [lia|]. specialize (IH i H). lia.
Qed.

Lemma step_weight s s' : step s s' -> weight s' < weight s.
Proof.
  destruct 1 as [| | |k t q cl n ws d i H|k q cl n ws d i t H Hr|k n ws d i H]; unfold weight; simpl;
    rewrite ?length_app; simpl; try lia.
  - pose proof (sum_insert worker_weight ws i _ (Running t) H). simpl in *. lia.
  - pose proof (sum_insert worker_weight ws i _ Receiving H). simpl in *. lia.
  - pose proof (sum_insert worker_weight ws i _ Exited H). simpl in *. lia.
Qed.

(** ** Where the tasks are *)

Definition sends (k : list instr) : list task :=
  k ≫= fun x => match x with Send t => [t] | _ => [] end.
Definition running (ws : list worker) : list task :=
  ws ≫= fun w => match w with Running t => [t] | _ => [] end.
Definition all_tasks (s : system) : list task :=
  finished s ++ running (workers s) ++ tasks s ++ sends (main s).

Lemma running_insert ws i w x :
  ws !! i = Some w -> running (<[i := x]> ws) ++ running [w] ≡ₚ running ws ++ running [x].
Proof.
  revert i. induction ws as [|z ws IH]; intros [|i] H; simplify_eq/=; rewrite ?app_nil_r.
  - unfold running. simpl. rewrite <- app_assoc, Permutation_app_comm. apply Permutation_app_tail.
    apply Permutation_app_comm.
  - specialize (IH i H). simpl in IH. rewrite !app_nil_r in IH. unfold running in *. by rewrite <- !app_assoc, IH.
Qed.

Lemma step_tasks s s' : step s s' -> all_tasks s' ≡ₚ all_tasks s.
Proof.
  destruct 1 as [t k q cl n ws d _ _| | |k t q cl n ws d i H|k q cl n ws d i t H Hr|k n ws d i H];
    unfold all_tasks, sends; cbn [finished workers tasks main]; try done; apply Permutation_app_head || idtac.
  - simpl. by rewrite <- !app_assoc.
  - pose proof (running_insert ws i _ (Running t) H) as E. simpl in E. rewrite app_nil_r in E.
    rewrite E, <- app_assoc. done.
  - pose proof (running_insert ws i _ Receiving H) as E. simpl in E. rewrite app_nil_r in E.
    rewrite <- E, <- !app_assoc. simpl. apply Permutation_app_head. by rewrite Permutation_middle.
  - pose proof (running_insert ws i _ Exited H) as E. simpl in E. rewrite !app_nil_r in E. by rewrite E.
Qed.

Lemma rtc_invariant (I : system -> Prop) s s' :
  (forall s s', step s s' -> I s -> I s') -> I s -> rtc step s s' -> I s'.
Proof. intros H Hi. induction 1; eauto. Qed.

(** ** Workers *)

Definition live (w : worker) : Prop := match w with Exited => False | _ => True end.
#[local] Instance live_dec w : Decision (live w).
Proof. destruct w; simpl; apply _. Defined.

Lemma stuck_workers s w :
  nf step s -> ~ exits s -> ~ blocked s -> w ∈ workers s -> live w -> w = Receiving /\ tasks s = [].
Proof.
  destruct s as [k q cl n ws d]. simpl. intros Hs Hx Hb Hw Hl. apply list_elem_of_lookup in Hw as [i Hi].
  destruct w as [|t|]; [|destruct (run t) eqn:E|done].
  2: { destruct Hs. eexists. by eapply step_run. }
  2: { destruct Hx. by eapply exits_run. }
  2: { destruct Hb. exists t. split; [by eapply list_elem_of_lookup_2|done]. }
  split; [done|]. destruct q as [|t q]; [done|]. destruct Hs. eexists. by eapply step_receive.
Qed.

Lemma insert_live ws i w w' :
  ws !! i = Some w -> live w -> live w' -> Forall live ws -> Forall live (<[i := w']> ws).
Proof. intros. by apply Forall_insert. Qed.

(** ** Waiting before closing *)

Record dispatcher_inv (s : system) : Prop := {
  di_main : exists files, main s = (Send <$> files) ++ [Wait; Close];
  di_open : closed s = false;
  di_live : Forall live (workers s);
  di_one : workers s <> [];
  di_wg : wg s <> 0
}.

Lemma dispatcher_inv_step s s' : step s s' -> dispatcher_inv s -> dispatcher_inv s'.
Proof.
  intros H [[files Hm] Ho Hl H1 Hw].
  destruct H as [t k q cl n ws d _ _|k q cl ws d|k q n ws d|k t q cl n ws d i H|k q cl n ws d i t H Hr|k n ws d i H];
    simpl in *; subst; try done.
  - destruct files as [|f files]; [done|]. injection Hm as -> ->. split; simpl; try done. by exists files.
  - by destruct files.
  - split; simpl; try done; [by exists files|by eapply insert_live|].
    intros E. apply (f_equal length) in E. rewrite length_insert in E. by destruct ws.
  - split; simpl; try done; [by exists files|by eapply insert_live|].
    intros E. apply (f_equal length) in E. rewrite length_insert in E. by destruct ws.
Qed.

Lemma sends_files files k : sends ((Send <$> files) ++ k) = files ++ sends k.
Proof. induction files as [|f files IH]; simpl; [done|]. by rewrite <- IH. Qed.

Lemma live_idle s :
  nf step s -> ~ exits s -> ~ blocked s -> Forall live (workers s) -> running (workers s) = [].
Proof.
  intros Hs Hx Hb Hl. assert (Forall (fun w => w = Receiving) (workers s)) as H.
  { apply Forall_forall. intros w Hw. eapply Forall_forall in Hl; [|done].
    by destruct (stuck_workers s w Hs Hx Hb Hw Hl). }
  induction H as [|w ws -> _ IH]; [done|]. simpl. apply IH. by inversion Hl.
Qed.

Lemma running_elem ws t : Running t ∈ ws -> t ∈ running ws.
Proof. intros H. unfold running. apply list_elem_of_bind. exists (Running t). split; [constructor|done]. Qed.

Lemma running_all s t : Running t ∈ workers s -> t ∈ all_tasks s.
Proof. intros H%running_elem. unfold all_tasks. rewrite !elem_of_app. tauto. Qed.

Lemma started_tasks n k : all_tasks (started n k) = sends k.
Proof. unfold all_tasks. simpl. by induction n. Qed.

(** A panicking task is one of those that were to be executed. *)
Lemma exits_task s : exits s -> (exists k, main s = Fatal :: k) \/
  exists t, t ∈ all_tasks s /\ (new_panics t = true \/ run t = Panics).
Proof.
  destruct 1 as [|t k q cl n ws d Ht|k q cl n ws d i t Hi Ht]; [left; by eexists|right; exists t..].
  - split; [|by left]. unfold all_tasks, sends. simpl. set_solver.
  - split; [|by right]. apply running_all. by eapply list_elem_of_lookup_2.
Qed.

Lemma waits_first files s : rtc step (started 1 ((Send <$> files) ++ [Wait; Close])) s ->
  main s <> [] /\ (exits s -> exists t, t ∈ files /\ (new_panics t = true \/ run t = Panics)) /\
  (blocked s -> exists t, t ∈ files /\ run t = Blocks) /\
  (nf step s -> ~ exits s -> ~ blocked s -> main s = [Wait; Close] /\ workers s <> [] /\ Forall live (workers s) /\ tasks s = [] /\ finished s ≡ₚ files).
Proof.
  intros H. assert (Hinv : dispatcher_inv s /\ all_tasks s ≡ₚ files).
  { revert H. apply (rtc_invariant (fun s => dispatcher_inv s /\ all_tasks s ≡ₚ files)).
    - intros s1 s2 Hs [I1 I2]. split; [by eapply dispatcher_inv_step|]. by rewrite step_tasks.
    - split; [split; simpl; try done; [by exists files|by repeat constructor]|].
      rewrite started_tasks, sends_files. simpl. by rewrite app_nil_r. }
  destruct Hinv as [[[todo Hm] Ho Hl H1 Hw] Ht]. split; [rewrite Hm; by destruct todo|]. split.
  { intros [[k Hk]|(t & Hin & Hp)]%exits_task; [rewrite Hm in Hk; by destruct todo|]. exists t. by rewrite <-Ht. }
  split; [intros (t & Hin & Hp); exists t; split; [rewrite <-Ht; by apply running_all|done]|].
  intros Hs Hx Hb. destruct (workers s) as [|w ws] eqn:Ews; [done|].
  destruct (stuck_workers s w Hs Hx Hb) as [_ Hq]; [rewrite Ews; constructor|by inversion Hl|].
  assert (Hr : running (workers s) = []) by (apply live_idle; [done|done|done|by rewrite Ews]).
  unfold all_tasks in Ht. rewrite Hr, Hq, Hm, sends_files in Ht. simpl in Ht.
  destruct todo as [|f todo].
  - rewrite app_nil_r in Ht. by repeat split.
  - exfalso. destruct s as [k q cl n ws' d]. simpl in *. subst.
    destruct (new_panics f) eqn:E; [apply Hx; by apply exits_new|]. apply Hs. eexists.
    apply step_send; [done|]. simpl. unfold capacity. lia.
Qed.

(** Nothing happens without tasks before the channel is closed. *)
Lemma started_stuck n k s : k = [] \/ k = [Fatal] -> rtc step (started n k) s -> s = started n k.
Proof.
  intros Hk H. inversion H as [|? s1 ? Hs]; [done|]. exfalso. clear H. unfold started in Hs.
  inversion Hs as [| | | |? ? ? ? ? ? i t Hi|]; subst; try (by destruct Hk).
  apply lookup_replicate in Hi as [? _]. done.
Qed.

Lemma started_not_blocked n k : ~ blocked (started n k).
Proof. intros (t & Hin & _). simpl in Hin. apply elem_of_replicate in Hin as [? _]. done. Qed.

Lemma started_exits n : ~ exits (started n []).
Proof. intros Hx. inversion Hx as [| |? ? ? ? ? ? i t Hi]; subst. apply lookup_replicate in Hi as [? _]. done. Qed.

(** ** Closing before waiting *)

Definition alive (w : worker) : nat := match w with Exited => 0 | _ => 1 end.

(** The main goroutine and the channel, in the three phases. *)
Inductive phase : system -> Prop :=
| phase_send files q n ws d :
    Forall live ws -> phase (mkSystem ((Send <$> files) ++ [Close; Wait]) q false n ws d)
| phase_wait q n ws d : phase (mkSystem [Wait] q true n ws d)
| phase_end q ws d : phase (mkSystem [] q true 0 ws d).

Record main2_inv (s : system) : Prop := {
  mi_phase : phase s;
  mi_wg : wg s = sum_list_with alive (workers s);
  mi_drained : Exited ∈ workers s -> tasks s = [];
  mi_some : workers s <> []
}.

Lemma insert_not_nil {A} (l : list A) i x : l <> [] -> <[i := x]> l <> [].
Proof. intros H E. apply (f_equal length) in E. rewrite length_insert in E. by destruct l. Qed.

Lemma Exited_insert (ws : list worker) (i : nat) w :
  w <> Exited -> Exited ∈ <[i := w]> ws -> Exited ∈ ws.
Proof.
  intros Hw [j Hj]%list_elem_of_lookup. destruct (decide (i = j)) as [->|].
  - apply list_lookup_insert_Some in Hj as [(_ & -> & _)|[? _]]; done.
  - rewrite list_lookup_insert_ne in Hj by done. by eapply list_elem_of_lookup_2.
Qed.

Lemma Forall_live_alive ws : Forall live ws -> Exited ∉ ws.
Proof. intros H E. by eapply Forall_forall in E; [|exact H]. Qed.

Lemma main2_inv_step s s' : step s s' -> main2_inv s -> main2_inv s'.
Proof.
  intros H [Hp Hw Hd H1].
  destruct H as [t k q cl n ws d _ _|k q cl ws d|k q n ws d|k t q cl n ws d i H|k q cl n ws d i t H Hr|k n ws d i H];
    simpl in *.
  - inversion Hp as [files ? ? ? ? Hl Hm| |]. destruct files as [|f files]; [done|].
    injection Hm as -> <-. split; simpl; try done; [by constructor|].
    intros E. by destruct (Forall_live_alive ws).
  - inversion Hp as [files ? ? ? ? Hl Hm| |]; subst; [by destruct files|]. split; simpl; try done. constructor.
  - inversion Hp as [files ? ? ? ? Hl Hm| |]. destruct files as [|f files]; [|done].
    injection Hm as <-. split; simpl; try done. constructor.
  - pose proof (sum_insert alive ws i _ (Running t) H) as E. simpl in E.
    split; simpl; [|lia| |by apply insert_not_nil].
    + inversion Hp as [files ? ? ? ? Hl Hm| |]; subst; constructor. by eapply insert_live.
    + intros Hex%Exited_insert; [|done]. by specialize (Hd Hex).
  - pose proof (sum_insert alive ws i _ Receiving H) as E. simpl in E.
    split; simpl; [|lia| |by apply insert_not_nil].
    + inversion Hp as [files ? ? ? ? Hl Hm| |]; subst; constructor. by eapply insert_live.
    + intros Hex%Exited_insert; [|done]. by specialize (Hd Hex).
  - pose proof (sum_insert alive ws i _ Exited H) as E. simpl in E.
    split; simpl; [|lia|done|by apply insert_not_nil].
    inversion Hp; subst; [constructor].
Qed.

Lemma started_inv n files : n <> 0 -> main2_inv (started n ((Send <$> files) ++ [Close; Wait])).
Proof.
  intros Hn. split; simpl.
  - constructor. apply Forall_replicate. done.
  - clear Hn. induction n as [|n IH]; simpl; [done|]. by rewrite <-IH.
  - intros H. apply elem_of_replicate in H as [? _]. done.
  - by destruct n.
Qed.

(** Nobody left to run anything. *)
Lemma all_exited ws : Forall (fun w => w = Exited) ws -> running ws = [] /\ sum_list_with alive ws = 0.
Proof. induction 1 as [|w ws -> _ [IH1 IH2]]; [done|]. done. Qed.

Lemma closes_first n files s : n <> 0 -> rtc step (started n ((Send <$> files) ++ [Close; Wait])) s ->
  (exits s -> exists t, t ∈ files /\ (new_panics t = true \/ run t = Panics)) /\
  (blocked s -> exists t, t ∈ files /\ run t = Blocks) /\
  (nf step s -> ~ exits s -> ~ blocked s -> main s = [] /\ finished s ≡ₚ files /\ Forall (fun w => w = Exited) (workers s)).
Proof.
  intros Hn H. assert (Hinv : main2_inv s /\ all_tasks s ≡ₚ files).
  { revert H. apply (rtc_invariant (fun s => main2_inv s /\ all_tasks s ≡ₚ files)).
    - intros s1 s2 Hst [I1 I2]. split; [by eapply main2_inv_step|]. by rewrite step_tasks.
    - split; [by apply started_inv|].
      rewrite started_tasks, sends_files. simpl. by rewrite app_nil_r. }
  destruct Hinv as [[Hp Hw Hd H1] Ht]. split.
  { intros [[k Hk]|(t & Hin & Hp')]%exits_task; [|exists t; by rewrite <-Ht].
    destruct Hp as [todo| |]; simpl in Hk; [by destruct todo|done|done]. }
  split; [intros (t & Hin & Hp'); exists t; split; [rewrite <-Ht; by apply running_all|done]|].
  intros Hs Hx Hb.
  assert (Hex : closed s = true -> Forall (fun w => w = Exited) (workers s)).
  { intros Hc. apply Forall_forall. intros w Hin. destruct (decide (live w)) as [Hl|Hl]; [|by destruct w].
    destruct (stuck_workers s w Hs Hx Hb Hin Hl) as [-> Hq]. exfalso.
    apply list_elem_of_lookup in Hin as [i Hi]. pose proof (sum_insert alive _ i _ Exited Hi) as E.
    destruct s as [k q cl n0 ws d]. simpl in *. subst. apply Hs. simpl in E.
    destruct (sum_list_with alive ws) as [|m]; [lia|]. eexists. by apply (step_exit k m ws d i). }
  destruct Hp as [todo q n0 ws d Hl|q n0 ws d|q ws d]; simpl in *.
  - exfalso. destruct ws as [|w ws]; [done|].
    destruct (stuck_workers _ w Hs Hx Hb) as [_ Hq]; [constructor|by inversion Hl|]. simpl in Hq. subst q.
    destruct todo as [|t todo]; [apply Hs; eexists; apply step_close|].
    destruct (new_panics t) eqn:E; [apply Hx; by apply exits_new|].
    apply Hs; eexists; apply step_send; [done|simpl; unfold capacity; lia].
  - exfalso. destruct (all_exited _ (Hex eq_refl)) as [_ E]. rewrite E in Hw. subst n0.
    apply Hs. eexists. apply step_wait.
  - split; [done|]. destruct (all_exited _ (Hex eq_refl)) as [E _].
    split; [|by apply Hex]. unfold all_tasks in Ht. simpl in Ht. rewrite E in Ht.
    destruct ws as [|w ws]; [done|]. specialize (Hex eq_refl).
    rewrite Hd in Ht by (inversion Hex; subst; constructor). by rewrite !app_nil_r in Ht.
Qed.

End Dispatch.

(** ** The two programs *)

(** What is found at a path: an error of [os.Stat], a directory with its files or
    an error of [ReadDir], a regular file, or something else. *)
Inductive stat :=
| StatError
| Directory (files : option (list string))
| Regular
| OtherMode.

(** Nothing is sent: the path or the directory cannot be read. *)
Definition stat_fails (fi : stat) : Prop := fi = StatError \/ fi = Directory None.
#[local] Instance stat_fails_dec fi : Decision (stat_fails fi).
Proof. destruct fi as [|[]| |]; [left; by left|right; by intros [|]|left; by right|right; by intros [|]..]. Defined.

(** A file by its directory and its name, joined by [path.Join], or by its path. *)
Inductive file := InDir (dir name : string) | AtPath (path : string).

(** What [NewContractFuzzer] is called with. *)
Record fuzz_task := mkTask { solcpath : string; contractpath : file; logpath : string; enableUI : bool }.

Definition dispatcher_tasks (solcpath contractpath logpath : string) (fi : stat) : list fuzz_task :=
  match fi with
  | Directory (Some files) => (fun f => mkTask solcpath (InDir contractpath f) logpath false) <$> files
  | Regular => [mkTask solcpath (AtPath contractpath) logpath true]
  | _ => []
  end.

Definition dispatcher (solcpath contractpath logpath : string) (fi : stat) : system :=
  started 1
    match fi with
    | StatError => []
    | Directory None => [Fatal]
    | _ => (Send <$> dispatcher_tasks solcpath contractpath logpath fi) ++ [Wait; Close]
    end.

(** The arguments of the compiler. *)
Definition main2_tasks (contractPath : string) (fi : stat) : list string :=
  match fi with
  | Directory (Some files) =>
      (fun f => contractPath ++ f)%string <$> filter (fun f => String.index 0 "itMaps.sol" f = None) files
  | Regular => [contractPath]
  | _ => []
  end.

Definition main2 (contractPath : string) (fi : stat) : system :=
  started 6
    match fi with
    | StatError => []
    | Directory None => [Fatal]
    | _ => (Send <$> main2_tasks contractPath fi) ++ [Close; Wait]
    end.

(** C13: [dispatcher] returns only when [os.Stat] fails.  In every other case its
    runs, which are all finite, end in one of three ways: the process exits,
    because the directory cannot be read or a task panics; a task does not
    return; or the process is left in a deadlock with all tasks executed, the
    main goroutine waiting for the worker and the worker for another task, since
    the channel is closed only after the wait. *)
Theorem dispatcher_outcome (new_panics : fuzz_task -> bool) (run : fuzz_task -> ending) solcpath contractpath logpath fi s :
  rtc (step new_panics run) (dispatcher solcpath contractpath logpath fi) s ->
  let todo := dispatcher_tasks solcpath contractpath logpath fi in
  (forall s', step new_panics run s s' -> weight s' < weight s) /\
  (main s = [] <-> fi = StatError) /\
  (exits new_panics run s ->
     fi = Directory None \/ exists t, t ∈ todo /\ (new_panics t = true \/ run t = Panics)) /\
  (blocked run s -> exists t, t ∈ todo /\ run t = Blocks) /\
  (nf (step new_panics run) s -> ~ exits new_panics run s -> ~ blocked run s -> fi <> StatError ->
     main s = [Wait; Close] /\ workers s <> [] /\ Forall live (workers s) /\ tasks s = [] /\ finished s ≡ₚ todo).
Proof.
  intros H todo. split; [intros s' Hs; by eapply step_weight|].
  destruct (decide (stat_fails fi)) as [Hf|Hf].
  - unfold dispatcher in H. apply started_stuck in H as ->; [|destruct Hf as [-> | ->]; auto].
    split; [by destruct Hf as [-> | ->]|]. split; [|split; [intros Hb; by apply started_not_blocked in Hb|]].
    + intros Hx. left. destruct Hf as [-> | ->]; [|done]. by apply started_exits in Hx.
    + intros _ Hx _ Hn. destruct Hf as [-> | ->]; [done|]. destruct Hx. constructor.
  - unfold dispatcher in H. assert (rtc (step new_panics run) (started 1 ((Send <$> todo) ++ [Wait; Close])) s) as Hr
      by (destruct fi as [|[files|]| |]; [destruct Hf; by left|done|destruct Hf; by right|done|done]).
    destruct (waits_first _ _ _ _ Hr) as (A1 & A2 & A3 & A4).
    split; [split; [done|]; intros ->; destruct Hf; by left|]. auto.
Qed.

(** [main2], which closes the channel first, returns unless a task keeps it from
    that: every run is finite, and ends with the process, in a task that does not
    return, or with all tasks executed and all workers gone. *)
Theorem main2_outcome (new_panics : string -> bool) (run : string -> ending) contractPath fi s :
  rtc (step new_panics run) (main2 contractPath fi) s ->
  let todo := main2_tasks contractPath fi in
  (forall s', step new_panics run s s' -> weight s' < weight s) /\
  (exits new_panics run s ->
     fi = Directory None \/ exists t, t ∈ todo /\ (new_panics t = true \/ run t = Panics)) /\
  (blocked run s -> exists t, t ∈ todo /\ run t = Blocks) /\
  (nf (step new_panics run) s -> ~ exits new_panics run s -> ~ blocked run s ->
     main s = [] /\ finished s ≡ₚ todo /\ (fi <> StatError -> Forall (fun w => w = Exited) (workers s))).
Proof.
  intros H todo. split; [intros s' Hs; by eapply step_weight|].
  destruct (decide (stat_fails fi)) as [Hf|Hf].
  - unfold main2 in H. apply started_stuck in H as ->; [|destruct Hf as [-> | ->]; auto].
    split; [|split; [intros Hb; by apply started_not_blocked in Hb|]].
    + intros Hx. left. destruct Hf as [-> | ->]; [|done]. by apply started_exits in Hx.
    + intros _ Hx _. destruct Hf as [-> | ->]; [done|]. destruct Hx. constructor.
  - unfold main2 in H. destruct (closes_first new_panics run 6 todo s) as (A2 & A3 & A4);
      [done|destruct fi as [|[files|]| |]; [destruct Hf; by left|done|destruct Hf; by right|done|done]|].
    split; [auto|]. split; [done|]. intros Hn Hx Hb. destruct (A4 Hn Hx Hb) as (? & ? & ?). auto.
Qed.

(** A directory with two files on the one worker of [dispatcher], run to the
    deadlock. *)
Definition no_panic {A} (_ : A) : bool := false.
Definition two_files : stat := Directory (Some ["a.sol"; "b.sol"]).
Definition task_a : fuzz_task := mkTask "solc" (InDir "src" "a.sol") "log" false.
Definition task_b : fuzz_task := mkTask "solc" (InDir "src" "b.sol") "log" false.
Definition two_done : @system fuzz_task := mkSystem [Wait; Close] [] false 1 [Receiving] [task_a; task_b].

Definition returns {A} (_ : A) : ending := Returns.

Lemma two_done_reached : rtc (step no_panic returns) (dispatcher "solc" "src" "log" two_files) two_done.
Proof.
  eapply rtc_l; [by apply (step_send _ _ task_a); [|unfold capacity; simpl; lia]|].
  eapply rtc_l; [by apply (step_send _ _ task_b); [|unfold capacity; simpl; lia]|].
  eapply rtc_l; [by apply (step_receive _ _ _ task_a _ _ _ _ _ 0)|].
  eapply rtc_l; [by apply (step_run _ _ _ _ _ _ _ _ 0 task_a)|].
  eapply rtc_l; [by apply (step_receive _ _ _ task_b _ _ _ _ _ 0)|].
  eapply rtc_l; [by apply (step_run _ _ _ _ _ _ _ _ 0 task_b)|]. apply rtc_refl.
Qed.

Lemma two_done_stuck : nf (step no_panic returns) two_done.
Proof. intros [s' H]. inversion H as [| | | |? ? ? ? ? ? [|[|i]]|]; by simplify_eq/=. Qed.

Lemma calm_exits {A} (s : @system A) : exits no_panic returns s -> exists k, main s = Fatal :: k.
Proof. by destruct 1; [eexists|..]. Qed.

Lemma calm_blocked {A} (s : @system A) : ~ blocked returns s.
Proof. by intros (t & _ & ?). Qed.

Lemma dispatcher_outcome_witness : main two_done <> [] /\ finished two_done ≡ₚ [task_a; task_b].
Proof.
  destruct (dispatcher_outcome no_panic returns "solc" "src" "log" two_files two_done two_done_reached)
    as (_ & H1 & _ & _ & H2).
  split; [by intros E%H1|]. apply (H2 two_done_stuck); [by intros [k ?]%calm_exits|apply calm_blocked|done].
Defined.

(** A file on the six workers of [main2], run to the end. *)
Definition one_done : @system string := mkSystem [] [] true 0 (replicate 6 Exited) ["a.sol"].

Lemma one_done_reached : rtc (step no_panic returns) (main2 "a.sol" Regular) one_done.
Proof.
  eapply rtc_l; [by apply (step_send _ _ "a.sol"); [|unfold capacity; simpl; lia]|].
  eapply rtc_l; [by apply (step_receive _ _ _ "a.sol" _ _ _ _ _ 2)|].
  eapply rtc_l; [by apply (step_run _ _ _ _ _ _ _ _ 2 "a.sol")|].
  eapply rtc_l; [by apply step_close|].
  eapply rtc_l; [by apply (step_exit _ _ _ _ _ _ 0)|].
  eapply rtc_l; [by apply (step_exit _ _ _ _ _ _ 1)|].
  eapply rtc_l; [by apply (step_exit _ _ _ _ _ _ 2)|].
  eapply rtc_l; [by apply (step_exit _ _ _ _ _ _ 3)|].
  eapply rtc_l; [by apply (step_exit _ _ _ _ _ _ 4)|].
  eapply rtc_l; [by apply (step_exit _ _ _ _ _ _ 5)|].
  eapply rtc_l; [by apply step_wait|]. apply rtc_refl.
Qed.

Lemma one_done_stuck : nf (step no_panic returns) one_done.
Proof.
  intros [s' H]. inversion H as [| | | |? ? ? ? ? ? i ? Hi|]; simplify_eq/=.
  by destruct i as [|[|[|[|[|[|i]]]]]].
Qed.

Lemma main2_outcome_witness : main one_done = [] /\ finished one_done ≡ₚ ["a.sol"].
Proof.
  destruct (main2_outcome no_panic returns "a.sol" Regular one_done one_done_reached) as (_ & _ & _ & H).
  destruct (H one_done_stuck) as (H1 & H2 & _); [by intros [k ?]%calm_exits|apply calm_blocked|].
  split; [exact H1|exact H2].
Defined.

End Dispatch.
