(* ===== verification/Laws.v ===== *)
(** * Laws of the data types, the database and the precompiled contracts

    Round trips of the encodings, conservation of value by transfers, and the
    functional correctness of the modular exponentiation contract. *)

From stdpp Require Import base list numbers gmap option.
From S2P Require Import Prelude BigInt Types Params StateDB Machine Precompiles Spec.
From S2P Require Import ExecSpec PrecompileSpec.

#[local] Open Scope Z_scope.
#[local] Open Scope go_scope.

Module Laws.
Import Big Common StateDB Vm Precompiles Spec Concrete ExecSpec PrecompileSpec.

(** ** Modular exponentiation *)

Lemma getData_middle p d s :
  len p + len d + len s < two63 -> getData (p ++ d ++ s) (len p) (len d) = Ok d.
Proof.
  intros H. pose proof (len_nonneg p). pose proof (len_nonneg d). pose proof (len_nonneg s).
  unfold getData. rewrite !len_app.
  destruct (Z.ltb_spec (len p + (len d + len s)) (len p)); [lia|].
  rewrite u64_id by (unfold is_u64, two63, two64 in *; lia).
  destruct (Z.ltb_spec (len p + (len d + len s)) (len p + len d)); [lia|].
  rewrite slice_Ok by (rewrite ?len_app; lia). cbn [rbind].
  rewrite RightPadBytes_spec, i64_id by (unfold two63 in *; lia). f_equal.
  assert (E : take (Z.to_nat (len p + len d - len p)) (drop (Z.to_nat (len p)) (p ++ d ++ s)) = d).
  { unfold len. rewrite Nat2Z.id, drop_app_length.
    replace (Z.to_nat _) with (length d) by lia. by rewrite take_app_length. }
  rewrite E. unfold zeros. replace (Z.to_nat _) with 0%nat by lia. apply app_nil_r.
Qed.

(** The word-encoded lengths, then the operands. *)
Definition modexp_input (bs es ms : bytes) : bytes :=
  be 32 (len bs) ++ be 32 (len es) ++ be 32 (len ms) ++ bs ++ es ++ ms.

Lemma getInt_middle p d s input :
  input = p ++ d ++ s -> len p + len d + len s < two63 -> getInt input (len p) (len d) = Ok (SetBytes d).
Proof. intros -> H. unfold getInt. by rewrite getData_middle. Qed.

Lemma getInt_word p x s input :
  input = p ++ be 32 x ++ s -> 0 <= x < two63 -> len p + 32 + len s < two63 ->
  getInt input (len p) 32 = Ok x.
Proof.
  intros -> Hx H. pose proof (getInt_middle p (be 32 x) s _ eq_refl) as E. rewrite len_be in E.
  change (Z.of_nat 32) with 32 in E. rewrite E by done. f_equal. rewrite SetBytes_be. apply Z.mod_small.
  split; [lia|]. apply Z.lt_le_trans with two63; [lia|]. by vm_compute.
Qed.

Lemma LeftPadBytes_be n x : 0 <= x < 256 ^ Z.of_nat n -> LeftPadBytes (Bytes x) (Z.of_nat n) = be n x.
Proof.
  intros Hx. rewrite LeftPadBytes_spec. pose proof (len_Bytes_bound x (Z.of_nat n) ltac:(lia) Hx) as Hl.
  rewrite len_Bytes in *. unfold Bytes, zeros. rewrite Z.abs_eq by lia.
  pose proof (BitLen_nonneg x). assert (0 <= (BitLen x + 7) / 8) by (apply Z.div_pos; lia).
  set (k := (BitLen x + 7) / 8) in *.
  replace n with (Z.to_nat (Z.of_nat n - k) + Z.to_nat k)%nat at 2 by lia.
  symmetry. apply be_pad. split; [lia|]. rewrite Z2Nat.id by done.
  pose proof (SetBytes_bound (Bytes x) (Bytes_ok x)) as Hb. rewrite SetBytes_Bytes, len_Bytes, Z.abs_eq in Hb by lia.
  apply Hb.
Qed.

(** The operands are where [Run] looks for them. *)
Lemma modexp_operands bs es ms :
  len bs + len es + len ms < two63 - 96 ->
  let input := modexp_input bs es ms in
  getInt input 0 32 = Ok (len bs) /\ getInt input 32 32 = Ok (len es) /\
  getInt input 64 32 = Ok (len ms) /\
  (len bs + len es + len ms <> 0 -> modexp_body input = Ok (bs ++ es ++ ms)).
Proof.
  intros H input. pose proof (len_nonneg bs). pose proof (len_nonneg es). pose proof (len_nonneg ms).
  assert (Hlen : forall x, len (be 32 x) = 32) by (intros; apply len_be).
  repeat split.
  - apply (getInt_word [] (len bs) (be 32 (len es) ++ be 32 (len ms) ++ bs ++ es ++ ms)); [done|lia|].
    rewrite !len_app, !Hlen, len_nil. lia.
  - rewrite <- (Hlen (len bs)) at 1. apply (getInt_word _ (len es) (be 32 (len ms) ++ bs ++ es ++ ms)); [done|lia|].
    rewrite !len_app, !Hlen. lia.
  - assert (E : len (be 32 (len bs) ++ be 32 (len es)) = 64) by (by rewrite len_app, !Hlen).
    rewrite <- E at 1. apply (getInt_word _ (len ms) (bs ++ es ++ ms)); [|lia|].
    + unfold input, modexp_input. by rewrite <- app_assoc.
    + rewrite E, !len_app. lia.
  - intros Hne. unfold modexp_body.
    assert (Hl : len input = 96 + (len bs + (len es + len ms)))
      by (unfold input, modexp_input; rewrite !len_app, !Hlen; lia).
    rewrite Hl. destruct (Z.ltb_spec 96 (96 + (len bs + (len es + len ms)))); [|lia].
    rewrite slice_Ok by lia. f_equal.
    unfold input, modexp_input. rewrite !app_assoc, <- (app_assoc _ bs es), <- (app_assoc _ (bs ++ es)).
    rewrite drop_app_length' by (rewrite !length_app, !length_be; done). apply take_ge.
    rewrite !length_app. unfold len. lia.
Qed.

(** the modular exponentiation contract is correct: on the operands [bs],
    [es] and [ms], preceded by their lengths, with a non-zero modulus, it
    returns base^exponent mod modulus, big-endian, in exactly as many bytes as
    the modulus has. *)
Theorem modexp_correct bs es ms :
  bytes_ok bs -> bytes_ok es -> bytes_ok ms -> len bs + len es + len ms < two63 - 96 ->
  SetBytes ms <> 0 ->
  bigModExp_Run (modexp_input bs es ms) =
  Ok (be (length ms) (SetBytes bs ^ SetBytes es mod SetBytes ms), None).
Proof.
  intros Hb He Hm Hlen Hmod. pose proof (modexp_operands bs es ms Hlen) as (E1 & E2 & E3 & E4).
  pose proof (len_nonneg bs). pose proof (len_nonneg es). pose proof (len_nonneg ms).
  pose proof (SetBytes_bound ms Hm) as Hms.
  assert (Hpos : 0 < len ms).
  { destruct ms; [done|]. rewrite len_cons. pose proof (len_nonneg ms). lia. }
  unfold bigModExp_Run. rewrite E1, E2, E3. cbn [rbind]. rewrite E4 by lia. cbn [rbind].
  rewrite !Uint64_id by (unfold is_u64, two63, two64 in *; lia).
  destruct (Z.eqb_spec (len ms) 0); [lia|]. rewrite andb_false_r.
  rewrite (getInt_middle [] bs (es ++ ms)) by (try done; rewrite len_app, len_nil; lia). cbn [rbind].
  rewrite (getInt_middle bs es ms) by (try done; lia). cbn [rbind].
  rewrite u64_id by (unfold is_u64, two63, two64 in *; lia). rewrite <- (len_app bs es).
  rewrite (getInt_middle (bs ++ es) ms []) by (rewrite ?app_nil_r, ?len_app, ?len_nil, <- ?app_assoc; done || lia).
  cbn [rbind]. unfold BitLen at 1. destruct (Z.eqb_spec (SetBytes ms) 0); [done|].
  pose proof (Z.log2_nonneg (Z.abs (SetBytes ms))).
  destruct (Z.eqb_spec (Z.log2 (Z.abs (SetBytes ms)) + 1) 0); [lia|].
  rewrite i64_id, expMod_spec by lia. do 2 f_equal. apply LeftPadBytes_be.
  pose proof (Z.mod_pos_bound (SetBytes bs ^ SetBytes es) (SetBytes ms)). fold (len ms). lia.
Qed.

Lemma modexp_correct_witness : bigModExp_Run (modexp_input [3] [2; 1] [1; 0]) = Ok ([0; 3], None).
Proof.
  rewrite (modexp_correct [3] [2; 1] [1; 0]); [by vm_compute|..|by vm_compute|by vm_compute];
    by repeat (apply Forall_cons_2; [by vm_compute|]); apply Forall_nil_2.
Defined.

(** ** Value transfers *)

(** a transfer that [CanTransfer] admits moves exactly the amount: no
    balance becomes negative, and the sum of all balances only grows by the 100
    units with which the check itself credits the sender. *)
Theorem transfer_conserves st a b v st1 :
  db_ok st -> 0 <= v -> CanTransfer st a v = (true, st1) ->
  db_ok (Transfer st1 a b v) /\
  total (StateMap (Transfer st1 a b v)) = total (StateMap st) + 100 /\
  (a <> b ->
    balance (account_at (Transfer st1 a b v) a) = balance (account_at st a) + 100 - v /\
    balance (account_at (Transfer st1 a b v) b) = balance (account_at st b) + v).
Proof.
  intros Hok Hv Hcan. apply CanTransfer_true in Hcan as (-> & Hle & [s Hs]).
  split; [apply Transfer_ok; [apply AddBalance_ok; [done|lia]|lia]|].
  split; [rewrite total_Transfer by (by exists s); apply total_AddBalance|].
  intros Hab. unfold Transfer. rewrite !account_at_AddBalance. destruct (decide (a = a)); [|done].
  destruct (decide (b = a)); [done|]. destruct (decide (b = b)); [|done].
  unfold SubBalance. rewrite Hs, !account_at_setAccount.
  destruct (decide (a = a)); [|done]. destruct (decide (a = b)); [done|].
  assert (E : s = account_at (AddBalance st a 100) a) by (unfold account_at; by rewrite Hs).
  rewrite E, !account_at_AddBalance. destruct (decide (a = a)); [|done].
  destruct (decide (a = b)); [done|]. simpl. lia.
Qed.

Lemma transfer_conserves_witness :
  total (StateMap (Transfer (snd (CanTransfer New alice 60)) alice bob 60)) = 100.
Proof.
  destruct (transfer_conserves New alice bob 60 (snd (CanTransfer New alice 60))) as (_ & H & _);
    [apply New_ok|lia|by vm_compute|exact H].
Defined.

(** ** Encodings *)

(** hexadecimal text and words round-trip: [FromHex] inverts [ToHex] on
    every non-empty byte string (the empty string comes back as one zero
    byte), and [BigToHash] inverts [Hash.Big] on every 32-byte hash. *)
Theorem encodings_round_trip b h :
  bytes_ok b -> hash_ok h ->
  FromHex (ToHex b) = (match b with [] => [0] | _ => b end) /\ BigToHash (Hash_Big h) = h.
Proof.
  intros Hb Hh. split; [|by apply BigToHash_Hash_Big].
  destruct b as [|x b]; [done|]. set (d := x :: b) in *.
  assert (Hl : len (Bytes2Hex d) = 2 * len d).
  { clear. induction d as [|y d IH]; [done|].
    change (Bytes2Hex (y :: d)) with (hexDigit (y / 16) :: hexDigit (y mod 16) :: Bytes2Hex d).
    rewrite !len_cons. lia. }
  assert (Hd : len d = 1 + len b) by (unfold d; apply len_cons). pose proof (len_nonneg b).
  unfold ToHex. destruct (Z.eqb_spec (len (Bytes2Hex d)) 0); [lia|]. unfold FromHex.
  change (hasHexPrefix (48 :: 120 :: Bytes2Hex d)) with true. cbv iota.
  change (drop 2 (48 :: 120 :: Bytes2Hex d)) with (Bytes2Hex d). rewrite Hl, Z.mul_comm, Z.mod_mul by lia. change (0 =? 1) with false.
  cbv iota. by rewrite Hex2Bytes_Bytes2Hex.
Qed.

Lemma encodings_round_trip_witness : FromHex (ToHex [0; 255]) = [0; 255] /\ BigToHash (Hash_Big zeroHash) = zeroHash.
Proof.
  apply (encodings_round_trip [0; 255] zeroHash); [|apply zeroHash_ok].
  repeat (apply Forall_cons_2; [by vm_compute|]). apply Forall_nil_2.
Defined.

End Laws.
