(* ===== verification/OpNames.v ===== *)
(** * Names of the opcodes

    Translates the name tables of [src/core/vm/opcodes.go], with [String] and
    [StringToOp], and compares them with the jump table. *)

From Stdlib Require Import String.
From stdpp Require Import base list numbers option strings.
From S2P Require Import Prelude Opcodes Machine Instructions JumpTable Interp Spec.

#[local] Open Scope Z_scope.

Module OpNames.
Import Op Vm Instr Table.

(** "Unofficial opcodes used for parsing". *)
Definition PUSH : Z := 0xb0.
Definition DUP : Z := 0xb1.
Definition SWAP : Z := 0xb2.

Definition opCodeToString : list (Z * string) := [
  (STOP, "STOP"%string); (ADD, "ADD"%string); (MUL, "MUL"%string); (SUB, "SUB"%string);
  (DIV, "DIV"%string); (SDIV, "SDIV"%string); (MOD, "MOD"%string); (SMOD, "SMOD"%string);
  (EXP, "EXP"%string); (NOT, "NOT"%string); (LT, "LT"%string); (GT, "GT"%string);
  (SLT, "SLT"%string); (SGT, "SGT"%string); (EQ, "EQ"%string); (ISZERO, "ISZERO"%string);
  (SIGNEXTEND, "SIGNEXTEND"%string); (AND, "AND"%string); (OR, "OR"%string); (XOR, "XOR"%string);
  (BYTE, "BYTE"%string); (ADDMOD, "ADDMOD"%string); (MULMOD, "MULMOD"%string);
  (SHA3, "SHA3"%string); (ADDRESS, "ADDRESS"%string); (BALANCE, "BALANCE"%string);
  (ORIGIN, "ORIGIN"%string); (CALLER, "CALLER"%string); (CALLVALUE, "CALLVALUE"%string);
  (CALLDATALOAD, "CALLDATALOAD"%string); (CALLDATASIZE, "CALLDATASIZE"%string);
  (CALLDATACOPY, "CALLDATACOPY"%string); (CODESIZE, "CODESIZE"%string);
  (CODECOPY, "CODECOPY"%string); (GASPRICE, "GASPRICE"%string); (EXTCODESIZE, "EXTCODESIZE"%string);
  (EXTCODECOPY, "EXTCODECOPY"%string); (RETURNDATASIZE, "RETURNDATASIZE"%string);
  (RETURNDATACOPY, "RETURNDATACOPY"%string); (BLOCKHASH, "BLOCKHASH"%string);
  (COINBASE, "COINBASE"%string); (TIMESTAMP, "TIMESTAMP"%string); (NUMBER, "NUMBER"%string);
  (DIFFICULTY, "DIFFICULTY"%string); (GASLIMIT, "GASLIMIT"%string); (POP, "POP"%string);
  (MLOAD, "MLOAD"%string); (MSTORE, "MSTORE"%string); (MSTORE8, "MSTORE8"%string);
  (SLOAD, "SLOAD"%string); (SSTORE, "SSTORE"%string); (JUMP, "JUMP"%string);
  (JUMPI, "JUMPI"%string); (PC, "PC"%string); (MSIZE, "MSIZE"%string); (GAS, "GAS"%string);
  (JUMPDEST, "JUMPDEST"%string); (PUSH1, "PUSH1"%string); (PUSH2, "PUSH2"%string);
  (PUSH3, "PUSH3"%string); (PUSH4, "PUSH4"%string); (PUSH5, "PUSH5"%string);
  (PUSH6, "PUSH6"%string); (PUSH7, "PUSH7"%string); (PUSH8, "PUSH8"%string);
  (PUSH9, "PUSH9"%string); (PUSH10, "PUSH10"%string); (PUSH11, "PUSH11"%string);
  (PUSH12, "PUSH12"%string); (PUSH13, "PUSH13"%string); (PUSH14, "PUSH14"%string);
  (PUSH15, "PUSH15"%string); (PUSH16, "PUSH16"%string); (PUSH17, "PUSH17"%string);
  (PUSH18, "PUSH18"%string); (PUSH19, "PUSH19"%string); (PUSH20, "PUSH20"%string);
  (PUSH21, "PUSH21"%string); (PUSH22, "PUSH22"%string); (PUSH23, "PUSH23"%string);
  (PUSH24, "PUSH24"%string); (PUSH25, "PUSH25"%string); (PUSH26, "PUSH26"%string);
  (PUSH27, "PUSH27"%string); (PUSH28, "PUSH28"%string); (PUSH29, "PUSH29"%string);
  (PUSH30, "PUSH30"%string); (PUSH31, "PUSH31"%string); (PUSH32, "PUSH32"%string);
  (DUP1, "DUP1"%string); (DUP2, "DUP2"%string); (DUP3, "DUP3"%string); (DUP4, "DUP4"%string);
  (DUP5, "DUP5"%string); (DUP6, "DUP6"%string); (DUP7, "DUP7"%string); (DUP8, "DUP8"%string);
  (DUP9, "DUP9"%string); (DUP10, "DUP10"%string); (DUP11, "DUP11"%string); (DUP12, "DUP12"%string);
  (DUP13, "DUP13"%string); (DUP14, "DUP14"%string); (DUP15, "DUP15"%string);
  (DUP16, "DUP16"%string); (SWAP1, "SWAP1"%string); (SWAP2, "SWAP2"%string);
  (SWAP3, "SWAP3"%string); (SWAP4, "SWAP4"%string); (SWAP5, "SWAP5"%string);
  (SWAP6, "SWAP6"%string); (SWAP7, "SWAP7"%string); (SWAP8, "SWAP8"%string);
  (SWAP9, "SWAP9"%string); (SWAP10, "SWAP10"%string); (SWAP11, "SWAP11"%string);
  (SWAP12, "SWAP12"%string); (SWAP13, "SWAP13"%string); (SWAP14, "SWAP14"%string);
  (SWAP15, "SWAP15"%string); (SWAP16, "SWAP16"%string); (LOG0, "LOG0"%string);
  (LOG1, "LOG1"%string); (LOG2, "LOG2"%string); (LOG3, "LOG3"%string); (LOG4, "LOG4"%string);
  (CREATE, "CREATE"%string); (CALL, "CALL"%string); (RETURN, "RETURN"%string);
  (CALLCODE, "CALLCODE"%string); (DELEGATECALL, "DELEGATECALL"%string);
  (STATICCALL, "STATICCALL"%string); (REVERT, "REVERT"%string);
  (SELFDESTRUCT, "SELFDESTRUCT"%string); (PUSH, "PUSH"%string); (DUP, "DUP"%string);
  (SWAP, "SWAP"%string)
].

(** The name of an opcode, empty if it has none. *)
Definition op_name (o : Z) : string :=
  match List.find (fun p => p.1 =? o) opCodeToString with Some (_, s) => s | None => "" end.

(** [fmt.Sprintf("0x%x", n)] of a byte. *)
Definition hex_byte (n : Z) : string :=
  let digit d := String (Ascii.ascii_of_nat (Z.to_nat (if d <? 10 then 48 + d else 87 + d))) EmptyString in
  if n <? 16 then digit n else String.append (digit (n / 16)) (digit (n mod 16)).

Definition OpCode_String (o : Z) : string :=
  let str := op_name o in
  if Nat.eqb (String.length str) 0 then String.append "Missing opcode 0x" (hex_byte o) else str.

Definition stringToOp : list (string * Z) := [
  ("STOP"%string, STOP); ("ADD"%string, ADD); ("MUL"%string, MUL); ("SUB"%string, SUB);
  ("DIV"%string, DIV); ("SDIV"%string, SDIV); ("MOD"%string, MOD); ("SMOD"%string, SMOD);
  ("EXP"%string, EXP); ("NOT"%string, NOT); ("LT"%string, LT); ("GT"%string, GT);
  ("SLT"%string, SLT); ("SGT"%string, SGT); ("EQ"%string, EQ); ("ISZERO"%string, ISZERO);
  ("SIGNEXTEND"%string, SIGNEXTEND); ("AND"%string, AND); ("OR"%string, OR); ("XOR"%string, XOR);
  ("BYTE"%string, BYTE); ("ADDMOD"%string, ADDMOD); ("MULMOD"%string, MULMOD);
  ("SHA3"%string, SHA3); ("ADDRESS"%string, ADDRESS); ("BALANCE"%string, BALANCE);
  ("ORIGIN"%string, ORIGIN); ("CALLER"%string, CALLER); ("CALLVALUE"%string, CALLVALUE);
  ("CALLDATALOAD"%string, CALLDATALOAD); ("CALLDATASIZE"%string, CALLDATASIZE);
  ("CALLDATACOPY"%string, CALLDATACOPY); ("DELEGATECALL"%string, DELEGATECALL);
  ("STATICCALL"%string, STATICCALL); ("CODESIZE"%string, CODESIZE); ("CODECOPY"%string, CODECOPY);
  ("GASPRICE"%string, GASPRICE); ("EXTCODESIZE"%string, EXTCODESIZE);
  ("EXTCODECOPY"%string, EXTCODECOPY); ("RETURNDATASIZE"%string, RETURNDATASIZE);
  ("RETURNDATACOPY"%string, RETURNDATACOPY); ("BLOCKHASH"%string, BLOCKHASH);
  ("COINBASE"%string, COINBASE); ("TIMESTAMP"%string, TIMESTAMP); ("NUMBER"%string, NUMBER);
  ("DIFFICULTY"%string, DIFFICULTY); ("GASLIMIT"%string, GASLIMIT); ("POP"%string, POP);
  ("MLOAD"%string, MLOAD); ("MSTORE"%string, MSTORE); ("MSTORE8"%string, MSTORE8);
  ("SLOAD"%string, SLOAD); ("SSTORE"%string, SSTORE); ("JUMP"%string, JUMP);
  ("JUMPI"%string, JUMPI); ("PC"%string, PC); ("MSIZE"%string, MSIZE); ("GAS"%string, GAS);
  ("JUMPDEST"%string, JUMPDEST); ("PUSH1"%string, PUSH1); ("PUSH2"%string, PUSH2);
  ("PUSH3"%string, PUSH3); ("PUSH4"%string, PUSH4); ("PUSH5"%string, PUSH5);
  ("PUSH6"%string, PUSH6); ("PUSH7"%string, PUSH7); ("PUSH8"%string, PUSH8);
  ("PUSH9"%string, PUSH9); ("PUSH10"%string, PUSH10); ("PUSH11"%string, PUSH11);
  ("PUSH12"%string, PUSH12); ("PUSH13"%string, PUSH13); ("PUSH14"%string, PUSH14);
  ("PUSH15"%string, PUSH15); ("PUSH16"%string, PUSH16); ("PUSH17"%string, PUSH17);
  ("PUSH18"%string, PUSH18); ("PUSH19"%string, PUSH19); ("PUSH20"%string, PUSH20);
  ("PUSH21"%string, PUSH21); ("PUSH22"%string, PUSH22); ("PUSH23"%string, PUSH23);
  ("PUSH24"%string, PUSH24); ("PUSH25"%string, PUSH25); ("PUSH26"%string, PUSH26);
  ("PUSH27"%string, PUSH27); ("PUSH28"%string, PUSH28); ("PUSH29"%string, PUSH29);
  ("PUSH30"%string, PUSH30); ("PUSH31"%string, PUSH31); ("PUSH32"%string, PUSH32);
  ("DUP1"%string, DUP1); ("DUP2"%string, DUP2); ("DUP3"%string, DUP3); ("DUP4"%string, DUP4);
  ("DUP5"%string, DUP5); ("DUP6"%string, DUP6); ("DUP7"%string, DUP7); ("DUP8"%string, DUP8);
  ("DUP9"%string, DUP9); ("DUP10"%string, DUP10); ("DUP11"%string, DUP11); ("DUP12"%string, DUP12);
  ("DUP13"%string, DUP13); ("DUP14"%string, DUP14); ("DUP15"%string, DUP15);
  ("DUP16"%string, DUP16); ("SWAP1"%string, SWAP1); ("SWAP2"%string, SWAP2);
  ("SWAP3"%string, SWAP3); ("SWAP4"%string, SWAP4); ("SWAP5"%string, SWAP5);
  ("SWAP6"%string, SWAP6); ("SWAP7"%string, SWAP7); ("SWAP8"%string, SWAP8);
  ("SWAP9"%string, SWAP9); ("SWAP10"%string, SWAP10); ("SWAP11"%string, SWAP11);
  ("SWAP12"%string, SWAP12); ("SWAP13"%string, SWAP13); ("SWAP14"%string, SWAP14);
  ("SWAP15"%string, SWAP15); ("SWAP16"%string, SWAP16); ("LOG0"%string, LOG0);
  ("LOG1"%string, LOG1); ("LOG2"%string, LOG2); ("LOG3"%string, LOG3); ("LOG4"%string, LOG4);
  ("CREATE"%string, CREATE); ("CALL"%string, CALL); ("RETURN"%string, RETURN);
  ("CALLCODE"%string, CALLCODE); ("REVERT"%string, REVERT); ("SELFDESTRUCT"%string, SELFDESTRUCT)
].

(** A missing name reads as the zero value, [STOP]. *)
Definition StringToOp (str : string) : Z :=
  match List.find (fun p => String.eqb p.1 str) stringToOp with Some (_, o) => o | None => STOP end.

(** ** The names and the instruction set agree *)

Definition official (o : Z) : bool :=
  negb (Nat.eqb (String.length (op_name o)) 0) && negb ((PUSH <=? o) && (o <=? SWAP)).

Definition names_agree (v : Z -> bool) (o : Z) : bool :=
  Bool.eqb (v o) (official o) && (negb (v o) || (StringToOp (OpCode_String o) =? o)).

(** A test that holds of the 256 bytes holds of every byte. *)
Lemma byte_cases (P : Z -> bool) :
  forallb (fun k => P (Z.of_nat k)) (seq 0 256) = true -> forall o, byte_ok o -> P o = true.
Proof.
  intros H o [H1 H2]. rewrite forallb_forall in H. rewrite <- (Z2Nat.id o H1). apply H.
  apply List.in_seq. lia.
Qed.

(** the opcode names are those of the instruction set: a byte has an
    official name (not one of the parser's PUSH, DUP and SWAP) exactly when it
    is an instruction of the Byzantium table, and then parsing its name gives
    the opcode back. *)
Theorem opcode_names env ops o :
  byte_ok o ->
  let v := valid (lookup_op (NewByzantiumInstructionSet env ops) o) in
  (v = true <-> official o = true) /\ (v = true -> StringToOp (OpCode_String o) = o).
Proof.
  intros Ho.
  assert (H : names_agree (fun o => valid (lookup_op (NewByzantiumInstructionSet env ops) o)) o = true).
  { revert o Ho. apply byte_cases. by vm_compute. }
  unfold names_agree in H. cbv zeta. set (v := valid _) in *. clearbody v.
  destruct v, (official o); try done. simpl in H. apply Z.eqb_eq in H. done.
Qed.

Lemma opcode_names_witness : StringToOp (OpCode_String 0x7f) = 0x7f.
Proof.
  apply (opcode_names (Concrete.demo_env true) (Interp.machine (Concrete.demo_env true) 1) 0x7f);
    by vm_compute.
Defined.

End OpNames.
