(* ===== verification/AbiFields.v ===== *)
(** * ABI: storing unpacked values

    Translates [ABI.Unpack] of [src/accounts/abi/abi.go], [Arguments.Unpack],
    [unpackTuple], [unpackAtomic] and [capitalise] of [argument.go], and [set],
    [requireAssignable], [requireUnpackKind] and [mapAbiToStructFields] of
    [reflect.go].

    The caller's variables are a tree ([cell]); storing returns the tree with
    the variables changed.  A [*big.Int] is a plain value, other pointers are
    [CPtr] and [CNil]; structs have no embedded fields and names are ASCII. *)

From Stdlib Require Import String Ascii.
From stdpp Require Import base list numbers option strings gmap.
From S2P Require Import Prelude BigInt Types AbiTypes AbiPack AbiUnpack.

#[local] Open Scope go_scope.

Module AbiFields.
Import Big Common AbiTypes AbiPack AbiUnpack.

(** ** Variables *)

Inductive cell :=
| CVal (v : gval)
| CPtr (c : cell)
| CNil (e : gtyp)
| CIface (c : option cell)                         (* an interface and the value in it *)
| CList (t : gtyp) (cs : list cell)                (* of a slice or array type *)
| CStruct (fs : list (string * option string * cell)).  (* name, abi tag, variable *)

Definition cell_kind (c : cell) : kind :=
  match c with
  | CVal v => val_kind v
  | CPtr _ | CNil _ => KPtr
  | CIface _ => KInterface
  | CList t _ => kind_of t
  | CStruct _ => KStruct
  end.

Abbreviation fields := (list (string * option string * cell)) (only parsing).

Inductive storeErr :=
| ofUnpack (err : unpackErr)
| emptyOutput | badOutputFormat | unknownName
| nonPointer | insufficientElements | intoKind
| cannotUnmarshal | wrongLength
| emptyTag (field : string) | alreadyMapped (field : string) | tagNotFound (tag : string)
| underscored | multipleVariables (name : string) | multipleOutputs (field : string).

(** ** Pairing arguments and fields *)

Definition is_lower (c : ascii) : bool := let n := nat_of_ascii c in (97 <=? n)%nat && (n <=? 122)%nat.
Definition is_upper (c : ascii) : bool := let n := nat_of_ascii c in (65 <=? n)%nat && (n <=? 90)%nat.
Definition ToUpper (c : ascii) : ascii := if is_lower c then ascii_of_nat (nat_of_ascii c - 32) else c.

Fixpoint capitalise (input : string) : string :=
  match input with
  | EmptyString => EmptyString
  | String c rest => if Ascii.eqb c "_" then capitalise rest else String (ToUpper c) rest
  end.

(** [structFieldName[:1] != strings.ToUpper(structFieldName[:1])]. *)
Definition private (name : string) : bool :=
  match name with String c _ => negb (Ascii.eqb c (ToUpper c)) | EmptyString => false end.

(** A field Go lets [reflect] set. *)
Definition exported (name : string) : bool :=
  match name with String c _ => is_upper c | EmptyString => false end.

Fixpoint field_named (fs : fields) (name : string) : option cell :=
  match fs with
  | [] => None
  | (n, _, c) :: fs => if String.eqb n name then Some c else field_named fs name
  end.

(** The zero value of a map is the empty name. *)
Definition mapped (m : gmap string string) (k : string) : string := default EmptyString (m !! k).

Abbreviation pairing := (gmap string string * gmap string string)%type (only parsing).

(** The arguments that have the tag's name. *)
Fixpoint pair_tag (structFieldName tagName : string) (args : list Argument) (found : bool) (m : pairing) : storeErr + bool * pairing :=
  match args with
  | [] => inr (found, m)
  | abiField :: args =>
      let '(abi2struct, struct2abi) := m in
      if String.eqb (ArgName abiField) tagName then
        if negb (String.eqb (mapped abi2struct (ArgName abiField)) "") then inl (alreadyMapped structFieldName)
        else pair_tag structFieldName tagName args true
               (<[ArgName abiField := structFieldName]> abi2struct, <[structFieldName := ArgName abiField]> struct2abi)
      else pair_tag structFieldName tagName args found m
  end.

Fixpoint first_round (args : list Argument) (fs : fields) (m : pairing) : storeErr + pairing :=
  match fs with
  | [] => inr m
  | (structFieldName, tag, _) :: fs =>
      if private structFieldName then first_round args fs m
      else
        match tag with
        | None => first_round args fs m
        | Some tagName =>
            if String.eqb tagName "" then inl (emptyTag structFieldName)
            else
              match pair_tag structFieldName tagName (NonIndexed args) false m with
              | inl err => inl err
              | inr (found, m) => if (found : bool) then first_round args fs m else inl (tagNotFound tagName)
              end
        end
  end.

Fixpoint second_round (fs : fields) (args : list Argument) (m : pairing) : storeErr + pairing :=
  match args with
  | [] => inr m
  | arg :: args =>
      let '(abi2struct, struct2abi) := m in
      let abiFieldName := ArgName arg in
      let structFieldName := capitalise abiFieldName in
      let valid := bool_decide (is_Some (field_named fs structFieldName)) in
      if String.eqb structFieldName "" then inl underscored
      else if negb (String.eqb (mapped abi2struct abiFieldName) "") then
        if negb (String.eqb (mapped abi2struct abiFieldName) structFieldName) &&
           String.eqb (mapped struct2abi structFieldName) "" && valid
        then inl (multipleVariables abiFieldName)
        else second_round fs args m
      else if negb (String.eqb (mapped struct2abi structFieldName) "") then inl (multipleOutputs structFieldName)
      else
        second_round fs args
          (if valid then <[abiFieldName := structFieldName]> abi2struct else abi2struct, <[structFieldName := abiFieldName]> struct2abi)
  end.

Definition mapAbiToStructFields (args : list Argument) (fs : fields) : storeErr + gmap string string :=
  match first_round args fs (∅, ∅) with
  | inl err => inl err
  | inr m => match second_round fs args m with inl err => inl err | inr (abi2struct, _) => inr abi2struct end
  end.

(** ** Assigning *)

Definition underlying (t : gtyp) : gtyp :=
  match t with GAddress => GArray 20 (GUint W8) | GHash => GArray 32 (GUint W8) | _ => t end.
Definition named (t : gtyp) : bool := match t with GPtr _ | GSlice _ | GArray _ _ => false | _ => true end.

(** [Type.AssignableTo] of types that are not interfaces. *)
Definition AssignableTo (a b : gtyp) : bool :=
  bool_decide (a = b) || (bool_decide (underlying a = underlying b) && negb (named a && named b)).

(** The value in a variable of the type. *)
Definition retype (t : gtyp) (v : gval) : gval := match v with VArray _ vs => VArray t vs | _ => v end.

(** [set]; a variable that may not be set is a panic, and so is a nil pointer
    on the way. *)
Fixpoint set (settable : bool) (dst : cell) (src : gval) : result (storeErr + cell) :=
  let assign t := if settable then Ok (inr (CVal (retype t src))) else Panic in
  match dst with
  | CVal v =>
      if AssignableTo (typ_of v) (typ_of src) then assign (typ_of v)
      else match v with VNil _ => Panic | _ => Ok (inl cannotUnmarshal) end
  | CIface _ => if settable then Ok (inr (CIface (Some (CVal src)))) else Panic
  | CPtr c => let? r := set true c src in Ok match r with inl err => inl err | inr c => inr (CPtr c) end
  | CNil _ => Panic
  | CList t _ => if AssignableTo t (typ_of src) then assign t else Ok (inl cannotUnmarshal)
  | CStruct _ => Ok (inl cannotUnmarshal)
  end.

Definition requireAssignable (dst : cell) : option storeErr :=
  match cell_kind dst with KPtr | KInterface => None | _ => Some cannotUnmarshal end.

(** The elements of a list destination. *)
Definition cells_of (c : cell) : list cell :=
  match c with
  | CList _ cs => cs
  | CVal (VSlice _ vs) | CVal (VArray _ vs) => CVal <$> vs
  | _ => []
  end.

Definition requireUnpackKind (value : cell) (args : list Argument) : option storeErr :=
  match cell_kind value with
  | KStruct => None
  | KSlice | KArray => if (length (cells_of value) <? LengthNonIndexed args)%nat then Some insufficientElements else None
  | _ => Some intoKind
  end.

(** [set(v.Elem(), ...)] for a pointer or an interface [v]. *)
Definition set_elem (v : cell) (src : gval) : result (storeErr + cell) :=
  match v with
  | CPtr c => let? r := set true c src in Ok match r with inl err => inl err | inr c => inr (CPtr c) end
  | CIface (Some c) => let? r := set false c src in Ok match r with inl err => inl err | inr c => inr (CIface (Some c)) end
  | CVal (VBigPtr _) | CVal (VNewBig _) => Ok (inl cannotUnmarshal)   (* a big.Int *)
  | _ => Panic
  end.

Fixpoint set_field (fs : fields) (name : string) (c : cell) : fields :=
  match fs with
  | [] => []
  | (n, t, d) :: fs => if String.eqb n name then (n, t, c) :: fs else (n, t, d) :: set_field fs name c
  end.

(** One argument into its field. *)
Definition store_field (abi2struct : gmap string string) (arg : Argument) (v : gval) (fs : fields) : result (storeErr + fields) :=
  match abi2struct !! ArgName arg with
  | None => Ok (inr fs)
  | Some structField =>
      match field_named fs structField with
      | None => Panic
      | Some c =>
          let? r := set (exported structField) c v in
          Ok match r with inl err => inl err | inr c => inr (set_field fs structField c) end
      end
  end.

Fixpoint tuple_fields (abi2struct : gmap string string) (args : list Argument) (vs : list gval) (fs : fields) : result (storeErr + fields) :=
  match args with
  | [] => Ok (inr fs)
  | arg :: args =>
      let? v := index vs 0 in
      let? r := store_field abi2struct arg v fs in
      match r with
      | inl err => Ok (inl err)
      | inr fs => tuple_fields abi2struct args (drop 1 vs) fs
      end
  end.

(** From element number [i] on. *)
Fixpoint tuple_elems (i : nat) (args : list Argument) (vs : list gval) (cs : list cell) : result (storeErr + list cell) :=
  match args with
  | [] => Ok (inr cs)
  | arg :: args =>
      let? v := index vs (Z.of_nat i) in
      if (length cs <? i)%nat then Ok (inl insufficientElements)
      else
        let? c := index cs (Z.of_nat i) in
        match requireAssignable c with
        | Some err => Ok (inl err)
        | None =>
            let? r := set_elem c v in
            match r with
            | inl err => Ok (inl err)
            | inr c => tuple_elems (S i) args vs (<[i := c]> cs)
            end
        end
  end.

Definition unpackTuple (arguments : list Argument) (value : cell) (vs : list gval) : result (storeErr + cell) :=
  match requireUnpackKind value arguments with
  | Some err => Ok (inl err)
  | None =>
      match value with
      | CStruct fs =>
          match mapAbiToStructFields arguments fs with
          | inl err => Ok (inl err)
          | inr abi2struct =>
              let? r := tuple_fields abi2struct (NonIndexed arguments) vs fs in
              Ok match r with inl err => inl err | inr fs => inr (CStruct fs) end
          end
      | CList t cs =>
          let? r := tuple_elems 0 (NonIndexed arguments) vs cs in
          Ok match r with inl err => inl err | inr cs => inr (CList t cs) end
      | _ =>                                         (* its elements are values: none can be set *)
          let? r := tuple_elems 0 (NonIndexed arguments) vs (cells_of value) in
          Ok match r with inl err => inl err | inr _ => inr value end
      end
  end.

Definition unpackAtomic (arguments : list Argument) (elem : cell) (vs : list gval) : result (storeErr + cell) :=
  match vs with
  | [v] =>
      match elem with
      | CStruct fs =>
          match mapAbiToStructFields arguments fs with
          | inl err => Ok (inl err)
          | inr abi2struct =>
              let? arg := index (NonIndexed arguments) 0 in
              let? r := store_field abi2struct arg v fs in
              Ok match r with inl err => inl err | inr fs => inr (CStruct fs) end
          end
      | _ => let? _ := index (NonIndexed arguments) 0 in set true elem v
      end
  | _ => Ok (inl wrongLength)
  end.

(** The fields of a [big.Int]. *)
Definition big_struct : cell := CStruct [("neg", None, CVal (VBool false)); ("abs", None, CVal (VSlice (GUint WInt) []))]%string.

(** [Arguments.Unpack]: [v] is the argument itself. *)
Definition Unpack (arguments : list Argument) (v : cell) (data : bytes) : result (storeErr + cell) :=
  if negb (bool_decide (cell_kind v = KPtr)) then Ok (inl nonPointer)
  else
    let? r := UnpackValues arguments data in
    match r with
    | inl err => Ok (inl (ofUnpack err))
    | inr vs =>
        let store := if isTuple arguments then unpackTuple arguments else unpackAtomic arguments in
        match v with
        | CPtr c => let? r := store c vs in Ok match r with inl err => inl err | inr c => inr (CPtr c) end
        | CVal (VBigPtr _) | CVal (VNewBig _) =>     (* nothing of a big.Int is set *)
            let? r := store big_struct vs in Ok match r with inl err => inl err | inr _ => inr v end
        | _ =>                                       (* a nil pointer *)
            if negb (isTuple arguments) && negb (length vs =? 1)%nat then Ok (inl wrongLength) else Panic
        end
    end.

Definition ABI_Unpack (abi : ABI) (v : cell) (name : string) (output : bytes) : result (storeErr + cell) :=
  if (len output =? 0)%Z then Ok (inl emptyOutput)
  else
    match lookup_named (Methods abi) name with
    | Some method =>
        if negb (len output mod 32 =? 0)%Z then Ok (inl badOutputFormat)
        else Unpack (Outputs method) v output
    | None =>
        match lookup_named (Events abi) name with
        | Some event => Unpack (EInputs event) v output
        | None => Ok (inl unknownName)
        end
    end.

(** ** The pairing *)










(** ** Filling a struct *)



(** *** Where the arguments go *)









(** *** What is stored *)









(** one output unpacked into a [*big.Int], instead of a pointer to one, is lost:
    the call succeeds and the integer is not changed, because its private
    fields are taken for those of a struct that has no field of the output's
    name. *)
Theorem unpack_into_big_lost (arg : Argument) (z : Z) (data : bytes) (v : gval) :
  Indexed arg = false -> capitalise (ArgName arg) ∉ ["neg"; "abs"; ""]%string ->
  UnpackValues [arg] data = Ok (inr [v]) ->
  Unpack [arg] (CVal (VNewBig z)) data = Ok (inr (CVal (VNewBig z))).
Proof.
  intros Hi Hc Hv. rewrite !not_elem_of_cons in Hc. destruct Hc as (H1 & H2 & H3 & _).
  assert (Hr : second_round [("neg", None, CVal (VBool false)); ("abs", None, CVal (VSlice (GUint WInt) []))]%string [arg] (∅, ∅) =
    inr (∅, {[capitalise (ArgName arg) := ArgName arg]})).
  { cbn [second_round field_named]. rewrite (proj2 (String.eqb_neq _ _) H3), (proj2 (String.eqb_neq "neg" _)), (proj2 (String.eqb_neq "abs" _)) by done.
    unfold mapped. rewrite !lookup_empty. done. }
  unfold Unpack, big_struct. cbn [cell_kind val_kind typ_of kind_of]. rewrite bool_decide_true by done. rewrite Hv. cbn [rbind negb isTuple length Nat.ltb Nat.leb unpackAtomic].
  change (mapAbiToStructFields [arg] _) with (match second_round [("neg", None, CVal (VBool false)); ("abs", None, CVal (VSlice (GUint WInt) []))]%string [arg] (∅, ∅) with
    inl err => inl err | inr (a, _) => inr a end). rewrite Hr.
  unfold NonIndexed. rewrite filter_cons_True by done. done.
Qed.

Lemma unpack_into_big_lost_witness :
  Unpack [mkArgument "x" (mkType None KPtr (GPtr GBig) 256 UintTy "uint256") false]%string (CVal (VNewBig 3)) (replicate 31 0%Z ++ [9%Z]) =
  Ok (inr (CVal (VNewBig 3))).
Proof.
  apply (unpack_into_big_lost _ 3 _ (VNewBig 9)); [reflexivity| |vm_compute; reflexivity].
  by apply (bool_decide_unpack _).
Defined.

End AbiFields.
