(* ===== verification/AbiRound.v ===== *)
(** * ABI: unpacking what was packed

    On the encoding of supported arguments [Arguments.UnpackValues] returns
    their values ([UnpackValues_encode]). *)

From Stdlib Require Import String Ascii Lia.
From stdpp Require Import base list numbers option strings.
From S2P Require Import Prelude BigInt Types AbiTypes AbiPack AbiUnpack AbiNames AbiSpec.

#[local] Open Scope Z_scope.
#[local] Open Scope go_scope.

Module AbiRound.
Import Big Common AbiTypes AbiPack AbiUnpack AbiNames AbiSpec.

(** ** Abstract values and their Go values *)

(** The values of a type, after the Go type that carries them. *)
Inductive has : aty -> aval -> Prop :=
| has_uint n w : is_word w -> (forall k, int_width n = Some k -> w < 2 ^ width_bits k) -> has (AUint n) (ANum w)
| has_int n w : is_word w ->
    (forall k, int_width n = Some k -> exists z, w = U256 z /\ - 2 ^ (width_bits k - 1) <= z < 2 ^ (width_bits k - 1)) -> has (AInt n) (ANum w)
| has_bool b : has ABool (AFlag b)
| has_address b : length b = 20%nat -> bytes_ok b -> has AAddress (ARaw b)
| has_fixed n b : len b = n -> bytes_ok b -> has (AFixed n) (ARaw b)
| has_function b : length b = 24%nat -> bytes_ok b -> has AFunction (ARaw b)
| has_string b : bytes_ok b -> has AString (ARaw b)
| has_bytes b : bytes_ok b -> has ABytes (ARaw b)
| has_slice t l : Forall (has t) l -> has (ASlice t) (AList l)
| has_array n t l : len l = n -> Forall (has t) l -> has (AArray n t) (AList l).

(** What unpacking returns: integers that no Go type holds come back as
    unsigned words. *)
Fixpoint godata (t : aty) (x : aval) : gval :=
  match t, x with
  | AUint n, ANum w => match int_width n with Some k => VUint k w | None => VNewBig w end
  | AInt n, ANum w => match int_width n with Some k => VInt k (S256 w) | None => VNewBig w end
  | ABool, AFlag b => VBool b
  | AAddress, ARaw b => VArray GAddress (byte_vals b)
  | AFixed n, ARaw b => VArray (GArray n (GUint W8)) (byte_vals b)
  | AFunction, ARaw b => VArray (GArray 24 (GUint W8)) (byte_vals b)
  | AString, ARaw b => VString b
  | ABytes, ARaw b => VSlice (GUint W8) (byte_vals b)
  | ASlice t, AList l => VSlice (gotype t) (godata t <$> l)
  | AArray n t, AList l => VArray (GArray n (gotype t)) (godata t <$> l)
  | _, _ => VBool false
  end.

Lemma typ_of_godata t x : has t x -> typ_of (godata t x) = gotype t.
Proof.
  destruct 1; try done; simpl; unfold reflectIntKindAndType; destruct (int_width n); done.
Qed.

(** ** One word *)

Lemma slice_at (pre mid post : bytes) i j : i = len pre -> j = i + len mid -> slice (pre ++ mid ++ post) i j = Ok mid.
Proof. intros -> ->. by apply slice_mid. Qed.

Lemma slice_front (mid post : bytes) j : len mid = j -> slice (mid ++ post) 0 j = Ok mid.
Proof. intros <-. by apply (slice_at [] mid post). Qed.

Lemma SetBytes_word w : is_word w -> SetBytes (be 32 w) = w.
Proof.
  intros Hw. rewrite SetBytes_be. apply Z.mod_small. unfold is_word, two256 in Hw. change (256 ^ Z.of_nat 32) with (2 ^ 256). lia.
Qed.

Lemma int_width_cases n k : int_width n = Some k -> k <> WInt.
Proof. unfold int_width. repeat (destruct (_ =? _); [by intros [= <-]|]). done. Qed.

(** The low bytes of a word. *)
Lemma low_bytes w k : k <> WInt -> slice (be 32 w) (len (be 32 w) - width_bytes k) (len (be 32 w)) = Ok (be (Z.to_nat (width_bytes k)) w).
Proof.
  intros Hk. rewrite len_be.
  assert (exists a, (32 = a + Z.to_nat (width_bytes k))%nat) as [a Ha] by (exists (32 - Z.to_nat (width_bytes k))%nat; destruct k; simpl; lia).
  rewrite Ha, be_split. rewrite <-(app_nil_r (be _ w)) at 1. apply slice_at.
  - rewrite len_be. destruct k; simpl in *; lia.
  - rewrite len_be. destruct k; simpl in *; lia.
Qed.

Lemma signed_low k z : k <> WInt -> - 2 ^ (width_bits k - 1) <= z < 2 ^ (width_bits k - 1) ->
  signed (8 * width_bytes k) (SetBytes (be (Z.to_nat (width_bytes k)) (U256 z))) = S256 (U256 z).
Proof.
  intros Hk Hz. assert (0 < width_bits k <= 64) as Hb by (by destruct k).
  rewrite S256_small.
  2:{ assert (2 ^ (width_bits k - 1) <= 2 ^ 63) by (apply Z.pow_le_mono_r; lia). unfold tt255. change (2 ^ 255) with (2 ^ 192 * 2 ^ 63). lia. }
  rewrite SetBytes_be, U256_mod. rewrite Z2Nat.id by (by destruct k).
  assert (256 ^ width_bytes k = 2 ^ width_bits k) as Hp by (by destruct k). rewrite Hp. unfold signed. change (8 * width_bytes k) with (width_bits k).
  rewrite Z.mod_mod by (apply Z.pow_nonzero; lia).
  assert ((z mod tt256) mod 2 ^ width_bits k = z mod 2 ^ width_bits k) as ->.
  { apply Z.mod_mod_divide. exists (2 ^ (256 - width_bits k)). unfold tt256. rewrite <-Z.pow_add_r by lia. f_equal. lia. }
  assert (2 ^ width_bits k = 2 * 2 ^ (width_bits k - 1)) as Hd by (rewrite <-Z.pow_succ_r by lia; f_equal; lia).
  destruct (Z.ltb_spec z 0) as [Hneg|Hpos].
  - rewrite <-(Z.mod_unique z (2 ^ width_bits k) (-1) (z + 2 ^ width_bits k)) by lia.
    rewrite (proj2 (Z.ltb_ge _ _)) by lia. lia.
  - rewrite Z.mod_small by lia. rewrite (proj2 (Z.ltb_lt _ _)) by lia. done.
Qed.

Lemma padded_prefix b : 0 < len b <= 32 -> exists post, padded b = b ++ post /\ len (padded b) = 32.
Proof. intros Hb. exists (zeros ((- len b) mod 32)). split; [done|]. rewrite <-right_pad_word, len_RightPadBytes by done. lia. Qed.

Lemma len_elem t x : elementary t = true -> valid t -> has t x -> len (enc t x) = 32.
Proof.
  intros He Hv Hx. destruct Hx as [| | |b Hl _|n b Hl _|b Hl _| | | |]; try done; cbn [enc].
  - rewrite len_app, len_zeros by lia. unfold len. by rewrite Hl.
  - simpl in He, Hv. apply Z.leb_le in He. destruct (padded_prefix b) as (post & _ & ->); [lia|done].
  - destruct (padded_prefix b) as (post & _ & ->); [unfold len; rewrite Hl; lia|done].
Qed.

(** Reading the word of an elementary type; a fixed byte string is read from
    the data behind the word too. *)
Definition read_word (t : abi_Type) (w rest : bytes) : result (unpackErr + gval) :=
  match T t with
  | IntTy | UintTy => let? v := readInteger (Kind t) w in Ok (inr v)
  | BoolTy => readBool w
  | AddressTy => Ok (inr (VArray GAddress (byte_vals (BytesToAddress w))))
  | FixedBytesTy => readFixedBytes t (w ++ rest)
  | FunctionTy => readFunctionType t w
  | _ => Ok (inl invalidType)
  end.

Lemma toGoType_word t pre w post : elementary t = true -> len w = 32 -> len (pre ++ w ++ post) < two63 ->
  toGoType (describe t) (len pre) (pre ++ w ++ post) = read_word (describe t) w post.
Proof.
  intros He Hw Hl. rewrite !len_app in Hl. pose proof (len_nonneg pre) as Hpre. pose proof (len_nonneg post) as Hpost.
  assert (i64 (len pre + 32) = len pre + 32) as Hi by (apply i64_id; lia).
  assert (slice (pre ++ w ++ post) (len pre) (len pre + 32) = Ok w) as Hs by (apply slice_at; lia).
  assert (slice (pre ++ w ++ post) (len pre) (len (pre ++ w ++ post)) = Ok (w ++ post)) as Hr.
  { unfold len at 1. rewrite slice_drop by (rewrite length_app; lia). by rewrite drop_app_length. }
  assert ((len (pre ++ w ++ post) <? len pre + 32) = false) as Hlt by (apply Z.ltb_ge; rewrite !len_app; lia).
  destruct t; try done; cbn [describe toGoType tag_of]; rewrite Hi, Hlt; cbn [requiresLengthPrefix T]; rewrite Hs; cbn [rbind]; try done.
  rewrite Hr. done.
Qed.

Lemma readBool_word b : readBool (be 32 (if b : bool then 1 else 0)) = Ok (inr (VBool b)).
Proof. by destruct b. Qed.

Lemma read_word_spec t x rest : elementary t = true -> valid t -> has t x -> read_word (describe t) (enc t x) rest = Ok (inr (godata t x)).
Proof.
  intros He Hv Hx. destruct Hx as [n w Hw Hk|n w Hw Hk|b|b Hl Hb|n b Hl Hb|b Hl Hb| | | |]; try done; unfold read_word; rewrite T_describe; cbn [tag_of].
  - rewrite Kind_describe. cbn [gotype enc godata]. unfold reflectIntKindAndType. destruct (int_width n) as [k|] eqn:En; simpl kind_of.
    + pose proof (int_width_cases n k En) as Hne. unfold readInteger. rewrite low_bytes by done.
      specialize (Hk k eq_refl). assert (SetBytes (be (Z.to_nat (width_bytes k)) w) = w) as E.
      { rewrite SetBytes_be, Z2Nat.id by (by destruct k). apply Z.mod_small. unfold is_word in Hw. split; [lia|]. by destruct k. }
      destruct k; try done; cbn [rbind]; by rewrite E.
    + unfold readInteger. cbn [rbind]. by rewrite SetBytes_word.
  - rewrite Kind_describe. cbn [gotype enc godata]. unfold reflectIntKindAndType. destruct (int_width n) as [k|] eqn:En; simpl kind_of.
    + pose proof (int_width_cases n k En) as Hne. unfold readInteger. rewrite low_bytes by done.
      destruct (Hk k eq_refl) as (z & -> & Hz). pose proof (signed_low k z Hne Hz) as E.
      destruct k; try done; cbn [rbind]; by rewrite E.
    + unfold readInteger. cbn [rbind]. by rewrite SetBytes_word.
  - apply readBool_word.
  - cbn [enc godata]. unfold BytesToAddress, set_bytes. unfold AddressLength. rewrite length_app, Hl.
    change (20 <? length (zeros 12) + 20)%nat with true. cbn iota.
    replace (drop (length (zeros 12) + 20 - 20) (zeros 12 ++ b)) with b by done. by rewrite Hl.
  - simpl in He, Hv. apply Z.leb_le in He. unfold readFixedBytes. rewrite T_describe, bool_decide_true by done. cbn [negb].
    rewrite Size_describe. cbn [size_in enc]. unfold padded. rewrite <-!app_assoc, slice_front by done. done.
  - unfold readFunctionType. rewrite T_describe, bool_decide_true by done. cbn [negb enc]. unfold padded.
    assert (zeros ((- len b) mod 32) = zeros 8) as -> by (f_equal; unfold len; rewrite Hl; done).
    rewrite <-(app_nil_r (zeros 8)) at 1. rewrite (slice_at b (zeros 8) []) by (unfold len; rewrite ?Hl; done). cbn [rbind].
    change (SetBytes (zeros 8)) with 0. cbn [Z.eqb negb].
    rewrite slice_front by (unfold len; by rewrite Hl). done.
Qed.

(** ** Offsets and lengths *)

Lemma BitLen_63 x : 0 <= x < two63 -> (63 <? BitLen x) = false.
Proof. intros Hx. apply Z.ltb_ge, BitLen_spec; [lia|]. rewrite Z.abs_eq by lia. change (2 ^ 63) with two63. lia. Qed.

Lemma Uint64_small x : 0 <= x < two63 -> i64 (Uint64 x) = x.
Proof. intros Hx. unfold Uint64. rewrite Z.abs_eq, Z.mod_small by (unfold two63, two64 in *; lia). by apply i64_id. Qed.

Lemma small_word x : 0 <= x < two63 -> is_word x.
Proof. unfold is_word, two63, two256. change (2 ^ 256) with (2 ^ 193 * 2 ^ 63). lia. Qed.

Lemma lengthPrefix_spec output index off L : 0 <= index -> 0 <= off -> 0 <= L ->
  slice output index (index + 32) = Ok (be 32 off) -> slice output off (off + 32) = Ok (be 32 L) ->
  index + 32 < two63 -> off + 32 + L <= len output < two63 ->
  lengthPrefixPointsTo index output = Ok (inr (off + 32, L)).
Proof.
  intros Hi Ho HL S1 S2 Hi' Hl. unfold lengthPrefixPointsTo. rewrite i64_id, S1 by lia. cbn [rbind].
  rewrite SetBytes_word by (apply small_word; lia). rewrite (proj2 (Z.ltb_ge _ _)) by lia. rewrite BitLen_63 by lia.
  rewrite Uint64_small by lia. replace (i64 (off + 32 - 32)) with off by (rewrite Z.add_simpl_r, i64_id; lia).
  rewrite S2. cbn [rbind]. rewrite SetBytes_word by (apply small_word; lia). rewrite BitLen_63 by lia.
  rewrite (proj2 (Z.ltb_ge _ _)) by lia. by rewrite Uint64_small by lia.
Qed.

(** ** Sequences *)

Lemma len_elems t xs : elementary t = true -> valid t -> Forall (has t) xs -> len (List.concat (enc t <$> xs)) = 32 * len xs.
Proof.
  intros He Hv. induction 1 as [|x xs Hx _ IH]; [done|]. rewrite fmap_cons. cbn [List.concat].
  rewrite len_app, len_cons, len_elem by done. lia.
Qed.

Lemma unpack_each_spec t xs pre post output : elementary t = true -> valid t -> Forall (has t) xs ->
  output = pre ++ List.concat (enc t <$> xs) ++ post -> len output < two63 - 32 ->
  unpack_each (fun i => toGoType (describe t) i output) (gotype t) 32 (len pre) (length xs) = Ok (inr (godata t <$> xs)).
Proof.
  intros He Hv Hx. revert pre. induction Hx as [|x xs Hx _ IH]; intros pre Ho Hl; [done|].
  rewrite !fmap_cons in *. cbn [List.concat length unpack_each] in Ho |- *. rewrite <-app_assoc in Ho.
  assert (toGoType (describe t) (len pre) output = Ok (inr (godata t x))) as ->.
  { rewrite Ho in Hl |- *. rewrite toGoType_word by (done || (by apply len_elem) || lia). by apply read_word_spec. }
  cbn [rbind]. rewrite bool_decide_true by (by apply typ_of_godata). cbn [negb].
  assert (i64 (len pre + 32) = len (pre ++ enc t x)) as ->.
  { rewrite Ho in Hl. rewrite !len_app, ?len_elem in * by done. pose proof (len_nonneg pre). pose proof (len_nonneg (List.concat (enc t <$> xs))).
    pose proof (len_nonneg post). apply i64_id. lia. }
  rewrite (IH (pre ++ enc t x)); [done|by rewrite <-app_assoc|done].
Qed.

(** A slice or an array of elementary values. *)
Lemma forEach_spec t tt xs pre post : elementary t = true -> valid t -> Forall (has t) xs ->
  len (pre ++ List.concat (enc t <$> xs) ++ post) < two63 - 32 ->
  forEachUnpack tt (describe t) (fun i => toGoType (describe t) i (pre ++ List.concat (enc t <$> xs) ++ post))
    (pre ++ List.concat (enc t <$> xs) ++ post) (len pre) (len xs) =
  Ok (inr (match T tt with SliceTy => VSlice (gotype t) (godata t <$> xs) | _ => VArray (GoType tt) (godata t <$> xs) end)).
Proof.
  intros He Hv Hx Hl. unfold forEachUnpack. pose proof (len_nonneg xs) as Hn. pose proof (len_nonneg pre) as Hp. pose proof (len_nonneg post) as Hq.
  rewrite (proj2 (Z.ltb_ge _ _)) by lia. pose proof Hl as Hl'. rewrite !len_app, (len_elems t xs He Hv Hx) in Hl'.
  rewrite (i64_id (32 * len xs)), (i64_id (len pre + _)) by lia. rewrite (proj2 (Z.ltb_ge _ _)).
  2:{ rewrite !len_app, (len_elems t xs He Hv Hx). lia. }
  assert (match T tt with ArrayTy => getFullElemSize (describe t) | _ => Ok 32 end = Ok 32) as -> by (destruct (T tt); try done; by destruct t).
  cbn [rbind]. rewrite GoType_describe. unfold len at 2. rewrite Nat2Z.id. rewrite (unpack_each_spec t xs pre post _ He Hv Hx eq_refl Hl). done.
Qed.

(** ** One argument *)

Definition unpackable (t : aty) : Prop := match t with AArray n _ => 1 <= n | _ => True end.

Lemma toGo_static t x pre post : supported t = true -> dynamic t = false -> valid t -> unpackable t -> has t x ->
  len (pre ++ enc t x ++ post) < two63 - 32 ->
  toGoType (describe t) (len pre) (pre ++ enc t x ++ post) = Ok (inr (godata t x)).
Proof.
  intros Hs Hd Hv Hu Hx Hl. pose proof (len_nonneg pre) as Hp. pose proof (len_nonneg post) as Hq.
  destruct (elementary t) eqn:He.
  { rewrite toGoType_word by (done || (by apply len_elem) || lia). by apply read_word_spec. }
  destruct t as [| | | | | | | |t|n t]; try done; simpl in Hs; [simpl in He; congruence|]. inversion Hx as [| | | | | | | | |? ? l Hn Hall]; subst.
  simpl in Hv, Hd. destruct Hv as (Hv & _). cbn [enc] in Hl |- *. rewrite enc_list in Hl |- * by done.
  cbn [describe toGoType tag_of size_in]. simpl in Hu. pose proof Hl as Hl'. rewrite !len_app, (len_elems t l Hs Hv Hall) in Hl'.
  set (data := pre ++ List.concat (enc t <$> l) ++ post) in *.
  assert (len data = len pre + (32 * len l + len post)) as Hdata by (unfold data; by rewrite !len_app, (len_elems t l Hs Hv Hall)).
  rewrite i64_id by lia. rewrite (proj2 (Z.ltb_ge (len data) (len pre + 32))) by lia.
  cbn [requiresLengthPrefix T]. rewrite slice_Ok by lia. cbn [rbind].
  rewrite (forEach_spec t _ l pre post Hs Hv Hall Hl). done.
Qed.

(** Bytes behind their length. *)
Lemma prefixed_bytes b pre post index : let data := pre ++ (be 32 (len b) ++ padded b) ++ post in
  0 <= index -> index + 32 <= len data -> slice data index (index + 32) = Ok (be 32 (len pre)) -> len data < two63 - 32 ->
  lengthPrefixPointsTo index data = Ok (inr (len pre + 32, len b)) /\ slice data (len pre + 32) (i64 (len pre + 32 + len b)) = Ok b.
Proof.
  intros data Hi Hi2 Hw Hl. pose proof (len_nonneg pre) as Hp. pose proof (len_nonneg post) as Hq. pose proof (len_nonneg b) as Hbn.
  pose proof (len_nonneg (zeros ((- len b) mod 32))) as Hz.
  assert (slice data (len pre) (len pre + 32) = Ok (be 32 (len b))) as S2 by (unfold data; rewrite <-app_assoc; by apply slice_at).
  assert (len data = len pre + (32 + (len b + len (zeros ((- len b) mod 32))) + len post)) as Hd by (unfold data, padded; by rewrite !len_app, len_be).
  split; [apply lengthPrefix_spec; done || lia|]. rewrite i64_id by lia.
  unfold data, padded. rewrite <-!app_assoc, (app_assoc pre). apply slice_at; rewrite ?len_app, ?len_be; lia.
Qed.

Lemma toGo_dynamic t x index off pre post data : supported t = true -> dynamic t = true -> valid t -> has t x ->
  data = pre ++ enc t x ++ post -> len pre = off -> 0 <= index -> index + 32 <= len data ->
  slice data index (index + 32) = Ok (be 32 off) -> len data < two63 - 32 ->
  toGoType (describe t) index data = Ok (inr (godata t x)).
Proof.
  intros Hs Hd Hv Hx -> <- Hi Hi2 Hw Hl. pose proof (len_nonneg pre) as Hp. pose proof (len_nonneg post) as Hq.
  assert (i64 (index + 32) = index + 32) as Ei by (apply i64_id; lia).
  assert ((len (pre ++ enc t x ++ post) <? index + 32) = false) as Elt by (apply Z.ltb_ge; lia).
  destruct t as [| | | | | | | |t|n t]; try done; try (simpl in Hs, Hd; by destruct (elementary_simple t Hs) as (_ & E & _); rewrite E in Hd).
  - inversion Hx as [| | | | | |b Hb| | |]; subst. cbn [enc] in *. cbn [describe toGoType tag_of]. rewrite Ei, Elt. cbn [requiresLengthPrefix T].
    destruct (prefixed_bytes b pre post index Hi Hi2 Hw Hl) as [-> Hb']. cbn [rbind]. by rewrite Hb'.
  - inversion Hx as [| | | | | | |b Hb| |]; subst. cbn [enc] in *. cbn [describe toGoType tag_of]. rewrite Ei, Elt. cbn [requiresLengthPrefix T].
    destruct (prefixed_bytes b pre post index Hi Hi2 Hw Hl) as [-> Hb']. cbn [rbind]. by rewrite Hb'.
  - inversion Hx as [| | | | | | | |? l Hall|]; subst. simpl in Hs, Hv. destruct (elementary_simple t Hs) as (_ & Hdt & _).
    cbn [enc] in *. rewrite enc_list in * by done.
    assert (slice (pre ++ (be 32 (len l) ++ List.concat (enc t <$> l)) ++ post) (len pre) (len pre + 32) = Ok (be 32 (len l))) as S2
      by (rewrite <-app_assoc; by apply slice_at).
    pose proof (len_nonneg l) as Hln. pose proof (len_elems t l Hs Hv Hall) as Hel. pose proof Hl as Hl'.
    rewrite !len_app, len_be, Hel in Hl'. cbn [describe toGoType tag_of]. rewrite Ei, Elt. cbn [requiresLengthPrefix T].
    rewrite (lengthPrefix_spec _ index (len pre) (len l)) by (done || (rewrite ?len_app, ?len_be, ?Hel; lia)). cbn [rbind].
    rewrite <-!app_assoc, (app_assoc pre) in Hl |- *. replace (len pre + 32) with (len (pre ++ be 32 (len l))) by (by rewrite len_app, len_be).
    rewrite (forEach_spec t _ l (pre ++ be 32 (len l)) post Hs Hv Hall Hl). done.
Qed.

(** ** All arguments *)

Lemma len_static t x : supported t = true -> dynamic t = false -> valid t -> has t x ->
  len (enc t x) = 32 * match t with AArray n _ => n | _ => 1 end.
Proof.
  intros Hs Hd Hv Hx. destruct (elementary t) eqn:He; [rewrite len_elem by done; by destruct t|].
  destruct t as [| | | | | | | |t|n t]; try done; simpl in Hs; [simpl in He; congruence|]. inversion Hx as [| | | | | | | | |? ? l Hn Hall]; subst.
  simpl in Hd, Hv. cbn [enc]. rewrite enc_list, len_elems by (done || apply Hv). lia.
Qed.

Definition arg_has (a : aty * aval) : Prop := arg_ok a /\ unpackable (fst a) /\ has (fst a) (snd a).

Lemma getArraySize_spec n t : elementary t = true -> getArraySize (describe (AArray n t)) = Ok n.
Proof. by destruct t. Qed.

Lemma unpack_values_spec args axs idx virt H var off data : Forall2 (fun a p => ArgType a = describe (fst p)) args axs -> Forall arg_has axs ->
  data = H ++ heads off (part_of <$> axs) ++ var ++ tails (part_of <$> axs) ->
  off = len H + heads_len (part_of <$> axs) + len var -> 0 <= idx -> 0 <= virt -> 32 * (idx + virt) = len H -> len data < two63 - 32 ->
  unpack_values idx virt args data = Ok (inr ((fun p => godata (fst p) (snd p)) <$> axs)).
Proof.
  intros Ha. revert idx virt H var off data. induction Ha as [|a [t x] args axs Ha _ IH]; intros idx virt H var off data Hok Hdata Hoff Hidx Hvirt HH Hl; [done|].
  inversion Hok as [|? ? ([Hs Hv] & Hu & Hx) Hok']; subst. simpl in Ha, Hs, Hv, Hu, Hx. rewrite parts_cons, heads_len_cons in *.
  cbn [heads tails] in Hl |- *. unfold head_len in Hl |- *. cbn [fst snd] in Hl |- *. cbn [unpack_values]. rewrite Ha.
  pose proof (len_nonneg H) as HHn. pose proof (heads_len_nonneg (part_of <$> axs)) as Hhn. pose proof (len_nonneg var) as Hvn.
  pose proof (len_nonneg (tails (part_of <$> axs))) as Htn. pose proof (len_nonneg (enc t x)) as Hen.
  rewrite fmap_cons. cbn [fst snd]. destruct (dynamic t) eqn:Hd.
  - set (o := len H + (32 + heads_len (part_of <$> axs)) + len var) in *.
    assert (H ++ (be 32 o ++ heads (o + len (enc t x)) (part_of <$> axs)) ++ var ++ enc t x ++ tails (part_of <$> axs) =
      (H ++ be 32 o ++ heads (o + len (enc t x)) (part_of <$> axs) ++ var) ++ enc t x ++ tails (part_of <$> axs)) as E by (by rewrite <-!app_assoc).
    pose proof Hl as Hl'. rewrite !len_app, len_be, len_heads in Hl'.
    rewrite (i64_id (idx + virt)), (i64_id ((idx + virt) * 32)) by lia. rewrite E.
    rewrite (toGo_dynamic t x _ o (H ++ be 32 o ++ heads (o + len (enc t x)) (part_of <$> axs) ++ var) (tails (part_of <$> axs)) _ Hs Hd Hv Hx eq_refl).
    2:{ rewrite !len_app, len_be, len_heads. unfold o. lia. }
    2:{ lia. }
    2:{ rewrite !len_app, len_be, len_heads. lia. }
    2:{ rewrite <-!app_assoc. apply slice_at; [lia|by rewrite len_be]. }
    2:{ by rewrite <-E. }
    cbn [rbind]. assert (T (describe t) <> ArrayTy) as HT.
    { destruct t; try done. simpl in Hs, Hd. by destruct (elementary_simple t Hs) as (_ & Hdt & _); rewrite Hdt in Hd. }
    assert (forall r : result Z, match T (describe t) with ArrayTy => r | _ => Ok virt end = Ok virt) as -> by (intros r; by destruct (T (describe t))).
    cbn [rbind]. rewrite <-E.
    rewrite (IH (idx + 1) virt (H ++ be 32 o) (var ++ enc t x) (o + len (enc t x))); [done|done|by rewrite <-!app_assoc| | | | |done].
    + rewrite !len_app, len_be. unfold o. lia.
    + lia.
    + done.
    + rewrite len_app, len_be. lia.
  - cbn [app] in Hl |- *. set (o := len H + (len (enc t x) + heads_len (part_of <$> axs)) + len var) in *.
    pose proof (len_static t x Hs Hd Hv Hx) as Hls. rewrite <-!app_assoc in Hl |- *. pose proof Hl as Hl'. rewrite !len_app, len_heads in Hl'.
    rewrite (i64_id (idx + virt)), (i64_id ((idx + virt) * 32)) by lia. replace ((idx + virt) * 32) with (len H) by lia.
    rewrite (toGo_static t x H _ Hs Hd Hv Hu Hx Hl). cbn [rbind].
    set (k := match t with AArray n _ => n | _ => 1 end) in *.
    assert (match T (describe t) with ArrayTy => let? n := getArraySize (describe t) in Ok (i64 (virt + i64 (n - 1))) | _ => Ok virt end = Ok (virt + (k - 1))) as ->.
    { destruct t as [| | | | | | | |t|n t]; unfold k; try (simpl; f_equal; lia). simpl in Hs, Hu. rewrite T_describe. cbn [tag_of].
      rewrite getArraySize_spec by done. cbn [rbind]. f_equal. unfold k in Hls. rewrite (i64_id (n - 1)), i64_id by lia. done. }
    cbn [rbind]. assert (1 <= k) as Hk by (unfold k; destruct t; simpl in Hu; lia).
    rewrite (IH (idx + 1) (virt + (k - 1)) (H ++ enc t x) var o); [done|done|by rewrite <-!app_assoc| | | | |done].
    + rewrite len_app. unfold o. lia.
    + lia.
    + lia.
    + rewrite len_app. lia.
Qed.

Lemma UnpackValues_encode args axs : Forall (fun a => Indexed a = false) args -> Forall2 (fun a p => ArgType a = describe (fst p)) args axs ->
  Forall arg_has axs -> len (encode axs) < two63 - 32 ->
  UnpackValues args (encode axs) = Ok (inr ((fun p => godata (fst p) (snd p)) <$> axs)).
Proof.
  intros Hi Ha Hok Hl. unfold UnpackValues. assert (NonIndexed args = args) as ->.
  { unfold NonIndexed. clear -Hi. induction Hi as [|a args Ha _ IH]; [done|]. by rewrite filter_cons_True, IH by done. }
  apply (unpack_values_spec args axs 0 0 [] [] (heads_len (part_of <$> axs))); try done.
  - rewrite !len_nil. lia.
Qed.

End AbiRound.
