(* ===== verification/AbiLaws.v ===== *)
(** * ABI: what packing and unpacking promise

    Packing computes the encoding of the specification ([pack_follows_spec]),
    what was packed is unpacked again ([pack_unpack]), and unpacking arbitrary
    data never panics and returns values of the right types
    ([unpack_total]).  Outside the supported types packing misbehaves
    ([pack_defects]). *)

From Stdlib Require Import String Ascii Lia.
From stdpp Require Import base list numbers option strings.
From S2P Require Import Prelude BigInt Types AbiTypes AbiPack AbiUnpack AbiNames AbiSpec AbiRound.

#[local] Open Scope Z_scope.
#[local] Open Scope go_scope.

Module AbiLaws.
Import Big Common AbiTypes AbiPack AbiUnpack AbiNames AbiSpec AbiRound.

(** ** Packing *)

(** C26: [Arguments.Pack] computes the encoding of the contract ABI specification
    when each argument is elementary, a string, bytes, or a slice or an array
    of elementary values, given by Go values of the expected kinds behind any
    number of pointers ([supported]; slices and arrays of strings, of bytes and
    of arrays are excluded, see [pack_defects]), and the encoding is below 2^63
    bytes.  The caller's integers are left as they were or reduced modulo
    2^256. *)
Theorem pack_follows_spec (h : list Z) (ins : list Argument) (vs : list gval) (axs : list (aty * aval)) :
  args_rep h ins vs axs -> Forall arg_ok axs -> len (encode axs) < two63 ->
  exists h', Arguments_Pack ins h vs = Ok (inr (encode axs, h')) /\ settles h h'.
Proof. apply Arguments_Pack_spec. Qed.

(** Two arguments: an integer and a slice of addresses. *)
Definition demo_ins : list Argument :=
  [mkArgument "value" (describe (AUint 256)) false; mkArgument "to" (describe (ASlice AAddress)) false].
Definition demo_address : bytes := replicate 19 0 ++ [7].
Definition demo_vals : list gval :=
  [VBigPtr 0; VSlice GAddress [VArray GAddress (byte_vals demo_address)]].
Definition demo_args : list (aty * aval) :=
  [(AUint 256, ANum 5); (ASlice AAddress, AList [ARaw demo_address])].

Lemma demo_bytes : bytes_ok demo_address.
Proof. unfold demo_address. repeat constructor; lia. Qed.

Lemma demo_rep : args_rep [5] demo_ins demo_vals demo_args.
Proof.
  constructor; [reflexivity| |constructor; [reflexivity| |constructor]].
  - constructor. exists (VBigPtr 0). split; [reflexivity|]. change (ANum 5) with (ANum (U256 5)). by apply st_ubig.
  - eapply ra_slice; [reflexivity|reflexivity|]. constructor; [|constructor].
    eexists. split; [reflexivity|]. constructor; [done|reflexivity|apply demo_bytes].
Qed.

Lemma demo_ok : Forall arg_ok demo_args.
Proof. repeat constructor; vm_compute; reflexivity || discriminate. Qed.

Lemma pack_follows_spec_witness : exists h', Arguments_Pack demo_ins [5] demo_vals = Ok (inr (encode demo_args, h')) /\ settles [5] h'.
Proof.
  apply (pack_follows_spec [5] demo_ins demo_vals demo_args).
  - exact demo_rep.
  - exact demo_ok.
  - vm_compute. reflexivity.
Defined.

(** ** Round trip *)

Lemma stands_has h t v x : stands h t v x -> has t x.
Proof.
  intros Hs. pose proof (stands_word _ _ _ _ Hs) as Hw. destruct Hs as [n w z Hn Hz|n w z Hn Hz|n r z Hn Hr|n r z Hn Hr| | | | | |]; try (by constructor).
  - constructor; [rewrite <-Hw; apply U256_range|]. intros k Hk. rewrite Hn in Hk. injection Hk as <-. apply Hz.
  - constructor; [apply U256_range|]. intros k Hk. rewrite Hn in Hk. injection Hk as <-. by exists z.
  - constructor; [apply U256_range|]. intros k Hk. congruence.
  - constructor; [apply U256_range|]. intros k Hk. congruence.
Qed.

Lemma reps_has h t vs xs : Forall2 (reps h t) vs xs -> Forall (has t) xs.
Proof. induction 1 as [|v x vs xs (v' & _ & Hs) _ IH]; constructor; [by eapply stands_has|done]. Qed.

Lemma reps_arg_has h t v x : reps_arg h t v x -> has t x.
Proof.
  destruct 1 as [t v x (v' & _ & Hs)|t v e vs xs _ _ Hr|n t v e vs xs _ _ Hn Hr]; [by eapply stands_has|..].
  - constructor. by eapply reps_has.
  - constructor; [pose proof (Forall2_length _ _ _ Hr); unfold len in *; congruence|by eapply reps_has].
Qed.

Lemma args_rep_has h ins vs axs : args_rep h ins vs axs -> Forall (fun a => has (fst a) (snd a)) axs.
Proof. induction 1; constructor; [by eapply reps_arg_has|done]. Qed.

Lemma args_rep_types h ins vs axs : args_rep h ins vs axs -> Forall2 (fun a p => ArgType a = describe (fst p)) ins axs.
Proof. induction 1; by constructor. Qed.

(** C27: Unpacking a packed argument list gives the values back, for the
    arguments [pack_follows_spec] is about that are not indexed, with arrays of
    at least one element.  Integers of at most sixty-four bits come back in
    their own Go type, longer ones as unsigned 256-bit words. *)
Theorem pack_unpack (h : list Z) (ins : list Argument) (vs : list gval) (axs : list (aty * aval)) :
  args_rep h ins vs axs -> Forall arg_ok axs -> Forall (fun a => unpackable (fst a)) axs ->
  Forall (fun a => Indexed a = false) ins -> len (encode axs) < two63 - 32 ->
  exists b h', Arguments_Pack ins h vs = Ok (inr (b, h')) /\
    UnpackValues ins b = Ok (inr ((fun p => godata (fst p) (snd p)) <$> axs)).
Proof.
  intros Hr Hok Hu Hi Hl. destruct (Arguments_Pack_spec h ins vs axs Hr Hok) as (h' & E & _); [lia|].
  exists (encode axs), h'. split; [done|]. apply UnpackValues_encode; [done|by eapply args_rep_types| |done].
  pose proof (args_rep_has _ _ _ _ Hr) as Hh. rewrite Forall_forall in *. unfold arg_has. auto.
Qed.

Lemma pack_unpack_witness : exists b h', Arguments_Pack demo_ins [5] demo_vals = Ok (inr (b, h')) /\
  UnpackValues demo_ins b = Ok (inr [VNewBig 5; VSlice GAddress [VArray GAddress (byte_vals demo_address)]]).
Proof.
  apply (pack_unpack [5] demo_ins demo_vals demo_args).
  - exact demo_rep.
  - exact demo_ok.
  - repeat constructor.
  - repeat constructor.
  - vm_compute. reflexivity.
Defined.

(** ** Arbitrary data *)

(** The words a static array takes. *)
Fixpoint words (t : aty) : Z := match t with AArray n t => n * words t | _ => 1 end.

(** Types that unpacking handles: non-empty arrays of less than 2^56 words, and fixed
    byte strings of at most a word, at any depth. *)
Fixpoint decodable (t : aty) : Prop :=
  match t with
  | AFixed n => 0 < n <= 32
  | ASlice t => decodable t /\ 32 * words t < 2 ^ 61
  | AArray n t => decodable t /\ 1 <= n /\ 32 * (n * words t) < 2 ^ 61
  | _ => True
  end.

(** No panic, and a value has the Go type of [t]. *)
Definition safe (t : aty) (r : result (unpackErr + gval)) : Prop :=
  exists x, r = Ok x /\ forall v, x = inr v -> typ_of v = gotype t.

Lemma safe_inr t v : typ_of v = gotype t -> safe t (Ok (inr v)).
Proof. intros H. eexists. split; [done|]. by intros ? [= <-]. Qed.

Lemma safe_inl t err : safe t (Ok (inl err)).
Proof. eexists. by split. Qed.

Lemma words_pos t : decodable t -> 1 <= words t.
Proof. induction t as [| | | | | | | |t IH|n t IH]; simpl; try lia. intros (Hd & Hn & _). specialize (IH Hd). nia. Qed.

Lemma prefix_safe index output : bytes_ok output -> 0 <= index -> index + 32 <= len output -> len output < 2 ^ 57 ->
  exists x, lengthPrefixPointsTo index output = Ok x /\
    forall b n, x = inr (b, n) -> 0 <= b /\ 0 <= n /\ b + n <= len output.
Proof.
  intros Hb Hi Hl Hb62. unfold lengthPrefixPointsTo. rewrite i64_id by (unfold two63; lia).
  rewrite slice_Ok by lia. cbn [rbind]. set (w := take _ _).
  assert (bytes_ok w) as Hw by (apply bytes_ok_take, bytes_ok_drop; done). pose proof (SetBytes_bound w Hw) as [H0 _].
  destruct (Z.ltb_spec (len output) (SetBytes w + 32)) as [|Hle]; [eexists; by split|].
  rewrite BitLen_63, Uint64_small by (unfold two63; lia). rewrite (i64_id (_ - 32)) by (unfold two63; lia).
  rewrite slice_Ok by lia. cbn [rbind]. set (l := take _ _).
  assert (bytes_ok l) as Hlw by (apply bytes_ok_take, bytes_ok_drop; done). pose proof (SetBytes_bound l Hlw) as [H1 _].
  destruct (Z.ltb_spec 63 (BitLen (SetBytes w + 32 + SetBytes l))) as [|_]; [eexists; by split|].
  destruct (Z.ltb_spec (len output) (SetBytes w + 32 + SetBytes l)) as [|Hle2]; [eexists; by split|].
  eexists. split; [done|]. intros b n [= <- <-]. rewrite Uint64_small by (unfold two63; lia). lia.
Qed.

(** *** Sequences *)

Lemma unpack_each_safe t toGo elemSize n i : 0 <= elemSize -> 0 <= i -> i + elemSize * Z.of_nat n < two63 ->
  (forall j, (j < n)%nat -> safe t (toGo (i + elemSize * Z.of_nat j))) ->
  exists x, unpack_each toGo (gotype t) elemSize i n = Ok x.
Proof.
  intros He. revert i. induction n as [|n IH]; intros i Hi Hb Hsafe; [by eexists|]. cbn [unpack_each].
  destruct (Hsafe 0%nat ltac:(lia)) as (x & E & Hx). rewrite Z.mul_0_r, Z.add_0_r in E. rewrite E. cbn [rbind].
  destruct x as [err|v]; [by eexists|]. rewrite bool_decide_true by (by apply Hx). cbn [negb].
  rewrite i64_id by nia. destruct (IH (i + elemSize)) as (y & ->); [lia|nia| |by eexists].
  intros j Hj. specialize (Hsafe (S j) ltac:(lia)). replace (i + elemSize + elemSize * Z.of_nat j) with (i + elemSize * Z.of_nat (S j)) by lia. done.
Qed.

Lemma i64_congr x y : x mod two64 = y mod two64 -> i64 x = i64 y.
Proof. unfold i64. by intros ->. Qed.

Lemma i64_mod x : i64 x mod two64 = x mod two64.
Proof.
  unfold i64. pose proof (Z.mod_pos_bound x two64 ltac:(done)) as Hb. destruct (x mod two64 <? two63).
  - apply Z.mod_small. lia.
  - replace (x mod two64 - two64) with (x mod two64 + (-1) * two64) by lia. rewrite Z.mod_add by done. apply Z.mod_small. lia.
Qed.

Lemma i64_mul x n : i64 (i64 x * n) = i64 (x * n).
Proof. apply i64_congr. rewrite Z.mul_mod by done. rewrite i64_mod. by rewrite <-Z.mul_mod. Qed.

(** The two sizes are products modulo 2^64, wherever they wrap. *)
Lemma elem_size_from t size : size = i64 size -> getFullElemSize_from size (describe t) = Ok (i64 (size * words t)).
Proof.
  revert size. induction t as [| | | | | | | |t IH|n t IH]; intros size Hs; try (simpl; rewrite Z.mul_1_r; congruence).
  change (getFullElemSize_from (i64 (size * n)) (describe t) = Ok (i64 (size * words (AArray n t)))).
  rewrite IH, i64_mul by (symmetry; apply i64_congr, i64_mod). simpl. do 2 f_equal. lia.
Qed.

Lemma array_size_words t size : size = i64 size -> array_size_from size (describe t) = Ok (i64 (size * words t)).
Proof.
  revert size. induction t as [| | | | | | | |t IH|n t IH]; intros size Hs; try (simpl; rewrite Z.mul_1_r; congruence).
  change (array_size_from (i64 (size * n)) (describe t) = Ok (i64 (size * words (AArray n t)))).
  rewrite IH, i64_mul by (symmetry; apply i64_congr, i64_mod). simpl. do 2 f_equal. lia.
Qed.

Lemma getFullElemSize_words t : 0 <= words t -> 32 * words t < 2 ^ 61 -> getFullElemSize (describe t) = Ok (32 * words t).
Proof. intros H0 H1. unfold getFullElemSize. rewrite elem_size_from by done. by rewrite i64_id by (unfold two63; lia). Qed.

Lemma forEach_safe t tt g toGo output start size : decodable t -> 32 * words t < 2 ^ 61 -> 0 <= start ->
  (T tt = SliceTy /\ g = ASlice t \/ T tt = ArrayTy /\ g = AArray size t /\ GoType tt = GArray size (gotype t)) ->
  start + (if bool_decide (T tt = ArrayTy) then 32 * words t else 32) * size < two63 -> 0 <= size ->
  (forall j, 0 <= j < size -> safe t (toGo (start + (if bool_decide (T tt = ArrayTy) then 32 * words t else 32) * j))) ->
  safe g (forEachUnpack tt (describe t) toGo output start size).
Proof.
  intros Hd Hw Hs Hk Hb Hn Hsafe. unfold forEachUnpack. rewrite (proj2 (Z.ltb_ge size 0)) by done.
  destruct (len output <? _); [apply safe_inl|]. pose proof (words_pos t Hd) as Hwn.
  assert (match T tt with ArrayTy => getFullElemSize (describe t) | _ => Ok 32 end = Ok (if bool_decide (T tt = ArrayTy) then 32 * words t else 32)) as ->.
  { destruct Hk as [[-> _]|[-> _]]; [done|]. by rewrite getFullElemSize_words by lia. }
  cbn [rbind]. rewrite GoType_describe. set (es := if bool_decide (T tt = ArrayTy) then 32 * words t else 32) in *.
  assert (0 <= es) as Hes by (unfold es; case_bool_decide; lia).
  destruct (unpack_each_safe t toGo es (Z.to_nat size) start Hes Hs) as (x & ->).
  { rewrite Z2Nat.id by done. lia. }
  { intros j Hj. apply Hsafe. lia. }
  cbn [rbind]. destruct x as [err|vs]; [apply safe_inl|]. apply safe_inr. destruct Hk as [[-> ->]|(-> & -> & Hg)]; [done|]. by rewrite Hg.
Qed.

(** *** One value *)

Lemma readInteger_safe t w : elementary t = true -> (tag_of t = IntTy \/ tag_of t = UintTy) -> len w = 32 ->
  exists v, readInteger (Kind (describe t)) w = Ok v /\ typ_of v = gotype t.
Proof.
  intros _ Ht Hw. rewrite Kind_describe.
  assert (forall k, k <> WInt -> exists l, slice w (len w - width_bytes k) (len w) = Ok l) as Hlow.
  { intros k Hk. rewrite slice_Ok; [by eexists|destruct k; simpl; lia|lia]. }
  assert (forall b n, exists v, readInteger (kind_of (snd (reflectIntKindAndType b n))) w = Ok v /\ typ_of v = snd (reflectIntKindAndType b n)) as H.
  { intros b n. unfold reflectIntKindAndType. destruct (int_width n) as [k|] eqn:En; [|eexists; by split].
    pose proof (int_width_cases n k En) as Hk. destruct (Hlow k Hk) as [l El].
    destruct b, k; try done; unfold readInteger; simpl kind_of; cbn iota; rewrite El; cbn [rbind]; eexists; by split. }
  destruct t; try (by destruct Ht); apply H.
Qed.

Lemma readBool_safe w : len w = 32 -> safe ABool (readBool w).
Proof.
  intros Hw. unfold readBool. rewrite slice_Ok by lia. cbn [rbind]. destruct (negb _); [apply safe_inl|].
  destruct (index_Ok w 31 ltac:(lia)) as (b & -> & _). cbn [rbind]. destruct (b =? 0); [by apply safe_inr|]. destruct (b =? 1); [by apply safe_inr|apply safe_inl].
Qed.

Lemma word_at (output : bytes) index : 0 <= index -> index + 32 <= len output -> exists w, slice output index (index + 32) = Ok w /\ len w = 32.
Proof. intros Hi Hl. rewrite slice_Ok by lia. eexists. split; [done|]. rewrite len_take, len_drop. lia. Qed.

Lemma elementary_safe t index output : elementary t = true -> decodable t -> 0 <= index -> index + 32 <= len output -> index + 32 < two63 ->
  safe t (toGoType (describe t) index output).
Proof.
  intros He Hd Hi Hle Hi32. destruct (word_at output index Hi Hle) as (w & Ew & Hw).
  assert (exists rest, slice output index (len output) = Ok (w ++ rest)) as [rest Er].
  { rewrite slice_Ok in Ew |- * by lia. injection Ew as <-. exists (drop 32 (drop (Z.to_nat index) output)). f_equal.
    replace (Z.to_nat (index + 32 - index)) with 32%nat by lia. rewrite take_drop. apply take_ge. rewrite length_drop. unfold len in *. lia. }
  assert (toGoType (describe t) index output = read_word (describe t) w rest) as ->.
  { assert (i64 (index + 32) = index + 32) as Hi64 by (apply i64_id; lia).
    assert ((len output <? index + 32) = false) as Hlt by (apply Z.ltb_ge; lia).
    destruct t; try done; cbn [describe toGoType tag_of]; rewrite Hi64, Hlt; cbn [requiresLengthPrefix T]; rewrite Ew; cbn [rbind]; try done.
    by rewrite Er. }
  unfold read_word. rewrite T_describe. destruct t; try done; cbn [tag_of].
  1-2: destruct (readInteger_safe _ w He ltac:(first [by left|by right]) Hw) as (v & -> & Hv); by apply safe_inr.
  - by apply readBool_safe.
  - by apply safe_inr.
  - unfold readFixedBytes. rewrite T_describe, Size_describe. cbn [tag_of size_in]. rewrite bool_decide_true by done. cbn [negb]. simpl in Hd.
    rewrite slice_Ok by (rewrite ?len_app; pose proof (len_nonneg rest); lia). by apply safe_inr.
  - unfold readFunctionType. rewrite T_describe. cbn [tag_of]. rewrite bool_decide_true by done. cbn [negb]. rewrite slice_Ok by lia. cbn [rbind].
    destruct (negb _); [apply safe_inl|]. rewrite slice_Ok by lia. by apply safe_inr.
Qed.

Lemma toGoType_safe t index output : decodable t -> bytes_ok output -> len output < 2 ^ 57 -> 0 <= index ->
  index + 32 < two63 -> index + 32 * words t < two63 ->
  safe t (toGoType (describe t) index output).
Proof.
  revert index. induction t as [n|n| | | | |n| |t IH|n t IH]; intros index Hd Hb Hl Hi Hi32 Hiw.
  all: destruct (Z.ltb_spec (len output) (index + 32)) as [Hlt|Hle];
    [cbn [describe toGoType]; rewrite i64_id, (proj2 (Z.ltb_lt _ _)) by lia; apply safe_inl|].
  7: apply elementary_safe; [apply Z.leb_le; simpl in Hd; lia|done..].
  1-4,7: by apply elementary_safe.
  all: cbn [describe toGoType tag_of size_in]; rewrite i64_id, (proj2 (Z.ltb_ge (len output) (index + 32))) by lia; cbn [requiresLengthPrefix T].
  1-3: destruct (prefix_safe index output Hb Hi Hle Hl) as (x & -> & Hx); cbn [rbind]; destruct x as [err|[b k]]; [apply safe_inl|];
    destruct (Hx b k eq_refl) as (Hb0 & Hk0 & Hbk).
  - rewrite i64_id, slice_Ok by (unfold two63; lia). by apply safe_inr.
  - rewrite i64_id, slice_Ok by (unfold two63; lia). by apply safe_inr.
  - destruct Hd as [Hd Hw]. pose proof (words_pos t Hd) as Hwn.
    apply (forEach_safe t _ (ASlice t)); [done|done|done|by left| |done|].
    + cbn [T]. rewrite (bool_decide_false (SliceTy = ArrayTy)) by done. unfold two63. lia.
    + cbn [T]. rewrite (bool_decide_false (SliceTy = ArrayTy)) by done. intros j Hj. apply IH; try done; unfold two63; lia.
  - rewrite slice_Ok by lia. cbn [rbind]. destruct Hd as (Hd & Hn & Hw1). pose proof (words_pos t Hd) as Hwn. assert (32 * words t < 2 ^ 61) as Hw by nia. cbn [words] in Hiw.
    apply (forEach_safe t _ (AArray n t)); [done|done|done|right; repeat split; by rewrite GoType_describe| |lia|].
    + cbn [T]. rewrite bool_decide_true by done. lia.
    + cbn [T]. rewrite bool_decide_true by done. intros j Hj. assert (words t * (j + 1) <= n * words t) as Hm by nia.
      assert (0 <= words t * j) by nia. apply IH; try done; lia.
Qed.

(** *** All arguments *)

Definition total_words (ts : list aty) : Z := foldr (fun t n => words t + n) 0 ts.

Lemma total_words_nonneg ts : Forall decodable ts -> 0 <= total_words ts.
Proof. induction 1 as [|t ts Hd _ IH]; simpl; [lia|]. pose proof (words_pos t Hd). lia. Qed.

Lemma next_virtual t virt : decodable t -> 0 <= virt -> virt + words t < 2 ^ 61 ->
  match T (describe t) with ArrayTy => let? n := getArraySize (describe t) in Ok (i64 (virt + i64 (n - 1))) | _ => Ok virt end =
  Ok (virt + (words t - 1)).
Proof.
  intros Hd Hv Hb. rewrite T_describe. destruct t as [| | | | | | | |t|n t]; try (simpl; f_equal; lia). cbn [tag_of words] in *.
  destruct Hd as (Hd & Hn & Hw). pose proof (words_pos t Hd) as Hwn. assert (n <= n * words t) by nia.
  change (getArraySize (describe (AArray n t))) with (array_size_from n (describe t)).
  rewrite array_size_words by (rewrite i64_id; unfold two63; lia). cbn [rbind]. rewrite (i64_id (n * words t)), (i64_id (n * words t - 1)), i64_id by (unfold two63; lia). f_equal; lia.
Qed.

Lemma unpack_values_safe args ts idx virt data : Forall2 (fun a t => ArgType a = describe t) args ts -> Forall decodable ts ->
  bytes_ok data -> len data < 2 ^ 57 -> 0 <= idx -> 0 <= virt -> 32 * (idx + virt + total_words ts) < 2 ^ 61 ->
  exists x, unpack_values idx virt args data = Ok x /\ forall vs, x = inr vs -> typ_of <$> vs = gotype <$> ts.
Proof.
  intros Ha Hd Hb Hl. revert idx virt. induction Ha as [|a t args ts Ha _ IH]; intros idx virt Hi Hv Hw.
  { eexists. split; [done|]. by intros vs [= <-]. }
  inversion Hd as [|? ? Hdt Hdts]; subst. cbn [total_words foldr] in Hw. fold (total_words ts) in Hw.
  pose proof (words_pos t Hdt) as Hwt. pose proof (total_words_nonneg ts Hdts) as Htn. cbn [unpack_values]. rewrite Ha.
  rewrite (i64_id (idx + virt)), (i64_id ((idx + virt) * 32)) by (unfold two63; lia).
  destruct (toGoType_safe t ((idx + virt) * 32) data Hdt Hb Hl) as (x & -> & Hx); [lia|unfold two63; lia..|]. cbn [rbind].
  rewrite next_virtual by (done || lia). cbn [rbind]. destruct x as [err|v]; [eexists; by split|].
  destruct (IH Hdts (idx + 1) (virt + (words t - 1))) as (y & -> & Hy); [lia..|]. cbn [rbind]. eexists. split; [done|].
  destruct y as [err|ws]; [done|]. intros vs [= <-]. rewrite !fmap_cons, (Hx v eq_refl). f_equal. by apply Hy.
Qed.

(** C28: Whatever the data, [UnpackValues] returns: it never indexes or slices past
    the data and ends with an error or with one value per argument, of the
    argument's Go type.  The data has less than 2^57 bytes, as have the
    arrays; fixed byte strings fit in a word. *)
Theorem unpack_total (args : list Argument) (ts : list aty) (data : bytes) :
  Forall2 (fun a t => ArgType a = describe t) (NonIndexed args) ts -> Forall decodable ts -> 32 * total_words ts < 2 ^ 61 ->
  bytes_ok data -> len data < 2 ^ 57 ->
  exists x, UnpackValues args data = Ok x /\ forall vs, x = inr vs -> typ_of <$> vs = gotype <$> ts.
Proof. intros Ha Hd Hw Hb Hl. apply unpack_values_safe; done || lia. Qed.

Lemma unpack_total_witness : exists x, UnpackValues demo_ins (replicate 64 255) = Ok x.
Proof.
  destruct (unpack_total demo_ins [AUint 256; ASlice AAddress] (replicate 64 255)) as (x & E & _).
  - repeat constructor.
  - repeat constructor.
  - vm_compute. reflexivity.
  - apply Forall_replicate. unfold byte_ok. lia.
  - vm_compute. reflexivity.
  - exists x. exact E.
Defined.

(** ** Defects *)

Definition nested_ins : list Argument :=
  [mkArgument "grid" (describe (AArray 2 (AArray 2 (AUint 8)))) false; mkArgument "name" (describe AString) false].
Definition row (a b : Z) : gval := VArray (GArray 2 (GUint W8)) [VUint W8 a; VUint W8 b].
Definition nested_vals : list gval :=
  [VArray (GArray 2 (GArray 2 (GUint W8))) [row 1 2; row 3 4]; VString (of_string "x")].
Definition nested_args : list (aty * aval) :=
  [(AArray 2 (AArray 2 (AUint 8)), AList [AList [ANum 1; ANum 2]; AList [ANum 3; ANum 4]]); (AString, ARaw (of_string "x"))].

Definition strings_ins : list Argument := [mkArgument "names" (describe (ASlice AString)) false].
Definition strings_vals : list gval := [VSlice GString [VString (of_string "a"); VString (of_string "b")]].
Definition strings_args : list (aty * aval) :=
  [(ASlice AString, AList [ARaw (of_string "a"); ARaw (of_string "b")])].

(** Outside the supported types packing goes wrong.  With an array of arrays
    the offset of a later dynamic argument counts the outer array only, so the
    string is unpacked from the middle of the numbers; the strings of a slice of
    strings are written without the offsets the specification puts in front of
    them; an empty slice of arrays panics; and packing a negative integer replaces the caller's integer by
    its two's complement. *)
Theorem pack_defects :
  (exists b h, Arguments_Pack nested_ins [] nested_vals = Ok (inr (b, h)) /\ b <> encode nested_args /\
     slice b 128 160 = Ok (be 32 96) /\ slice (encode nested_args) 128 160 = Ok (be 32 160) /\
     UnpackValues nested_ins b = Ok (inr [VArray (GArray 2 (GArray 2 (GUint W8))) [row 1 2; row 3 4]; VString (zeros 4)])) /\
  (exists b h, Arguments_Pack strings_ins [] strings_vals = Ok (inr (b, h)) /\
     len b = 192 /\ len (encode strings_args) = 256) /\
  pack (describe (ASlice (AArray 2 (AUint 8)))) [] (VSlice (GArray 2 (GUint W8)) []) = Panic /\
  pack (describe (AInt 256)) [-1] (VBigPtr 0) = Ok (inr (replicate 32 255, [two256 - 1])).
Proof.
  split; [|split; [|split; vm_compute; reflexivity]]; do 2 eexists; (split; [vm_compute; reflexivity|]).
  2: split; vm_compute; reflexivity.
  split; [vm_compute; discriminate|]. split; [vm_compute; reflexivity|]. split; vm_compute; reflexivity.
Qed.

End AbiLaws.
