(* ===== verification/Detector.v ===== *)
(** * The stand-alone overflow detector

    Translates [src/detectors/overflowdetection.go] and the functions
    [RunOverflowDetector] and [RunDetector] of [src/main.go]: a contract is
    deployed, tokens are handed out, and every combination of generated
    arguments is packed and sent to one function; a combination is reported
    when the overflow event is in the log afterwards.

    Parameters: the cartesian product ([Iter], a third-party package; the order
    of its results is open), the decoded ABI ([None]: the JSON was refused) and
    the hash of signatures.  The generated integers are shared between the
    combinations and packing changes them, so they live in a heap that goes
    from one combination to the next (a refused combination may have reduced
    some of them; packing reduces them again, so that is left out).  Printing
    is left out. *)

From Stdlib Require Import String Lia.
From stdpp Require Import base list numbers gmap option strings pretty.
From S2P Require Import Prelude BigInt Types Params StateDB Opcodes Analysis Machine.
From S2P Require Import Instructions Interp Spec AbiTypes Fuzzer FuzzerSpec AbiPack AbiNames AbiSpec.

#[local] Open Scope Z_scope.
#[local] Open Scope go_scope.

Module Detector.
Import Big Common Params StateDB Vm Instr Interp AbiTypes AbiPack AbiNames AbiSpec.

(** ** Inputs *)

Definition address_val (a : Address) : gval := VArray GAddress (byte_vals a).

(** The values tried for an argument, and the heap with their integers; none
    for the other types. *)
Definition inputs_for (t : abi_Type) (h : list Z) : option (list gval) * list Z :=
  match T t with
  | SliceTy =>
      match T <$> Elem t with
      | Some AddressTy => (Some ((fun l => VSlice GAddress (address_val <$> l)) <$> Fuzzer.GenerateAddresses), h)
      | _ => (None, h)
      end
  | UintTy =>
      let s := Fuzzer.GenerateIntBySize (Size t) in
      (Some ((fun r => VBigPtr (length h + r)) <$> Fuzzer.refs s), h ++ Fuzzer.cells s)
  | AddressTy => (Some (address_val <$> Fuzzer.GenerateAddress), h)
  | _ => (None, h)
  end.

Fixpoint generate (args : list Argument) (h : list Z) : list (list gval) * list Z :=
  match args with
  | [] => ([], h)
  | x :: args =>
      let '(s, h) := inputs_for (ArgType x) h in
      let '(d, h) := generate args h in
      (match s with Some s => s :: d | None => d end, h)
  end.

(** [None] when there is no such function. *)
Definition GenerateInputs (a : ABI) (function : string) (h : list Z) : option (list (list gval)) * list Z :=
  let m := method_named a function in
  if negb (String.eqb (Name m) function) then (None, h)
  else let '(d, h) := generate (Inputs m) h in (Some d, h).

(** ** The detector *)

Record OverFlowDetector := {
  contractName : string;
  victims : list Address;
  evm : option EVM;                          (* [None] before [Init] has succeeded *)
  oABI : ABI;
  ContractAddress : Address;
  Executionresult : option vmerror;
  Detected : bool;
  Reason : string;
  Attackvector : option bytes;
  Unpackedinput : option (list gval)
}.

Definition set_evm (e : EVM) (o : OverFlowDetector) : OverFlowDetector :=
  {| contractName := contractName o; victims := victims o; evm := Some e; oABI := oABI o; ContractAddress := ContractAddress o;
     Executionresult := Executionresult o; Detected := Detected o; Reason := Reason o; Attackvector := Attackvector o;
     Unpackedinput := Unpackedinput o |}.
Definition set_address (a : Address) (o : OverFlowDetector) : OverFlowDetector :=
  {| contractName := contractName o; victims := victims o; evm := evm o; oABI := oABI o; ContractAddress := a;
     Executionresult := Executionresult o; Detected := Detected o; Reason := Reason o; Attackvector := Attackvector o;
     Unpackedinput := Unpackedinput o |}.
Definition set_result (r : option vmerror) (o : OverFlowDetector) : OverFlowDetector :=
  {| contractName := contractName o; victims := victims o; evm := evm o; oABI := oABI o; ContractAddress := ContractAddress o;
     Executionresult := r; Detected := Detected o; Reason := Reason o; Attackvector := Attackvector o;
     Unpackedinput := Unpackedinput o |}.
Definition report (d : bool) (a : option bytes) (u : option (list gval)) (o : OverFlowDetector) : OverFlowDetector :=
  {| contractName := contractName o; victims := victims o; evm := evm o; oABI := oABI o; ContractAddress := ContractAddress o;
     Executionresult := Executionresult o; Detected := d; Reason := Reason o; Attackvector := a; Unpackedinput := u |}.
(** The result fields as they are before a run. *)
Definition clear (o : OverFlowDetector) : OverFlowDetector :=
  {| contractName := contractName o; victims := victims o; evm := evm o; oABI := oABI o; ContractAddress := ContractAddress o;
     Executionresult := Executionresult o; Detected := false; Reason := ""; Attackvector := None; Unpackedinput := None |}.

Definition Attacker : Address := BytesToAddress (of_string "Attacker").
Definition Owner : Address := BytesToAddress (of_string "Owner").

(** The victims are the test addresses. *)
Definition InitExternalAccount (d : StateDB) : StateDB * list Address :=
  let d := AddBalance d Attacker 100 in
  let d := AddBalance d Owner 100 in
  let d := SetNonce d Attacker 20 in
  let d := SetNonce d Owner 20 in
  (fold_left (fun d a => AddBalance d a 100) (Fuzzer.testaddress <$> seq 0 10) d, Fuzzer.testaddress <$> seq 0 10).

(** The part behind the last slash. *)
Fixpoint last_part (cur s : string) : string :=
  match s with
  | EmptyString => cur
  | String c s' => if Ascii.eqb c (Ascii.ascii_of_nat 47) then last_part "" s' else last_part (cur ++ String c "")%string s'
  end.

Definition detector_env (cr : Crypto) (now : Z) : Env :=
  mkEnv (Fuzzer.fuzz_context now) MainnetChainConfig (mkConfig false false false) cr.

(** The detector of a contract, without a machine if its ABI cannot be read. *)
Definition initial (name : string) (abi : option ABI) : OverFlowDetector :=
  let '(d, vs) := InitExternalAccount New in
  {| contractName := last_part "" name; victims := vs;
     evm := match abi with Some _ => Some (NewEVM d) | None => None end;
     oABI := default (mkABI zeroMethod [] []) abi; ContractAddress := zeroAddress;
     Executionresult := None; Detected := false; Reason := ""; Attackvector := None; Unpackedinput := None |}.

Definition Init (name : string) (document : option (list field)) : result OverFlowDetector :=
  let? abi := JSON document in Ok (initial name abi).

Section WithMachine.
Context (env : Env) (fuel : nat) (Keccak256 : bytes -> bytes) (Iter : list (list gval) -> list (list gval)).

Definition gas_limit : Z := 100000000000.

(** A nil machine is a panic. *)
Definition CreateContract (addr : Address) (code : bytes) (value : Z) (o : OverFlowDetector)
  : result (option vmerror * OverFlowDetector) :=
  match evm o with
  | None => Panic
  | Some e =>
      let? (_, caddr, _, err, e) := Create env (loop env fuel) (AccountRef addr) code gas_limit value e in
      let o := set_evm e o in
      Ok (err, match err with None => set_address caddr o | Some _ => o end)
  end.

Definition FunctionCall (from to : Address) (input : bytes) (value : Z) (o : OverFlowDetector)
  : result (bytes * option vmerror * OverFlowDetector) :=
  match evm o with
  | None => Panic
  | Some e =>
      let? (ret, _, err, e) := Call env (loop env fuel) (AccountRef from) to input gas_limit value e in
      Ok (ret, err, set_result err (set_evm e o))
  end.

(** Errors of packing and of the machine. *)
Abbreviation derror := (packErr + vmerror)%type (only parsing).

Definition call_packed (name : string) (args : list gval) (from : Address) (o : OverFlowDetector)
  : result (derror + bytes * option vmerror * OverFlowDetector) :=
  let? r := ABI_Pack Keccak256 (oABI o) name [] args in
  match r with
  | inl err => Ok (inl (inl err))
  | inr (packed, _) => let? r := FunctionCall from (ContractAddress o) packed 0 o in Ok (inr r)
  end.

Definition CallFunctionStub (stubname : string) (o : OverFlowDetector) : result (derror + bytes * option vmerror * OverFlowDetector) :=
  call_packed stubname [] Owner o.

(** The number, or the error. *)
Definition ERC20GetAccountInfo (instruction : string) (o : OverFlowDetector) : result ((derror + Z) * OverFlowDetector) :=
  let? r := call_packed instruction [] Owner o in
  Ok match r with
     | inl err => (inl err, o)
     | inr (ret, Some err, o) => (inl (inr err), o)
     | inr (ret, None, o) => (inr (SetBytes ret), o)
     end.

Definition ERC20Transfer (caller receiver : Address) (amount : Z) (o : OverFlowDetector) : result OverFlowDetector :=
  let? r := call_packed "transfer" [address_val receiver; VNewBig amount] caller o in
  Ok match r with inl _ => o | inr (_, _, o) => o end.

Definition InitAttackerToken (o : OverFlowDetector) : result OverFlowDetector :=
  let? (r, o) := ERC20GetAccountInfo "totalSupply" o in
  match r with
  | inl _ => Ok o
  | inr totalSupply => ERC20Transfer Owner Attacker (totalSupply / 10000) o
  end.

Fixpoint transfer_each (amount : Z) (vs : list Address) (o : OverFlowDetector) : result OverFlowDetector :=
  match vs with
  | [] => Ok o
  | v :: vs => let? o := ERC20Transfer Owner v amount o in transfer_each amount vs o
  end.

Definition InitVictimsToken (o : OverFlowDetector) : result OverFlowDetector :=
  let? (r, o) := ERC20GetAccountInfo "totalSupply" o in
  match r with
  | inl _ => Ok o
  | inr totalSupply => transfer_each (totalSupply / 10000) (victims o) o
  end.

(** Every entry of the log is looked at; one without topics is a panic. *)
Fixpoint found_overflow (logs : list Log) (found : bool) : result bool :=
  match logs with
  | [] => Ok found
  | l :: logs =>
      let? t := index (Topics l) 0 in
      found_overflow logs (found || bool_decide (Fuzzer.overflowTopic = t))
  end.

Definition logs_of (o : OverFlowDetector) : list Log := match evm o with Some e => Logs (db e) | None => [] end.

(** One combination. *)
Definition try_product (function : string) (product : list gval) (h : list Z) (o : OverFlowDetector)
  : result (OverFlowDetector * list Z) :=
  let? r := ABI_Pack Keccak256 (oABI o) function h product in
  match r with
  | inl _ => Ok (o, h)
  | inr (packed, h) =>
      let? (_, err, o) := FunctionCall Attacker (ContractAddress o) packed 0 o in
      match err with
      | Some _ => Ok (o, h)
      | None =>
          let? found := found_overflow (logs_of o) false in
          Ok (if found : bool then report true (Some packed) (Some product) o else o, h)
      end
  end.

Fixpoint try_products (function : string) (products : list (list gval)) (h : list Z) (o : OverFlowDetector) : result OverFlowDetector :=
  match products with
  | [] => Ok o
  | p :: products => let? (o, h) := try_product function p h o in try_products function products h o
  end.

(** [OverFlowDetector.OverFlowDetector]. *)
Definition detect (codeHex : string) (function : string) (initAttacker initVictims : bool) (o : OverFlowDetector) : result OverFlowDetector :=
  let o := clear o in
  let? (err, o) := CreateContract Owner (Hex2Bytes (of_string codeHex)) 0 o in
  match err with
  | Some _ => Ok (report false (Attackvector o) (Unpackedinput o) o)
  | None =>
      let? o := if initAttacker then InitAttackerToken o else Ok o in
      let? o := if initVictims then InitVictimsToken o else Ok o in
      let '(c, h) := GenerateInputs (oABI o) function [] in
      match c with
      | None => Ok o
      | Some d => try_products function (Iter d) h o
      end
  end.

(** *** [main.go] *)

Definition RunOverflowDetector (name codeHex : string) (abi : option (list field)) (functionName : string) (initAttacker initVictims : bool)
  : result OverFlowDetector :=
  let? o := Init name abi in
  detect codeHex functionName initAttacker initVictims o.

(** The eight runs of one contract: two functions, with and without tokens. *)
Fixpoint runs (name codeHex : string) (abi : option (list field)) (l : list (string * nat)) : result (list OverFlowDetector) :=
  match l with
  | [] => Ok []
  | (f, i) :: l =>
      let? o := RunOverflowDetector name codeHex abi f (Nat.even (i / 2)) (Nat.even i) in
      let? os := runs name codeHex abi l in
      Ok (o :: os)
  end.

(** The contracts of the compiler's output (name, code, ABI), in the order Go
    ranges over them. *)
Fixpoint RunDetector (contracts : list (string * string * option (list field))) : result (list OverFlowDetector) :=
  match contracts with
  | [] => Ok []
  | (contractName, bin, abi) :: contracts =>
      let? os :=
        match String.index 0 "itMaps.sol" contractName with
        | Some _ => Ok []
        | None => runs contractName bin abi (list_prod ["transfer"; "transferFrom"] (seq 0 4))
        end in
      let? rest := RunDetector contracts in
      Ok (os ++ rest)
  end.

Definition callbacks_of (o : OverFlowDetector) : list callback_event := match evm o with Some e => callbacks e | None => [] end.

(** The location of the last access, as the installed callback leaves it. *)
Definition last_loc (evs : list callback_event) : Hash :=
  match last evs with Some (CbSload loc _) | Some (CbSstore loc _) => loc | None => zeroHash end.

(** One contract of [CallFunction]: the function is called without arguments and
    the slot it accessed last is read; the result is what is printed. *)
Definition CallFunction (contractName bin : string) (abi : option (list field)) (functionName : string) : result (option (Hash * OverFlowDetector)) :=
  let? o := Init contractName abi in
  match lookup_named (Methods (oABI o)) functionName with
  | None => Ok None
  | Some _ =>
      let? (_, o) := CreateContract Owner (Hex2Bytes (of_string bin)) 0 o in
      let before := length (callbacks_of o) in
      let? r := CallFunctionStub functionName o in
      let o := match r with inl _ => o | inr (_, _, o) => o end in
      match evm o with
      | None => Panic
      | Some e =>
          let '(v, d) := GetState (db e) (ContractAddress o) (last_loc (drop before (callbacks e))) in
          Ok (Some (v, set_evm (with_db e d) o))
      end
  end.

End WithMachine.

(** ** What is tried *)

(** The argument types that can be packed from the values that are generated. *)
Definition tried (t : aty) : bool :=
  match t with
  | AAddress | ASlice AAddress => true
  | AUint n => match int_width n with None => true | Some _ => false end
  | _ => false
  end.

Inductive made (h : list Z) : aty -> gval -> Prop :=
| made_address a : made h AAddress (address_val a)
| made_addresses l : made h (ASlice AAddress) (VSlice GAddress (address_val <$> l))
| made_uint n r : (r < length h)%nat -> made h (AUint n) (VBigPtr r).

Lemma made_length h h' t v : length h = length h' -> made h t v -> made h' t v.
Proof. intros E H. destruct H; constructor; lia. Qed.

Lemma pack_addresses h (l : list Address) : exists b, pack_each (pack (describe AAddress)) h (address_val <$> l) = Ok (inr (b, h)).
Proof. induction l as [|a l [b IH]]; [by exists []|]. rewrite fmap_cons. cbn [pack_each].
  change (pack (describe AAddress) h (address_val a)) with (Ok (inr (A := packErr) (LeftPadBytes ((fun x => match x with VUint _ z => z | _ => 0 end) <$> byte_vals a) 32, h))).
  cbn -[pack describe]. rewrite IH. by eexists.
Qed.

Lemma pack_made h t v : made h t v -> exists r, pack (describe t) h v = Ok r /\
  match r with inl _ => True | inr (_, h') => length h' = length h /\ tried t = true end.
Proof.
  destruct 1 as [a|l|n r Hr]; [by eexists| |].
  - destruct (pack_addresses h l) as [b E]. eexists. split; [|shelve].
    transitivity (let? r := pack_each (pack (describe AAddress)) h (address_val <$> l) in
      match r with inl err => Ok (inl err) | inr (p, h) => Ok (inr (packBytesSlice p (len (address_val <$> l)), h)) end).
    { by destruct l. }
    rewrite E. reflexivity. Unshelve. done.
  - destruct (lookup_lt_is_Some_2 h r Hr) as [z Ez]. simpl. unfold reflectIntKindAndType.
    destruct (int_width n) as [w|]; simpl; [by eexists|]. unfold packElement. cbn [T packNum]. rewrite Ez. eexists. split; [reflexivity|].
    split; [apply length_insert|done].
Qed.

Lemma pack_args_refused h ins ts vs off ret var : Forall2 (fun a t => ArgType a = describe t) ins ts -> Forall2 (made h) ts vs ->
  existsb (negb ∘ tried) ts = true -> exists e, pack_args off ret var h ins vs = Ok (inl e).
Proof.
  intros Hi. revert h vs ret var. induction Hi as [|a t ins ts Ha Hi IH]; intros h vs ret var Hv Hx; [done|].
  inversion Hv as [|? v ? vs' Hm Hvs]; subst. simpl. rewrite Ha. destruct (pack_made h t v Hm) as ([e|[b h']] & E & Hr); rewrite E; simpl; [by eexists|].
  destruct Hr as [Hl Ht]. simpl in Hx. rewrite Ht in Hx. simpl in Hx.
  assert (Forall2 (made h') ts vs') by (eapply Forall2_impl; [exact Hvs|]; intros; by eapply made_length).
  case_match; by apply IH.
Qed.

Lemma generated_refs size : FuzzerSpec.refs_ok (Fuzzer.GenerateIntBySize size).
Proof.
  assert (He : forall l s, FuzzerSpec.refs_ok s -> Fuzzer.cells s <> [] ->
    FuzzerSpec.refs_ok (fold_left Fuzzer.append_exp l s) /\ Fuzzer.cells (fold_left Fuzzer.append_exp l s) <> []).
  { induction l as [|i l IH]; intros s Hs Hc; [done|]. destruct s as [[|c cs] rs]; [done|]. apply IH; [|done].
    unfold FuzzerSpec.refs_ok in *. simpl in *. apply Forall_app. split; [done|]. apply Forall_singleton, Nat.lt_0_succ. }
  unfold Fuzzer.GenerateIntBySize. destruct (He (Fuzzer.range 0 9) (Fuzzer.mkInts [0] [])) as [H1 H2]; [by constructor|done|].
  destruct (He (Fuzzer.range (size - 8) (size + 1)) _ H1 H2) as [H3 _].
  by apply FuzzerSpec.append_new_values, FuzzerSpec.append_new_values.
Qed.

#[local] Opaque Fuzzer.GenerateAddress Fuzzer.GenerateAddresses Fuzzer.GenerateIntBySize.

(** What is generated for an argument, in a heap that has grown. *)
Lemma inputs_for_spec t h s h' : inputs_for (describe t) h = (s, h') -> (exists k, h' = h ++ k) /\
  match s with Some l => Forall (made h' t) l | None => tried t = false end.
Proof.
  unfold inputs_for. rewrite T_describe. destruct t as [n|n| | | | |n| |e|n e]; simpl; intros E; try (inversion E; subst; split; [exists []; by rewrite app_nil_r|done]).
  - inversion E; subst. split; [by eexists|]. apply Forall_fmap. eapply Forall_impl; [apply generated_refs|]. intros r Hr. constructor. rewrite length_app. cbn beta in Hr. lia.
  - inversion E; subst. split; [exists []; by rewrite app_nil_r|]. apply Forall_fmap, Forall_true. intros a. constructor.
  - rewrite T_describe in E. destruct e; inversion E; subst; (split; [exists []; by rewrite app_nil_r|]); try done.
    apply Forall_fmap, Forall_true. intros a. constructor.
Qed.

Lemma generate_spec args ts h d h' : Forall2 (fun a t => ArgType a = describe t) args ts -> generate args h = (d, h') ->
  (exists k, h' = h ++ k) /\ (length d <= length ts)%nat /\ (length d = length ts -> Forall2 (fun t l => Forall (made h' t) l) ts d).
Proof.
  intros Ha. revert h d. induction Ha as [|a t args ts E Ha IH]; intros h d Hg; simpl in Hg.
  { inversion Hg; subst. split; [exists []; by rewrite app_nil_r|]. by split. }
  rewrite E in Hg. destruct (inputs_for (describe t) h) as [s h1] eqn:Es. destruct (generate args h1) as [d1 h2] eqn:Eg.
  destruct (inputs_for_spec t h s h1 Es) as [[k ->] Hs]. injection Hg as <- <-.
  destruct (IH _ _ Eg) as ([k' ->] & Hl & Hm).
  split; [exists (k ++ k'); by rewrite app_assoc|]. destruct s as [l|]; simpl; (split; [lia|]); [|lia].
  intros Hd. constructor; [|apply Hm; lia]. eapply Forall_impl; [exact Hs|]. intros v Hv. destruct Hv; constructor. rewrite length_app. lia.
Qed.

(** ** What a run does *)

Section Runs.
Context (env : Env) (fuel : nat) (Keccak256 : bytes -> bytes) (Iter : list (list gval) -> list (list gval)).

(** The part of a run before the combinations. *)
Definition set_up (codeHex : string) (initAttacker initVictims : bool) (o : OverFlowDetector) : result (option vmerror * OverFlowDetector) :=
  let? (err, o) := CreateContract env fuel Owner (Hex2Bytes (of_string codeHex)) 0 (clear o) in
  match err with
  | Some err => Ok (Some err, report false (Attackvector o) (Unpackedinput o) o)
  | None =>
      let? o := if initAttacker then InitAttackerToken env fuel Keccak256 o else Ok o in
      let? o := if initVictims then InitVictimsToken env fuel Keccak256 o else Ok o in
      Ok (None, o)
  end.

Lemma detect_set_up codeHex function ia iv o : detect env fuel Keccak256 Iter codeHex function ia iv o =
  let? (err, o) := set_up codeHex ia iv o in
  match err with
  | Some _ => Ok o
  | None =>
      let '(c, h) := GenerateInputs (oABI o) function [] in
      match c with None => Ok o | Some d => try_products env fuel Keccak256 function (Iter d) h o end
  end.
Proof.
  unfold detect, set_up. destruct (CreateContract _ _ _ _ _ _) as [[[err|] o1]| |]; simpl; try done.
  destruct (if ia then _ else _) as [o2| |]; simpl; try done. by destruct (if iv then _ else _).
Qed.

(** Calls leave the ABI and the result fields alone. *)
Definition same (o o' : OverFlowDetector) : Prop :=
  oABI o' = oABI o /\ Detected o' = Detected o /\ Attackvector o' = Attackvector o /\ Unpackedinput o' = Unpackedinput o.

Lemma same_refl o : same o o.
Proof. done. Qed.
Lemma same_trans a b c : same a b -> same b c -> same a c.
Proof. unfold same. intuition congruence. Qed.

Lemma CreateContract_same a code v o err o' : CreateContract env fuel a code v o = Ok (err, o') -> same o o'.
Proof.
  unfold CreateContract. destruct (evm o) as [e|]; [|done]. intros H. apply rbind_Ok_inv in H as ([[[[? ?] ?] err1] e'] & _ & H).
  simpl in H. destruct err1; by inversion H.
Qed.

Lemma FunctionCall_same from to input v o ret err o' : FunctionCall env fuel from to input v o = Ok (ret, err, o') -> same o o'.
Proof.
  unfold FunctionCall. destruct (evm o) as [e|]; [|done]. intros H. apply rbind_Ok_inv in H as ([[[? ?] err1] e'] & _ & H). by inversion H.
Qed.

Lemma call_packed_same name args from o ret err o' : call_packed env fuel Keccak256 name args from o = Ok (inr (ret, err, o')) -> same o o'.
Proof.
  unfold call_packed. intros H. apply rbind_Ok_inv in H as ([e|[p h]] & _ & H); [done|].
  apply rbind_Ok_inv in H as ([[ret' err'] o1] & H & E). inversion E; subst. by eapply FunctionCall_same.
Qed.

Lemma Transfer_same caller receiver amount o o' : ERC20Transfer env fuel Keccak256 caller receiver amount o = Ok o' -> same o o'.
Proof.
  unfold ERC20Transfer. intros H. apply rbind_Ok_inv in H as ([e|[[r err] o1]] & H & E); inversion E; subst; [done|]. by eapply call_packed_same.
Qed.

Lemma AccountInfo_same name o r o' : ERC20GetAccountInfo env fuel Keccak256 name o = Ok (r, o') -> same o o'.
Proof.
  unfold ERC20GetAccountInfo. intros H. apply rbind_Ok_inv in H as ([e|[[ret err] o1]] & H & E).
  - by inversion E.
  - destruct err; inversion E; subst; by eapply call_packed_same.
Qed.

Lemma transfer_each_same amount vs o o' : transfer_each env fuel Keccak256 amount vs o = Ok o' -> same o o'.
Proof.
  revert o. induction vs as [|v vs IH]; intros o H; simpl in H; [by inversion H|]. apply rbind_Ok_inv in H as (o1 & H & E).
  eapply same_trans; [by eapply Transfer_same|by apply IH].
Qed.

Lemma set_up_same codeHex ia iv o err o' : set_up codeHex ia iv o = Ok (err, o') ->
  oABI o' = oABI o /\ Detected o' = false /\ Attackvector o' = None /\ Unpackedinput o' = None.
Proof.
  unfold set_up. intros H. apply rbind_Ok_inv in H as ([err1 o1] & H1 & H). apply CreateContract_same in H1 as (Ha & Hd & Hv & Hu).
  destruct err1 as [e|]; [by inversion H|]. apply rbind_Ok_inv in H as (o2 & H2 & H). apply rbind_Ok_inv in H as (o3 & H3 & H). inversion H; subst.
  assert (S2 : same o1 o2).
  { destruct ia; [|by inversion H2]. unfold InitAttackerToken in H2. apply rbind_Ok_inv in H2 as ([r o4] & H4 & H2). apply AccountInfo_same in H4.
    destruct r; [inversion H2; by subst|]. eapply same_trans; [done|by eapply Transfer_same]. }
  assert (S3 : same o2 o').
  { destruct iv; [|by inversion H3]. unfold InitVictimsToken in H3. apply rbind_Ok_inv in H3 as ([r o4] & H4 & H3). apply AccountInfo_same in H4.
    destruct r; [inversion H3; by subst|]. eapply same_trans; [done|by eapply transfer_each_same]. }
  destruct (same_trans _ _ _ S2 S3) as (E1 & E2 & E3 & E4). by rewrite E1, E2, E3, E4, Ha, Hd, Hv, Hu.
Qed.

(** *** Combinations *)

(** The documented behaviour of the cartesian product: one value of each list. *)
Definition picks : Prop := forall d p, p ∈ Iter d -> Forall2 (fun v l => v ∈ l) p d.

Lemma method_lookup (a : ABI) function : function <> EmptyString -> Name (method_named a function) = function ->
  lookup_named (Methods a) function = Some (method_named a function).
Proof. unfold method_named. destruct (lookup_named (Methods a) function); [done|]. simpl. by intros H <-. Qed.

Lemma refused_product (a : ABI) function ts h d h' p : picks -> function <> EmptyString -> Name (method_named a function) = function ->
  Forall2 (fun x t => ArgType x = describe t) (Inputs (method_named a function)) ts -> existsb (negb ∘ tried) ts = true ->
  generate (Inputs (method_named a function)) h = (d, h') -> p ∈ Iter d ->
  exists e, ABI_Pack Keccak256 a function h' p = Ok (inl e).
Proof.
  intros Hit Hf Hn Ha Hx Hg Hp. apply Hit in Hp. pose proof (Forall2_length _ _ _ Hp) as Hlp. pose proof (Forall2_length _ _ _ Ha) as Hla.
  destruct (generate_spec _ _ _ _ _ Ha Hg) as (_ & Hl & Hm).
  unfold ABI_Pack. rewrite (proj2 (String.eqb_neq function "") Hf), (method_lookup a function Hf Hn). unfold Arguments_Pack.
  destruct (Nat.eqb_spec (length p) (length (Inputs (method_named a function)))) as [E|E]; simpl; [|by eexists].
  destruct (pack_args_refused h' _ ts p (input_offset (Inputs (method_named a function))) [] [] Ha) as [e Ee]; [|done|rewrite Ee; by eexists].
  specialize (Hm ltac:(lia)). clear -Hm Hp. revert p Hp. induction Hm as [|t l ts d Hl Hm IH]; intros p Hp.
  - inversion Hp. constructor.
  - inversion Hp as [|v ? p' ? Hv Hp']; subst. constructor; [by eapply Forall_forall in Hl|by apply IH].
Qed.

Lemma refused_products function products h o :
  (forall p, p ∈ products -> exists e, ABI_Pack Keccak256 (oABI o) function h p = Ok (inl e)) ->
  try_products env fuel Keccak256 function products h o = Ok o.
Proof.
  induction products as [|p products IH]; intros H; [done|]. simpl. unfold try_product.
  destruct (H p) as [e ->]; [by left|]. simpl. apply IH. intros q Hq. apply H. by right.
Qed.

(** An entry with the overflow event as its first topic is in the log. *)
Definition overflow_logged (o : OverFlowDetector) : Prop :=
  exists l, l ∈ logs_of o /\ head (Topics l) = Some Fuzzer.overflowTopic.

(** The combinations tried one after the other from a state of the heap and of
    the machine: each is refused by the packer, or sent to the contract in the
    state the calls before it have left; the hits are the combinations, with
    their packings, whose call returned without an error and left the overflow
    event in the log. *)
Inductive attempts (function : string) : list (list gval) -> list Z -> OverFlowDetector ->
    list (list gval * bytes) -> OverFlowDetector -> Prop :=
| at_end h o : attempts function [] h o [] o
| at_refused p ps h o e hits o' :
    ABI_Pack Keccak256 (oABI o) function h p = Ok (inl e) ->
    attempts function ps h o hits o' -> attempts function (p :: ps) h o hits o'
| at_failed p ps h o packed h1 ret err o1 hits o' :
    ABI_Pack Keccak256 (oABI o) function h p = Ok (inr (packed, h1)) ->
    FunctionCall env fuel Attacker (ContractAddress o) packed 0 o = Ok (ret, Some err, o1) ->
    attempts function ps h1 o1 hits o' -> attempts function (p :: ps) h o hits o'
| at_silent p ps h o packed h1 ret o1 hits o' :
    ABI_Pack Keccak256 (oABI o) function h p = Ok (inr (packed, h1)) ->
    FunctionCall env fuel Attacker (ContractAddress o) packed 0 o = Ok (ret, None, o1) ->
    ~ overflow_logged o1 ->
    attempts function ps h1 o1 hits o' -> attempts function (p :: ps) h o hits o'
| at_hit p ps h o packed h1 ret o1 hits o' :
    ABI_Pack Keccak256 (oABI o) function h p = Ok (inr (packed, h1)) ->
    FunctionCall env fuel Attacker (ContractAddress o) packed 0 o = Ok (ret, None, o1) ->
    overflow_logged o1 ->
    attempts function ps h1 o1 hits o' -> attempts function (p :: ps) h o ((p, packed) :: hits) o'.

Lemma found_overflow_exact logs found b : found_overflow logs found = Ok b ->
  b = true <-> found = true \/ exists l, l ∈ logs /\ head (Topics l) = Some Fuzzer.overflowTopic.
Proof.
  revert found. induction logs as [|l logs IH]; intros found H; simpl in H.
  { inversion H. split; [by left|]. intros [?|(l & Hl & _)]; [done|by apply not_elem_of_nil in Hl]. }
  apply rbind_Ok_inv in H as (t & Ht & H). rewrite (IH _ H), orb_true_iff, bool_decide_eq_true.
  assert (head (Topics l) = Some t) as Hh by (destruct (Topics l) as [|x ?]; [done|]; by inversion Ht). split.
  - intros [[?|<-]|(l' & Hl & Ht')]; [by left|right; exists l; by split; [left|]|right; exists l'; by split; [right|]].
  - intros [?|(l' & Hl & Ht')]; [by do 2 left|]. apply elem_of_cons in Hl as [->|Hl]; [left; right; congruence|right; by exists l'].
Qed.

(** The result fields do not matter to a call. *)
Lemma FunctionCall_report d a u from to input v o ret err o1 :
  FunctionCall env fuel from to input v (report d a u o) = Ok (ret, err, o1) ->
  exists o2, FunctionCall env fuel from to input v o = Ok (ret, err, o2) /\ o1 = report d a u o2.
Proof.
  unfold FunctionCall. simpl. destruct (evm o) as [e|]; [|done]. intros H. apply rbind_Ok_inv in H as ([[[r g] x] e'] & -> & [= <- <- <-]).
  eexists. split; [reflexivity|done].
Qed.

(** The fields after the attempts: those of the last hit, if there was one. *)
Definition reported (d : bool) (a : option bytes) (u : option (list gval)) (hits : list (list gval * bytes))
    (o : OverFlowDetector) : OverFlowDetector :=
  match last hits with Some (p, packed) => report true (Some packed) (Some p) o | None => report d a u o end.

Lemma reported_cons d a u p packed hits o :
  reported d a u ((p, packed) :: hits) o = reported true (Some packed) (Some p) hits o.
Proof. unfold reported. rewrite last_cons. by destruct (last hits) as [[]|]. Qed.

Lemma try_products_attempts function ps h d a u o o' :
  try_products env fuel Keccak256 function ps h (report d a u o) = Ok o' ->
  exists hits oe, attempts function ps h o hits oe /\ o' = reported d a u hits oe.
Proof.
  revert h d a u o. induction ps as [|p ps IH]; intros h d a u o H; simpl in H.
  { injection H as <-. exists [], o. split; [constructor|done]. }
  apply rbind_Ok_inv in H as ([o1 h1] & H1 & H). unfold try_product in H1. apply rbind_Ok_inv in H1 as ([e|[packed h2]] & Ep & H1); cbn [oABI report] in Ep.
  { injection H1 as <- <-. apply IH in H as (hits & oe & Ha & ->). exists hits, oe. split; [by eapply at_refused|done]. }
  apply rbind_Ok_inv in H1 as ([[ret err] o2] & Ec & H1). cbn [ContractAddress report] in Ec. apply FunctionCall_report in Ec as (o3 & Ec & ->).
  destruct err as [err|].
  { injection H1 as <- <-. apply IH in H as (hits & oe & Ha & ->). exists hits, oe. split; [by eapply at_failed|done]. }
  apply rbind_Ok_inv in H1 as (b & Ef & H1). apply found_overflow_exact in Ef. change (logs_of (report d a u o3)) with (logs_of o3) in Ef.
  assert (Hb : b = true <-> overflow_logged o3) by (rewrite Ef; split; [by intros [?|?]|by right]).
  injection H1 as <- <-. destruct b.
  - change (report true (Some packed) (Some p) (report d a u o3)) with (report true (Some packed) (Some p) o3) in H.
    apply IH in H as (hits & oe & Ha & ->). exists ((p, packed) :: hits), oe. split; [|by rewrite reported_cons].
    eapply at_hit; [done|done|by apply Hb|done].
  - apply IH in H as (hits & oe & Ha & ->). exists hits, oe. split; [|done]. eapply at_silent; [done|done| |done]. intros Ho. by apply Hb in Ho.
Qed.

End Runs.

(** a function with an argument that is not an address, a slice of addresses
    or an unsigned integer of a width other than 8, 16, 32 and 64 is never
    tried: every combination is refused by the packer, so that a run is its
    set-up and nothing is reported whatever the contract does.  [uint8] to
    [uint64] are among the types whose inputs are generated. *)
Theorem detector_skips (env : Env) (fuel : nat) (Keccak256 : bytes -> bytes) (Iter : list (list gval) -> list (list gval))
    (codeHex function : string) (ia iv : bool) (o : OverFlowDetector) (ts : list aty) :
  picks Iter -> function <> EmptyString -> Name (method_named (oABI o) function) = function ->
  Forall2 (fun x t => ArgType x = describe t) (Inputs (method_named (oABI o) function)) ts -> existsb (negb ∘ tried) ts = true ->
  detect env fuel Keccak256 Iter codeHex function ia iv o = (let? (_, o') := set_up env fuel Keccak256 codeHex ia iv o in Ok o') /\
  forall o', detect env fuel Keccak256 Iter codeHex function ia iv o = Ok o' -> Detected o' = false.
Proof.
  intros Hit Hf Hn Ha Hx.
  assert (E : detect env fuel Keccak256 Iter codeHex function ia iv o = (let? (_, o') := set_up env fuel Keccak256 codeHex ia iv o in Ok o')).
  { rewrite detect_set_up. destruct (set_up _ _ _ _ _ _ _) as [[[err|] o1]| |] eqn:Es; try done. simpl. apply set_up_same in Es as [Ea _].
    unfold GenerateInputs. rewrite Ea, Hn, String.eqb_refl. simpl. destruct (generate _ []) as [d h] eqn:Eg.
    apply refused_products. intros p Hp. rewrite Ea. by eapply refused_product. }
  split; [exact E|]. intros o' Ho'. rewrite E in Ho'. apply rbind_Ok_inv in Ho' as ([err o1] & Es & H). inversion H; subst.
  by apply set_up_same in Es as (_ & ? & _).
Qed.

Definition product (d : list (list gval)) : list (list gval) :=
  foldr (fun l ps => flat_map (fun v => cons v <$> ps) l) [[]] d.

Lemma product_picks : picks product.
Proof.
  intros d. induction d as [|l d IH]; intros p Hp; simpl in Hp.
  - apply list_elem_of_singleton in Hp as ->. constructor.
  - apply list_elem_of_In, in_flat_map in Hp as (v & Hv & Hp). apply list_elem_of_In, list_elem_of_fmap in Hp as (q & -> & Hq).
    constructor; [by apply list_elem_of_In|by apply IH].
Qed.

(** A contract whose code logs the overflow event, behind one function. *)
Definition logger_code : string :=
  "6027600c60003960276000f37ffee46111846a282e8199035721dd0334c2bc5c016ae4e72b924003431d6a875960006000a100".
Definition logger_abi (t : aty) : ABI :=
  mkABI zeroMethod [("transfer", mkMethod "transfer" false [mkArgument "x" (describe t) false] [])] [].

Lemma detector_skips_witness :
  detect (detector_env Concrete.demo_crypto 0) 200 (Keccak256 Concrete.demo_crypto) product logger_code "transfer" true true (initial "a/B" (Some (logger_abi (AUint 8)))) =
  (let? (_, o') := set_up (detector_env Concrete.demo_crypto 0) 200 (Keccak256 Concrete.demo_crypto) logger_code true true (initial "a/B" (Some (logger_abi (AUint 8)))) in Ok o').
Proof.
  apply (detector_skips (detector_env Concrete.demo_crypto 0) 200 (Keccak256 Concrete.demo_crypto) product logger_code "transfer" true true
    (initial "a/B" (Some (logger_abi (AUint 8)))) [AUint 8] product_picks); [done|done|by repeat constructor|done].
Defined.

(** C31: what the detector reports, exactly.  After the set-up of the run (the
    contract deployed, tokens given out), the generated combinations are tried
    one after the other on the contract; the detector reports an overflow iff
    one of them was packed, accepted by the contract without an error, and left
    the overflow event in the log, and what it reports is the last such
    combination and its packing.  Nothing is tried and nothing is reported
    when the deployment fails or there is no such function. *)
Theorem detector_reports (env : Env) (fuel : nat) (Keccak256 : bytes -> bytes) (Iter : list (list gval) -> list (list gval))
    (codeHex function : string) (ia iv : bool) (o o' : OverFlowDetector) :
  detect env fuel Keccak256 Iter codeHex function ia iv o = Ok o' ->
  exists err o0 hits oe, set_up env fuel Keccak256 codeHex ia iv o = Ok (err, o0) /\
    match err, GenerateInputs (oABI o) function [] with
    | None, (Some d, h) => attempts env fuel Keccak256 function (Iter d) h o0 hits oe
    | _, _ => hits = []
    end /\
    Detected o' = bool_decide (hits <> []) /\
    Unpackedinput o' = fst <$> last hits /\ Attackvector o' = snd <$> last hits.
Proof.
  intros H. rewrite detect_set_up in H. apply rbind_Ok_inv in H as ([err o0] & Es & H). exists err, o0.
  destruct (set_up_same env fuel Keccak256 _ _ _ _ _ _ Es) as (Ea & Ed & Ev & Eu). destruct err as [err|].
  { injection H as <-. exists [], o0. by rewrite Ed, Ev, Eu. }
  rewrite Ea in H. destruct (GenerateInputs (oABI o) function []) as [[d|] h]; [|injection H as <-; exists [], o0; by rewrite Ed, Ev, Eu].
  replace o0 with (report (Detected o0) (Attackvector o0) (Unpackedinput o0) o0) in H by (by destruct o0).
  apply try_products_attempts in H as (hits & oe & Ha & ->). exists hits, oe. split; [done|]. split; [done|].
  rewrite Ed, Ev, Eu. unfold reported. destruct (last hits) as [[p packed]|] eqn:El.
  - rewrite bool_decide_true; [done|]. by intros ->.
  - apply last_None in El as ->. done.
Qed.

(** On the contract that logs the event every address is a hit. *)
Lemma detector_reports_witness :
  exists o' (hits : list (list gval * bytes)),
    detect (detector_env Concrete.demo_crypto 0) 200 (Keccak256 Concrete.demo_crypto) product logger_code "transfer" true true (initial "a/B" (Some (logger_abi AAddress))) = Ok o' /\
    Detected o' = true /\ hits <> [] /\ Unpackedinput o' = fst <$> last hits.
Proof.
  destruct (detect (detector_env Concrete.demo_crypto 0) 200 (Keccak256 Concrete.demo_crypto) product logger_code "transfer" true true
    (initial "a/B" (Some (logger_abi AAddress)))) as [o'| |] eqn:E; [|by vm_compute in E..].
  assert (Hd : Detected o' = true).
  { apply (f_equal (fun r => match r with Ok o => Detected o | _ => false end)) in E. rewrite <-E. vm_compute. reflexivity. }
  destruct (detector_reports (detector_env Concrete.demo_crypto 0) 200 (Keccak256 Concrete.demo_crypto) product logger_code "transfer" true true
    (initial "a/B" (Some (logger_abi AAddress))) o' E) as (err & o0 & hits & oe & _ & _ & H1 & H2 & _).
  exists o', hits. split; [reflexivity|]. split; [exact Hd|]. split; [|exact H2]. rewrite Hd in H1. symmetry in H1. by apply bool_decide_eq_true_1 in H1.
Defined.

End Detector.
