(* ===== verification/RlpTypes.v ===== *)
(** * RLP: Go types, values and the type cache

    Translates [src/rlp/typecache.go] and the parts of [encode.go] and
    [decode.go] that choose a writer and a decoder for a type
    ([makeWriter], [makeDecoder] and the generators they call).

    The source builds closures; here a closure is a value of [writer] or
    [decoder] that names the function and its captured variables, and
    [RlpEncode.v] and [RlpDecode.v] run it.  A captured [*typeinfo] is an
    index ([loc]) into the list of all [typeinfo] structs ever allocated, so
    the pointer keeps its meaning when the cache forgets a key.

    A Go type is a tree whose leaves may be the name of a declared type; every
    struct type is a declared one.  The declarations say which types have an
    [EncodeRLP] or [DecodeRLP] method and on which receiver.  Interface types
    that themselves demand one of these methods are left out. *)

From Stdlib Require Import String Ascii.
From stdpp Require Import base list numbers option strings gmap countable.
From S2P Require Import Prelude.

#[local] Open Scope Z_scope.
#[local] Open Scope go_scope.

Module RlpTypes.

(** ** Types *)

(** Unsigned kinds: uint, uint8, ..., uintptr. *)
Inductive uwidth := WUint | W8 | W16 | W32 | W64 | WUintptr.

Definition Bits (w : uwidth) : Z :=
  match w with W8 => 8 | W16 => 16 | W32 => 32 | _ => 64 end.

Inductive typ :=
| TBool
| TUint (w : uwidth)
| TString
| TOther (name : string)          (* signed integers, floats, maps, channels, functions *)
| TSlice (e : typ)
| TArray (n : nat) (e : typ)
| TPtr (e : typ)
| TInterface (NumMethod : nat)
| TRawValue                        (* rlp.RawValue *)
| TBigInt                          (* big.Int *)
| TNamed (name : string).

#[export] Instance uwidth_eq_dec : EqDecision uwidth.
Proof. solve_decision. Defined.
#[export] Instance typ_eq_dec : EqDecision typ.
Proof. solve_decision. Defined.

Definition uwidth_nat (w : uwidth) : nat :=
  match w with WUint => 0 | W8 => 1 | W16 => 2 | W32 => 3 | W64 => 4 | WUintptr => 5 end.
Definition nat_uwidth (n : nat) : uwidth :=
  match n with 0%nat => WUint | 1%nat => W8 | 2%nat => W16 | 3%nat => W32 | 4%nat => W64
  | _ => WUintptr end.

Fixpoint typ_tree (t : typ) : gen_tree (nat + string) :=
  match t with
  | TBool => GenNode 0 []
  | TUint w => GenNode 1 [GenLeaf (inl (uwidth_nat w))]
  | TString => GenNode 2 []
  | TOther s => GenNode 3 [GenLeaf (inr s)]
  | TSlice e => GenNode 4 [typ_tree e]
  | TArray n e => GenNode 5 [GenLeaf (inl n); typ_tree e]
  | TPtr e => GenNode 6 [typ_tree e]
  | TInterface m => GenNode 7 [GenLeaf (inl m)]
  | TRawValue => GenNode 8 []
  | TBigInt => GenNode 9 []
  | TNamed s => GenNode 10 [GenLeaf (inr s)]
  end.
Fixpoint tree_typ (t : gen_tree (nat + string)) : typ :=
  match t with
  | GenNode 1 [GenLeaf (inl w)] => TUint (nat_uwidth w)
  | GenNode 2 [] => TString
  | GenNode 3 [GenLeaf (inr s)] => TOther s
  | GenNode 4 [e] => TSlice (tree_typ e)
  | GenNode 5 [GenLeaf (inl n); e] => TArray n (tree_typ e)
  | GenNode 6 [e] => TPtr (tree_typ e)
  | GenNode 7 [GenLeaf (inl m)] => TInterface m
  | GenNode 8 [] => TRawValue
  | GenNode 9 [] => TBigInt
  | GenNode 10 [GenLeaf (inr s)] => TNamed s
  | _ => TBool
  end.
#[export] Instance typ_countable : Countable typ.
Proof.
  refine (inj_countable' typ_tree tree_typ _).
  fix IH 1. intros [| [] | | | e | n e | e | | | |]; simpl; rewrite ?IH; reflexivity.
Defined.

(** ** Declarations *)

Inductive receiver := ValueReceiver | PointerReceiver.

Record sfield := { Name : string; Exported : bool; Tag : string; Type' : typ }.

Inductive underlying := UType (t : typ) | UStruct (fields : list sfield).

Record decl := {
  Under : underlying;
  EncodeRLP_on : option receiver;
  DecodeRLP_on : option receiver;
}.

Abbreviation decls := (gmap string decl) (only parsing).

(** [Kind], [Elem], [Len] and the fields of a type in one view. *)
Inductive view :=
| KBool | KUint (w : uwidth) | KString | KSlice (e : typ) | KArray (n : nat) (e : typ)
| KStruct (fields : list sfield) | KPtr (e : typ) | KInterface (m : nat) | KOther.

Definition view_plain (t : typ) : view :=
  match t with
  | TBool => KBool
  | TUint w => KUint w
  | TString => KString
  | TOther _ => KOther
  | TSlice e => KSlice e
  | TArray n e => KArray n e
  | TPtr e => KPtr e
  | TInterface m => KInterface m
  | TRawValue => KSlice (TUint W8)
  | TBigInt => KStruct []
  | TNamed _ => KOther
  end.

Section Decls.
Context (env : decls).

Definition kind_of (t : typ) : view :=
  match t with
  | TNamed n =>
      match env !! n with
      | Some d => match Under d with UType u => view_plain u | UStruct fs => KStruct fs end
      | None => KOther
      end
  | _ => view_plain t
  end.

(** [typ.Implements(encoderInterface)]: the method set of T has the methods
    with value receivers, that of *T has both. *)
Definition implements (m : decl -> option receiver) (t : typ) : bool :=
  match t with
  | TNamed n =>
      match env !! n with
      | Some d => match m d with Some ValueReceiver => true | _ => false end
      | None => false
      end
  | TPtr (TNamed n) =>
      match env !! n with
      | Some d => match m d with Some _ => true | None => false end
      | None => false
      end
  | _ => false
  end.

Definition ImplementsEncoder := implements EncodeRLP_on.
Definition ImplementsDecoder := implements DecodeRLP_on.

Definition is_ptr_kind (t : typ) : bool := match kind_of t with KPtr _ => true | _ => false end.

(** [typ.AssignableTo(reflect.PtrTo(bigInt))]: the same type, or a declared
    type with that underlying type. *)
Definition AssignableToBigPtr (t : typ) : bool :=
  match kind_of t with KPtr TBigInt => true | _ => false end.
Definition AssignableToBig (t : typ) : bool := bool_decide (t = TBigInt).

Definition isByte (t : typ) : bool :=
  match kind_of t with KUint W8 => negb (ImplementsEncoder t) | _ => false end.

(** ** Tags *)

Record tags := { nilOK : bool; tail : bool; ignored : bool }.
Definition no_tags : tags := {| nilOK := false; tail := false; ignored := false |}.

End Decls.

#[export] Instance tags_eq_dec : EqDecision tags.
Proof. solve_decision. Defined.
#[export] Instance tags_countable : Countable tags.
Proof.
  refine (inj_countable' (fun t => (nilOK t, tail t, ignored t))
    (fun '(a, b, c) => {| nilOK := a; tail := b; ignored := c |}) _).
  by intros [].
Defined.

(** ** Errors *)

Inductive error :=
| EOL
| ErrExpectedString | ErrExpectedList
| ErrCanonInt | ErrCanonSize
| ErrElemTooLarge | ErrValueTooLarge
| ErrMoreThanOneValue
| errNotInList | errNotAtEOL | errUintOverflow
| errNoPointer | errDecodeIntoNil
| io_EOF | io_ErrUnexpectedEOF
| decodeError (msg : string) (t : typ) (ctx : list string)
| notSerializable (t : typ)
| tailNotLast (t : typ) (f : string)
| tailNotSlice (t : typ) (f : string)
| unknownTag (tag : string) (t : typ) (f : string)
| negativeBigInt
| unaddressable (t : typ)
| invalidBool (n : Z)
| userError (msg : string).         (* returned by a type's own method, or by an io.Writer *)

#[export] Instance error_eq_dec : EqDecision error.
Proof. solve_decision. Defined.

(** ** Struct tags *)

Fixpoint Split_comma (cur s : string) : list string :=
  match s with
  | EmptyString => [cur]
  | String c s' =>
      if Ascii.eqb c (Ascii.ascii_of_nat 44) then cur :: Split_comma EmptyString s'
      else Split_comma (cur ++ String c EmptyString) s'
  end.

Definition is_space (c : Ascii.ascii) : bool :=
  let n := Ascii.nat_of_ascii c in
  (9 <=? n)%nat && (n <=? 13)%nat || (n =? 32)%nat.

Fixpoint TrimLeft (s : string) : string :=
  match s with
  | String c s' => if is_space c then TrimLeft s' else s
  | EmptyString => EmptyString
  end.
Definition TrimSpace (s : string) : string :=
  let rev s := String.string_of_list_ascii (List.rev (String.list_ascii_of_string s)) in
  rev (TrimLeft (rev (TrimLeft s))).

Section ParseTag.
Context (env : decls) (t : typ) (nfields : nat) (fi : nat) (f : sfield).

Fixpoint parse_tag_items (items : list string) (ts : tags) : error + tags :=
  match items with
  | [] => inr ts
  | i :: rest =>
      let i := TrimSpace i in
      if (i =? "")%string then parse_tag_items rest ts
      else if (i =? "-")%string then
        parse_tag_items rest {| nilOK := nilOK ts; tail := tail ts; ignored := true |}
      else if (i =? "nil")%string then
        parse_tag_items rest {| nilOK := true; tail := tail ts; ignored := ignored ts |}
      else if (i =? "tail")%string then
        if negb (fi =? nfields - 1)%nat then inl (tailNotLast t (Name f))
        else match kind_of env (Type' f) with
             | KSlice _ =>
                 parse_tag_items rest {| nilOK := nilOK ts; tail := true; ignored := ignored ts |}
             | _ => inl (tailNotSlice t (Name f))
             end
      else inl (unknownTag i t (Name f))
  end.

Definition parseStructTag : error + tags := parse_tag_items (Split_comma "" (Tag f)) no_tags.
End ParseTag.

(** ** Writers, decoders and the cache *)

Abbreviation loc := nat (only parsing).

Inductive nilfunc := NilString | NilList | NilZero (t : typ).

Inductive writer :=
| WRawValue | WEncoder | WEncoderNoPtr | WInterface | WBigIntPtr | WBigIntNoPtr
| WUintw | WBool | WString | WBytes | WByteArray
| WSlice (etypeinfo : loc) (tail : bool)
| WStruct (fields : list (nat * loc))
| WPtr (etypeinfo : loc) (nilfunc : nilfunc).

Inductive decoder :=
| DRawValue | DDecoder | DDecoderNoPtr | DBigInt | DBigIntNoPtr | DUint | DBool | DString
| DByteArray | DByteSlice
| DListArray (etypeinfo : loc)
| DSliceElems (etypeinfo : loc)
| DListSlice (etypeinfo : loc)
| DStruct (t : typ) (fields : list (nat * loc))
| DPtr (etype : typ) (etypeinfo : loc)
| DOptionalPtr (etype : typ) (etypeinfo : loc)
| DInterface.

Record typeinfo := { idecoder : decoder; iwriter : writer }.

Definition typekey : Type := typ * tags.

(** [typeCache] with the structs its values point to; [None] is a struct that
    is still zero, [owner] the key it was allocated for. *)
Record cell := { owner : typekey; content : option typeinfo }.
Record cache := { typeCache : gmap typekey loc; structs : list cell }.
Definition empty_cache : cache := {| typeCache := ∅; structs := [] |}.

(** A computation that may change the cache and return an error. *)
Definition G (A : Type) : Type := cache -> result (cache * (error + A)).
Definition gret {A} (a : A) : G A := fun tc => Ok (tc, inr a).
Definition gfail {A} (e : error) : G A := fun tc => Ok (tc, inl e).
Definition gbind {A B} (m : G A) (k : A -> G B) : G B := fun tc =>
  match m tc with
  | Ok (tc', inr a) => k a tc'
  | Ok (tc', inl e) => Ok (tc', inl e)
  | Panic => Panic
  | NoFuel => NoFuel
  end.
Notation "'let!' x := m 'in' k" := (gbind m (fun x => k))
  (at level 10, x pattern, m at level 200, k at level 200) : go_scope.

Definition allocate (k : typekey) : cache -> cache * loc := fun tc =>
  let l := length (structs tc) in
  ({| typeCache := <[k := l]> (typeCache tc);
      structs := structs tc ++ [{| owner := k; content := None |}] |}, l).
Definition forget (k : typekey) (tc : cache) : cache :=
  {| typeCache := delete k (typeCache tc); structs := structs tc |}.
(** [*typeCache[key] = *info]: a nil dereference when the key is absent. *)
Definition store (k : typekey) (info : typeinfo) (tc : cache) : result (cache * loc) :=
  match typeCache tc !! k with
  | Some l =>
      Ok ({| typeCache := typeCache tc;
             structs := <[l := {| owner := k; content := Some info |}]> (structs tc) |}, l)
  | None => Panic
  end.

Section Generate.
Context (env : decls).

Section Makers.
Context (cachedTypeInfo1 : typ -> tags -> G loc).

Fixpoint structFields_from (t : typ) (n i : nat) (fs : list sfield) : G (list (nat * loc)) :=
  match fs with
  | [] => gret []
  | f :: rest =>
      if Exported f then
        match parseStructTag env t n i f with
        | inl e => gfail e
        | inr ts =>
            if ignored ts then structFields_from t n (S i) rest
            else let! info := cachedTypeInfo1 (Type' f) ts in
                 let! fields := structFields_from t n (S i) rest in
                 gret ((i, info) :: fields)
        end
      else structFields_from t n (S i) rest
  end.

Definition structFields (t : typ) : G (list (nat * loc)) :=
  match kind_of env t with
  | KStruct fs => structFields_from t (length fs) 0 fs
  | _ => fun _ => Panic
  end.

Definition makeSliceWriter (e : typ) (ts : tags) : G writer :=
  let! etypeinfo := cachedTypeInfo1 e no_tags in
  gret (WSlice etypeinfo (tail ts)).

Definition makeStructWriter (t : typ) : G writer :=
  let! fields := structFields t in gret (WStruct fields).

Definition makePtrWriter (e : typ) : G writer :=
  let! etypeinfo := cachedTypeInfo1 e no_tags in
  gret (WPtr etypeinfo
    match kind_of env e with
    | KArray _ ee => if isByte env ee then NilString else NilList
    | KStruct _ => NilList
    | _ => NilZero e
    end).

Definition makeWriter (t : typ) (ts : tags) : G writer :=
  if bool_decide (t = TRawValue) then gret WRawValue
  else if ImplementsEncoder env t then gret WEncoder
  else if negb (is_ptr_kind env t) && ImplementsEncoder env (TPtr t) then gret WEncoderNoPtr
  else match kind_of env t with
  | KInterface _ => gret WInterface
  | k =>
      if AssignableToBigPtr env t then gret WBigIntPtr
      else if AssignableToBig t then gret WBigIntNoPtr
      else match k with
      | KUint _ => gret WUintw
      | KBool => gret WBool
      | KString => gret WString
      | KSlice e => if isByte env e then gret WBytes else makeSliceWriter e ts
      | KArray _ e => if isByte env e then gret WByteArray else makeSliceWriter e ts
      | KStruct _ => makeStructWriter t
      | KPtr e => makePtrWriter e
      | _ => gfail (notSerializable t)
      end
  end.

Definition makeListDecoder (e : typ) (is_array : bool) (ts : tags) : G decoder :=
  match kind_of env e, ImplementsDecoder env (TPtr e) with
  | KUint W8, false => gret (if is_array then DByteArray else DByteSlice)
  | _, _ =>
      let! etypeinfo := cachedTypeInfo1 e no_tags in
      gret (if is_array then DListArray etypeinfo
            else if tail ts then DSliceElems etypeinfo
            else DListSlice etypeinfo)
  end.

Definition makeStructDecoder (t : typ) : G decoder :=
  let! fields := structFields t in gret (DStruct t fields).

Definition makePtrDecoder (e : typ) : G decoder :=
  let! etypeinfo := cachedTypeInfo1 e no_tags in gret (DPtr e etypeinfo).

Definition makeOptionalPtrDecoder (e : typ) : G decoder :=
  let! etypeinfo := cachedTypeInfo1 e no_tags in gret (DOptionalPtr e etypeinfo).

Definition makeDecoder (t : typ) (ts : tags) : G decoder :=
  if bool_decide (t = TRawValue) then gret DRawValue
  else if ImplementsDecoder env t then gret DDecoder
  else if negb (is_ptr_kind env t) && ImplementsDecoder env (TPtr t) then gret DDecoderNoPtr
  else if AssignableToBigPtr env t then gret DBigInt
  else if AssignableToBig t then gret DBigIntNoPtr
  else match kind_of env t with
  | KUint _ => gret DUint
  | KBool => gret DBool
  | KString => gret DString
  | KSlice e => makeListDecoder e false ts
  | KArray _ e => makeListDecoder e true ts
  | KStruct _ => makeStructDecoder t
  | KPtr e => if nilOK ts then makeOptionalPtrDecoder e else makePtrDecoder e
  | KInterface _ => gret DInterface
  | KOther => gfail (notSerializable t)
  end.

Definition genTypeInfo (t : typ) (ts : tags) : G typeinfo :=
  let! d := makeDecoder t ts in
  let! w := makeWriter t ts in
  gret {| idecoder := d; iwriter := w |}.

End Makers.

Fixpoint cachedTypeInfo1 (fuel : nat) (t : typ) (ts : tags) : G loc := fun tc =>
  match fuel with
  | O => NoFuel
  | S fuel =>
      match typeCache tc !! (t, ts) with
      | Some info => Ok (tc, inr info)
      | None =>
          let '(tc, _) := allocate (t, ts) tc in
          match genTypeInfo (cachedTypeInfo1 fuel) t ts tc with
          | Ok (tc, inl err) => Ok (forget (t, ts) tc, inl err)
          | Ok (tc, inr info) =>
              let? (tc, l) := store (t, ts) info tc in Ok (tc, inr l)
          | Panic => Panic
          | NoFuel => NoFuel
          end
      end
  end.

(** The two look-ups (under the read lock, then under the write lock) see the
    same cache unless another goroutine fills the key in between, in which
    case the second returns what the first would have. *)
Definition cachedTypeInfo (fuel : nat) (t : typ) (ts : tags) : G loc := fun tc =>
  match typeCache tc !! (t, ts) with
  | Some info => Ok (tc, inr info)
  | None => cachedTypeInfo1 fuel t ts tc
  end.

End Generate.

(** The function behind a pointer; calling one of a zero struct panics. *)
Definition info_at (tc : cache) (l : loc) : result typeinfo :=
  match structs tc !! l with
  | Some {| content := Some info |} => Ok info
  | _ => Panic
  end.

(** ** Values

    [VBytes] is a slice or an array whose elements have kind uint8, [VSlice]
    any other slice with the elements between its length and its capacity.
    A pointer owns what it points to. *)
#[warnings="-register-all"]
Inductive val :=
| VUint (n : Z)
| VBool (b : bool)
| VString (s : bytes)
| VBytes (b : bytes)
| VBig (z : Z)
| VPtr (p : option val)
| VSlice (elems spare : list val)
| VArray (elems : list val)
| VStruct (fields : list val)
| VIface (v : option (typ * val))
| VOther.

Fixpoint rmap {A B} (f : A -> result B) (l : list A) : result (list B) :=
  match l with
  | [] => Ok []
  | a :: l => let? b := f a in let? bs := rmap f l in Ok (b :: bs)
  end.

(** [reflect.Zero]; the fuel bounds the nesting of arrays and structs. *)
Fixpoint Zero (env : decls) (fuel : nat) (t : typ) : result val :=
  match fuel with
  | O => NoFuel
  | S fuel =>
      match kind_of env t with
      | KBool => Ok (VBool false)
      | KUint _ => Ok (VUint 0)
      | KString => Ok (VString [])
      | KSlice e =>
          Ok match kind_of env e with KUint W8 => VBytes [] | _ => VSlice [] [] end
      | KArray n e =>
          match kind_of env e with
          | KUint W8 => Ok (VBytes (replicate n 0))
          | _ => let? z := Zero env fuel e in Ok (VArray (replicate n z))
          end
      | KStruct fs =>
          if bool_decide (t = TBigInt) then Ok (VBig 0)
          else let? zs := rmap (fun f => Zero env fuel (Type' f)) fs in Ok (VStruct zs)
      | KPtr _ => Ok (VPtr None)
      | KInterface _ => Ok (VIface None)
      | KOther => Ok VOther
      end
  end.

End RlpTypes.
