(* ===== verification/RlpEncode.v ===== *)
(** * RLP: the encoder

    Translates [src/rlp/encode.go]: integer and header output, the [encbuf]
    that collects string data and leaves the list headers for later, its three
    ways out ([toBytes], [toWriter], [encReader]) and the writers of every
    type ([makeWriter] itself is in [RlpTypes.v]).

    A [*listhead] is an index into [lheads].  The 9-byte [sizebuf] is a
    scratch buffer whose content never outlives a call; [scratch] stands for
    it.  Sizes are lengths of data in memory, so [int] does not wrap.

    The methods of user types, [EncodeRLP] and [Write], are parameters. *)

From Stdlib Require Import String.
From stdpp Require Import base list numbers option strings gmap.
From S2P Require Import Prelude BigInt RlpTypes.

#[local] Open Scope Z_scope.
#[local] Open Scope go_scope.

Module RlpEncode.
Import RlpTypes.

(** ** Integers and headers *)

Definition byte (x : Z) : Z := x mod 256.

Fixpoint assign_from (b : bytes) (i : Z) (l : bytes) : result bytes :=
  match l with
  | [] => Ok b
  | x :: l => let? b := update b i x in assign_from b (i + 1) l
  end.
(** [b[0] = l_0; b[1] = l_1; ...; return len l] *)
Definition put (b l : bytes) : result (bytes * Z) :=
  let? b := assign_from b 0 l in Ok (b, len l).

Definition putint (b : bytes) (i : Z) : result (bytes * Z) :=
  let at' k := byte (Z.shiftr i k) in
  if i <? 2 ^ 8 then put b [byte i]
  else if i <? 2 ^ 16 then put b [at' 8; byte i]
  else if i <? 2 ^ 24 then put b [at' 16; at' 8; byte i]
  else if i <? 2 ^ 32 then put b [at' 24; at' 16; at' 8; byte i]
  else if i <? 2 ^ 40 then put b [at' 32; at' 24; at' 16; at' 8; byte i]
  else if i <? 2 ^ 48 then put b [at' 40; at' 32; at' 24; at' 16; at' 8; byte i]
  else if i <? 2 ^ 56 then put b [at' 48; at' 40; at' 32; at' 24; at' 16; at' 8; byte i]
  else put b [at' 56; at' 48; at' 40; at' 32; at' 24; at' 16; at' 8; byte i].

(** A uint64 is zero after eight shifts. *)
Fixpoint intsize_go (n : nat) (size i : Z) : Z :=
  let i := Z.shiftr i 8 in
  if i =? 0 then size
  else match n with O => size | S n => intsize_go n (size + 1) i end.
Definition intsize (i : Z) : Z := intsize_go 8 1 i.

Definition headsize (size : Z) : Z := if size <? 56 then 1 else 1 + intsize size.

(** [putint(b[1:], i)]. *)
Definition putint1 (b : bytes) (i : Z) : result (bytes * Z) :=
  let? rest := slice b 1 (len b) in
  let? (rest, n) := putint rest i in
  Ok (take 1 b ++ rest, n).

Definition puthead (buf : bytes) (smalltag largetag size : Z) : result (bytes * Z) :=
  if size <? 56 then
    let? buf := update buf 0 (byte (smalltag + byte size)) in Ok (buf, 1)
  else
    let? (buf, sizesize) := putint1 buf size in
    let? buf := update buf 0 (byte (largetag + byte sizesize)) in
    Ok (buf, sizesize + 1).

(** ** The buffer *)

Record listhead := { offset : Z; size : Z }.

(** [head.encode(buf)]: the buffer after the call and the encoded bytes. *)
Definition encode_head (head : listhead) (buf : bytes) : result (bytes * bytes) :=
  let? (buf, n) := puthead buf 192 247 (u64 (size head)) in
  let? enc := slice buf 0 n in
  Ok (buf, enc).

Record encbuf := { str : bytes; lheads : list listhead; lhsize : Z }.
Definition scratch : bytes := zeros 9.

Definition empty_encbuf : encbuf := {| str := []; lheads := []; lhsize := 0 |}.
Definition reset (w : encbuf) : encbuf :=
  {| str := take 0 (str w); lheads := take 0 (lheads w); lhsize := 0 |}.

Definition append (w : encbuf) (b : bytes) : encbuf :=
  {| str := str w ++ b; lheads := lheads w; lhsize := lhsize w |}.
Definition Write (w : encbuf) (b : bytes) : encbuf * (Z * option error) :=
  (append w b, (len b, None)).

Definition encodeStringHeader (w : encbuf) (size : Z) : result encbuf :=
  if size <? 56 then Ok (append w [byte (128 + byte size)])
  else
    let? (sizebuf, sizesize) := putint1 scratch (u64 size) in
    let? sizebuf := update sizebuf 0 (byte (183 + byte sizesize)) in
    let? b := slice sizebuf 0 (sizesize + 1) in
    Ok (append w b).

Definition encodeString (w : encbuf) (b : bytes) : result encbuf :=
  match b with
  | [x] => if x <=? 127 then Ok (append w [x])
           else let? w := encodeStringHeader w (len b) in Ok (append w b)
  | _ => let? w := encodeStringHeader w (len b) in Ok (append w b)
  end.

Definition encbuf_size (w : encbuf) : Z := len (str w) + lhsize w.

Definition encbuf_list (w : encbuf) : encbuf * nat :=
  ({| str := str w;
      lheads := lheads w ++ [{| offset := len (str w); size := lhsize w |}];
      lhsize := lhsize w |}, length (lheads w)).

Definition listEnd (w : encbuf) (lh : nat) : result encbuf :=
  let? h := index (lheads w) (Z.of_nat lh) in
  let n := encbuf_size w - offset h - size h in
  Ok {| str := str w;
        lheads := <[lh := {| offset := offset h; size := n |}]> (lheads w);
        lhsize := lhsize w + (if n <? 56 then 1 else 1 + intsize (u64 n)) |}.

(** ** Output *)

Fixpoint toBytes_loop (w : encbuf) (heads : list listhead) (out : bytes) (pos strpos : Z)
  : result (bytes * Z * Z) :=
  match heads with
  | [] => Ok (out, pos, strpos)
  | head :: heads =>
      let? before := slice (str w) strpos (offset head) in
      let n := Z.min (len out - pos) (len before) in
      let? out := copy_at out pos (len out) before in
      let pos := pos + n in
      let strpos := strpos + n in
      let? rest := slice out pos (len out) in
      let? (rest, enc) := encode_head head rest in
      toBytes_loop w heads (take (Z.to_nat pos) out ++ rest) (pos + len enc) strpos
  end.

Definition toBytes (w : encbuf) : result bytes :=
  let? (out, pos, strpos) := toBytes_loop w (lheads w) (zeros (encbuf_size w)) 0 0 in
  let? rest := slice (str w) strpos (len (str w)) in
  copy_at out pos (len out) rest.

Section ToWriter.
(** An [io.Writer]: its state and its [Write]. *)
Context {S : Type} (write : S -> bytes -> S * (Z * option error)).

Fixpoint toWriter_loop (w : encbuf) (heads : list listhead) (out : S) (strpos : Z)
  : result (S * (Z * option error)) :=
  match heads with
  | [] => Ok (out, (strpos, None))
  | head :: heads =>
      let header (out : S) (strpos : Z) :=
        let? (_, enc) := encode_head head scratch in
        match write out enc with
        | (out, (_, Some err)) => Ok (out, (strpos, Some err))
        | (out, (_, None)) => toWriter_loop w heads out strpos
        end in
      if offset head - strpos >? 0 then
        let? before := slice (str w) strpos (offset head) in
        match write out before with
        | (out, (n, Some err)) => Ok (out, (strpos + n, Some err))
        | (out, (n, None)) => header out (strpos + n)
        end
      else header out strpos
  end.

Definition toWriter (w : encbuf) (out : S) : result (S * option error) :=
  let? (out, (strpos, err)) := toWriter_loop w (lheads w) out 0 in
  match err with
  | Some err => Ok (out, Some err)
  | None =>
      if strpos <? len (str w) then
        let? rest := slice (str w) strpos (len (str w)) in
        match write out rest with (out, (_, err)) => Ok (out, err) end
      else Ok (out, None)
  end.
End ToWriter.

(** ** [encReader] *)

Record encReader := { buf : option encbuf; lhpos : Z; strpos : Z; piece : option bytes }.

Definition next (r : encReader) : result (encReader * option bytes) :=
  match buf r, piece r with
  | None, _ => Ok (r, None)
  | Some _, Some p => Ok (r, Some p)
  | Some w, None =>
      if lhpos r <? len (lheads w) then
        let? head := index (lheads w) (lhpos r) in
        let sizebefore := offset head - strpos r in
        if sizebefore >? 0 then
          let? p := slice (str w) (strpos r) (offset head) in
          Ok ({| buf := buf r; lhpos := lhpos r; strpos := strpos r + sizebefore;
                 piece := piece r |}, Some p)
        else
          let? (_, enc) := encode_head head scratch in
          Ok ({| buf := buf r; lhpos := lhpos r + 1; strpos := strpos r; piece := piece r |},
              Some enc)
      else if strpos r <? len (str w) then
        let? p := slice (str w) (strpos r) (len (str w)) in
        Ok ({| buf := buf r; lhpos := lhpos r; strpos := len (str w); piece := piece r |}, Some p)
      else Ok (r, None)
  end.

Definition set_piece (r : encReader) (p : option bytes) : encReader :=
  {| buf := buf r; lhpos := lhpos r; strpos := strpos r; piece := p |}.

(** [Read] into a slice of [room] bytes that already holds [got]: what was
    read and whether [io.EOF] was returned. *)
Fixpoint Read_loop (fuel : nat) (r : encReader) (got : bytes) (room : Z)
  : result (encReader * bytes * bool) :=
  match fuel with
  | O => NoFuel
  | Datatypes.S fuel =>
      let? (r, p) := next r in
      let r := set_piece r p in
      match p with
      | None => Ok ({| buf := None; lhpos := lhpos r; strpos := strpos r; piece := None |}, got, true)
      | Some p =>
          let nn := Z.min room (len p) in
          let got := got ++ take (Z.to_nat nn) p in
          if nn <? len p then
            Ok (set_piece r (Some (drop (Z.to_nat nn) p)), got, false)
          else Read_loop fuel (set_piece r None) got (room - nn)
      end
  end.

(** There are at most two pieces per list header and two more. *)
Definition read_fuel (r : encReader) : nat :=
  match buf r with Some w => 2 * length (lheads w) + 4 | None => 1 end.
Definition Read (r : encReader) (n : Z) : result (encReader * bytes * bool) :=
  Read_loop (read_fuel r) r [] n.

(** ** Writers *)

(** The [EncodeRLP] method of a declared type, or of a pointer to one. *)
Record Encoders := { EncodeRLP : typ -> val -> encbuf -> result (encbuf * option error) }.

Definition writeRawValue (b : bytes) (w : encbuf) : encbuf := append w b.

Definition writeUint (i : Z) (w : encbuf) : result encbuf :=
  if i =? 0 then Ok (append w [128])
  else if i <? 128 then Ok (append w [byte i])
  else
    let? (sizebuf, s) := putint1 scratch i in
    let? sizebuf := update sizebuf 0 (byte (128 + byte s)) in
    let? b := slice sizebuf 0 (s + 1) in
    Ok (append w b).

Definition writeBool (b : bool) (w : encbuf) : encbuf :=
  if b then append w [1] else append w [128].

Definition writeBigInt (i : Z) (w : encbuf) : result (encbuf * option error) :=
  match i ?= 0 with
  | Lt => Ok (w, Some negativeBigInt)
  | Eq => Ok (append w [128], None)
  | Gt => let? w := encodeString w (Big.Bytes i) in Ok (w, None)
  end.

Definition writeString (s : bytes) (w : encbuf) : result encbuf :=
  match s with
  | [x] => if x <=? 127 then Ok (append w [x])
           else let? w := encodeStringHeader w (len s) in Ok (append w s)
  | _ => let? w := encodeStringHeader w (len s) in Ok (append w s)
  end.

(** The elements of a slice or array as values of the element type. *)
Definition elements (v : val) : option (list val) :=
  match v with
  | VSlice l _ => Some l
  | VArray l => Some l
  | VBytes b => Some (map VUint b)
  | _ => None
  end.

(** The value of type [t] behind a [reflect.Value] of array kind is
    addressable when the array is; slice elements always are. *)
Definition elem_addr (addr : bool) (v : val) : bool :=
  match v with VSlice _ _ => true | _ => addr end.

Definition E : Type := cache -> encbuf -> result (cache * encbuf * option error).

Definition pure_writer (f : encbuf -> result encbuf) : E := fun tc w =>
  let? w := f w in Ok (tc, w, None).
Definition user_writer (f : encbuf -> result (encbuf * option error)) : E := fun tc w =>
  let? (w, err) := f w in Ok (tc, w, err).

(** Writers in sequence, until one returns an error. *)
Fixpoint seqE (fs : list E) : E := fun tc w =>
  match fs with
  | [] => Ok (tc, w, None)
  | f :: fs =>
      let? (tc, w, err) := f tc w in
      match err with Some e => Ok (tc, w, Some e) | None => seqE fs tc w end
  end.

Section Writers.
Context (env : decls) (enc : Encoders) (gen_fuel : nat).

Definition elem_type (t : typ) : typ :=
  match kind_of env t with KSlice e => e | KArray _ e => e | KPtr e => e | _ => t end.

Definition field_type (t : typ) (i : nat) : typ :=
  match kind_of env t with
  | KStruct fs => match fs !! i with Some f => Type' f | None => t end
  | _ => t
  end.

(** Run a writer on the [reflect.Value] ([t], [v]), addressable or not. *)
Fixpoint run_writer (fuel : nat) (wr : writer) (t : typ) (addr : bool) (v : val) : E :=
  match fuel with
  | O => fun _ _ => NoFuel
  | Datatypes.S fuel =>
      let at_info (l : loc) (t : typ) (addr : bool) (v : val) : E := fun tc w =>
        let? info := info_at tc l in run_writer fuel (iwriter info) t addr v tc w in
      match wr, v with
      | WRawValue, VBytes b => pure_writer (fun w => Ok (writeRawValue b w))
      | WEncoder, _ => user_writer (EncodeRLP enc t v)
      | WEncoderNoPtr, _ =>
          if addr then user_writer (EncodeRLP enc (TPtr t) (VPtr (Some v)))
          else fun tc w => Ok (tc, w, Some (unaddressable t))
      | WInterface, VIface None => pure_writer (fun w => Ok (append w [192]))
      | WInterface, VIface (Some (et, ev)) => fun tc w =>
          let? (tc, r) := cachedTypeInfo env gen_fuel et no_tags tc in
          match r with
          | inl err => Ok (tc, w, Some err)
          | inr l => at_info l et false ev tc w
          end
      | WBigIntPtr, VPtr p =>
          (* [val.Interface().] with a declared pointer type is not a [*big.Int] *)
          if bool_decide (t = TPtr TBigInt) then
            match p with
            | None => pure_writer (fun w => Ok (append w [128]))
            | Some (VBig i) => user_writer (writeBigInt i)
            | Some _ => fun _ _ => Panic
            end
          else fun _ _ => Panic
      | WBigIntNoPtr, VBig i => user_writer (writeBigInt i)
      | WUintw, VUint i => pure_writer (writeUint i)
      | WBool, VBool b => pure_writer (fun w => Ok (writeBool b w))
      | WString, VString s => pure_writer (writeString s)
      | WBytes, VBytes b => pure_writer (fun w => encodeString w b)
      | WByteArray, VBytes b => pure_writer (fun w => encodeString w b)
      | WSlice l tail, _ =>
          match elements v with
          | None => fun _ _ => Panic
          | Some vs => fun tc w =>
              let all := seqE (map (at_info l (elem_type t) (elem_addr addr v)) vs) in
              if tail then all tc w
              else
                let '(w, lh) := encbuf_list w in
                let? (tc, w, err) := all tc w in
                let? w := listEnd w lh in Ok (tc, w, err)
          end
      | WStruct fields, VStruct vs => fun tc w =>
          let '(w, lh) := encbuf_list w in
          let? (tc, w, err) :=
            seqE (map (fun '(i, l) =>
              match vs !! i with
              | Some fv => at_info l (field_type t i) addr fv
              | None => fun _ _ => Panic
              end) fields) tc w in
          match err with
          | Some e => Ok (tc, w, Some e)
          | None => let? w := listEnd w lh in Ok (tc, w, None)
          end
      | WPtr l nilf, VPtr None =>
          match nilf with
          | NilString => pure_writer (fun w => Ok (append w [128]))
          | NilList => pure_writer (fun w => let '(w, lh) := encbuf_list w in listEnd w lh)
          | NilZero zt => fun tc w =>
              let? z := Zero env gen_fuel zt in at_info l zt false z tc w
          end
      | WPtr l _, VPtr (Some pv) => at_info l (elem_type t) true pv
      | _, _ => fun _ _ => Panic
      end
  end.

Definition encode (fuel : nat) (t : typ) (v : val) : E := fun tc w =>
  let? (tc, r) := cachedTypeInfo env gen_fuel t no_tags tc in
  match r with
  | inl err => Ok (tc, w, Some err)
  | inr l => let? info := info_at tc l in run_writer fuel (iwriter info) t false v tc w
  end.

(** [old] is the buffer taken from the pool. *)
Definition EncodeToBytes (fuel : nat) (old : encbuf) (t : typ) (v : val) (tc : cache)
  : result (cache * (error + bytes)) :=
  let? (tc, w, err) := encode fuel t v tc (reset old) in
  match err with
  | Some e => Ok (tc, inl e)
  | None => let? b := toBytes w in Ok (tc, inr b)
  end.

Definition EncodeToReader (fuel : nat) (old : encbuf) (t : typ) (v : val) (tc : cache)
  : result (cache * (error + (Z * encReader))) :=
  let? (tc, w, err) := encode fuel t v tc (reset old) in
  Ok (tc, match err with
          | Some e => inl e
          | None => inr (encbuf_size w,
              {| buf := Some w; lhpos := 0; strpos := 0; piece := None |})
          end).

(** [Encode] to an [io.Writer] that is not an [encbuf]; to an [encbuf] it is
    [encode]. *)
Definition Encode {S} (write : S -> bytes -> S * (Z * option error)) (fuel : nat) (old : encbuf)
    (t : typ) (v : val) (tc : cache) (out : S) : result (cache * S * option error) :=
  let? (tc, w, err) := encode fuel t v tc (reset old) in
  match err with
  | Some e => Ok (tc, out, Some e)
  | None => let? (out, err) := toWriter write w out in Ok (tc, out, err)
  end.

End Writers.
End RlpEncode.
