(* ===== verification/RlpDecode.v ===== *)
(** * RLP: the decoder

    Translates [src/rlp/decode.go]: the [Stream] that reads headers and
    content, its limits and its stack of enclosing lists, the decoders of
    every type, [Decode] and [DecodeBytes]; and [src/rlp/raw.go].

    A reader delivers a finite sequence of bytes and then [io.EOF]; some
    readers return [io.EOF] together with their last bytes, which the
    interface allows ([eof_with_data]).  The stack of a stream is kept with
    the innermost list first, [kind = None] is the value -1, and [uintbuf] is
    a scratch buffer.  A decoder gets the current content of its target and
    returns the new one, also when it fails. *)

From Stdlib Require Import String.
From stdpp Require Import base list numbers option strings pretty gmap.
From S2P Require Import Prelude BigInt RlpTypes RlpEncode.

#[local] Open Scope Z_scope.
#[local] Open Scope go_scope.

Module RlpDecode.
Import RlpTypes.

(** ** The stream *)

Inductive Kind := Byte | String | List.
#[export] Instance Kind_eq_dec : EqDecision Kind.
Proof. solve_decision. Defined.

Inductive readerType := BytesReader | StringsReader | OtherReader.
Record reader := { data : bytes; rtype : readerType; eof_with_data : bool }.

Record listpos := { pos : Z; lsize : Z }.

Record Stream := {
  r : reader;
  remaining : Z;
  limited : bool;
  kind : option Kind;
  size : Z;
  byteval : Z;
  kinderr : option error;
  stack : list listpos;
}.

Definition set_r x s := {| r := x; remaining := remaining s; limited := limited s;
  kind := kind s; size := size s; byteval := byteval s; kinderr := kinderr s; stack := stack s |}.
Definition set_remaining x s := {| r := r s; remaining := x; limited := limited s;
  kind := kind s; size := size s; byteval := byteval s; kinderr := kinderr s; stack := stack s |}.
Definition set_kind x s := {| r := r s; remaining := remaining s; limited := limited s;
  kind := x; size := size s; byteval := byteval s; kinderr := kinderr s; stack := stack s |}.
Definition set_size x s := {| r := r s; remaining := remaining s; limited := limited s;
  kind := kind s; size := x; byteval := byteval s; kinderr := kinderr s; stack := stack s |}.
Definition set_byteval x s := {| r := r s; remaining := remaining s; limited := limited s;
  kind := kind s; size := size s; byteval := x; kinderr := kinderr s; stack := stack s |}.
Definition set_kinderr x s := {| r := r s; remaining := remaining s; limited := limited s;
  kind := kind s; size := size s; byteval := byteval s; kinderr := x; stack := stack s |}.
Definition set_stack x s := {| r := r s; remaining := remaining s; limited := limited s;
  kind := kind s; size := size s; byteval := byteval s; kinderr := kinderr s; stack := x |}.
Definition set_data x s :=
  set_r {| data := x; rtype := rtype (r s); eof_with_data := eof_with_data (r s) |} s.

Definition rearm (s : Stream) : Stream := set_kind None s.

Definition Reset (s : Stream) (rd : reader) (inputLimit : Z) : Stream :=
  let '(rem, lim) :=
    if inputLimit >? 0 then (inputLimit, true)
    else match rtype rd with
         | BytesReader => (u64 (len (data rd)), true)
         | StringsReader => (u64 (len (data rd)), true)
         | OtherReader => (remaining s, false)
         end in
  {| r := rd; remaining := rem; limited := lim; kind := None; size := 0;
     byteval := byteval s; kinderr := None; stack := [] |}.

(** [new(Stream)] *)
Definition zero_stream : Stream :=
  {| r := {| data := []; rtype := OtherReader; eof_with_data := false |};
     remaining := 0; limited := false; kind := Some Byte; size := 0; byteval := 0;
     kinderr := None; stack := [] |}.

Definition NewStream (rd : reader) (inputLimit : Z) : Stream := Reset zero_stream rd inputLimit.

Definition NewListStream (rd : reader) (n : Z) : Stream :=
  set_size n (set_kind (Some List) (Reset zero_stream rd n)).

(** ** Reading *)

Definition willRead (n : Z) (s : Stream) : Stream * option error :=
  let s := rearm s in
  let limit (s : Stream) :=
    if limited s then
      if n >? remaining s then (s, Some ErrValueTooLarge)
      else (set_remaining (u64 (remaining s - n)) s, None)
    else (s, None) in
  match stack s with
  | tos :: below =>
      if n >? u64 (lsize tos - pos tos) then (s, Some ErrElemTooLarge)
      else limit (set_stack ({| pos := u64 (pos tos + n); lsize := lsize tos |} :: below) s)
  | [] => limit s
  end.

Definition readByte (s : Stream) : Stream * (error + Z) :=
  match willRead 1 s with
  | (s, Some err) => (s, inl err)
  | (s, None) =>
      match data (r s) with
      | b :: rest => (set_data rest s, inr b)
      | [] => (s, inl io_ErrUnexpectedEOF)
      end
  end.

(** [readFull] of a buffer of [n] bytes: the bytes that arrived, and the error. *)
Definition readFull (n : Z) (s : Stream) : Stream * (bytes * option error) :=
  match willRead n s with
  | (s, Some err) => (s, ([], Some err))
  | (s, None) =>
      let d := data (r s) in
      let got := take (Z.to_nat n) d in
      let s' := set_data (drop (Z.to_nat n) d) s in
      if len d <? n then (s', (got, Some io_ErrUnexpectedEOF))
      else if eof_with_data (r s) && (0 <? n) && (len d =? n)
           then (s', (got, Some io_ErrUnexpectedEOF))
      else (s', (got, None))
  end.

Definition readUint (size : Z) (s : Stream) : Stream * (error + Z) :=
  if size =? 0 then (rearm s, inr 0)
  else if size =? 1 then readByte s
  else
    match readFull size s with
    | (s, (_, Some err)) => (s, inl err)
    | (s, (got, None)) =>
        match got with
        | 0 :: _ => (s, inl ErrCanonSize)
        | _ => (s, inr (Big.SetBytes (zeros (8 - size) ++ got)))
        end
    end.

Definition readKind (s : Stream) : Stream * (Kind * Z * option error) :=
  let long (k : Kind) (n : Z) (s : Stream) :=
    match readUint n s with
    | (s, inl err) => (s, (k, 0, Some err))
    | (s, inr size) => (s, (k, size, if size <? 56 then Some ErrCanonSize else None))
    end in
  match readByte s with
  | (s, inl err) =>
      let err := match stack s with
        | [] => match err with
                | io_ErrUnexpectedEOF => io_EOF
                | ErrValueTooLarge => io_EOF
                | _ => err
                end
        | _ => err
        end in
      (s, (Byte, 0, Some err))
  | (s, inr b) =>
      let s := set_byteval 0 s in
      if b <? 128 then (set_byteval b s, (Byte, 0, None))
      else if b <? 184 then (s, (String, b - 128, None))
      else if b <? 192 then long String (b - 183) s
      else if b <? 248 then (s, (List, b - 192, None))
      else long List (b - 247) s
  end.

(** [s.Kind()]. *)
Definition StreamKind (s : Stream) : Stream * (error + Kind * Z) :=
  let answer (s : Stream) :=
    (s, match kinderr s with
        | Some err => inl err
        | None => inr (default Byte (kind s), size s)
        end) in
  match kind s with
  | Some _ => answer s
  | None =>
      let s := set_kinderr None s in
      let read :=
        let '(s, (k, n, err)) := readKind s in
        let s := set_kinderr err (set_size n (set_kind (Some k) s)) in
        answer match err with
               | Some _ => s
               | None =>
                   match stack s with
                   | [] =>
                       if limited s && (n >? remaining s)
                       then set_kinderr (Some ErrValueTooLarge) s else s
                   | tos :: _ =>
                       if n >? u64 (lsize tos - pos tos)
                       then set_kinderr (Some ErrElemTooLarge) s else s
                   end
               end in
      match stack s with
      | [] => read
      | tos :: _ => if pos tos =? lsize tos then (s, inl EOL) else read
      end
  end.

(** ** Stream operations *)

(** [make([]byte, n)] panics above the largest allocation of 64-bit platforms. *)
Definition maxAlloc : Z := 2 ^ 48.

Definition Bytes (s : Stream) : result (Stream * (error + bytes)) :=
  match StreamKind s with
  | (s, inl err) => Ok (s, inl err)
  | (s, inr (Byte, _)) => Ok (rearm s, inr [byteval s])
  | (s, inr (String, n)) =>
      if maxAlloc <? n then Panic else
      match readFull n s with
      | (s, (_, Some err)) => Ok (s, inl err)
      | (s, (b, None)) =>
          Ok (s, match b with
                 | [x] => if x <? 128 then inl ErrCanonSize else inr b
                 | _ => inr b
                 end)
      end
  | (s, inr (List, _)) => Ok (s, inl ErrExpectedString)
  end.

Definition Raw (s : Stream) : result (Stream * (error + bytes)) :=
  match StreamKind s with
  | (s, inl err) => Ok (s, inl err)
  | (s, inr (Byte, _)) => Ok (rearm s, inr [byteval s])
  | (s, inr (k, n)) =>
      let start := RlpEncode.headsize n in
      let total := u64 (u64 start + n) in
      if (maxAlloc <? total) || (total <? start) then Panic else
      match readFull (total - start) s with
      | (s, (_, Some err)) => Ok (s, inl err)
      | (s, (content, None)) =>
          let buf := zeros start ++ content in
          let? (buf, _) :=
            match k with
            | String => RlpEncode.puthead buf 128 183 n
            | _ => RlpEncode.puthead buf 192 247 n
            end in
          Ok (s, inr buf)
      end
  end.

Definition uint (maxbits : Z) (s : Stream) : Stream * (error + Z) :=
  match StreamKind s with
  | (s, inl err) => (s, inl err)
  | (s, inr (Byte, _)) =>
      if byteval s =? 0 then (s, inl ErrCanonInt) else (rearm s, inr (byteval s))
  | (s, inr (String, n)) =>
      if n >? maxbits / 8 then (s, inl errUintOverflow)
      else match readUint n s with
           | (s, inl ErrCanonSize) => (s, inl ErrCanonInt)
           | (s, inl err) => (s, inl err)
           | (s, inr v) => (s, if (0 <? n) && (v <? 128) then inl ErrCanonSize else inr v)
           end
  | (s, inr (List, _)) => (s, inl ErrExpectedString)
  end.

Definition Uint (s : Stream) : Stream * (error + Z) := uint 64 s.

Definition StreamBool (s : Stream) : Stream * (error + bool) :=
  match uint 8 s with
  | (s, inl err) => (s, inl err)
  | (s, inr 0) => (s, inr false)
  | (s, inr 1) => (s, inr true)
  | (s, inr n) => (s, inl (invalidBool n))
  end.

Definition StreamList (s : Stream) : Stream * (error + Z) :=
  match StreamKind s with
  | (s, inl err) => (s, inl err)
  | (s, inr (List, n)) =>
      (set_size 0 (rearm (set_stack ({| pos := 0; lsize := n |} :: stack s) s)), inr n)
  | (s, inr _) => (s, inl ErrExpectedList)
  end.

Definition ListEnd (s : Stream) : Stream * option error :=
  match stack s with
  | [] => (s, Some errNotInList)
  | tos :: below =>
      if negb (pos tos =? lsize tos) then (s, Some errNotAtEOL)
      else
        let below := match below with
          | p :: rest => {| pos := u64 (pos p + lsize tos); lsize := lsize p |} :: rest
          | [] => []
          end in
        (set_size 0 (rearm (set_stack below s)), None)
  end.

(** ** Errors with context *)

Fixpoint typ_name (t : typ) : string :=
  match t with
  | TBool => "bool"
  | TUint WUint => "uint" | TUint W8 => "uint8" | TUint W16 => "uint16"
  | TUint W32 => "uint32" | TUint W64 => "uint64" | TUint WUintptr => "uintptr"
  | TString => "string"
  | TOther s => s
  | TSlice e => "[]" ++ typ_name e
  | TArray n e => "[" ++ pretty n ++ "]" ++ typ_name e
  | TPtr e => "*" ++ typ_name e
  | TInterface _ => "interface {}"
  | TRawValue => "rlp.RawValue"
  | TBigInt => "big.Int"
  | TNamed s => s
  end.

(** [(err *decodeError) Error()]. *)
Definition decodeError_Error (msg : string) (t : typ) (ctx : list string) : string :=
  let c := match ctx with
    | [] => ""
    | _ => (", decoding into " ++ fold_left (fun a x => a ++ x) (List.rev ctx) "")%string
    end in
  ("rlp: " ++ msg ++ " for " ++ typ_name t ++ c)%string.

Definition wrapStreamError (err : error) (t : typ) : error :=
  match err with
  | ErrCanonInt => decodeError "non-canonical integer (leading zero bytes)" t []
  | ErrCanonSize => decodeError "non-canonical size information" t []
  | ErrExpectedList => decodeError "expected input list" t []
  | ErrExpectedString => decodeError "expected input string or byte" t []
  | errUintOverflow => decodeError "input string too long" t []
  | errNotAtEOL => decodeError "input list has too many elements" t []
  | _ => err
  end.

Definition addErrorContext (err : error) (c : string) : error :=
  match err with
  | decodeError msg t ctx => decodeError msg t (ctx ++ [c])
  | _ => err
  end.

Definition index_ctx (i : nat) : string := "[" ++ pretty i ++ "]".

(** ** Decoders of single types *)

(** The stream, the target and the error after a decoder ran. *)
Definition D : Type := result (Stream * val * option error).
Definition keep (s : Stream) (v : val) (err : error) : D := Ok (s, v, Some err).
Definition done (s : Stream) (v : val) : D := Ok (s, v, None).

Definition decodeRawValue (s : Stream) (old : val) : D :=
  let? (s, res) := Raw s in
  match res with inl err => keep s old err | inr b => done s (VBytes b) end.

Definition decodeUint (t : typ) (w : uwidth) (s : Stream) (old : val) : D :=
  match uint (Bits w) s with
  | (s, inl err) => keep s old (wrapStreamError err t)
  | (s, inr n) => done s (VUint n)
  end.

Definition decodeBool (t : typ) (s : Stream) (old : val) : D :=
  match StreamBool s with
  | (s, inl err) => keep s old (wrapStreamError err t)
  | (s, inr b) => done s (VBool b)
  end.

Definition decodeString (t : typ) (s : Stream) (old : val) : D :=
  let? (s, res) := Bytes s in
  match res with
  | inl err => keep s old (wrapStreamError err t)
  | inr b => done s (VString b)
  end.

(** Into a [*big.Int]: a nil pointer is replaced before the check for leading
    zeros. *)
Definition decodeBigInt (t : typ) (s : Stream) (old : val) : D :=
  let? (s, res) := Bytes s in
  match res with
  | inl err => keep s old (wrapStreamError err t)
  | inr b =>
      let target := match old with VPtr None => VPtr (Some (VBig 0)) | _ => old end in
      match b with
      | 0 :: _ => keep s target (wrapStreamError ErrCanonInt t)
      | _ => done s (VPtr (Some (VBig (Big.SetBytes b))))
      end
  end.

(** [decodeBigInt(s, val.Addr())]. *)
Definition decodeBigIntNoPtr (s : Stream) (old : val) : D :=
  let? (s, v, err) := decodeBigInt (TPtr TBigInt) s (VPtr (Some old)) in
  match v with VPtr (Some v) => Ok (s, v, err) | _ => Panic end.

Definition decodeByteSlice (t : typ) (s : Stream) (old : val) : D :=
  let? (s, res) := Bytes s in
  match res with
  | inl err => keep s old (wrapStreamError err t)
  | inr b => done s (VBytes b)
  end.

Definition decodeByteArray (t : typ) (s : Stream) (old : val) : D :=
  match old with
  | VBytes arr =>
      match StreamKind s with
      | (s, inl err) => keep s old err
      | (s, inr (Byte, _)) =>
          match arr with
          | [] => keep s old (decodeError "input string too long" t [])
          | [_] => let '(s, res) := Uint s in
                   done s (VBytes [match res with inr bv => bv mod 256 | inl _ => 0 end])
          | _ => keep s old (decodeError "input string too short" t [])
          end
      | (s, inr (String, n)) =>
          if u64 (len arr) <? n then keep s old (decodeError "input string too long" t [])
          else if u64 (len arr) >? n then keep s old (decodeError "input string too short" t [])
          else
            match readFull (len arr) s with
            | (s, (got, Some err)) => keep s (VBytes (copy_into arr got)) err
            | (s, (got, None)) =>
                match got with
                | [x] => if (n =? 1) && (x <? 128)
                         then keep s (VBytes got) (wrapStreamError ErrCanonSize t)
                         else done s (VBytes got)
                | _ => done s (VBytes got)
                end
            end
      | (s, inr (List, _)) => keep s old (wrapStreamError ErrExpectedString t)
      end
  | _ => Panic
  end.

(** ** Lists *)

(** The cells of a slice: up to its length, and up to its capacity. *)
Definition cells_of (v : val) : option (list val * list val) :=
  match v with
  | VSlice l spare => Some (l, spare)
  | VBytes b => Some (map VUint b, [])
  | _ => None
  end.
Definition of_cells (old : val) (l spare : list val) : val :=
  match old with
  | VBytes _ => VBytes (map (fun v => match v with VUint n => n | _ => 0 end) l)
  | _ => VSlice l spare
  end.

Section SliceElems.
Context (elemdec : Stream -> val -> D) (zero : val).

(** [i >= val.Cap()]: the capacity grows by half, to at least four. *)
Definition grow (i : nat) (l spare : list val) : list val * list val :=
  let cap := (length l + length spare)%nat in
  if (cap <=? i)%nat then
    let newcap := Nat.max 4 (cap + cap / 2) in
    (l, replicate (newcap - length l) zero)
  else (l, spare).

(** [i >= val.Len()]: [val.SetLen(i + 1)]. *)
Definition extend (i : nat) (l spare : list val) : list val * list val :=
  if (length l <=? i)%nat then
    (take (i + 1) (l ++ spare), drop (i + 1) (l ++ spare))
  else (l, spare).

Definition truncate (i : nat) (l spare : list val) : list val * list val :=
  (take i l, drop i l ++ spare).

Fixpoint decodeSliceElems_loop (fuel : nat) (i : nat) (s : Stream) (l spare : list val)
  : result (Stream * (list val * list val) * option error) :=
  match fuel with
  | O => NoFuel
  | S fuel =>
      let '(l, spare) := grow i l spare in
      let '(l, spare) := extend i l spare in
      let? old := index l (Z.of_nat i) in
      let? (s, v, err) := elemdec s old in
      let l := <[i := v]> l in
      match err with
      | None => decodeSliceElems_loop fuel (S i) s l spare
      | Some EOL => Ok (s, truncate i l spare, None)
      | Some err => Ok (s, (l, spare), Some (addErrorContext err (index_ctx i)))
      end
  end.

Definition decodeSliceElems (fuel : nat) (s : Stream) (old : val) : D :=
  match cells_of old with
  | None => Panic
  | Some (l, spare) =>
      let? (s, (l, spare), err) := decodeSliceElems_loop fuel 0 s l spare in
      Ok (s, of_cells old l spare, err)
  end.

Definition decodeListSlice (fuel : nat) (t : typ) (s : Stream) (old : val) : D :=
  match StreamList s with
  | (s, inl err) => keep s old (wrapStreamError err t)
  | (s, inr n) =>
      if n =? 0 then
        let '(s, err) := ListEnd s in Ok (s, of_cells old [] [], err)
      else
        let? (s, v, err) := decodeSliceElems fuel s old in
        match err with
        | Some err => keep s v err
        | None => let '(s, err) := ListEnd s in Ok (s, v, err)
        end
  end.

(** The first [todo] elements from index [i] on; the elements before it are
    [before], those still to decode [after]. *)
Fixpoint decodeListArray_loop (i : nat) (s : Stream) (before after : list val)
  : result (Stream * list val * (option error * nat)) :=
  match after with
  | [] => Ok (s, before, (None, i))
  | old :: after =>
      let? (s, v, err) := elemdec s old in
      match err with
      | None => decodeListArray_loop (S i) s (before ++ [v]) after
      | Some EOL => Ok (s, before ++ v :: after, (None, i))
      | Some err => Ok (s, before ++ v :: after, (Some (addErrorContext err (index_ctx i)), i))
      end
  end.

Definition decodeListArray (t : typ) (s : Stream) (old : val) : D :=
  match StreamList s with
  | (s, inl err) => keep s old (wrapStreamError err t)
  | (s, inr _) =>
      match RlpEncode.elements old with
      | None => Panic
      | Some l =>
          let? (s, l', (err, i)) := decodeListArray_loop 0 s [] l in
          let v := match old with
            | VBytes _ => VBytes (map (fun v => match v with VUint n => n | _ => 0 end) l')
            | _ => VArray l'
            end in
          match err with
          | Some err => keep s v err
          | None =>
              if (i <? length l)%nat
              then keep s v (decodeError "input list has too few elements" t [])
              else let '(s, err) := ListEnd s in
                   Ok (s, v, match err with Some e => Some (wrapStreamError e t) | None => None end)
          end
      end
  end.

End SliceElems.

(** ** Interfaces *)

Definition bytesType : typ := TSlice (TUint W8).
Definition ifsliceType : typ := TSlice (TInterface 0).

Fixpoint decodeInterface (fuel : nat) (t : typ) (m : nat) (s : Stream) (old : val) : D :=
  match fuel with
  | O => NoFuel
  | S fuel =>
      if negb (m =? 0)%nat then keep s old (notSerializable t)
      else match StreamKind s with
      | (s, inl err) => keep s old err
      | (s, inr (List, _)) =>
          let? (s, v, err) :=
            decodeListSlice (decodeInterface fuel (TInterface 0) 0) (VIface None) fuel ifsliceType s (VSlice [] []) in
          match err with
          | Some err => keep s old err
          | None => done s (VIface (Some (ifsliceType, v)))
          end
      | (s, inr _) =>
          let? (s, res) := Bytes s in
          match res with
          | inl err => keep s old err
          | inr b => done s (VIface (Some (bytesType, VBytes b)))
          end
      end
  end.

(** ** Running a decoder *)

(** The [DecodeRLP] method of a declared type, or of a pointer to one. *)
Record Decoders := { DecodeRLP : typ -> Stream -> val -> D }.

Section Decoders.
Context (env : decls) (dec : Decoders) (gen_fuel : nat).

Definition uwidth_of (t : typ) : uwidth :=
  match kind_of env t with KUint w => w | _ => W64 end.
Definition methods_of (t : typ) : nat := match kind_of env t with KInterface m => m | _ => O end.
Definition field_name (t : typ) (i : nat) : string :=
  match kind_of env t with
  | KStruct fs => match fs !! i with Some f => Name f | None => "" end
  | _ => ""
  end.

Section WithCache.
Context (tc : cache).

Section Fields.
Context (at_info : loc -> typ -> Stream -> val -> D).

Fixpoint decode_fields (t : typ) (fields : list (nat * loc)) (s : Stream) (vs : list val)
  : result (Stream * list val * option error) :=
  match fields with
  | [] => Ok (s, vs, None)
  | (i, l) :: fields =>
      let? old := index vs (Z.of_nat i) in
      let? (s, v, err) := at_info l (RlpEncode.field_type env t i) s old in
      let vs := <[i := v]> vs in
      match err with
      | None => decode_fields t fields s vs
      | Some EOL => Ok (s, vs, Some (decodeError "too few elements" t []))
      | Some err => Ok (s, vs, Some (addErrorContext err ("." ++ field_name t i)))
      end
  end.

Definition decodeStruct (t : typ) (fields : list (nat * loc)) (s : Stream) (old : val) : D :=
  match StreamList s with
  | (s, inl err) => keep s old (wrapStreamError err t)
  | (s, inr _) =>
      match old with
      | VStruct vs =>
          let? (s, vs, err) := decode_fields t fields s vs in
          match err with
          | Some err => keep s (VStruct vs) err
          | None =>
              let '(s, err) := ListEnd s in
              Ok (s, VStruct vs, match err with Some e => Some (wrapStreamError e t) | None => None end)
          end
      | _ => Panic
      end
  end.

Definition decodePtr (etype : typ) (l : loc) (s : Stream) (old : val) : D :=
  match old with
  | VPtr None =>
      let? z := Zero env gen_fuel etype in
      let? (s, v, err) := at_info l etype s z in
      match err with
      | None => done s (VPtr (Some v))
      | Some err => keep s old err
      end
  | VPtr (Some v) =>
      let? (s, v, err) := at_info l etype s v in Ok (s, VPtr (Some v), err)
  | _ => Panic
  end.

Definition decodeOptionalPtr (etype : typ) (l : loc) (s : Stream) (old : val) : D :=
  match StreamKind s with
  | (s, inl err) => keep (rearm s) (VPtr None) err
  | (s, inr (k, n)) =>
      if (n =? 0) && negb (bool_decide (k = Byte)) then done (rearm s) (VPtr None)
      else decodePtr etype l s old
  end.
End Fields.

Fixpoint run_decoder (fuel : nat) (d : decoder) (t : typ) (s : Stream) (old : val) : D :=
  match fuel with
  | O => NoFuel
  | S fuel =>
      let at_info (l : loc) (t : typ) (s : Stream) (old : val) : D :=
        let? info := info_at tc l in run_decoder fuel (idecoder info) t s old in
      let e := RlpEncode.elem_type env t in
      match d with
      | DRawValue => decodeRawValue s old
      | DDecoder =>
          match t, old with
          | TPtr u, VPtr None => let? z := Zero env gen_fuel u in DecodeRLP dec t s (VPtr (Some z))
          | _, _ => DecodeRLP dec t s old
          end
      | DDecoderNoPtr =>
          let? (s, v, err) := DecodeRLP dec (TPtr t) s (VPtr (Some old)) in
          match v with VPtr (Some v) => Ok (s, v, err) | _ => Panic end
      | DBigInt =>
          if bool_decide (t = TPtr TBigInt) then decodeBigInt t s old
          else let? (s, res) := Bytes s in
               match res with
               | inl err => keep s old (wrapStreamError err t)
               | inr _ => Panic
               end
      | DBigIntNoPtr => decodeBigIntNoPtr s old
      | DUint => decodeUint t (uwidth_of t) s old
      | DBool => decodeBool t s old
      | DString => decodeString t s old
      | DByteArray => decodeByteArray t s old
      | DByteSlice => decodeByteSlice t s old
      | DListArray l => decodeListArray (at_info l e) t s old
      | DSliceElems l =>
          let? z := Zero env gen_fuel e in decodeSliceElems (at_info l e) z fuel s old
      | DListSlice l =>
          let? z := Zero env gen_fuel e in decodeListSlice (at_info l e) z fuel t s old
      | DStruct st fields => decodeStruct at_info st fields s old
      | DPtr u l => decodePtr at_info u l s old
      | DOptionalPtr u l => decodeOptionalPtr at_info u l s old
      | DInterface => decodeInterface fuel t (methods_of t) s old
      end
  end.
End WithCache.

(** [Decode(val)] with the interface [target]: nil, or a type and a value. *)
Definition StreamDecode (fuel : nat) (s : Stream) (target : option (typ * val)) (tc : cache)
  : result (cache * (Stream * option (typ * val) * option error)) :=
  match target with
  | None => Ok (tc, (s, target, Some errDecodeIntoNil))
  | Some (rtyp, rval) =>
      match kind_of env rtyp, rval with
      | KPtr _, VPtr None => Ok (tc, (s, target, Some errDecodeIntoNil))
      | KPtr etype, VPtr (Some v) =>
          let? (tc, res) := cachedTypeInfo env gen_fuel etype no_tags tc in
          match res with
          | inl err => Ok (tc, (s, target, Some err))
          | inr l =>
              let? info := info_at tc l in
              let? (s, v, err) := run_decoder tc fuel (idecoder info) etype s v in
              let err := match err with
                | Some (decodeError msg t (c :: ctx)) =>
                    Some (decodeError msg t ((c :: ctx) ++ [("(" ++ typ_name etype ++ ")")%string]))
                | _ => err
                end in
              Ok (tc, (s, Some (rtyp, VPtr (Some v)), err))
          end
      | KPtr _, _ => Panic
      | _, _ => Ok (tc, (s, target, Some errNoPointer))
      end
  end.

Definition Decode (fuel : nat) (rd : reader) (target : option (typ * val)) (tc : cache)
  : result (cache * (option (typ * val) * option error)) :=
  let? (tc, (_, v, err)) := StreamDecode fuel (NewStream rd 0) target tc in Ok (tc, (v, err)).

Definition bytes_reader (b : bytes) : reader :=
  {| data := b; rtype := BytesReader; eof_with_data := false |}.

Definition DecodeBytes (fuel : nat) (b : bytes) (target : option (typ * val)) (tc : cache)
  : result (cache * (option (typ * val) * option error)) :=
  let? (tc, (s, v, err)) :=
    StreamDecode fuel (NewStream (bytes_reader b) (u64 (len b))) target tc in
  Ok (tc, (v, match err with
              | Some e => Some e
              | None => match data (r s) with [] => None | _ => Some ErrMoreThanOneValue end
              end)).

End Decoders.

(** ** [raw.go] *)

Definition ListSize (contentSize : Z) : Z := u64 (RlpEncode.headsize contentSize + contentSize).

Definition readSize (b : bytes) (slen : Z) : error + Z :=
  if slen >? len b then inl io_ErrUnexpectedEOF
  else
    let s := fold_left (fun a x => Z.lor (Z.shiftl a 8) x) (take (Z.to_nat slen) b) 0 in
    if (s <? 56) || match b with x :: _ => x =? 0 | [] => true end then inl ErrCanonSize else inr s.

(** The value must fit in the input. *)
Definition fits (buf : bytes) (k : Kind) (tagsize : Z) (contentsize : error + Z) : error + Kind * Z * Z :=
  match contentsize with
  | inl err => inl err
  | inr n => if n >? u64 (len buf - tagsize) then inl ErrValueTooLarge else inr (k, tagsize, n)
  end.

Definition rawReadKind (buf : bytes) : error + Kind * Z * Z :=
  match buf with
  | [] => inl io_ErrUnexpectedEOF
  | b :: rest =>
      if b <? 128 then fits buf Byte 0 (inr 1)
      else if b <? 184 then
        if (b - 128 =? 1) && match rest with x :: _ => x <? 128 | [] => false end then inl ErrCanonSize
        else fits buf String 1 (inr (b - 128))
      else if b <? 192 then fits buf String (b - 183 + 1) (readSize rest (b - 183))
      else if b <? 248 then fits buf List 1 (inr (b - 192))
      else fits buf List (b - 247 + 1) (readSize rest (b - 247))
  end.

Definition Split (b : bytes) : result (error + Kind * bytes * bytes) :=
  match rawReadKind b with
  | inl err => Ok (inl err)
  | inr (k, ts, cs) =>
      let? content := slice b ts (u64 (ts + cs)) in
      let? rest := slice b (u64 (ts + cs)) (len b) in
      Ok (inr (k, content, rest))
  end.

Definition SplitString (b : bytes) : result (error + bytes * bytes) :=
  let? res := Split b in
  Ok match res with
     | inl err => inl err
     | inr (List, _, _) => inl ErrExpectedString
     | inr (_, content, rest) => inr (content, rest)
     end.

Definition SplitList (b : bytes) : result (error + bytes * bytes) :=
  let? res := Split b in
  Ok match res with
     | inl err => inl err
     | inr (List, content, rest) => inr (content, rest)
     | inr _ => inl ErrExpectedList
     end.

Fixpoint CountValues_loop (fuel : nat) (i : Z) (b : bytes) : result (error + Z) :=
  match b with
  | [] => Ok (inr i)
  | _ =>
      match fuel with
      | O => NoFuel
      | S fuel =>
          match rawReadKind b with
          | inl err => Ok (inl err)
          | inr (_, tagsize, n) =>
              let? b := slice b (u64 (tagsize + n)) (len b) in
              CountValues_loop fuel (i + 1) b
          end
      end
  end.
Definition CountValues (b : bytes) : result (error + Z) := CountValues_loop (length b) 0 b.

End RlpDecode.
