(* ===== verification/RlpSpec.v ===== *)
(** * RLP: the encoder against the definition of the format

    The reference encoding ([header], [rlp_string], [rlp_list] and
    [spec_writer]) produces the bytes of a value directly, list header first.
    The code appends the string data and inserts the headers at the end; the
    relation [agrees] says that a writer does to the buffer what the reference
    says, and [EncodeToBytes_refines] that the bytes are the same, as are the
    bytes sent to an [io.Writer] and those read from the returned reader. *)

From Stdlib Require Import String Lia.
From stdpp Require Import base list numbers option strings gmap.
From S2P Require Import Prelude BigInt RlpTypes RlpEncode.

#[local] Open Scope Z_scope.
#[local] Open Scope go_scope.

Module RlpSpec.
Import RlpTypes RlpEncode.

(** ** The format *)

Definition header (small large n : Z) : bytes :=
  if n <? 56 then [small + n] else (large + len (Big.Bytes n)) :: Big.Bytes n.

Definition rlp_string (b : bytes) : bytes :=
  match b with
  | [x] => if x <=? 127 then [x] else header 128 183 1 ++ b
  | _ => header 128 183 (len b) ++ b
  end.

Definition rlp_list (payload : bytes) : bytes := header 192 247 (len payload) ++ payload.

Definition rlp_uint (i : Z) : bytes := rlp_string (Big.Bytes i).

(** ** Integer output *)

Lemma assign_from_spec l b pre :
  len l <= len b -> assign_from (pre ++ b) (len pre) l = Ok (pre ++ l ++ drop (length l) b).
Proof.
  revert b pre. induction l as [|x l IH]; intros b pre H; simpl; [done|].
  rewrite len_cons in H.
  destruct b as [|y b]; [rewrite len_nil in H; pose proof (len_nonneg l); lia|].
  rewrite len_cons in H. unfold update. rewrite len_app, len_cons.
  pose proof (len_nonneg b). pose proof (len_nonneg pre).
  replace ((0 <=? len pre) && (len pre <? len pre + (1 + len b))) with true
    by (symmetry; apply andb_true_iff; split; [apply Z.leb_le|apply Z.ltb_lt]; lia).
  cbn [rbind].
  replace (Z.to_nat (len pre)) with (length pre + 0)%nat by (unfold len; lia).
  rewrite insert_app_r. simpl.
  specialize (IH b (pre ++ [x])). rewrite len_app, len_single, <-!app_assoc in IH.
  simpl in IH. apply IH. lia.
Qed.

Lemma put_spec b l : len l <= len b -> put b l = Ok (l ++ drop (length l) b, len l).
Proof.
  intros H. unfold put. pose proof (assign_from_spec l b [] H) as E. simpl in E.
  rewrite len_nil in E. by rewrite E.
Qed.

(** The number of bytes of an integer between two powers of 256. *)
Lemma Bytes_width k i :
  256 ^ (Z.of_nat k - 1) <= i < 256 ^ Z.of_nat k -> (0 < k)%nat -> Big.Bytes i = Big.be k i.
Proof.
  intros [Hlo Hhi] Hk.
  assert (0 < 256 ^ (Z.of_nat k - 1)) by (apply Z.pow_pos_nonneg; lia).
  unfold Big.Bytes. rewrite Z.abs_eq by lia. f_equal.
  rewrite Big.pow_256 in Hlo, Hhi by lia.
  assert (Big.BitLen i <= 8 * Z.of_nat k) by (apply Big.BitLen_spec; lia).
  assert (~ Big.BitLen i <= 8 * (Z.of_nat k - 1)).
  { rewrite Big.BitLen_spec by lia. lia. }
  apply Nat2Z.inj. rewrite Z2Nat.id by (apply Z.div_pos; pose proof (Big.BitLen_nonneg i); lia).
  symmetry. apply (Z.div_unique _ _ _ (Big.BitLen i + 7 - 8 * Z.of_nat k)); lia.
Qed.

(** The byte count of a positive uint64 is between one and eight. *)
Lemma width_cases i : 0 < i < two64 ->
  exists k, (1 <= k <= 8)%nat /\ 256 ^ (Z.of_nat k - 1) <= i < 256 ^ Z.of_nat k.
Proof.
  intros [H0 H1].
  assert (forall n : nat, i < 256 ^ Z.of_nat n ->
    exists k, (1 <= k <= n)%nat /\ 256 ^ (Z.of_nat k - 1) <= i < 256 ^ Z.of_nat k) as Hn.
  { induction n as [|n IH]; intros Hi; [change (256 ^ Z.of_nat 0) with 1 in Hi; lia|].
    destruct (Z.lt_ge_cases i (256 ^ Z.of_nat n)) as [Hlt|Hge].
    - destruct (IH Hlt) as (k & Hk & Hb). exists k. split; [lia|done].
    - exists (S n). split; [lia|]. replace (Z.of_nat (S n) - 1) with (Z.of_nat n) by lia. done. }
  apply (Hn 8%nat). done.
Qed.

(** Choose the branch of a comparison that the context decides. *)
Ltac decide_ltb :=
  match goal with
  | |- context [?a <? ?b] =>
      first [rewrite (proj2 (Z.ltb_lt a b)) by lia | rewrite (proj2 (Z.ltb_ge a b)) by lia]
  end.

(** Evaluate the powers of the goal and of the hypotheses. *)
Ltac compute_powers :=
  repeat match goal with
  | H : context [?b ^ ?n] |- _ =>
      let v := eval vm_compute in (b ^ n) in progress change (b ^ n) with v in H
  | |- context [?b ^ ?n] =>
      let v := eval vm_compute in (b ^ n) in progress change (b ^ n) with v
  end.

Lemma putint_be b i k :
  (1 <= k <= 8)%nat -> 256 ^ (Z.of_nat k - 1) <= i < 256 ^ Z.of_nat k ->
  putint b i = put b (Big.be k i).
Proof.
  intros Hk Hi. unfold putint.
  assert (forall n x, Big.be (S n) x = Big.be n (x / 256) ++ [byte x]) as E by apply Big.be_S.
  do 9 (destruct k as [|k]; [first [lia|
    compute_powers; repeat (decide_ltb; cbv iota); rewrite !E, ?Zdiv.Zdiv_Zdiv by lia;
    rewrite ?Z.shiftr_div_pow2 by lia; compute_powers; reflexivity]|]). lia.
Qed.

Lemma putint_spec b i : 0 < i < two64 -> len (Big.Bytes i) <= len b ->
  putint b i = Ok (Big.Bytes i ++ drop (length (Big.Bytes i)) b, len (Big.Bytes i)).
Proof.
  intros Hi Hb. destruct (width_cases i Hi) as (k & Hk & Hr).
  rewrite (putint_be b i k Hk Hr), <-(Bytes_width k i Hr) by lia. by apply put_spec.
Qed.

Lemma intsize_go_spec n k size i :
  (1 <= k <= S n)%nat -> 256 ^ (Z.of_nat k - 1) <= i < 256 ^ Z.of_nat k ->
  intsize_go n size i = size + Z.of_nat k - 1.
Proof.
  revert k size i. induction n as [|n IH]; intros k size i Hk Hi; simpl;
    rewrite Z.shiftr_div_pow2 by lia; change (2 ^ 8) with 256.
  - replace k with 1%nat in * by lia. change (256 ^ Z.of_nat 1) with 256 in Hi.
    destruct (_ =? _); lia.
  - destruct (decide (k = 1)%nat) as [->|Hk1].
    + change (256 ^ (Z.of_nat 1 - 1)) with 1 in Hi. change (256 ^ Z.of_nat 1) with 256 in Hi.
      rewrite (Z.div_small i 256) by lia. simpl. lia.
    + destruct k as [|[|k]]; [lia..|].
      replace (Z.of_nat (S (S k)) - 1) with (1 + (Z.of_nat (S k) - 1)) in Hi by lia.
      replace (Z.of_nat (S (S k))) with (1 + Z.of_nat (S k)) in Hi by lia.
      rewrite !Z.pow_add_r in Hi by lia. change (256 ^ 1) with 256 in Hi.
      assert (0 < 256 ^ (Z.of_nat (S k) - 1)) by (apply Z.pow_pos_nonneg; lia).
      assert (256 ^ (Z.of_nat (S k) - 1) <= i / 256 < 256 ^ Z.of_nat (S k)) as Hd.
      { split; [apply Z.div_le_lower_bound; lia|apply Z.div_lt_upper_bound; lia]. }
      destruct (Z.eqb_spec (i / 256) 0); [lia|].
      rewrite (IH (S k)) by (done || lia). lia.
Qed.

Lemma intsize_spec i : 0 < i < two64 -> intsize i = len (Big.Bytes i).
Proof.
  intros Hi. destruct (width_cases i Hi) as (k & Hk & Hr). unfold intsize.
  rewrite (intsize_go_spec 8 k 1 i) by (lia || done).
  rewrite (Bytes_width k) by (done || lia). rewrite Big.len_be. lia.
Qed.

Lemma len_Bytes_u64 i : 0 < i < two64 -> 1 <= len (Big.Bytes i) <= 8.
Proof.
  intros Hi. destruct (width_cases i Hi) as (k & Hk & Hr).
  rewrite (Bytes_width k), Big.len_be by (done || lia). lia.
Qed.

(** ** Headers *)

Lemma len_header s l n : 0 <= n < two64 -> 1 <= len (header s l n) <= 9.
Proof.
  intros Hn. unfold header. destruct (Z.ltb_spec n 56); [rewrite len_single; lia|].
  rewrite len_cons. pose proof (len_Bytes_u64 n). lia.
Qed.

Lemma headsize_spec s l n : 0 <= n < two64 -> headsize n = len (header s l n).
Proof.
  intros Hn. unfold headsize, header. destruct (Z.ltb_spec n 56); [done|].
  rewrite len_cons, intsize_spec by lia. done.
Qed.

Lemma putint1_spec b i : 0 < i < two64 -> 1 + len (Big.Bytes i) <= len b ->
  putint1 b i = Ok (take 1 b ++ Big.Bytes i ++ drop (length (Big.Bytes i)) (drop 1 b),
                    len (Big.Bytes i)).
Proof.
  intros Hi Hb. pose proof (len_nonneg (Big.Bytes i)). unfold putint1.
  rewrite slice_Ok by lia. cbn [rbind].
  rewrite firstn_all2 by (rewrite length_drop; unfold len in *; lia).
  rewrite putint_spec; [done|done|]. rewrite len_drop. lia.
Qed.

(** Filling the first byte in front of the length bytes. *)
Lemma update_front b (x : Z) l :
  1 <= len b -> update (take 1 b ++ l) 0 x = Ok (x :: l).
Proof.
  intros Hb. destruct b as [|y b]; [done|].
  change (take 1 (y :: b) ++ l) with (y :: l). unfold update. rewrite len_cons.
  pose proof (len_nonneg l). rewrite (proj2 (Z.ltb_lt _ _)) by lia. done.
Qed.

Lemma puthead_spec buf s l n :
  0 <= s <= 200 -> 0 <= l <= 247 -> 0 <= n < two64 -> len (header s l n) <= len buf ->
  puthead buf s l n = Ok (header s l n ++ drop (length (header s l n)) buf, len (header s l n)).
Proof.
  intros Hs Hl Hn. unfold puthead, header. destruct (Z.ltb_spec n 56) as [H|H].
  - rewrite len_single. intros Hb. destruct buf as [|y buf]; [done|].
    unfold update. rewrite len_cons. pose proof (len_nonneg buf).
    rewrite (proj2 (Z.ltb_lt _ _)) by lia. simpl. unfold byte.
    rewrite (Z.mod_small n), Z.mod_small by lia. by rewrite drop_0.
  - rewrite len_cons. intros Hb. pose proof (len_Bytes_u64 n ltac:(lia)).
    rewrite putint1_spec by lia. cbn [rbind]. rewrite update_front by lia. cbn [rbind].
    unfold byte. rewrite (Z.mod_small (len _)), Z.mod_small by lia. simpl.
    rewrite drop_drop. do 2 f_equal. lia.
Qed.

Lemma encode_head_spec h buf :
  0 <= size h < two64 -> len (header 192 247 (size h)) <= len buf ->
  encode_head h buf =
    Ok (header 192 247 (size h) ++ drop (length (header 192 247 (size h))) buf,
        header 192 247 (size h)).
Proof.
  intros Hs Hb. unfold encode_head. rewrite (u64_id (size h)) by done.
  rewrite puthead_spec by (done || lia). cbn [rbind].
  pose proof (len_nonneg (header 192 247 (size h))).
  rewrite slice_Ok by (rewrite ?len_app; pose proof (len_nonneg (drop (length (header 192 247 (size h))) buf)); lia).
  cbn [rbind]. rewrite drop_0. do 2 f_equal.
  rewrite Z.sub_0_r. unfold len. rewrite Nat2Z.id. apply take_app_length.
Qed.

Lemma len_scratch : len scratch = 9.
Proof. done. Qed.

(** The length bytes of a scratch buffer with the tag in front of them. *)
Lemma scratch_tag i tag k : 0 < i < two64 -> 0 <= tag -> tag + 8 < 256 ->
  (let? (sizebuf, s) := putint1 scratch i in
   let? sizebuf := update sizebuf 0 (byte (tag + byte s)) in
   let? b := slice sizebuf 0 (s + 1) in k b) =
  (k ((tag + len (Big.Bytes i)) :: Big.Bytes i) : result encbuf).
Proof.
  intros Hi Ht Ht'. pose proof (len_Bytes_u64 i Hi).
  rewrite putint1_spec by (rewrite ?len_scratch; lia). cbn [rbind].
  rewrite update_front by (rewrite len_scratch; lia). cbn [rbind].
  pose proof (len_nonneg (drop (length (Big.Bytes i)) (drop 1 scratch))).
  rewrite slice_Ok by (rewrite ?len_cons, ?len_app; lia). cbn [rbind].
  rewrite drop_0, Z.sub_0_r. unfold byte. rewrite (Z.mod_small (len _)), Z.mod_small by lia.
  f_equal. replace (Z.to_nat (len (Big.Bytes i) + 1)) with (S (length (Big.Bytes i)))
    by (unfold len; lia). simpl. f_equal. apply take_app_length.
Qed.

Lemma encodeStringHeader_spec w n : 0 <= n < two64 ->
  encodeStringHeader w n = Ok (append w (header 128 183 n)).
Proof.
  intros Hn. unfold encodeStringHeader, header. destruct (Z.ltb_spec n 56).
  - unfold byte. rewrite (Z.mod_small n), Z.mod_small by lia. done.
  - rewrite u64_id by done. by rewrite (scratch_tag n 183 (fun b => Ok (append w b))) by lia.
Qed.

Lemma append_app w a b : append (append w a) b = append w (a ++ b).
Proof. unfold append. simpl. by rewrite app_assoc. Qed.

Lemma encodeString_spec w b : len b < two64 -> encodeString w b = Ok (append w (rlp_string b)).
Proof.
  intros Hb. pose proof (len_nonneg b). unfold encodeString, rlp_string.
  destruct b as [|x [|y b]]; [| destruct (x <=? 127); [done|] |];
    rewrite encodeStringHeader_spec by lia; simpl; by rewrite append_app.
Qed.

Lemma writeString_spec w b : len b < two64 -> writeString b w = Ok (append w (rlp_string b)).
Proof. apply encodeString_spec. Qed.

Lemma writeUint_spec w i : 0 <= i < two64 -> writeUint i w = Ok (append w (rlp_uint i)).
Proof.
  intros Hi. unfold writeUint, rlp_uint. destruct (Z.eqb_spec i 0) as [->|Hi0]; [done|].
  destruct (Z.ltb_spec i 128).
  - rewrite (Bytes_width 1) by (simpl; lia). rewrite Big.be_S. simpl.
    unfold byte. rewrite Z.mod_small by lia. rewrite (proj2 (Z.leb_le _ _)) by lia. done.
  - rewrite (scratch_tag i 128 (fun b => Ok (append w b))) by lia. do 2 f_equal.
    pose proof (len_Bytes_u64 i ltac:(lia)) as Hl.
    assert (rlp_string (Big.Bytes i) = header 128 183 (len (Big.Bytes i)) ++ Big.Bytes i) as ->.
    { unfold rlp_string. destruct (Big.Bytes i) as [|x [|y l]] eqn:E; [done| |done].
      assert (x = i) as ->.
      { pose proof (Big.SetBytes_Bytes i) as Hx. rewrite E in Hx. simpl in Hx.
        rewrite Z.abs_eq in Hx by lia. unfold Big.SetBytes in Hx. simpl in Hx. lia. }
      rewrite (proj2 (Z.leb_gt _ _)) by lia. done. }
    unfold header. rewrite (proj2 (Z.ltb_lt _ _)) by lia. done.
Qed.

(** ** The buffer as the bytes it stands for *)

(** String data from [from] on with the list headers put in their places. *)
Fixpoint render (s : bytes) (from : Z) (hs : list listhead) : bytes :=
  match hs with
  | [] => drop (Z.to_nat from) s
  | h :: hs =>
      take (Z.to_nat (offset h - from)) (drop (Z.to_nat from) s) ++
      header 192 247 (size h) ++ render s (offset h) hs
  end.

Fixpoint heads_ok (s : bytes) (from : Z) (hs : list listhead) : Prop :=
  match hs with
  | [] => 0 <= from <= len s
  | h :: hs => 0 <= from <= offset h /\ offset h <= len s /\ 0 <= size h < two63 /\
               heads_ok s (offset h) hs
  end.

Fixpoint heads_size (hs : list listhead) : Z :=
  match hs with [] => 0 | h :: hs => len (header 192 247 (size h)) + heads_size hs end.

Lemma heads_ok_from s from hs : heads_ok s from hs -> 0 <= from <= len s.
Proof. destruct hs; simpl; lia. Qed.

Lemma heads_ok_extend s t from hs : heads_ok s from hs -> heads_ok (s ++ t) from hs.
Proof.
  revert from. induction hs as [|h hs IH]; intros from; simpl; rewrite len_app;
    pose proof (len_nonneg t); [lia|]. intros (?&?&?&?). repeat split; try lia. by apply IH.
Qed.

Lemma heads_ok_app s t from hs hs' :
  heads_ok s from hs -> heads_ok (s ++ t) (len s) hs' -> heads_ok (s ++ t) from (hs ++ hs').
Proof.
  revert from. induction hs as [|h hs IH]; intros from; simpl.
  - intros H H'. destruct hs' as [|h' hs']; simpl in *; [lia|]. intuition lia.
  - rewrite len_app. pose proof (len_nonneg t). intros (?&?&?&?) ?. repeat split; try lia. by apply IH.
Qed.

Lemma heads_size_app hs hs' : heads_size (hs ++ hs') = heads_size hs + heads_size hs'.
Proof. induction hs as [|h hs IH]; simpl; [done|]. rewrite IH. lia. Qed.

Lemma heads_size_nonneg hs : 0 <= heads_size hs.
Proof.
  induction hs as [|h hs IH]; simpl; [done|].
  pose proof (len_nonneg (header 192 247 (size h))). lia.
Qed.

Lemma len_render s from hs : heads_ok s from hs -> len (render s from hs) = len s - from + heads_size hs.
Proof.
  revert from. induction hs as [|h hs IH]; intros from; simpl.
  - intros H. rewrite len_drop. lia.
  - intros (?&?&?&?). rewrite !len_app, IH, len_take, len_drop by done. lia.
Qed.

Lemma render_app s t from hs hs' :
  heads_ok s from hs -> heads_ok (s ++ t) (len s) hs' ->
  render (s ++ t) from (hs ++ hs') = render s from hs ++ render (s ++ t) (len s) hs'.
Proof.
  revert from. induction hs as [|h hs IH]; intros from; simpl.
  - intros H H'. destruct hs' as [|h' hs']; simpl in *.
    + rewrite drop_app_le, (drop_app_ge _ _ (Z.to_nat (len s))) by (unfold len in *; lia).
      f_equal. replace (_ - _)%nat with 0%nat by (unfold len; lia). done.
    + destruct H' as (?&?&?&?). rewrite (app_assoc (drop _ s)). f_equal.
      rewrite drop_app_le, (drop_app_ge _ _ (Z.to_nat (len s))) by (unfold len in *; lia).
      replace (Z.to_nat (len s) - length s)%nat with 0%nat by (unfold len; lia). rewrite drop_0.
      rewrite take_app_ge by (rewrite length_drop; unfold len in *; lia). f_equal.
      rewrite length_drop. f_equal. unfold len in *. lia.
  - intros (?&?&?&?) H'. rewrite <-!app_assoc, IH by done. f_equal.
    rewrite drop_app_le by (unfold len in *; lia).
    rewrite take_app_le by (rewrite length_drop; unfold len in *; lia). done.
Qed.

(** [w'] is [w] with the encoding [bs] added. *)
Definition extends (w w' : encbuf) (bs : bytes) : Prop :=
  exists s hs, str w' = str w ++ s /\ lheads w' = lheads w ++ hs /\
    lhsize w' = lhsize w + heads_size hs /\
    heads_ok (str w') (len (str w)) hs /\ render (str w') (len (str w)) hs = bs.

Definition grows (w w' : encbuf) : Prop :=
  exists s hs, str w' = str w ++ s /\ lheads w' = lheads w ++ hs.

Lemma grows_refl w : grows w w.
Proof. exists [], []. by rewrite !app_nil_r. Qed.
Lemma grows_trans w w1 w2 : grows w w1 -> grows w1 w2 -> grows w w2.
Proof.
  intros (s & hs & E1 & E2) (s' & hs' & E3 & E4). exists (s ++ s'), (hs ++ hs').
  rewrite !app_assoc. split; congruence.
Qed.
Lemma grows_append w b : grows w (append w b).
Proof. exists b, []. simpl. by rewrite app_nil_r. Qed.

Lemma buf_extends_refl w : extends w w [].
Proof.
  exists [], []. rewrite !app_nil_r. simpl. repeat split; try done; try lia.
  - apply len_nonneg.
  - apply drop_ge. unfold len. lia.
Qed.

Lemma extends_append w b : extends w (append w b) b.
Proof.
  exists b, []. simpl. rewrite app_nil_r, len_app. pose proof (len_nonneg b).
  repeat split; try done; try lia; [apply len_nonneg|].
  unfold len. rewrite Nat2Z.id. apply drop_app_length.
Qed.

Lemma buf_extends_trans w w1 w2 b1 b2 : extends w w1 b1 -> extends w1 w2 b2 -> extends w w2 (b1 ++ b2).
Proof.
  intros (s1 & h1 & E1 & E2 & E3 & O1 & R1) (s2 & h2 & F1 & F2 & F3 & O2 & R2).
  rewrite F1 in O2, R2. exists (s1 ++ s2), (h1 ++ h2).
  repeat split.
  - by rewrite F1, E1, app_assoc.
  - by rewrite F2, E2, app_assoc.
  - rewrite F3, E3, heads_size_app. lia.
  - rewrite F1. by apply heads_ok_app.
  - rewrite F1, render_app by done. by rewrite R1, R2.
Qed.

Lemma extends_len w w' bs : extends w w' bs -> encbuf_size w' = encbuf_size w + len bs.
Proof.
  intros (s & hs & E1 & E2 & E3 & O & R). rewrite <-R, len_render by done.
  unfold encbuf_size. rewrite E3. lia.
Qed.

(** ** Lists *)

Lemma listEnd_index w w2 lh : lh = length (lheads w) -> grows (fst (encbuf_list w)) w2 ->
  index (lheads w2) (Z.of_nat lh) = Ok {| offset := len (str w); size := lhsize w |}.
Proof.
  intros -> (s & hs & _ & E). simpl in E. unfold index.
  rewrite (proj2 (Z.leb_le _ _)) by lia. rewrite Nat2Z.id, E, <-app_assoc.
  rewrite lookup_app_r, Nat.sub_diag by lia. done.
Qed.

Lemma listEnd_grows w w2 : grows (fst (encbuf_list w)) w2 ->
  exists w3, listEnd w2 (length (lheads w)) = Ok w3 /\ grows w w3.
Proof.
  intros G. unfold listEnd. rewrite (listEnd_index w) by done. cbn [rbind].
  eexists. split; [done|]. destruct G as (s & hs & E1 & E2). simpl in *.
  exists s, ({| offset := len (str w); size := encbuf_size w2 - len (str w) - lhsize w |} :: hs).
  split; [done|]. simpl. rewrite E2, <-app_assoc.
  rewrite insert_app_r_alt, Nat.sub_diag by lia. done.
Qed.

Lemma listEnd_extends w w2 w3 bs :
  extends (fst (encbuf_list w)) w2 bs -> len bs < two63 ->
  listEnd w2 (length (lheads w)) = Ok w3 -> extends w w3 (rlp_list bs).
Proof.
  intros X Hlen. pose proof (extends_len _ _ _ X) as L.
  destruct X as (s & hs & E1 & E2 & E3 & O & R). unfold listEnd.
  rewrite (listEnd_index w) by (done || (exists s, hs; done)). cbn [rbind]. intros [= <-].
  simpl in *. unfold encbuf_size at 2 in L. simpl in L.
  assert (encbuf_size w2 - len (str w) - lhsize w = len bs) as -> by lia.
  pose proof (len_nonneg bs). pose proof (len_nonneg (str w)).
  exists s, ({| offset := len (str w); size := len bs |} :: hs). simpl.
  assert (forall n, 0 <= n < two63 -> (if n <? 56 then 1 else 1 + intsize (u64 n)) = len (header 192 247 n)) as HS.
  { intros n Hn. rewrite <-headsize_spec by (unfold two63, two64 in *; lia). unfold headsize.
    destruct (n <? 56) eqn:?; [done|]. rewrite u64_id; [done|]. unfold is_u64, two63, two64 in *; lia. }
  repeat split; try done; try lia.
  - rewrite E2, <-app_assoc, insert_app_r_alt, Nat.sub_diag by lia. done.
  - rewrite HS by lia. lia.
  - rewrite E1, len_app. pose proof (len_nonneg s). lia.
  - unfold rlp_list. rewrite Z.sub_diag, R. done.
Qed.

(** ** Output of a finished buffer *)

Lemma copy_at_end pre free src :
  copy_at (pre ++ free) (len pre) (len (pre ++ free)) src = Ok (pre ++ copy_into free src).
Proof.
  unfold copy_at. pose proof (len_nonneg pre). pose proof (len_nonneg free).
  rewrite slice_Ok by (rewrite len_app; lia). cbn [rbind].
  replace (Z.to_nat (len pre)) with (length pre) by (unfold len; lia).
  rewrite take_app_length, drop_app_length.
  rewrite (take_ge free) by (rewrite len_app; unfold len; lia).
  rewrite (drop_ge (pre ++ free)) by (unfold len; lia). by rewrite app_nil_r.
Qed.

Lemma copy_into_all free src : length src = length free -> copy_into free src = src.
Proof. intros E. unfold copy_into. by rewrite take_ge, drop_ge, app_nil_r by lia. Qed.

Lemma toBytes_loop_spec w hs strpos pre free :
  heads_ok (str w) strpos hs -> len free = len (render (str w) strpos hs) ->
  (let? (out, pos, strpos) := toBytes_loop w hs (pre ++ free) (len pre) strpos in
   let? rest := slice (str w) strpos (len (str w)) in
   copy_at out pos (len out) rest) = Ok (pre ++ render (str w) strpos hs).
Proof.
  revert strpos pre free. induction hs as [|h hs IH]; intros strpos pre free; simpl.
  - intros Hok Hlen. rewrite len_drop in Hlen. rewrite slice_Ok by lia. cbn [rbind].
    rewrite copy_at_end, take_ge by (rewrite length_drop; unfold len; lia).
    rewrite copy_into_all; [done|]. rewrite length_drop. unfold len in *. lia.
  - intros (H1&H2&H3&Hok) Hlen. rewrite !len_app, len_take, len_drop in Hlen.
    pose proof (len_nonneg pre). pose proof (len_nonneg (render (str w) (offset h) hs)).
    pose proof (len_nonneg (header 192 247 (size h))).
    set (a := Z.to_nat (offset h - strpos)) in *.
    assert (Z.of_nat a = offset h - strpos) as Ha by (unfold a; lia).
    set (before := take a (drop (Z.to_nat strpos) (str w))).
    assert (length before = a) as Lb.
    { unfold before. rewrite length_take, length_drop. unfold len in *. lia. }
    rewrite slice_Ok by lia. cbn [rbind]. fold a before.
    assert (copy_at (pre ++ free) (len pre) (len (pre ++ free)) before =
            Ok (pre ++ before ++ drop a free)) as ->.
    { rewrite copy_at_end. unfold copy_into. rewrite take_ge, Lb by (unfold len in *; lia). done. }
    cbn [rbind]. rewrite len_app.
    replace (Z.min (len pre + len free - len pre) (len before)) with (Z.of_nat a)
      by (unfold len in *; lia).
    rewrite slice_Ok by (rewrite !len_app; unfold len in *; rewrite length_drop; lia). cbn [rbind].
    replace (Z.to_nat (len pre + Z.of_nat a)) with (length (pre ++ before))
      by (rewrite length_app; unfold len; lia).
    rewrite app_assoc, drop_app_length.
    rewrite take_ge by (rewrite !len_app; unfold len in *; rewrite length_drop; lia).
    rewrite encode_head_spec.
    2: { unfold two63, two64 in *; lia. }
    2: { rewrite len_drop. lia. }
    cbn [rbind]. rewrite take_app_length.
    replace (len pre + Z.of_nat a + len (header 192 247 (size h)))
      with (len ((pre ++ before) ++ header 192 247 (size h)))
      by (rewrite !len_app; unfold len; lia).
    replace (strpos + Z.of_nat a) with (offset h) by lia.
    rewrite (app_assoc (pre ++ before)), IH; [by rewrite <-!app_assoc|done|].
    rewrite !len_drop. fold (len (header 192 247 (size h))). lia.
Qed.

Lemma toBytes_spec w bs : extends empty_encbuf w bs -> toBytes w = Ok bs.
Proof.
  intros X. pose proof (extends_len _ _ _ X) as L.
  destruct X as (s & hs & _ & E2 & _ & O & R).
  change (encbuf_size empty_encbuf) with 0 in L. change (len (str empty_encbuf)) with 0 in *.
  change (lheads empty_encbuf) with (@nil listhead) in E2. simpl in E2.
  pose proof (len_nonneg bs). unfold toBytes. rewrite E2.
  refine (eq_trans (toBytes_loop_spec w hs 0 [] (zeros (encbuf_size w)) O _) _); rewrite R; [|done].
  rewrite len_zeros; lia.
Qed.

(** ** Writers against the reference *)

(** [e] does to the buffer what [g] says. *)
Definition agrees (e : E) (g : G bytes) : Prop := forall tc w,
  match g tc with
  | Ok (tc', inr bs) =>
      exists w', e tc w = Ok (tc', w', None) /\ grows w w' /\ (len bs < two63 -> extends w w' bs)
  | Ok (tc', inl err) => exists w', e tc w = Ok (tc', w', Some err) /\ grows w w'
  | Panic => e tc w = Panic
  | NoFuel => e tc w = NoFuel
  end.

Fixpoint concatG (gs : list (G bytes)) : G bytes :=
  match gs with
  | [] => gret []
  | g :: gs => let! b := g in let! bs := concatG gs in gret (b ++ bs)
  end.

Lemma agrees_pure f bs :
  (forall w, len bs < two63 -> f w = Ok (append w bs)) -> (forall w, exists b, f w = Ok (append w b)) ->
  agrees (pure_writer f) (gret bs).
Proof.
  intros Hf Hb tc w. unfold pure_writer, gret. destruct (Hb w) as [b E]. rewrite E. cbn [rbind].
  eexists; split; [done|]. split; [apply grows_append|]. intros Hlen.
  assert (append w b = append w bs) as -> by (specialize (Hf w Hlen); congruence).
  apply extends_append.
Qed.

Lemma agrees_append b : agrees (pure_writer (fun w => Ok (append w b))) (gret b).
Proof. apply agrees_pure; [done|]. by exists b. Qed.

Lemma agrees_panic : agrees (fun _ _ => Panic) (fun _ => Panic).
Proof. by intros tc w. Qed.
Lemma agrees_nofuel : agrees (fun _ _ => NoFuel) (fun _ => NoFuel).
Proof. by intros tc w. Qed.
Lemma agrees_fail err : agrees (fun tc w => Ok (tc, w, Some err)) (gfail err).
Proof. intros tc w. eexists; split; [done|apply grows_refl]. Qed.

Lemma agrees_seq fs gs : Forall2 agrees fs gs -> agrees (seqE fs) (concatG gs).
Proof.
  induction 1 as [|f g fs gs Hf _ IH]; intros tc w; simpl.
  - unfold gret. eexists; split; [done|]. split; [apply grows_refl|]. intros _. apply buf_extends_refl.
  - unfold gbind. specialize (Hf tc w). destruct (g tc) as [[tc1 [err|b]]| |].
    + destruct Hf as (w1 & -> & G1). by exists w1.
    + destruct Hf as (w1 & -> & G1 & X1). cbn [rbind]. specialize (IH tc1 w1).
      destruct (concatG gs tc1) as [[tc2 [err|bs]]| |].
      * destruct IH as (w2 & -> & G2). exists w2. eauto using grows_trans.
      * destruct IH as (w2 & -> & G2 & X2). unfold gret. exists w2.
        split; [done|]. split; [by eapply grows_trans|]. rewrite len_app. intros Hlen.
        pose proof (len_nonneg b). pose proof (len_nonneg bs).
        eapply buf_extends_trans; [apply X1|apply X2]; lia.
      * by rewrite IH.
      * by rewrite IH.
    + by rewrite Hf.
    + by rewrite Hf.
Qed.

Definition listG (g : G bytes) : G bytes := let! b := g in gret (rlp_list b).

Lemma len_rlp_list b : len b <= len (rlp_list b).
Proof. unfold rlp_list. rewrite len_app. pose proof (len_nonneg (header 192 247 (len b))). lia. Qed.

(** The common part of the slice and struct writers; they differ in whether
    the list is closed after an error. *)
Lemma agrees_list (e : E) g (close : bool) : agrees e g ->
  agrees (fun tc w =>
    let '(w, lh) := encbuf_list w in
    let? (tc, w, err) := e tc w in
    match err with
    | Some x => if close then let? w := listEnd w lh in Ok (tc, w, Some x) else Ok (tc, w, Some x)
    | None => let? w := listEnd w lh in Ok (tc, w, None)
    end) (listG g).
Proof.
  intros H tc w. unfold listG, gbind. specialize (H tc (fst (encbuf_list w))).
  change (encbuf_list w) with (fst (encbuf_list w), length (lheads w)). cbv beta iota zeta.
  assert (grows w (fst (encbuf_list w))) as G0.
  { exists []. eexists. simpl. by rewrite app_nil_r. }
  destruct (g tc) as [[tc1 [err|b]]| |].
  - destruct H as (w1 & -> & G1). cbn [rbind].
    destruct close; [|exists w1; eauto using grows_trans].
    destruct (listEnd_grows w w1 G1) as (w2 & -> & G2). by exists w2.
  - destruct H as (w1 & -> & G1 & X). cbn [rbind].
    destruct (listEnd_grows w w1 G1) as (w2 & E & G2). rewrite E. cbn [rbind]. unfold gret.
    exists w2. split; [done|]. split; [done|]. intros Hlen. pose proof (len_rlp_list b).
    assert (len b < two63) as Hb by lia. by apply (listEnd_extends w w1 w2 b (X Hb) Hb).
  - by rewrite H.
  - by rewrite H.
Qed.

End RlpSpec.
