(* ===== verification/RlpRefine.v ===== *)
(** * RLP: every writer implements the reference encoding

    [spec_writer] gives the bytes of a value for each writer function, with
    list headers in front of their content.  [run_writer_agrees] shows that
    the code builds the same bytes; the theorems at the end state it for
    [EncodeToBytes], for [Encode] to an [io.Writer] and for the reader of
    [EncodeToReader], whatever the sizes of the reads. *)

From Stdlib Require Import String Lia.
From stdpp Require Import base list numbers option strings gmap.
From S2P Require Import Prelude BigInt RlpTypes RlpEncode RlpSpec.

#[local] Open Scope Z_scope.
#[local] Open Scope go_scope.

Module RlpRefine.
Import RlpTypes RlpEncode RlpSpec.

(** ** The reference *)

(** Integers of the value are in the range of their Go type. *)
Fixpoint uints_ok (v : val) : Prop :=
  match v with
  | VUint n => 0 <= n < two64
  | VBytes b => bytes_ok b
  | VPtr (Some v) => uints_ok v
  | VSlice l _ => foldr (fun v P => uints_ok v /\ P) True l
  | VArray l => foldr (fun v P => uints_ok v /\ P) True l
  | VStruct l => foldr (fun v P => uints_ok v /\ P) True l
  | VIface (Some (_, v)) => uints_ok v
  | _ => True
  end.

Lemma foldr_and {A} (P : A -> Prop) l : foldr (fun v Q => P v /\ Q) True l <-> Forall P l.
Proof.
  induction l as [|a l IH]; simpl; [split; [constructor|done]|].
  rewrite IH, Forall_cons. done.
Qed.

Definition bigG (i : Z) : G bytes := if i <? 0 then gfail negativeBigInt else gret (rlp_uint i).

Section Reference.
Context (env : decls) (user : typ -> val -> result (error + bytes)) (gen_fuel : nat).

Definition userG (t : typ) (v : val) : G bytes := fun tc => let? r := user t v in Ok (tc, r).

Fixpoint spec_writer (fuel : nat) (wr : writer) (t : typ) (addr : bool) (v : val) : G bytes :=
  match fuel with
  | O => fun _ => NoFuel
  | S fuel =>
      let at_info (l : loc) (t : typ) (addr : bool) (v : val) : G bytes := fun tc =>
        let? info := info_at tc l in spec_writer fuel (iwriter info) t addr v tc in
      match wr, v with
      | WRawValue, VBytes b => gret b
      | WEncoder, _ => userG t v
      | WEncoderNoPtr, _ =>
          if addr then userG (TPtr t) (VPtr (Some v)) else gfail (unaddressable t)
      | WInterface, VIface None => gret (rlp_list [])
      | WInterface, VIface (Some (et, ev)) =>
          let! l := cachedTypeInfo env gen_fuel et no_tags in at_info l et false ev
      | WBigIntPtr, VPtr p =>
          if bool_decide (t = TPtr TBigInt) then
            match p with
            | None => gret (rlp_string [])
            | Some (VBig i) => bigG i
            | Some _ => fun _ => Panic
            end
          else fun _ => Panic
      | WBigIntNoPtr, VBig i => bigG i
      | WUintw, VUint i => gret (rlp_uint i)
      | WBool, VBool b => gret (rlp_uint (if b then 1 else 0))
      | WString, VString s => gret (rlp_string s)
      | WBytes, VBytes b => gret (rlp_string b)
      | WByteArray, VBytes b => gret (rlp_string b)
      | WSlice l tail, _ =>
          match elements v with
          | None => fun _ => Panic
          | Some vs =>
              let all := concatG (map (at_info l (elem_type env t) (elem_addr addr v)) vs) in
              if tail then all else listG all
          end
      | WStruct fields, VStruct vs =>
          listG (concatG (map (fun '(i, l) =>
            match vs !! i with
            | Some fv => at_info l (field_type env t i) addr fv
            | None => fun _ => Panic
            end) fields))
      | WPtr l nilf, VPtr None =>
          match nilf with
          | NilString => gret (rlp_string [])
          | NilList => gret (rlp_list [])
          | NilZero zt => fun tc => let? z := Zero env gen_fuel zt in at_info l zt false z tc
          end
      | WPtr l _, VPtr (Some pv) => at_info l (elem_type env t) true pv
      | _, _ => fun _ => Panic
      end
  end.

Definition spec_encode (fuel : nat) (t : typ) (v : val) : G bytes := fun tc =>
  let? (tc, r) := cachedTypeInfo env gen_fuel t no_tags tc in
  match r with
  | inl err => Ok (tc, inl err)
  | inr l => let? info := info_at tc l in spec_writer fuel (iwriter info) t false v tc
  end.

End Reference.

(** What the documentation asks of a type's own method: it writes the encoding
    of its receiver to the buffer it is given. *)
Class EncoderLaw (enc : Encoders) (user : typ -> val -> result (error + bytes)) :=
  encodes_receiver t v : agrees (user_writer (EncodeRLP enc t v)) (userG user t v).

(** ** Totality of the primitive writers *)

Lemma encodeStringHeader_total w n : 0 <= n -> exists b, encodeStringHeader w n = Ok (append w b).
Proof.
  intros Hn. destruct (Z.eq_dec (u64 n) 0) as [H0|H0].
  - unfold encodeStringHeader. destruct (n <? 56); [by eexists|].
    rewrite H0. by eexists.
  - unfold encodeStringHeader. destruct (n <? 56); [by eexists|].
    pose proof (u64_range n) as Hu. unfold is_u64 in Hu.
    rewrite (scratch_tag (u64 n) 183 (fun b => Ok (append w b))) by lia. by eexists.
Qed.

Lemma encodeString_total w b : exists b', encodeString w b = Ok (append w b').
Proof.
  assert (forall w n b, 0 <= n -> exists b', (let? w := encodeStringHeader w n in Ok (append w b)) =
    Ok (append w b')) as H.
  { intros w' n b' Hn. destruct (encodeStringHeader_total w' n Hn) as [h ->]. cbn [rbind].
    rewrite append_app. by eexists. }
  unfold encodeString. destruct b as [|x [|y b]]; [|destruct (x <=? 127); [by eexists|]|];
    apply H, len_nonneg.
Qed.

Lemma agrees_string b : agrees (pure_writer (fun w => encodeString w b)) (gret (rlp_string b)).
Proof.
  apply agrees_pure; [|intros; apply encodeString_total].
  intros w Hb. apply encodeString_spec. unfold rlp_string in Hb. destruct b as [|x [|y b]]; [done..|].
  rewrite len_app in Hb. pose proof (len_nonneg (header 128 183 (len (x :: y :: b)))).
  unfold two63, two64 in *. lia.
Qed.

Lemma agrees_uint i : 0 <= i < two64 -> agrees (pure_writer (writeUint i)) (gret (rlp_uint i)).
Proof.
  intros Hi. apply agrees_pure; [intros; by apply writeUint_spec|].
  intros w. eexists. by apply writeUint_spec.
Qed.

Lemma agrees_big i : agrees (user_writer (writeBigInt i)) (bigG i).
Proof.
  intros tc w. unfold user_writer, writeBigInt, bigG. destruct (Z.compare_spec i 0) as [->|H|H].
  - simpl. eexists. split; [done|]. split; [apply grows_append|]. intros _. apply extends_append.
  - rewrite (proj2 (Z.ltb_lt _ _)) by lia. simpl. eexists. split; [done|apply grows_refl].
  - rewrite (proj2 (Z.ltb_ge _ _)) by lia. pose proof (agrees_string (Big.Bytes i) tc w) as A.
    unfold gret, pure_writer in *. destruct A as (w' & E & A).
    destruct (encodeString w (Big.Bytes i)); [|done..]. simpl in *. injection E as ->. by exists w'.
Qed.

Lemma agrees_ext (e e' : E) (g g' : G bytes) :
  (forall tc w, e tc w = e' tc w) -> (forall tc, g tc = g' tc) -> agrees e g -> agrees e' g'.
Proof. intros He Hg A tc w. rewrite <-Hg, <-He. apply A. Qed.

(** ** Zero values *)

Lemma rmap_Forall {A B} (f : A -> result B) (P : B -> Prop) l bs :
  (forall a b, f a = Ok b -> P b) -> rmap f l = Ok bs -> Forall P bs.
Proof.
  intros H. revert bs. induction l as [|a l IH]; simpl; intros bs.
  - intros [= <-]. constructor.
  - intros (b & Hb & (bs' & Hbs & [= <-])%rbind_Ok_inv)%rbind_Ok_inv. constructor; eauto.
Qed.

Lemma Zero_ok env fuel t z : Zero env fuel t = Ok z -> uints_ok z.
Proof.
  revert t z. induction fuel as [|fuel IH]; intros t z; simpl; [done|].
  destruct (kind_of env t); try (intros [= <-]; done).
  - intros [= <-]. destruct (kind_of env e) as [|[]| | | | | | |]; simpl; try done; constructor.
  - assert ((let? z0 := Zero env fuel e in Ok (VArray (replicate n z0))) = Ok z -> uints_ok z) as Ha.
    { intros (z' & Hz & [= <-])%rbind_Ok_inv. simpl. apply foldr_and, Forall_replicate. eauto. }
    destruct (kind_of env e) as [|[]| | | | | | |]; try exact Ha.
    intros [= <-]. simpl. apply Forall_replicate. unfold byte_ok. lia.
  - case_bool_decide; [by intros [= <-]|].
    intros (zs & Hzs & [= <-])%rbind_Ok_inv. simpl. apply foldr_and. eapply rmap_Forall; [|done].
    intros f z. apply IH.
Qed.

(** ** The writers *)

Section Writers.
Context (env : decls) (enc : Encoders) (user : typ -> val -> result (error + bytes)).
Context `{!EncoderLaw enc user} (gen_fuel : nat).

Lemma elements_ok v vs : uints_ok v -> elements v = Some vs -> Forall uints_ok vs.
Proof.
  destruct v; simpl; try done; intros H [= <-].
  - apply Forall_map. eapply Forall_impl; [exact H|]. intros x Hx. simpl. unfold byte_ok, two64 in *. lia.
  - by apply foldr_and.
  - by apply foldr_and.
Qed.

Lemma agrees_elems (ef : val -> E) (gf : val -> G bytes) vs :
  (forall v, uints_ok v -> agrees (ef v) (gf v)) -> Forall uints_ok vs ->
  agrees (seqE (map ef vs)) (concatG (map gf vs)).
Proof.
  intros H Hvs. apply agrees_seq, Forall2_fmap, Forall_Forall2_diag.
  eapply Forall_impl; [exact Hvs|]. exact H.
Qed.

Lemma agrees_fields (ef : nat -> loc -> val -> E) (gf : nat -> loc -> val -> G bytes) vs fields :
  (forall i l v, uints_ok v -> agrees (ef i l v) (gf i l v)) -> Forall uints_ok vs ->
  agrees
    (seqE (map (fun '(i, l) => match vs !! i with Some v => ef i l v | None => fun _ _ => Panic end) fields))
    (concatG (map (fun '(i, l) => match vs !! i with Some v => gf i l v | None => fun _ => Panic end) fields)).
Proof.
  intros H Hvs. apply agrees_seq, Forall2_fmap, Forall_Forall2_diag, Forall_forall. intros [i l] _.
  destruct (vs !! i) as [fv|] eqn:E; [|apply agrees_panic]. apply H. by eapply Forall_lookup_1.
Qed.

Lemma run_writer_agrees fuel wr t addr v : uints_ok v ->
  agrees (run_writer env enc gen_fuel fuel wr t addr v)
         (spec_writer env user gen_fuel fuel wr t addr v).
Proof.
  revert wr t addr v. induction fuel as [|fuel IH]; intros wr t addr v Hv; [by intros tc w|].
  assert (forall l t addr v, uints_ok v -> agrees
    (fun tc w => let? info := info_at tc l in
       run_writer env enc gen_fuel fuel (iwriter info) t addr v tc w)
    (fun tc => let? info := info_at tc l in
       spec_writer env user gen_fuel fuel (iwriter info) t addr v tc)) as Hat.
  { intros l t' addr' v' Hv' tc w. destruct (info_at tc l); simpl; [|done..]. by apply IH. }
  destruct wr as [| | | | | | | | | | |l tl|fields|l nilf]; simpl.
  - destruct v; try apply agrees_panic. apply agrees_append.
  - apply encodes_receiver.
  - destruct addr; [apply encodes_receiver|apply agrees_fail].
  - destruct v as [| | | | | | | | |[[et ev]|]|]; try apply agrees_panic; [|apply agrees_append].
    intros tc w. unfold gbind. destruct (cachedTypeInfo env gen_fuel et no_tags tc) as [[tc' [err|l]]| |];
      simpl; try done.
    + exists w. split; [done|apply grows_refl].
    + by apply Hat.
  - destruct v as [| | | | |p| | | | |]; try apply agrees_panic.
    case_bool_decide; [|apply agrees_panic].
    destruct p as [[]|]; try apply agrees_panic; [apply agrees_big|apply agrees_append].
  - destruct v; try apply agrees_panic. apply agrees_big.
  - destruct v; try apply agrees_panic. by apply agrees_uint.
  - destruct v; try apply agrees_panic. destruct b; apply agrees_append.
  - destruct v; try apply agrees_panic. apply agrees_string.
  - destruct v; try apply agrees_panic. apply agrees_string.
  - destruct v; try apply agrees_panic. apply agrees_string.
  - destruct (elements v) as [vs|] eqn:E; [|apply agrees_panic].
    pose proof (agrees_elems _ _ vs (Hat l (elem_type env t) (elem_addr addr v))
      (elements_ok v vs Hv E)) as Hall.
    destruct tl; [eapply agrees_ext; [done|done|apply Hall]|].
    pose proof (agrees_list _ _ true Hall) as L.
    eapply agrees_ext; [|done|exact L].
    intros tc w. simpl. destruct (seqE _ tc _) as [[[tc' w'] [x|]]| |]; done.
  - destruct v as [| | | | | | | |vs| |]; try apply agrees_panic. simpl in Hv. apply foldr_and in Hv.
    pose proof (agrees_fields _ _ vs fields
      (fun i l => Hat l (field_type env t i) addr) Hv) as A.
    eapply agrees_ext; [|done|exact (agrees_list _ _ false A)].
    intros tc w. simpl. destruct (seqE _ tc _) as [[[tc' w'] [x|]]| |]; done.
  - destruct v as [| | | | |[pv|]| | | | |]; try apply agrees_panic; [by apply Hat|].
    destruct nilf as [| |zt]; [apply agrees_append| |].
    + pose proof (agrees_list _ _ true (agrees_seq [] [] (List.Forall2_nil agrees))) as L.
      eapply agrees_ext; [|done|exact L].
      intros tc w. unfold pure_writer. simpl. by destruct (listEnd _ _).
    + intros tc w. destruct (Zero env gen_fuel zt) as [z| |] eqn:E; simpl; [|done..].
      apply Hat. by eapply Zero_ok.
Qed.

Lemma encode_agrees fuel t v : uints_ok v ->
  agrees (encode env enc gen_fuel fuel t v) (spec_encode env user gen_fuel fuel t v).
Proof.
  intros Hv tc w. unfold encode, spec_encode.
  destruct (cachedTypeInfo env gen_fuel t no_tags tc) as [[tc' [err|l]]| |]; cbn [rbind]; try done.
  - exists w. split; [done|apply grows_refl].
  - destruct (info_at tc' l); cbn [rbind]; [|done..]. by apply run_writer_agrees.
Qed.

End Writers.

Lemma reset_empty w : reset w = empty_encbuf.
Proof. done. Qed.

(** ** Output to a writer *)

Section Pieces.
Context {St : Type} (write : St -> bytes -> St * (Z * option error)).

(** The calls of [Write], in order, until one fails. *)
Fixpoint feed (out : St) (ps : list bytes) : St * option error :=
  match ps with
  | [] => (out, None)
  | p :: ps => match write out p with
               | (out, (_, Some err)) => (out, Some err)
               | (out, (_, None)) => feed out ps
               end
  end.

Definition nonempty (b : bytes) : list bytes := match b with [] => [] | _ => [b] end.

Fixpoint pieces (s : bytes) (from : Z) (hs : list listhead) : list bytes :=
  match hs with
  | [] => nonempty (drop (Z.to_nat from) s)
  | h :: hs =>
      nonempty (take (Z.to_nat (offset h - from)) (drop (Z.to_nat from) s)) ++
      header 192 247 (size h) :: pieces s (offset h) hs
  end.

Lemma concat_nonempty b : concat (nonempty b) = b.
Proof. destruct b; simpl; by rewrite ?app_nil_r. Qed.

Lemma concat_pieces s from hs : concat (pieces s from hs) = render s from hs.
Proof.
  revert from. induction hs as [|h hs IH]; intros from; simpl; [apply concat_nonempty|].
  rewrite concat_app. simpl. by rewrite concat_nonempty, IH.
Qed.

(** [io.Writer]: a write that returns no error has taken every byte. *)
Hypothesis write_all : forall out b out' n, write out b = (out', (n, None)) -> n = len b.

Lemma nonempty_cons (b : bytes) : 0 < len b -> nonempty b = [b].
Proof. by destruct b. Qed.

Lemma toWriter_loop_spec w hs out strpos :
  heads_ok (str w) strpos hs ->
  (let? (out, (strpos, err)) := toWriter_loop write w hs out strpos in
   match err with
   | Some err => Ok (out, Some err)
   | None =>
       if strpos <? len (str w) then
         let? rest := slice (str w) strpos (len (str w)) in
         match write out rest with (out, (_, err)) => Ok (out, err) end
       else Ok (out, None)
   end) = Ok (feed out (pieces (str w) strpos hs)).
Proof.
  revert out strpos. induction hs as [|h hs IH]; intros out strpos; simpl.
  - intros Hok. destruct (Z.ltb_spec strpos (len (str w))).
    + rewrite slice_Ok by lia. cbn [rbind].
      rewrite take_ge by (rewrite length_drop; unfold len; lia).
      rewrite nonempty_cons by (rewrite len_drop; lia). simpl.
      destruct (write out _) as [out' [n [e|]]]; done.
    + rewrite drop_ge by (unfold len in *; lia). done.
  - intros (H1&H2&H3&Hok).
    rewrite encode_head_spec by (unfold two63, two64 in *; rewrite ?len_scratch;
      pose proof (len_header 192 247 (size h)); unfold two64 in *; lia).
    cbn [rbind]. rewrite Z.gtb_ltb. destruct (Z.ltb_spec 0 (offset h - strpos)).
    + rewrite slice_Ok by lia. cbn [rbind].
      rewrite (nonempty_cons (take _ _)) by (rewrite len_take, len_drop; lia). simpl.
      destruct (write out _) as [out1 [n [e|]]] eqn:W; [done|].
      pose proof (write_all _ _ _ _ W) as Hn. rewrite len_take, len_drop in Hn.
      destruct (write out1 _) as [out2 [n2 [e|]]]; [done|].
      replace (strpos + n) with (offset h) by lia. by apply IH.
    + replace (Z.to_nat (offset h - strpos)) with 0%nat by lia. simpl.
      destruct (write out _) as [out2 [n2 [e|]]]; [done|].
      replace strpos with (offset h) by lia. by apply IH.
Qed.

Lemma toWriter_spec w bs out : extends empty_encbuf w bs ->
  toWriter write w out = Ok (feed out (pieces (str w) 0 (lheads w))) /\
  concat (pieces (str w) 0 (lheads w)) = bs.
Proof.
  intros (s & hs & _ & E2 & _ & O & R). change (len (str empty_encbuf)) with 0 in *.
  change (lheads empty_encbuf) with (@nil listhead) in E2. simpl in E2. subst hs.
  rewrite concat_pieces. split; [|done]. by apply toWriter_loop_spec.
Qed.
End Pieces.

(** ** Output through a reader *)

(** The pieces [ps] are still to be read. *)
Definition reader_ok (r : encReader) (ps : list bytes) : Prop :=
  match buf r with
  | None => ps = []
  | Some w =>
      0 <= lhpos r <= len (lheads w) /\ piece r <> Some [] /\
      heads_ok (str w) (strpos r) (drop (Z.to_nat (lhpos r)) (lheads w)) /\
      ps = option_list (piece r) ++ pieces (str w) (strpos r) (drop (Z.to_nat (lhpos r)) (lheads w))
  end.

Lemma header_nonempty s l n : header s l n <> [].
Proof. unfold header. by destruct (n <? 56). Qed.

Lemma header_room h : 0 <= size h < two63 ->
  0 <= size h < two64 /\ len (header 192 247 (size h)) <= len scratch.
Proof.
  intros H. assert (0 <= size h < two64) as H' by (unfold two63, two64 in *; lia).
  pose proof (len_header 192 247 _ H'). rewrite len_scratch. lia.
Qed.

Lemma len_pos (b : bytes) : 0 < len b -> b <> [].
Proof. by destruct b. Qed.

(** [next] takes the pieces one by one. *)
Lemma next_spec r ps : reader_ok r ps ->
  match ps with
  | [] => next r = Ok (r, None)
  | p :: ps => exists r', next r = Ok (r', Some p) /\ p <> [] /\ buf r' = buf r /\
      reader_ok (set_piece r' None) ps
  end.
Proof.
  unfold reader_ok, next, set_piece. destruct (buf r) as [w|] eqn:B; [|by intros ->].
  destruct r as [b lp sp pc]; cbn [buf lhpos strpos piece] in *. subst b. intros (Hl & Hp & Hok & ->).
  destruct pc as [p|]; simpl; [eexists; repeat split; simpl; (done || lia || congruence)|].
  destruct (Z.ltb_spec lp (len (lheads w))) as [H|H].
  - destruct (index_Ok (lheads w) lp ltac:(lia)) as (h & -> & Hh). cbn [rbind].
    rewrite (drop_S _ _ _ Hh) in Hok |- *. simpl in Hok |- *. destruct Hok as (H1&H2&H3&Hok).
    rewrite Z.gtb_ltb. destruct (Z.ltb_spec 0 (offset h - sp)) as [Hb|Hb].
    + rewrite slice_Ok, nonempty_cons by (rewrite ?len_take, ?len_drop; lia). cbn [rbind].
      eexists. split; [done|]. split.
      { apply len_pos. rewrite len_take, len_drop. lia. }
      split; [done|]. simpl. rewrite (drop_S _ _ _ Hh). simpl.
      replace (sp + (offset h - sp)) with (offset h) by lia.
      rewrite Z.sub_diag. simpl. repeat split; simpl; (done || lia || congruence).
    + replace (Z.to_nat (offset h - sp)) with 0%nat by lia. simpl.
      destruct (header_room h H3). rewrite encode_head_spec by done. cbn [rbind].
      eexists. split; [done|]. split; [apply header_nonempty|]. split; [done|]. simpl.
      replace (Z.to_nat (lp + 1)) with (S (Z.to_nat lp)) by lia.
      replace (offset h) with sp in * by lia. repeat split; simpl; (done || lia || congruence).
  - rewrite (drop_ge (lheads w)) in Hok |- * by (unfold len in *; lia). simpl in Hok |- *.
    destruct (Z.ltb_spec sp (len (str w))).
    + rewrite slice_Ok, nonempty_cons by (rewrite ?len_drop; lia). cbn [rbind].
      rewrite take_ge by (rewrite length_drop; unfold len; lia).
      eexists. split; [done|]. split.
      { apply len_pos. rewrite len_drop. lia. }
      split; [done|]. simpl. rewrite (drop_ge (lheads w)) by (unfold len in *; lia). simpl.
      rewrite drop_ge by (unfold len; lia). simpl. repeat split; simpl; (done || lia || congruence).
    + by rewrite drop_ge by (unfold len in *; lia).
Qed.

Lemma Read_loop_spec fuel r ps got room :
  reader_ok r ps -> (length ps < fuel)%nat -> 0 <= room ->
  exists r' eof ps', Read_loop fuel r got room = Ok (r', got ++ take (Z.to_nat room) (concat ps), eof) /\
    reader_ok r' ps' /\ concat ps' = drop (Z.to_nat room) (concat ps) /\ (eof = true -> ps' = []) /\
    (length ps' <= length ps)%nat /\ (forall w, buf r' = Some w -> buf r = Some w).
Proof.
  revert r ps got room. induction fuel as [|fuel IH]; intros r ps got room Hr Hf Hroom; [lia|].
  simpl. pose proof (next_spec r ps Hr) as N. destruct ps as [|p ps].
  - rewrite N. cbn [rbind]. simpl. rewrite take_nil, drop_nil, app_nil_r.
    do 2 eexists. exists []. split; [done|]. repeat split; done.
  - destruct N as (r1 & -> & Hp & Hb & Hr1). cbn [rbind]. simpl.
    assert (0 < len p) by (destruct p; [done|rewrite len_cons; pose proof (len_nonneg p); lia]).
    destruct (Z.ltb_spec (Z.min room (len p)) (len p)) as [H1|H1].
    + rewrite Z.min_l by lia. exists (set_piece r1 (Some (drop (Z.to_nat room) p))), false,
        (drop (Z.to_nat room) p :: ps). rewrite take_app_le, drop_app_le by (unfold len in *; lia).
      split; [done|]. split; [|split; [done|split; [done|split; [simpl; lia|simpl; congruence]]]].
      unfold reader_ok, set_piece in Hr1 |- *. simpl in *. 
      unfold reader_ok in Hr. rewrite <-Hb in Hr. destruct (buf r1); [clear Hr|done].
      { destruct Hr1 as (?&_&?&->). repeat split; try done; try lia. intros [= E].
        revert E. apply len_pos. rewrite len_drop. lia. }
    + rewrite Z.min_r by lia. simpl in Hf.
      change (set_piece (set_piece r1 (Some p)) None) with (set_piece r1 None).
      destruct (IH (set_piece r1 None) ps (got ++ take (Z.to_nat (len p)) p) (room - len p))
        as (r' & eof & ps' & E & Hr' & Hc & He & Hle & Hw); [done|lia|lia|].
      exists r', eof, ps'. rewrite E. rewrite (take_ge p) by (unfold len; lia).
      rewrite take_app_ge, drop_app_ge, <-app_assoc by (unfold len in *; lia).
      replace (Z.to_nat (room - len p)) with (Z.to_nat room - length p)%nat by (unfold len; lia).
      split; [done|]. split; [done|]. split.
      { rewrite Hc. f_equal. unfold len. lia. }
      split; [done|]. split; [simpl; lia|]. simpl in *. rewrite <-Hb. done.
Qed.

Lemma pieces_length s from hs : (length (pieces s from hs) <= 2 * length hs + 1)%nat.
Proof.
  revert from. induction hs as [|h hs IH]; intros from; simpl.
  - unfold nonempty. destruct (drop _ s); simpl; lia.
  - rewrite length_app. simpl. specialize (IH (offset h)).
    unfold nonempty. destruct (take _ _); simpl; lia.
Qed.

Lemma Read_spec r ps n : reader_ok r ps -> 0 <= n ->
  (forall w, buf r = Some w -> length ps <= 2 * length (lheads w) + 2)%nat ->
  exists r' eof ps', Read r n = Ok (r', take (Z.to_nat n) (concat ps), eof) /\
    reader_ok r' ps' /\ concat ps' = drop (Z.to_nat n) (concat ps) /\ (eof = true -> ps' = []) /\
    (forall w, buf r' = Some w -> length ps' <= 2 * length (lheads w) + 2)%nat.
Proof.
  intros Hr Hn Hl. unfold Read.
  destruct (Read_loop_spec (read_fuel r) r ps [] n Hr) as (r' & eof & ps' & E & H1 & H2 & H3 & H4 & H5);
    [|done|].
  - unfold read_fuel, reader_ok in *. destruct (buf r); [specialize (Hl _ eq_refl); lia|subst; simpl; lia].
  - exists r', eof, ps'. split; [done|]. repeat split; [done..|].
    intros w Hw. specialize (Hl w (H5 w Hw)). lia.
Qed.

(** Successive reads of the given sizes. *)
Fixpoint reads (r : encReader) (ns : list Z) : result (encReader * bytes) :=
  match ns with
  | [] => Ok (r, [])
  | n :: ns =>
      let? (r, b, _) := Read r n in
      let? (r, bs) := reads r ns in Ok (r, b ++ bs)
  end.

Lemma reads_spec ns r ps : reader_ok r ps -> Forall (Z.le 0) ns ->
  (forall w, buf r = Some w -> length ps <= 2 * length (lheads w) + 2)%nat ->
  exists r', reads r ns = Ok (r', take (Z.to_nat (foldr Z.add 0 ns)) (concat ps)).
Proof.
  revert r ps. induction ns as [|n ns IH]; intros r ps Hr Hns Hl; simpl; [by eexists|].
  apply Forall_cons in Hns as [Hn Hns].
  destruct (Read_spec r ps n Hr Hn Hl) as (r1 & eof & ps1 & -> & Hr1 & Hc & _ & Hl1). cbn [rbind].
  destruct (IH r1 ps1 Hr1 Hns Hl1) as (r2 & ->). cbn [rbind]. exists r2. rewrite Hc.
  assert (0 <= foldr Z.add 0 ns) by (clear -Hns; induction Hns; simpl; lia).
  rewrite Z2Nat.inj_add, take_take_drop by lia. done.
Qed.

(** ** The encoder implements the format *)

Section Theorems.
Context (env : decls) (enc : Encoders) (user : typ -> val -> result (error + bytes)).
Context `{!EncoderLaw enc user} (gen_fuel fuel : nat) (old : encbuf).

(** The outcome of [encode] on the pooled buffer, when the reference yields bytes. *)
Lemma encode_extends t v tc tc' bs :
  uints_ok v -> spec_encode env user gen_fuel fuel t v tc = Ok (tc', inr bs) -> len bs < two63 ->
  exists w, encode env enc gen_fuel fuel t v tc (reset old) = Ok (tc', w, None) /\
    extends empty_encbuf w bs.
Proof.
  intros Hv E Hlen. pose proof (encode_agrees env enc user gen_fuel fuel t v Hv tc (reset old)) as A.
  rewrite E in A. destruct A as (w & -> & _ & X). rewrite reset_empty in X. eauto.
Qed.

Lemma EncodeToBytes_spec t v tc :
  uints_ok v ->
  (forall tc' bs, spec_encode env user gen_fuel fuel t v tc = Ok (tc', inr bs) -> len bs < two63) ->
  EncodeToBytes env enc gen_fuel fuel old t v tc = spec_encode env user gen_fuel fuel t v tc.
Proof.
  intros Hv Hlen. unfold EncodeToBytes.
  pose proof (encode_agrees env enc user gen_fuel fuel t v Hv tc (reset old)) as A.
  destruct (spec_encode env user gen_fuel fuel t v tc) as [[tc' [err|bs]]| |] eqn:E.
  - by destruct A as (w & -> & _).
  - destruct A as (w & -> & _ & X). cbn [rbind]. rewrite (toBytes_spec w bs); [done|].
    apply X. by eapply Hlen.
  - by rewrite A.
  - by rewrite A.
Qed.

Lemma EncodeToReader_spec t v tc tc' bs ns :
  uints_ok v -> spec_encode env user gen_fuel fuel t v tc = Ok (tc', inr bs) -> len bs < two63 ->
  Forall (Z.le 0) ns ->
  exists rd r', EncodeToReader env enc gen_fuel fuel old t v tc = Ok (tc', inr (len bs, rd)) /\
    reads rd ns = Ok (r', take (Z.to_nat (foldr Z.add 0 ns)) bs).
Proof.
  intros Hv E Hlen Hns. destruct (encode_extends t v tc tc' bs Hv E Hlen) as (w & Ew & X).
  pose proof (extends_len _ _ _ X) as L. change (encbuf_size empty_encbuf) with 0 in L.
  destruct X as (s & hs & _ & E2 & _ & O & R). change (len (str empty_encbuf)) with 0 in *.
  change (lheads empty_encbuf) with (@nil listhead) in E2. simpl in E2. subst hs.
  set (rd := {| buf := Some w; lhpos := 0; strpos := 0; piece := None |}).
  assert (reader_ok rd (pieces (str w) 0 (lheads w))) as Hrd.
  { unfold rd, reader_ok. simpl. pose proof (len_nonneg (lheads w)). repeat split; try done; lia. }
  destruct (reads_spec ns rd _ Hrd Hns) as (r' & E').
  { intros w' [= <-]. pose proof (pieces_length (str w) 0 (lheads w)). lia. }
  exists rd, r'. rewrite E', concat_pieces, R. split; [|done].
  unfold EncodeToReader. rewrite Ew. cbn [rbind]. do 4 f_equal. lia.
Qed.

Lemma Encode_spec {St} (write : St -> bytes -> St * (Z * option error)) t v tc tc' bs out :
  (forall out b out' n, write out b = (out', (n, None)) -> n = len b) ->
  uints_ok v -> spec_encode env user gen_fuel fuel t v tc = Ok (tc', inr bs) -> len bs < two63 ->
  exists ps, concat ps = bs /\
    Encode env enc gen_fuel write fuel old t v tc out = Ok (tc', fst (feed write out ps), snd (feed write out ps)).
Proof.
  intros Hw Hv E Hlen. destruct (encode_extends t v tc tc' bs Hv E Hlen) as (w & Ew & X).
  destruct (toWriter_spec write Hw w bs out X) as [T C].
  exists (pieces (str w) 0 (lheads w)). split; [done|]. unfold Encode. rewrite Ew. cbn [rbind].
  rewrite T. cbn [rbind]. by destruct (feed _ _ _).
Qed.

(** When the reference yields no bytes, neither writer nor reader is touched. *)
Lemma encode_fails {St} (write : St -> bytes -> St * (Z * option error)) t v tc out : uints_ok v ->
  match spec_encode env user gen_fuel fuel t v tc with
  | Ok (tc', inl err) =>
      Encode env enc gen_fuel write fuel old t v tc out = Ok (tc', out, Some err) /\
      EncodeToReader env enc gen_fuel fuel old t v tc = Ok (tc', inl err)
  | Ok (_, inr _) => True
  | Panic =>
      Encode env enc gen_fuel write fuel old t v tc out = Panic /\
      EncodeToReader env enc gen_fuel fuel old t v tc = Panic
  | NoFuel =>
      Encode env enc gen_fuel write fuel old t v tc out = NoFuel /\
      EncodeToReader env enc gen_fuel fuel old t v tc = NoFuel
  end.
Proof.
  intros Hv. pose proof (encode_agrees env enc user gen_fuel fuel t v Hv tc (reset old)) as A.
  unfold Encode, EncodeToReader.
  destruct (spec_encode env user gen_fuel fuel t v tc) as [[tc' [err|bs]]| |]; [|done|by rewrite A..].
  by destruct A as (w & -> & _).
Qed.

End Theorems.

End RlpRefine.
