(* ===== verification/RlpStream.v ===== *)
(** * RLP: what the stream accepts

    The behaviour of the stream operations on a stream limited to the length of
    its data, as [DecodeBytes] sets it up: each either moves forward by the
    bytes of one canonical header or content ([moved]), or fails.  A header is
    read exactly when it is the one the encoder writes. *)

From Stdlib Require Import String Lia.
From stdpp Require Import base list numbers option strings gmap.
From S2P Require Import Prelude BigInt RlpTypes RlpEncode RlpDecode RlpSpec.

#[local] Open Scope Z_scope.
#[local] Open Scope go_scope.

Module RlpStream.
Import RlpTypes RlpSpec RlpDecode.

(** ** States *)

Abbreviation sdata s := (data (r s)).

Definition pos_ok (p : listpos) : Prop := 0 <= pos p <= lsize p /\ lsize p <= maxAlloc.

(** A stream that knows how much data is left. *)
Record sok (s : Stream) : Prop := {
  sok_limited : limited s = true;
  sok_eof : eof_with_data (r s) = false;
  sok_remaining : remaining s = len (sdata s);
  sok_len : len (sdata s) <= maxAlloc;
  sok_data : bytes_ok (sdata s);
  sok_stack : Forall pos_ok (stack s);
}.

Definition bump (n : Z) (st : list listpos) : list listpos :=
  match st with
  | [] => []
  | t :: below => {| pos := pos t + n; lsize := lsize t |} :: below
  end.

(** Bytes the innermost list still has. *)
Definition room (n : Z) (s : Stream) : Prop :=
  match stack s with [] => True | t :: _ => n <= lsize t - pos t end.

(** [s'] is [s] with [n] more bytes read. *)
Record moved (n : Z) (s s' : Stream) : Prop := {
  moved_data : sdata s' = drop (Z.to_nat n) (sdata s);
  moved_eof : eof_with_data (r s') = eof_with_data (r s);
  moved_limited : limited s' = limited s;
  moved_remaining : remaining s' = remaining s - n;
  moved_stack : stack s' = bump n (stack s);
}.

Lemma bump_0 st : bump 0 st = st.
Proof. destruct st as [|[p l] st]; [done|]. simpl. by rewrite Z.add_0_r. Qed.

Lemma moved_refl s : moved 0 s s.
Proof. split; simpl; try done; [lia|by rewrite bump_0]. Qed.

Lemma moved_trans a b s s1 s2 : 0 <= a -> 0 <= b -> moved a s s1 -> moved b s1 s2 -> moved (a + b) s s2.
Proof.
  intros Ha Hb [A1 A2 A3 A4 A5] [B1 B2 B3 B4 B5]. split; try congruence.
  - rewrite B1, A1, drop_drop, Z2Nat.inj_add by lia. done.
  - lia.
  - rewrite B5, A5. destruct (stack s) as [|t st]; [done|]. simpl. by rewrite Z.add_assoc.
Qed.

Lemma moved_sok n s s' : sok s -> 0 <= n <= remaining s -> room n s -> moved n s s' -> sok s'.
Proof.
  intros [H1 H2 H3 H4 H5 H6] Hn Hr [M1 M2 M3 M4 M5]. split; try congruence.
  - rewrite M4, M1, len_drop. lia.
  - rewrite M1, len_drop. lia.
  - rewrite M1. by apply bytes_ok_drop.
  - rewrite M5. unfold room in Hr. destruct (stack s) as [|t st]; [constructor|].
    apply Forall_cons in H6 as [[Hp Hl] H6]. constructor; [|done]. unfold pos_ok. simpl. lia.
Qed.

Lemma two64_maxAlloc : maxAlloc < two63 /\ two63 < two64.
Proof. done. Qed.

(** ** Reading *)

Definition eat (n : Z) (s : Stream) : Stream :=
  set_data (drop (Z.to_nat n) (sdata s))
    (set_remaining (remaining s - n) (set_stack (bump n (stack s)) (rearm s))).

Lemma eat_moved n s : moved n s (eat n s).
Proof. split; done. Qed.

Definition not_eol (e : error) : Prop := e <> EOL.

Lemma willRead_cases n s : sok s -> 0 <= n ->
  (n <= remaining s /\ room n s /\
   willRead n s = (set_remaining (remaining s - n) (set_stack (bump n (stack s)) (rearm s)), None)) \/
  (~ (n <= remaining s /\ room n s) /\
   exists s' e, willRead n s = (s', Some e) /\ not_eol e).
Proof.
  intros [H1 H2 H3 H4 H5 H6] Hn. pose proof two64_maxAlloc. pose proof (len_nonneg (sdata s)).
  unfold willRead, room. simpl. rewrite H1.
  destruct (stack s) as [|t st] eqn:E; simpl.
  - rewrite ?H1, ?Z.gtb_ltb. destruct (Z.ltb_spec (remaining s) n).
    + right. split; [lia|]. do 2 eexists. by split.
    + left. split; [lia|]. split; [done|]. simpl.
      rewrite u64_id by (unfold is_u64; lia). unfold set_remaining, set_stack, rearm, set_kind. simpl. by rewrite E.
  - apply Forall_cons in H6 as [[Hp Hl] H6].
    rewrite u64_id by (unfold is_u64; lia). rewrite !Z.gtb_ltb.
    destruct (Z.ltb_spec (lsize t - pos t) n).
    + right. split; [lia|]. do 2 eexists. by split.
    + simpl. rewrite ?H1, ?Z.gtb_ltb. destruct (Z.ltb_spec (remaining s) n).
      * right. split; [lia|]. do 2 eexists. by split.
      * left. split; [lia|]. split; [lia|]. simpl.
        rewrite !u64_id by (unfold is_u64; lia). done.
Qed.

Lemma readFull_cases n s : sok s -> 0 <= n ->
  (n <= remaining s /\ room n s /\
   readFull n s = (eat n s, (take (Z.to_nat n) (sdata s), None))) \/
  (~ (n <= remaining s /\ room n s) /\
   exists s' b e, readFull n s = (s', (b, Some e)) /\ not_eol e).
Proof.
  intros Hs Hn. unfold readFull. destruct (willRead_cases n s Hs Hn) as [(H1&H2&->)|(H&s'&e&->&He)].
  - left. split; [done|]. split; [done|]. simpl. destruct Hs as [_ -> Hr _ _ _].
    rewrite (proj2 (Z.ltb_ge _ _)) by lia. done.
  - right. split; [done|]. by exists s', [], e.
Qed.

Lemma readByte_cases s : sok s ->
  (exists b rest, sdata s = b :: rest /\ byte_ok b /\ 1 <= remaining s /\ room 1 s /\
    readByte s = (eat 1 s, inr b)) \/
  (~ (1 <= remaining s /\ room 1 s) /\ exists s' e, readByte s = (s', inl e) /\ not_eol e).
Proof.
  intros Hs. unfold readByte. destruct (willRead_cases 1 s Hs ltac:(lia)) as [(H1&H2&->)|(H&s'&e&->&He)].
  - left. pose proof (sok_remaining s Hs) as Hr. pose proof (sok_data s Hs) as Hd. unfold eat.
    simpl. destruct (sdata s) as [|b rest] eqn:E; [rewrite len_nil in Hr; lia|].
    apply bytes_ok_cons in Hd as [Hb _]. exists b, rest.
    split; [done|]. split; [done|]. split; [done|]. split; [done|]. done.
  - right. split; [done|]. by exists s', e.
Qed.

Lemma Bytes_SetBytes l x rest : bytes_ok l -> l = x :: rest -> x <> 0 -> Big.Bytes (Big.SetBytes l) = l.
Proof.
  intros Hl -> Hx. pose proof (Big.SetBytes_bound _ Hl) as Hb.
  apply bytes_ok_cons in Hl as [Hx1 Hrest].
  rewrite (Bytes_width (length (x :: rest))); [apply Big.be_SetBytes; by constructor| |simpl; lia].
  change (Z.of_nat (length (x :: rest))) with (len (x :: rest)). split; [|lia].
  replace (x :: rest) with ([x] ++ rest) by done. rewrite Big.SetBytes_app, len_app, len_single.
  replace (1 + len rest - 1) with (len rest) by lia. unfold byte_ok in Hx1.
  pose proof (Big.SetBytes_bound rest Hrest). pose proof (len_nonneg rest).
  assert (0 < 256 ^ len rest) by (apply Z.pow_pos_nonneg; lia).
  change (Big.SetBytes [x]) with (0 * 256 + x). nia.
Qed.

Lemma SetBytes_zeros n l : Big.SetBytes (zeros n ++ l) = Big.SetBytes l.
Proof.
  rewrite Big.SetBytes_app. enough (Big.SetBytes (zeros n) = 0) as -> by lia.
  unfold zeros. induction (Z.to_nat n) as [|k IH]; [done|].
  replace (replicate (S k) 0) with ([0] ++ replicate k 0) by done.
  rewrite Big.SetBytes_app, IH. change (Big.SetBytes [0]) with 0. lia.
Qed.

(** The length bytes of a long header. *)
Lemma readUint_cases k s : sok s -> 1 <= k <= 8 ->
  (k <= remaining s /\ room k s /\
   (readUint k s = (eat k s, inr (Big.SetBytes (take (Z.to_nat k) (sdata s)))) /\
    (1 < k -> exists x l, take (Z.to_nat k) (sdata s) = x :: l /\ x <> 0) \/
    (1 < k /\ (exists l, take (Z.to_nat k) (sdata s) = 0 :: l) /\
     readUint k s = (eat k s, inl ErrCanonSize)))) \/
  (~ (k <= remaining s /\ room k s) /\ exists s' e, readUint k s = (s', inl e) /\ not_eol e).
Proof.
  intros Hs Hk. unfold readUint. rewrite (proj2 (Z.eqb_neq k 0)) by lia.
  destruct (Z.eqb_spec k 1) as [->|Hk1].
  - destruct (readByte_cases s Hs) as [(b & rest & Hd & Hb & H1 & H2 & ->)|(H & s' & e & -> & He)].
    + left. split; [done|]. split; [done|]. left. rewrite Hd. simpl.
      change (Pos.to_nat 1) with 1%nat. simpl. split; [|lia]. done.
    + right. split; [done|]. by exists s', e.
  - destruct (readFull_cases k s Hs ltac:(lia)) as [(H1 & H2 & ->)|(H & s' & b & e & -> & He)].
    + left. split; [done|]. split; [done|].
      assert (len (take (Z.to_nat k) (sdata s)) = k) as Hl.
      { rewrite len_take. rewrite (sok_remaining s Hs) in H1. lia. }
      destruct (take (Z.to_nat k) (sdata s)) as [|x l] eqn:E; [rewrite len_nil in Hl; lia|].
      rewrite SetBytes_zeros.
      destruct (Z.eq_dec x 0) as [->|Hx]; [right|left; split; [by destruct x|by eauto]].
      split; [lia|]. by eauto.
    + right. split; [done|]. by exists s', e.
Qed.

(** ** Headers *)

Definition header_of (k : Kind) (n bv : Z) : bytes :=
  match k with Byte => [bv] | String => header 128 183 n | List => header 192 247 n end.

Definition header_ok (k : Kind) (n bv : Z) : Prop :=
  match k with Byte => n = 0 /\ 0 <= bv < 128 | _ => 0 <= n < two64 end.

Lemma len_header_of k n bv : header_ok k n bv -> 1 <= len (header_of k n bv) <= 9.
Proof.
  destruct k; simpl; intros H; [rewrite len_single; lia|apply len_header; lia..].
Qed.

(** [s'] is [s] behind the header. *)
Definition read_header (s s' : Stream) (k : Kind) (n : Z) : Prop :=
  let h := header_of k n (byteval s') in
  header_ok k n (byteval s') /\ sdata s = h ++ sdata s' /\ moved (len h) s s' /\
  len h <= remaining s /\ room (len h) s.

(** The long form: one byte that says how long the length is, then the length. *)
Definition long_tag (k : Kind) : Z := match k with String => 183 | _ => 247 end.

Lemma header_long k n bv : k <> Byte -> 56 <= n ->
  header_of k n bv = (long_tag k + len (Big.Bytes n)) :: Big.Bytes n.
Proof.
  intros Hk Hn. destruct k; [done|..]; simpl; unfold header;
    by rewrite (proj2 (Z.ltb_ge _ _)) by lia.
Qed.

Lemma header_short k n bv : k <> Byte -> n < 56 ->
  header_of k n bv = [(match k with String => 128 | _ => 192 end) + n].
Proof.
  intros Hk Hn. destruct k; [done|..]; simpl; unfold header;
    by rewrite (proj2 (Z.ltb_lt _ _)) by lia.
Qed.

Definition read_long (k : Kind) (n : Z) (s : Stream) : Stream * (Kind * Z * option error) :=
  match readUint n s with
  | (s, inl err) => (s, (k, 0, Some err))
  | (s, inr size) => (s, (k, size, if size <? 56 then Some ErrCanonSize else None))
  end.

(** Reading the length bytes [m] behind the tag of a long header. *)
Lemma read_long_sound k m s s1 tag :
  sok s -> 1 <= m <= 8 -> k <> Byte -> tag = long_tag k + m -> sdata s = tag :: sdata s1 ->
  moved 1 s s1 -> sok s1 -> byteval s1 = 0 -> 1 <= remaining s -> room 1 s ->
  (exists n s', read_long k m s1 = (s', (k, n, None)) /\ read_header s s' k n) \/
  (exists s' n e, read_long k m s1 = (s', (k, n, Some e)) /\ not_eol e).
Proof.
  intros Hs Hm Hk -> Hd M Hs1 Hbv Hrem Hroom. unfold read_long.
  destruct (readUint_cases m s1 Hs1 Hm) as [(H1 & H2 & [(-> & Hx)|(_ & _ & ->)])|(_ & s' & e & -> & He)].
  2, 3: right; do 3 eexists; (split; [reflexivity|done]).
  set (l := take (Z.to_nat m) (sdata s1)) in *.
  assert (bytes_ok l) as Hl by apply bytes_ok_take, (sok_data s1 Hs1).
  assert (len l = m) as Hlen.
  { unfold l. rewrite len_take. rewrite (sok_remaining s1 Hs1) in H1. lia. }
  destruct (Z.ltb_spec (Big.SetBytes l) 56) as [Hn|Hn]; [right; do 3 eexists; split; [reflexivity|done]|].
  assert (Big.Bytes (Big.SetBytes l) = l) as HB.
  { destruct l as [|x l'] eqn:El; [rewrite len_nil in Hlen; lia|].
    apply (Bytes_SetBytes _ x l'); [done|done|]. intros ->.
    destruct (Z.eq_dec m 1) as [->|]; [|destruct Hx as (y & l2 & [= <- _] & Hy); lia].
    destruct l'; [|rewrite !len_cons in Hlen; pose proof (len_nonneg l'); lia].
    change (Big.SetBytes [0]) with 0 in Hn. lia. }
  pose proof (Big.SetBytes_bound l Hl) as Hbound.
  assert (256 ^ len l <= 256 ^ 8) by (apply Z.pow_le_mono_r; lia).
  left. exists (Big.SetBytes l), (eat m s1). split; [done|]. unfold read_header.
  change (byteval (eat m s1)) with (byteval s1). rewrite header_long, HB, Hlen by done.
  assert (len ((long_tag k + m) :: l) = 1 + m) as HL by (rewrite len_cons, Hlen; done). rewrite HL.
  destruct M as [M1 M2 M3 M4 M5].
  split; [destruct k; [done|..]; simpl; change two64 with (256 ^ 8); lia|].
  split. { rewrite Hd. simpl. f_equal. symmetry. apply take_drop. }
  split. { apply (moved_trans 1 m s s1); [lia..| |apply eat_moved]. by split. }
  split; [lia|]. unfold room in *. rewrite M5 in H2. destruct (stack s); simpl in *; lia.
Qed.

Lemma read_short k n s s1 b :
  k <> Byte -> 0 <= n < 56 -> b = (match k with String => 128 | _ => 192 end) + n ->
  sdata s = b :: sdata s1 -> moved 1 s s1 -> 1 <= remaining s -> room 1 s -> read_header s s1 k n.
Proof.
  intros Hk Hn -> Hd M Hrem Hroom. unfold read_header. rewrite header_short by (done || lia).
  rewrite len_single. split; [|done].
  destruct k; [done|..]; simpl; unfold two64; lia.
Qed.

(** [readKind] once its first byte has arrived. *)
Definition dispatch (b : Z) (s : Stream) : Stream * (Kind * Z * option error) :=
  if b <? 128 then (set_byteval b s, (Byte, 0, None))
  else if b <? 184 then (s, (String, b - 128, None))
  else if b <? 192 then read_long String (b - 183) s
  else if b <? 248 then (s, (List, b - 192, None))
  else read_long List (b - 247) s.

Definition after_byte (s : Stream) : Stream := set_byteval 0 (eat 1 s).

Lemma readKind_cases s : sok s ->
  (exists b, byte_ok b /\ 1 <= remaining s /\ room 1 s /\ readKind s = dispatch b (after_byte s) /\
    sdata s = b :: sdata (after_byte s) /\ moved 1 s (after_byte s) /\ sok (after_byte s)) \/
  (~ (1 <= remaining s /\ room 1 s) /\
   exists s' k n e, readKind s = (s', (k, n, Some e)) /\ not_eol e).
Proof.
  intros Hs. unfold readKind.
  destruct (readByte_cases s Hs) as [(b & rest & Hd & Hb & H1 & H2 & ->)|(H & s' & e & -> & He)].
  - left. exists b. assert (moved 1 s (after_byte s)) as M by by split.
    do 4 (split; [done|]). split; [|split; [done|by apply (moved_sok 1 s); try lia]].
    simpl. change (Pos.to_nat 1) with 1%nat. by rewrite Hd.
  - right. split; [done|]. do 4 eexists. split; [done|]. destruct (stack s'), e; done.
Qed.

Lemma readKind_sound s : sok s ->
  (exists k n s', readKind s = (s', (k, n, None)) /\ read_header s s' k n) \/
  (exists s' k n e, readKind s = (s', (k, n, Some e)) /\ not_eol e).
Proof.
  intros Hs. destruct (readKind_cases s Hs)
    as [(b & Hb & H1 & H2 & -> & Hd & M & Hs1)|(_ & s' & k & n & e & -> & He)]; [|right; by eauto 6].
  unfold byte_ok in Hb. unfold dispatch.
  destruct (Z.ltb_spec b 128).
  { left. exists Byte, 0. eexists. split; [done|]. unfold read_header. simpl in *.
    rewrite len_single. split; [lia|]. split; [done|]. split; [by split; destruct M|]. by split. }
  destruct (Z.ltb_spec b 184).
  { left. exists String, (b - 128). eexists. split; [done|].
    apply (read_short String _ s _ b); try done; lia. }
  destruct (Z.ltb_spec b 192).
  { destruct (read_long_sound String (b - 183) s (after_byte s) b)
      as [(n & s' & -> & R)|(s' & n & e & -> & He)]; try done; simpl; try lia; [left|right]; eauto 6. }
  destruct (Z.ltb_spec b 248).
  { left. exists List, (b - 192). eexists. split; [done|].
    apply (read_short List _ s _ b); try done; lia. }
  destruct (read_long_sound List (b - 247) s (after_byte s) b)
    as [(n & s' & -> & R)|(s' & n & e & -> & He)]; try done; simpl; try lia; [left|right]; eauto 6.
Qed.

(** Every canonical header is accepted. *)

Lemma Bytes_no_zero n l : 0 < n < two64 -> Big.Bytes n <> 0 :: l.
Proof.
  intros Hn E. destruct (width_cases n Hn) as (k & Hk & Hr).
  pose proof (Big.Bytes_ok n) as Hb. rewrite E in Hb. apply bytes_ok_cons in Hb as [_ Hb].
  assert (len (Big.Bytes n) = Z.of_nat k) as Hlen by (rewrite (Bytes_width k) by (done || lia); apply Big.len_be).
  pose proof (Big.SetBytes_Bytes n) as HS. rewrite E in HS, Hlen. rewrite len_cons in Hlen.
  replace (0 :: l) with ([0] ++ l) in HS by done. rewrite Big.SetBytes_app in HS.
  change (Big.SetBytes [0]) with 0 in HS. pose proof (Big.SetBytes_bound l Hb) as Hl.
  replace (len l) with (Z.of_nat k - 1) in Hl by lia. lia.
Qed.

Lemma room_le a b s : a <= b -> room b s -> room a s.
Proof. unfold room. destruct (stack s); [done|lia]. Qed.

Lemma room_moved a b s s' : moved a s s' -> room (a + b) s -> room b s'.
Proof. intros [_ _ _ _ M]. unfold room. rewrite M. destruct (stack s); simpl; [done|lia]. Qed.

Lemma read_long_complete k n s1 rest :
  sok s1 -> 56 <= n < two64 -> sdata s1 = Big.Bytes n ++ rest -> room (len (Big.Bytes n)) s1 ->
  read_long k (len (Big.Bytes n)) s1 = (eat (len (Big.Bytes n)) s1, (k, n, None)).
Proof.
  intros Hs Hn Hd Hroom. pose proof (len_Bytes_u64 n ltac:(lia)) as Hl. unfold read_long.
  assert (take (Z.to_nat (len (Big.Bytes n))) (sdata s1) = Big.Bytes n) as Ht.
  { rewrite Hd. unfold len. rewrite Nat2Z.id. apply take_app_length. }
  assert (len (Big.Bytes n) <= remaining s1) as Hrem.
  { rewrite (sok_remaining s1 Hs), Hd, len_app. pose proof (len_nonneg rest). lia. }
  destruct (readUint_cases (len (Big.Bytes n)) s1 Hs Hl)
    as [(_ & _ & [(-> & _)|(_ & (l & E) & _)])|(H & _)].
  - rewrite Ht, Big.SetBytes_Bytes, Z.abs_eq by lia. by rewrite (proj2 (Z.ltb_ge _ _)) by lia.
  - rewrite Ht in E. by apply Bytes_no_zero in E; [|lia].
  - by destruct H.
Qed.

Lemma dispatch_complete k n bv s b rest :
  header_ok k n bv -> header_of k n bv ++ rest = b :: sdata s -> sok s ->
  room (len (header_of k n bv) - 1) s ->
  exists s', dispatch b s = (s', (k, n, None)) /\ sdata s' = rest /\ (k = Byte -> byteval s' = bv).
Proof.
  intros Hh Hd Hs Hroom. unfold dispatch.
  destruct (decide (k = Byte)) as [->|Hk].
  { simpl in *. injection Hd as <- ->. destruct Hh as [-> Hh].
    rewrite (proj2 (Z.ltb_lt _ _)) by lia. by eexists. }
  assert (0 <= n < two64) as Hn by (by destruct k).
  destruct (Z.lt_ge_cases n 56) as [H56|H56].
  - rewrite header_short in Hd by done. simpl in Hd. injection Hd as <- ->.
    destruct k; [done|..]; repeat (decide_ltb; cbv iota); eexists;
      (split; [do 2 f_equal; f_equal; lia|done]).
  - rewrite header_long in Hd, Hroom by done. simpl in Hd. injection Hd as <- Hd.
    pose proof (len_Bytes_u64 n ltac:(lia)). rewrite len_cons in Hroom.
    replace (1 + len (Big.Bytes n) - 1) with (len (Big.Bytes n)) in Hroom by lia.
    assert (exists s', read_long k (len (Big.Bytes n)) s = (s', (k, n, None)) /\ sdata s' = rest)
      as (s' & E & Hr).
    { eexists. split; [apply (read_long_complete k n s rest); by (done || lia)|].
      unfold eat, set_data. simpl. rewrite <-Hd. unfold len. rewrite Nat2Z.id. apply drop_app_length. }
    exists s'. split; [|done].
    destruct k; [done|..]; simpl; repeat (decide_ltb; cbv iota); rewrite <-E; f_equal; lia.
Qed.

Lemma readKind_complete k n bv s rest :
  sok s -> header_ok k n bv -> sdata s = header_of k n bv ++ rest -> room (len (header_of k n bv)) s ->
  exists s', readKind s = (s', (k, n, None)) /\ read_header s s' k n /\ sdata s' = rest /\
    (k = Byte -> byteval s' = bv).
Proof.
  intros Hs Hh Hd Hroom. pose proof (len_header_of k n bv Hh) as Hl.
  assert (1 <= remaining s) as Hrem.
  { rewrite (sok_remaining s Hs), Hd, len_app. pose proof (len_nonneg rest). lia. }
  destruct (readKind_cases s Hs) as [(b & _ & _ & _ & E & Hb & M & Hs1)|(H & _)].
  2: { destruct H. split; [done|]. apply (room_le 1 (len (header_of k n bv))); [lia|done]. }
  rewrite Hd in Hb.
  destruct (dispatch_complete k n bv (after_byte s) b rest Hh Hb Hs1) as (s' & E2 & Hr & Hbv).
  { apply (room_moved 1 _ s); [done|]. by replace (1 + (len (header_of k n bv) - 1)) with (len (header_of k n bv)) by lia. }
  rewrite E2 in E. exists s'. split; [done|]. split; [|done].
  destruct (readKind_sound s Hs) as [(k' & n' & s2 & E' & R)|(s2 & k' & n' & e & E' & _)];
    rewrite E in E'; [|done]. by injection E' as <- <- <-.
Qed.

End RlpStream.
