(* ===== verification/RlpCanon.v ===== *)
(** * RLP: decoding into an interface value

    The values an [interface{}] can hold after decoding are byte strings and
    lists of such values ([item]).  On a byte slice, [DecodeBytes] into an
    [interface{}] always returns, and it succeeds exactly on the encoding of
    an item, which it yields: the decoder accepts only canonical input, and
    decoding is the inverse of encoding. *)

From Stdlib Require Import String Lia.
From stdpp Require Import base list numbers option strings gmap.
From S2P Require Import Prelude BigInt RlpTypes RlpEncode RlpDecode RlpSpec RlpStream.

#[local] Open Scope Z_scope.
#[local] Open Scope go_scope.

Module RlpCanon.
Import RlpTypes RlpSpec RlpDecode RlpStream.

(** ** The next value *)

Definition at_end (s : Stream) : Prop :=
  match stack s with [] => False | t :: _ => pos t = lsize t end.

(** A value of kind [k] and size [n] is ahead of [s1]; its header was read from [s]. *)
Record ahead (s s1 : Stream) (k : Kind) (n : Z) : Prop := {
  a_header : read_header s s1 k n;
  a_kind : kind s1 = Some k;
  a_size : size s1 = n;
  a_err : kinderr s1 = None;
  a_sok : sok s1;
  a_room : room n s1;
  a_alloc : n <= maxAlloc;
}.

Lemma sok_fields s s' : r s' = r s -> limited s' = limited s -> remaining s' = remaining s ->
  stack s' = stack s -> sok s -> sok s'.
Proof. intros E1 E2 E3 E4 [A B C D F H]. split; rewrite ?E1, ?E2, ?E3, ?E4; done. Qed.

Lemma moved_fields n s s1 s' : r s' = r s1 -> limited s' = limited s1 -> remaining s' = remaining s1 ->
  stack s' = stack s1 -> moved n s s1 -> moved n s s'.
Proof. intros E1 E2 E3 E4 [A B C D F]. split; rewrite ?E1, ?E2, ?E3, ?E4; done. Qed.

Lemma read_header_sok s s1 k n : sok s -> read_header s s1 k n -> sok s1.
Proof.
  intros Hs (Hh & _ & M & H1 & H2). pose proof (len_header_of _ _ _ Hh).
  refine (moved_sok _ s s1 Hs _ H2 M). lia.
Qed.

Lemma header_ok_nonneg k n bv : header_ok k n bv -> 0 <= n < two64.
Proof. destruct k; simpl; unfold two64; lia. Qed.

(** The state and the answer once the header is known. *)
Lemma Kind_answer s s1 k n : sok s -> kind s = None -> ~ at_end s ->
  readKind (set_kinderr None s) = (s1, (k, n, None)) -> read_header s s1 k n ->
  (exists s2, StreamKind s = (s2, inr (k, n)) /\ ahead s s2 k n /\ r s2 = r s1 /\ byteval s2 = byteval s1) \/
  (~ (room n s1 /\ (stack s1 = [] -> n <= remaining s1)) /\
   exists s2 e, StreamKind s = (s2, inl e) /\ not_eol e).
Proof.
  intros Hs Hk Hend E R. unfold StreamKind. rewrite Hk.
  pose proof (read_header_sok _ _ _ _ Hs R) as Hs1.
  assert (0 <= n < two64) as Hn by (destruct R as [Hh _]; by eapply header_ok_nonneg).
  set (body := let '(s0, (k0, n0, err)) := readKind (set_kinderr None s) in _).
  assert (match stack (set_kinderr None s) with
          | [] => body
          | tos :: _ => if pos tos =? lsize tos then (set_kinderr None s, inl EOL) else body
          end = body) as ->.
  { unfold at_end in Hend. simpl. destruct (stack s); [done|].
    by rewrite (proj2 (Z.eqb_neq _ _)). }
  unfold body. rewrite E. simpl. clear body.
  assert (forall s2, s2 = set_kinderr None (set_size n (set_kind (Some k) s1)) ->
    room n s1 -> n <= maxAlloc -> ahead s s2 k n) as Ha.
  { intros s2 -> Hroom Ha. split; try done; [|by apply (sok_fields s1)].
    destruct R as (H1&H2&H3&H4&H5). split; [done|]. split; [done|]. split; [|done].
    by apply (moved_fields _ _ s1). }
  destruct (stack s1) as [|t st] eqn:Est.
  - rewrite (sok_limited s1 Hs1), Z.gtb_ltb. simpl. destruct (Z.ltb_spec (remaining s1) n).
    + right. split; [intros [_ H']; specialize (H' eq_refl); lia|]. do 2 eexists. by split.
    + left. eexists. split; [done|]. split; [|done]. apply Ha; [done|unfold room; by rewrite Est|].
      pose proof (sok_remaining s1 Hs1). pose proof (sok_len s1 Hs1). lia.
  - pose proof (sok_stack s1 Hs1) as Hst. rewrite Est in Hst. apply Forall_cons in Hst as [[Hp Hl] _].
    pose proof two64_maxAlloc. rewrite u64_id, Z.gtb_ltb by (unfold is_u64; lia).
    destruct (Z.ltb_spec (lsize t - pos t) n).
    + right. split; [unfold room; rewrite Est; lia|]. do 2 eexists. by split.
    + left. eexists. split; [done|]. split; [|done]. apply Ha; [done|unfold room; rewrite Est; lia|lia].
Qed.

Lemma read_header_kinderr s s1 k n : read_header (set_kinderr None s) s1 k n -> read_header s s1 k n.
Proof.
  intros (H1&H2&[M1 M2 M3 M4 M5]&H4&H5). split; [done|]. split; [done|].
  split; [split; assumption|]. split; assumption.
Qed.

Lemma StreamKind_cases s : sok s -> kind s = None ->
  (at_end s /\ StreamKind s = (set_kinderr None s, inl EOL)) \/
  (~ at_end s /\ exists s1 k n, StreamKind s = (s1, inr (k, n)) /\ ahead s s1 k n) \/
  (~ at_end s /\ exists s1 e, StreamKind s = (s1, inl e) /\ not_eol e).
Proof.
  intros Hs Hk. assert (at_end s \/ ~ at_end s) as [He|He].
  { unfold at_end. destruct (stack s) as [|t st]; [right; intros []|].
    destruct (Z.eq_dec (pos t) (lsize t)); auto. }
  - left. split; [done|]. unfold StreamKind. rewrite Hk. unfold at_end in He. simpl.
    destruct (stack s); [done|]. by rewrite (proj2 (Z.eqb_eq _ _)).
  - right. assert (sok (set_kinderr None s)) as Hs' by by apply (sok_fields s).
    destruct (readKind_sound _ Hs') as [(k & n & s1 & E & R)|(s1 & k & n & e & E & Hne)].
    + apply read_header_kinderr in R.
      destruct (Kind_answer s s1 k n Hs Hk He E R) as [(s2 & E2 & A & _)|(_ & s2 & e & E2 & Hne)];
        [left|right]; (split; [done|]); eauto.
    + right. split; [done|]. exists (set_kinderr (Some e) (set_size n (set_kind (Some k) s1))), e.
      split; [|done]. unfold StreamKind. rewrite Hk. unfold at_end in He. simpl in *.
      destruct (stack s); [by rewrite E|]. rewrite (proj2 (Z.eqb_neq _ _)) by done. by rewrite E.
Qed.

Lemma StreamKind_complete k n bv s rest :
  sok s -> kind s = None -> header_ok k n bv -> n <= len rest -> sdata s = header_of k n bv ++ rest ->
  room (len (header_of k n bv) + n) s ->
  exists s1, StreamKind s = (s1, inr (k, n)) /\ ahead s s1 k n /\ sdata s1 = rest /\
    (k = Byte -> byteval s1 = bv).
Proof.
  intros Hs Hk Hh Hn Hd Hroom. pose proof (len_header_of _ _ _ Hh). pose proof (header_ok_nonneg _ _ _ Hh).
  destruct (readKind_complete k n bv (set_kinderr None s) rest) as (s1 & E & R & Hr & Hb);
    [by apply (sok_fields s)|done|done|by apply (room_le _ (len (header_of k n bv) + n)); [lia|]|].
  apply read_header_kinderr in R. pose proof R as (_ & Hd1 & M & _).
  assert (header_of k n (byteval s1) = header_of k n bv) as Hheq
    by (destruct k; [simpl; by rewrite Hb|done..]). rewrite Hheq in M.
  destruct (Kind_answer s s1 k n Hs Hk) as [(s2 & E2 & A & Er & Eb)|(Hno & _)]; [|done|done| |].
  - intros He. unfold at_end in He. unfold room in Hroom. destruct (stack s); [done|lia].
  - exists s2. rewrite Er, Eb. do 2 (split; [done|]). by split.
  - destruct Hno. split; [by apply (room_moved _ _ _ _ M)|]. intros _.
    pose proof (read_header_sok _ _ _ _ Hs R) as Hs1. rewrite (sok_remaining s1 Hs1), Hr. lia.
Qed.

Lemma StreamKind_cached s k : kind s = Some k -> kinderr s = None -> StreamKind s = (s, inr (k, size s)).
Proof. intros Hk He. unfold StreamKind. by rewrite Hk, He. Qed.

(** ** Whole values *)

(** The encoding [bs] was read and the stream is ready for the next value. *)
Record consumed (bs : bytes) (s s' : Stream) : Prop := {
  c_data : sdata s = bs ++ sdata s';
  c_moved : moved (len bs) s s';
  c_sok : sok s';
  c_kind : kind s' = None;
  c_remaining : len bs <= remaining s;
  c_room : room (len bs) s;
}.

Lemma room_back a b s s' : moved a s s' -> room b s' -> room (a + b) s.
Proof. intros [_ _ _ _ M]. unfold room. rewrite M. destruct (stack s); simpl; [done|lia]. Qed.

Lemma consumed_app a b s s1 s2 : consumed a s s1 -> consumed b s1 s2 -> consumed (a ++ b) s s2.
Proof.
  intros [A1 A2 A3 A4 A5 A6] [B1 B2 B3 B4 B5 B6]. split; try done.
  - by rewrite A1, B1, app_assoc.
  - rewrite len_app. apply (moved_trans _ _ s s1); auto using len_nonneg.
  - rewrite len_app. destruct A2 as [_ _ _ E _]. lia.
  - rewrite len_app. by apply (room_back _ _ _ s1).
Qed.

Lemma consumed_nil s s' : sok s -> moved 0 s s' -> kind s' = None -> consumed [] s s'.
Proof.
  intros Hs M Hk. pose proof (sok_remaining s Hs). pose proof (len_nonneg (sdata s)).
  assert (room 0 s) as Hroom.
  { unfold room. pose proof (sok_stack s Hs) as Hst. destruct (stack s); [done|].
    apply Forall_cons in Hst as [[??] _]. lia. }
  split; try done.
  - destruct M as [M _ _ _ _]. rewrite M. done.
  - refine (moved_sok _ s s' Hs _ Hroom M). lia.
  - rewrite len_nil. lia.
Qed.

(** The content that follows a header. *)
Lemma content_consumed s s1 s' k n c :
  sok s -> ahead s s1 k n -> k <> Byte -> c = take (Z.to_nat n) (sdata s1) ->
  n <= remaining s1 -> moved n s1 s' -> kind s' = None -> consumed (header_of k n 0 ++ c) s s' /\ len c = n.
Proof.
  intros Hs [(Hh & Hd & M & H1 & H2) _ _ _ Hs1 Hroom _] Hk -> Hn M' Hk'.
  assert (0 <= n) as Hn0 by (destruct k; simpl in Hh; [done|lia..]).
  assert (header_of k n (byteval s1) = header_of k n 0) as E by (by destruct k). rewrite E in *.
  assert (len (take (Z.to_nat n) (sdata s1)) = n) as Hlen.
  { rewrite len_take. pose proof (sok_remaining s1 Hs1). lia. }
  split; [|done]. split; rewrite ?len_app, ?Hlen.
  - rewrite Hd, <-app_assoc. f_equal. destruct M' as [-> _ _ _ _]. by rewrite take_drop.
  - apply (moved_trans _ _ s s1); auto using len_nonneg.
  - refine (moved_sok _ s1 s' Hs1 _ Hroom M'). lia.
  - done.
  - destruct M as [_ _ _ E' _]. lia.
  - by apply (room_back _ _ _ s1).
Qed.

Lemma Bytes_sound s s1 k n : sok s -> ahead s s1 k n -> k <> List ->
  (exists s' b, Bytes s1 = Ok (s', inr b) /\ consumed (rlp_string b) s s' /\ bytes_ok b) \/
  (exists s' e, Bytes s1 = Ok (s', inl e) /\ not_eol e).
Proof.
  intros Hs A Hk. unfold Bytes. rewrite (StreamKind_cached s1 k (a_kind _ _ _ _ A) (a_err _ _ _ _ A)).
  rewrite (a_size _ _ _ _ A). destruct k; [| |done].
  - left. exists (rearm s1), [byteval s1]. split; [done|].
    destruct A as [(Hh & Hd & M & H1 & H2) _ _ _ Hs1 Hroom _]. simpl in *.
    rewrite (proj2 (Z.leb_le _ _)) by lia. split; [|constructor; [unfold byte_ok; lia|constructor]].
    split; try done; [by apply (moved_fields _ _ s1)|by apply (sok_fields s1)].
  - pose proof (a_sok _ _ _ _ A) as Hs1. pose proof (a_alloc _ _ _ _ A) as Hal.
    rewrite (proj2 (Z.ltb_ge _ _)) by lia.
    assert (0 <= n) as Hn by (destruct A as [(Hh & _) _ _ _ _ _ _]; simpl in Hh; lia).
    destruct (readFull_cases n s1 Hs1 Hn) as [(H1 & H2 & ->)|(_ & s' & b & e & -> & He)];
      [|right; by eauto].
    destruct (content_consumed s s1 (eat n s1) String n _ Hs A ltac:(done) eq_refl H1 (eat_moved _ _) eq_refl)
      as [C Hlen].
    set (c := take (Z.to_nat n) (sdata s1)) in *.
    assert (bytes_ok c) as Hc by apply bytes_ok_take, (sok_data s1 Hs1).
    assert (rlp_string c = header_of String n 0 ++ c \/ exists x, c = [x] /\ (x <? 128) = true) as [E|(x & E & Hx)].
    { rewrite <-Hlen. unfold rlp_string. destruct c as [|x [|y c']]; [by left| |by left].
      destruct (Z.ltb_spec x 128); [right; exists x; split; [done|by apply Z.ltb_lt]|].
      left. by rewrite (proj2 (Z.leb_gt _ _)) by lia. }
    + destruct c as [|x [|y c']] eqn:Ec; [left; do 2 eexists; by rewrite E| |left; do 2 eexists; by rewrite E].
      destruct (x <? 128); [right; by do 2 eexists|]. left. do 2 eexists. by rewrite E.
    + rewrite E, Hx. right. by do 2 eexists.
Qed.

Lemma rlp_string_cases b : bytes_ok b ->
  (exists x, b = [x] /\ 0 <= x <= 127 /\ rlp_string b = [x]) \/
  (rlp_string b = header_of String (len b) 0 ++ b /\ ~ exists x, b = [x] /\ x <= 127).
Proof.
  intros Hb. unfold rlp_string. destruct b as [|x [|y b]].
  - right. split; [done|]. by intros (?&?&?).
  - apply bytes_ok_cons in Hb as [Hx _]. unfold byte_ok in Hx. destruct (Z.leb_spec x 127).
    + left. exists x. split; [done|]. split; [lia|done].
    + right. split; [done|]. intros (? & [= <-] & ?). lia.
  - right. split; [done|]. by intros (?&?&?).
Qed.

Lemma Bytes_complete b s rest :
  sok s -> kind s = None -> bytes_ok b -> sdata s = rlp_string b ++ rest -> room (len (rlp_string b)) s ->
  exists s1 s' k n, StreamKind s = (s1, inr (k, n)) /\ k <> List /\ ahead s s1 k n /\
    Bytes s1 = Ok (s', inr b) /\ consumed (rlp_string b) s s'.
Proof.
  intros Hs Hk Hb Hd Hroom.
  assert (len (sdata s) <= maxAlloc) as Hal by apply Hs.
  destruct (rlp_string_cases b Hb) as [(x & -> & Hx & E)|[E Hno]].
  - rewrite E in Hd, Hroom. destruct (StreamKind_complete Byte 0 x s rest) as (s1 & E1 & A & Hr & Hbv);
      [done|done|simpl; lia|apply len_nonneg|done|by rewrite Z.add_0_r|].
    destruct (Bytes_sound s s1 Byte 0 Hs A ltac:(done)) as [(s' & b' & Eb & C & _)|(s' & e & Eb & _)];
      unfold Bytes in Eb; rewrite (StreamKind_cached s1 Byte (a_kind _ _ _ _ A) (a_err _ _ _ _ A)) in Eb; [|done].
    injection Eb as <- <-. rewrite Hbv in C by done.
    exists s1, (rearm s1), Byte, 0. do 3 (split; [done|]). split; [|done].
    unfold Bytes. rewrite (StreamKind_cached s1 Byte (a_kind _ _ _ _ A) (a_err _ _ _ _ A)). by rewrite Hbv.
  - rewrite E in Hd, Hroom. rewrite <-app_assoc in Hd. pose proof (len_nonneg b). pose proof two64_maxAlloc.
    assert (len b <= len (sdata s)) as Hbl.
    { rewrite Hd, !len_app. pose proof (len_nonneg (header_of String (len b) 0)). pose proof (len_nonneg rest). lia. }
    destruct (StreamKind_complete String (len b) 0 s (b ++ rest)) as (s1 & E1 & A & Hr & _);
      [done|done|simpl; lia|rewrite len_app; pose proof (len_nonneg rest); lia|done|by rewrite len_app in Hroom|].
    exists s1. pose proof (a_sok _ _ _ _ A) as Hs1.
    assert (len b <= remaining s1) as Hrem
      by (rewrite (sok_remaining s1 Hs1), Hr, len_app; pose proof (len_nonneg rest); lia).
    assert (take (Z.to_nat (len b)) (sdata s1) = b) as Ht.
    { rewrite Hr. unfold len. rewrite Nat2Z.id. apply take_app_length. }
    exists (eat (len b) s1), String, (len b). do 3 (split; [done|]).
    destruct (content_consumed s s1 (eat (len b) s1) String (len b) _ Hs A ltac:(done) eq_refl Hrem (eat_moved _ _) eq_refl)
      as [C _]. rewrite Ht, <-E in C. split; [|done].
    unfold Bytes. rewrite (StreamKind_cached s1 String (a_kind _ _ _ _ A) (a_err _ _ _ _ A)), (a_size _ _ _ _ A).
    rewrite (proj2 (Z.ltb_ge _ _)) by lia.
    destruct (readFull_cases (len b) s1 Hs1 ltac:(lia)) as [(_ & _ & ->)|(Hn & _)];
      [|destruct Hn; split; [done|apply (a_room _ _ _ _ A)]].
    rewrite Ht. destruct b as [|x [|y b]]; [done| |done].
    destruct (Z.ltb_spec x 128); [|done]. destruct Hno. exists x. split; [done|lia].
Qed.

(** ** Lists *)

Definition opened (n : Z) (s : Stream) : Stream :=
  set_size 0 (rearm (set_stack ({| pos := 0; lsize := n |} :: stack s) s)).

Lemma StreamList_ahead s s1 n : ahead s s1 List n ->
  StreamList s1 = (opened n s1, inr n) /\ sok (opened n s1).
Proof.
  intros A. unfold StreamList.
  rewrite (StreamKind_cached s1 List (a_kind _ _ _ _ A) (a_err _ _ _ _ A)), (a_size _ _ _ _ A).
  split; [done|]. destruct A as [(Hh & _) _ _ _ [S1 S2 S3 S4 S5 S6] _ Hal]. simpl in Hh.
  split; try done. constructor; [|done]. unfold pos_ok. simpl. lia.
Qed.

(** Acknowledging the end of a list whose content was read. *)
Lemma list_consumed s s1 s3 n payload : sok s -> ahead s s1 List n ->
  consumed payload (opened n s1) s3 -> at_end s3 ->
  exists s4, ListEnd s3 = (s4, None) /\ consumed (rlp_list payload) s s4.
Proof.
  intros Hs A [C1 C2 C3 C4 C5 C6] He. pose proof (a_sok _ _ _ _ A) as Hs1.
  destruct C2 as [M1 M2 M3 M4 M5]. simpl in M1, M2, M3, M4, M5, C1, C5.
  unfold at_end in He. rewrite M5 in He. simpl in He. pose proof (len_nonneg payload).
  unfold ListEnd. rewrite M5. simpl. rewrite (proj2 (Z.eqb_eq _ _)) by done. simpl.
  assert (match stack s1 with
          | [] => []
          | p :: rest => {| pos := u64 (pos p + n); lsize := lsize p |} :: rest
          end = bump n (stack s1)) as Est.
  { pose proof (a_room _ _ _ _ A) as Hroom. unfold room in Hroom. pose proof (sok_stack s1 Hs1) as Hst.
    destruct (stack s1); [done|]. apply Forall_cons in Hst as [[??] _]. pose proof two64_maxAlloc. simpl.
    by rewrite u64_id by (unfold is_u64; lia). }
  rewrite Est. eexists. split; [done|].
  assert (n = len payload) as -> by lia.
  destruct (content_consumed s s1 (set_size 0 (rearm (set_stack (bump (len payload) (stack s1)) s3)))
    List (len payload) payload Hs A) as [C _]; try done.
  rewrite C1. unfold len. rewrite Nat2Z.id. symmetry. apply take_app_length.
Qed.

(** ** Decoders that read one value *)

(** On at most [L] bytes the decoder returns, having read an encoding [bs] of
    its result ([P]) or failed; at the end of a list it says so. *)
Definition decodes (L : Z) (dec : Stream -> val -> D) (Q : val -> Prop) (P : val -> bytes -> Prop) : Prop :=
  forall s old, sok s -> kind s = None -> len (sdata s) <= L -> Q old ->
  exists s' v err, dec s old = Ok (s', v, err) /\
    match err with
    | None => ~ at_end s /\ exists bs, consumed bs s s' /\ bs <> [] /\ P v bs
    | Some EOL => at_end s /\ moved 0 s s' /\ kind s' = None
    | Some _ => ~ at_end s
    end.

(** The decoder reads the encoding [bs], into a value with property [R]. *)
Definition accepts (L : Z) (dec : Stream -> val -> D) (Q R : val -> Prop) (bs : bytes) : Prop :=
  forall s old rest, sok s -> kind s = None -> len (sdata s) <= L -> sdata s = bs ++ rest ->
  room (len bs) s -> Q old ->
  exists s' v, dec s old = Ok (s', v, None) /\ consumed bs s s' /\ R v.

Section Loop.
Context (L : Z) (dec : Stream -> val -> D) (zero : val) (Q : val -> Prop) (P : val -> bytes -> Prop).
Context (Hdec : decodes L dec Q P) (Hzero : Q zero).

(** The cell for index [i] after growing the slice. *)
Lemma cell_ready i l spare : Forall Q l -> Forall Q spare -> (i <= length l)%nat ->
  exists l' spare' old, extend i (fst (grow zero i l spare)) (snd (grow zero i l spare)) = (l', spare') /\
    index l' (Z.of_nat i) = Ok old /\ Q old /\ Forall Q l' /\ Forall Q spare' /\
    take i l' = take i l /\ (i < length l')%nat.
Proof.
  intros Hl Hs Hi.
  assert (exists l1 s1, grow zero i l spare = (l1, s1) /\ l1 = l /\ Forall Q s1 /\
    (i < length l1 + length s1)%nat) as (l1 & s1 & -> & -> & Hs1 & Hcap).
  { unfold grow. destruct (Nat.leb_spec (length l + length spare) i).
    - do 2 eexists. split; [done|]. split; [done|]. split; [by apply Forall_replicate|].
      rewrite length_replicate. assert (4 <= length l + length spare -> 1 <= (length l + length spare) / 2)%nat
        by (intros; apply Nat.div_le_lower_bound; lia). lia.
    - do 2 eexists. by repeat split. }
  simpl.
  assert (exists l2 s2, extend i l s1 = (l2, s2) /\ take i l2 = take i l /\ (i < length l2)%nat /\
    Forall Q l2 /\ Forall Q s2) as (l2 & s2 & E & Ht & Hlen & Hl2 & Hs2).
  { unfold extend. destruct (Nat.leb_spec (length l) i) as [H|H].
    - do 2 eexists. split; [done|]. assert (Forall Q (l ++ s1)) by by apply Forall_app.
      split; [rewrite take_take, Nat.min_l, take_app_le by lia; done|].
      split; [rewrite length_take, length_app; lia|]. split; [by apply Forall_take|by apply Forall_drop].
    - do 2 eexists. by repeat split. }
  destruct (index_Ok l2 (Z.of_nat i)) as (old & Ei & Hi2); [unfold len; lia|].
  rewrite Nat2Z.id in Hi2. exists l2, s2, old. split; [done|]. split; [done|].
  split; [exact (Forall_lookup_1 _ _ _ _ Hl2 Hi2)|]. by repeat split.
Qed.

Definition loop_result (i : nat) (s : Stream) (l : list val)
    (res : result (Stream * (list val * list val) * option error)) : Prop :=
  exists s' l' spare' err, res = Ok (s', (l', spare'), err) /\
    match err with
    | None => exists vs bss, l' = take i l ++ vs /\ Forall2 P vs bss /\ consumed (concat bss) s s' /\ at_end s'
    | Some e => not_eol e
    end.

Lemma elems_sound fuel i s l spare :
  sok s -> kind s = None -> len (sdata s) <= L -> len (sdata s) < Z.of_nat fuel ->
  Forall Q l -> Forall Q spare -> (forall v bs, P v bs -> Q v) -> (i <= length l)%nat ->
  loop_result i s l (decodeSliceElems_loop dec zero fuel i s l spare).
Proof.
  intros Hs Hk HL Hf Hl Hsp HPQ Hi. revert i s l spare Hs Hk HL Hf Hl Hsp Hi.
  induction fuel as [|fuel IH]; intros i s l spare Hs Hk HL Hf Hl Hsp Hi;
    [pose proof (len_nonneg (sdata s)); lia|].
  simpl. destruct (cell_ready i l spare Hl Hsp Hi) as (l2 & s2 & old & E & Ei & Ho & Hl2 & Hs2 & Ht & Hlen).
  destruct (grow zero i l spare) as [l1 s1]. simpl in E. rewrite E, Ei. cbn [rbind].
  destruct (Hdec s old Hs Hk HL Ho) as (s' & v & err & -> & Herr). cbn [rbind].
  destruct err as [e|].
  - assert (e = EOL \/ e <> EOL) as [->|He] by (destruct (decide (e = EOL)); auto).
    + destruct Herr as (Hend & M & Hk'). do 4 eexists. split; [done|]. simpl.
      exists [], []. split; [by rewrite take_insert_ge, Ht, app_nil_r by lia|]. split; [constructor|].
      split; [by apply consumed_nil|]. unfold at_end in *. destruct M as [_ _ _ _ M].
      rewrite M. destruct (stack s); [done|]. simpl. lia.
    + exists s', (<[i:=v]> l2), s2, (Some (addErrorContext e (index_ctx i))). split; by destruct e.
  - destruct Herr as (_ & bs & C & Hne & HP).
    assert (len (sdata s') < len (sdata s)) as Hdec'.
    { rewrite (c_data _ _ _ C), len_app. destruct bs; [done|]. rewrite len_cons.
      pose proof (len_nonneg bs). lia. }
    destruct (IH (S i) s' (<[i:=v]> l2) s2) as (s3 & l3 & sp3 & err & -> & R);
      [apply C|apply C|lia|lia|by apply Forall_insert; eauto|done|rewrite length_insert; lia|].
    do 4 eexists. split; [done|]. destruct err as [e|]; [done|].
    destruct R as (vs & bss & -> & F & C' & Hend). exists (v :: vs), (bs :: bss).
    split. { rewrite (take_S_r _ _ v), take_insert_ge, Ht, <-app_assoc by (lia || by apply list_lookup_insert_eq). done. }
    split; [by constructor|]. split; [by eapply consumed_app|done].
Qed.

Lemma elems_complete {A} (enc : A -> bytes) (R : A -> val -> Prop) xs fuel i s l spare rest :
  Forall (fun x => accepts L dec Q (R x) (enc x)) xs -> (forall x v, R x v -> Q v) ->
  sok s -> kind s = None -> len (sdata s) <= L -> (length xs < fuel)%nat ->
  sdata s = concat (map enc xs) ++ rest ->
  (exists t st, stack s = t :: st /\ lsize t - pos t = len (concat (map enc xs))) ->
  Forall Q l -> Forall Q spare -> (i <= length l)%nat ->
  exists s' vs spare', decodeSliceElems_loop dec zero fuel i s l spare =
      Ok (s', (take i l ++ vs, spare'), None) /\
    Forall2 R xs vs /\ consumed (concat (map enc xs)) s s' /\ at_end s'.
Proof.
  intros Hacc HRQ. revert fuel i s l spare.
  induction xs as [|x xs IH]; intros [|fuel] i s l spare Hs Hk HL Hf Hd (t & st & Est & Hroom) Hl Hsp Hi;
    try (simpl in Hf; lia); simpl;
    destruct (cell_ready i l spare Hl Hsp Hi) as (l2 & s2 & old & E & Ei & Ho & Hl2 & Hs2 & Ht & Hlen);
    destruct (grow zero i l spare) as [l1 s1]; simpl in E; rewrite E, Ei; cbn [rbind].
  - assert (at_end s) as Hend by (unfold at_end; rewrite Est; simpl in Hroom; rewrite len_nil in Hroom; lia).
    destruct (Hdec s old Hs Hk HL Ho) as (s' & v & [e|] & -> & Herr); cbn [rbind];
      [|by destruct Herr].
    destruct (decide (e = EOL)) as [->|He]; [|by destruct e].
    destruct Herr as (_ & M & Hk'). exists s', [], (drop i (<[i:=v]> l2) ++ s2).
    split; [by rewrite app_nil_r, <-Ht, <-(take_insert_ge l2 i i v) by lia|]. split; [constructor|].
    split; [by apply consumed_nil|]. unfold at_end. destruct M as [_ _ _ _ M]. rewrite M, Est. simpl.
    simpl in Hroom. rewrite len_nil in Hroom. lia.
  - apply Forall_cons in Hacc as [Ha Hacc].
    simpl in Hd, Hroom. rewrite <-app_assoc in Hd. rewrite len_app in Hroom.
    pose proof (len_nonneg (concat (map enc xs))).
    destruct (Ha s old (concat (map enc xs) ++ rest) Hs Hk HL Hd) as (s' & v & -> & C & HR);
      [unfold room; rewrite Est; lia|done|]. cbn [rbind].
    destruct (IH Hacc fuel (S i) s' (<[i:=v]> l2) s2) as (s3 & vs & sp3 & -> & F & C' & Hend);
      [apply C|apply C| |simpl in Hf; lia| | |by apply Forall_insert; eauto|done|rewrite length_insert; lia|].
    + pose proof (c_data _ _ _ C) as Hd'. rewrite Hd' in HL. rewrite len_app in HL.
      pose proof (len_nonneg (enc x)). lia.
    + pose proof (c_data _ _ _ C) as Hd'. rewrite Hd in Hd'. by apply app_inv_head in Hd'.
    + pose proof (moved_stack _ _ _ (c_moved _ _ _ C)) as M. rewrite Est in M. do 2 eexists.
      split; [exact M|]. simpl. lia.
    + exists s3, (v :: vs), sp3. split; [|split; [by constructor|split; [by eapply consumed_app|done]]].
      rewrite (take_S_r _ _ v), take_insert_ge, Ht, <-app_assoc by (lia || by apply list_lookup_insert_eq). done.
Qed.

(** A list into a slice, from the state behind its header. *)
Lemma ListSlice_sound fuel t old l spare s s1 n :
  sok s -> ahead s s1 List n -> len (sdata s1) <= L -> len (sdata s1) < Z.of_nat fuel ->
  cells_of old = Some (l, spare) -> Forall Q l -> Forall Q spare -> (forall v bs, P v bs -> Q v) ->
  exists s' v err, decodeListSlice dec zero fuel t s1 old = Ok (s', v, err) /\
    match err with
    | None => exists vs sp bss, v = of_cells old vs sp /\ Forall2 P vs bss /\
                consumed (rlp_list (concat bss)) s s'
    | Some e => not_eol e
    end.
Proof.
  intros Hs A HL Hf Hc Hl Hsp HPQ. unfold decodeListSlice.
  destruct (StreamList_ahead s s1 n A) as [-> Hs2].
  assert (n = 0 -> exists s', ListEnd (opened n s1) = (s', None) /\ consumed (rlp_list []) s s') as H0.
  { intros ->. apply (list_consumed s s1 (opened 0 s1) 0 [] Hs A); [|done].
    apply consumed_nil; [done|apply moved_refl|done]. }
  destruct (Z.eqb_spec n 0) as [Hn|Hn].
  - destruct (H0 Hn) as (s' & -> & C). do 3 eexists. split; [done|]. exists [], [], []. done.
  - unfold decodeSliceElems. rewrite Hc.
    destruct (elems_sound fuel 0 (opened n s1) l spare Hs2 eq_refl HL Hf Hl Hsp HPQ ltac:(lia))
      as (s3 & l3 & sp3 & err & -> & R). cbn [rbind].
    destruct err as [e|]; [do 3 eexists; by split|].
    destruct R as (vs & bss & -> & F & C & Hend).
    destruct (list_consumed s s1 s3 n (concat bss) Hs A C Hend) as (s4 & -> & C').
    do 3 eexists. split; [done|]. exists vs, sp3, bss. done.
Qed.

Lemma ListSlice_complete {A} (enc : A -> bytes) (R : A -> val -> Prop) xs fuel t old l spare s s1 n rest :
  Forall (fun x => accepts L dec Q (R x) (enc x)) xs -> (forall x v, R x v -> Q v) ->
  (forall x, enc x <> []) ->
  sok s -> ahead s s1 List n -> n = len (concat (map enc xs)) -> sdata s1 = concat (map enc xs) ++ rest ->
  len (sdata s1) <= L -> (length xs < fuel)%nat ->
  cells_of old = Some (l, spare) -> Forall Q l -> Forall Q spare ->
  exists s' vs sp, decodeListSlice dec zero fuel t s1 old = Ok (s', of_cells old vs sp, None) /\
    Forall2 R xs vs /\ consumed (rlp_list (concat (map enc xs))) s s'.
Proof.
  intros Hacc HRQ Hne Hs Ah -> Hd HL Hf Hc Hl Hsp. unfold decodeListSlice.
  destruct (StreamList_ahead s s1 _ Ah) as [-> Hs2].
  destruct (Z.eqb_spec (len (concat (map enc xs))) 0) as [Hn|Hn].
  - assert (xs = []) as ->.
    { destruct xs as [|x xs]; [done|]. simpl in Hn. rewrite len_app in Hn.
      pose proof (len_nonneg (concat (map enc xs))). specialize (Hne x). destruct (enc x); [done|].
      rewrite len_cons in Hn. pose proof (len_nonneg l0). lia. }
    change (len (concat (map enc []))) with 0 in *.
    destruct (list_consumed s s1 (opened 0 s1) 0 [] Hs Ah) as (s' & -> & C); [|done|].
    { apply consumed_nil; [done|apply moved_refl|done]. }
    exists s', [], []. split; [done|]. split; [constructor|done].
  - unfold decodeSliceElems. rewrite Hc.
    destruct (elems_complete enc R xs fuel 0 (opened (len (concat (map enc xs))) s1) l spare rest)
      as (s3 & vs & sp3 & -> & F & C & Hend); try done; [do 2 eexists; split; [done|simpl; lia]|lia|].
    cbn [rbind].
    destruct (list_consumed s s1 s3 _ (concat (map enc xs)) Hs Ah C Hend) as (s4 & -> & C').
    exists s4, vs, sp3. done.
Qed.

End Loop.

(** ** Items *)

#[warnings="-register-all"]
Inductive item := Str (b : bytes) | Lst (l : list item).

Fixpoint rlp_item (i : item) : bytes :=
  match i with
  | Str b => rlp_string b
  | Lst l => rlp_list (concat (map rlp_item l))
  end.

Fixpoint item_ok (i : item) : Prop :=
  match i with
  | Str b => bytes_ok b
  | Lst l => foldr (fun i P => item_ok i /\ P) True l
  end.

(** The item an interface value holds. *)
Fixpoint item_of (v : val) : option item :=
  match v with
  | VIface (Some (t, VBytes b)) => if bool_decide (t = bytesType) then Some (Str b) else None
  | VIface (Some (t, VSlice l _)) =>
      if bool_decide (t = ifsliceType) then
        match (fix go (l : list val) : option (list item) :=
          match l with
          | [] => Some []
          | v :: l => match item_of v, go l with Some i, Some its => Some (i :: its) | _, _ => None end
          end) l with
        | Some its => Some (Lst its)
        | None => None
        end
      else None
  | _ => None
  end.

Section ItemInd.
Context (P : item -> Prop) (HS : forall b, P (Str b)) (HL : forall l, Forall P l -> P (Lst l)).
Fixpoint item_ind' (i : item) : P i :=
  match i with
  | Str b => HS b
  | Lst l => HL l ((fix go (l : list item) : Forall P l :=
      match l with
      | [] => List.Forall_nil P
      | i :: l => List.Forall_cons P i l (item_ind' i) (go l)
      end) l)
  end.
End ItemInd.

Lemma item_ok_Lst l : item_ok (Lst l) <-> Forall item_ok l.
Proof.
  simpl. induction l as [|i l IH]; simpl; [split; [constructor|done]|].
  rewrite IH, Forall_cons. done.
Qed.

Lemma item_of_list l sp its : Forall2 (fun v i => item_of v = Some i) l its ->
  item_of (VIface (Some (ifsliceType, VSlice l sp))) = Some (Lst its).
Proof.
  intros F. simpl. replace (_ l) with (Some its); [done|].
  induction F as [|v i l its Hv F IH]; [done|]. by rewrite Hv, <-IH.
Qed.

Lemma rlp_string_nonempty b : rlp_string b <> [].
Proof.
  assert (forall s l n b, header s l n ++ b <> []) as H.
  { intros s l n b' E. apply app_eq_nil in E as [E _]. unfold header in E. by destruct (n <? 56). }
  unfold rlp_string. destruct b as [|x [|y b]]; [apply H|destruct (x <=? 127); [done|apply H]|apply H].
Qed.

Lemma rlp_item_nonempty i : rlp_item i <> [].
Proof.
  destruct i as [b|l]; simpl; [apply rlp_string_nonempty|]. unfold rlp_list, header.
  destruct (_ <? 56); done.
Qed.

(** ** [decodeInterface] *)

Definition holds (v : val) (bs : bytes) : Prop := exists i, item_of v = Some i /\ item_ok i /\ bs = rlp_item i.

Lemma Forall2_holds vs bss : Forall2 holds vs bss ->
  exists its, Forall2 (fun v i => item_of v = Some i) vs its /\ Forall item_ok its /\ bss = map rlp_item its.
Proof.
  induction 1 as [|v bs vs bss (i & Hi & Hok & ->) _ (its & F & Hoks & ->)].
  - exists []. by repeat constructor.
  - exists (i :: its). by repeat constructor.
Qed.

(** A failure away from the end of a list is not [EOL]. *)
Lemma settle s s' v err (P : val -> bytes -> Prop) : ~ at_end s ->
  match err with
  | None => exists bs, consumed bs s s' /\ bs <> [] /\ P v bs
  | Some e => not_eol e
  end ->
  match err with
  | None => ~ at_end s /\ exists bs, consumed bs s s' /\ bs <> [] /\ P v bs
  | Some EOL => at_end s /\ moved 0 s s' /\ kind s' = None
  | Some _ => ~ at_end s
  end.
Proof. intros He H. destruct err as [e|]; [by destruct e|done]. Qed.

(** The branch of [decodeInterface] for strings. *)
Definition string_into (s : Stream) (old : val) : D :=
  let? (s, res) := Bytes s in
  match res with
  | inl err => keep s old err
  | inr b => done s (VIface (Some (bytesType, VBytes b)))
  end.

Lemma string_into_sound s s1 k n old : sok s -> ahead s s1 k n -> k <> List ->
  exists s' v err, string_into s1 old = Ok (s', v, err) /\
    match err with None => exists bs, consumed bs s s' /\ bs <> [] /\ holds v bs | Some e => not_eol e end.
Proof.
  intros Hs A Hk. unfold string_into.
  destruct (Bytes_sound s s1 k n Hs A Hk) as [(s' & b & -> & C & Hb)|(s' & e & -> & He)]; cbn [rbind].
  - do 3 eexists. split; [done|]. exists (rlp_string b). split; [done|].
    split; [apply rlp_string_nonempty|]. by exists (Str b).
  - do 3 eexists. by split.
Qed.

Lemma header_shorter s s1 k n : ahead s s1 k n -> len (sdata s1) < len (sdata s).
Proof.
  intros [(Hh & Hd & _) _ _ _ _ _ _]. rewrite Hd, len_app. pose proof (len_header_of _ _ _ Hh). lia.
Qed.

Lemma decodeInterface_sound fuel t L : L + 2 <= Z.of_nat fuel ->
  decodes L (decodeInterface fuel t 0) (fun _ => True) holds.
Proof.
  revert t L. induction fuel as [|fuel IH]; intros t L Hf s old Hs Hk HL _;
    [pose proof (len_nonneg (sdata s)); lia|].
  simpl. destruct (StreamKind_cases s Hs Hk) as [[Hend ->]|[(Hend & s1 & k & n & -> & A)|(Hend & s1 & e & -> & He)]].
  - do 3 eexists. split; [done|]. simpl. split; [done|]. split; [|done].
    split; try done; simpl; [lia|by rewrite bump_0].
  - fold (string_into s1 old). destruct k.
    1, 2: destruct (string_into_sound s s1 _ n old Hs A ltac:(done)) as (s' & v & err & -> & R);
      do 3 eexists; (split; [reflexivity|]); by apply settle.
    pose proof (header_shorter _ _ _ _ A) as Hlt.
    destruct (ListSlice_sound (L - 1) (decodeInterface fuel (TInterface 0) 0) (VIface None) (fun _ => True) holds
      ltac:(apply IH; lia) I fuel ifsliceType (VSlice [] []) [] [] s s1 n Hs A)
      as (s' & v & err & -> & R); try done; try lia. cbn [rbind].
    destruct err as [e|].
    + do 3 eexists. split; [done|]. by apply (settle s s' old (Some e) holds).
    + destruct R as (vs & sp & bss & -> & F & C). do 3 eexists. split; [done|]. split; [done|].
      destruct (Forall2_holds _ _ F) as (its & F' & Hok & ->).
      exists (rlp_list (concat (map rlp_item its))). split; [done|].
      split; [apply (rlp_item_nonempty (Lst its))|]. exists (Lst its).
      split; [by apply item_of_list|]. split; [by apply item_ok_Lst|done].
  - do 3 eexists. split; [done|]. by destruct e.
Qed.

Lemma concat_length {A} (enc : A -> bytes) xs : (forall x, enc x <> []) ->
  Z.of_nat (length xs) <= len (concat (map enc xs)).
Proof.
  intros H. induction xs as [|x xs IH]; simpl; [done|]. rewrite len_app. specialize (H x).
  destruct (enc x) as [|y l]; [done|]. rewrite len_cons. pose proof (len_nonneg l). lia.
Qed.

(** Every encoding of an item is decoded to that item. *)
Lemma decodeInterface_complete i : item_ok i -> forall fuel t L, L + 2 <= Z.of_nat fuel ->
  accepts L (decodeInterface fuel t 0) (fun _ => True) (fun v => item_of v = Some i) (rlp_item i).
Proof.
  induction i as [b|its IH] using item_ind'; intros Hok fuel t L Hf s old rest Hs Hk HL Hd Hroom _;
    (destruct fuel as [|fuel]; [pose proof (len_nonneg (sdata s)); lia|]); simpl.
  - destruct (Bytes_complete b s rest Hs Hk Hok Hd Hroom) as (s1 & s' & k & n & -> & Hkl & A & E & C).
    destruct k; [| |done]; rewrite E; cbn [rbind]; do 2 eexists; (split; [reflexivity|]); by split.
  - set (payload := concat (map rlp_item its)). simpl in Hd, Hroom. fold payload in Hd, Hroom.
    unfold rlp_list in Hd, Hroom. rewrite <-app_assoc in Hd. rewrite len_app in Hroom.
    pose proof (len_nonneg payload) as Hp. pose proof two64_maxAlloc. pose proof (sok_len s Hs).
    assert (len payload <= len (sdata s)) as Hle.
    { rewrite Hd, !len_app. pose proof (len_nonneg rest). pose proof (len_nonneg (header 192 247 (len payload))). lia. }
    destruct (StreamKind_complete List (len payload) 0 s (payload ++ rest)) as (s1 & -> & A & Hd1 & _);
      [done|done|simpl; lia|rewrite len_app; pose proof (len_nonneg rest); lia|done|done|].
    pose proof (header_shorter _ _ _ _ A) as Hlt.
    pose proof (concat_length rlp_item its rlp_item_nonempty) as Hcount. fold payload in Hcount.
    destruct (ListSlice_complete (L - 1) (decodeInterface fuel (TInterface 0) 0) (VIface None) (fun _ => True) holds
      ltac:(apply decodeInterface_sound; lia) I rlp_item (fun i v => item_of v = Some i)
      its fuel ifsliceType (VSlice [] []) [] [] s s1 (len payload) rest) as (s' & vs & sp & -> & F & C);
      try done; try lia; [|apply rlp_item_nonempty|].
    { apply item_ok_Lst in Hok. apply Forall_forall. intros x Hx.
      apply (proj1 (Forall_forall _ _) IH x Hx); [|lia]. by apply (proj1 (Forall_forall _ _) Hok). }
    cbn [rbind]. do 2 eexists. split; [done|]. split; [done|]. apply item_of_list.
    apply Forall2_flip. eapply Forall2_impl; [exact F|done].
Qed.

(** ** Sizes and bytes of encodings *)

Lemma rlp_list_longer its i : i ∈ its -> len (rlp_item i) < len (rlp_item (Lst its)).
Proof.
  intros Hi. simpl. unfold rlp_list. rewrite len_app.
  assert (1 <= len (header 192 247 (len (concat (map rlp_item its))))) as H.
  { unfold header. destruct (_ <? 56); rewrite ?len_cons; simpl;
      match goal with |- context [len ?l] => pose proof (len_nonneg l) end; lia. }
  assert (len (rlp_item i) <= len (concat (map rlp_item its))); [|lia]. clear H.
  induction Hi as [i its|i j its _ IH]; simpl; rewrite len_app; [pose proof (len_nonneg (concat (map rlp_item its)))|
    pose proof (len_nonneg (rlp_item j))]; lia.
Qed.

Lemma item_length i : 1 <= len (rlp_item i).
Proof.
  pose proof (rlp_item_nonempty i). destruct (rlp_item i) as [|x l]; [done|].
  rewrite len_cons. pose proof (len_nonneg l). lia.
Qed.

Lemma header_bytes small large n : 0 <= n < two64 -> 0 <= small <= 192 -> 0 <= large <= 247 ->
  bytes_ok (header small large n).
Proof.
  intros Hn Hs Hl. unfold header. destruct (Z.ltb_spec n 56).
  - constructor; [unfold byte_ok; lia|constructor].
  - pose proof (len_Bytes_u64 n). constructor; [unfold byte_ok; lia|apply Big.Bytes_ok].
Qed.

Lemma rlp_item_bytes i : item_ok i -> len (rlp_item i) < two64 -> bytes_ok (rlp_item i).
Proof.
  assert (forall small large b, 0 <= small <= 192 -> 0 <= large <= 247 -> bytes_ok b ->
    len (header small large (len b) ++ b) < two64 -> bytes_ok (header small large (len b) ++ b)) as H.
  { intros small large b Hs Hl Hb Hlen. apply bytes_ok_app. split; [|done]. apply header_bytes; try done.
    rewrite len_app in Hlen. pose proof (len_nonneg b). pose proof (len_nonneg (header small large (len b))). lia. }
  induction i as [b|its IH] using item_ind'; intros Hi Hlen.
  - simpl in *. unfold rlp_string in *. destruct b as [|x [|y b]]; [by apply H|destruct (x <=? 127); [done|by apply (H 128 183 [x])]|by apply H].
  - apply H; try done. apply item_ok_Lst in Hi.
    assert (forall i, i ∈ its -> bytes_ok (rlp_item i)) as Hb.
    { intros i Hin. pose proof (rlp_list_longer its i Hin). rewrite Forall_forall in IH, Hi. apply IH; [done|by apply Hi|lia]. }
    clear -Hb. induction its as [|i its IH]; simpl; [constructor|]. apply bytes_ok_app.
    split; [apply Hb; by left|]. apply IH. intros j Hj. apply Hb. by right.
Qed.

End RlpCanon.
