(* ===== verification/RlpRaw.v ===== *)
(** * RLP: the helpers on raw bytes

    [Split], [SplitString], [SplitList] and [CountValues] never panic and never
    look outside their argument, and on the encoding of an item they find its
    kind, its content and what follows it. *)

From Stdlib Require Import String Lia.
From stdpp Require Import base list numbers option strings gmap.
From S2P Require Import Prelude BigInt RlpTypes RlpEncode RlpDecode RlpSpec RlpStream RlpCanon.

#[local] Open Scope Z_scope.
#[local] Open Scope go_scope.

Module RlpRaw.
Import RlpTypes RlpDecode RlpSpec RlpStream RlpCanon.

Lemma shift_or a x : byte_ok x -> Z.lor (Z.shiftl a 8) x = a * 256 + x.
Proof.
  intros Hx. unfold byte_ok in Hx. rewrite Z.shiftl_mul_pow2 by lia. change (2 ^ 8) with 256.
  assert (Z.land (a * 256) x = 0) as H.
  { apply Z.bits_inj'. intros k Hk. rewrite Z.land_spec, Z.bits_0.
    change 256 with (2 ^ 8). rewrite Z.mul_pow2_bits by lia.
    destruct (Z.lt_ge_cases k 8); [rewrite Z.testbit_neg_r by lia; done|].
    assert (2 ^ 8 <= 2 ^ k) by (apply Z.pow_le_mono_r; lia).
    rewrite (Z.testbit_eqb x), Z.div_small by lia. by rewrite andb_comm. }
  pose proof (Z.add_lor_land (a * 256) x). lia.
Qed.

Lemma fold_bytes l a : bytes_ok l ->
  fold_left (fun a x => Z.lor (Z.shiftl a 8) x) l a = fold_left (fun a b => a * 256 + b) l a.
Proof.
  revert a. induction l as [|x l IH]; intros a Hl; [done|]. apply bytes_ok_cons in Hl as [Hx Hl].
  simpl. by rewrite shift_or, IH.
Qed.

(** ** Sizes *)

Lemma readSize_bounds b slen n : readSize b slen = inr n -> bytes_ok b -> slen <= 8 ->
  slen <= len b /\ 56 <= n < two64.
Proof.
  intros H Hb H8. unfold readSize in H. rewrite Z.gtb_ltb in H. destruct (Z.ltb_spec (len b) slen); [done|].
  assert (bytes_ok (take (Z.to_nat slen) b)) as Ht by by apply bytes_ok_take.
  rewrite fold_bytes in H by done. cbv zeta in H.
  change (fold_left _ _ 0) with (Big.SetBytes (take (Z.to_nat slen) b)) in H.
  pose proof (Big.SetBytes_bound _ Ht) as Hlt.
  destruct (Z.ltb_spec (Big.SetBytes (take (Z.to_nat slen) b)) 56); [done|]. simpl in H.
  destruct (match b with [] => true | x :: _ => x =? 0 end); [done|]. injection H as <-. split; [done|].
  split; [done|]. eapply Z.lt_le_trans; [apply Hlt|]. change two64 with (256 ^ 8).
  apply Z.pow_le_mono_r; [lia|]. rewrite len_take. lia.
Qed.

Lemma readSize_complete n rest : 56 <= n < two64 ->
  readSize (Big.Bytes n ++ rest) (len (Big.Bytes n)) = inr n.
Proof.
  intros Hn. unfold readSize. rewrite Z.gtb_ltb, len_app. pose proof (len_nonneg rest).
  rewrite (proj2 (Z.ltb_ge _ _)) by lia. 
  replace (Z.to_nat (len (Big.Bytes n))) with (length (Big.Bytes n)) by (unfold len; lia). rewrite take_app_length.
  rewrite fold_bytes by apply Big.Bytes_ok. change (fold_left _ _ 0) with (Big.SetBytes (Big.Bytes n)).
  rewrite Big.SetBytes_Bytes, Z.abs_eq by lia. rewrite (proj2 (Z.ltb_ge n 56)) by lia. simpl.
  pose proof (len_Bytes_u64 n ltac:(lia)) as Hl.
  destruct (Big.Bytes n) as [|x l] eqn:E; [change (len []) with 0 in Hl; lia|].
  cbn [app]. destruct (Z.eqb_spec x 0) as [->|]; [|done]. by destruct (Bytes_no_zero n l ltac:(lia)).
Qed.

(** ** Headers *)

Lemma fits_Some buf k ts c k' ts' n : fits buf k ts c = inr (k', ts', n) -> len buf <= maxAlloc ->
  0 <= ts <= len buf -> k' = k /\ ts' = ts /\ c = inr n /\ ts + n <= len buf.
Proof.
  intros H Hl Ht. pose proof two64_maxAlloc. unfold fits in H. destruct c as [|m]; [done|].
  rewrite Z.gtb_ltb, u64_id in H by (unfold is_u64; lia).
  destruct (Z.ltb_spec (len buf - ts) m); [done|]. injection H as <- <- <-. split; [done|]. split; [done|].
  split; [done|]. lia.
Qed.

Lemma fits_ok buf k ts n : len buf <= maxAlloc -> 0 <= ts <= len buf -> ts + n <= len buf ->
  fits buf k ts (inr n) = inr (k, ts, n).
Proof.
  intros Hl Ht Hn. pose proof two64_maxAlloc. unfold fits. rewrite Z.gtb_ltb, u64_id by (unfold is_u64; lia).
  by rewrite (proj2 (Z.ltb_ge _ _)) by lia.
Qed.

Lemma rawReadKind_bounds b k ts cs : bytes_ok b -> len b <= maxAlloc -> rawReadKind b = inr (k, ts, cs) ->
  0 <= ts /\ 0 <= cs /\ 1 <= ts + cs <= len b.
Proof.
  intros Hb Hl H. destruct b as [|x rest]; [done|].
  apply bytes_ok_cons in Hb as [Hx Hb]. unfold byte_ok in Hx. pose proof (len_nonneg rest).
  pose proof (len_cons x rest). unfold rawReadKind in H.
  assert (forall k' tag, (tag = 183 \/ tag = 247) -> tag < x <= tag + 8 ->
    fits (x :: rest) k' (x - tag + 1) (readSize rest (x - tag)) = inr (k, ts, cs) ->
    0 <= ts /\ 0 <= cs /\ 1 <= ts + cs <= len (x :: rest)) as Hlong.
  { intros k' tag _ Ht Hr. destruct (readSize rest (x - tag)) as [e|n] eqn:E; [done|].
    apply readSize_bounds in E; [|done|lia]. apply fits_Some in Hr as (_ & -> & [= ->] & ?); lia. }
  destruct (Z.ltb_spec x 128); [apply fits_Some in H as (_ & -> & [= <-] & ?); lia|].
  destruct (Z.ltb_spec x 184); [split_if; [done|]; apply fits_Some in H as (_ & -> & [= <-] & ?); lia|].
  destruct (Z.ltb_spec x 192); [apply (Hlong String 183); [auto|lia|done]|].
  destruct (Z.ltb_spec x 248); [apply fits_Some in H as (_ & -> & [= <-] & ?); lia|].
  apply (Hlong List 247); [auto|lia|done].
Qed.

(** The kind, the size of the header and the content of an item. *)
Definition parts (i : item) : Kind * Z * bytes :=
  match i with
  | Str [x] => if x <=? 127 then (Byte, 0, [x]) else (String, 1, [x])
  | Str b => (String, len (header 128 183 (len b)), b)
  | Lst l => (List, len (header 192 247 (len (concat (map rlp_item l)))), concat (map rlp_item l))
  end.

Lemma raw_header small large k n c rest :
  (small = 128 /\ large = 183 /\ k = String \/ small = 192 /\ large = 247 /\ k = List) ->
  n = len c -> len (header small large n ++ c ++ rest) <= maxAlloc ->
  (k = String -> n = 1 -> match c with x :: _ => 128 <= x | [] => True end) ->
  rawReadKind (header small large n ++ c ++ rest) = inr (k, len (header small large n), n).
Proof.
  intros Hk -> Hmax Hc. pose proof two64_maxAlloc. pose proof (len_nonneg c). pose proof (len_nonneg rest).
  assert (0 <= len c < two64) as Hn.
  { rewrite !len_app in Hmax. pose proof (len_nonneg (header small large (len c))). lia. }
  pose proof (len_header small large (len c) Hn) as Hh.
  assert (len (header small large (len c)) + len c <= len (header small large (len c) ++ c ++ rest)) as Hfit
    by (rewrite !len_app; lia).
  unfold header in *. destruct (Z.ltb_spec (len c) 56) as [Hs|Hs].
  - cbn [app] in *. change (len [small + len c]) with 1 in *. unfold rawReadKind.
    destruct Hk as [(-> & -> & ->)|(-> & -> & ->)].
    + rewrite (proj2 (Z.ltb_ge (128 + len c) 128)), (proj2 (Z.ltb_lt (128 + len c) 184)) by lia.
      replace (128 + len c - 128) with (len c) by lia.
      replace ((len c =? 1) && _) with false; [by apply fits_ok; [done|lia..]|].
      symmetry. destruct (Z.eqb_spec (len c) 1) as [E|]; [|done]. destruct c as [|y c]; [done|]. simpl.
      apply Z.ltb_ge. by apply Hc.
    + rewrite (proj2 (Z.ltb_ge (192 + len c) 128)), (proj2 (Z.ltb_ge (192 + len c) 184)),
        (proj2 (Z.ltb_ge (192 + len c) 192)), (proj2 (Z.ltb_lt (192 + len c) 248)) by lia.
      replace (192 + len c - 192) with (len c) by lia. by apply fits_ok; [done|lia..].
  - pose proof (len_Bytes_u64 (len c) ltac:(lia)) as Hb. cbn [app] in *. rewrite len_cons in Hh, Hfit.
    assert (forall tag, (tag = 183 \/ tag = 247) -> tag + len (Big.Bytes (len c)) - tag = len (Big.Bytes (len c))) as Ht by lia.
    unfold rawReadKind. destruct Hk as [(-> & -> & ->)|(-> & -> & ->)].
    + rewrite (proj2 (Z.ltb_ge (183 + _) 128)), (proj2 (Z.ltb_ge (183 + _) 184)), (proj2 (Z.ltb_lt (183 + _) 192)) by lia.
      rewrite Ht by auto. rewrite readSize_complete by lia.
      rewrite fits_ok, (len_cons _ (Big.Bytes (len c))), (Z.add_comm 1) by (done || lia). done.
    + rewrite (proj2 (Z.ltb_ge (247 + _) 128)), (proj2 (Z.ltb_ge (247 + _) 184)), (proj2 (Z.ltb_ge (247 + _) 192)),
        (proj2 (Z.ltb_ge (247 + _) 248)) by lia.
      rewrite Ht by auto. rewrite readSize_complete by lia.
      rewrite fits_ok, (len_cons _ (Big.Bytes (len c))), (Z.add_comm 1) by (done || lia). done.
Qed.

Lemma rawReadKind_item i rest : item_ok i -> len (rlp_item i ++ rest) <= maxAlloc ->
  rawReadKind (rlp_item i ++ rest) = inr (fst (fst (parts i)), snd (fst (parts i)), len (snd (parts i))) /\
  exists h, rlp_item i = h ++ snd (parts i) /\ len h = snd (fst (parts i)).
Proof.
  intros Hi Hl. destruct i as [b|l].
  - assert (forall b, len (header 128 183 (len b) ++ b ++ rest) <= maxAlloc ->
      (len b = 1 -> match b with x :: _ => 128 <= x | [] => True end) ->
      rawReadKind ((header 128 183 (len b) ++ b) ++ rest) = inr (String, len (header 128 183 (len b)), len b) /\
      exists h, header 128 183 (len b) ++ b = h ++ b /\ len h = len (header 128 183 (len b))) as Hb.
    { intros b' Hm Hc. rewrite <-app_assoc. rewrite (raw_header 128 183 String) by (auto; done).
      split; [done|]. by eexists. }
    simpl in *. unfold rlp_string in *. destruct b as [|x [|y b]].
    + by apply (Hb []).
    + apply bytes_ok_cons in Hi as [Hx _]. unfold byte_ok in Hx. destruct (Z.leb_spec x 127).
      * split; [|by exists []]. cbn [app fst snd] in *. unfold rawReadKind. rewrite (proj2 (Z.ltb_lt x 128)) by lia.
        change (len [x]) with 1.
        pose proof (len_cons x rest). pose proof (len_nonneg rest). apply fits_ok; lia.
      * rewrite <-app_assoc in Hl. apply (Hb [x]); [done|]. simpl. lia.
    + rewrite <-app_assoc in Hl. apply (Hb (x :: y :: b)); [done|]. rewrite !len_cons. pose proof (len_nonneg b). lia.
  - simpl in *. unfold rlp_list in *. rewrite <-app_assoc in *.
    rewrite (raw_header 192 247 List) by (auto; done). split; [done|]. by eexists.
Qed.

(** ** [Split] and [CountValues] *)

Lemma Split_parts b k ts cs : bytes_ok b -> len b <= maxAlloc -> rawReadKind b = inr (k, ts, cs) ->
  let next := ts + cs in
  Split b = Ok (inr (k, take (Z.to_nat cs) (drop (Z.to_nat ts) b), drop (Z.to_nat next) b)) /\
  slice b (u64 next) (len b) = Ok (drop (Z.to_nat next) b) /\ len (drop (Z.to_nat next) b) < len b.
Proof.
  intros Hb Hl E. destruct (rawReadKind_bounds b k ts cs Hb Hl E) as (H1 & H2 & H3). pose proof two64_maxAlloc.
  cbv zeta. rewrite u64_id by (unfold is_u64; lia). unfold Split. rewrite E.
  rewrite u64_id by (unfold is_u64; lia). rewrite !slice_Ok by lia. cbn [rbind].
  replace (ts + cs - ts) with cs by lia.
  rewrite (take_ge (drop (Z.to_nat (ts + cs)) b)) by (rewrite length_drop; unfold len in *; lia).
  split; [done|]. split; [done|]. rewrite len_drop. lia.
Qed.

(** It never panics; what it returns are the two parts of its argument that
    follow the header. *)
Lemma Split_total b : bytes_ok b -> len b <= maxAlloc ->
  (exists e, Split b = Ok (inl e)) \/
  (exists k h c rest, Split b = Ok (inr (k, c, rest)) /\ b = h ++ c ++ rest /\ len rest < len b).
Proof.
  intros Hb Hl. destruct (rawReadKind b) as [e|[[k ts] cs]] eqn:E.
  - left. exists e. unfold Split. by rewrite E.
  - right. destruct (rawReadKind_bounds b k ts cs Hb Hl E) as (H1 & H2 & H3).
    destruct (Split_parts b k ts cs Hb Hl E) as (Es & _ & Hlt).
    exists k, (take (Z.to_nat ts) b). do 2 eexists. split; [exact Es|]. split; [|done].
    rewrite Z2Nat.inj_add, <-drop_drop by lia. by rewrite take_drop, take_drop.
Qed.

Lemma Split_item i rest : item_ok i -> bytes_ok (rlp_item i ++ rest) -> len (rlp_item i ++ rest) <= maxAlloc ->
  Split (rlp_item i ++ rest) = Ok (inr (fst (fst (parts i)), snd (parts i), rest)).
Proof.
  intros Hi Hb Hl. destruct (rawReadKind_item i rest Hi Hl) as (E & h & Eh & Hh).
  destruct (Split_parts _ _ _ _ Hb Hl E) as (-> & _). rewrite Eh, <-app_assoc, <-Hh.
  unfold len. rewrite Z2Nat.inj_add, !Nat2Z.id by lia. rewrite <-drop_drop, !drop_app_length, take_app_length. done.
Qed.

Lemma CountValues_loop_total fuel i b : bytes_ok b -> len b <= maxAlloc -> len b <= Z.of_nat fuel ->
  exists res, CountValues_loop fuel i b = Ok res.
Proof.
  revert i b. induction fuel as [|fuel IH]; intros i b Hb Hl Hf.
  - destruct b; [by eexists|]. rewrite len_cons in Hf. pose proof (len_nonneg b). lia.
  - destruct b as [|x b]; [by eexists|]. cbn [CountValues_loop].
    destruct (rawReadKind (x :: b)) as [e|[[k ts] cs]] eqn:E; [by eexists|].
    destruct (Split_parts _ _ _ _ Hb Hl E) as (_ & -> & Hlt). cbn [rbind]. apply IH; [by apply bytes_ok_drop|lia..].
Qed.

Lemma CountValues_items its fuel i : Forall item_ok its -> bytes_ok (concat (map rlp_item its)) ->
  len (concat (map rlp_item its)) <= maxAlloc -> len (concat (map rlp_item its)) <= Z.of_nat fuel ->
  CountValues_loop fuel i (concat (map rlp_item its)) = Ok (inr (i + Z.of_nat (length its))).
Proof.
  revert fuel i. induction its as [|it its IH]; intros fuel i Hi Hb Hl Hf; simpl in *.
  - destruct fuel; simpl; do 2 f_equal; lia.
  - apply Forall_cons in Hi as [Hi Hits].
    destruct (rawReadKind_item it _ Hi Hl) as (E & h & Eh & Hh).
    destruct (Split_parts _ _ _ _ Hb Hl E) as (Es & En & Hlt).
    rewrite (Split_item it _ Hi Hb Hl) in Es. injection Es as _ Er.
    assert (rlp_item it ++ concat (map rlp_item its) <> []) as Hne.
    { intros H. rewrite H in Hlt. rewrite drop_nil in Hlt. change (len []) with 0 in Hlt. lia. }
    destruct (rlp_item it ++ concat (map rlp_item its)) as [|x b] eqn:Eb; [done|].
    destruct fuel as [|fuel]; [rewrite len_cons in Hf; pose proof (len_nonneg b); lia|].
    cbn [CountValues_loop]. rewrite E, En. cbn [rbind]. rewrite <-Er in *.
    rewrite IH; [do 2 f_equal; lia|done| |lia..].
    apply (bytes_ok_drop (Z.to_nat (snd (fst (parts it)) + len (snd (parts it))))) in Hb. congruence.
Qed.

(** The raw helpers agree with the format and never panic: on any bytes
    [Split] returns an error, or the two parts of its argument behind the
    header, the second shorter than the argument, and [CountValues] returns; on
    the encoding of an item followed by anything [Split] returns the kind, the
    content and what follows; on a sequence of encodings [CountValues] returns
    how many there are. *)
Theorem raw_helpers_exact (b : list Z) (its : list item) (rest : list Z) :
  bytes_ok b -> len b <= maxAlloc -> Forall item_ok its ->
  ((exists e, Split b = Ok (inl e)) \/
   (exists k h c r, Split b = Ok (inr (k, c, r)) /\ b = h ++ c ++ r /\ len r < len b)) /\
  (exists res, CountValues b = Ok res) /\
  (b = concat (map rlp_item its) -> CountValues b = Ok (inr (Z.of_nat (length its)))) /\
  (forall i, item_ok i -> b = rlp_item i ++ rest -> Split b = Ok (inr (fst (fst (parts i)), snd (parts i), rest))).
Proof.
  intros Hb Hl Hi. split; [by apply Split_total|]. split; [by apply CountValues_loop_total|]. split.
  - intros ->. by apply CountValues_items.
  - intros i Hit ->. by apply Split_item.
Qed.

Lemma raw_helpers_exact_witness : CountValues [131; 1; 2; 3; 192; 5] = Ok (inr 3) /\
  Split [131; 1; 2; 3; 192; 5] = Ok (inr (String, [1; 2; 3], [192; 5])).
Proof.
  destruct (raw_helpers_exact [131; 1; 2; 3; 192; 5] [Str [1; 2; 3]; Lst []; Str [5]] [192; 5])
    as (_ & _ & H1 & H2).
  - repeat constructor; unfold byte_ok; lia.
  - vm_compute. discriminate.
  - repeat constructor; simpl; repeat constructor; unfold byte_ok; lia.
  - split; [apply H1; reflexivity|]. apply (H2 (Str [1; 2; 3])); [|reflexivity].
    repeat constructor; unfold byte_ok; lia.
Defined.

End RlpRaw.
