(* ===== verification/RlpCache.v ===== *)
(** * RLP: the type cache is sound

    Every function pair in the cache is one that fits the type it is stored
    for, and the pointers it captures lead to entries of the element types
    ([cache_ok]); generating the functions of a type keeps this, never loses or
    changes an entry, and when it succeeds leaves no unfinished entry behind
    ([cachedTypeInfo_ok]). *)

From Stdlib Require Import String Lia.
From stdpp Require Import base list numbers option strings gmap.
From S2P Require Import Prelude RlpTypes.

#[local] Open Scope Z_scope.
#[local] Open Scope go_scope.

Module RlpCache.
Import RlpTypes.

Definition points (tc : cache) (l : loc) (k : typekey) : Prop :=
  exists c, structs tc !! l = Some c /\ owner c = k.

Section Sound.
Context (env : gmap string decl).

(** A slice or array of such elements is decoded as a string. *)
Definition byte_elem (e : typ) : bool :=
  match kind_of env e, ImplementsDecoder env (TPtr e) with KUint W8, false => true | _, _ => false end.

Definition field_points (tc : cache) (sfs : list sfield) (f : nat * loc) : Prop :=
  exists sf ts, sfs !! fst f = Some sf /\ points tc (snd f) (Type' sf, ts).

Definition good_decoder (tc : cache) (t : typ) (ts : tags) (d : decoder) : Prop :=
  match d with
  | DRawValue => t = TRawValue
  | DDecoder => ImplementsDecoder env t = true
  | DDecoderNoPtr => ImplementsDecoder env (TPtr t) = true
  | DBigInt => AssignableToBigPtr env t = true
  | DBigIntNoPtr => t = TBigInt
  | DUint => exists w, kind_of env t = KUint w
  | DBool => kind_of env t = KBool
  | DString => kind_of env t = KString
  | DByteArray => exists n e, kind_of env t = KArray n e /\ byte_elem e = true
  | DByteSlice => exists e, kind_of env t = KSlice e /\ byte_elem e = true
  | DListArray l => exists n e, kind_of env t = KArray n e /\ byte_elem e = false /\ points tc l (e, no_tags)
  | DSliceElems l =>
      exists e, kind_of env t = KSlice e /\ byte_elem e = false /\ tail ts = true /\ points tc l (e, no_tags)
  | DListSlice l =>
      exists e, kind_of env t = KSlice e /\ byte_elem e = false /\ tail ts = false /\ points tc l (e, no_tags)
  | DStruct t' fields => t' = t /\ t <> TBigInt /\
      exists sfs, kind_of env t = KStruct sfs /\ Forall (field_points tc sfs) fields
  | DPtr e l => kind_of env t = KPtr e /\ points tc l (e, no_tags)
  | DOptionalPtr e l => kind_of env t = KPtr e /\ nilOK ts = true /\ points tc l (e, no_tags)
  | DInterface => exists m, kind_of env t = KInterface m
  end.

(** What a nil pointer to a value of type [e] is written as. *)
Definition nil_func (e : typ) : nilfunc :=
  match kind_of env e with
  | KArray _ ee => if isByte env ee then NilString else NilList
  | KStruct _ => NilList
  | _ => NilZero e
  end.

Definition good_writer (tc : cache) (t : typ) (ts : tags) (w : writer) : Prop :=
  match w with
  | WRawValue => t = TRawValue
  | WEncoder => ImplementsEncoder env t = true
  | WEncoderNoPtr => ImplementsEncoder env (TPtr t) = true
  | WInterface => exists m, kind_of env t = KInterface m
  | WBigIntPtr => AssignableToBigPtr env t = true
  | WBigIntNoPtr => t = TBigInt
  | WUintw => exists w, kind_of env t = KUint w
  | WBool => kind_of env t = KBool
  | WString => kind_of env t = KString
  | WBytes => exists e, kind_of env t = KSlice e /\ isByte env e = true
  | WByteArray => exists n e, kind_of env t = KArray n e /\ isByte env e = true
  | WSlice l tl => tl = tail ts /\ exists e, isByte env e = false /\ points tc l (e, no_tags) /\
      (kind_of env t = KSlice e \/ exists n, kind_of env t = KArray n e)
  | WStruct fields => t <> TBigInt /\
      exists sfs, kind_of env t = KStruct sfs /\ Forall (field_points tc sfs) fields
  | WPtr l nf => AssignableToBigPtr env t = false /\
      exists e, kind_of env t = KPtr e /\ points tc l (e, no_tags) /\ nf = nil_func e
  end.

Definition good_info (tc : cache) (k : typekey) (info : typeinfo) : Prop :=
  good_decoder tc (fst k) (snd k) (idecoder info) /\ good_writer tc (fst k) (snd k) (iwriter info).

Record cache_ok (tc : cache) : Prop := {
  ok_index : forall k l, typeCache tc !! k = Some l -> points tc l k;
  ok_infos : forall l c info, structs tc !! l = Some c -> content c = Some info ->
    good_info tc (owner c) info;
}.

Lemma cache_ok_empty : cache_ok empty_cache.
Proof. split; [intros k l; simpl; by rewrite lookup_empty|]. intros l c info. simpl. by destruct l. Qed.

(** ** Growth of the cache *)

Record ext (tc tc' : cache) : Prop := {
  ext_index : typeCache tc ⊆ typeCache tc';
  ext_structs : forall l c, structs tc !! l = Some c -> structs tc' !! l = Some c;
}.

#[export] Instance ext_preorder : PreOrder ext.
Proof.
  split.
  - intros tc. by split.
  - intros a b c [A1 A2] [B1 B2]. split; [by etrans|]. eauto.
Qed.

Lemma ext_length tc tc' : ext tc tc' -> (length (structs tc) <= length (structs tc'))%nat.
Proof.
  intros [_ H]. destruct (decide (length (structs tc) <= length (structs tc'))%nat); [done|].
  destruct (lookup_lt_is_Some_2 (structs tc) (length (structs tc'))) as [c Hc]; [lia|].
  apply H, lookup_lt_Some in Hc. lia.
Qed.

Lemma points_ext tc tc' l k : ext tc tc' -> points tc l k -> points tc' l k.
Proof. intros [_ H] (c & Hc & Ho). exists c. eauto. Qed.

(** Entries made since [tc] are finished. *)
Definition filled (tc tc' : cache) : Prop :=
  forall l c, structs tc' !! l = Some c -> (length (structs tc) <= l)%nat -> content c <> None.

Lemma filled_refl tc : filled tc tc.
Proof. intros l c H%lookup_lt_Some. lia. Qed.

Lemma filled_trans a b c : ext b c -> filled a b -> filled b c -> filled a c.
Proof.
  intros E F1 F2 l x Hx Hl. destruct (decide (length (structs b) <= l)%nat) as [|H]; [eauto|].
  destruct (lookup_lt_is_Some_2 (structs b) l) as [y Hy]; [lia|].
  pose proof (ext_structs _ _ E l y Hy) as Hy'. rewrite Hx in Hy'. injection Hy' as ->. eauto.
Qed.

(** ** Computations on the cache *)

(** From a sound cache [m] yields one; its result satisfies [Q] there. *)
Definition gspec {A} (m : G A) (Q : cache -> A -> Prop) (tc : cache) : Prop :=
  match m tc with
  | Ok (tc', inr a) => ext tc tc' /\ cache_ok tc' /\ filled tc tc' /\ Q tc' a
  | Ok (tc', inl _) => ext tc tc' /\ cache_ok tc'
  | Panic => False
  | NoFuel => True
  end.

Lemma gspec_ret {A} (a : A) Q tc : cache_ok tc -> Q tc a -> gspec (gret a) Q tc.
Proof. intros H HQ. unfold gspec. simpl. split; [done|]. split; [done|]. by split; [apply filled_refl|]. Qed.

Lemma gspec_fail {A} e (Q : cache -> A -> Prop) tc : cache_ok tc -> gspec (gfail e) Q tc.
Proof. intros H. unfold gspec. simpl. by split. Qed.

Lemma gspec_bind {A B} (m : G A) (k : A -> G B) Q R tc :
  gspec m Q tc -> (forall tc' a, ext tc tc' -> cache_ok tc' -> Q tc' a -> gspec (k a) R tc') ->
  gspec (gbind m k) R tc.
Proof.
  unfold gspec, gbind. intros Hm Hk. destruct (m tc) as [[tc1 [e|a]]| |]; try done.
  destruct Hm as (E1 & O1 & F1 & HQ). specialize (Hk tc1 a E1 O1 HQ).
  destruct (k a tc1) as [[tc2 [e|b]]| |]; try done.
  - destruct Hk as (E2 & O2). split; [by etrans|done].
  - destruct Hk as (E2 & O2 & F2 & HR). split; [by etrans|]. split; [done|].
    split; [by eapply filled_trans|done].
Qed.

Section Makers.
Context (rec : typ -> tags -> G loc).
Context (Hrec : forall t ts tc, cache_ok tc -> gspec (rec t ts) (fun tc l => points tc l (t, ts)) tc).

Lemma gspec_rec {B} t ts (k : loc -> G B) R tc : cache_ok tc ->
  (forall tc' l, ext tc tc' -> cache_ok tc' -> points tc' l (t, ts) -> gspec (k l) R tc') ->
  gspec (gbind (rec t ts) k) R tc.
Proof. intros H Hk. eapply gspec_bind; [by apply Hrec|]. done. Qed.

Lemma structFields_ok t n sfs fs i tc : cache_ok tc -> drop i sfs = fs ->
  gspec (structFields_from env rec t n i fs) (fun tc => Forall (field_points tc sfs)) tc.
Proof.
  revert i tc. induction fs as [|f fs IH]; intros i tc Hok Hd; simpl; [by apply gspec_ret|].
  assert (sfs !! i = Some f) as Hi by (rewrite <-(Nat.add_0_r i), <-lookup_drop, Hd; done).
  assert (drop (S i) sfs = fs) as Hd' by (rewrite (drop_S _ _ _ Hi) in Hd; by injection Hd).
  destruct (Exported f); [|by apply IH].
  destruct (parseStructTag env t n i f) as [e|ts]; [by apply gspec_fail|].
  destruct (ignored ts); [by apply IH|].
  apply gspec_rec; [done|]. intros tc1 l E1 O1 Hl. eapply gspec_bind; [by apply IH|].
  intros tc2 fields E2 O2 HF. apply gspec_ret; [done|]. constructor; [|done].
  exists f, ts. split; [done|]. by eapply points_ext.
Qed.

Lemma makeListDecoder_ok t e (arr : bool) ts tc : cache_ok tc ->
  kind_of env t = (if arr then KArray (match kind_of env t with KArray n _ => n | _ => 0%nat end) e else KSlice e) ->
  gspec (makeListDecoder env rec e arr ts) (fun tc => good_decoder tc t ts) tc.
Proof.
  intros Hok Hk. unfold makeListDecoder.
  assert (byte_elem e = false -> gspec (let! l := rec e no_tags in
    gret (if arr then DListArray l else if tail ts then DSliceElems l else DListSlice l))
    (fun tc => good_decoder tc t ts) tc) as Hl.
  { intros Hb. apply gspec_rec; [done|]. intros tc1 l E1 O1 Hp. apply gspec_ret; [done|].
    destruct arr; [simpl; eauto 7|]. destruct (tail ts) eqn:Ht; simpl; eauto 7. }
  unfold byte_elem in Hl. destruct (kind_of env e) as [|[]| | | | | | |] eqn:Ke; try (by apply Hl).
  destruct (ImplementsDecoder env (TPtr e)) eqn:Ki; [by apply Hl|].
  apply gspec_ret; [done|]. destruct arr; simpl; unfold byte_elem; [do 2 eexists|eexists];
    (split; [exact Hk|by rewrite Ke, Ki]).
Qed.

Lemma makeDecoder_ok t ts tc : cache_ok tc -> gspec (makeDecoder env rec t ts) (fun tc => good_decoder tc t ts) tc.
Proof.
  intros Hok. unfold makeDecoder.
  case_bool_decide; [by apply gspec_ret|].
  destruct (ImplementsDecoder env t) eqn:?; [by apply gspec_ret|].
  destruct (negb _ && _) eqn:Hn; [apply andb_true_iff in Hn as [_ ?]; by apply gspec_ret|].
  destruct (AssignableToBigPtr env t) eqn:?; [by apply gspec_ret|].
  unfold AssignableToBig. case_bool_decide; [by apply gspec_ret|].
  destruct (kind_of env t) as [|w| |e|n e|fs|e|m|] eqn:Hk; try (apply gspec_ret; simpl; by eauto).
  - apply (makeListDecoder_ok t e false); [done|by rewrite Hk].
  - apply (makeListDecoder_ok t e true); [done|by rewrite Hk].
  - unfold makeStructDecoder, structFields. rewrite Hk.
    eapply gspec_bind; [by apply (structFields_ok _ _ fs)|]. intros tc1 fields _ O1 HF.
    apply gspec_ret; [done|]. simpl. eauto.
  - destruct (nilOK ts) eqn:?; apply gspec_rec; try done; intros tc1 l _ O1 Hp;
      (apply gspec_ret; [done|simpl; eauto]).
  - by apply gspec_fail.
Qed.

Lemma makeSliceWriter_ok t e ts tc : cache_ok tc -> isByte env e = false ->
  (kind_of env t = KSlice e \/ exists n, kind_of env t = KArray n e) ->
  gspec (makeSliceWriter rec e ts) (fun tc => good_writer tc t ts) tc.
Proof.
  intros Hok Hb Hk. apply gspec_rec; [done|]. intros tc1 l _ O1 Hp. apply gspec_ret; [done|].
  simpl. split; [done|]. eauto.
Qed.

Lemma makeWriter_ok t ts tc : cache_ok tc -> gspec (makeWriter env rec t ts) (fun tc => good_writer tc t ts) tc.
Proof.
  intros Hok. unfold makeWriter.
  case_bool_decide; [by apply gspec_ret|].
  destruct (ImplementsEncoder env t) eqn:?; [by apply gspec_ret|].
  destruct (negb _ && _) eqn:Hn; [apply andb_true_iff in Hn as [_ ?]; by apply gspec_ret|].
  assert (forall g : G writer, (AssignableToBigPtr env t = false -> t <> TBigInt ->
      gspec g (fun tc => good_writer tc t ts) tc) ->
    gspec (if AssignableToBigPtr env t then gret WBigIntPtr
           else if AssignableToBig t then gret WBigIntNoPtr else g) (fun tc => good_writer tc t ts) tc) as Hbig.
  { intros g Hg. destruct (AssignableToBigPtr env t) eqn:?; [by apply gspec_ret|].
    unfold AssignableToBig. case_bool_decide; [by apply gspec_ret|]. by apply Hg. }
  destruct (kind_of env t) as [|w| |e|n e|fs|e|m|] eqn:Hk; try apply Hbig; intros;
    try (apply gspec_ret; simpl; by eauto).
  - destruct (isByte env e) eqn:?; [apply gspec_ret; simpl; by eauto|apply (makeSliceWriter_ok t); auto].
  - destruct (isByte env e) eqn:?; [apply gspec_ret; simpl; by eauto|apply (makeSliceWriter_ok t); eauto].
  - unfold makeStructWriter, structFields. rewrite Hk.
    eapply gspec_bind; [by apply (structFields_ok _ _ fs)|]. intros tc1 fields _ O1 HF.
    apply gspec_ret; [done|]. simpl. eauto.
  - apply gspec_rec; [done|]. intros tc1 l _ O1 Hp. apply gspec_ret; [done|]. simpl. eauto.
  - by apply gspec_fail.
Qed.

End Makers.

Lemma field_points_ext tc tc' sfs fields :
  (forall l k, points tc l k -> points tc' l k) ->
  Forall (field_points tc sfs) fields -> Forall (field_points tc' sfs) fields.
Proof.
  intros H F. eapply Forall_impl; [exact F|]. intros f (sf & ts & ? & ?). exists sf, ts. eauto.
Qed.

Lemma good_decoder_ext tc tc' t ts d :
  (forall l k, points tc l k -> points tc' l k) -> good_decoder tc t ts d -> good_decoder tc' t ts d.
Proof.
  intros H. pose proof (fun sfs fields => field_points_ext tc tc' sfs fields H) as HF.
  destruct d; simpl; naive_solver.
Qed.

Lemma good_info_ext tc tc' k info :
  (forall l k, points tc l k -> points tc' l k) -> good_info tc k info -> good_info tc' k info.
Proof.
  intros H [D W]. split; [by eapply good_decoder_ext|].
  pose proof (fun sfs fields => field_points_ext tc tc' sfs fields H) as HF.
  destruct (iwriter info); simpl in *; naive_solver.
Qed.

Lemma genTypeInfo_ok rec t ts tc :
  (forall t ts tc, cache_ok tc -> gspec (rec t ts) (fun tc l => points tc l (t, ts)) tc) -> cache_ok tc ->
  gspec (genTypeInfo env rec t ts) (fun tc => good_info tc (t, ts)) tc.
Proof.
  intros Hrec Hok. eapply gspec_bind; [by apply makeDecoder_ok|]. intros tc1 d E1 O1 Hd.
  eapply gspec_bind; [by apply makeWriter_ok|]. intros tc2 w E2 O2 Hw. apply gspec_ret; [done|].
  split; [|done]. eapply good_decoder_ext; [|exact Hd]. intros l k. by apply points_ext.
Qed.

(** ** The allocation, the failure and the success of a generation *)

Lemma points_alloc k l k' tc : points tc l k' -> points (fst (allocate k tc)) l k'.
Proof. intros (c & Hc & Ho). exists c. simpl. by rewrite (lookup_app_l_Some _ _ _ _ Hc). Qed.

Lemma points_self k tc : points (fst (allocate k tc)) (length (structs tc)) k.
Proof. eexists. simpl. by rewrite lookup_app_r, Nat.sub_diag by lia. Qed.

Lemma allocate_ok k tc : typeCache tc !! k = None -> cache_ok tc ->
  cache_ok (fst (allocate k tc)) /\ ext tc (fst (allocate k tc)).
Proof.
  intros Hn [H1 H2]. split; split; simpl.
  - intros k' l [(<- & <-)|(_ & Hl)]%lookup_insert_Some; [apply points_self|by apply points_alloc, H1].
  - intros l c info [Hl|(_ & Hl)]%lookup_app_Some Hc.
    + eapply good_info_ext; [intros ? ?; apply points_alloc|by eapply H2].
    + apply list_lookup_singleton_Some in Hl as [_ <-]. done.
  - by apply insert_subseteq.
  - intros l c Hc. by rewrite (lookup_app_l_Some _ _ _ _ Hc).
Qed.

Lemma forget_ok k tc tc' : typeCache tc !! k = None -> ext tc tc' -> cache_ok tc' ->
  ext tc (forget k tc') /\ cache_ok (forget k tc').
Proof.
  intros Hn [E1 E2] [H1 H2]. split; split; simpl; try done.
  - apply map_subseteq_spec. intros k' l Hl. rewrite lookup_delete_ne by congruence.
    by eapply lookup_weaken.
  - intros k' l Hl. apply lookup_delete_Some in Hl as [_ Hl]. by apply H1.
Qed.

Lemma store_ok k info tc tc1 :
  typeCache tc !! k = None -> ext (fst (allocate k tc)) tc1 -> cache_ok tc1 ->
  filled (fst (allocate k tc)) tc1 -> good_info tc1 k info ->
  exists tc2, store k info tc1 = Ok (tc2, length (structs tc)) /\
    ext tc tc2 /\ cache_ok tc2 /\ filled tc tc2 /\ points tc2 (length (structs tc)) k.
Proof.
  intros Hn E [H1 H2] F Hg. pose proof E as [E1 E2]. set (l0 := length (structs tc)).
  assert (typeCache tc1 !! k = Some l0) as Hk.
  { eapply lookup_weaken; [|exact E1]. simpl. apply lookup_insert_eq. }
  assert (structs tc1 !! l0 = Some {| owner := k; content := None |}) as Hl0.
  { apply E2. simpl. by rewrite lookup_app_r, Nat.sub_diag by lia. }
  pose proof (lookup_lt_Some _ _ _ Hl0) as Hlt.
  unfold store. rewrite Hk. eexists. split; [done|].
  assert (forall l k', points tc1 l k' -> points {| typeCache := typeCache tc1;
    structs := <[l0:={| owner := k; content := Some info |}]> (structs tc1) |} l k') as HP.
  { intros l k' (c & Hc & Ho). unfold points. simpl. destruct (decide (l = l0)) as [->|Hne].
    - rewrite Hl0 in Hc. injection Hc as <-. simpl in Ho. subst k'. rewrite list_lookup_insert_eq by done. eauto.
    - rewrite list_lookup_insert_ne by done. eauto. }
  split; [|split; [|split]].
  - split; simpl.
    + etrans; [|exact E1]. simpl. by apply insert_subseteq.
    + intros l c Hc. pose proof (lookup_lt_Some _ _ _ Hc). rewrite list_lookup_insert_ne by (unfold l0; lia).
      apply E2. simpl. by rewrite (lookup_app_l_Some _ _ _ _ Hc).
  - split; simpl.
    + intros k' l Hl. by apply HP, H1.
    + intros l c info' Hc Hi. eapply good_info_ext; [exact HP|].
      destruct (decide (l = l0)) as [->|Hne].
      * rewrite list_lookup_insert_eq in Hc by done. injection Hc as <-. simpl in *. by injection Hi as <-.
      * rewrite list_lookup_insert_ne in Hc by done. by eapply H2.
  - intros l c Hc Hl. simpl in Hc. destruct (decide (l = l0)) as [->|Hne].
    + rewrite list_lookup_insert_eq in Hc by done. by injection Hc as <-.
    + rewrite list_lookup_insert_ne in Hc by done. apply (F l c Hc). simpl. rewrite length_app. simpl.
      unfold l0 in Hne. lia.
  - apply HP. eexists. by split.
Qed.

Lemma cachedTypeInfo1_ok fuel t ts tc : cache_ok tc ->
  gspec (cachedTypeInfo1 env fuel t ts) (fun tc l => points tc l (t, ts)) tc.
Proof.
  revert t ts tc. induction fuel as [|fuel IH]; intros t ts tc Hok; [done|].
  unfold gspec. simpl. destruct (typeCache tc !! (t, ts)) as [l|] eqn:E.
  - split; [done|]. split; [done|]. split; [apply filled_refl|]. by apply (ok_index tc Hok).
  - destruct (allocate_ok (t, ts) tc E Hok) as [Hok0 E0].
    pose proof (genTypeInfo_ok (cachedTypeInfo1 env fuel) t ts _ IH Hok0) as Hg. unfold gspec in Hg.
    simpl in Hg. destruct (genTypeInfo _ _ _ _ _) as [[tc1 [e|info]]| |]; try done.
    + destruct Hg as [E1 O1]. apply forget_ok; [done| |done]. by etrans.
    + destruct Hg as (E1 & O1 & F1 & HG).
      destruct (store_ok (t, ts) info tc tc1 E E1 O1 F1 HG) as (tc2 & -> & ? & ? & ? & ?). done.
Qed.

Lemma cachedTypeInfo_ok fuel t ts tc : cache_ok tc ->
  gspec (cachedTypeInfo env fuel t ts) (fun tc l => points tc l (t, ts)) tc.
Proof.
  intros Hok. unfold cachedTypeInfo. pose proof (cachedTypeInfo1_ok fuel t ts tc Hok) as H.
  unfold gspec in *. destruct (typeCache tc !! (t, ts)) as [l|] eqn:E; [|done].
  split; [done|]. split; [done|]. split; [apply filled_refl|]. by apply (ok_index tc Hok).
Qed.

(** No entry is unfinished: the state between two successful generations. *)
Definition complete (tc : cache) : Prop := filled empty_cache tc.

Lemma complete_step tc tc' : complete tc -> ext tc tc' -> filled tc tc' -> complete tc'.
Proof. intros C E F. by eapply filled_trans. Qed.

(** In such a cache a pointer leads to functions that fit. *)
Lemma info_at_points tc l k : cache_ok tc -> complete tc -> points tc l k ->
  exists info, info_at tc l = Ok info /\ good_info tc k info.
Proof.
  intros Hok C (c & Hc & <-). destruct (content c) as [info|] eqn:E.
  - exists info. split; [|by eapply ok_infos]. unfold info_at. rewrite Hc. destruct c. simpl in E. by subst.
  - destruct (C l c Hc); [simpl; lia|done].
Qed.

End Sound.
End RlpCache.
