(* ===== verification/RlpTyped.v ===== *)
(** * RLP: decoding keeps the type of its target

    [typed env t v] says that [v] is a value of the Go type [t]: integers in
    range, arrays of the declared length, struct fields of the declared types.
    A decoder of a sound cache leaves a value of the same type in its target,
    whatever the input, also when it stops with an error half-way
    ([run_decoder_typed]). *)

From Stdlib Require Import String Lia.
From stdpp Require Import base list numbers option strings gmap.
From S2P Require Import Prelude BigInt RlpTypes RlpEncode RlpDecode RlpSpec RlpStream RlpCanon RlpCache.

#[local] Open Scope Z_scope.
#[local] Open Scope go_scope.

Module RlpTyped.
Import RlpTypes RlpDecode RlpCache.

(** ** Streams over bytes *)

Definition st_ok (s : Stream) : Prop := bytes_ok (data (r s)) /\ byte_ok (byteval s).

Lemma willRead_st n s s' e : willRead n s = (s', e) -> st_ok s -> st_ok s'.
Proof.
  unfold willRead. intros H [? ?]. destruct (stack (rearm s)) as [|t st]; cbv beta iota zeta in H;
    repeat split_if; injection H as <- <-; by split.
Qed.

Lemma readByte_st s s' res : readByte s = (s', res) -> st_ok s ->
  st_ok s' /\ forall b, res = inr b -> byte_ok b.
Proof.
  unfold readByte. destruct (willRead 1 s) as [s1 e] eqn:E. intros H Hs.
  pose proof (willRead_st _ _ _ _ E Hs) as Hs1. destruct e; [injection H as <- <-; done|].
  destruct (data (r s1)) as [|b rest] eqn:Ed; injection H as <- <-; [done|].
  destruct Hs1 as [H1 H2]. rewrite Ed in H1. apply bytes_ok_cons in H1 as [??].
  split; [by split|]. by intros ? [= <-].
Qed.

Lemma readFull_st n s s' got e : readFull n s = (s', (got, e)) -> st_ok s ->
  st_ok s' /\ bytes_ok got /\ (length got <= Z.to_nat n)%nat /\ (e = None -> len got = Z.max 0 n).
Proof.
  unfold readFull. destruct (willRead n s) as [s1 e1] eqn:E. intros H Hs.
  pose proof (willRead_st _ _ _ _ E Hs) as [H1 H2].
  destruct e1;
    [injection H as <- <- <-; split; [by split|]; split; [constructor|]; split; [simpl; lia|done]|].
  assert (st_ok (set_data (drop (Z.to_nat n) (data (r s1))) s1)) as Hs' by (split; [by apply bytes_ok_drop|done]).
  assert (bytes_ok (take (Z.to_nat n) (data (r s1)))) by by apply bytes_ok_take.
  destruct (Z.ltb_spec (len (data (r s1))) n); [|split_if]; injection H as <- <- <-;
    (split; [done|]); (split; [done|]); (split; [rewrite length_take; lia|]); try done.
  intros _. rewrite len_take. pose proof (len_nonneg (data (r s1))). lia.
Qed.

Lemma readUint_st n s s' res : readUint n s = (s', res) -> st_ok s ->
  st_ok s' /\ forall v, res = inr v -> 0 <= v < 256 ^ Z.max 0 n.
Proof.
  unfold readUint. intros H Hs. destruct (Z.eqb_spec n 0) as [->|Hn].
  { injection H as <- <-. split; [done|]. intros ? [= <-]. simpl. lia. }
  destruct (Z.eqb_spec n 1) as [->|Hn1].
  { destruct (readByte_st _ _ _ H Hs) as [? Hb]. split; [done|]. intros v Hv. apply Hb in Hv.
    unfold byte_ok in Hv. change (256 ^ Z.max 0 1) with 256. lia. }
  destruct (readFull n s) as [s1 [got e]] eqn:E.
  destruct (readFull_st _ _ _ _ _ E Hs) as (H1 & H2 & H3 & H4).
  destruct e; [by injection H as <- <-|].
  assert (forall v, v = Big.SetBytes (zeros (8 - n) ++ got) -> 0 <= v < 256 ^ Z.max 0 n) as Hv.
  { intros v ->. rewrite RlpStream.SetBytes_zeros, <-(H4 eq_refl). by apply Big.SetBytes_bound. }
  destruct got as [|x got]; [|destruct x]; injection H as <- <-; (split; [done|]); intros v [= <-]; by apply Hv.
Qed.

Lemma readKind_st s s' k n e : readKind s = (s', (k, n, e)) -> st_ok s -> st_ok s'.
Proof.
  unfold readKind. destruct (readByte s) as [s1 [err|b]] eqn:E; intros H Hs;
    destruct (readByte_st _ _ _ E Hs) as [[H1 H2] Hb]; [by injection H as <- _ _ _|].
  specialize (Hb b eq_refl).
  assert (st_ok (set_byteval 0 s1)) as H0 by (split; [done|unfold byte_ok; simpl; lia]).
  assert (forall m, match readUint m (set_byteval 0 s1) with
    | (s2, inl err) => st_ok s2 | (s2, inr _) => st_ok s2 end) as Hl.
  { intros m. destruct (readUint m _) as [s2 [?|?]] eqn:Eu; by apply (readUint_st _ _ _ _ Eu). }
  repeat split_if; try (injection H as <- _ _ _; done).
  all: match type of H with context [readUint ?m ?s] => specialize (Hl m); destruct (readUint m s) as [s2 [?|?]] end;
    injection H as <- _ _ _; done.
Qed.

Lemma StreamKind_st s s' res : StreamKind s = (s', res) -> st_ok s -> st_ok s'.
Proof.
  unfold StreamKind. intros H Hs. destruct (kind s); [by injection H as <- _|].
  destruct (readKind (set_kinderr None s)) as [s1 [[k n] e]] eqn:E.
  pose proof (readKind_st _ _ _ _ _ E Hs) as [H1 H2].
  assert (forall x : option error, st_ok (set_kinderr x (set_kinderr e (set_size n (set_kind (Some k) s1))))) by by split.
  destruct (stack (set_kinderr None s)); [|split_if; [injection H as <- _; done|]];
    (destruct e; [injection H as <- _; done|]); simpl in H;
    (destruct (stack s1); split_if; injection H as <- _; done).
Qed.

Lemma Bytes_st s s' res : Bytes s = Ok (s', res) -> st_ok s -> st_ok s' /\ forall b, res = inr b -> bytes_ok b.
Proof.
  unfold Bytes. destruct (StreamKind s) as [s1 [err|[k n]]] eqn:E; intros H Hs;
    pose proof (StreamKind_st _ _ _ E Hs) as H1; [by injection H as <- <-|].
  destruct k.
  - injection H as <- <-. split; [done|]. intros b [= <-]. constructor; [apply H1|constructor].
  - split_if; [done|]. destruct (readFull n s1) as [s2 [got e]] eqn:Ef.
    destruct (readFull_st _ _ _ _ _ Ef H1) as (H2 & H3 & _). destruct e; [by injection H as <- <-|].
    injection H as <- <-. split; [done|]. intros b Hb. destruct got as [|x [|y got]]; try split_if; by simplify_eq.
  - by injection H as <- <-.
Qed.

Lemma uint_st bits s s' res : uint bits s = (s', res) -> st_ok s -> 8 <= bits -> bits mod 8 = 0 ->
  st_ok s' /\ forall v, res = inr v -> 0 <= v < 2 ^ bits.
Proof.
  intros H Hs H8 Hm. assert (256 ^ 1 <= 2 ^ bits) as Hp.
  { rewrite Big.pow_256 by lia. apply Z.pow_le_mono_r; lia. }
  unfold uint in H. destruct (StreamKind s) as [s1 [err|[k n]]] eqn:E;
    pose proof (StreamKind_st _ _ _ E Hs) as H1; [by injection H as <- <-|].
  destruct k.
  - split_if; injection H as <- <-; (split; [done|]); [done|]. intros v [= <-].
    destruct H1 as [_ Hb]. unfold byte_ok in Hb. simpl. lia.
  - rewrite Z.gtb_ltb in H. destruct (Z.ltb_spec (bits / 8) n); [by injection H as <- <-|].
    destruct (readUint n s1) as [s2 res2] eqn:Eu. destruct (readUint_st _ _ _ _ Eu H1) as [H2 H3].
    assert (forall v, res2 = inr v -> 0 <= v < 2 ^ bits) as Hv.
    { intros v ->. specialize (H3 v eq_refl). rewrite Big.pow_256 in H3 by lia.
      assert (2 ^ (8 * Z.max 0 n) <= 2 ^ bits) by (apply Z.pow_le_mono_r; [lia|]; pose proof (Z.div_mod bits 8); lia). lia. }
    destruct res2 as [e|v]; [destruct e; by injection H as <- <-|]. injection H as <- <-. split; [done|].
    intros v'. split_if; [done|]. intros [= <-]. by apply Hv.
  - by injection H as <- <-.
Qed.

Lemma StreamList_st s s' res : StreamList s = (s', res) -> st_ok s -> st_ok s'.
Proof.
  unfold StreamList. destruct (StreamKind s) as [s1 [err|[k n]]] eqn:E; intros H Hs;
    pose proof (StreamKind_st _ _ _ E Hs) as H1; [by injection H as <- _|].
  destruct k; by injection H as <- _.
Qed.

Lemma ListEnd_st s s' e : ListEnd s = (s', e) -> st_ok s -> st_ok s'.
Proof. unfold ListEnd. destruct (stack s); [|split_if]; intros H Hs; by injection H as <- _. Qed.

(** ** Headers written in place *)

Lemma update_bytes b i x b' : update b i x = Ok b' -> bytes_ok b -> byte_ok x -> bytes_ok b'.
Proof. unfold update. split_if; [|done]. intros [= <-] ??. by apply Forall_insert. Qed.

Lemma byte_bound x : byte_ok (RlpEncode.byte x).
Proof. apply Z.mod_pos_bound. lia. Qed.

Lemma assign_from_bytes l b i b' :
  RlpEncode.assign_from b i l = Ok b' -> bytes_ok b -> bytes_ok l -> bytes_ok b'.
Proof.
  revert b i. induction l as [|x l IH]; simpl; intros b i; [by intros [= <-]|].
  intros (b1 & Hb & H)%rbind_Ok_inv ? [? ?]%bytes_ok_cons. eapply IH; [done| |done]. by eapply update_bytes.
Qed.

Lemma putint_bytes b i b' n : RlpEncode.putint b i = Ok (b', n) -> bytes_ok b -> bytes_ok b'.
Proof.
  intros H Hb. assert (exists l, RlpEncode.put b l = Ok (b', n) /\ bytes_ok l) as (l & Hl & Hok).
  { unfold RlpEncode.putint in H. repeat split_if; eexists; (split; [exact H|]);
      repeat constructor; try apply byte_bound; apply Z.mod_pos_bound; lia. }
  unfold RlpEncode.put in Hl. apply rbind_Ok_inv in Hl as (b1 & H1 & [= <- _]). by eapply assign_from_bytes.
Qed.

Lemma puthead_bytes b s l n b' m : RlpEncode.puthead b s l n = Ok (b', m) -> bytes_ok b -> bytes_ok b'.
Proof.
  unfold RlpEncode.puthead. split_if.
  - intros (b1 & H1 & [= <- _])%rbind_Ok_inv ?. eapply update_bytes; [done|done|apply byte_bound].
  - intros ([b1 k] & H1 & (b2 & H2 & [= <- _])%rbind_Ok_inv)%rbind_Ok_inv Hb.
    eapply update_bytes; [done| |apply byte_bound]. unfold RlpEncode.putint1 in H1.
    apply rbind_Ok_inv in H1 as (r1 & Hr & ([r2 k2] & Hp & [= <- _])%rbind_Ok_inv).
    apply bytes_ok_app. split; [by apply bytes_ok_take|]. eapply putint_bytes; [done|].
    by eapply bytes_ok_slice.
Qed.

Lemma Raw_st s s' res : Raw s = Ok (s', res) -> st_ok s -> st_ok s' /\ forall b, res = inr b -> bytes_ok b.
Proof.
  unfold Raw. destruct (StreamKind s) as [s1 [err|[k n]]] eqn:E; intros H Hs;
    pose proof (StreamKind_st _ _ _ E Hs) as H1; [by injection H as <- <-|].
  assert (forall tag ltag, (let start := RlpEncode.headsize n in
      let total := u64 (u64 start + n) in
      if (maxAlloc <? total) || (total <? start) then Panic else
      match readFull (total - start) s1 with
      | (s, (_, Some err)) => Ok (s, inl err)
      | (s, (content, None)) =>
          let? (buf, _) := RlpEncode.puthead (zeros start ++ content) tag ltag n in Ok (s, inr buf)
      end) = Ok (s', res) -> st_ok s' /\ forall b, res = inr b -> bytes_ok b) as Hc.
  { intros tag ltag Hr. cbv zeta in Hr. split_if; [done|].
    destruct (readFull _ s1) as [s2 [got e]] eqn:Ef. destruct (readFull_st _ _ _ _ _ Ef H1) as (H2 & H3 & _).
    destruct e; [by injection Hr as <- <-|].
    apply rbind_Ok_inv in Hr as ([buf m] & Hp & [= <- <-]). split; [done|]. intros b [= <-].
    eapply puthead_bytes; [done|]. apply bytes_ok_app. split; [apply bytes_ok_zeros|done]. }
  destruct k; [|by apply (Hc 128 183)|by apply (Hc 192 247)].
  injection H as <- <-. split; [done|]. intros b [= <-]. constructor; [apply H1|constructor].
Qed.

(** ** Values of a type *)

Section Typed.
Context (env : gmap string decl).

Definition is_u8 (e : typ) : bool := match kind_of env e with KUint W8 => true | _ => false end.

Inductive typed : typ -> val -> Prop :=
| ty_bool t b : kind_of env t = KBool -> typed t (VBool b)
| ty_uint t w n : kind_of env t = KUint w -> 0 <= n < 2 ^ Bits w -> typed t (VUint n)
| ty_string t s : kind_of env t = KString -> bytes_ok s -> typed t (VString s)
| ty_bytes t e b : kind_of env t = KSlice e -> is_u8 e = true -> bytes_ok b -> typed t (VBytes b)
| ty_byte_array t e b : kind_of env t = KArray (length b) e -> is_u8 e = true -> bytes_ok b ->
    typed t (VBytes b)
| ty_slice t e l spare : kind_of env t = KSlice e -> is_u8 e = false ->
    (forall v, v ∈ l ++ spare -> typed e v) -> typed t (VSlice l spare)
| ty_array t e l : kind_of env t = KArray (length l) e -> is_u8 e = false ->
    (forall v, v ∈ l -> typed e v) -> typed t (VArray l)
| ty_big z : typed TBigInt (VBig z)
| ty_struct t sfs vs : kind_of env t = KStruct sfs -> t <> TBigInt -> length vs = length sfs ->
    (forall i f v, sfs !! i = Some f -> vs !! i = Some v -> typed (Type' f) v) -> typed t (VStruct vs)
| ty_ptr t e p : kind_of env t = KPtr e -> (forall v, p = Some v -> typed e v) -> typed t (VPtr p)
| ty_iface t m p : kind_of env t = KInterface m ->
    (forall et v, p = Some (et, v) -> typed et v) -> typed t (VIface p)
| ty_other t : kind_of env t = KOther -> typed t VOther.

Lemma rmap_length {A B} (f : A -> result B) l bs : rmap f l = Ok bs -> length bs = length l.
Proof.
  revert bs. induction l as [|a l IH]; simpl; intros bs; [by intros [= <-]|].
  intros (b & _ & (bs' & Hbs & [= <-])%rbind_Ok_inv)%rbind_Ok_inv. simpl. by rewrite (IH bs').
Qed.

Lemma rmap_lookup {A B} (f : A -> result B) l bs i a b :
  rmap f l = Ok bs -> l !! i = Some a -> bs !! i = Some b -> f a = Ok b.
Proof.
  revert bs i. induction l as [|x l IH]; simpl; intros bs i; [done|].
  intros (y & Hy & (bs' & Hbs & [= <-])%rbind_Ok_inv)%rbind_Ok_inv. destruct i; simpl; [naive_solver|].
  by apply IH.
Qed.

Lemma is_u8_if {A} e (a b : A) :
  match kind_of env e with KUint W8 => a | _ => b end = if is_u8 e then a else b.
Proof. unfold is_u8. by destruct (kind_of env e) as [|[]| | | | | | |]. Qed.

Lemma Zero_typed fuel t z : Zero env fuel t = Ok z -> typed t z.
Proof.
  revert t z. induction fuel as [|fuel IH]; intros t z; simpl; [done|].
  destruct (kind_of env t) as [|w| |e|n e|fs|e|m|] eqn:Hk.
  - intros [= <-]. by constructor.
  - intros [= <-]. eapply ty_uint; [done|]. destruct w; simpl; lia.
  - intros [= <-]. constructor; [done|constructor].
  - rewrite is_u8_if. intros [= <-]. destruct (is_u8 e) eqn:He.
    + by eapply ty_bytes; [done..|constructor].
    + eapply ty_slice; [done..|]. intros v Hv. by apply elem_of_nil in Hv.
  - rewrite is_u8_if. destruct (is_u8 e) eqn:He.
    + intros [= <-]. eapply ty_byte_array; [by rewrite length_replicate|done|].
      apply Forall_replicate. unfold byte_ok. lia.
    + intros (z' & Hz & [= <-])%rbind_Ok_inv. eapply ty_array; [by rewrite length_replicate|done|].
      intros v [-> _]%elem_of_replicate. by apply IH.
  - case_bool_decide; [intros [= <-]; subst; constructor|].
    intros (zs & Hzs & [= <-])%rbind_Ok_inv. eapply ty_struct; [done|done|by eapply rmap_length|].
    intros i f v Hf Hv. apply IH. by apply (rmap_lookup _ _ _ _ _ _ Hzs Hf Hv).
  - intros [= <-]. by eapply ty_ptr.
  - intros [= <-]. by eapply ty_iface.
  - intros [= <-]. by constructor.
Qed.

(** A decoder for values of type [t]. *)
Definition keeps (t : typ) (dec : Stream -> val -> D) : Prop := forall s old s' v err,
  dec s old = Ok (s', v, err) -> st_ok s -> typed t old -> st_ok s' /\ typed t v.

Lemma decodeUint_keeps t w : kind_of env t = KUint w -> keeps t (decodeUint t w).
Proof.
  intros Hk s old s' v err. unfold decodeUint. destruct (uint (Bits w) s) as [s1 res] eqn:E. intros H Hs Ho.
  destruct (uint_st _ _ _ _ E Hs) as [H1 H2]; [by destruct w..|].
  destruct res as [e|n]; injection H as <- <- _; [done|]. split; [done|]. by eapply ty_uint; [|apply H2].
Qed.

Lemma decodeBool_keeps t : kind_of env t = KBool -> keeps t (decodeBool t).
Proof.
  intros Hk s old s' v err. unfold decodeBool, StreamBool. destruct (uint 8 s) as [s1 res] eqn:E. intros H Hs Ho.
  destruct (uint_st _ _ _ _ E Hs) as [H1 _]; [done..|].
  destruct res as [e|n]; [injection H as <- <- _; done|].
  destruct n as [|[]|]; injection H as <- <- _; (split; [done|]); try done; by constructor.
Qed.

Lemma bytes_keeps t (f : list Z -> val) (dec : Stream -> val -> D) :
  (forall s old, dec s old = let? (s, res) := Bytes s in
     match res with inl err => keep s old (wrapStreamError err t) | inr b => done s (f b) end) ->
  (forall b, bytes_ok b -> typed t (f b)) -> keeps t dec.
Proof.
  intros Hd Hf s old s' v err H Hs Ho. rewrite Hd in H. apply rbind_Ok_inv in H as ([s1 res] & E & H).
  destruct (Bytes_st _ _ _ E Hs) as [H1 H2].
  destruct res as [e|b]; injection H as <- <- _; [done|]. split; [done|]. by apply Hf, H2.
Qed.

Lemma decodeBigInt_keeps : keeps (TPtr TBigInt) (decodeBigInt (TPtr TBigInt)).
Proof.
  intros s old s' v err H Hs Ho. unfold decodeBigInt in H. apply rbind_Ok_inv in H as ([s1 res] & E & H).
  destruct (Bytes_st _ _ _ E Hs) as [H1 _].
  destruct res as [e|b]; [injection H as <- <- _; done|].
  assert (typed (TPtr TBigInt) match old with VPtr None => VPtr (Some (VBig 0)) | _ => old end) as Ht.
  { destruct old as [| | | | |[]| | | | |]; try done. eapply ty_ptr; [done|]. intros ? [= <-]. constructor. }
  assert (forall z, typed (TPtr TBigInt) (VPtr (Some (VBig z)))) as Hz.
  { intros z. eapply ty_ptr; [done|]. intros ? [= <-]. constructor. }
  destruct b as [|[] b]; injection H as <- <- _; (split; [done|]); done.
Qed.

Lemma decodeByteArray_keeps t n e :
  kind_of env t = KArray n e -> is_u8 e = true -> keeps t (decodeByteArray t).
Proof.
  intros Hk He s old s' v err H Hs Ho.
  destruct old as [| | |arr| | | | | | |]; try done. unfold decodeByteArray in H.
  assert (forall b, length b = length arr -> bytes_ok b -> typed t (VBytes b)) as Hb.
  { intros b Hl Hb. inversion Ho; subst; [congruence|]. eapply ty_byte_array; [by rewrite Hl|done|done]. }
  assert (bytes_ok arr) as Harr by (inversion Ho; done).
  destruct (StreamKind s) as [s1 [er|[k m]]] eqn:E; pose proof (StreamKind_st _ _ _ E Hs) as H1;
    [injection H as <- <- _; done|].
  destruct k.
  - destruct arr as [|x [|y arr]]; try (injection H as <- <- _; done).
    destruct (Uint s1) as [s2 res] eqn:Eu. destruct (uint_st 64 _ _ _ Eu H1) as [H2 _]; [done..|].
    injection H as <- <- _. split; [done|]. apply Hb; [done|]. constructor; [|constructor].
    destruct res; [unfold byte_ok; lia|apply Z.mod_pos_bound; lia].
  - repeat (split_if; [injection H as <- <- _; done|]).
    destruct (readFull (len arr) s1) as [s2 [got er]] eqn:Ef.
    destruct (readFull_st _ _ _ _ _ Ef H1) as (H2 & H3 & _ & H4). destruct er as [er|].
    + injection H as <- <- _. split; [done|]. apply Hb; [|by apply bytes_ok_copy_into].
      pose proof (len_copy_into arr got). unfold len in *. lia.
    + assert (length got = length arr) as Hl by (specialize (H4 eq_refl); unfold len in *; lia).
      destruct got as [|x [|y got]]; [|split_if|]; injection H as <- <- _; (split; [done|]); by apply Hb.
  - injection H as <- <- _. done.
Qed.

(** ** Lists *)

Lemma u8_kind e : is_u8 e = true -> kind_of env e = KUint W8.
Proof. unfold is_u8. destruct (kind_of env e) as [|[]| | | | | | |]; done. Qed.

Lemma u8_uints e b : is_u8 e = true -> bytes_ok b -> Forall (typed e) (map VUint b).
Proof.
  intros He Hb. apply Forall_map. eapply Forall_impl; [exact Hb|]. intros x Hx.
  eapply ty_uint; [by apply u8_kind|]. simpl. unfold byte_ok in Hx. lia.
Qed.

Definition uint_of (v : val) : Z := match v with VUint n => n | _ => 0 end.

Lemma u8_back e l : is_u8 e = true -> Forall (typed e) l -> bytes_ok (map uint_of l).
Proof.
  intros He Hl. apply Forall_map. eapply Forall_impl; [exact Hl|]. intros v Hv. apply u8_kind in He.
  inversion Hv; subst; simpl; unfold byte_ok; try lia.
  assert (w = W8) as -> by congruence. simpl in *. lia.
Qed.

Lemma cells_typed t e old : kind_of env t = KSlice e -> typed t old ->
  exists l spare, cells_of old = Some (l, spare) /\ Forall (typed e) l /\ Forall (typed e) spare /\
    forall l' spare', Forall (typed e) l' -> Forall (typed e) spare' -> typed t (of_cells old l' spare').
Proof.
  intros Hk Ho. inversion Ho as [| | |? e' b Hk' He Hb|? ? b Hk'|? e' l sp Hk' He Hl| | |? ? ? Hk'| | |];
    subst; try congruence.
  - assert (e' = e) as -> by congruence. exists (map VUint b), []. split; [done|].
    split; [by apply u8_uints|]. split; [constructor|]. intros l' sp' Hl' _. simpl.
    eapply ty_bytes; [done|done|]. by apply (u8_back e).
  - assert (e' = e) as -> by congruence. exists l, sp. split; [done|].
    split; [apply Forall_forall; intros v Hv; apply Hl, elem_of_app; auto|].
    split; [apply Forall_forall; intros v Hv; apply Hl, elem_of_app; auto|].
    intros l' sp' Hl' Hsp'. simpl. eapply ty_slice; [done|done|].
    intros v [Hv|Hv]%elem_of_app; [exact (proj1 (Forall_forall _ _) Hl' v Hv)|exact (proj1 (Forall_forall _ _) Hsp' v Hv)].
  - exfalso. simpl in Hk. congruence.
Qed.

Section Elems.
Context (e : typ) (dec : Stream -> val -> D) (zero : val).
Context (Hdec : keeps e dec) (Hzero : typed e zero).

Lemma elems_keeps fuel i s l spare s' l' spare' err :
  decodeSliceElems_loop dec zero fuel i s l spare = Ok (s', (l', spare'), err) ->
  st_ok s -> Forall (typed e) l -> Forall (typed e) spare -> (i <= length l)%nat ->
  st_ok s' /\ Forall (typed e) l' /\ Forall (typed e) spare'.
Proof.
  revert i s l spare. induction fuel as [|fuel IH]; intros i s l spare H Hs Hl Hsp Hi; [done|]. simpl in H.
  destruct (RlpCanon.cell_ready zero (typed e) Hzero i l spare Hl Hsp Hi)
    as (l2 & s2 & old & E & Ei & Ho & Hl2 & Hs2 & _ & Hlen).
  destruct (grow zero i l spare) as [l1 s1]. simpl in E. rewrite E, Ei in H. cbn [rbind] in H.
  apply rbind_Ok_inv in H as ([[s3 v] er] & Ed & H). destruct (Hdec _ _ _ _ _ Ed Hs Ho) as [Hs3 Hv].
  assert (Forall (typed e) (<[i:=v]> l2)) as Hins by by apply Forall_insert.
  destruct er as [er|]; [|by eapply IH in H; [|done..|rewrite length_insert; lia]].
  destruct (decide (er = EOL)) as [->|Hne].
  - injection H as <- <- <- _. split; [done|]. split; [by apply Forall_take|].
    apply Forall_app. split; [by apply Forall_drop|done].
  - destruct er; try done; injection H as <- <- <- _; done.
Qed.

Lemma SliceElems_keeps fuel t : kind_of env t = KSlice e -> keeps t (decodeSliceElems dec zero fuel).
Proof.
  intros Hk s old s' v err H Hs Ho. unfold decodeSliceElems in H.
  destruct (cells_typed t e old Hk Ho) as (l & sp & E & Hl & Hsp & Hb). rewrite E in H.
  apply rbind_Ok_inv in H as ([[s1 [l1 sp1]] er] & El & [= <- <- _]).
  destruct (elems_keeps _ _ _ _ _ _ _ _ _ El Hs Hl Hsp ltac:(lia)) as (H1 & H2 & H3).
  split; [done|]. by apply Hb.
Qed.

Lemma ListSlice_keeps fuel t : kind_of env t = KSlice e -> keeps t (decodeListSlice dec zero fuel t).
Proof.
  intros Hk s old s' v err H Hs Ho. unfold decodeListSlice in H.
  destruct (StreamList s) as [s1 [er|n]] eqn:E; pose proof (StreamList_st _ _ _ E Hs) as H1;
    [injection H as <- <- _; done|].
  destruct (n =? 0).
  - destruct (ListEnd s1) as [s2 er] eqn:El. injection H as <- <- _.
    split; [by eapply ListEnd_st|]. destruct (cells_typed t e old Hk Ho) as (l & sp & _ & _ & _ & Hb).
    apply Hb; constructor.
  - apply rbind_Ok_inv in H as ([[s2 v2] er] & Ed & H).
    destruct (SliceElems_keeps fuel t Hk _ _ _ _ _ Ed H1 Ho) as [H2 Hv].
    destruct er; [injection H as <- <- _; done|]. destruct (ListEnd s2) as [s3 er] eqn:El.
    injection H as <- <- _. split; [by eapply ListEnd_st|done].
Qed.

End Elems.

Section ArrayElems.
Context (e : typ) (dec : Stream -> val -> D) (Hdec : keeps e dec).

Lemma array_loop_keeps after i s before s' l' err :
  decodeListArray_loop dec i s before after = Ok (s', l', err) ->
  st_ok s -> Forall (typed e) before -> Forall (typed e) after ->
  st_ok s' /\ Forall (typed e) l' /\ length l' = (length before + length after)%nat.
Proof.
  revert i s before. induction after as [|old after IH]; intros i s before H Hs Hb Ha; simpl in H.
  - injection H as <- <- _. split; [done|]. split; [done|]. simpl. lia.
  - apply Forall_cons in Ha as [Ho Ha]. apply rbind_Ok_inv in H as ([[s1 v] er] & Ed & H).
    destruct (Hdec _ _ _ _ _ Ed Hs Ho) as [Hs1 Hv].
    assert (Forall (typed e) (before ++ v :: after)) as Hall by (apply Forall_app; split; [done|by constructor]).
    assert (length (before ++ v :: after) = length before + length (old :: after))%nat as Hlen
      by (rewrite length_app; done).
    destruct er as [er|]; [destruct (decide (er = EOL)) as [->|]; [|destruct er; try done]; injection H as <- <- _; done|].
    apply IH in H as (H1 & H2 & H3); [|done|apply Forall_app; split; [done|by constructor]|done].
    split; [done|]. split; [done|]. rewrite H3, length_app. simpl. lia.
Qed.

Lemma ListArray_keeps t n : kind_of env t = KArray n e -> keeps t (decodeListArray dec t).
Proof.
  intros Hk s old s' v err H Hs Ho. unfold decodeListArray in H.
  destruct (StreamList s) as [s1 [er|m]] eqn:E; pose proof (StreamList_st _ _ _ E Hs) as H1;
    [injection H as <- <- _; done|].
  assert (exists l, RlpEncode.elements old = Some l /\ Forall (typed e) l /\ forall l', Forall (typed e) l' ->
    length l' = length l -> typed t match old with VBytes _ => VBytes (map uint_of l') | _ => VArray l' end)
    as (l & El & Hl & Hb).
  { inversion Ho as [| | |? ? b Hk'|? e' b Hk' He Hb| |? e' l Hk' He Hl| |? ? ? Hk'| | |]; subst; try congruence.
    - rewrite Hk in Hk'. injection Hk' as -> ->. exists (map VUint b). split; [done|]. split; [by apply u8_uints|].
      intros l' Hl' Hlen. eapply ty_byte_array; [by rewrite length_map, Hlen, length_map|done|by apply (u8_back e')].
    - rewrite Hk in Hk'. injection Hk' as -> ->. exists l. split; [done|]. split; [by apply Forall_forall|].
      intros l' Hl' Hlen. eapply ty_array; [by rewrite Hlen|done|]. by apply Forall_forall.
    - simpl in Hk. congruence. }
  rewrite El in H. apply rbind_Ok_inv in H as ([[s2 l2] [er i]] & Ed & H).
  destruct (array_loop_keeps _ _ _ _ _ _ _ Ed H1 (List.Forall_nil _) Hl) as (H2 & H3 & H4).
  specialize (Hb l2 H3 H4). destruct er; [injection H as <- <- _; done|].
  destruct (i <? length l)%nat; [injection H as <- <- _; done|].
  destruct (ListEnd s2) as [s3 er] eqn:Ee. injection H as <- <- _. split; [by eapply ListEnd_st|done].
Qed.
End ArrayElems.

(** ** Raw values, big integers and interfaces *)

Lemma decodeRawValue_keeps : keeps TRawValue decodeRawValue.
Proof.
  intros s old s' v err H Hs Ho. unfold decodeRawValue in H. apply rbind_Ok_inv in H as ([s1 res] & E & H).
  destruct (Raw_st _ _ _ E Hs) as [H1 H2]. destruct res as [er|b]; injection H as <- <- _; [done|].
  split; [done|]. by eapply ty_bytes; [done|done|apply H2].
Qed.

Lemma decodeBigIntNoPtr_keeps : keeps TBigInt decodeBigIntNoPtr.
Proof.
  intros s old s' v err H Hs Ho. unfold decodeBigIntNoPtr in H.
  apply rbind_Ok_inv in H as ([[s1 v1] er] & E & H).
  destruct (decodeBigInt_keeps _ _ _ _ _ E Hs) as [H1 Hv]; [eapply ty_ptr; [done|by intros ? [= <-]]|].
  destruct v1 as [| | | | |[v1|]| | | | |]; try done. injection H as <- <- _. split; [done|].
  inversion Hv as [| | | | | | | | |? e p Hk Hp| |]; subst. injection Hk as <-. by apply Hp.
Qed.

Lemma decodeInterface_keeps fuel t m : kind_of env t = KInterface m -> keeps t (decodeInterface fuel t m).
Proof.
  revert t m. induction fuel as [|fuel IH]; intros t m Hk s old s' v err H Hs Ho; [done|]. simpl in H.
  destruct (negb _); [injection H as <- <- _; done|].
  assert (forall et x, typed et x -> typed t (VIface (Some (et, x)))) as Hi.
  { intros et x Hx. eapply ty_iface; [done|]. by intros ? ? [= <- <-]. }
  destruct (StreamKind s) as [s1 [er|[k n]]] eqn:E; pose proof (StreamKind_st _ _ _ E Hs) as H1;
    [injection H as <- <- _; done|].
  assert ((let? (s2, res) := Bytes s1 in match res with inl er => keep s2 old er
      | inr b => done s2 (VIface (Some (bytesType, VBytes b))) end) = Ok (s', v, err) -> st_ok s' /\ typed t v) as Hb.
  { intros ([s2 res] & Eb & Hr)%rbind_Ok_inv. destruct (Bytes_st _ _ _ Eb H1) as [H2 H3].
    destruct res as [er|b]; injection Hr as <- <- _; [done|]. split; [done|]. apply Hi.
    by eapply ty_bytes; [done|done|apply H3]. }
  destruct k; [by apply Hb..|]. apply rbind_Ok_inv in H as ([[s2 x] er] & Ed & H).
  destruct (ListSlice_keeps (TInterface 0) _ (VIface None) (IH (TInterface 0) 0%nat eq_refl)
    ltac:(by eapply ty_iface) fuel ifsliceType eq_refl _ _ _ _ _ Ed H1) as [H2 Hx].
  { eapply ty_slice; [done|done|]. intros y Hy. by apply elem_of_nil in Hy. }
  destruct er; injection H as <- <- _; [done|]. split; [done|]. by apply Hi.
Qed.

(** ** Structs and pointers *)

Section Fields.
Context (gen_fuel : nat) (tc : cache) (at_info : loc -> typ -> Stream -> val -> D).
Context (Hat : forall l k, points tc l k -> keeps (fst k) (at_info l (fst k))).

Lemma decode_fields_keeps t sfs fields s vs s' vs' err :
  kind_of env t = KStruct sfs -> Forall (field_points tc sfs) fields ->
  decode_fields env at_info t fields s vs = Ok (s', vs', err) -> st_ok s ->
  typed t (VStruct vs) -> st_ok s' /\ typed t (VStruct vs').
Proof.
  intros Hk. revert s vs. induction fields as [|[i l] fields IH]; intros s vs HF H Hs Ho; simpl in H;
    [injection H as <- <- _; done|].
  apply Forall_cons in HF as [(sf & ts & Hsf & Hp) HF].
  apply rbind_Ok_inv in H as (old & Hi & H). apply rbind_Ok_inv in H as ([[s1 v] er] & Ed & H).
  simpl in Hsf, Hp. unfold RlpEncode.field_type in Ed. rewrite Hk, Hsf in Ed.
  assert (vs !! i = Some old) as Hi'.
  { unfold index in Hi. rewrite Nat2Z.id in Hi. split_if; [|done]. by destruct (vs !! i); simplify_eq. }
  inversion Ho as [| | | | | | | |? ? ? Hk' Hne Hlen Hvs| | |]; subst. rewrite Hk in Hk'. injection Hk' as <-.
  destruct (Hat l _ Hp _ _ _ _ _ Ed Hs) as [Hs1 Hv]; [by eapply Hvs|].
  assert (typed t (VStruct (<[i:=v]> vs))) as Hins.
  { eapply ty_struct; [done|done|by rewrite length_insert|]. intros j f x Hf Hx.
    apply list_lookup_insert_Some in Hx as [(<- & <- & _)|[_ Hx]]; [|by eapply Hvs].
    rewrite Hsf in Hf. by injection Hf as <-. }
  destruct er as [er|]; [|by eapply IH]. destruct er; injection H as <- <- _; done.
Qed.

Lemma decodeStruct_keeps t sfs fields :
  kind_of env t = KStruct sfs -> t <> TBigInt -> Forall (field_points tc sfs) fields ->
  keeps t (decodeStruct env at_info t fields).
Proof.
  intros Hk Hne HF s old s' v err H Hs Ho. unfold decodeStruct in H.
  destruct (StreamList s) as [s1 [er|n]] eqn:E; pose proof (StreamList_st _ _ _ E Hs) as H1;
    [injection H as <- <- _; done|].
  destruct old as [| | | | | | | |vs| |]; try done. apply rbind_Ok_inv in H as ([[s2 vs2] er] & Ed & H).
  destruct (decode_fields_keeps _ _ _ _ _ _ _ _ Hk HF Ed H1 Ho) as [H2 Hv].
  destruct er; [injection H as <- <- _; done|]. destruct (ListEnd s2) as [s3 er] eqn:Ee.
  injection H as <- <- _. split; [by eapply ListEnd_st|done].
Qed.

Lemma decodePtr_keeps t e l ts : kind_of env t = KPtr e -> points tc l (e, ts) ->
  keeps t (decodePtr env gen_fuel at_info e l).
Proof.
  intros Hk Hp s old s' v err H Hs Ho. unfold decodePtr in H.
  assert (forall x, typed e x -> typed t (VPtr (Some x))) as Hsome.
  { intros x Hx. eapply ty_ptr; [done|]. by intros ? [= <-]. }
  destruct old as [| | | | |[x|]| | | | |]; try done.
  - apply rbind_Ok_inv in H as ([[s1 y] er] & Ed & [= <- <- _]).
    destruct (Hat l _ Hp _ _ _ _ _ Ed Hs) as [Hs1 Hv]; [|split; [done|by apply Hsome]].
    inversion Ho as [| | | | | | | | |? e' p Hk' Hx| |]; subst. rewrite Hk in Hk'. injection Hk' as <-. by apply Hx.
  - apply rbind_Ok_inv in H as (z & Hz & H). apply Zero_typed in Hz.
    apply rbind_Ok_inv in H as ([[s1 y] er] & Ed & H).
    destruct (Hat l _ Hp _ _ _ _ _ Ed Hs Hz) as [Hs1 Hv].
    destruct er; injection H as <- <- _; split; try done. by apply Hsome.
Qed.

Lemma decodeOptionalPtr_keeps t e l ts : kind_of env t = KPtr e -> points tc l (e, ts) ->
  keeps t (decodeOptionalPtr env gen_fuel at_info e l).
Proof.
  intros Hk Hp s old s' v err H Hs Ho. unfold decodeOptionalPtr in H.
  assert (typed t (VPtr None)) by by eapply ty_ptr.
  destruct (StreamKind s) as [s1 [er|[k n]]] eqn:E; pose proof (StreamKind_st _ _ _ E Hs) as H1.
  - injection H as <- <- _. done.
  - split_if; [injection H as <- <- _; done|]. by eapply decodePtr_keeps.
Qed.
End Fields.

(** ** Every decoder of a sound cache *)

(** The methods [DecodeRLP] keep types too, and do not clear the pointer they
    are called on. *)
Class DecoderLaw (dec : Decoders) : Prop := {
  DecodeRLP_keeps : forall t, keeps t (DecodeRLP dec t);
  DecodeRLP_target : forall t s x s' v err,
    DecodeRLP dec t s (VPtr (Some x)) = Ok (s', v, err) -> exists y, v = VPtr (Some y);
}.

Section Run.
Context (dec : Decoders) `{!DecoderLaw dec} (gen_fuel : nat) (tc : cache).
Context (Hok : cache_ok env tc) (Hfull : complete tc).

Lemma user_decoder_keeps t : keeps t (fun s old => match t, old with
  | TPtr u, VPtr None => let? z := Zero env gen_fuel u in DecodeRLP dec t s (VPtr (Some z))
  | _, _ => DecodeRLP dec t s old end).
Proof.
  intros s old s' v err H Hs Ho.
  assert (DecodeRLP dec t s old = Ok (s', v, err) -> st_ok s' /\ typed t v) as Hr
    by (intros; by eapply DecodeRLP_keeps).
  destruct t; try (by apply Hr). destruct old as [| | | | |[x|]| | | | |]; try (by apply Hr).
  apply rbind_Ok_inv in H as (z & Hz & H). apply Zero_typed in Hz.
  eapply DecodeRLP_keeps; [exact H|done|]. eapply ty_ptr; [done|]. by intros ? [= <-].
Qed.

Lemma user_noptr_keeps t : keeps t (fun s old =>
  let? (s, v, err) := DecodeRLP dec (TPtr t) s (VPtr (Some old)) in
  match v with VPtr (Some v) => Ok (s, v, err) | _ => Panic end).
Proof.
  intros s old s' v err H Hs Ho. apply rbind_Ok_inv in H as ([[s1 v1] er] & E & H).
  destruct (DecodeRLP_keeps _ _ _ _ _ _ E Hs) as [H1 Hv]; [eapply ty_ptr; [done|by intros ? [= <-]]|].
  destruct v1 as [| | | | |[v1|]| | | | |]; try done. injection H as <- <- _. split; [done|].
  inversion Hv as [| | | | | | | | |? e p Hk Hp| |]; subst. injection Hk as <-. by apply Hp.
Qed.

Lemma byte_elem_u8 e : byte_elem env e = true -> is_u8 e = true.
Proof. unfold byte_elem, is_u8. destruct (kind_of env e) as [|[]| | | | | | |]; done. Qed.

(** A decoder that fits [t] keeps values of [t], also when it fails. *)
Lemma run_decoder_typed fuel d t ts : good_decoder env tc t ts d ->
  keeps t (run_decoder env dec gen_fuel tc fuel d t).
Proof.
  revert d t ts. induction fuel as [|fuel IH]; intros d t ts Hd; [by intros ? ? ? ? ?|].
  set (at_info := fun (l : loc) (t : typ) (s : Stream) (old : val) =>
    let? info := info_at tc l in run_decoder env dec gen_fuel tc fuel (idecoder info) t s old).
  assert (forall l k, points tc l k -> keeps (fst k) (at_info l (fst k))) as Hat.
  { intros l [u us] Hp. destruct (info_at_points env tc l _ Hok Hfull Hp) as (info & Hi & [Hg _]).
    intros s old s' v err H. unfold at_info in H. rewrite Hi in H. by eapply IH. }
  assert (forall e l ts (dec' : Stream -> val -> val -> D), points tc l (e, ts) ->
    (forall z, typed e z -> keeps t (fun s old => dec' s old z)) ->
    keeps t (fun s old => let? z := Zero env gen_fuel e in dec' s old z)) as Hz.
  { intros e l us dec' _ H s old s' v err (z & Hz & Hr)%rbind_Ok_inv. apply Zero_typed in Hz. by eapply H. }
  destruct d as [| | | | | | | | | |l|l|l|t' fields|e l|e l|]; simpl in Hd.
  - subst t. apply decodeRawValue_keeps.
  - apply user_decoder_keeps.
  - apply user_noptr_keeps.
  - intros s old s' v err H Hs Ho. simpl in H. case_bool_decide as Ht; [subst t; by eapply decodeBigInt_keeps|].
    apply rbind_Ok_inv in H as ([s1 res] & E & H). destruct (Bytes_st _ _ _ E Hs) as [H1 _].
    destruct res; [|done]. injection H as <- <- _. done.
  - subst t. apply decodeBigIntNoPtr_keeps.
  - destruct Hd as [w Hk]. intros s old. simpl. unfold uwidth_of. rewrite Hk. by apply decodeUint_keeps.
  - by apply decodeBool_keeps.
  - apply (bytes_keeps t VString); [done|]. intros b Hb. by constructor.
  - destruct Hd as (n & e & Hk & He%byte_elem_u8). by eapply decodeByteArray_keeps.
  - destruct Hd as (e & Hk & He%byte_elem_u8). apply (bytes_keeps t VBytes); [done|]. intros b Hb. by eapply ty_bytes.
  - destruct Hd as (n & e & Hk & _ & Hp). intros s old. simpl. unfold RlpEncode.elem_type. rewrite Hk.
    exact (ListArray_keeps e _ (Hat l _ Hp) t n Hk s old).
  - destruct Hd as (e & Hk & _ & _ & Hp). intros s old. simpl. unfold RlpEncode.elem_type. rewrite Hk.
    apply (Hz e l no_tags (fun s old z => decodeSliceElems (at_info l e) z fuel s old) Hp).
    intros z Hz'. exact (SliceElems_keeps e _ z (Hat l _ Hp) Hz' fuel t Hk).
  - destruct Hd as (e & Hk & _ & _ & Hp). intros s old. simpl. unfold RlpEncode.elem_type. rewrite Hk.
    apply (Hz e l no_tags (fun s old z => decodeListSlice (at_info l e) z fuel t s old) Hp).
    intros z Hz'. exact (ListSlice_keeps e _ z (Hat l _ Hp) Hz' fuel t Hk).
  - destruct Hd as (-> & Hne & sfs & Hk & HF). by eapply decodeStruct_keeps.
  - destruct Hd as (Hk & Hp). by eapply decodePtr_keeps.
  - destruct Hd as (Hk & _ & Hp). by eapply decodeOptionalPtr_keeps.
  - destruct Hd as (m & Hk). intros s old. simpl. unfold methods_of. rewrite Hk. by apply decodeInterface_keeps.
Qed.
End Run.

End Typed.
End RlpTyped.
