(* ===== verification/RlpLaws.v ===== *)
(** * RLP: the theorems on the package

    The encoder implements the format whatever the way out of the buffer; the
    decoder is its inverse and accepts nothing else; the raw helpers agree with
    it.  Two defects: decoding a list of one-byte arrays may never return, and
    a type that cannot be serialized leaves the types it refers to in the cache
    with a missing writer. *)

From Stdlib Require Import String Lia.
From stdpp Require Import base list numbers option strings gmap.
From S2P Require Import Prelude BigInt RlpTypes RlpEncode RlpDecode RlpSpec.
From S2P Require Import RlpRefine RlpStream RlpCanon RlpCache RlpTyped.

#[local] Open Scope Z_scope.
#[local] Open Scope go_scope.

Module RlpLaws.
Import RlpTypes RlpEncode RlpDecode RlpSpec RlpRefine RlpStream RlpCanon RlpCache RlpTyped.

(** No type has methods of its own. *)
Definition no_encoders : Encoders := {| EncodeRLP := fun _ _ _ => Panic |}.
Definition no_decoders : Decoders := {| DecodeRLP := fun _ _ _ => Panic |}.
#[export] Instance no_encoders_law : EncoderLaw no_encoders (fun _ _ => Panic).
Proof. by intros t v tc w. Qed.
#[export] Instance no_decoders_law env : DecoderLaw env no_decoders.
Proof. by split. Qed.

(** ** The encoder *)

(** C14: The encoder refines the format: for every value, the bytes of
    [EncodeToBytes], the concatenation of the writes of [Encode] to any
    conforming [io.Writer] (which stop at its first error), and what is read
    from the reader of [EncodeToReader] with reads of any sizes are the
    reference encoding with list headers in front; where the reference has an
    error all three return that error, [Encode] writing nothing, and where it
    panics all three panic; the pooled buffer's old content does not matter,
    and the encoding is below 2^63 bytes. *)
Theorem encoder_refines (env : gmap string decl) (enc : Encoders) (user : typ -> val -> result (error + list Z))
    `{!EncoderLaw enc user} (gen_fuel fuel : nat) (old : encbuf) (t : typ) (v : val) (tc : cache) :
  uints_ok v ->
  (forall tc' bs, spec_encode env user gen_fuel fuel t v tc = Ok (tc', inr bs) -> len bs < two63) ->
  EncodeToBytes env enc gen_fuel fuel old t v tc = spec_encode env user gen_fuel fuel t v tc /\
  (forall (St : Type) (write : St -> list Z -> St * (Z * option error)) out,
     match spec_encode env user gen_fuel fuel t v tc with
     | Ok (tc', inl err) =>
         Encode env enc gen_fuel write fuel old t v tc out = Ok (tc', out, Some err) /\
         EncodeToReader env enc gen_fuel fuel old t v tc = Ok (tc', inl err)
     | Ok (_, inr _) => True
     | Panic =>
         Encode env enc gen_fuel write fuel old t v tc out = Panic /\
         EncodeToReader env enc gen_fuel fuel old t v tc = Panic
     | NoFuel =>
         Encode env enc gen_fuel write fuel old t v tc out = NoFuel /\
         EncodeToReader env enc gen_fuel fuel old t v tc = NoFuel
     end) /\
  forall tc' bs, spec_encode env user gen_fuel fuel t v tc = Ok (tc', inr bs) ->
    (forall (St : Type) (write : St -> list Z -> St * (Z * option error)) out,
       (forall out b out' n, write out b = (out', (n, None)) -> n = len b) ->
       exists ps, concat ps = bs /\
         Encode env enc gen_fuel write fuel old t v tc out =
           Ok (tc', fst (feed write out ps), snd (feed write out ps))) /\
    (forall ns, Forall (Z.le 0) ns ->
       exists rd r', EncodeToReader env enc gen_fuel fuel old t v tc = Ok (tc', inr (len bs, rd)) /\
         reads rd ns = Ok (r', take (Z.to_nat (foldr Z.add 0 ns)) bs)).
Proof.
  intros Hv Hlen. split; [by apply EncodeToBytes_spec|]. split; [by intros; apply encode_fails|].
  intros tc' bs E. split.
  - intros St write out Hw. by apply (Encode_spec env enc user gen_fuel fuel old write t v tc tc' bs out Hw Hv E (Hlen _ _ E)).
  - intros ns Hns. by apply (EncodeToReader_spec env enc user gen_fuel fuel old t v tc tc' bs ns Hv E (Hlen _ _ E)).
Qed.

(** A list of two integers, written to a writer that appends. *)
Lemma encoder_refines_witness :
  exists tc' rd r' ps,
    EncodeToBytes ∅ no_encoders 9 9 empty_encbuf (TSlice (TUint W64)) (VSlice [VUint 1; VUint 1024] []) empty_cache =
      Ok (tc', inr [196; 1; 130; 4; 0]) /\
    concat ps = [196; 1; 130; 4; 0] /\
    Encode ∅ no_encoders 9 (fun out b => (out ++ b, (len b, None))) 9 empty_encbuf
      (TSlice (TUint W64)) (VSlice [VUint 1; VUint 1024] []) empty_cache [] =
      Ok (tc', fst (feed (fun out b => (out ++ b, (len b, None))) [] ps),
          snd (feed (fun out b => (out ++ b, (len b, None))) [] ps)) /\
    EncodeToReader ∅ no_encoders 9 9 empty_encbuf (TSlice (TUint W64)) (VSlice [VUint 1; VUint 1024] []) empty_cache =
      Ok (tc', inr (5, rd)) /\
    reads rd [2; 1] = Ok (r', [196; 1; 130]).
Proof.
  set (g := spec_encode ∅ (fun _ _ => Panic) 9 9 (TSlice (TUint W64)) (VSlice [VUint 1; VUint 1024] []) empty_cache).
  assert (exists tc', g = Ok (tc', inr [196; 1; 130; 4; 0])) as [tc' E] by (eexists; vm_compute; reflexivity).
  destruct (encoder_refines ∅ no_encoders (fun _ _ => Panic) 9 9 empty_encbuf (TSlice (TUint W64))
    (VSlice [VUint 1; VUint 1024] []) empty_cache) as (H1 & _ & H2).
  - simpl. split; [split; done|]. split; [split; done|done].
  - fold g. rewrite E. intros ? ? [= _ <-]. vm_compute. reflexivity.
  - fold g in H1, H2. rewrite E in H1. destruct (H2 _ _ E) as [H3 H4].
    destruct (H3 (list Z) (fun out b => (out ++ b, (len b, None))) []) as (ps & Hps & Hw); [by intros ? ? ? ? [= _ <-]|].
    destruct (H4 [2; 1] ltac:(repeat constructor; lia)) as (rd & r' & Hr & Hrd).
    exists tc', rd, r', ps. split; [exact H1|]. split; [exact Hps|]. split; [exact Hw|]. split; [exact Hr|exact Hrd].
Defined.

(** ** Generation for the types of an interface value *)

Section Interfaces.
Context (env : gmap string decl) (gen_fuel : nat) (Hgen : (2 <= gen_fuel)%nat).

Definition dynamic (t : typ) : Prop := t = TInterface 0 \/ t = bytesType \/ t = ifsliceType.

Lemma gen_interface rec : genTypeInfo env rec (TInterface 0) no_tags =
  gret {| idecoder := DInterface; iwriter := WInterface |}.
Proof. done. Qed.

Lemma gen_bytes rec : genTypeInfo env rec bytesType no_tags =
  gret {| idecoder := DByteSlice; iwriter := WBytes |}.
Proof. done. Qed.

Lemma gen_ifslice rec : genTypeInfo env rec ifsliceType no_tags =
  let! d := (let! l := rec (TInterface 0) no_tags in gret (DListSlice l)) in
  let! w := (let! l := rec (TInterface 0) no_tags in gret (WSlice l false)) in
  gret {| idecoder := d; iwriter := w |}.
Proof. done. Qed.

(** Neither an error nor out of fuel. *)
Definition succeeds {A} (m : G A) : Prop := forall tc,
  match m tc with Ok (_, inl _) | NoFuel => False | _ => True end.

Lemma succeeds_ret {A} (a : A) : succeeds (gret a).
Proof. done. Qed.

Lemma succeeds_bind {A B} (m : G A) (k : A -> G B) :
  succeeds m -> (forall a, succeeds (k a)) -> succeeds (gbind m k).
Proof.
  intros Hm Hk tc. unfold gbind. specialize (Hm tc). destruct (m tc) as [[tc1 [e|a]]| |]; try done.
  apply (Hk a tc1).
Qed.

Lemma succeeds_cached fuel t ts : succeeds (genTypeInfo env (cachedTypeInfo1 env fuel) t ts) ->
  succeeds (cachedTypeInfo1 env (S fuel) t ts).
Proof.
  intros H tc. cbn [cachedTypeInfo1]. destruct (typeCache tc !! (t, ts)); [done|].
  destruct (allocate (t, ts) tc) as [tc0 l0]. specialize (H tc0).
  destruct (genTypeInfo _ _ _ _ tc0) as [[tc1 [e|info]]| |]; try done.
  unfold store. destruct (typeCache tc1 !! ((t, ts) : typekey)); exact I.
Qed.

Lemma interface_succeeds fuel : succeeds (cachedTypeInfo1 env (S fuel) (TInterface 0) no_tags).
Proof. apply succeeds_cached. rewrite gen_interface. apply succeeds_ret. Qed.

Lemma dynamic_succeeds t : dynamic t -> succeeds (cachedTypeInfo env gen_fuel t no_tags).
Proof.
  intros Ht tc. unfold cachedTypeInfo. destruct (typeCache tc !! _); [done|]. revert tc.
  destruct gen_fuel as [|[|fuel]]; [lia..|]. destruct Ht as [->|[->| ->]].
  - apply interface_succeeds.
  - apply succeeds_cached. rewrite gen_bytes. apply succeeds_ret.
  - apply succeeds_cached. rewrite gen_ifslice.
    repeat first [apply succeeds_bind; [|intros ?] | apply succeeds_ret | apply interface_succeeds].
Qed.

(** The functions of a type whose generation cannot fail, in a sound cache. *)
Lemma succeeds_info t tc : succeeds (cachedTypeInfo env gen_fuel t no_tags) -> cache_ok env tc -> complete tc ->
  exists tc' l info, cachedTypeInfo env gen_fuel t no_tags tc = Ok (tc', inr l) /\
    info_at tc' l = Ok info /\ good_info env tc' (t, no_tags) info /\ cache_ok env tc' /\ complete tc' /\ ext tc tc'.
Proof.
  intros Hs Hok Hc. specialize (Hs tc).
  pose proof (cachedTypeInfo_ok env gen_fuel t no_tags tc Hok) as Hg. unfold gspec in Hg.
  destruct (cachedTypeInfo _ _ _ _ tc) as [[tc1 [e|l]]| |]; try done.
  destruct Hg as (E & Hok1 & F & Hp). pose proof (complete_step _ _ Hc E F) as Hc1.
  destruct (info_at_points env tc1 l _ Hok1 Hc1 Hp) as (info & ? & ?). by exists tc1, l, info.
Qed.

Lemma dynamic_info t tc : dynamic t -> cache_ok env tc -> complete tc ->
  exists tc' l info, cachedTypeInfo env gen_fuel t no_tags tc = Ok (tc', inr l) /\
    info_at tc' l = Ok info /\ good_info env tc' (t, no_tags) info /\ cache_ok env tc' /\ complete tc' /\ ext tc tc'.
Proof. intros Ht. by apply succeeds_info, dynamic_succeeds. Qed.

Lemma interface_decoder tc d : good_decoder env tc (TInterface 0) no_tags d -> d = DInterface.
Proof. destruct d; simpl; naive_solver. Qed.

(** ** Decoding into an interface value *)

Context (dec : Decoders).

Lemma NewStream_bytes b : bytes_ok b -> len b <= maxAlloc ->
  let s := NewStream (bytes_reader b) (u64 (len b)) in sok s /\ kind s = None /\ stack s = [] /\ data (r s) = b.
Proof.
  intros Hb Hl. pose proof two64_maxAlloc. pose proof (len_nonneg b).
  assert (u64 (len b) = len b) as E by (apply u64_id; unfold is_u64; lia).
  assert (NewStream (bytes_reader b) (u64 (len b)) = {| r := bytes_reader b; remaining := len b; limited := true;
    kind := None; size := 0; byteval := 0; kinderr := None; stack := [] |}) as ->.
  { unfold NewStream, Reset. rewrite E. simpl. rewrite E. by destruct (len b >? 0). }
  cbv zeta. split; [|done]. by split.
Qed.

Lemma DecodeBytes_interface fuel b old tc :
  cache_ok env tc -> complete tc -> bytes_ok b -> len b <= maxAlloc -> len b + 3 <= Z.of_nat fuel ->
  exists tc' v err,
    DecodeBytes env dec gen_fuel fuel b (Some (TPtr (TInterface 0), VPtr (Some old))) tc =
      Ok (tc', (Some (TPtr (TInterface 0), VPtr (Some v)), err)) /\
    (err = None -> exists i, item_of v = Some i /\ item_ok i /\ b = rlp_item i) /\
    (forall i, item_ok i -> b = rlp_item i -> err = None /\ item_of v = Some i).
Proof.
  intros Hok Hc Hb Hl Hf.
  destruct (dynamic_info (TInterface 0) tc ltac:(by left) Hok Hc)
    as (tc' & l & info & Eg & Ei & [Hd%interface_decoder _] & _).
  destruct (NewStream_bytes b Hb Hl) as (Hs & Hk & Hst & Hdata).
  unfold DecodeBytes, StreamDecode. change (kind_of env (TPtr (TInterface 0))) with (KPtr (TInterface 0)). cbv iota. set (s := NewStream _ _) in *.
  rewrite Eg. cbn [rbind]. rewrite Ei. cbn [rbind]. rewrite Hd.
  destruct fuel as [|fuel]; [pose proof (len_nonneg b); lia|].
  change (run_decoder env dec gen_fuel tc' (S fuel) DInterface (TInterface 0) s old)
    with (decodeInterface fuel (TInterface 0) 0 s old).
  destruct (decodeInterface_sound fuel (TInterface 0) (len b) ltac:(lia) s old Hs Hk ltac:(by rewrite Hdata) I)
    as (s' & v & err & E & R). rewrite E. cbn [rbind].
  do 3 eexists. split; [done|]. split.
  - intros He. destruct err as [e|].
    { destruct e; try done. by match goal with c : list string |- _ => destruct c end. }
    destruct R as (_ & bs & C & _ & i & Hi & Hio & ->). exists i. split; [done|]. split; [done|].
    pose proof (c_data _ _ _ C) as Hd'. rewrite Hdata in Hd'. destruct (data (r s')); [|done].
    by rewrite app_nil_r in Hd'.
  - intros i Hi ->.
    destruct (decodeInterface_complete i Hi fuel (TInterface 0) (len (rlp_item i)) ltac:(lia) s old [] Hs Hk)
      as (s2 & v2 & E2 & C & Hv); [by rewrite Hdata|by rewrite Hdata, app_nil_r|unfold room; by rewrite Hst|done|].
    rewrite E in E2. injection E2 as -> -> ->. split; [|done].
    pose proof (c_data _ _ _ C) as Hd'. rewrite Hdata in Hd'. destruct (data (r s2)); [done|].
    by apply (f_equal length) in Hd'; rewrite length_app in Hd'; simpl in Hd'; lia.
Qed.

(** C15: Decoding into an empty interface is exact.  On every input
    [DecodeBytes] returns; it succeeds only on the canonical encoding of a
    tree of byte strings and lists, which is then the value in the interface,
    and it succeeds on each such encoding. *)
Theorem decode_interface_exact fuel b old tc :
  cache_ok env tc -> complete tc -> bytes_ok b -> len b <= maxAlloc -> len b + 3 <= Z.of_nat fuel ->
  exists tc' v err,
    DecodeBytes env dec gen_fuel fuel b (Some (TPtr (TInterface 0), VPtr (Some old))) tc =
      Ok (tc', (Some (TPtr (TInterface 0), VPtr (Some v)), err)) /\
    (err = None -> exists i, item_of v = Some i /\ item_ok i /\ b = rlp_item i) /\
    (forall i, item_ok i -> b = rlp_item i -> err = None /\ item_of v = Some i).
Proof. apply DecodeBytes_interface. Qed.

(** ** Encoding an interface value *)

Section Round.
Context (enc : Encoders) (user : typ -> val -> result (error + list Z)) `{!EncoderLaw enc user}.
Abbreviation ready tc := (cache_ok env tc /\ complete tc).

Lemma bytes_writer tc w : good_writer env tc bytesType no_tags w -> w = WBytes.
Proof. destruct w; simpl; naive_solver. Qed.

Lemma interface_writer tc w : good_writer env tc (TInterface 0) no_tags w -> w = WInterface.
Proof. destruct w; simpl; naive_solver. Qed.

Lemma ifslice_writer tc w : good_writer env tc ifsliceType no_tags w ->
  exists l, w = WSlice l false /\ points tc l (TInterface 0, no_tags).
Proof. destruct w; simpl; naive_solver. Qed.

Lemma item_of_inv v i : item_of v = Some i ->
  match i with
  | Str b => v = VIface (Some (bytesType, VBytes b))
  | Lst its => exists l sp, v = VIface (Some (ifsliceType, VSlice l sp)) /\
      Forall2 (fun v i => item_of v = Some i) l its
  end.
Proof.
  destruct v as [| | | | | | | | |[[t [| | |b| | |l sp| | | |]]|]|]; simpl; try done; case_bool_decide; subst; try done;
    [by intros [= <-]|].
  set (go := fix go (l : list val) := _). destruct (go l) as [its|] eqn:E; [|done]. intros [= <-].
  exists l, sp. split; [done|]. revert its E. induction l as [|v l IH]; simpl; intros its; [by intros [= <-]|].
  destruct (item_of v) eqn:Ev; [|done]. destruct (go l); [|done]. intros [= <-]. constructor; [done|]. by apply IH.
Qed.

(** From any sound extension of [tc0] the writer appends [bs]. *)
Definition yields (g : G (list Z)) (bs : list Z) (tc0 : cache) : Prop := forall tc, ext tc0 tc -> ready tc ->
  exists tc', g tc = Ok (tc', inr bs) /\ ext tc tc' /\ ready tc'.

Lemma yields_concat gs bss tc0 : Forall2 (fun g bs => yields g bs tc0) gs bss -> yields (concatG gs) (concat bss) tc0.
Proof.
  induction 1 as [|g bs gs bss Hg _ IH]; intros tc E R; simpl; [by exists tc|].
  destruct (Hg tc E R) as (tc1 & Eg & E1 & R1).
  destruct (IH tc1 ltac:(by etrans) R1) as (tc2 & Egs & E2 & R2).
  exists tc2. unfold gbind. rewrite Eg, Egs. split; [done|]. split; [by etrans|done].
Qed.

Lemma yields_list g bs tc0 : yields g bs tc0 -> yields (listG g) (rlp_list bs) tc0.
Proof. intros H tc E R. destruct (H tc E R) as (tc' & Eg & ?). exists tc'. unfold listG, gbind. by rewrite Eg. Qed.

(** A value in an interface is written by the functions of its dynamic type. *)
Lemma interface_yields fuel addr t v bs tc0 : succeeds (cachedTypeInfo env gen_fuel t no_tags) ->
  (forall tc info, ready tc -> good_info env tc (t, no_tags) info ->
     yields (spec_writer env user gen_fuel fuel (iwriter info) t false v) bs tc) ->
  yields (spec_writer env user gen_fuel (S fuel) WInterface (TInterface 0) addr (VIface (Some (t, v)))) bs tc0.
Proof.
  intros Hs H tc _ [Hok Hc]. destruct (succeeds_info t tc Hs Hok Hc)
    as (tc1 & l & info & Eg & Ei & Hi & Hok1 & Hc1 & E1).
  destruct (H tc1 info ltac:(done) Hi tc1 ltac:(done) ltac:(done)) as (tc2 & Es & E2 & R2).
  exists tc2. cbn [spec_writer]. unfold gbind. rewrite Eg, Ei. cbn [rbind]. split; [exact Es|]. split; [by etrans|done].
Qed.

(** The elements of a slice of interfaces, in a list. *)
Lemma ifslice_yields fuel addr vs sp bss tc info : ready tc -> good_info env tc (ifsliceType, no_tags) info ->
  Forall2 (fun v bs => forall addr, yields (spec_writer env user gen_fuel fuel WInterface (TInterface 0) addr v) bs tc) vs bss ->
  yields (spec_writer env user gen_fuel (S fuel) (iwriter info) ifsliceType addr (VSlice vs sp)) (rlp_list (concat bss)) tc.
Proof.
  intros [Hok Hc] [_ (le & Hw & Hp)%ifslice_writer] F. rewrite Hw. cbn [spec_writer elements].
  apply yields_list, yields_concat. induction F as [|v bs vs bss Hv F IHF]; simpl; [constructor|].
  constructor; [|apply IHF]. intros tc2 E2 [Hok2 Hc2]. pose proof (points_ext _ _ _ _ E2 Hp) as Hp2.
  destruct (info_at_points env tc2 le _ Hok2 Hc2 Hp2) as (info2 & Ei2 & [_ Hw2%interface_writer]).
  rewrite Ei2. cbn [rbind]. rewrite Hw2. by apply Hv.
Qed.

Lemma item_written i : forall fuel addr v tc, 2 * len (rlp_item i) + 1 <= Z.of_nat fuel -> item_of v = Some i ->
  yields (spec_writer env user gen_fuel fuel WInterface (TInterface 0) addr v) (rlp_item i) tc.
Proof.
  induction i as [b|its IH] using item_ind'; intros fuel addr v tc0 Hf Hv;
    (destruct fuel as [|[|fuel]];
     [match type of Hf with context [rlp_item ?i] => pose proof (item_length i); lia end..|]);
    apply item_of_inv in Hv.
  - subst v. apply interface_yields; [by apply dynamic_succeeds; right; left|].
    intros tc info _ [_ Hw%bytes_writer] tc1 _ R1. rewrite Hw. by exists tc1.
  - destruct Hv as (vs & sp & -> & F). apply interface_yields; [by apply dynamic_succeeds; right; right|].
    intros tc info R Hi. apply ifslice_yields; [done|done|].
    assert (forall i, i ∈ its -> 2 * len (rlp_item i) + 1 <= Z.of_nat fuel) as Hlt.
    { intros i Hi'%rlp_list_longer. lia. }
    clear Hf. induction F as [|v i vs its Hv F IHF]; simpl; [constructor|].
    apply Forall_cons in IH as [IH0 IH]. constructor; [|apply IHF; [done|]; intros j Hj; apply Hlt; by right].
    intros addr'. apply IH0; [apply Hlt; by left|done].
Qed.

Lemma item_uints v i : item_of v = Some i -> item_ok i -> uints_ok v.
Proof.
  revert v. induction i as [b|its IH] using item_ind'; intros v Hv%item_of_inv Hi; [by subst v|].
  destruct Hv as (l & sp & -> & F). apply item_ok_Lst in Hi. simpl. rewrite foldr_and.
  induction F as [|v i l its Hv F IHF]; [constructor|]. apply Forall_cons in IH as [IH0 IH], Hi as [Hi0 Hi].
  constructor; auto.
Qed.

(** Encoding a tree of byte strings and lists held in an interface and
    decoding the bytes into an empty interface gives the tree back; the bytes
    are its canonical encoding. *)
Theorem interface_roundtrip fuel v i buf old tc : cache_ok env tc -> complete tc ->
  item_of v = Some i -> item_ok i -> len (rlp_item i) <= maxAlloc -> 2 * len (rlp_item i) + 3 <= Z.of_nat fuel ->
  exists tc' tc'' v',
    EncodeToBytes env enc gen_fuel fuel buf (TInterface 0) v tc = Ok (tc', inr (rlp_item i)) /\
    DecodeBytes env dec gen_fuel fuel (rlp_item i) (Some (TPtr (TInterface 0), VPtr (Some old))) tc' =
      Ok (tc'', (Some (TPtr (TInterface 0), VPtr (Some v')), None)) /\
    item_of v' = Some i.
Proof.
  intros Hok Hc Hv Hi Hmax Hf. pose proof (item_length i) as Hlen.
  destruct (dynamic_info (TInterface 0) tc ltac:(by left) Hok Hc)
    as (tc1 & l & info & Eg & Ei & [_ Hw%interface_writer] & Hok1 & Hc1 & E1).
  destruct (item_written i fuel false v tc1 ltac:(lia) Hv tc1 ltac:(done) ltac:(done)) as (tc2 & Es & E2 & Hok2 & Hc2).
  assert (spec_encode env user gen_fuel fuel (TInterface 0) v tc = Ok (tc2, inr (rlp_item i))) as E.
  { unfold spec_encode. rewrite Eg. cbn [rbind]. rewrite Ei. cbn [rbind]. by rewrite Hw. }
  destruct (DecodeBytes_interface fuel (rlp_item i) old tc2 Hok2 Hc2) as (tc3 & v' & err & Ed & _ & H);
    [apply rlp_item_bytes; [done|pose proof two64_maxAlloc; lia]|done|lia|].  destruct (H i Hi eq_refl) as [-> Hv']. exists tc2, tc3, v'. split; [|done].
    rewrite (EncodeToBytes_spec env enc user); [done|by eapply item_uints|].
    intros tc' bs. rewrite E. intros [= _ <-]. pose proof two64_maxAlloc. lia.
Qed.
End Round.
End Interfaces.

Lemma complete_empty : complete empty_cache.
Proof. apply filled_refl. Qed.

(** The list of the string 0x8081 and the empty list. *)
Definition sample_bytes : list Z := [196; 130; 128; 129; 192].
Definition sample_item : item := Lst [Str [128; 129]; Lst []].
Definition sample_value : val := VIface (Some (ifsliceType,
  VSlice [VIface (Some (bytesType, VBytes [128; 129])); VIface (Some (ifsliceType, VSlice [] []))] [])).

Lemma sample_ok : bytes_ok sample_bytes /\ item_ok sample_item.
Proof. split; [|simpl; split; [|done]]; repeat constructor; unfold byte_ok; lia. Qed.

Lemma decode_interface_exact_witness : exists tc' v,
  DecodeBytes ∅ no_decoders 2 9 sample_bytes (Some (TPtr (TInterface 0), VPtr (Some (VIface None)))) empty_cache =
    Ok (tc', (Some (TPtr (TInterface 0), VPtr (Some v)), None)) /\ item_of v = Some sample_item.
Proof.
  destruct (decode_interface_exact ∅ 2 ltac:(lia) no_decoders 9 sample_bytes (VIface None) empty_cache
    (cache_ok_empty ∅) complete_empty (proj1 sample_ok)) as (tc' & v & err & E & _ & H);
    [vm_compute; discriminate|vm_compute; discriminate|].
  destruct (H sample_item (proj2 sample_ok) eq_refl) as [-> Hv]. exists tc', v. split; [exact E|exact Hv].
Defined.

Lemma interface_roundtrip_witness : exists tc' tc'' v',
  EncodeToBytes ∅ no_encoders 2 13 empty_encbuf (TInterface 0) sample_value empty_cache = Ok (tc', inr sample_bytes) /\
  DecodeBytes ∅ no_decoders 2 13 sample_bytes (Some (TPtr (TInterface 0), VPtr (Some (VIface None)))) tc' =
    Ok (tc'', (Some (TPtr (TInterface 0), VPtr (Some v')), None)) /\ item_of v' = Some sample_item.
Proof.
  apply (interface_roundtrip ∅ 2 ltac:(lia) no_decoders no_encoders (fun _ _ => Panic) 13 sample_value sample_item
    empty_encbuf (VIface None) empty_cache (cache_ok_empty ∅) complete_empty eq_refl (proj2 sample_ok));
    vm_compute; discriminate.
Defined.

(** ** Types *)

(** Decoding keeps the type of its target: whatever the bytes read and
    whether or not an error is returned, the pointer handed to [Stream.Decode]
    points afterwards to a value of its own type, with integers in range,
    arrays of the declared length and every field of the declared type, also
    below partly decoded lists; and the type cache stays sound. *)
Theorem decode_keeps_type (env : gmap string decl) (dec : Decoders) `{!DecoderLaw env dec}
    (gen_fuel fuel : nat) (s : Stream) (t : typ) (v : val) (tc tc' : cache)
    (s' : Stream) (target : option (typ * val)) (err : option error) :
  cache_ok env tc -> complete tc -> st_ok s -> typed env t v ->
  StreamDecode env dec gen_fuel fuel s (Some (t, v)) tc = Ok (tc', (s', target, err)) ->
  cache_ok env tc' /\ st_ok s' /\ exists v', target = Some (t, v') /\ typed env t v'.
Proof.
  intros Hok Hc Hs Hv H. unfold StreamDecode in H.
  assert (forall e : error, Ok (tc, (s, Some (t, v), Some e)) = Ok (tc', (s', target, err)) ->
    cache_ok env tc' /\ st_ok s' /\ exists v', target = Some (t, v') /\ typed env t v') as Hkeep.
  { intros e [= <- <- <- _]. split; [done|]. split; [done|]. by exists v. }
  destruct (kind_of env t) as [|w| |e|n e|fs|e|m|] eqn:Hk; try (by eapply Hkeep).
  destruct v as [| | | | |[x|]| | | | |]; try done; [|by eapply Hkeep].
  apply rbind_Ok_inv in H as ([tc1 res] & Eg & H).
  pose proof (cachedTypeInfo_ok env gen_fuel e no_tags tc Hok) as Hg. unfold gspec in Hg. rewrite Eg in Hg.
  destruct res as [er|l].
  { destruct Hg as [_ ?]. injection H as <- <- <- _. split; [done|]. split; [done|]. by eexists. }
  destruct Hg as (E & Hok1 & F & Hp). pose proof (complete_step _ _ Hc E F) as Hc1.
  destruct (info_at_points env tc1 l _ Hok1 Hc1 Hp) as (info & Ei & [Hd _]). rewrite Ei in H. cbn [rbind] in H.
  apply rbind_Ok_inv in H as ([[s1 x'] er] & Ed & [= <- <- <- _]).
  inversion Hv as [| | | | | | | | |? e' p Hk' Hx| |]; subst. rewrite Hk in Hk'. injection Hk' as <-.
  destruct (run_decoder_typed env dec gen_fuel tc1 Hok1 Hc1 fuel _ e no_tags Hd _ _ _ _ _ Ed Hs (Hx x eq_refl)) as [H1 H2].
  split; [done|]. split; [done|]. eexists. split; [done|]. eapply ty_ptr; [done|]. by intros ? [= <-].
Qed.

(** Three bytes into an array of two: an error, and the array is untouched. *)
Lemma decode_keeps_type_witness : exists tc' s' err,
  StreamDecode ∅ no_decoders 9 9 (NewStream (bytes_reader [131; 1; 2; 3]) 4)
    (Some (TPtr (TArray 2 (TUint W8)), VPtr (Some (VBytes [7; 8])))) empty_cache =
    Ok (tc', (s', Some (TPtr (TArray 2 (TUint W8)), VPtr (Some (VBytes [7; 8]))), Some err)) /\
  typed ∅ (TPtr (TArray 2 (TUint W8))) (VPtr (Some (VBytes [7; 8]))).
Proof.
  set (g := StreamDecode _ _ _ _ _ _ _). assert (exists tc' s' err, g = Ok (tc', (s',
    Some (TPtr (TArray 2 (TUint W8)), VPtr (Some (VBytes [7; 8]))), Some err))) as (tc' & s' & err & E)
    by (do 3 eexists; vm_compute; reflexivity).
  exists tc', s', err. split; [exact E|].
  assert (bytes_ok [131; 1; 2; 3] /\ bytes_ok [7; 8]) as [B1 B2]
    by (split; repeat constructor; unfold byte_ok; lia).
  assert (st_ok (NewStream (bytes_reader [131; 1; 2; 3]) 4)) as Hs
    by (split; [exact B1|vm_compute; split; [discriminate|reflexivity]]).
  assert (typed ∅ (TPtr (TArray 2 (TUint W8))) (VPtr (Some (VBytes [7; 8])))) as Ht.
  { eapply ty_ptr; [reflexivity|]. intros ? [= <-]. eapply ty_byte_array; [reflexivity|reflexivity|exact B2]. }
  destruct (decode_keeps_type ∅ no_decoders 9 9 _ _ _ _ _ _ _ _ (cache_ok_empty ∅) complete_empty Hs Ht E)
    as (_ & _ & v' & [= <-] & H). exact H.
Defined.

(** ** Defects *)

Definition byte_arrays : typ := TSlice (TArray 1 (TUint W8)).
Definition one_byte (v : val) : Prop := exists x, v = VBytes [x].

(** An element decoder that succeeds without moving the stream. *)
Lemma stuck_loop dec zero s s' fuel i l spare :
  (forall v, one_byte v -> dec s v = Ok (s', VBytes [0], None)) ->
  (forall v, one_byte v -> dec s' v = Ok (s', VBytes [0], None)) ->
  one_byte zero -> Forall one_byte l -> Forall one_byte spare -> (i <= length l)%nat ->
  decodeSliceElems_loop dec zero fuel i s l spare = NoFuel.
Proof.
  intros Hs Hs' Hz. revert s Hs i l spare. induction fuel as [|fuel IH]; intros s Hs i l spare Hl Hsp Hi; [done|].
  simpl. destruct (cell_ready zero one_byte Hz i l spare Hl Hsp Hi)
    as (l2 & s2 & old & E & Ei & Ho & Hl2 & Hs2 & _ & Hlen).
  destruct (grow zero i l spare) as [l1 s1]. simpl in E. rewrite E, Ei. cbn [rbind].
  rewrite (Hs old Ho). cbn [rbind]. apply (IH s' Hs'); [|done|rewrite length_insert; lia].
  apply Forall_insert; [done|]. by exists 0.
Qed.

Definition decode_arrays (fuel : nat) (b : list Z) :=
  DecodeBytes ∅ no_decoders 10 fuel b (Some (TPtr byte_arrays, VPtr (Some (VSlice [] [])))) empty_cache.

Definition arrays_cache : cache :=
  match cachedTypeInfo ∅ 10 byte_arrays no_tags empty_cache with Ok (tc, _) => tc | _ => empty_cache end.

Lemma arrays_generated :
  cachedTypeInfo ∅ 10 byte_arrays no_tags empty_cache = Ok (arrays_cache, inr 0%nat) /\
  info_at arrays_cache 0 = Ok {| idecoder := DListSlice 1; iwriter := WSlice 1 false |} /\
  info_at arrays_cache 1 = Ok {| idecoder := DByteArray; iwriter := WByteArray |}.
Proof. by vm_compute. Qed.

(** The stream inside the list, before and after its byte is read. *)
Definition at_zero (rest : list Z) (left : Z) (k : option Kind) : Stream :=
  {| r := bytes_reader rest; remaining := left; limited := true; kind := k; size := 0; byteval := 0;
     kinderr := None; stack := [{| pos := 1 - left; lsize := 1 |}] |}.

Lemma stuck_arrays n fuel : decodeListSlice
    (fun s old => let? info := info_at arrays_cache 1 in
       run_decoder ∅ no_decoders 10 arrays_cache n (idecoder info) (TArray 1 (TUint W8)) s old)
    (VBytes [0]) fuel byte_arrays (NewStream (bytes_reader [193; 0]) 2) (VSlice [] []) = NoFuel.
Proof.
  unfold decodeListSlice.
  assert (StreamList (NewStream (bytes_reader [193; 0]) 2) = (at_zero [0] 1 None, inr 1)) as -> by by vm_compute.
  cbn [Z.eqb]. unfold decodeSliceElems. cbn [cells_of].
  destruct arrays_generated as (_ & _ & E1). destruct n as [|n].
  - destruct fuel as [|fuel]; [done|]. simpl. by rewrite E1.
  - rewrite (stuck_loop _ _ _ (at_zero [] 0 (Some Byte))); try done; try (by constructor); [| |by exists 0];
      intros v [x ->]; by rewrite E1; vm_compute.
Qed.

(** Decoding the two bytes 0xc1 0x00, a list with one single-byte value
    zero, into a slice of one-byte arrays never returns, however many steps
    are taken: [decodeByteArray] drops the error of [Uint], which has not
    consumed the byte, so each round of the loop appends another element.  The
    list 0xc1 0x01 is decoded as it should be. *)
Theorem byte_arrays_never_decoded :
  (forall fuel, decode_arrays fuel [193; 0] = NoFuel) /\
  exists tc spare, decode_arrays 10 [193; 1] =
    Ok (tc, (Some (TPtr byte_arrays, VPtr (Some (VSlice [VBytes [1]] spare))), None)).
Proof.
  split; [|do 2 eexists; vm_compute; reflexivity].
  intros fuel. unfold decode_arrays, DecodeBytes, StreamDecode. destruct arrays_generated as (E & E0 & _).
  change (kind_of ∅ (TPtr byte_arrays)) with (KPtr byte_arrays). cbv iota. rewrite E. cbn [rbind]. rewrite E0. cbn [rbind idecoder].
  destruct fuel as [|fuel]; [done|].
  pose proof (stuck_arrays fuel fuel) as H. cbn [run_decoder].
  change (Zero ∅ 10 (elem_type ∅ byte_arrays)) with (Ok (VBytes [0])). cbn [rbind].
  change (u64 (len [193; 0])) with 2. change (elem_type ∅ byte_arrays) with (TArray 1 (TUint W8)). by rewrite H.
Qed.

(** [type A struct { B *B; C chan int }] and [type B struct { A *A }]. *)
Definition field (name : string) (t : typ) : sfield := {| Name := name; Exported := true; Tag := ""; Type' := t |}.
Definition plain (u : underlying) : decl := {| Under := u; EncodeRLP_on := None; DecodeRLP_on := None |}.
Definition cyclic : gmap string decl :=
  {[ "A" := plain (UStruct [field "B" (TPtr (TNamed "B")); field "C" (TOther "chan")]);
     "B" := plain (UStruct [field "A" (TPtr (TNamed "A"))]) ]}.
Definition value_A : val := VStruct [VPtr None; VOther].
Definition value_B : val := VStruct [VPtr (Some value_A)].

(** A type that cannot be serialized breaks the types it refers to.
    Encoding a [B] that holds an [A] fails with an error; but once an encoding
    of an [A] has failed, encoding the same [B] panics: the failed generation
    removes [A] from the cache and leaves [B] there, with a pointer to the
    functions of [A] that were never filled in. *)
Theorem failed_type_poisons_cache (buf : encbuf) :
  let encode t v := EncodeToBytes cyclic no_encoders 20 20 buf t v in
  (exists tc e, encode (TNamed "B") value_B empty_cache = Ok (tc, inl e)) /\
  exists tc e, encode (TNamed "A") value_A empty_cache = Ok (tc, inl e) /\
    encode (TNamed "B") value_B tc = Panic.
Proof.
  cbv zeta. split; [do 2 eexists; vm_compute; reflexivity|].
  eexists _, _. split; [vm_compute; reflexivity|vm_compute; reflexivity].
Qed.

End RlpLaws.
