(* ===== verification/Keccak.v ===== *)
(** * Keccak: the permutation and the sponge

    Translates [src/crypto/sha3]: [keccakf.go] (the portable permutation, four
    rounds unrolled in place), [xor_generic.go] and [xor_unaligned.go] (moving
    bytes in and out of the state), [sha3.go] (the sponge), [hashes.go] and
    [shake.go].

    The state is the array of 25 lanes, a list of 25 unsigned 64-bit integers;
    its indices are constants in the source.  The slice [buf] of a sponge
    always points into its array [storage]: it is kept as an offset and a
    length, a nil slice as the empty slice at offset 0. *)

From Stdlib Require Import Lia.
From stdpp Require Import base list numbers.
From S2P Require Import Prelude BigInt.

#[local] Open Scope Z_scope.
#[local] Open Scope go_scope.

Declare Scope lanes_scope.
Delimit Scope lanes_scope with lanes.

Module Keccak.

(** ** Lanes *)

Definition lane (a : list Z) (i : nat) : Z := nth i a 0.
Definition set_lane (a : list Z) (i : nat) (x : Z) : list Z := <[i := x]> a.

(** [t<<n | t>>(64-n)] on 64 bits. *)
Definition rotl (t n : Z) : Z := Z.lor (u64 (Z.shiftl t n)) (Z.shiftr t (64 - n)).

Notation "a .[ i ]" := (lane a i%nat) (at level 1, format "a .[ i ]") : lanes_scope.
Notation "a .[ i <- x ]" := (set_lane a i%nat x) (at level 1) : lanes_scope.
Infix "⊕" := Z.lxor (at level 50, left associativity) : lanes_scope.
Infix "&^" := Z.ldiff (at level 40, no associativity) : lanes_scope.

Section Permutation.
#[local] Open Scope lanes_scope.

(** ** [keccakF1600] *)

Definition rc : list Z :=
  [
    0x0000000000000001; 0x0000000000008082;
    0x800000000000808A; 0x8000000080008000;
    0x000000000000808B; 0x0000000080000001;
    0x8000000080008081; 0x8000000000008009;
    0x000000000000008A; 0x0000000000000088;
    0x0000000080008009; 0x000000008000000A;
    0x000000008000808B; 0x800000000000008B;
    0x8000000000008089; 0x8000000000008003;
    0x8000000000008002; 0x8000000000000080;
    0x000000000000800A; 0x800000008000000A;
    0x8000000080008081; 0x8000000000008080;
    0x0000000080000001; 0x8000000080008008
  ].

Definition round1 (rc : Z) (a : list Z) : list Z :=
  let bc0 := a.[0] ⊕ a.[5] ⊕ a.[10] ⊕ a.[15] ⊕ a.[20] in
  let bc1 := a.[1] ⊕ a.[6] ⊕ a.[11] ⊕ a.[16] ⊕ a.[21] in
  let bc2 := a.[2] ⊕ a.[7] ⊕ a.[12] ⊕ a.[17] ⊕ a.[22] in
  let bc3 := a.[3] ⊕ a.[8] ⊕ a.[13] ⊕ a.[18] ⊕ a.[23] in
  let bc4 := a.[4] ⊕ a.[9] ⊕ a.[14] ⊕ a.[19] ⊕ a.[24] in
  let d0 := bc4 ⊕ rotl bc1 1 in
  let d1 := bc0 ⊕ rotl bc2 1 in
  let d2 := bc1 ⊕ rotl bc3 1 in
  let d3 := bc2 ⊕ rotl bc4 1 in
  let d4 := bc3 ⊕ rotl bc0 1 in
  let bc0 := a.[0] ⊕ d0 in
  let t := a.[6] ⊕ d1 in
  let bc1 := rotl t 44 in
  let t := a.[12] ⊕ d2 in
  let bc2 := rotl t 43 in
  let t := a.[18] ⊕ d3 in
  let bc3 := rotl t 21 in
  let t := a.[24] ⊕ d4 in
  let bc4 := rotl t 14 in
  let a := a.[0 <- bc0 ⊕ (bc2 &^ bc1) ⊕ rc] in
  let a := a.[6 <- bc1 ⊕ (bc3 &^ bc2)] in
  let a := a.[12 <- bc2 ⊕ (bc4 &^ bc3)] in
  let a := a.[18 <- bc3 ⊕ (bc0 &^ bc4)] in
  let a := a.[24 <- bc4 ⊕ (bc1 &^ bc0)] in
  let t := a.[10] ⊕ d0 in
  let bc2 := rotl t 3 in
  let t := a.[16] ⊕ d1 in
  let bc3 := rotl t 45 in
  let t := a.[22] ⊕ d2 in
  let bc4 := rotl t 61 in
  let t := a.[3] ⊕ d3 in
  let bc0 := rotl t 28 in
  let t := a.[9] ⊕ d4 in
  let bc1 := rotl t 20 in
  let a := a.[10 <- bc0 ⊕ (bc2 &^ bc1)] in
  let a := a.[16 <- bc1 ⊕ (bc3 &^ bc2)] in
  let a := a.[22 <- bc2 ⊕ (bc4 &^ bc3)] in
  let a := a.[3 <- bc3 ⊕ (bc0 &^ bc4)] in
  let a := a.[9 <- bc4 ⊕ (bc1 &^ bc0)] in
  let t := a.[20] ⊕ d0 in
  let bc4 := rotl t 18 in
  let t := a.[1] ⊕ d1 in
  let bc0 := rotl t 1 in
  let t := a.[7] ⊕ d2 in
  let bc1 := rotl t 6 in
  let t := a.[13] ⊕ d3 in
  let bc2 := rotl t 25 in
  let t := a.[19] ⊕ d4 in
  let bc3 := rotl t 8 in
  let a := a.[20 <- bc0 ⊕ (bc2 &^ bc1)] in
  let a := a.[1 <- bc1 ⊕ (bc3 &^ bc2)] in
  let a := a.[7 <- bc2 ⊕ (bc4 &^ bc3)] in
  let a := a.[13 <- bc3 ⊕ (bc0 &^ bc4)] in
  let a := a.[19 <- bc4 ⊕ (bc1 &^ bc0)] in
  let t := a.[5] ⊕ d0 in
  let bc1 := rotl t 36 in
  let t := a.[11] ⊕ d1 in
  let bc2 := rotl t 10 in
  let t := a.[17] ⊕ d2 in
  let bc3 := rotl t 15 in
  let t := a.[23] ⊕ d3 in
  let bc4 := rotl t 56 in
  let t := a.[4] ⊕ d4 in
  let bc0 := rotl t 27 in
  let a := a.[5 <- bc0 ⊕ (bc2 &^ bc1)] in
  let a := a.[11 <- bc1 ⊕ (bc3 &^ bc2)] in
  let a := a.[17 <- bc2 ⊕ (bc4 &^ bc3)] in
  let a := a.[23 <- bc3 ⊕ (bc0 &^ bc4)] in
  let a := a.[4 <- bc4 ⊕ (bc1 &^ bc0)] in
  let t := a.[15] ⊕ d0 in
  let bc3 := rotl t 41 in
  let t := a.[21] ⊕ d1 in
  let bc4 := rotl t 2 in
  let t := a.[2] ⊕ d2 in
  let bc0 := rotl t 62 in
  let t := a.[8] ⊕ d3 in
  let bc1 := rotl t 55 in
  let t := a.[14] ⊕ d4 in
  let bc2 := rotl t 39 in
  let a := a.[15 <- bc0 ⊕ (bc2 &^ bc1)] in
  let a := a.[21 <- bc1 ⊕ (bc3 &^ bc2)] in
  let a := a.[2 <- bc2 ⊕ (bc4 &^ bc3)] in
  let a := a.[8 <- bc3 ⊕ (bc0 &^ bc4)] in
  let a := a.[14 <- bc4 ⊕ (bc1 &^ bc0)] in
  a.

Definition round2 (rc : Z) (a : list Z) : list Z :=
  let bc0 := a.[0] ⊕ a.[5] ⊕ a.[10] ⊕ a.[15] ⊕ a.[20] in
  let bc1 := a.[1] ⊕ a.[6] ⊕ a.[11] ⊕ a.[16] ⊕ a.[21] in
  let bc2 := a.[2] ⊕ a.[7] ⊕ a.[12] ⊕ a.[17] ⊕ a.[22] in
  let bc3 := a.[3] ⊕ a.[8] ⊕ a.[13] ⊕ a.[18] ⊕ a.[23] in
  let bc4 := a.[4] ⊕ a.[9] ⊕ a.[14] ⊕ a.[19] ⊕ a.[24] in
  let d0 := bc4 ⊕ rotl bc1 1 in
  let d1 := bc0 ⊕ rotl bc2 1 in
  let d2 := bc1 ⊕ rotl bc3 1 in
  let d3 := bc2 ⊕ rotl bc4 1 in
  let d4 := bc3 ⊕ rotl bc0 1 in
  let bc0 := a.[0] ⊕ d0 in
  let t := a.[16] ⊕ d1 in
  let bc1 := rotl t 44 in
  let t := a.[7] ⊕ d2 in
  let bc2 := rotl t 43 in
  let t := a.[23] ⊕ d3 in
  let bc3 := rotl t 21 in
  let t := a.[14] ⊕ d4 in
  let bc4 := rotl t 14 in
  let a := a.[0 <- bc0 ⊕ (bc2 &^ bc1) ⊕ rc] in
  let a := a.[16 <- bc1 ⊕ (bc3 &^ bc2)] in
  let a := a.[7 <- bc2 ⊕ (bc4 &^ bc3)] in
  let a := a.[23 <- bc3 ⊕ (bc0 &^ bc4)] in
  let a := a.[14 <- bc4 ⊕ (bc1 &^ bc0)] in
  let t := a.[20] ⊕ d0 in
  let bc2 := rotl t 3 in
  let t := a.[11] ⊕ d1 in
  let bc3 := rotl t 45 in
  let t := a.[2] ⊕ d2 in
  let bc4 := rotl t 61 in
  let t := a.[18] ⊕ d3 in
  let bc0 := rotl t 28 in
  let t := a.[9] ⊕ d4 in
  let bc1 := rotl t 20 in
  let a := a.[20 <- bc0 ⊕ (bc2 &^ bc1)] in
  let a := a.[11 <- bc1 ⊕ (bc3 &^ bc2)] in
  let a := a.[2 <- bc2 ⊕ (bc4 &^ bc3)] in
  let a := a.[18 <- bc3 ⊕ (bc0 &^ bc4)] in
  let a := a.[9 <- bc4 ⊕ (bc1 &^ bc0)] in
  let t := a.[15] ⊕ d0 in
  let bc4 := rotl t 18 in
  let t := a.[6] ⊕ d1 in
  let bc0 := rotl t 1 in
  let t := a.[22] ⊕ d2 in
  let bc1 := rotl t 6 in
  let t := a.[13] ⊕ d3 in
  let bc2 := rotl t 25 in
  let t := a.[4] ⊕ d4 in
  let bc3 := rotl t 8 in
  let a := a.[15 <- bc0 ⊕ (bc2 &^ bc1)] in
  let a := a.[6 <- bc1 ⊕ (bc3 &^ bc2)] in
  let a := a.[22 <- bc2 ⊕ (bc4 &^ bc3)] in
  let a := a.[13 <- bc3 ⊕ (bc0 &^ bc4)] in
  let a := a.[4 <- bc4 ⊕ (bc1 &^ bc0)] in
  let t := a.[10] ⊕ d0 in
  let bc1 := rotl t 36 in
  let t := a.[1] ⊕ d1 in
  let bc2 := rotl t 10 in
  let t := a.[17] ⊕ d2 in
  let bc3 := rotl t 15 in
  let t := a.[8] ⊕ d3 in
  let bc4 := rotl t 56 in
  let t := a.[24] ⊕ d4 in
  let bc0 := rotl t 27 in
  let a := a.[10 <- bc0 ⊕ (bc2 &^ bc1)] in
  let a := a.[1 <- bc1 ⊕ (bc3 &^ bc2)] in
  let a := a.[17 <- bc2 ⊕ (bc4 &^ bc3)] in
  let a := a.[8 <- bc3 ⊕ (bc0 &^ bc4)] in
  let a := a.[24 <- bc4 ⊕ (bc1 &^ bc0)] in
  let t := a.[5] ⊕ d0 in
  let bc3 := rotl t 41 in
  let t := a.[21] ⊕ d1 in
  let bc4 := rotl t 2 in
  let t := a.[12] ⊕ d2 in
  let bc0 := rotl t 62 in
  let t := a.[3] ⊕ d3 in
  let bc1 := rotl t 55 in
  let t := a.[19] ⊕ d4 in
  let bc2 := rotl t 39 in
  let a := a.[5 <- bc0 ⊕ (bc2 &^ bc1)] in
  let a := a.[21 <- bc1 ⊕ (bc3 &^ bc2)] in
  let a := a.[12 <- bc2 ⊕ (bc4 &^ bc3)] in
  let a := a.[3 <- bc3 ⊕ (bc0 &^ bc4)] in
  let a := a.[19 <- bc4 ⊕ (bc1 &^ bc0)] in
  a.

Definition round3 (rc : Z) (a : list Z) : list Z :=
  let bc0 := a.[0] ⊕ a.[5] ⊕ a.[10] ⊕ a.[15] ⊕ a.[20] in
  let bc1 := a.[1] ⊕ a.[6] ⊕ a.[11] ⊕ a.[16] ⊕ a.[21] in
  let bc2 := a.[2] ⊕ a.[7] ⊕ a.[12] ⊕ a.[17] ⊕ a.[22] in
  let bc3 := a.[3] ⊕ a.[8] ⊕ a.[13] ⊕ a.[18] ⊕ a.[23] in
  let bc4 := a.[4] ⊕ a.[9] ⊕ a.[14] ⊕ a.[19] ⊕ a.[24] in
  let d0 := bc4 ⊕ rotl bc1 1 in
  let d1 := bc0 ⊕ rotl bc2 1 in
  let d2 := bc1 ⊕ rotl bc3 1 in
  let d3 := bc2 ⊕ rotl bc4 1 in
  let d4 := bc3 ⊕ rotl bc0 1 in
  let bc0 := a.[0] ⊕ d0 in
  let t := a.[11] ⊕ d1 in
  let bc1 := rotl t 44 in
  let t := a.[22] ⊕ d2 in
  let bc2 := rotl t 43 in
  let t := a.[8] ⊕ d3 in
  let bc3 := rotl t 21 in
  let t := a.[19] ⊕ d4 in
  let bc4 := rotl t 14 in
  let a := a.[0 <- bc0 ⊕ (bc2 &^ bc1) ⊕ rc] in
  let a := a.[11 <- bc1 ⊕ (bc3 &^ bc2)] in
  let a := a.[22 <- bc2 ⊕ (bc4 &^ bc3)] in
  let a := a.[8 <- bc3 ⊕ (bc0 &^ bc4)] in
  let a := a.[19 <- bc4 ⊕ (bc1 &^ bc0)] in
  let t := a.[15] ⊕ d0 in
  let bc2 := rotl t 3 in
  let t := a.[1] ⊕ d1 in
  let bc3 := rotl t 45 in
  let t := a.[12] ⊕ d2 in
  let bc4 := rotl t 61 in
  let t := a.[23] ⊕ d3 in
  let bc0 := rotl t 28 in
  let t := a.[9] ⊕ d4 in
  let bc1 := rotl t 20 in
  let a := a.[15 <- bc0 ⊕ (bc2 &^ bc1)] in
  let a := a.[1 <- bc1 ⊕ (bc3 &^ bc2)] in
  let a := a.[12 <- bc2 ⊕ (bc4 &^ bc3)] in
  let a := a.[23 <- bc3 ⊕ (bc0 &^ bc4)] in
  let a := a.[9 <- bc4 ⊕ (bc1 &^ bc0)] in
  let t := a.[5] ⊕ d0 in
  let bc4 := rotl t 18 in
  let t := a.[16] ⊕ d1 in
  let bc0 := rotl t 1 in
  let t := a.[2] ⊕ d2 in
  let bc1 := rotl t 6 in
  let t := a.[13] ⊕ d3 in
  let bc2 := rotl t 25 in
  let t := a.[24] ⊕ d4 in
  let bc3 := rotl t 8 in
  let a := a.[5 <- bc0 ⊕ (bc2 &^ bc1)] in
  let a := a.[16 <- bc1 ⊕ (bc3 &^ bc2)] in
  let a := a.[2 <- bc2 ⊕ (bc4 &^ bc3)] in
  let a := a.[13 <- bc3 ⊕ (bc0 &^ bc4)] in
  let a := a.[24 <- bc4 ⊕ (bc1 &^ bc0)] in
  let t := a.[20] ⊕ d0 in
  let bc1 := rotl t 36 in
  let t := a.[6] ⊕ d1 in
  let bc2 := rotl t 10 in
  let t := a.[17] ⊕ d2 in
  let bc3 := rotl t 15 in
  let t := a.[3] ⊕ d3 in
  let bc4 := rotl t 56 in
  let t := a.[14] ⊕ d4 in
  let bc0 := rotl t 27 in
  let a := a.[20 <- bc0 ⊕ (bc2 &^ bc1)] in
  let a := a.[6 <- bc1 ⊕ (bc3 &^ bc2)] in
  let a := a.[17 <- bc2 ⊕ (bc4 &^ bc3)] in
  let a := a.[3 <- bc3 ⊕ (bc0 &^ bc4)] in
  let a := a.[14 <- bc4 ⊕ (bc1 &^ bc0)] in
  let t := a.[10] ⊕ d0 in
  let bc3 := rotl t 41 in
  let t := a.[21] ⊕ d1 in
  let bc4 := rotl t 2 in
  let t := a.[7] ⊕ d2 in
  let bc0 := rotl t 62 in
  let t := a.[18] ⊕ d3 in
  let bc1 := rotl t 55 in
  let t := a.[4] ⊕ d4 in
  let bc2 := rotl t 39 in
  let a := a.[10 <- bc0 ⊕ (bc2 &^ bc1)] in
  let a := a.[21 <- bc1 ⊕ (bc3 &^ bc2)] in
  let a := a.[7 <- bc2 ⊕ (bc4 &^ bc3)] in
  let a := a.[18 <- bc3 ⊕ (bc0 &^ bc4)] in
  let a := a.[4 <- bc4 ⊕ (bc1 &^ bc0)] in
  a.

Definition round4 (rc : Z) (a : list Z) : list Z :=
  let bc0 := a.[0] ⊕ a.[5] ⊕ a.[10] ⊕ a.[15] ⊕ a.[20] in
  let bc1 := a.[1] ⊕ a.[6] ⊕ a.[11] ⊕ a.[16] ⊕ a.[21] in
  let bc2 := a.[2] ⊕ a.[7] ⊕ a.[12] ⊕ a.[17] ⊕ a.[22] in
  let bc3 := a.[3] ⊕ a.[8] ⊕ a.[13] ⊕ a.[18] ⊕ a.[23] in
  let bc4 := a.[4] ⊕ a.[9] ⊕ a.[14] ⊕ a.[19] ⊕ a.[24] in
  let d0 := bc4 ⊕ rotl bc1 1 in
  let d1 := bc0 ⊕ rotl bc2 1 in
  let d2 := bc1 ⊕ rotl bc3 1 in
  let d3 := bc2 ⊕ rotl bc4 1 in
  let d4 := bc3 ⊕ rotl bc0 1 in
  let bc0 := a.[0] ⊕ d0 in
  let t := a.[1] ⊕ d1 in
  let bc1 := rotl t 44 in
  let t := a.[2] ⊕ d2 in
  let bc2 := rotl t 43 in
  let t := a.[3] ⊕ d3 in
  let bc3 := rotl t 21 in
  let t := a.[4] ⊕ d4 in
  let bc4 := rotl t 14 in
  let a := a.[0 <- bc0 ⊕ (bc2 &^ bc1) ⊕ rc] in
  let a := a.[1 <- bc1 ⊕ (bc3 &^ bc2)] in
  let a := a.[2 <- bc2 ⊕ (bc4 &^ bc3)] in
  let a := a.[3 <- bc3 ⊕ (bc0 &^ bc4)] in
  let a := a.[4 <- bc4 ⊕ (bc1 &^ bc0)] in
  let t := a.[5] ⊕ d0 in
  let bc2 := rotl t 3 in
  let t := a.[6] ⊕ d1 in
  let bc3 := rotl t 45 in
  let t := a.[7] ⊕ d2 in
  let bc4 := rotl t 61 in
  let t := a.[8] ⊕ d3 in
  let bc0 := rotl t 28 in
  let t := a.[9] ⊕ d4 in
  let bc1 := rotl t 20 in
  let a := a.[5 <- bc0 ⊕ (bc2 &^ bc1)] in
  let a := a.[6 <- bc1 ⊕ (bc3 &^ bc2)] in
  let a := a.[7 <- bc2 ⊕ (bc4 &^ bc3)] in
  let a := a.[8 <- bc3 ⊕ (bc0 &^ bc4)] in
  let a := a.[9 <- bc4 ⊕ (bc1 &^ bc0)] in
  let t := a.[10] ⊕ d0 in
  let bc4 := rotl t 18 in
  let t := a.[11] ⊕ d1 in
  let bc0 := rotl t 1 in
  let t := a.[12] ⊕ d2 in
  let bc1 := rotl t 6 in
  let t := a.[13] ⊕ d3 in
  let bc2 := rotl t 25 in
  let t := a.[14] ⊕ d4 in
  let bc3 := rotl t 8 in
  let a := a.[10 <- bc0 ⊕ (bc2 &^ bc1)] in
  let a := a.[11 <- bc1 ⊕ (bc3 &^ bc2)] in
  let a := a.[12 <- bc2 ⊕ (bc4 &^ bc3)] in
  let a := a.[13 <- bc3 ⊕ (bc0 &^ bc4)] in
  let a := a.[14 <- bc4 ⊕ (bc1 &^ bc0)] in
  let t := a.[15] ⊕ d0 in
  let bc1 := rotl t 36 in
  let t := a.[16] ⊕ d1 in
  let bc2 := rotl t 10 in
  let t := a.[17] ⊕ d2 in
  let bc3 := rotl t 15 in
  let t := a.[18] ⊕ d3 in
  let bc4 := rotl t 56 in
  let t := a.[19] ⊕ d4 in
  let bc0 := rotl t 27 in
  let a := a.[15 <- bc0 ⊕ (bc2 &^ bc1)] in
  let a := a.[16 <- bc1 ⊕ (bc3 &^ bc2)] in
  let a := a.[17 <- bc2 ⊕ (bc4 &^ bc3)] in
  let a := a.[18 <- bc3 ⊕ (bc0 &^ bc4)] in
  let a := a.[19 <- bc4 ⊕ (bc1 &^ bc0)] in
  let t := a.[20] ⊕ d0 in
  let bc3 := rotl t 41 in
  let t := a.[21] ⊕ d1 in
  let bc4 := rotl t 2 in
  let t := a.[22] ⊕ d2 in
  let bc0 := rotl t 62 in
  let t := a.[23] ⊕ d3 in
  let bc1 := rotl t 55 in
  let t := a.[24] ⊕ d4 in
  let bc2 := rotl t 39 in
  let a := a.[20 <- bc0 ⊕ (bc2 &^ bc1)] in
  let a := a.[21 <- bc1 ⊕ (bc3 &^ bc2)] in
  let a := a.[22 <- bc2 ⊕ (bc4 &^ bc3)] in
  let a := a.[23 <- bc3 ⊕ (bc0 &^ bc4)] in
  let a := a.[24 <- bc4 ⊕ (bc1 &^ bc0)] in
  a.

(** The loop [for i := 0; i < 24; i += 4]. *)
Definition keccakF1600_step (a : list Z) (i : nat) : list Z :=
  let a := round1 rc.[i] a in
  let a := round2 rc.[i + 1] a in
  let a := round3 rc.[i + 2] a in
  let a := round4 rc.[i + 3] a in
  a.
Definition keccakF1600 (a : list Z) : list Z := fold_left keccakF1600_step [0; 4; 8; 12; 16; 20]%nat a.

End Permutation.

(** ** Bytes in and out of the state *)

(** [binary.LittleEndian.Uint64] and [PutUint64]. *)
Definition Uint64_le (b : bytes) : Z := Big.SetBytes (reverse (take 8 b)).
Definition bytes_le (x : Z) : bytes := reverse (Big.be 8 x).

Fixpoint xorIn_loop (n i : nat) (a : list Z) (buf : bytes) : result (list Z) :=
  match n with
  | O => Ok a
  | S n =>
      let? x := index a (Z.of_nat i) in
      let? a := update a (Z.of_nat i) (Z.lxor x (Uint64_le buf)) in
      let? buf := slice buf 8 (len buf) in
      xorIn_loop n (S i) a buf
  end.
Definition xorInGeneric (a : list Z) (buf : bytes) : result (list Z) := xorIn_loop (length buf / 8) 0 a buf.

(** The content of [b] after the call. *)
Fixpoint copyOut_loop (fuel i : nat) (a : list Z) (b : bytes) : result bytes :=
  if 8 <=? len b then
    match fuel with
    | O => NoFuel
    | S fuel =>
        let? x := index a (Z.of_nat i) in
        let? rest := copyOut_loop fuel (S i) a (drop 8 b) in
        Ok (bytes_le x ++ rest)
    end
  else Ok b.
Definition copyOutGeneric (a : list Z) (b : bytes) : result bytes := copyOut_loop (length b) 0 a b.

(** [d.a[i] ^= bw[i]] for [i] from [from] on, [n] times; [bw] is the memory of
    the buffer as little-endian words. *)
Fixpoint xor_words (n from : nat) (a : list Z) (buf : bytes) : list Z :=
  match n with
  | O => a
  | S n => xor_words n (S from) (set_lane a from (Z.lxor (lane a from) (Uint64_le (drop (8 * from) buf)))) buf
  end.
Definition xorInUnaligned (a : list Z) (buf : bytes) : result (list Z) :=
  let? _ := index buf 0 in
  let n := len buf in
  let a := if n >=? 72 then xor_words 9 0 a buf else a in
  let a := if n >=? 104 then xor_words 4 9 a buf else a in
  let a := if n >=? 136 then xor_words 4 13 a buf else a in
  let a := if n >=? 144 then xor_words 1 17 a buf else a in
  Ok (if n >=? 168 then xor_words 3 18 a buf else a).

Definition maxRate : Z := 168.

Definition copyOutUnaligned (a : list Z) (buf : bytes) : result bytes :=
  let ab := take (Z.to_nat maxRate) (concat (map bytes_le a)) in
  Ok (copy_into buf ab).

(** What build tags choose: the permutation (assembly on amd64, the code above
    elsewhere) and the two variables [xorIn] and [copyOut]. *)
Class Impl := {
  permutation : list Z -> list Z;
  xorIn : list Z -> bytes -> result (list Z);
  copyOut : list Z -> bytes -> result bytes;
}.
Definition generic : Impl :=
  {| permutation := keccakF1600; xorIn := xorInGeneric; copyOut := copyOutGeneric |}.
Definition unaligned : Impl :=
  {| permutation := keccakF1600; xorIn := xorInUnaligned; copyOut := copyOutUnaligned |}.
(** The build for amd64, given its assembly permutation. *)
Definition amd64 (keccakF1600_amd64 : list Z -> list Z) : Impl :=
  {| permutation := keccakF1600_amd64; xorIn := xorInUnaligned; copyOut := copyOutUnaligned |}.

(** ** The sponge *)

Inductive spongeDirection := spongeAbsorbing | spongeSqueezing.

Record state := mkState {
  lanes : list Z;
  buf_at : Z;
  buf_len : Z;
  rate : Z;
  dsbyte : Z;
  storage : bytes;
  outputLen : Z;
  direction : spongeDirection;
}.

Definition set_lanes x d := mkState x (buf_at d) (buf_len d) (rate d) (dsbyte d) (storage d) (outputLen d) (direction d).
Definition set_buf i n d := mkState (lanes d) i n (rate d) (dsbyte d) (storage d) (outputLen d) (direction d).
Definition set_storage x d := mkState (lanes d) (buf_at d) (buf_len d) (rate d) (dsbyte d) x (outputLen d) (direction d).
Definition set_direction x d := mkState (lanes d) (buf_at d) (buf_len d) (rate d) (dsbyte d) (storage d) (outputLen d) x.

(** [d.buf], its capacity, and [d.storage[i:j]] as the new buffer. *)
Definition buf (d : state) : result bytes := slice (storage d) (buf_at d) (buf_at d + buf_len d).
Definition cap_buf (d : state) : Z := maxRate - buf_at d.
Definition point (d : state) (i j : Z) : result state :=
  let? _ := slice (storage d) i j in Ok (set_buf i (j - i) d).

(** [append(d.buf, p...)] while the capacity suffices, which it does in every
    reachable state: the bytes are stored behind the buffer. *)
Definition append_buf (d : state) (p : bytes) : result state :=
  let e := buf_at d + buf_len d in
  let? st := copy_at (storage d) e (e + len p) p in
  Ok (set_buf (buf_at d) (buf_len d + len p) (set_storage st d)).

Definition BlockSize (d : state) : Z := rate d.
Definition Size (d : state) : Z := outputLen d.

Definition Reset (d : state) : state :=
  set_buf 0 0 (set_direction spongeAbsorbing (set_lanes (replicate 25 0) d)).

Definition clone (d : state) : result state :=
  match direction d with
  | spongeAbsorbing => point d 0 (buf_len d)
  | spongeSqueezing => point d (rate d - cap_buf d) (rate d)
  end.

Section Sponge.
Context `{Impl}.

(** [copyOut(d, d.buf)]. *)
Definition fill_buf (d : state) : result state :=
  let? b := buf d in
  let? b := copyOut (lanes d) b in
  let? st := copy_at (storage d) (buf_at d) (buf_at d + buf_len d) b in
  Ok (set_storage st d).

Definition permute (d : state) : result state :=
  match direction d with
  | spongeAbsorbing =>
      let? b := buf d in
      let? a := xorIn (lanes d) b in
      let? d := point d 0 0 in
      Ok (set_lanes (permutation a) d)
  | spongeSqueezing =>
      let d := set_lanes (permutation (lanes d)) d in
      let? d := point d 0 (rate d) in
      fill_buf d
  end.

Definition padAndPermute (d : state) (dsbyte : Z) : result state :=
  let? d := append_buf d [dsbyte] in
  let zerosStart := buf_len d in
  let? d := point d 0 (rate d) in
  let? st := copy_at (storage d) zerosStart (rate d) (zeros (rate d - zerosStart)) in
  let? last := index st (rate d - 1) in
  let? st := update st (rate d - 1) (Z.lxor last 0x80) in
  let? d := permute (set_storage st d) in
  let d := set_direction spongeSqueezing d in
  let? d := point d 0 (rate d) in
  fill_buf d.

Fixpoint Write_loop (fuel : nat) (d : state) (p : bytes) : result state :=
  match p with
  | [] => Ok d
  | _ =>
      match fuel with
      | O => NoFuel
      | S fuel =>
          if (buf_len d =? 0) && (len p >=? rate d) then
            let? block := slice p 0 (rate d) in
            let? a := xorIn (lanes d) block in
            let? p := slice p (rate d) (len p) in
            Write_loop fuel (set_lanes (permutation a) d) p
          else
            let todo := rate d - buf_len d in
            let todo := if todo >? len p then len p else todo in
            let? chunk := slice p 0 todo in
            let? d := append_buf d chunk in
            let? p := slice p todo (len p) in
            if buf_len d =? rate d then let? d := permute d in Write_loop fuel d p
            else Write_loop fuel d p
      end
  end.

Definition Write (d : state) (p : bytes) : result (state * Z) :=
  match direction d with
  | spongeSqueezing => Panic
  | spongeAbsorbing => let? d := Write_loop (length p) d p in Ok (d, len p)
  end.

(** [n] bytes are still wanted; the bytes delivered. *)
Fixpoint Read_loop (fuel : nat) (d : state) (n : Z) : result (state * bytes) :=
  if n <=? 0 then Ok (d, [])
  else match fuel with
  | O => NoFuel
  | S fuel =>
      let? b := buf d in
      let k := Z.min n (len b) in
      let d := set_buf (buf_at d + k) (buf_len d - k) d in
      let? d := if buf_len d =? 0 then permute d else Ok d in
      let? (d, rest) := Read_loop fuel d (n - k) in
      Ok (d, take (Z.to_nat k) b ++ rest)
  end.

Definition Read (d : state) (n : Z) : result (state * bytes) :=
  let? d := match direction d with
    | spongeAbsorbing => padAndPermute d (dsbyte d)
    | spongeSqueezing => Ok d
    end in
  Read_loop (Z.to_nat n) d n.

(** The receiver is not changed: the copy has its own storage. *)
Definition Sum (d : state) (pre : bytes) : result bytes :=
  let? dup := clone d in
  let? (_, hash) := Read dup (outputLen dup) in
  Ok (pre ++ hash).

End Sponge.

(** ** Instances *)

Definition new_state (rate outputLen dsbyte : Z) : state :=
  mkState (replicate 25 0) 0 0 rate dsbyte (zeros maxRate) outputLen spongeAbsorbing.

Definition NewKeccak256 : state := new_state 136 32 0x01.
Definition NewKeccak512 : state := new_state 72 64 0x01.
Definition New224 : state := new_state 144 28 0x06.
Definition New256 : state := new_state 136 32 0x06.
Definition New384 : state := new_state 104 48 0x06.
Definition New512 : state := new_state 72 64 0x06.
Definition NewShake128 : state := new_state 168 0 0x1f.
Definition NewShake256 : state := new_state 136 0 0x1f.

Section Hashes.
Context `{Impl}.

Definition digest (d : state) (data : bytes) : result bytes := let? (d, _) := Write d data in Sum d [].
Definition Sum224 (data : bytes) : result bytes := digest New224 data.
Definition Sum256 (data : bytes) : result bytes := digest New256 data.
Definition Sum384 (data : bytes) : result bytes := digest New384 data.
Definition Sum512 (data : bytes) : result bytes := digest New512 data.

(** The content of [hash], of length [n], after the call. *)
Definition shake (d : state) (n : Z) (data : bytes) : result bytes :=
  let? (d, _) := Write d data in let? (_, hash) := Read d n in Ok hash.
Definition ShakeSum128 (n : Z) (data : bytes) : result bytes := shake NewShake128 n data.
Definition ShakeSum256 (n : Z) (data : bytes) : result bytes := shake NewShake256 n data.

End Hashes.

End Keccak.
