(* ===== verification/KeccakSpec.v ===== *)
(** * Keccak: the reference and the correctness of the permutation

    The reference is written from the definition of Keccak-f[1600]: a state of
    5 x 5 lanes, the steps theta, rho, pi, chi and iota, rotation offsets and
    round constants generated by their recurrences.  [keccakF_correct] shows
    that the unrolled in-place code computes it. *)

From Stdlib Require Import Lia.
From stdpp Require Import base list numbers.
From S2P Require Import Prelude BigInt Keccak.

#[local] Open Scope Z_scope.
#[local] Open Scope go_scope.

Module KeccakSpec.
Import Keccak.
#[local] Open Scope lanes_scope.

(** ** The reference permutation *)

(** Lane (x, y), coordinates modulo 5, and a state given by its lanes. *)
Definition A (a : list Z) (x y : nat) : Z := lane a (5 * (y mod 5) + x mod 5).
Definition build (f : nat -> nat -> Z) : list Z :=
  concat (map (fun y => map (fun x => f x y) (seq 0 5)) (seq 0 5)).

(** Rotation of a 64-bit word. *)
Definition rot (t n : Z) : Z := (t * 2 ^ n) mod two64 + t / 2 ^ (64 - n).

(** Rotation offsets: (t+1)(t+2)/2 at the t-th point of the walk
    (x, y) -> (y, 2x + 3y) from (1, 0); none at (0, 0). *)
Fixpoint walk (n t x y : nat) : list (nat * nat * Z) :=
  match n with
  | O => []
  | S n => (x, y, (Z.of_nat ((t + 1) * (t + 2) / 2)) mod 64) :: walk n (S t) y ((2 * x + 3 * y) mod 5)
  end.
Definition offset (x y : nat) : Z :=
  match List.find (fun p => (fst (fst p) =? x)%nat && (snd (fst p) =? y)%nat) (walk 24 0 1 0) with
  | Some p => snd p
  | None => 0
  end.

Section Steps.
Context (R : Z -> Z -> Z).

Definition columns (a : list Z) : list Z :=
  map (fun x => A a x 0 ⊕ A a x 1 ⊕ A a x 2 ⊕ A a x 3 ⊕ A a x 4) (seq 0 5).
Definition theta_with (c a : list Z) : list Z :=
  build (fun x y => A a x y ⊕ (lane c ((x + 4) mod 5) ⊕ R (lane c ((x + 1) mod 5)) 1)).
Definition theta (a : list Z) : list Z := theta_with (columns a) a.
Definition rho (a : list Z) : list Z := build (fun x y => R (A a x y) (offset x y)).
Definition pi (a : list Z) : list Z := build (fun x y => A a (x + 3 * y) x).
Definition chi (a : list Z) : list Z := build (fun x y => A a x y ⊕ (A a (x + 2) y &^ A a (x + 1) y)).
Definition iota (c : Z) (a : list Z) : list Z := set_lane a 0 (A a 0 0 ⊕ c).
Definition round_ref (c : Z) (a : list Z) : list Z := iota c (chi (pi (rho (theta a)))).
End Steps.

(** Round constants: bit 2^j - 1 of the i-th is the output of a linear feedback
    shift register with polynomial x^8 + x^6 + x^5 + x^4 + 1 after j + 7i steps. *)
Fixpoint lfsr (n : nat) (s : Z) : Z :=
  match n with
  | O => s
  | S n => lfsr n (let s := Z.shiftl s 1 in if Z.testbit s 8 then Z.lxor s 0x171 else s)
  end.
Definition RC (i : nat) : Z :=
  foldr (fun j c => if Z.testbit (lfsr (j + 7 * i) 1) 0 then Z.lor c (Z.shiftl 1 (2 ^ Z.of_nat j - 1)) else c)
    0 (seq 0 7).

Definition ref_step (a : list Z) (i : nat) : list Z := round_ref rot (RC i) a.
Definition keccak_f (a : list Z) : list Z := fold_left ref_step (seq 0 24) a.

Lemma rc_generated : rc = map RC (seq 0 24).
Proof. reflexivity. Qed.

(** ** One round in place *)

(** Where lane (x, y) is kept after [k] rounds in place. *)
Fixpoint loc (k x y : nat) : nat :=
  match k with
  | O => 5 * (y mod 5) + x mod 5
  | S k => loc k x ((x + 2 * y) mod 5)
  end.
Definition logical (k : nat) (p : list Z) : list Z := build (fun x y => lane p (loc k x y)).

(** The code does not rotate by 0. *)
Definition rotl0 (t n : Z) : Z := if n =? 0 then t else rotl t n.

Ltac lanes p := do 25 (destruct p as [|? p]; [discriminate|]); destruct p; [|discriminate].
Ltac xor_ac := apply Z.bits_inj'; intros ? _; rewrite !Z.lxor_spec;
  repeat match goal with |- context [Z.testbit ?x ?i] => destruct (Z.testbit x i) end; reflexivity.

Definition physical_columns (p : list Z) : list Z :=
  map (fun x => p.[x] ⊕ p.[x + 5] ⊕ p.[x + 10] ⊕ p.[x + 15] ⊕ p.[x + 20]) (seq 0 5).

Lemma columns_layout k p : (k < 4)%nat -> length p = 25%nat -> columns (logical k p) = physical_columns p.
Proof.
  intros Hk Hp. lanes p.
  destruct k as [|[|[|[|k]]]]; [| | | |lia]; cbv -[Z.lxor];
    repeat (apply (f_equal2 cons); [xor_ac|]); reflexivity.
Qed.

(** Both sides of one round are the same 25 expressions once the column
    parities are written in the order of the code. *)
Ltac in_place := match goal with |- length ?p = _ -> _ =>
  intros Hp; unfold round_ref, theta; rewrite columns_layout by (lia || done); lanes p;
  cbv -[Z.lxor Z.ldiff rotl]; reflexivity end.

Lemma round1_ref c p : length p = 25%nat -> logical 1 (round1 c p) = round_ref rotl0 c (logical 0 p).
Proof. in_place. Qed.

Lemma round2_ref c p : length p = 25%nat -> logical 2 (round2 c p) = round_ref rotl0 c (logical 1 p).
Proof. in_place. Qed.

Lemma round3_ref c p : length p = 25%nat -> logical 3 (round3 c p) = round_ref rotl0 c (logical 2 p).
Proof. in_place. Qed.

Lemma round4_ref c p : length p = 25%nat -> logical 0 (round4 c p) = round_ref rotl0 c (logical 3 p).
Proof. in_place. Qed.

(** ** Words *)

Definition words (a : list Z) : Prop := length a = 25%nat /\ Forall is_u64 a.

Lemma u64_bits t : 0 <= t -> (forall i, 64 <= i -> Z.testbit t i = false) -> is_u64 t.
Proof.
  intros H0 Hb. unfold is_u64. split; [done|]. destruct (Z.lt_ge_cases t two64) as [|Hge]; [done|exfalso].
  assert (0 < t) as Hpos by (unfold two64 in Hge; lia).
  specialize (Hb (Z.log2 t)). rewrite Z.bit_log2 in Hb by done.
  assert (64 <= Z.log2 t) by (apply Z.log2_le_pow2; [done|exact Hge]). by discriminate Hb.
Qed.

Lemma u64_high t i : is_u64 t -> 64 <= i -> Z.testbit t i = false.
Proof.
  intros [H1 H2] Hi. destruct (Z.eq_dec t 0) as [->|]; [apply Z.bits_0|].
  apply Z.bits_above_log2; [done|]. apply Z.log2_lt_pow2; [lia|].
  apply Z.lt_le_trans with two64; [done|]. change two64 with (2 ^ 64). apply Z.pow_le_mono_r; lia.
Qed.

Lemma lxor_u64 x y : is_u64 x -> is_u64 y -> is_u64 (x ⊕ y).
Proof.
  intros Hx Hy. apply u64_bits; [apply Z.lxor_nonneg; unfold is_u64 in *; lia|].
  intros i Hi. by rewrite Z.lxor_spec, !u64_high.
Qed.

Lemma ldiff_u64 x y : is_u64 x -> is_u64 (x &^ y).
Proof.
  intros Hx. apply u64_bits; [apply Z.ldiff_nonneg; unfold is_u64 in *; lia|].
  intros i Hi. by rewrite Z.ldiff_spec, u64_high.
Qed.

Lemma rotl_rot t n : is_u64 t -> 0 < n < 64 -> rotl t n = rot t n.
Proof.
  intros [H1 H2] Hn. unfold rotl, rot, u64. rewrite Z.shiftl_mul_pow2, Z.shiftr_div_pow2 by lia.
  set (lo := t / 2 ^ (64 - n)). set (hi := t * 2 ^ n mod two64).
  assert (Z.land hi lo = 0) as Hl.
  { apply Z.bits_inj'. intros i Hi. rewrite Z.land_spec, Z.bits_0. unfold hi. change two64 with (2 ^ 64).
    destruct (Z.lt_ge_cases i n) as [Hin|Hin].
    - rewrite Z.mod_pow2_bits_low, Z.mul_pow2_bits_low by lia. done.
    - unfold lo. rewrite Z.div_pow2_bits by lia. rewrite (u64_high t) by (done || lia). apply andb_false_r. }
  pose proof (Z.add_lor_land hi lo). lia.
Qed.

Lemma rot_0 t : is_u64 t -> rot t 0 = t.
Proof.
  intros [H1 H2]. unfold rot. change (2 ^ 0) with 1. change (2 ^ (64 - 0)) with two64.
  rewrite Z.mul_1_r, Z.mod_small, Z.div_small by done. lia.
Qed.

Lemma rot_u64 t n : is_u64 t -> 0 <= n < 64 -> is_u64 (rot t n).
Proof.
  intros Ht Hn. destruct (Z.eq_dec n 0) as [->|]; [by rewrite rot_0|].
  rewrite <-rotl_rot by (done || lia). unfold rotl.
  apply u64_bits.
  - apply Z.lor_nonneg. split; [apply u64_range|]. apply Z.shiftr_nonneg. apply Ht.
  - intros i Hi. rewrite Z.lor_spec, (u64_high (u64 _)) by (try apply u64_range; done).
    rewrite Z.shiftr_spec, (u64_high t) by (done || lia). done.
Qed.

Lemma rotl0_rot t n : is_u64 t -> 0 <= n < 64 -> rotl0 t n = rot t n.
Proof.
  intros Ht Hn. unfold rotl0. destruct (Z.eqb_spec n 0) as [->|]; [by rewrite rot_0|].
  apply rotl_rot; [done|lia].
Qed.

Lemma lane_u64 a i : Forall is_u64 a -> is_u64 (lane a i).
Proof.
  intros Ha. unfold lane. revert i. induction Ha as [|x a Hx _ IH]; intros [|i]; simpl; try done; unfold is_u64, two64; lia.
Qed.

Lemma build_ext f g : (forall x y, (x < 5)%nat -> (y < 5)%nat -> f x y = g x y) -> build f = build g.
Proof.
  intros H. unfold build. cbn [seq map concat app]. repeat (apply (f_equal2 cons); [apply H; lia|]). done.
Qed.

Lemma build_words f : (forall x y, (x < 5)%nat -> (y < 5)%nat -> is_u64 (f x y)) -> words (build f).
Proof.
  intros H. split; [done|]. unfold build. cbn [seq map concat app].
  repeat (constructor; [apply H; lia|]). constructor.
Qed.

Lemma walk_range n t x y : Forall (fun p => 0 <= snd p < 64) (walk n t x y).
Proof.
  revert t x y. induction n as [|n IH]; intros t x y; cbn [walk]; constructor; [|apply IH].
  cbn [snd]. apply Z.mod_pos_bound. lia.
Qed.

Lemma offset_range x y : 0 <= offset x y < 64.
Proof.
  unfold offset. destruct (List.find _ _) as [p|] eqn:E; [|lia]. apply List.find_some in E as [E _].
  pose proof (walk_range 24 0 1 0) as H. rewrite List.Forall_forall in H. by apply H.
Qed.

Lemma columns_words a : words a -> Forall is_u64 (columns a).
Proof.
  intros [_ Ha]. unfold columns. apply Forall_map, Forall_forall. intros x _. simpl. unfold A.
  by repeat apply lxor_u64; apply lane_u64.
Qed.

Lemma theta_words a : words a -> words (theta rot a).
Proof.
  intros Ha. pose proof (columns_words a Ha). apply build_words. intros x y _ _.
  apply lxor_u64; [by apply lane_u64, Ha|]. apply lxor_u64; [by apply lane_u64|].
  apply rot_u64; [by apply lane_u64|lia].
Qed.

Lemma round_words c a : words a -> is_u64 c -> words (round_ref rot c a).
Proof.
  intros Ha Hc. unfold round_ref.
  assert (words (rho rot (theta rot a))) as H1.
  { apply build_words. intros x y _ _. apply rot_u64; [apply lane_u64, theta_words, Ha|apply offset_range]. }
  assert (words (pi (rho rot (theta rot a)))) as H2 by (apply build_words; intros; by apply lane_u64, H1).
  assert (words (chi (pi (rho rot (theta rot a))))) as [H3 H4].
  { apply build_words. intros x y _ _. apply lxor_u64; [by apply lane_u64, H2|]. by apply ldiff_u64, lane_u64, H2. }
  split; [unfold iota, set_lane; by rewrite length_insert|].
  apply Forall_insert; [done|]. apply lxor_u64; [by apply lane_u64|done].
Qed.

Lemma round_ref_rot c a : words a -> round_ref rotl0 c a = round_ref rot c a.
Proof.
  intros Ha. pose proof (columns_words a Ha) as Hc. unfold round_ref. do 3 f_equal.
  assert (theta rotl0 a = theta rot a) as ->.
  { apply build_ext. intros x y _ _. do 2 f_equal. apply rotl0_rot; [by apply lane_u64|lia]. }
  apply build_ext. intros x y _ _. apply rotl0_rot; [apply lane_u64, theta_words, Ha|apply offset_range].
Qed.

(** ** The permutation *)

Lemma logical_0 p : length p = 25%nat -> logical 0 p = p.
Proof. intros Hp. lanes p. reflexivity. Qed.

Lemma round_lengths c p : length p = 25%nat ->
  length (round1 c p) = 25%nat /\ length (round2 c p) = 25%nat /\
  length (round3 c p) = 25%nat /\ length (round4 c p) = 25%nat.
Proof.
  intros Hp. lanes p. split_and!; reflexivity.
Qed.

Lemma four_rounds c1 c2 c3 c4 a : words a -> is_u64 c1 -> is_u64 c2 -> is_u64 c3 -> is_u64 c4 ->
  round4 c4 (round3 c3 (round2 c2 (round1 c1 a))) =
    round_ref rot c4 (round_ref rot c3 (round_ref rot c2 (round_ref rot c1 a))).
Proof.
  intros Ha H1 H2 H3 H4. pose proof (proj1 Ha) as L.
  destruct (round_lengths c1 a L) as (L1 & _). destruct (round_lengths c2 _ L1) as (_ & L2 & _).
  destruct (round_lengths c3 _ L2) as (_ & _ & L3 & _). destruct (round_lengths c4 _ L3) as (_ & _ & _ & L4).
  rewrite <-(logical_0 _ L4), round4_ref, round3_ref, round2_ref, round1_ref, (logical_0 a) by done.
  rewrite (round_ref_rot c1) by done. pose proof (round_words c1 a Ha H1) as W1.
  rewrite (round_ref_rot c2) by done. pose proof (round_words c2 _ W1 H2) as W2.
  rewrite (round_ref_rot c3) by done. pose proof (round_words c3 _ W2 H3) as W3.
  by rewrite (round_ref_rot c4).
Qed.

Lemma rc_words : Forall is_u64 rc.
Proof. repeat constructor; unfold two64; lia. Qed.

(** Two folds whose steps agree on the states satisfying [P], which the second
    keeps. *)
Lemma fold_agree {B C} (P : B -> Prop) (f g : B -> C -> B) l b :
  Forall (fun c => forall b, P b -> f b c = g b c /\ P (g b c)) l -> P b ->
  fold_left f l b = fold_left g l b /\ P (fold_left g l b).
Proof.
  intros H. revert b. induction H as [|c l Hc _ IH]; intros b Hb; simpl; [done|].
  destruct (Hc b Hb) as [-> ?]. by apply IH.
Qed.

Definition ref_four (a : list Z) (i : nat) : list Z :=
  ref_step (ref_step (ref_step (ref_step a i) (i + 1)) (i + 2)) (i + 3).

Lemma rc_RC : Forall (fun i => lane rc i = RC i) (seq 0 24).
Proof. repeat constructor. Qed.

Lemma keccakF_step a i : words a -> (i + 3 < 24)%nat ->
  keccakF1600_step a i = ref_four a i /\ words (ref_four a i).
Proof.
  intros Ha Hi. assert (forall j, (j < 24)%nat -> lane rc j = RC j /\ is_u64 (RC j)) as H.
  { intros j Hj. assert (lane rc j = RC j) as E.
    { apply (proj1 (List.Forall_forall _ _) rc_RC). apply in_seq. lia. }
    rewrite <-E. split; [done|]. apply lane_u64, rc_words. }
  destruct (H i) as [E0 W0]; [lia|]. destruct (H (i + 1)%nat) as [E1 W1]; [lia|].
  destruct (H (i + 2)%nat) as [E2 W2]; [lia|]. destruct (H (i + 3)%nat) as [E3 W3]; [lia|].
  unfold keccakF1600_step. rewrite E0, E1, E2, E3. split; [by apply four_rounds|].
  repeat (apply round_words; [|done]). done.
Qed.

Lemma fold_four {B} (f : B -> nat -> B) b :
  fold_left (fun b i => f (f (f (f b i) (i + 1)%nat) (i + 2)%nat) (i + 3)%nat) [0; 4; 8; 12; 16; 20]%nat b =
  fold_left f (seq 0 24) b.
Proof. reflexivity. Qed.

Lemma keccakF_ref a : words a -> keccakF1600 a = keccak_f a /\ words (keccak_f a).
Proof.
  intros Ha. destruct (fold_agree words keccakF1600_step ref_four [0; 4; 8; 12; 16; 20]%nat a) as [E W].
  - repeat (apply List.Forall_cons; [intros b Hb; apply (keccakF_step b); [done|lia]|]). apply List.Forall_nil.
  - done.
  - unfold keccakF1600, keccak_f. unfold ref_four in E, W. rewrite fold_four in E, W.
    split; [exact E|exact W].
Qed.

End KeccakSpec.
