(* ===== verification/KeccakSponge.v ===== *)
(** * Keccak: the sponge computes the reference hash

    The reference pads the message to a multiple of the rate, absorbs it block
    by block, and squeezes bytes out of the state.  Whatever way the message is
    cut into writes and the output into reads, and whichever of the two ways
    to move bytes is compiled in, the sponge delivers the reference output
    ([Write_spec], [squeeze_spec]). *)

From Stdlib Require Import Lia.
From stdpp Require Import base numbers list.
From S2P Require Import Prelude BigInt Keccak KeccakSpec.

#[local] Open Scope Z_scope.
#[local] Open Scope go_scope.

Module KeccakSponge.
Import Keccak KeccakSpec.

(** ** Bytes and lanes *)

Lemma bytes_le_length x : length (bytes_le x) = 8%nat.
Proof. unfold bytes_le. by rewrite length_reverse, Big.length_be. Qed.

Lemma bytes_le_ok x : bytes_ok (bytes_le x).
Proof. apply Forall_reverse, Big.be_ok. Qed.

Definition state_bytes (a : list Z) : bytes := concat (map bytes_le a).

Lemma state_bytes_length a : length (state_bytes a) = (8 * length a)%nat.
Proof.
  unfold state_bytes. induction a as [|x a IH]; [done|]. cbn [map concat length]. rewrite length_app, bytes_le_length, IH. lia.
Qed.

Lemma state_bytes_ok a : bytes_ok (state_bytes a).
Proof. induction a as [|x a IH]; [constructor|]. apply bytes_ok_app. split; [apply bytes_le_ok|done]. Qed.

Lemma take_state_bytes n a : take (8 * n) (state_bytes a) = state_bytes (take n a).
Proof.
  revert a. induction n as [|n IH]; intros a; [done|]. destruct a as [|x a]; [by rewrite take_nil|].
  unfold state_bytes in *. cbn [map concat firstn]. rewrite <-(IH a).
  replace (8 * S n)%nat with (length (bytes_le x) + 8 * n)%nat by (rewrite bytes_le_length; lia).
  by rewrite take_app_add.
Qed.

(** The words of a block. *)
Fixpoint chunk (n : nat) (b : bytes) : list Z :=
  match n with O => [] | S n => Uint64_le b :: chunk n (drop 8 b) end.
Fixpoint zip_xor (a ws : list Z) : list Z :=
  match a, ws with x :: a, w :: ws => Z.lxor x w :: zip_xor a ws | _, _ => a end.
Definition xor_block (a : list Z) (b : bytes) : list Z := zip_xor a (chunk (length b / 8) b).

Lemma Uint64_le_u64 b : bytes_ok b -> is_u64 (Uint64_le b).
Proof.
  intros Hb. unfold Uint64_le.
  pose proof (Big.SetBytes_bound (reverse (take 8 b)) ltac:(by apply Forall_reverse, bytes_ok_take)) as [H1 H2].
  split; [done|]. eapply Z.lt_le_trans; [exact H2|]. change two64 with (256 ^ 8). apply Z.pow_le_mono_r; [lia|].
  unfold len. rewrite length_reverse, length_take. lia.
Qed.

Lemma chunk_u64 n b : bytes_ok b -> Forall is_u64 (chunk n b).
Proof.
  revert b. induction n as [|n IH]; intros b Hb; constructor; [by apply Uint64_le_u64|]. by apply IH, bytes_ok_drop.
Qed.

Lemma zip_xor_words a ws : words a -> Forall is_u64 ws -> words (zip_xor a ws).
Proof.
  intros [Hl Ha] Hw. split.
  - rewrite <-Hl. clear Hl Ha Hw. revert ws. induction a as [|x a IH]; intros [|w ws]; simpl; auto.
  - clear Hl. revert ws Hw. induction Ha as [|x a Hx Ha IH]; intros [|w ws] Hw; simpl; try (by constructor).
    apply Forall_cons in Hw as [? ?]. constructor; [by apply lxor_u64|by apply IH].
Qed.

Lemma xor_block_words a b : words a -> bytes_ok b -> words (xor_block a b).
Proof. intros. apply zip_xor_words; [done|by apply chunk_u64]. Qed.

(** ** The two implementations *)

Definition rates : list Z := [72; 104; 136; 144; 168].

Lemma rates_cases r : r ∈ rates -> exists n, r = 8 * Z.of_nat n /\ (9 <= n <= 21)%nat.
Proof.
  intros H. apply list_elem_of_In in H. simpl in H.
  destruct H as [<-|[<-|[<-|[<-|[<-|[]]]]]];
    [exists 9%nat|exists 13%nat|exists 17%nat|exists 18%nat|exists 21%nat]; split; lia.
Qed.

(** What the sponge needs: a permutation that is [f], and whole blocks moved in
    and out of the lanes. *)
Class ImplLaws (X : Impl) (f : list Z -> list Z) : Prop := {
  permutation_ok a : words a -> permutation a = f a /\ words (f a);
  xorIn_block a b : words a -> len b ∈ rates -> xorIn a b = Ok (xor_block a b);
  copyOut_block a b : words a -> len b ∈ rates -> copyOut a b = Ok (take (length b) (state_bytes a));
}.

Lemma xorIn_loop_spec n pre a b : (n <= length a)%nat -> (8 * n <= length b)%nat ->
  xorIn_loop n (length pre) (pre ++ a) b = Ok (pre ++ zip_xor a (chunk n b)).
Proof.
  revert pre a b. induction n as [|n IH]; intros pre a b Ha Hb.
  - by destruct a.
  - destruct a as [|x a]; [simpl in Ha; lia|]. cbn [xorIn_loop chunk zip_xor].
    unfold index, update. rewrite (proj2 (Z.leb_le 0 _)) by lia. rewrite Nat2Z.id, lookup_app_r, Nat.sub_diag by lia.
    cbn [lookup list_lookup rbind]. rewrite (proj2 (Z.ltb_lt _ _)) by (unfold len; rewrite length_app; simpl; lia).
    cbn [andb rbind]. rewrite slice_Ok by (unfold len; lia). cbn [rbind].
    rewrite insert_app_r_alt, Nat.sub_diag by lia. cbn [insert list_insert].
    rewrite (take_ge (drop _ b)) by (rewrite length_drop; unfold len; lia).
    replace (pre ++ Z.lxor x (Uint64_le b) :: a) with ((pre ++ [Z.lxor x (Uint64_le b)]) ++ a) by by rewrite <-app_assoc.
    replace (S (length pre)) with (length (pre ++ [Z.lxor x (Uint64_le b)])) by (rewrite length_app; simpl; lia).
    change (Z.to_nat 8) with 8%nat. rewrite IH; [by rewrite <-app_assoc|simpl in Ha; lia|rewrite length_drop; lia].
Qed.

Lemma copyOut_loop_spec n fuel pre a b : length b = (8 * n)%nat -> (n <= fuel)%nat -> (n <= length a)%nat ->
  copyOut_loop fuel (length pre) (pre ++ a) b = Ok (state_bytes (take n a)).
Proof.
  revert fuel pre a b. induction n as [|n IH]; intros fuel pre a b Hb Hf Ha.
  - destruct b; [|done]. by destruct fuel.
  - destruct fuel as [|fuel]; [lia|]. destruct a as [|x a]; [simpl in Ha; lia|]. cbn [copyOut_loop].
    rewrite (proj2 (Z.leb_le 8 (len b))) by (unfold len; lia).
    unfold index. rewrite (proj2 (Z.leb_le 0 _)) by lia. rewrite Nat2Z.id, lookup_app_r, Nat.sub_diag by lia.
    cbn [lookup list_lookup rbind].
    replace (pre ++ x :: a) with ((pre ++ [x]) ++ a) by by rewrite <-app_assoc.
    replace (S (length pre)) with (length (pre ++ [x])) by (rewrite length_app; simpl; lia).
    rewrite IH; [done|rewrite length_drop; lia|lia|simpl in Ha; lia].
Qed.

Lemma generic_xorIn a b : words a -> len b ∈ rates -> xorInGeneric a b = Ok (xor_block a b).
Proof.
  intros [Ha _] (n & Hn & Hr)%rates_cases. unfold xorInGeneric, xor_block, len in *.
  assert (length b / 8 = n)%nat as -> by (symmetry; apply Nat.div_unique with 0%nat; lia).
  apply (xorIn_loop_spec n []); lia.
Qed.

Lemma generic_copyOut a b : words a -> len b ∈ rates -> copyOutGeneric a b = Ok (take (length b) (state_bytes a)).
Proof.
  intros [Ha _] (n & Hn & Hr)%rates_cases. unfold copyOutGeneric, len in *.
  assert (length b = 8 * n)%nat as Hb by lia.
  rewrite Hb at 2. rewrite take_state_bytes. apply (copyOut_loop_spec n (length b) []); lia.
Qed.

Lemma xor_words_spec n pre a b : (n <= length a)%nat ->
  xor_words n (length pre) (pre ++ a) b = pre ++ zip_xor a (chunk n (drop (8 * length pre) b)).
Proof.
  revert pre a. induction n as [|n IH]; intros pre a Ha; [by destruct a|].
  destruct a as [|x a]; [simpl in Ha; lia|]. cbn [xor_words chunk zip_xor].
  set (w := Uint64_le (drop (8 * length pre) b)).
  assert (set_lane (pre ++ x :: a) (length pre) (Z.lxor (lane (pre ++ x :: a) (length pre)) w) =
    (pre ++ [Z.lxor x w]) ++ a) as ->.
  { unfold set_lane, lane. rewrite app_nth2, Nat.sub_diag by lia.
    rewrite insert_app_r_alt, Nat.sub_diag by lia. by rewrite <-app_assoc. }
  replace (S (length pre)) with (length (pre ++ [Z.lxor x w])) by (rewrite length_app; simpl; lia).
  rewrite IH by (simpl in Ha; lia). rewrite <-app_assoc, drop_drop, length_app. cbn [length].
  by replace (8 * (length pre + 1))%nat with (8 * length pre + 8)%nat by lia.
Qed.

Lemma xor_words_add n m i a b : xor_words (n + m) i a b = xor_words m (i + n) (xor_words n i a b) b.
Proof.
  revert i a. induction n as [|n IH]; intros i a; [by rewrite Nat.add_0_r|]. simpl. rewrite IH. f_equal. lia.
Qed.

Lemma unaligned_xorIn a b : words a -> len b ∈ rates -> xorInUnaligned a b = Ok (xor_block a b).
Proof.
  intros [Ha _] Hb. destruct (rates_cases _ Hb) as (n & Hn & Hr). unfold xorInUnaligned, xor_block.
  destruct (index_Ok b 0) as (x & -> & _); [lia|]. cbn [rbind].
  assert (length b / 8 = n)%nat as -> by (unfold len in Hn; symmetry; apply Nat.div_unique with 0%nat; lia).
  pose proof (xor_words_spec n [] a b) as E. cbn [app length] in E. change (8 * 0)%nat with 0%nat in E.
  rewrite drop_0 in E. rewrite <-E by lia. clear E. f_equal.
  apply list_elem_of_In in Hb. simpl in Hb.
  destruct Hb as [Hb|[Hb|[Hb|[Hb|[Hb|[]]]]]]; rewrite <-Hb in *; cbn [Z.geb Z.compare Pos.compare Pos.compare_cont];
    rewrite <-?(xor_words_add 9 4 0), <-?(xor_words_add 13 4 0), <-?(xor_words_add 17 1 0), <-?(xor_words_add 18 3 0);
    f_equal; simpl; lia.
Qed.

Lemma unaligned_copyOut a b : words a -> len b ∈ rates -> copyOutUnaligned a b = Ok (take (length b) (state_bytes a)).
Proof.
  intros [Ha _] (n & Hn & Hr)%rates_cases. unfold copyOutUnaligned, copy_into. fold (state_bytes a).
  f_equal. change (Z.to_nat maxRate) with 168%nat. pose proof (state_bytes_length a). unfold len in Hn.
  rewrite take_take, Nat.min_l, drop_ge, app_nil_r by (rewrite ?length_take; lia). done.
Qed.

#[export] Instance generic_laws : ImplLaws generic keccak_f.
Proof. split; [exact keccakF_ref|exact generic_xorIn|exact generic_copyOut]. Qed.
#[export] Instance unaligned_laws : ImplLaws unaligned keccak_f.
Proof. split; [exact keccakF_ref|exact unaligned_xorIn|exact unaligned_copyOut]. Qed.
#[export] Instance amd64_laws f : (forall a, words a -> f a = keccak_f a) -> ImplLaws (amd64 f) keccak_f.
Proof.
  intros Hf. split; [|exact unaligned_xorIn|exact unaligned_copyOut].
  intros a Ha. split; [exact (Hf a Ha)|exact (proj2 (keccakF_ref a Ha))].
Qed.

(** ** The reference hash *)

#[local] Opaque xor_block.

Section Reference.
Context (f : list Z -> list Z) (R : nat).

(** [n] blocks of [m]. *)
Fixpoint absorb (n : nat) (a : list Z) (m : bytes) : list Z :=
  match n with O => a | S n => absorb n (f (xor_block a (take R m))) (drop R m) end.

(** The domain bits, zeros, and a last one bit. *)
Definition padding (ds : Z) (m : bytes) : bytes :=
  match (R - length m mod R)%nat with
  | 1%nat => [Z.lxor ds 0x80]
  | q => ds :: replicate (q - 2) 0 ++ [0x80]
  end.

Definition absorbed_state (ds : Z) (m : bytes) : list Z :=
  let p := m ++ padding ds m in absorb (length p / R) (replicate 25 0) p.

(** Byte [i] of the output stream of a state. *)
Definition out_byte (a : list Z) (i : nat) : Z := nth (i mod R) (state_bytes (Nat.iter (i / R) f a)) 0.

Definition sponge_hash (ds : Z) (n : nat) (m : bytes) : bytes := map (out_byte (absorbed_state ds m)) (seq 0 n).

End Reference.

Lemma absorb_app f R n a full block : length full = (n * R)%nat -> length block = R ->
  absorb f R (S n) a (full ++ block) = f (xor_block (absorb f R n a full) block).
Proof.
  revert a full. induction n as [|n IH]; intros a full Hf Hb.
  - destruct full; [|discriminate]. cbn [app absorb]. by rewrite take_ge by lia.
  - change (absorb f R (S (S n)) a (full ++ block)) with
      (absorb f R (S n) (f (xor_block a (take R (full ++ block)))) (drop R (full ++ block))).
    rewrite take_app_le, drop_app_le by lia. rewrite IH; [done|rewrite length_drop; lia|done].
Qed.

Section Sponge.
Context (X : Impl) (f : list Z -> list Z) `{!ImplLaws X f} (R : nat) (HR : Z.of_nat R ∈ rates).

Lemma R_bounds : (72 <= R <= 168)%nat.
Proof. destruct (rates_cases _ HR) as (n & ? & ?). lia. Qed.

(** [d] has absorbed the message [m]: whole blocks are in the lanes, the rest
    is at the start of the storage. *)
Record absorbed (d : state) (m : bytes) : Prop := {
  ab_rate : rate d = Z.of_nat R;
  ab_dir : direction d = spongeAbsorbing;
  ab_words : words (lanes d);
  ab_parts : exists k full tail rest, m = full ++ tail /\ length full = (k * R)%nat /\ (length tail < R)%nat /\
    lanes d = absorb f R k (replicate 25 0) full /\
    storage d = tail ++ rest /\ len (storage d) = maxRate /\ buf_at d = 0 /\ buf_len d = len tail;
}.

Lemma zero_words : words (replicate 25 0).
Proof. split; [done|]. apply Forall_replicate. unfold is_u64, two64. lia. Qed.

Lemma new_absorbed n ds : absorbed (new_state (Z.of_nat R) n ds) [].
Proof.
  split; [done|done|apply zero_words|]. exists 0%nat, [], [], (zeros maxRate). pose proof R_bounds.
  do 2 (split; [done|]). split; [simpl; lia|]. done.
Qed.

Lemma Reset_absorbed d : rate d = Z.of_nat R -> len (storage d) = maxRate -> absorbed (Reset d) [].
Proof.
  intros Hr Hs. split; [done|done|apply zero_words|]. exists 0%nat, [], [], (storage d). pose proof R_bounds.
  do 2 (split; [done|]). split; [simpl; lia|]. done.
Qed.

(** Absorbing one whole block. *)
Lemma block_step a b : words a -> bytes_ok b -> length b = R ->
  xorIn a b = Ok (xor_block a b) /\ permutation (xor_block a b) = f (xor_block a b) /\
  words (f (xor_block a b)).
Proof.
  intros Ha Hb Hl. split; [apply xorIn_block; [done|unfold len; by rewrite Hl]|].
  apply permutation_ok, xor_block_words; done.
Qed.

Lemma append_tail d tail rest p : storage d = tail ++ rest -> buf_at d = 0 -> buf_len d = len tail ->
  (length p <= length rest)%nat ->
  append_buf d p = Ok (set_buf 0 (len (tail ++ p)) (set_storage ((tail ++ p) ++ drop (length p) rest) d)).
Proof.
  intros Hs Ha Hl Hp. unfold append_buf. rewrite Hs, Ha, Hl, Z.add_0_l.
  rewrite <-(take_drop (length p) rest) at 1.
  rewrite (copy_at_mid tail (take (length p) rest) (drop (length p) rest) p); [|done|..];
    [|rewrite len_take; unfold len; lia..].
  cbn [rbind]. by rewrite len_app, <-app_assoc.
Qed.

Lemma permute_block d b rest k full : bytes_ok b -> length b = R -> rate d = Z.of_nat R ->
  direction d = spongeAbsorbing -> words (lanes d) -> storage d = b ++ rest -> buf_at d = 0 -> buf_len d = Z.of_nat R ->
  length full = (k * R)%nat -> lanes d = absorb f R k (replicate 25 0) full ->
  permute d = Ok (set_lanes (absorb f R (S k) (replicate 25 0) (full ++ b)) (set_buf 0 0 d)) /\
  words (absorb f R (S k) (replicate 25 0) (full ++ b)).
Proof.
  intros Hb Hl Hr Hd Hw Hs Ha Hn Hf Hla. destruct (block_step (lanes d) b Hw Hb Hl) as (E1 & E2 & W).
  rewrite absorb_app, <-Hla by done. split; [|done]. unfold permute, buf, point. rewrite Hd, Ha, Hn, Hs.
  rewrite (slice_mid [] b rest) by (done || unfold len; lia). cbn [rbind]. rewrite E1. cbn [rbind].
  rewrite (slice_mid [] [] (b ++ rest)) by done. cbn [rbind]. by rewrite E2.
Qed.

(** The two steps of the loop of [Write]. *)
Definition kept (d d' : state) : Prop := outputLen d' = outputLen d /\ dsbyte d' = dsbyte d.

Lemma fast_step d m b : absorbed d m -> bytes_ok b -> length b = R -> buf_len d = 0 ->
  exists a, xorIn (lanes d) b = Ok a /\ absorbed (set_lanes (permutation a) d) (m ++ b).
Proof.
  intros [Hr Hdir Hw (k & full & tail & rest & -> & Hfull & Htail & Hla & Hst & Hsl & Ha & Hn)] Hb Hl H0.
  assert (tail = []) as -> by (destruct tail; [done|]; rewrite Hn, len_cons in H0; pose proof (len_nonneg tail); lia).
  destruct (block_step (lanes d) b Hw Hb Hl) as (-> & E2 & W). eexists. split; [done|]. rewrite E2.
  split; [done|done|done|]. exists (S k), (full ++ b), [], rest. rewrite !app_nil_r.
  split; [done|]. split; [rewrite length_app; lia|]. split; [simpl; pose proof R_bounds; lia|].
  split; [by rewrite absorb_app, <-Hla|]. done.
Qed.

Lemma slow_step d m c : absorbed d m -> bytes_ok m -> bytes_ok c -> len c <= Z.of_nat R - buf_len d ->
  exists d1 d2, append_buf d c = Ok d1 /\ buf_len d1 = buf_len d + len c /\ rate d1 = rate d /\
    (if buf_len d1 =? rate d1 then permute d1 else Ok d1) = Ok d2 /\ absorbed d2 (m ++ c) /\ kept d d2.
Proof.
  intros [Hr Hdir Hw (k & full & tail & rest & -> & Hfull & Htail & Hla & Hst & Hsl & Ha & Hn)] Hm Hc Hlen.
  pose proof R_bounds as HRb. apply bytes_ok_app in Hm as [_ Ht].
  assert (length (tail ++ rest) = 168)%nat as Hall by (rewrite <-Hst; unfold len, maxRate in Hsl; lia).
  rewrite length_app in Hall. unfold len in Hlen, Hn.
  rewrite (append_tail d tail rest c) by (try done; lia).
  set (d1 := set_buf _ _ _). exists d1. assert (buf_len d1 = len (tail ++ c)) as E1 by done.
  assert (len (storage d1) = maxRate) as Hs1.
  { cbn [storage d1 set_buf set_storage]. rewrite !len_app, len_drop. unfold len, maxRate. lia. }
  rewrite E1, len_app. cbn [rate d1 set_buf set_storage]. rewrite Hr.
  destruct (Z.eqb_spec (len tail + len c) (Z.of_nat R)) as [He|He].
  - destruct (permute_block d1 (tail ++ c) (drop (length c) rest) k full) as [-> W];
      try done; [by apply bytes_ok_app|unfold len in He; rewrite length_app; lia|rewrite E1, len_app; lia|].
    eexists. split; [done|]. split; [unfold len; lia|]. split; [done|]. split; [done|]. split; [|done].
    split; [done|done|done|].
    exists (S k), (full ++ tail ++ c), [], ((tail ++ c) ++ drop (length c) rest). rewrite !app_nil_r, app_assoc.
    split; [done|]. unfold len in He. split; [rewrite !length_app; lia|]. split; [simpl; lia|].
    split; [by rewrite <-app_assoc|]. done.
  - exists d1. split; [done|]. split; [unfold len; lia|]. split; [done|]. split; [done|]. split; [|done].
    split; [done|done|done|]. exists k, full, (tail ++ c), (drop (length c) rest). unfold len in He.
    split; [by rewrite app_assoc|]. split; [done|]. split; [rewrite length_app; lia|]. done.
Qed.

Lemma Write_loop_spec fuel d m p : absorbed d m -> bytes_ok m -> bytes_ok p -> (length p <= fuel)%nat ->
  exists d', Write_loop fuel d p = Ok d' /\ absorbed d' (m ++ p) /\ kept d d'.
Proof.
  pose proof R_bounds as HRb.
  revert d m p. induction fuel as [|fuel IH]; intros d m p Hd Hm Hp Hf;
    [destruct p; [|simpl in Hf; lia]; exists d; by rewrite app_nil_r|].
  destruct p as [|x p']; [exists d; by rewrite app_nil_r|]. cbn [Write_loop].
  assert (0 < length (x :: p'))%nat as Hpos by (simpl; lia). set (p := x :: p') in *.
  assert (0 <= buf_len d < Z.of_nat R) as Hbl.
  { destruct (ab_parts d m Hd) as (k & full & tail & rest & _ & _ & ? & _ & _ & _ & _ & ->). unfold len. lia. }
  rewrite (ab_rate d m Hd), Z.geb_leb.
  destruct ((buf_len d =? 0) && (Z.of_nat R <=? len p)) eqn:Hcase.
  - apply andb_true_iff in Hcase as [H0%Z.eqb_eq Hle%Z.leb_le]. unfold len in Hle.
    rewrite slice_take, slice_drop by lia. cbn [rbind].
    destruct (fast_step d m (take R p) Hd ltac:(by apply bytes_ok_take) ltac:(rewrite length_take; lia) H0)
      as (a & -> & Hd1). cbn [rbind].
    destruct (IH _ _ (drop R p) Hd1) as (d' & E & Hd' & Hk);
      [apply bytes_ok_app; split; [done|by apply bytes_ok_take]|by apply bytes_ok_drop|rewrite length_drop; lia|].
    exists d'. rewrite <-app_assoc, take_drop in Hd'. done.
  - clear Hcase. set (n := Nat.min (R - Z.to_nat (buf_len d)) (length p)).
    assert ((if Z.of_nat R - buf_len d >? len p then len p else Z.of_nat R - buf_len d) = Z.of_nat n) as ->.
    { rewrite Z.gtb_ltb. unfold len, n. destruct (Z.ltb_spec (Z.of_nat (length p)) (Z.of_nat R - buf_len d)); lia. }
    rewrite slice_take, slice_drop by lia. cbn [rbind].
    destruct (slow_step d m (take n p) Hd Hm ltac:(by apply bytes_ok_take)) as (d1 & d2 & -> & _ & Hr1 & E2 & Hd2 & Hk2);
      [rewrite len_take; unfold n; lia|]. cbn [rbind]. rewrite (ab_rate d m Hd) in Hr1.
    destruct (IH _ _ (drop n p) Hd2) as (d' & E & Hd' & Hk);
      [apply bytes_ok_app; split; [done|by apply bytes_ok_take]|by apply bytes_ok_drop|rewrite length_drop; lia|].
    exists d'. split; [|split; [by rewrite <-app_assoc, take_drop in Hd'|unfold kept in *; naive_solver congruence]].
    rewrite Hr1 in E2 |- *. destruct (buf_len d1 =? Z.of_nat R); [by rewrite E2|by injection E2 as ->].
Qed.

Lemma Write_spec d m p : absorbed d m -> bytes_ok m -> bytes_ok p ->
  exists d', Write d p = Ok (d', len p) /\ absorbed d' (m ++ p) /\ kept d d'.
Proof.
  intros Hd Hm Hp. destruct (Write_loop_spec (length p) d m p Hd Hm Hp ltac:(lia)) as (d' & E & H).
  exists d'. unfold Write. by rewrite (ab_dir d m Hd), E.
Qed.

(** ** Squeezing *)

(** [d] has delivered the first [i] bytes of the output of [a]. *)
Record squeezed (d : state) (a : list Z) (i : nat) : Prop := {
  sq_rate : rate d = Z.of_nat R;
  sq_dir : direction d = spongeSqueezing;
  sq_lanes : lanes d = Nat.iter (i / R) f a;
  sq_words : words (lanes d);
  sq_storage : exists rest, storage d = take R (state_bytes (lanes d)) ++ rest /\ len (storage d) = maxRate;
  sq_at : buf_at d = Z.of_nat (i mod R);
  sq_len : buf_len d = Z.of_nat (R - i mod R);
}.

Lemma block_length a : words a -> length (take R (state_bytes a)) = R.
Proof. intros [Ha _]. rewrite length_take, state_bytes_length, Ha. pose proof R_bounds. lia. Qed.

(** Filling the buffer with the current block. *)
Lemma fill_block d a i : rate d = Z.of_nat R -> direction d = spongeSqueezing -> (i mod R = 0)%nat ->
  lanes d = Nat.iter (i / R) f a -> words (lanes d) -> len (storage d) = maxRate ->
  exists d', (let? d := point d 0 (rate d) in fill_buf d) = Ok d' /\ squeezed d' a i /\ kept d d'.
Proof.
  intros Hr Hd Hi Hl Hw Hs. pose proof R_bounds as HRb. unfold point, fill_buf, buf.
  assert (length (storage d) = 168)%nat as Hs' by (unfold len, maxRate in Hs; lia).
  rewrite Hr, slice_take by lia. cbn [rbind lanes storage buf_at buf_len set_buf].
  rewrite Z.add_0_l, Z.sub_0_r, slice_take by lia. cbn [rbind].
  assert (length (take R (storage d)) = R) as Ht by (rewrite length_take; lia).
  rewrite (copyOut_block (lanes d)) by (try done; unfold len; by rewrite Ht). cbn [rbind]. rewrite Ht.
  pose proof (copy_at_mid [] (take R (storage d)) (drop R (storage d)) (take R (state_bytes (lanes d)))
    0 (Z.of_nat R)) as E. cbn [app] in E. rewrite take_drop in E.
  rewrite E; [|done|unfold len; rewrite Ht; lia|unfold len; by rewrite Ht, block_length].
  cbn [rbind app]. eexists. split; [done|]. split; [|done].
  split; cbn [rate direction lanes storage buf_at buf_len set_buf set_storage]; try done.
  - exists (drop R (storage d)). split; [done|]. rewrite len_app, len_drop. unfold len.
    rewrite block_length by done. unfold maxRate. lia.
  - by rewrite Hi.
  - by rewrite Hi, Nat.sub_0_r.
Qed.

Lemma div_same i k : (i mod R + k < R)%nat -> ((i + k) / R = i / R)%nat /\ ((i + k) mod R = i mod R + k)%nat.
Proof.
  intros H. pose proof (Nat.div_mod i R ltac:(lia)) as E.
  split; symmetry; [apply Nat.div_unique with (i mod R + k)%nat|apply Nat.mod_unique with (i / R)%nat]; lia.
Qed.

Lemma div_next i k : (0 < R)%nat -> (i mod R + k = R)%nat -> ((i + k) / R = S (i / R))%nat /\ ((i + k) mod R = 0)%nat.
Proof.
  intros HR0 H. pose proof (Nat.div_mod i R ltac:(lia)) as E.
  split; symmetry; [apply Nat.div_unique with 0%nat|apply Nat.mod_unique with (S (i / R))]; lia.
Qed.

(** A piece of the current block is a piece of the output. *)
Lemma block_bytes a i k : words (Nat.iter (i / R) f a) -> (i mod R + k <= R)%nat ->
  take k (drop (i mod R) (take R (state_bytes (Nat.iter (i / R) f a)))) = map (out_byte f R a) (seq i k).
Proof.
  intros Hw Hk. set (b := take R _). assert (length b = R) as Hb by by apply block_length.
  apply list_eq. intros j. rewrite list_lookup_fmap. destruct (decide (j < k)%nat) as [Hj|Hj].
  - rewrite lookup_take_lt, lookup_drop, lookup_seq_lt by lia. cbn.
    destruct (div_same i j) as [E1 E2]; [lia|]. unfold out_byte. rewrite E1, E2, nth_lookup.
    unfold b in *. rewrite lookup_take_lt by lia. rewrite length_take in Hb.
    destruct (lookup_lt_is_Some_2 (state_bytes (Nat.iter (i / R) f a)) (i mod R + j)) as [x ->]; [lia|done].
  - rewrite !lookup_ge_None_2; [done|rewrite length_seq; lia|rewrite length_take; lia].
Qed.

Lemma squeeze_loop_spec fuel d a i n : squeezed d a i -> (n <= fuel)%nat ->
  exists d', Read_loop fuel d (Z.of_nat n) = Ok (d', map (out_byte f R a) (seq i n)) /\
    squeezed d' a (i + n) /\ kept d d'.
Proof.
  pose proof R_bounds as HRb. revert d i n. induction fuel as [|fuel IH]; intros d i n Hd Hn.
  { assert (n = 0)%nat as -> by lia. exists d. by rewrite Nat.add_0_r. }
  destruct n as [|n']; [exists d; by rewrite Nat.add_0_r|]. set (n := S n') in *.
  destruct Hd as [Hr Hdir Hl Hw (rest & Hst & Hsl) Ha Hb].
  assert (i mod R < R)%nat as Hmod by (apply Nat.mod_upper_bound; lia).
  cbn [Read_loop]. rewrite (proj2 (Z.leb_gt _ 0)) by lia.
  assert (buf d = Ok (drop (i mod R) (take R (state_bytes (lanes d))))) as ->.
  { unfold buf. rewrite Hst, Ha, Hb. set (b := take R _). assert (length b = R) as Hlb by by apply block_length.
    rewrite <-(take_drop (i mod R) b), <-app_assoc, drop_app_ge, length_take, Nat.min_l, Nat.sub_diag, drop_0
      by (rewrite ?length_take; lia).
    apply slice_mid; unfold len; rewrite ?length_take, ?length_drop; lia. }
  cbn [rbind]. remember (Nat.min n (R - i mod R)) as k eqn:Hk.
  assert (Z.min (Z.of_nat n) (len (drop (i mod R) (take R (state_bytes (lanes d))))) = Z.of_nat k) as ->.
  { rewrite len_drop. unfold len. rewrite block_length by done. lia. }
  rewrite Ha, Hb, Nat2Z.id. set (d1 := set_buf _ _ d).
  assert (exists d2, (if buf_len d1 =? 0 then permute d1 else Ok d1) = Ok d2 /\ squeezed d2 a (i + k) /\ kept d d2)
    as (d2 & -> & Hd2 & Hk2).
  { assert (buf_len d1 = Z.of_nat (R - i mod R - k)) as E1 by (unfold d1; cbn [buf_len set_buf]; lia). rewrite E1.
    destruct (Z.eqb_spec (Z.of_nat (R - i mod R - k)) 0) as [H0|H0].
    - destruct (div_next i k) as [E2 E3]; [lia..|]. unfold permute. cbn [direction d1 set_buf lanes rate set_lanes].
      rewrite Hdir. destruct (permutation_ok (lanes d) Hw) as [-> W].
      destruct (fill_block (set_lanes (f (lanes d)) d1) a (i + k)) as (d2 & E & Hd2 & Hk2); try done.
      + cbn [lanes set_lanes]. by rewrite Hl, E2.
      + exists d2. split; [exact E|]. by split.
    - destruct (div_same i k) as [E2 E3]; [lia|]. exists d1. split; [done|]. split; [|done].
      split; cbn [rate direction lanes storage buf_at buf_len d1 set_buf]; try done; rewrite ?E2, ?E3; try done.
      + by exists rest.
      + lia.
      + lia. }
  cbn [rbind]. destruct (IH d2 (i + k)%nat (n - k)%nat Hd2 ltac:(lia)) as (d3 & E3 & Hd3 & Hk3).
  replace (Z.of_nat n - Z.of_nat k) with (Z.of_nat (n - k)) by lia. rewrite E3. cbn [rbind]. exists d3. split; [|split].
  - do 2 f_equal. rewrite Hl in *. rewrite (block_bytes a i k) by (done || lia). rewrite <-map_app, <-seq_app.
    do 2 f_equal. lia.
  - replace (i + n)%nat with (i + k + (n - k))%nat by lia. done.
  - unfold kept in *. naive_solver congruence.
Qed.

(** ** Padding *)

Lemma padding_length ds m : (0 < R)%nat -> length (padding R ds m) = (R - length m mod R)%nat.
Proof.
  intros H. pose proof (Nat.mod_upper_bound (length m) R). unfold padding.
  destruct (R - length m mod R)%nat as [|[|q]] eqn:E; [lia|done|].
  cbn [length]. rewrite length_app, length_replicate. simpl. lia.
Qed.

Lemma lxor_byte x : byte_ok x -> byte_ok (Z.lxor x 0x80).
Proof.
  unfold byte_ok. intros Hx. assert (Z.lxor x 128 = if x <? 128 then x + 128 else x - 128) as ->.
  { assert (forallb (fun x => Z.lxor x 128 =? (if x <? 128 then x + 128 else x - 128)) (map Z.of_nat (seq 0 256)) = true)
      as H by done. rewrite forallb_forall in H. apply Z.eqb_eq, H, in_map_iff. exists (Z.to_nat x).
    split; [lia|]. apply in_seq. lia. }
  destruct (Z.ltb_spec x 128); lia.
Qed.

Lemma padding_ok ds m : byte_ok ds -> bytes_ok (padding R ds m).
Proof.
  intros Hds. assert (forall q, bytes_ok (ds :: replicate q 0 ++ [128])) as H.
  { intros q. constructor; [done|]. apply bytes_ok_app. split; [apply Forall_replicate|repeat constructor];
      unfold byte_ok; lia. }
  unfold padding. destruct (R - length m mod R)%nat as [|[|q]]; try apply H.
  constructor; [by apply lxor_byte|constructor].
Qed.

(** What the code stores behind the rest of the message: the domain byte and
    zeros, whose last bit is then set. *)
Lemma padding_split ds m tail : (length m mod R = length tail)%nat -> (length tail < R)%nat ->
  exists pre x, tail ++ ds :: replicate (R - length tail - 1) 0 = pre ++ [x] /\ length pre = (R - 1)%nat /\
    tail ++ padding R ds m = pre ++ [Z.lxor x 0x80].
Proof.
  intros Hm H. unfold padding. rewrite Hm. destruct (R - length tail)%nat as [|[|q]] eqn:E; [lia| |].
  - exists tail, ds. split; [done|]. split; [lia|done].
  - exists (tail ++ ds :: replicate q 0), 0. replace (S (S q) - 1)%nat with (q + 1)%nat by lia.
    replace (S (S q) - 2)%nat with q by lia. rewrite replicate_add. split; [by rewrite <-app_assoc|].
    split; [rewrite length_app; cbn [length]; rewrite length_replicate; lia|by rewrite <-app_assoc].
Qed.

Lemma last_update (pre post : bytes) x y : index (pre ++ [x] ++ post) (len pre) = Ok x /\
  update (pre ++ [x] ++ post) (len pre) y = Ok (pre ++ [y] ++ post).
Proof.
  unfold index, update, len. rewrite (proj2 (Z.leb_le 0 _)) by lia. rewrite Nat2Z.id, lookup_app_r, Nat.sub_diag by lia.
  split; [done|]. rewrite (proj2 (Z.ltb_lt _ _)) by (rewrite !length_app; simpl; lia). cbn [andb].
  rewrite insert_app_r_alt, Nat.sub_diag by lia. done.
Qed.

Lemma absorbed_state_parts ds full tail k : length full = (k * R)%nat -> (length tail < R)%nat ->
  absorbed_state f R ds (full ++ tail) =
    absorb f R (S k) (replicate 25 0) (full ++ tail ++ padding R ds (full ++ tail)) /\
  length (tail ++ padding R ds (full ++ tail)) = R /\ (length (full ++ tail) mod R = length tail)%nat.
Proof.
  intros Hf Ht. assert (length (full ++ tail) mod R = length tail)%nat as Hmod.
  { rewrite length_app, Hf, Nat.add_comm, Nat.Div0.mod_add. by apply Nat.mod_small. }
  assert (length (tail ++ padding R ds (full ++ tail)) = R) as Hl
    by (rewrite length_app, padding_length, Hmod by lia; lia).
  split; [|done]. unfold absorbed_state. rewrite <-app_assoc. f_equal.
  rewrite length_app, Hl, Hf. symmetry. apply Nat.div_unique with 0%nat; lia.
Qed.

Lemma padAndPermute_spec d m ds : absorbed d m -> bytes_ok m -> byte_ok ds ->
  exists d', padAndPermute d ds = Ok d' /\ squeezed d' (absorbed_state f R ds m) 0 /\ kept d d'.
Proof.
  intros [Hr Hdir Hw (k & full & tail & rest & -> & Hfull & Htail & Hla & Hst & Hsl & Ha & Hn)] Hm Hds.
  pose proof R_bounds as HRb. apply bytes_ok_app in Hm as [_ Ht].
  assert (length (tail ++ rest) = 168)%nat as Hall by (rewrite <-Hst; unfold len, maxRate in Hsl; lia).
  rewrite length_app in Hall. destruct (absorbed_state_parts ds full tail k Hfull Htail) as (-> & Hlen & Hmod).
  destruct (padding_split ds (full ++ tail) tail Hmod Htail) as (pre & x & E1 & Hpre & E2).
  unfold padAndPermute. rewrite (append_tail d tail rest [ds]) by (try done; simpl; lia). cbn [rbind length].
  remember (R - length tail - 1)%nat as q eqn:Hq.
  rewrite <-(take_drop q (drop 1 rest)). set (old := take q _). set (post := drop q _).
  assert (length old = q) as Hold by (unfold old; rewrite length_take, length_drop; lia).
  set (d1 := set_buf 0 _ _).
  assert (length (storage d1) = 168)%nat as Hd1.
  { unfold d1. cbn [storage set_buf set_storage]. unfold post. rewrite !length_app, length_drop, length_drop, Hold. simpl. lia. }
  unfold point at 1. cbn [rate d1 set_buf set_storage]. rewrite Hr.
  change (storage d1) with ((tail ++ [ds]) ++ old ++ post) in Hd1.
  change (storage d1) with ((tail ++ [ds]) ++ old ++ post).
  rewrite slice_take by lia. cbn [rbind storage buf_len rate d1 set_buf set_storage]. rewrite Hr.
  rewrite (copy_at_mid (tail ++ [ds]) old post);
    [|done|unfold len; rewrite length_app, Hold; simpl; lia|
     rewrite len_zeros; unfold len; rewrite ?length_app, ?Hold; simpl; lia].
  cbn [rbind]. replace (zeros _) with (replicate q 0) by (unfold zeros, len; f_equal; rewrite length_app; simpl; lia).
  rewrite app_assoc, <-(app_assoc tail). cbn [app]. rewrite E1, <-app_assoc.
  destruct (last_update pre post x (Z.lxor x 0x80)) as [H1 H2].
  replace (Z.of_nat R - 1) with (len pre) by (unfold len; lia). rewrite H1. cbn [rbind]. rewrite H2. cbn [rbind].
  rewrite app_assoc, <-E2. set (d2 := set_storage _ _).
  destruct (permute_block d2 (tail ++ padding R ds (full ++ tail)) post k full) as [-> W]; try done.
  { apply bytes_ok_app. split; [done|]. by apply padding_ok. }
  { cbn. lia. }
  cbn [rbind]. set (d3 := set_direction _ _).
  destruct (fill_block d3 (absorb f R (S k) (replicate 25 0) (full ++ tail ++ padding R ds (full ++ tail))) 0)
    as (d4 & E & Hd4 & Hk4); try done.
  { apply Nat.Div0.mod_0_l. }
  { by rewrite Nat.Div0.div_0_l. }
  { cbn [storage d3 set_direction set_lanes set_buf d2 set_storage]. rewrite len_app. unfold len. rewrite Hlen.
    rewrite !length_app in Hd1. simpl in Hd1. unfold maxRate. lia. }
  exists d4. split; [exact E|]. by split.
Qed.

(** ** Reading, summing and copying *)

(** The state from which reading continues. *)
Definition reads_from (d : state) (a : list Z) (i : nat) : Prop :=
  squeezed d a i \/ exists m, absorbed d m /\ bytes_ok m /\ byte_ok (dsbyte d) /\
    a = absorbed_state f R (dsbyte d) m /\ i = 0%nat.

Lemma squeeze_spec d a i n : reads_from d a i -> exists d', Read d (Z.of_nat n) =
    Ok (d', map (out_byte f R a) (seq i n)) /\ squeezed d' a (i + n) /\ kept d d'.
Proof.
  unfold Read. rewrite Nat2Z.id. intros [Hd|(m & Hd & Hm & Hds & -> & ->)].
  - rewrite (sq_dir _ _ _ Hd). cbn [rbind]. by apply squeeze_loop_spec.
  - rewrite (ab_dir _ _ Hd). destruct (padAndPermute_spec d m (dsbyte d) Hd Hm Hds) as (d1 & -> & Hd1 & Hk1).
    cbn [rbind]. destruct (squeeze_loop_spec n d1 _ 0 n Hd1 ltac:(lia)) as (d2 & -> & Hd2 & Hk2).
    exists d2. split; [done|]. split; [done|]. unfold kept in *. naive_solver congruence.
Qed.

Lemma clone_absorbed d m : absorbed d m -> clone d = Ok d.
Proof.
  intros [Hr Hdir Hw (k & full & tail & rest & -> & Hfull & Htail & Hla & Hst & Hsl & Ha & Hn)].
  unfold clone, point. rewrite Hdir, Hn, Hst. unfold len at 1. rewrite slice_take by (rewrite length_app; lia).
  cbn [rbind]. rewrite Z.sub_0_r, <-Hn, <-Ha. by destruct d.
Qed.

Lemma Sum_spec d m pre : absorbed d m -> bytes_ok m -> byte_ok (dsbyte d) -> 0 <= outputLen d ->
  Sum d pre = Ok (pre ++ sponge_hash f R (dsbyte d) (Z.to_nat (outputLen d)) m).
Proof.
  intros Hd Hm Hds Ho. unfold Sum. rewrite (clone_absorbed d m Hd). cbn [rbind].
  destruct (squeeze_spec d (absorbed_state f R (dsbyte d) m) 0 (Z.to_nat (outputLen d))) as (d' & E & _);
    [right; by exists m|]. rewrite Z2Nat.id in E by done. by rewrite E.
Qed.

Lemma sponge_hash_length ds n m : length (sponge_hash f R ds n m) = n.
Proof. unfold sponge_hash. by rewrite length_map, length_seq. Qed.

Lemma out_byte_ok a i : byte_ok (out_byte f R a i).
Proof.
  unfold out_byte. generalize (i mod R)%nat as j. intros j. pose proof (state_bytes_ok (Nat.iter (i / R) f a)) as H.
  rewrite nth_lookup. destruct (_ !! j) as [x|] eqn:E; [|unfold byte_ok; simpl; lia]. by apply (Forall_lookup_1 _ _ _ _ H E).
Qed.

Lemma sponge_hash_ok ds n m : bytes_ok (sponge_hash f R ds n m).
Proof. apply Forall_map, Forall_forall. intros i _. apply out_byte_ok. Qed.

(** A sequence of writes. *)
Fixpoint write_all (d : state) (ps : list bytes) : result state :=
  match ps with [] => Ok d | p :: ps => let? (d, _) := Write d p in write_all d ps end.

Lemma write_all_spec ps d m : absorbed d m -> bytes_ok m -> Forall bytes_ok ps ->
  exists d', write_all d ps = Ok d' /\ absorbed d' (m ++ concat ps) /\ kept d d'.
Proof.
  revert d m. induction ps as [|p ps IH]; intros d m Hd Hm Hps; simpl.
  - exists d. by rewrite app_nil_r.
  - apply Forall_cons in Hps as [Hp Hps]. destruct (Write_spec d m p Hd Hm Hp) as (d1 & -> & Hd1 & Hk1). cbn [rbind].
    destruct (IH d1 (m ++ p) Hd1) as (d2 & -> & Hd2 & Hk2); [by apply bytes_ok_app|done|].
    exists d2. rewrite app_assoc. split; [done|]. split; [done|]. unfold kept in *. naive_solver congruence.
Qed.

End Sponge.

End KeccakSponge.
