(* ===== verification/Keys.v ===== *)
(** * Hashes, addresses and private keys

    Translates [src/crypto/crypto.go] on top of the sponge and the RLP encoder:
    the Keccak functions, [CreateAddress], the conversions of private keys and
    [PubkeyToAddress].  The curve is a parameter: its base point multiplication
    and the uncompressed encoding of a point.  Reading and writing key files and
    generating keys is not modelled. *)

From Stdlib Require Import String Lia.
From stdpp Require Import base numbers option strings gmap list.
From S2P Require Import Prelude BigInt Types Params Machine Precompiles RlpTypes RlpEncode Keccak.

#[local] Open Scope Z_scope.
#[local] Open Scope go_scope.

Module Keys.
Import Common Precompiles.

(** ** Hashing *)

Section Hashing.
Context `{Keccak.Impl}.

Fixpoint write_each (d : Keccak.state) (data : list bytes) : result Keccak.state :=
  match data with
  | [] => Ok d
  | b :: data => let? (d, _) := Keccak.Write d b in write_each d data
  end.

Definition Keccak256 (data : list bytes) : result bytes :=
  let? d := write_each Keccak.NewKeccak256 data in Keccak.Sum d [].
(** [d.Sum(h[:0])] fills the array. *)
Definition Keccak256Hash (data : list bytes) : result Hash :=
  let? d := write_each Keccak.NewKeccak256 data in Keccak.Sum d [].
Definition Keccak512 (data : list bytes) : result bytes :=
  let? d := write_each Keccak.NewKeccak512 data in Keccak.Sum d [].

(** ** [CreateAddress] *)

(** The declaration [type Address [AddressLength]byte]: no methods of its own
    for RLP. *)
Definition AddressType : RlpTypes.typ := RlpTypes.TNamed "common.Address".
Definition AddressDecl : RlpTypes.decl :=
  {| RlpTypes.Under := RlpTypes.UType (RlpTypes.TArray AddressLength (RlpTypes.TUint RlpTypes.W8));
     RlpTypes.EncodeRLP_on := None; RlpTypes.DecodeRLP_on := None |}.

(** [[]interface{}{b, nonce}]. *)
Definition address_nonce (b : Address) (nonce : Z) : RlpTypes.val :=
  RlpTypes.VSlice [RlpTypes.VIface (Some (AddressType, RlpTypes.VBytes b));
                   RlpTypes.VIface (Some (RlpTypes.TUint RlpTypes.W64, RlpTypes.VUint nonce))] [].

(** The error of the encoder is ignored: [data] is then nil. *)
Definition CreateAddress (env : gmap string RlpTypes.decl) (enc : RlpEncode.Encoders) (gen_fuel fuel : nat)
    (old : RlpEncode.encbuf) (tc : RlpTypes.cache) (b : Address) (nonce : Z) : result (RlpTypes.cache * Address) :=
  let? (tc, res) := RlpEncode.EncodeToBytes env enc gen_fuel fuel old
    (RlpTypes.TSlice (RlpTypes.TInterface 0)) (address_nonce b nonce) tc in
  let data := match res with inl _ => [] | inr data => data end in
  let? hash := Keccak256 [data] in
  let? suffix := slice hash 12 (len hash) in
  Ok (tc, BytesToAddress suffix).

End Hashing.

(** ** Private keys *)

Record PrivateKey := mkPrivateKey { D : Z; PubX : Z; PubY : Z }.

Inductive keyError :=
| invalidLength | tooLarge | zeroOrNegative | invalidPrivateKey | invalidHexString.

Section Curve.
Context (ScalarBaseMult : bytes -> option (Z * Z)).
Definition BitSize : Z := 256.

Definition toECDSA (d : bytes) (strict : bool) : keyError + PrivateKey :=
  if strict && negb (8 * len d =? BitSize) then inl invalidLength
  else
    let D := Big.SetBytes d in
    if secp256k1_N <=? D then inl tooLarge
    else if D <=? 0 then inl zeroOrNegative
    else match ScalarBaseMult d with
         | None => inl invalidPrivateKey
         | Some (x, y) => inr (mkPrivateKey D x y)
         end.

Definition ToECDSA (d : bytes) : keyError + PrivateKey := toECDSA d true.
(** [None] is the nil pointer returned with the ignored error. *)
Definition ToECDSAUnsafe (d : bytes) : option PrivateKey :=
  match toECDSA d false with inl _ => None | inr k => Some k end.

Definition FromECDSA (priv : option PrivateKey) : bytes :=
  match priv with
  | None => []
  | Some priv => Big.PaddedBigBytes (D priv) (BitSize / 8)
  end.

(** [hex.DecodeString] fails on an odd length or a character that is no digit. *)
Definition HexToECDSA (hexkey : bytes) : keyError + PrivateKey :=
  if negb (len hexkey mod 2 =? 0) || negb (forallb (fun c => match fromHexChar c with Some _ => true | None => false end) hexkey)
  then inl invalidHexString
  else ToECDSA (Hex2Bytes hexkey).

End Curve.

Definition PubkeyToAddress `{Keccak.Impl} (Marshal : Z * Z -> bytes) (p : Z * Z) : result Address :=
  let pubBytes := Marshal p in
  let? rest := slice pubBytes 1 (len pubBytes) in
  let? hash := Keccak256 [rest] in
  let? suffix := slice hash 12 (len hash) in
  Ok (BytesToAddress suffix).

Definition zeroBytes (b : bytes) : bytes := map (fun _ => 0) b.

End Keys.
