(* ===== verification/KeccakLaws.v ===== *)
(** * Keccak and keys: the theorems

    The permutation and the hash functions compute their references, however
    the input is cut into writes and the output into reads; copying a sponge
    that is being read is wrong for every rate but the largest.  The address of
    a new contract is the hash of the canonical encoding of creator and nonce,
    so two parameters of the virtual machine have an implementation.  Private
    keys survive export and import. *)

From Stdlib Require Import String Lia.
From stdpp Require Import base numbers option strings gmap list.
From S2P Require Import Prelude BigInt Types Params Machine Precompiles Spec.
From S2P Require Import RlpTypes RlpEncode RlpDecode RlpSpec RlpRefine RlpCanon RlpCache RlpLaws.
From S2P Require Import Keccak KeccakSpec KeccakSponge Keys.

#[local] Open Scope Z_scope.
#[local] Open Scope go_scope.

Module KeccakLaws.
Import Common Keccak KeccakSpec KeccakSponge.

(** C17: The unrolled permutation, which combines the steps of a round and
    works in place on a permuted layout, computes Keccak-f[1600] as it is
    defined: 24 rounds of theta, rho, pi, chi and iota with generated rotation
    offsets and round constants. *)
Theorem keccakF_correct (a : list Z) : words a -> keccakF1600 a = keccak_f a /\ words (keccakF1600 a).
Proof. intros Ha. destruct (keccakF_ref a Ha) as [-> W]. by split. Qed.

Lemma keccakF_correct_witness : words (replicate 25 0) /\
  nth 0 (keccak_f (replicate 25 0)) 0 = 0xF1258F7940E1DDE7.
Proof.
  split; [apply zero_words|]. destruct (keccakF_correct (replicate 25 0) zero_words) as [E _].
  rewrite <-E. vm_compute. reflexivity.
Defined.

(** ** The hash functions *)

Section Hashes.
Context (X : Impl) `{!ImplLaws X keccak_f}.

Lemma write_each_all d data : Keys.write_each d data = write_all X d data.
Proof. revert d. induction data as [|b data IH]; intros d; simpl; [done|]. destruct (Write d b) as [[d1 n]| |]; simpl; auto. Qed.

Lemma written R n ds data : Z.of_nat R ∈ rates -> Forall bytes_ok data ->
  exists d, write_all X (new_state (Z.of_nat R) n ds) data = Ok d /\ absorbed keccak_f R d (concat data) /\
    outputLen d = n /\ dsbyte d = ds.
Proof.
  intros HR Hd. destruct (write_all_spec X keccak_f R HR data _ [] (new_absorbed keccak_f R HR n ds))
    as (d & E & H & Ho & Hs); [constructor|done|]. by exists d.
Qed.

Lemma concat_bytes data : Forall bytes_ok data -> bytes_ok (concat data).
Proof. induction 1; simpl; [constructor|]. by apply bytes_ok_app. Qed.

Lemma summed R n ds data : Z.of_nat R ∈ rates -> 0 <= n -> byte_ok ds -> Forall bytes_ok data ->
  (let? d := write_all X (new_state (Z.of_nat R) n ds) data in Sum d []) =
    Ok (sponge_hash keccak_f R ds (Z.to_nat n) (concat data)).
Proof.
  intros HR Hn Hds Hd. destruct (written R n ds data HR Hd) as (d & -> & H & Ho & Hs). cbn [rbind].
  rewrite (Sum_spec X keccak_f R HR d (concat data) []); rewrite ?Ho, ?Hs; try done. by apply concat_bytes.
Qed.

Lemma digest_spec R n ds data : Z.of_nat R ∈ rates -> 0 <= n -> byte_ok ds -> bytes_ok data ->
  digest (new_state (Z.of_nat R) n ds) data = Ok (sponge_hash keccak_f R ds (Z.to_nat n) data).
Proof.
  intros HR Hn Hds Hd. pose proof (summed R n ds [data] HR Hn Hds ltac:(by repeat constructor)) as E.
  simpl in E. rewrite app_nil_r in E. rewrite <-E. unfold digest.
  destruct (Write _ data) as [[d k]| |]; done.
Qed.

Lemma shake_spec R n ds data : Z.of_nat R ∈ rates -> byte_ok ds -> bytes_ok data ->
  shake (new_state (Z.of_nat R) 0 ds) (Z.of_nat n) data = Ok (sponge_hash keccak_f R ds n data).
Proof.
  intros HR Hds Hd. destruct (written R 0 ds [data] HR ltac:(by repeat constructor)) as (d & E & H & _ & Hs).
  simpl in E, H. rewrite app_nil_r in H. unfold shake. destruct (Write _ data) as [[d1 k]| |]; [|done..].
  simpl in E. injection E as ->. cbn [rbind].
  destruct (squeeze_spec X keccak_f R HR d (absorbed_state keccak_f R ds data) 0 n) as (d' & -> & _); [|done].
  right. exists data. by rewrite Hs.
Qed.

End Hashes.

Ltac in_rates := apply (bool_decide_eq_true_1 _); vm_compute; reflexivity.

(** ** Reading in pieces, copying *)

Fixpoint read_all `{Impl} (d : state) (ns : list nat) : result (state * list Z) :=
  match ns with
  | [] => Ok (d, [])
  | n :: ns =>
      let? (d, b) := Read d (Z.of_nat n) in let? (d, rest) := read_all d ns in Ok (d, b ++ rest)
  end.

Lemma read_all_spec X `{!ImplLaws X keccak_f} R (HR : Z.of_nat R ∈ rates) ns d a i : squeezed keccak_f R d a i ->
  exists d', read_all d ns = Ok (d', map (out_byte keccak_f R a) (seq i (sum_list ns))) /\
    squeezed keccak_f R d' a (i + sum_list ns).
Proof.
  revert d i. induction ns as [|n ns IH]; intros d i Hd; simpl.
  - exists d. by rewrite Nat.add_0_r.
  - destruct (squeeze_spec X keccak_f R HR d a i n) as (d1 & -> & Hd1 & _); [by left|]. cbn [rbind].
    destruct (IH d1 (i + n)%nat Hd1) as (d2 & -> & Hd2). cbn [rbind]. exists d2.
    rewrite seq_app, map_app, Nat.add_assoc. by split.
Qed.

(** The output of an extendable-output function is one stream: reads of
    any sizes deliver its consecutive bytes, whatever way the input was cut
    into writes; nothing panics. *)
Lemma shake_stream (X : Impl) `{!ImplLaws X keccak_f} (R : nat) (ds : Z) (pieces : list (list Z)) (ns : list nat) :
  Z.of_nat R ∈ rates -> byte_ok ds -> Forall bytes_ok pieces ->
  exists d d', write_all X (new_state (Z.of_nat R) 0 ds) pieces = Ok d /\
    read_all d ns = Ok (d', sponge_hash keccak_f R ds (sum_list ns) (concat pieces)).
Proof.
  intros HR Hds Hp. destruct (written X R 0 ds pieces HR Hp) as (d & E & Hd & _ & Hs).
  destruct ns as [|n ns]; [by exists d, d|]. simpl.
  destruct (squeeze_spec X keccak_f R HR d (absorbed_state keccak_f R ds (concat pieces)) 0 n) as (d1 & E1 & Hd1 & _).
  { right. exists (concat pieces). rewrite Hs. by pose proof (concat_bytes pieces Hp). }
  destruct (read_all_spec X R HR ns d1 _ _ Hd1) as (d2 & E2 & _). exists d, d2. split; [done|].
  rewrite E1. cbn [rbind]. rewrite E2. cbn [rbind]. unfold sponge_hash. by rewrite seq_app, map_app.
Qed.

(** A digest fed by several writes, and an extendable-output function fed by
    several writes and drained by several reads. *)
Definition written_sum (X : Impl) (d : state) (pieces : list (list Z)) : result (list Z) :=
  let? d := write_all X d pieces in Sum d [].
Definition written_read (X : Impl) (d : state) (pieces : list (list Z)) (ns : list nat) : result (list Z) :=
  let? d := write_all X d pieces in let? (_, out) := read_all d ns in Ok out.

Lemma shake_stream_read X `{!ImplLaws X keccak_f} R pieces ns : Z.of_nat R ∈ rates -> Forall bytes_ok pieces ->
  written_read X (new_state (Z.of_nat R) 0 0x1f) pieces ns =
    Ok (sponge_hash keccak_f R 0x1f (sum_list ns) (concat pieces)).
Proof.
  intros HR Hp. destruct (shake_stream X R 0x1f pieces ns HR ltac:(unfold byte_ok; lia) Hp) as (d & d' & E & Er).
  unfold written_read. rewrite E. cbn [rbind]. by rewrite Er.
Qed.

(** C18: Every digest constructor of the package, written to in any pieces,
    and both extendable-output functions, written to and read from in any
    pieces, compute the sponge construction over Keccak-f[1600] of the
    concatenated input with their rate, domain byte and output length; so do
    the one-shot functions.  This holds on each build: portable, unaligned, or
    with an assembly permutation that computes Keccak-f[1600]. *)
Theorem hashes_correct (X : Impl) `{!ImplLaws X keccak_f} (pieces : list (list Z)) (ns : list nat)
    (data : list Z) (n : nat) :
  Forall bytes_ok pieces -> bytes_ok data ->
  let m := concat pieces in
  written_sum X New224 pieces = Ok (sponge_hash keccak_f 144 0x06 28 m) /\
  written_sum X New256 pieces = Ok (sponge_hash keccak_f 136 0x06 32 m) /\
  written_sum X New384 pieces = Ok (sponge_hash keccak_f 104 0x06 48 m) /\
  written_sum X New512 pieces = Ok (sponge_hash keccak_f 72 0x06 64 m) /\
  written_sum X NewKeccak256 pieces = Ok (sponge_hash keccak_f 136 0x01 32 m) /\
  written_sum X NewKeccak512 pieces = Ok (sponge_hash keccak_f 72 0x01 64 m) /\
  written_read X NewShake128 pieces ns = Ok (sponge_hash keccak_f 168 0x1f (sum_list ns) m) /\
  written_read X NewShake256 pieces ns = Ok (sponge_hash keccak_f 136 0x1f (sum_list ns) m) /\
  Keys.Keccak256 pieces = Ok (sponge_hash keccak_f 136 0x01 32 m) /\
  Keys.Keccak256Hash pieces = Ok (sponge_hash keccak_f 136 0x01 32 m) /\
  Keys.Keccak512 pieces = Ok (sponge_hash keccak_f 72 0x01 64 m) /\
  Sum224 data = Ok (sponge_hash keccak_f 144 0x06 28 data) /\
  Sum256 data = Ok (sponge_hash keccak_f 136 0x06 32 data) /\
  Sum384 data = Ok (sponge_hash keccak_f 104 0x06 48 data) /\
  Sum512 data = Ok (sponge_hash keccak_f 72 0x06 64 data) /\
  ShakeSum128 (Z.of_nat n) data = Ok (sponge_hash keccak_f 168 0x1f n data) /\
  ShakeSum256 (Z.of_nat n) data = Ok (sponge_hash keccak_f 136 0x1f n data).
Proof.
  intros Hp Hd m. unfold Keys.Keccak256, Keys.Keccak256Hash, Keys.Keccak512. rewrite !write_each_all.
  assert (byte_ok 0x01 /\ byte_ok 0x06 /\ byte_ok 0x1f) as (? & ? & ?) by (unfold byte_ok; lia).
  split; [apply (summed X 144 28); [in_rates|done..]|]. split; [apply (summed X 136 32); [in_rates|done..]|].
  split; [apply (summed X 104 48); [in_rates|done..]|]. split; [apply (summed X 72 64); [in_rates|done..]|].
  split; [apply (summed X 136 32); [in_rates|done..]|]. split; [apply (summed X 72 64); [in_rates|done..]|].
  split; [apply (shake_stream_read X 168); [in_rates|done]|].
  split; [apply (shake_stream_read X 136); [in_rates|done]|].
  split; [apply (summed X 136 32); [in_rates|done..]|]. split; [apply (summed X 136 32); [in_rates|done..]|].
  split; [apply (summed X 72 64); [in_rates|done..]|]. split; [apply (digest_spec X 144 28); [in_rates|done..]|].
  split; [apply (digest_spec X 136 32); [in_rates|done..]|]. split; [apply (digest_spec X 104 48); [in_rates|done..]|].
  split; [apply (digest_spec X 72 64); [in_rates|done..]|].
  split; [apply (shake_spec X 168); [in_rates|done..]|apply (shake_spec X 136); [in_rates|done..]].
Qed.

(** "abc" in two writes; the hash of the empty message is the known constant. *)
Lemma hashes_correct_witness :
  written_sum generic New256 [[97]; [98; 99]] = Ok (sponge_hash keccak_f 136 0x06 32 [97; 98; 99]) /\
  written_read generic NewShake128 [[97]; [98; 99]] [2; 0; 3]%nat =
    Ok (sponge_hash keccak_f 168 0x1f 5 [97; 98; 99]) /\
  Keys.Keccak256 (H := generic) [] = Ok [0xc5; 0xd2; 0x46; 0x01; 0x86; 0xf7; 0x23; 0x3c; 0x92; 0x7e; 0x7d; 0xb2;
    0xdc; 0xc7; 0x03; 0xc0; 0xe5; 0x00; 0xb6; 0x53; 0xca; 0x82; 0x27; 0x3b; 0x7b; 0xfa; 0xd8; 0x04; 0x5d; 0x85;
    0xa4; 0x70].
Proof.
  assert (Forall bytes_ok [[97]; [98; 99]]) as Hp by (repeat constructor; unfold byte_ok; lia).
  destruct (hashes_correct generic [[97]; [98; 99]] [2; 0; 3]%nat [] 0 Hp bytes_ok_nil)
    as (_ & H1 & _ & _ & _ & _ & H2 & _).
  split; [exact H1|]. split; [exact H2|]. vm_compute. reflexivity.
Defined.

Lemma shake_stream_witness : exists d d',
  write_all unaligned NewShake256 [[1]; [2; 3]] = Ok d /\
  read_all (H := unaligned) d [2; 0; 3]%nat = Ok (d', sponge_hash keccak_f 136 0x1f 5 [1; 2; 3]).
Proof.
  apply (shake_stream unaligned 136 0x1f [[1]; [2; 3]] [2; 0; 3]%nat);
    [in_rates|unfold byte_ok; lia|repeat constructor; unfold byte_ok; lia].
Defined.

(** Copying a sponge that is being read is wrong below the largest rate:
    the copy is the sponge itself at rate 168; at a smaller rate [clone] panics
    when fewer than 168 - rate bytes of the current block have been read, and
    otherwise the copy delivers again the last 168 - rate bytes. *)
Theorem clone_while_squeezing (X : Impl) `{!ImplLaws X keccak_f} (R : nat) (d : state) (a : list Z) (i : nat) :
  Z.of_nat R ∈ rates -> squeezed keccak_f R d a i ->
  (R = 168%nat -> clone d = Ok d) /\
  ((i mod R < 168 - R)%nat -> clone d = Panic) /\
  ((168 - R <= i mod R)%nat -> exists d', clone d = Ok d' /\ squeezed keccak_f R d' a (i - (168 - R))).
Proof.
  intros HR [Hr Hdir Hl Hw (rest & Hst & Hsl) Ha Hb]. pose proof (R_bounds R HR) as HRb.
  assert (i mod R < R)%nat as Hmod by (apply Nat.mod_upper_bound; lia).
  assert (length (storage d) = 168)%nat as Hs by (unfold len, maxRate in Hsl; lia).
  unfold clone, point, cap_buf, maxRate. rewrite Hdir, Hr, Ha.
  assert ((168 - R <= i mod R)%nat -> slice (storage d) (Z.of_nat R - (168 - Z.of_nat (i mod R))) (Z.of_nat R) =
    Ok (take (168 - i mod R) (drop (i mod R - (168 - R)) (storage d)))) as Hok.
  { intros H. rewrite slice_Ok by (unfold len; lia). do 3 f_equal; lia. }
  split; [|split].
  - intros ->. rewrite Hok by lia. cbn [rbind]. f_equal. unfold set_buf. destruct d. simpl in *. f_equal; lia.
  - intros H. unfold slice. replace (0 <=? _) with false; [done|]. symmetry. apply Z.leb_gt. lia.
  - intros H. rewrite Hok by lia. cbn [rbind]. eexists. split; [done|].
    assert (R <= i \/ i < R)%nat as Hcase by lia. pose proof (Nat.div_mod i R ltac:(lia)) as Ed.
    assert ((i - (168 - R)) / R = i / R)%nat as E1 by (symmetry; apply Nat.div_unique with (i mod R - (168 - R))%nat; lia).
    assert ((i - (168 - R)) mod R = i mod R - (168 - R))%nat as E2 by (symmetry; apply Nat.mod_unique with (i / R)%nat; lia).
    split; cbn [rate direction lanes storage buf_at buf_len set_buf]; rewrite ?E1, ?E2; try done; [by exists rest|lia..].
Qed.

(** SHAKE-256 after five bytes. *)
Definition shake_read : state :=
  match Read (H := generic) NewShake256 5 with Ok (d, _) => d | _ => NewShake256 end.

Lemma clone_while_squeezing_witness : clone shake_read = Panic.
Proof.
  destruct (squeeze_spec generic keccak_f 136 ltac:(in_rates) NewShake256 (absorbed_state keccak_f 136 0x1f []) 0 5)
    as (d & E & Hd & _).
  { right. exists []. split; [exact (new_absorbed keccak_f 136 ltac:(in_rates) 0 0x1f)|].
    split; [constructor|]. split; [simpl; unfold byte_ok; lia|]. split; reflexivity. }
  assert (shake_read = d) as -> by (unfold shake_read; change 5 with (Z.of_nat 5); by rewrite E).
  apply (clone_while_squeezing generic 136 d _ _ ltac:(in_rates) Hd). vm_compute. lia.
Defined.

(** ** Addresses of new contracts *)

Section Address.
Import RlpTypes RlpEncode RlpSpec RlpRefine RlpCache RlpLaws.
Context (env : gmap string decl) (gen_fuel : nat) (Hgen : (2 <= gen_fuel)%nat).
Context (Haddr : env !! "common.Address"%string = Some Keys.AddressDecl).

Lemma gen_address rec : genTypeInfo env rec Keys.AddressType no_tags =
  gret {| idecoder := DByteArray; iwriter := WByteArray |}.
Proof.
  unfold genTypeInfo, makeDecoder, makeWriter, ImplementsDecoder, ImplementsEncoder, implements, is_ptr_kind,
    AssignableToBigPtr, Keys.AddressType. cbn [kind_of]. by rewrite Haddr.
Qed.

Lemma gen_uint64 rec : genTypeInfo env rec (TUint W64) no_tags = gret {| idecoder := DUint; iwriter := WUintw |}.
Proof. done. Qed.

Lemma plain_succeeds t info : (forall rec, genTypeInfo env rec t no_tags = gret info) ->
  succeeds (cachedTypeInfo env gen_fuel t no_tags).
Proof.
  intros H tc. unfold cachedTypeInfo. destruct (typeCache tc !! _); [done|]. revert tc.
  destruct gen_fuel as [|fuel]; [lia|]. apply succeeds_cached. rewrite H. apply succeeds_ret.
Qed.

Lemma address_writer tc w : good_writer env tc Keys.AddressType no_tags w -> w = WByteArray.
Proof.
  destruct w; simpl; unfold ImplementsEncoder, implements, AssignableToBigPtr, Keys.AddressType; cbn [kind_of];
    rewrite ?Haddr; simpl; naive_solver.
Qed.

Lemma uint64_writer tc w : good_writer env tc (TUint W64) no_tags w -> w = WUintw.
Proof. destruct w; simpl; naive_solver. Qed.

Lemma ifslice_succeeds : succeeds (cachedTypeInfo env gen_fuel RlpDecode.ifsliceType no_tags).
Proof. apply dynamic_succeeds; [done|]. by right; right. Qed.

Context (enc : Encoders) (user : typ -> val -> result (error + list Z)) `{!EncoderLaw enc user}.

Lemma len_rlp_string b : len b < two64 -> len (rlp_string b) <= len b + 9.
Proof.
  intros Hb. pose proof (len_nonneg b).
  assert (forall n, 0 <= n < two64 -> len (header 128 183 n ++ b) <= len b + 9) as H9.
  { intros n Hn. rewrite len_app. pose proof (len_header 128 183 n Hn). lia. }
  unfold rlp_string. destruct b as [|x [|y b]]; [apply H9; lia|destruct (x <=? 127)|apply H9; lia].
  - rewrite len_single. lia.
  - apply (H9 1). unfold two64. lia.
Qed.

Lemma len_Bytes_le x : is_u64 x -> len (Big.Bytes x) <= 8.
Proof.
  intros Hx. destruct (Z.eq_dec x 0) as [->|]; [done|]. unfold is_u64 in Hx. pose proof (len_Bytes_u64 x). lia.
Qed.

Lemma address_nonce_short b nonce : address_ok b -> is_u64 nonce ->
  len (rlp_list (rlp_string b ++ rlp_uint nonce)) < two63.
Proof.
  intros [Hb _] Hn. pose proof (len_Bytes_le nonce Hn).
  assert (len b = 20) as Hl by (unfold len; by rewrite Hb). unfold rlp_list, rlp_uint.
  pose proof (len_rlp_string b ltac:(rewrite Hl; done)).
  pose proof (len_rlp_string (Big.Bytes nonce) ltac:(unfold two64; lia)).
  set (p := rlp_string b ++ _). assert (0 <= len p <= 46) as Hp.
  { unfold p. rewrite len_app. pose proof (len_nonneg (rlp_string b)). pose proof (len_nonneg (rlp_string (Big.Bytes nonce))). lia. }
  rewrite len_app. pose proof (len_header 192 247 (len p) ltac:(unfold two64; lia)). unfold two63. lia.
Qed.

Lemma address_nonce_encoded fuel old b nonce tc : cache_ok env tc -> complete tc -> (3 <= fuel)%nat ->
  address_ok b -> is_u64 nonce ->
  exists tc', EncodeToBytes env enc gen_fuel fuel old (TSlice (TInterface 0)) (Keys.address_nonce b nonce) tc =
      Ok (tc', inr (rlp_list (rlp_string b ++ rlp_uint nonce))) /\ cache_ok env tc' /\ complete tc'.
Proof.
  intros Hok Hc Hf [Hbl Hb] Hn. destruct fuel as [|[|[|fuel]]]; [lia..|].
  destruct (succeeds_info env gen_fuel RlpDecode.ifsliceType tc ifslice_succeeds Hok Hc)
    as (tc1 & l & info & Eg & Ei & Hi & Hok1 & Hc1 & E1).
  destruct (ifslice_yields env gen_fuel user (S (S fuel)) false
    [VIface (Some (Keys.AddressType, VBytes b)); VIface (Some (TUint W64, VUint nonce))] []
    [rlp_string b; rlp_uint nonce] tc1 info ltac:(done) Hi) with tc1 as (tc2 & Es & E2 & Hok2 & Hc2); [|done|done|].
  { constructor; [|constructor; [|constructor]]; intros addr; apply interface_yields.
    - by apply (plain_succeeds _ _ gen_address).
    - intros tc' info' _ [_ ->%address_writer] tc2 _ R2. by exists tc2.
    - by apply (plain_succeeds _ _ gen_uint64).
    - intros tc' info' _ [_ ->%uint64_writer] tc2 _ R2. by exists tc2. }
  exists tc2. split; [|done]. cbn [concat] in Es. rewrite app_nil_r in Es.
  assert (spec_encode env user gen_fuel (S (S (S fuel))) RlpDecode.ifsliceType (Keys.address_nonce b nonce) tc =
    Ok (tc2, inr (rlp_list (rlp_string b ++ rlp_uint nonce)))) as E.
  { unfold spec_encode. rewrite Eg. cbn [rbind]. rewrite Ei. cbn [rbind]. exact Es. }
  rewrite (EncodeToBytes_spec env enc user); [exact E|by simpl; unfold is_u64 in Hn|].
  intros tc' bs E'. pose proof (eq_trans (eq_sym E) E') as Ee. injection Ee as _ <-. by apply address_nonce_short.
Qed.

(** [CreateAddress] is the last twenty bytes of the Keccak-256 hash of the
    canonical RLP encoding of the list of the creator's address and the nonce,
    whatever the state of the type cache and of the pooled buffer. *)
Theorem CreateAddress_correct (X : Impl) `{!ImplLaws X keccak_f} fuel old b nonce tc :
  cache_ok env tc -> complete tc -> (3 <= fuel)%nat -> address_ok b -> is_u64 nonce ->
  exists tc', Keys.CreateAddress env enc gen_fuel fuel old tc b nonce =
    Ok (tc', drop 12 (sponge_hash keccak_f 136 0x01 32 (rlp_list (rlp_string b ++ rlp_uint nonce)))).
Proof.
  intros Hok Hc Hf Hb Hn. destruct (address_nonce_encoded fuel old b nonce tc Hok Hc Hf Hb Hn) as (tc' & E & _).
  exists tc'. unfold Keys.CreateAddress. rewrite E. cbn [rbind].
  set (p := rlp_list _). assert (bytes_ok p) as Hp.
  { assert (p = RlpCanon.rlp_item (RlpCanon.Lst [RlpCanon.Str b; RlpCanon.Str (Big.Bytes nonce)])) as Ep
      by (unfold p; simpl; by rewrite app_nil_r).
    pose proof (address_nonce_short b nonce Hb Hn) as Hs. fold p in Hs. rewrite Ep in Hs |- *.
    apply RlpCanon.rlp_item_bytes; [|unfold two63, two64 in *; lia]. simpl. split; [apply Hb|]. split; [apply Big.Bytes_ok|done]. }
  unfold Keys.Keccak256. rewrite write_each_all.
  pose proof (summed X 136 32 0x01 [p] ltac:(in_rates) ltac:(lia) ltac:(unfold byte_ok; lia) ltac:(by repeat constructor)) as Hh.
  cbn [concat] in Hh. rewrite app_nil_r in Hh. change (Z.to_nat 32) with 32%nat in Hh.
  change (new_state (Z.of_nat 136) 32 1) with NewKeccak256 in Hh. rewrite Hh. cbn [rbind].
  change 12 with (Z.of_nat 12). rewrite slice_drop by (rewrite sponge_hash_length; lia). reflexivity.
Qed.

End Address.

(** The first contract of the account 0x0...0. *)
Lemma CreateAddress_correct_witness : exists tc',
  Keys.CreateAddress (H := generic) {[ "common.Address"%string := Keys.AddressDecl ]} RlpLaws.no_encoders 2 3
    RlpEncode.empty_encbuf RlpTypes.empty_cache (zeros 20) 0 =
  Ok (tc', drop 12 (sponge_hash keccak_f 136 0x01 32 (RlpSpec.rlp_list (RlpSpec.rlp_string (zeros 20) ++ RlpSpec.rlp_uint 0)))).
Proof.
  pose proof RlpLaws.no_encoders_law.
  apply (CreateAddress_correct {[ "common.Address"%string := Keys.AddressDecl ]} 2 ltac:(lia) eq_refl
    RlpLaws.no_encoders (fun _ _ => Panic) generic 3 RlpEncode.empty_encbuf (zeros 20) 0 RlpTypes.empty_cache
    (RlpCache.cache_ok_empty _) RlpLaws.complete_empty ltac:(lia)).
  - split; [reflexivity|apply bytes_ok_zeros].
  - unfold is_u64, two64. lia.
Defined.

(** ** The virtual machine with these functions *)

Definition address_of (a : Address) (nonce : Z) : Address :=
  drop 12 (sponge_hash keccak_f 136 0x01 32 (RlpSpec.rlp_list (RlpSpec.rlp_string a ++ RlpSpec.rlp_uint nonce))).

Definition with_keccak (cr : Vm.Crypto) : Vm.Crypto :=
  Vm.mkCrypto (sponge_hash keccak_f 136 0x01 32) address_of (Vm.Ecrecover cr) (Vm.sha256_Sum256 cr)
    (Vm.ripemd160_Sum cr) (Vm.G1 cr) (Vm.G2 cr) (Vm.bn256_P cr) (Vm.G1_Unmarshal cr) (Vm.G1_CurvePoints cr)
    (Vm.G1_Add cr) (Vm.G1_ScalarMult cr) (Vm.G1_Marshal cr) (Vm.G2_Unmarshal cr) (Vm.G2_CurvePoints cr)
    (Vm.PairingCheck cr).

(** The two functions satisfy what the theorems on the machine assume of them. *)
Lemma with_keccak_ok cr : Spec.crypto_ok cr -> Spec.crypto_ok (with_keccak cr).
Proof.
  intros H. split; cbn [Vm.Keccak256 Vm.CreateAddress with_keccak]; try apply H.
  - intros d. split; [apply sponge_hash_ok|]. unfold len. by rewrite sponge_hash_length.
  - intros a n. unfold address_of. split; [by rewrite length_drop, sponge_hash_length|].
    apply bytes_ok_drop, sponge_hash_ok.
Qed.

(** ** Private keys *)

Lemma Bytes2Hex_digits d : bytes_ok d -> len (Bytes2Hex d) = 2 * len d /\
  forallb (fun c => match fromHexChar c with Some _ => true | None => false end) (Bytes2Hex d) = true.
Proof.
  induction 1 as [|b d Hb _ [IH1 IH2]]; [done|].
  change (Bytes2Hex (b :: d)) with (hexDigit (b / 16) :: hexDigit (b mod 16) :: Bytes2Hex d).
  rewrite !len_cons. split; [lia|]. cbn [forallb]. unfold byte_ok in Hb.
  rewrite !fromHexChar_hexDigit, IH2; [done|apply Z.mod_pos_bound; lia|].
  split; [apply Z.div_pos; lia|apply Z.div_lt_upper_bound; lia].
Qed.

Section PrivateKeys.
Import Keys.
Context (ScalarBaseMult : bytes -> option (Z * Z)).

(** [ToECDSA] accepts exactly the 32-byte big-endian encodings of the
    integers from 1 to N - 1; exporting an accepted key gives the bytes back,
    importing the export gives the key back, and importing the hexadecimal form
    is the same. *)
Theorem private_key_roundtrip (d : bytes) :
  (forall b, len b = 32 -> 0 < Big.SetBytes b < Precompiles.secp256k1_N -> ScalarBaseMult b <> None) -> bytes_ok d ->
  ((exists k, ToECDSA ScalarBaseMult d = inr k) <->
     len d = 32 /\ 0 < Big.SetBytes d < Precompiles.secp256k1_N) /\
  (forall k, ToECDSA ScalarBaseMult d = inr k ->
     D k = Big.SetBytes d /\ FromECDSA (Some k) = d /\
     ToECDSA ScalarBaseMult (FromECDSA (Some k)) = inr k /\
     HexToECDSA ScalarBaseMult (Bytes2Hex d) = inr k).
Proof.
  intros Hmult Hd.
  assert (forall k, ToECDSA ScalarBaseMult d = inr k ->
    len d = 32 /\ 0 < Big.SetBytes d < Precompiles.secp256k1_N /\ D k = Big.SetBytes d) as Hinv.
  { intros k Hk. unfold ToECDSA, toECDSA, BitSize in Hk. cbn [andb] in Hk.
    destruct (Z.eqb_spec (8 * len d) 256); [|done]. cbn [negb] in Hk.
    destruct (Z.leb_spec Precompiles.secp256k1_N (Big.SetBytes d)); [done|].
    destruct (Z.leb_spec (Big.SetBytes d) 0); [done|].
    destruct (ScalarBaseMult d) as [[x y]|]; [|done]. injection Hk as <-. cbn [D]. split; [lia|]. split; [lia|done]. }
  split; [split|].
  - intros [k Hk]. destruct (Hinv k Hk) as (? & ? & _). done.
  - intros [Hl Hr]. unfold ToECDSA, toECDSA, BitSize. rewrite Hl. cbn [andb Z.mul Pos.mul Z.eqb negb Pos.eqb].
    rewrite (proj2 (Z.leb_gt Precompiles.secp256k1_N _)), (proj2 (Z.leb_gt _ 0)) by lia.
    specialize (Hmult d Hl Hr). destruct (ScalarBaseMult d) as [[x y]|]; [by eexists|done].
  - intros k Hk. destruct (Hinv k Hk) as (Hl & Hr & HD). split; [done|].
    assert (FromECDSA (Some k) = d) as Hfrom.
    { unfold FromECDSA. rewrite HD, Big.PaddedBigBytes_spec; [|done|].
      - rewrite Z.abs_eq by lia. change (Z.to_nat (BitSize / 8)) with 32%nat.
        replace 32%nat with (length d) by (unfold len in Hl; lia). by apply Big.be_SetBytes.
      - rewrite Z.abs_eq by lia. destruct (Big.SetBytes_bound d Hd) as [_ H]. rewrite Hl in H. exact H. }
    split; [done|]. rewrite Hfrom. split; [done|].
    unfold HexToECDSA. rewrite Hex2Bytes_Bytes2Hex by done. rewrite Hk. replace (_ || _) with false; [done|].
    symmetry. destruct (Bytes2Hex_digits d Hd) as [-> ->]. rewrite Z.mul_comm, Z_mod_mult. done.
Qed.
End PrivateKeys.

(** With the curve stubbed by the point (1, 2). *)
Lemma private_key_roundtrip_witness :
  Keys.HexToECDSA (fun _ => Some (1, 2)) (Bytes2Hex (replicate 31 0 ++ [7])) = inr (Keys.mkPrivateKey 7 1 2).
Proof.
  assert (bytes_ok (replicate 31 0 ++ [7])) as Hb by (repeat constructor; unfold byte_ok; lia).
  destruct (private_key_roundtrip (fun _ => Some (1, 2)) (replicate 31 0 ++ [7]) ltac:(intros; discriminate) Hb) as [_ H].
  destruct (H (Keys.mkPrivateKey 7 1 2)) as (_ & _ & _ & Hx); [vm_compute; reflexivity|exact Hx].
Defined.

End KeccakLaws.
