(* ===== verification/HexText.v ===== *)
(** * Numbers, bytes and addresses as text

    Module [Hexutil] translates [src/common/hexutil] (both files), [MathText]
    the textual parts of [src/common/math], and [TypesText] those of
    [src/common/types.go], with what they use of [encoding/hex], [strconv],
    [math/big] and [fmt].  Text is a list of bytes.

    The quantities are decoded exactly from their canonical text, in either
    letter case ([quantity_exact]); hashes and addresses survive their text, and
    the checksummed form of an address is its plain form in other letter case
    ([text_roundtrip]). *)

From Stdlib Require Import Lia.
From stdpp Require Import base numbers list.
From S2P Require Import Prelude BigInt Types Keccak KeccakSpec KeccakSponge KeccakLaws.
Import Big Common.

#[local] Open Scope Z_scope.
#[local] Open Scope go_scope.

Module Hexutil.

(** ** The standard library *)

Inductive stdErr := InvalidByteError | hex_ErrLength | strconv_ErrRange | strconv_ErrSyntax.

(** [hex.Decode]: the bytes before the first malformed pair, and the error. *)
Fixpoint hex_Decode (src : bytes) : bytes * option stdErr :=
  match src with
  | [] => ([], None)
  | [c] => ([], Some match fromHexChar c with Some _ => hex_ErrLength | None => InvalidByteError end)
  | c0 :: c1 :: rest =>
      match fromHexChar c0, fromHexChar c1 with
      | Some a, Some b => let '(l, e) := hex_Decode rest in (a * 16 + b :: l, e)
      | _, _ => ([], Some InvalidByteError)
      end
  end.

(** The value of a digit or a letter, for [strconv.ParseUint]. *)
Definition digit_value (c : Z) : option Z :=
  if (48 <=? c) && (c <=? 57) then Some (c - 48)
  else if (97 <=? c) && (c <=? 122) then Some (c - 87)
  else if (65 <=? c) && (c <=? 90) then Some (c - 55)
  else None.

Fixpoint ParseUint_loop (base n : Z) (s : bytes) : Z * option stdErr :=
  match s with
  | [] => (n, None)
  | c :: s =>
      match digit_value c with
      | None => (0, Some strconv_ErrSyntax)
      | Some d =>
          if base <=? d then (0, Some strconv_ErrSyntax)
          else if MaxUint64 / base + 1 <=? n then (MaxUint64, Some strconv_ErrRange)
          else
            let n := u64 (n * base) in
            let n1 := u64 (n + d) in
            if n1 <? n then (MaxUint64, Some strconv_ErrRange) else ParseUint_loop base n1 s
      end
  end.

(** [strconv.ParseUint(s, base, 64)], for a base that is not 0. *)
Definition ParseUint (s : bytes) (base : Z) : Z * option stdErr :=
  match s with [] => (0, Some strconv_ErrSyntax) | _ => ParseUint_loop base 0 s end.

(** The hexadecimal digits of a number that is not negative, "0" for zero. *)
Fixpoint nibbles (n : nat) (x : Z) (acc : bytes) : bytes :=
  match n with O => acc | S n => nibbles n (x / 16) (x mod 16 :: acc) end.
Definition hex_digits (x : Z) : bytes := hexDigit <$> nibbles (Z.to_nat (Z.max 1 ((BitLen x + 3) / 4))) x [].

(** [fmt.Sprintf] of an integer with the verb [%#x]. *)
Definition Sprintf_x (x : Z) : bytes := (if x <? 0 then [45] else []) ++ [48; 120] ++ hex_digits (Z.abs x).

(** ** [hexutil.go] *)

Inductive hexErr :=
| ErrEmptyString | ErrSyntax | ErrMissingPrefix | ErrOddLength | ErrEmptyNumber | ErrLeadingZero
| ErrUint64Range | ErrUintRange | ErrBig256Range
| wrongLength (have want : Z)
| nonString                                   (* json.UnmarshalTypeError *)
| typeError (value : hexErr).

Definition mapError (e : stdErr) : hexErr :=
  match e with
  | strconv_ErrRange => ErrUint64Range
  | strconv_ErrSyntax => ErrSyntax
  | InvalidByteError => ErrSyntax
  | hex_ErrLength => ErrOddLength
  end.

Definition has0xPrefix (input : bytes) : bool :=
  match input with c0 :: c1 :: _ => (c0 =? 48) && ((c1 =? 120) || (c1 =? 88)) | _ => false end.

Definition Decode (input : bytes) : bytes * option hexErr :=
  if len input =? 0 then ([], Some ErrEmptyString)
  else if negb (has0xPrefix input) then ([], Some ErrMissingPrefix)
  else let '(b, e) := hex_Decode (drop 2 input) in (b, mapError <$> e).

Definition MustDecode (input : bytes) : result bytes :=
  match Decode input with (b, None) => Ok b | _ => Panic end.

Definition Encode (b : bytes) : bytes := [48; 120] ++ Bytes2Hex b.

Definition checkNumber (input : bytes) : hexErr + bytes :=
  if len input =? 0 then inl ErrEmptyString
  else if negb (has0xPrefix input) then inl ErrMissingPrefix
  else
    match drop 2 input with
    | [] => inl ErrEmptyNumber
    | c :: rest => if (0 <? len rest) && (c =? 48) then inl ErrLeadingZero else inr (c :: rest)
    end.

Definition DecodeUint64 (input : bytes) : Z * option hexErr :=
  match checkNumber input with
  | inl e => (0, Some e)
  | inr raw => let '(dec, e) := ParseUint raw 16 in (dec, mapError <$> e)
  end.

Definition MustDecodeUint64 (input : bytes) : result Z :=
  match DecodeUint64 input with (dec, None) => Ok dec | _ => Panic end.

(** [strconv.AppendUint]. *)
Definition EncodeUint64 (i : Z) : bytes := [48; 120] ++ hex_digits i.

(** A [big.Word] has 64 bits. *)
Definition bigWordNibbles : nat := 16.

Definition badNibble : Z := MaxUint64.

Definition decodeNibble (c : Z) : Z :=
  if (48 <=? c) && (c <=? 57) then c - 48
  else if (65 <=? c) && (c <=? 70) then c - 65 + 10
  else if (97 <=? c) && (c <=? 102) then c - 97 + 10
  else badNibble.

(** One word, from its characters. *)
Fixpoint decode_word (w : Z) (raw : bytes) : hexErr + Z :=
  match raw with
  | [] => inr w
  | c :: raw =>
      let nib := decodeNibble c in
      if nib =? badNibble then inl ErrSyntax else decode_word (u64 (u64 (w * 16) + nib)) raw
  end.

(** [n] words, the least significant first, from the characters before [end_]. *)
Fixpoint decode_words (n end_ : nat) (raw : bytes) : hexErr + list Z :=
  match n with
  | O => inr []
  | S n =>
      let start := (end_ - bigWordNibbles)%nat in
      match decode_word 0 (drop start (take end_ raw)) with
      | inl e => inl e
      | inr w => match decode_words n start raw with inl e => inl e | inr ws => inr (w :: ws) end
      end
  end.

(** [SetBits]. *)
Definition decode_raw (raw : bytes) : hexErr + Z :=
  if 64 <? len raw then inl ErrBig256Range
  else
    match decode_words (length raw / bigWordNibbles + 1) (length raw) raw with
    | inl e => inl e
    | inr ws => inr (le_value ws)
    end.

Definition DecodeBig (input : bytes) : hexErr + Z :=
  match checkNumber input with inl e => inl e | inr raw => decode_raw raw end.

Definition MustDecodeBig (input : bytes) : result Z := match DecodeBig input with inr x => Ok x | inl _ => Panic end.

Definition EncodeBig (bigint : Z) : bytes := if BitLen bigint =? 0 then [48; 120; 48] else Sprintf_x bigint.

(** ** [json.go] *)

Definition isString (input : bytes) : bool :=
  (2 <=? len input) && bool_decide (head input = Some 34) && bool_decide (last input = Some 34).

Definition wrapTypeError {A} (r : hexErr + A) : hexErr + A :=
  match r with
  | inl (wrongLength a b) => inl (wrongLength a b)     (* not a [*decError] *)
  | inl e => inl (typeError e)
  | inr a => inr a
  end.

(** The text between the quotes of a JSON string. *)
Definition unmarshal_json {A} (unmarshal : bytes -> hexErr + A) (input : bytes) : hexErr + A :=
  if negb (isString input) then inl nonString
  else wrapTypeError (unmarshal (drop 1 (take (length input - 1) input))).

Definition checkText (input : bytes) (wantPrefix : bool) : hexErr + bytes :=
  if len input =? 0 then inr []
  else if negb (has0xPrefix input) && wantPrefix then inl ErrMissingPrefix
  else
    let input := if has0xPrefix input then drop 2 input else input in
    if negb (len input mod 2 =? 0) then inl ErrOddLength else inr input.

Definition checkNumberText (input : bytes) : hexErr + bytes :=
  if len input =? 0 then inr []
  else if negb (has0xPrefix input) then inl ErrMissingPrefix
  else
    match drop 2 input with
    | [] => inl ErrEmptyNumber
    | c :: rest => if (0 <? len rest) && (c =? 48) then inl ErrLeadingZero else inr (c :: rest)
    end.

Definition Bytes_MarshalText (b : bytes) : bytes := [48; 120] ++ Bytes2Hex b.

Definition Bytes_UnmarshalText (input : bytes) : hexErr + bytes :=
  match checkText input true with
  | inl e => inl e
  | inr raw => match hex_Decode raw with (_, Some e) => inl (mapError e) | (dec, None) => inr dec end
  end.

Definition Bytes_UnmarshalJSON : bytes -> hexErr + bytes := unmarshal_json Bytes_UnmarshalText.

(** Filling an array of [n] bytes. *)
Definition unmarshal_fixed (n : Z) (checked : hexErr + bytes) : hexErr + bytes :=
  match checked with
  | inl e => inl e
  | inr raw =>
      if negb (len raw / 2 =? n) then inl (wrongLength (len raw) (n * 2))
      else if existsb (fun b => decodeNibble b =? badNibble) raw then inl ErrSyntax
      else inr (fst (hex_Decode raw))
  end.

Definition UnmarshalFixedText (n : Z) (input : bytes) : hexErr + bytes := unmarshal_fixed n (checkText input true).
Definition UnmarshalFixedUnprefixedText (n : Z) (input : bytes) : hexErr + bytes := unmarshal_fixed n (checkText input false).
Definition UnmarshalFixedJSON (n : Z) : bytes -> hexErr + bytes := unmarshal_json (UnmarshalFixedText n).

Definition Big_MarshalText (b : Z) : bytes := EncodeBig b.

Definition Big_UnmarshalText (input : bytes) : hexErr + Z :=
  match checkNumberText input with inl e => inl e | inr raw => decode_raw raw end.

Definition Big_UnmarshalJSON : bytes -> hexErr + Z := unmarshal_json Big_UnmarshalText.

Definition Uint64_MarshalText (b : Z) : bytes := [48; 120] ++ hex_digits b.

Definition Uint64_UnmarshalText (input : bytes) : hexErr + Z :=
  match checkNumberText input with
  | inl e => inl e
  | inr raw => if 16 <? len raw then inl ErrUint64Range else decode_word 0 raw
  end.

Definition Uint64_UnmarshalJSON : bytes -> hexErr + Z := unmarshal_json Uint64_UnmarshalText.

(** [uint] has 64 bits. *)
Definition Uint_UnmarshalText (input : bytes) : hexErr + Z :=
  match Uint64_UnmarshalText input with
  | inl ErrUint64Range => inl ErrUintRange
  | r => r
  end.

Definition Uint_UnmarshalJSON : bytes -> hexErr + Z := unmarshal_json Uint_UnmarshalText.

End Hexutil.

Module MathText.
Import Hexutil.

(** [big.Int.Exp] gives 1 for an exponent that is not positive. *)
Definition BigPow (a b : Z) : Z := if b <=? 0 then 1 else a ^ b.

(** [big.Int.SetString]: an optional sign, then at least one digit. *)
Fixpoint scan (base x : Z) (s : bytes) : option Z :=
  match s with
  | [] => Some x
  | c :: s =>
      match digit_value c with
      | Some d => if base <=? d then None else scan base (x * base + d) s
      | None => None
      end
  end.

Definition SetString (s : bytes) (base : Z) : option Z :=
  let '(neg, s) :=
    match s with
    | c :: t => if c =? 45 then (true, t) else if c =? 43 then (false, t) else (false, s)
    | [] => (false, s)
    end in
  match s with
  | [] => None
  | _ => (fun x => if neg : bool then - x else x) <$> scan base 0 s
  end.

Definition ParseBig256 (s : bytes) : option Z :=
  match s with
  | [] => Some 0
  | _ =>
      let r := if has0xPrefix s then SetString (drop 2 s) 16 else SetString s 10 in
      match r with
      | Some x => if 256 <? BitLen x then None else Some x
      | None => None
      end
  end.

Definition MustParseBig256 (s : bytes) : result Z := match ParseBig256 s with Some x => Ok x | None => Panic end.

(** [None] is a nil pointer. *)
Definition HexOrDecimal256_MarshalText (i : option Z) : bytes :=
  match i with None => [48; 120; 48] | Some x => Sprintf_x x end.

Definition HexOrDecimal256_UnmarshalText (input : bytes) : option Z := ParseBig256 input.

Definition ParseUint64 (s : bytes) : option Z :=
  match s with
  | [] => Some 0
  | _ =>
      match (if has0xPrefix s then ParseUint (drop 2 s) 16 else ParseUint s 10) with
      | (v, None) => Some v
      | _ => None
      end
  end.

Definition MustParseUint64 (s : bytes) : result Z := match ParseUint64 s with Some x => Ok x | None => Panic end.

Definition HexOrDecimal64_MarshalText (i : Z) : bytes := Sprintf_x i.

Definition HexOrDecimal64_UnmarshalText (input : bytes) : option Z := ParseUint64 input.

End MathText.

Module TypesText.
Import Hexutil.

Definition HexToHash (s : bytes) : Hash := BytesToHash (FromHex s).
Definition Hash_Hex (h : Hash) : bytes := Encode h.

Definition Hash_UnmarshalText : bytes -> hexErr + Hash := UnmarshalFixedText 32.
Definition Hash_UnmarshalJSON : bytes -> hexErr + Hash := UnmarshalFixedJSON 32.
Definition Hash_MarshalText (h : Hash) : bytes := Bytes_MarshalText h.

Definition UnprefixedHash_UnmarshalText : bytes -> hexErr + Hash := UnmarshalFixedUnprefixedText 32.
Definition UnprefixedHash_MarshalText (h : Hash) : bytes := Bytes2Hex h.

Definition Address_Hash (a : Address) : Hash := BytesToHash a.

(** The character [i] of the checksummed text. *)
Definition checksum_char (hash : bytes) (i : nat) (c : Z) : Z :=
  let hashByte := default 0 (hash !! (i / 2)%nat) in
  let hashByte := if (i mod 2 =? 0)%nat then Z.shiftr hashByte 4 else Z.land hashByte 15 in
  if (57 <? c) && (7 <? hashByte) then c - 32 else c.

Definition Address_Hex `{Keccak.Impl} (a : Address) : result bytes :=
  let unchecksummed := Bytes2Hex a in
  let? (sha, _) := Keccak.Write Keccak.NewKeccak256 unchecksummed in
  let? hash := Keccak.Sum sha [] in
  Ok ([48; 120] ++ imap (checksum_char hash) unchecksummed).

Definition Address_MarshalText (a : Address) : bytes := Bytes_MarshalText a.
Definition Address_UnmarshalText : bytes -> hexErr + Address := UnmarshalFixedText 20.
Definition Address_UnmarshalJSON : bytes -> hexErr + Address := UnmarshalFixedJSON 20.

Definition UnprefixedAddress_UnmarshalText : bytes -> hexErr + Address := UnmarshalFixedUnprefixedText 20.
Definition UnprefixedAddress_MarshalText (a : Address) : bytes := Bytes2Hex a.

(** A negative length slices past the end. *)
Definition Hex2BytesFixed (str : bytes) (flen : Z) : result bytes :=
  let h := Hex2Bytes str in
  if len h =? flen then Ok h
  else if flen <? len h then slice h (len h - flen) (len h)
  else Ok (zeros (flen - len h) ++ h).

End TypesText.

Module HexLaws.
Import Hexutil.

(** ** Digits *)

Definition lower (c : Z) : Z := if (65 <=? c) && (c <=? 90) then c + 32 else c.

Definition valid (raw : bytes) : bool := forallb (fun c => negb (decodeNibble c =? badNibble)) raw.

(** The number that nibbles denote. *)
Definition nv (ns : list Z) : Z := fold_left (fun a n => a * 16 + n) ns 0.

Definition nib (n : Z) : Prop := 0 <= n < 16.

#[local] Ltac bools := repeat match goal with
  | |- context [if ?b then _ else _] => let E := fresh in destruct b eqn:E
  | H : context [if ?b then _ else _] |- _ => let E := fresh in destruct b eqn:E
  end; rewrite ?andb_true_iff, ?andb_false_iff, ?Z.leb_le, ?Z.leb_gt, ?Z.ltb_lt, ?Z.ltb_ge, ?Z.eqb_eq, ?Z.eqb_neq in *.

Lemma decodeNibble_char c : decodeNibble c <> badNibble -> nib (decodeNibble c) /\ hexDigit (decodeNibble c) = lower c.
Proof. unfold decodeNibble, nib, hexDigit, lower, badNibble, MaxUint64, two64. bools; intros; try lia. Qed.

Lemma decodeNibble_digit c v : nib v -> lower c = hexDigit v -> decodeNibble c = v.
Proof. unfold decodeNibble, nib, hexDigit, lower, badNibble, MaxUint64, two64. bools; intros; try lia. Qed.

Lemma nib_good v : nib v -> v <> badNibble.
Proof. unfold nib, badNibble, MaxUint64, two64. lia. Qed.

Lemma digit_value_nibble c : decodeNibble c = match digit_value c with Some d => if 16 <=? d then badNibble else d | None => badNibble end.
Proof. unfold decodeNibble, digit_value. bools; try lia. Qed.

Lemma fromHexChar_nibble c : fromHexChar c = if decodeNibble c =? badNibble then None else Some (decodeNibble c).
Proof. unfold decodeNibble, fromHexChar, badNibble, MaxUint64, two64. bools; try (f_equal; lia); try lia; done. Qed.

Lemma fromHexChar_lower c : fromHexChar (lower c) = fromHexChar c.
Proof. unfold fromHexChar, lower. bools; try (f_equal; lia); try lia; done. Qed.

(** ** Numbers *)

Lemma nv_fold ns a : fold_left (fun a n => a * 16 + n) ns a = a * 16 ^ len ns + nv ns.
Proof.
  unfold nv. revert a. induction ns as [|n ns IH]; intros a; [change (len (@nil Z)) with 0; simpl; lia|]. cbn [fold_left].
  rewrite IH, (IH (0 * 16 + n)), len_cons, Z.pow_add_r by (pose proof (len_nonneg ns); lia). lia.
Qed.

Lemma nv_app a b : nv (a ++ b) = nv a * 16 ^ len b + nv b.
Proof. unfold nv at 1. rewrite fold_left_app. fold (nv a). apply nv_fold. Qed.

Lemma nv_cons n ns : nv (n :: ns) = n * 16 ^ len ns + nv ns.
Proof. unfold nv at 1. cbn [fold_left]. rewrite nv_fold. lia. Qed.

Lemma nv_bound ns : Forall nib ns -> 0 <= nv ns < 16 ^ len ns.
Proof.
  induction 1 as [|n ns Hn _ IH]; [done|]. rewrite nv_cons, len_cons, Z.pow_add_r by (pose proof (len_nonneg ns); lia).
  unfold nib in Hn. nia.
Qed.

Lemma nibbles_acc n x acc : nibbles n x acc = nibbles n x [] ++ acc.
Proof.
  revert x acc. induction n as [|n IH]; intros x acc; [done|]. cbn [nibbles]. rewrite IH, (IH _ [_]). by rewrite <-app_assoc.
Qed.

Lemma nibbles_S n x : nibbles (S n) x [] = nibbles n (x / 16) [] ++ [x mod 16].
Proof. cbn [nibbles]. apply nibbles_acc. Qed.

Lemma nibbles_length n x : length (nibbles n x []) = n.
Proof. revert x. induction n as [|n IH]; intros x; [done|]. rewrite nibbles_S, length_app, IH. simpl. lia. Qed.

Lemma nibbles_nib n x : Forall nib (nibbles n x []).
Proof.
  revert x. induction n as [|n IH]; intros x; [constructor|]. rewrite nibbles_S. apply Forall_app. split; [done|]. apply Forall_singleton.
  unfold nib. apply Z.mod_pos_bound. lia.
Qed.

Lemma nibbles_nv ns : Forall nib ns -> nibbles (length ns) (nv ns) [] = ns.
Proof.
  induction ns as [|n ns IH] using rev_ind; [done|]. intros [Hs Hn]%Forall_app. apply Forall_cons in Hn as [Hn _]. rewrite length_app, Nat.add_comm. cbn [length Nat.add].
  rewrite nibbles_S, nv_app. change (16 ^ len [n]) with 16. change (nv [n]) with n. unfold nib in Hn. rewrite Z.div_add_l, Z.div_small by lia.
  rewrite (Z.add_comm (_ * 16)), Z.mod_add, Z.mod_small, Z.add_0_r by lia. by rewrite IH.
Qed.

Lemma nv_nibbles n x : 0 <= x < 16 ^ Z.of_nat n -> nv (nibbles n x []) = x.
Proof.
  revert x. induction n as [|n IH]; intros x Hx; [change (16 ^ Z.of_nat 0) with 1 in Hx; change (nv (nibbles 0 x [])) with 0; lia|]. rewrite nibbles_S, nv_app.
  rewrite Nat2Z.inj_succ, Z.pow_succ_r in Hx by lia. rewrite IH; [|split; [apply Z.div_pos; lia|apply Z.div_lt_upper_bound; lia]].
  change (16 ^ len [x mod 16]) with 16. change (nv [x mod 16]) with (x mod 16). pose proof (Z.div_mod x 16). lia.
Qed.

(** How many digits a number has. *)
Definition digits (x : Z) : nat := Z.to_nat (Z.max 1 ((BitLen x + 3) / 4)).

Lemma digits_spec x n : 0 <= x -> (1 <= n)%nat -> (digits x <= n)%nat <-> x < 16 ^ Z.of_nat n.
Proof.
  intros Hx Hn. unfold digits. replace (16 ^ Z.of_nat n) with (2 ^ (4 * Z.of_nat n)) by (rewrite Z.pow_mul_r by lia; done).
  rewrite <-(Z.abs_eq x) at 2 by done. rewrite <-BitLen_spec by lia. pose proof (BitLen_nonneg x).
  pose proof (Z.div_mod (BitLen x + 3) 4 ltac:(lia)). pose proof (Z.mod_pos_bound (BitLen x + 3) 4 ltac:(lia)). lia.
Qed.

Lemma digits_pos x : (1 <= digits x)%nat.
Proof. unfold digits. lia. Qed.

(** Digits without a leading zero. *)
Definition canonical (ns : list Z) : Prop := Forall nib ns /\ match ns with [] => False | [_] => True | n :: _ => n <> 0 end.

Lemma canonical_digits ns : canonical ns -> digits (nv ns) = length ns.
Proof.
  intros [Hn Hc]. pose proof (nv_bound ns Hn) as Hb. assert (Hl : (1 <= length ns)%nat) by (destruct ns; [done|simpl; lia]).
  assert (digits (nv ns) <= length ns)%nat by (apply digits_spec; [lia|done|apply Hb]).
  destruct (decide (length ns = 1%nat)) as [E|E]; [pose proof (digits_pos (nv ns)); lia|].
  assert (~ (digits (nv ns) <= length ns - 1)%nat); [|lia]. rewrite digits_spec by lia.
  destruct ns as [|n [|m ns]]; [done|done|]. cbn [length]. replace (S (S (length ns)) - 1)%nat with (length (m :: ns)) by (simpl; lia).
  apply Forall_cons in Hn as [Hn Hr]. rewrite nv_cons. pose proof (nv_bound _ Hr). unfold nib in Hn. fold (len (m :: ns)). nia.
Qed.

Lemma hex_digits_nv ns : canonical ns -> hex_digits (nv ns) = hexDigit <$> ns.
Proof. intros Hc. unfold hex_digits. fold (digits (nv ns)). rewrite canonical_digits by done. by rewrite nibbles_nv by apply Hc. Qed.

Lemma hex_digits_canonical x : 0 <= x -> exists ns, canonical ns /\ nv ns = x /\ hex_digits x = hexDigit <$> ns /\ length ns = digits x.
Proof.
  intros Hx. exists (nibbles (digits x) x []). assert (Hlt : x < 16 ^ Z.of_nat (digits x)) by (apply digits_spec; [done|apply digits_pos|done]).
  split; [|split; [by apply nv_nibbles|]; split; [done|apply nibbles_length]]. split; [apply nibbles_nib|].
  pose proof (nibbles_length (digits x) x) as Hl. pose proof (nibbles_nib (digits x) x) as Hn. pose proof (digits_pos x).
  pose proof (nv_nibbles (digits x) x ltac:(lia)) as Ev. destruct (nibbles (digits x) x []) as [|n [|m ns]]; [simpl in Hl; lia|done|].
  intros ->. rewrite nv_cons in Ev. apply Forall_cons in Hn as [_ Hn]. pose proof (nv_bound _ Hn) as Hb.
  assert (digits x <= length (m :: ns))%nat; [|simpl in *; lia]. apply digits_spec; [lia|simpl; lia|]. unfold len in Hb. lia.
Qed.

(** ** Decoding *)

Definition nibs (raw : bytes) : list Z := decodeNibble <$> raw.

Lemma valid_cons c raw : valid (c :: raw) = negb (decodeNibble c =? badNibble) && valid raw.
Proof. done. Qed.

Lemma valid_nibs raw : valid raw = true -> Forall nib (nibs raw) /\ hexDigit <$> nibs raw = lower <$> raw.
Proof.
  induction raw as [|c raw IH]; [done|]. rewrite valid_cons, andb_true_iff, negb_true_iff, Z.eqb_neq. intros [Hc Hr].
  destruct (IH Hr) as [H1 H2]. destruct (decodeNibble_char c Hc) as [H3 H4]. unfold nibs in *. rewrite !fmap_cons, H2, H4. split; [by constructor|done].
Qed.

Lemma digits_valid raw ns : Forall nib ns -> lower <$> raw = hexDigit <$> ns -> valid raw = true /\ nibs raw = ns.
Proof.
  intros Hn. revert raw. induction Hn as [|n ns Hn _ IH]; intros [|c raw]; try done. rewrite !fmap_cons. intros [= Ec Er].
  pose proof (decodeNibble_digit c n Hn Ec) as E. destruct (IH raw Er) as [H1 H2]. unfold nibs in *. rewrite fmap_cons, E, H2, valid_cons, H1, E.
  split; [|done]. rewrite andb_true_r, negb_true_iff, Z.eqb_neq. by apply nib_good.
Qed.

Lemma len_nibs raw : len (nibs raw) = len raw.
Proof. unfold len, nibs. by rewrite length_fmap. Qed.

Lemma decode_word_spec raw : forall w, 0 <= w -> (w + 1) * 16 ^ len raw <= two64 ->
  match decode_word w raw with
  | inr x => valid raw = true /\ x = w * 16 ^ len raw + nv (nibs raw)
  | inl _ => valid raw = false
  end.
Proof.
  induction raw as [|c raw IH]; intros w Hw Hb; [split; [done|]; change (len (@nil Z)) with 0; change (nv (nibs [])) with 0; lia|].
  cbn [decode_word]. cbv zeta. rewrite valid_cons. destruct (Z.eqb_spec (decodeNibble c) badNibble) as [E|E]; [done|]. simpl negb. rewrite andb_true_l.
  destruct (decodeNibble_char c E) as [Hn _]. unfold nib in Hn. rewrite len_cons, Z.pow_add_r in Hb by (pose proof (len_nonneg raw); lia).
  pose proof (Z.pow_pos_nonneg 16 (len raw) ltac:(lia) (len_nonneg raw)). change (16 ^ 1) with 16 in Hb.
  rewrite (u64_id (w * 16)), u64_id by (unfold is_u64; nia). specialize (IH (w * 16 + decodeNibble c) ltac:(lia) ltac:(nia)).
  destruct (decode_word _ raw); [done|]. destruct IH as [Hv ->]. split; [done|]. unfold nibs. rewrite fmap_cons, nv_cons, len_cons, Z.pow_add_r by (pose proof (len_nonneg raw); lia).
  fold (nibs raw). rewrite len_nibs. lia.
Qed.

Lemma valid_app a b : valid (a ++ b) = valid a && valid b.
Proof. apply forallb_app. Qed.

Lemma decode_words_spec raw n : forall e, (e <= 16 * n)%nat -> (e <= length raw)%nat ->
  match decode_words n e raw with
  | inr ws => valid (take e raw) = true /\ le_value ws = nv (nibs (take e raw))
  | inl _ => valid (take e raw) = false
  end.
Proof.
  induction n as [|n IH]; intros e He Hl; [replace e with 0%nat by lia; done|]. cbn [decode_words]. cbv zeta. unfold bigWordNibbles. set (st := (e - 16)%nat).
  assert (Esplit : take e raw = take st raw ++ drop st (take e raw)).
  { rewrite <-(take_drop st (take e raw)) at 1. f_equal. rewrite take_take. f_equal. lia. }
  set (chunk := drop st (take e raw)) in *. assert (Hc : length chunk = (e - st)%nat) by (unfold chunk; rewrite length_drop, length_take; lia).
  assert (Hcl : len chunk <= 16) by (unfold len; lia).
  assert (Hp : 16 ^ len chunk <= two64) by (change two64 with (16 ^ 16); apply Z.pow_le_mono_r; lia).
  pose proof (decode_word_spec chunk 0 ltac:(lia) ltac:(lia)) as Hw. rewrite Esplit, valid_app.
  destruct (decode_word 0 chunk) as [err|w]; [by rewrite Hw, andb_false_r|]. destruct Hw as [Hv ->]. rewrite Hv, andb_true_r.
  specialize (IH st ltac:(lia) ltac:(lia)). destruct (decode_words n st raw) as [err|ws]; [done|]. destruct IH as [Hv' E]. split; [done|].
  cbn [le_value]. rewrite E. unfold nibs. rewrite fmap_app, nv_app. fold (nibs chunk) (nibs (take st raw)). rewrite len_nibs.
  destruct (decide (st = 0%nat)) as [->|Hst]; [change (nv (nibs (take 0 raw))) with 0; lia|].
  assert (len chunk = 16) as -> by (unfold len; lia). change (16 ^ 16) with two64. lia.
Qed.

Lemma decode_raw_spec raw : match decode_raw raw with
  | inr x => valid raw = true /\ x = nv (nibs raw) /\ len raw <= 64
  | inl _ => valid raw = false \/ 64 < len raw
  end.
Proof.
  unfold decode_raw. destruct (Z.ltb_spec 64 (len raw)); [by right|]. unfold bigWordNibbles.
  pose proof (decode_words_spec raw (length raw / 16 + 1) (length raw)) as Hw. rewrite take_ge in Hw by lia.
  pose proof (Nat.div_mod_eq (length raw) 16). pose proof (Nat.mod_upper_bound (length raw) 16 ltac:(lia)). specialize (Hw ltac:(lia) ltac:(lia)).
  destruct (decode_words _ _ _); [by left|]. destruct Hw. done.
Qed.

Lemma ParseUint_loop_spec s : forall n, is_u64 n ->
  match ParseUint_loop 16 n s with
  | (v, None) => valid s = true /\ v = n * 16 ^ len s + nv (nibs s) /\ v < two64
  | (_, Some _) => valid s = false \/ two64 <= n * 16 ^ len s + nv (nibs s)
  end.
Proof.
  induction s as [|c s IH]; intros n Hn; [unfold is_u64 in Hn; split; [done|]; change (len (@nil Z)) with 0; change (nv (nibs [])) with 0; lia|].
  cbn [ParseUint_loop]. rewrite valid_cons. pose proof (digit_value_nibble c) as Ed.
  destruct (digit_value c) as [d|]; [|left; by rewrite Ed, Z.eqb_refl]. destruct (Z.leb_spec 16 d) as [H16|H16]; [left; by rewrite Ed, Z.eqb_refl|].
  assert (Hd : nib d). { assert (decodeNibble c <> badNibble) as Hne by (rewrite Ed; unfold badNibble, MaxUint64, two64; lia). apply decodeNibble_char in Hne as [Hne _]. by rewrite Ed in Hne. }
  rewrite (proj2 (Z.eqb_neq _ _)) by (rewrite Ed; by apply nib_good). simpl negb. rewrite andb_true_l.
  assert (Ev : nv (nibs (c :: s)) = d * 16 ^ len s + nv (nibs s)) by (unfold nibs; rewrite fmap_cons, nv_cons, Ed; fold (nibs s); by rewrite len_nibs).
  assert (El : 16 ^ len (c :: s) = 16 * 16 ^ len s) by (rewrite len_cons, Z.pow_add_r by (pose proof (len_nonneg s); lia); done).
  rewrite Ev, El. pose proof (Z.pow_pos_nonneg 16 (len s) ltac:(lia) (len_nonneg s)) as Hp. change (MaxUint64 / 16 + 1) with (two64 / 16).
  assert (Hge : valid s = false \/ 0 <= nv (nibs s)) by (destruct (valid s) eqn:Hv; [right; apply nv_bound; by apply valid_nibs|by left]).
  unfold is_u64, nib in *. destruct (Z.leb_spec (two64 / 16) n) as [Hc|Hc].
  - destruct Hge as [?|Hge]; [by left|]. right. change (two64 / 16) with (2 ^ 60) in Hc. change two64 with (16 * 2 ^ 60). nia.
  - change (two64 / 16) with (2 ^ 60) in Hc. assert (two64 = 16 * 2 ^ 60) by done. rewrite (u64_id (n * 16)), u64_id by (unfold is_u64; lia).
    destruct (Z.ltb_spec (n * 16 + d) (n * 16)); [lia|]. specialize (IH (n * 16 + d) ltac:(lia)).
    replace (n * (16 * 16 ^ len s) + (d * 16 ^ len s + nv (nibs s))) with ((n * 16 + d) * 16 ^ len s + nv (nibs s)) by lia. exact IH.
Qed.

(** ** Quantities *)

Lemma prefix_lower s t : lower <$> s = [48; 120] ++ t <-> has0xPrefix s = true /\ lower <$> drop 2 s = t.
Proof.
  destruct s as [|a [|b s]]; [split; [done|by intros []]|split; [done|by intros []]|]. rewrite !fmap_cons. simpl. split.
  - intros [= Ea Eb <-]. unfold lower in Ea, Eb. split; [|done]. rewrite andb_true_iff, orb_true_iff, !Z.eqb_eq. bools; lia.
  - intros [H <-]. rewrite andb_true_iff, orb_true_iff, !Z.eqb_eq in H. destruct H as [-> [-> | ->]]; done.
Qed.

(** A number without a leading zero. *)
Definition shaped (raw : bytes) : Prop := match raw with [] => False | [_] => True | c :: _ => c <> 48 end.

Lemma checkNumber_spec s raw : checkNumber s = inr raw <-> has0xPrefix s = true /\ drop 2 s = raw /\ shaped raw.
Proof.
  unfold checkNumber. destruct s as [|a [|b s]]; [split; [done|by intros []]|split; [done|by intros []]|]. change (len (a :: b :: s) =? 0) with false. cbv iota.
  destruct (has0xPrefix (a :: b :: s)); [|split; [done|by intros []]]. change (drop 2 (a :: b :: s)) with s. cbn [negb]. destruct s as [|c s]; [split; [done|intros (_ & <- & [])]|].
  destruct s as [|d s]; [split; [by intros [= <-]|by intros (_ & <- & _)]|]. assert ((0 <? len (d :: s)) = true) as -> by (apply Z.ltb_lt; rewrite len_cons; pose proof (len_nonneg s); lia).
  rewrite andb_true_l. destruct (Z.eqb_spec c 48) as [->|Hc]; [split; [done|]; by intros (_ & <- & [])|]. split; [by intros [= <-]|by intros (_ & <- & _)].
Qed.

Lemma shaped_canonical raw : valid raw = true -> shaped raw <-> canonical (nibs raw).
Proof.
  intros Hv. destruct (valid_nibs raw Hv) as [Hn El]. unfold canonical. destruct raw as [|c [|d raw]]; [naive_solver|naive_solver|]. simpl.
  rewrite valid_cons, andb_true_iff, negb_true_iff, Z.eqb_neq in Hv. destruct Hv as [Hc _]. apply decodeNibble_char in Hc as [Hc Ec].
  split; [|intros [_ H] ->; by apply H]. intros H. split; [done|]. intros E. rewrite E in Ec. apply H. unfold hexDigit, lower in Ec. simpl in Ec. bools; lia.
Qed.

Lemma quantity_text s x : 0 <= x -> lower <$> s = [48; 120] ++ hex_digits x <->
  exists raw, checkNumber s = inr raw /\ valid raw = true /\ nv (nibs raw) = x /\ length raw = digits x.
Proof.
  intros Hx. rewrite prefix_lower. split.
  - intros [Hp E]. destruct (hex_digits_canonical x Hx) as (ns & Hc & <- & Ed & Hl). rewrite Ed in E.
    destruct (digits_valid _ _ (proj1 Hc) E) as [Hv En]. exists (drop 2 s). rewrite checkNumber_spec, En.
    split; [split; [done|]; split; [done|]; apply shaped_canonical; [done|by rewrite En]|]. split; [done|]. split; [done|].
    rewrite <-Hl, <-En. unfold nibs. by rewrite length_fmap.
  - intros (raw & (Hp & Er & Hs)%checkNumber_spec & Hv & <- & _). split; [done|]. rewrite Er. apply (shaped_canonical raw Hv) in Hs.
    rewrite (hex_digits_nv _ Hs). symmetry. by apply valid_nibs.
Qed.

(** A number that was read has its digits. *)
Lemma read_digits s raw : checkNumber s = inr raw -> valid raw = true -> 0 <= nv (nibs raw) < 16 ^ len raw /\ lower <$> s = [48; 120] ++ hex_digits (nv (nibs raw)).
Proof.
  intros Hc Hv. pose proof (valid_nibs raw Hv) as [Hn _]. pose proof (nv_bound _ Hn) as Hb. rewrite len_nibs in Hb. split; [done|].
  apply quantity_text; [lia|]. exists raw. split; [done|]. split; [done|]. split; [done|]. apply checkNumber_spec in Hc as (_ & _ & Hs).
  apply (shaped_canonical raw Hv) in Hs. rewrite (canonical_digits _ Hs). unfold nibs. by rewrite length_fmap.
Qed.

Lemma EncodeBig_digits x : 0 <= x -> EncodeBig x = [48; 120] ++ hex_digits x.
Proof.
  intros Hx. unfold EncodeBig. destruct (Z.eqb_spec (BitLen x) 0) as [E|E].
  - assert (x = 0) as -> by (unfold BitLen in E; destruct (Z.eqb_spec x 0); [done|]; pose proof (Z.log2_nonneg (Z.abs x)); lia). done.
  - unfold Sprintf_x. rewrite Z.abs_eq by done. destruct (Z.ltb_spec x 0); [lia|done].
Qed.

Lemma digits_64 x : 0 <= x < 2 ^ 256 -> (digits x <= 64)%nat.
Proof. intros Hx. apply digits_spec; [lia|lia|]. apply Hx. Qed.

Lemma digits_16 x : is_u64 x -> (digits x <= 16)%nat.
Proof. intros Hx. apply digits_spec; [apply Hx|lia|]. apply Hx. Qed.

Lemma checkNumberText_spec s : checkNumberText s = match s with [] => inr [] | _ => checkNumber s end.
Proof. by destruct s. Qed.

Lemma DecodeBig_exact s x : DecodeBig s = inr x <-> 0 <= x < 2 ^ 256 /\ lower <$> s = EncodeBig x.
Proof.
  unfold DecodeBig. split.
  - destruct (checkNumber s) as [e|raw] eqn:Ec; [done|]. intros E. pose proof (decode_raw_spec raw) as H. rewrite E in H. destruct H as (Hv & -> & Hl).
    destruct (read_digits s raw Ec Hv) as [Hb Et]. assert (16 ^ len raw <= 2 ^ 256) by (change (2 ^ 256) with (16 ^ 64); apply Z.pow_le_mono_r; lia).
    rewrite EncodeBig_digits by lia. split; [lia|done].
  - intros [Hx Et]. rewrite EncodeBig_digits in Et by lia. apply quantity_text in Et as (raw & -> & Hv & Ex & Hl); [|lia].
    pose proof (decode_raw_spec raw) as H. destruct (decode_raw raw) as [e|y]; [|destruct H as (_ & -> & _); by rewrite Ex].
    pose proof (digits_64 x Hx). unfold len in H. destruct H as [H|H]; [congruence|lia].
Qed.

Lemma DecodeUint64_exact s n : DecodeUint64 s = (n, None) <-> is_u64 n /\ lower <$> s = EncodeUint64 n.
Proof.
  unfold DecodeUint64, EncodeUint64, ParseUint. split.
  - destruct (checkNumber s) as [e|raw] eqn:Ec; [done|]. intros E. destruct raw as [|c raw]; [by apply checkNumber_spec in Ec as (_ & _ & [])|].
    pose proof (ParseUint_loop_spec (c :: raw) 0) as H. destruct (ParseUint_loop 16 0 (c :: raw)) as [v [e|]]; [done|]. injection E as ->.
    destruct H as (Hv & -> & Hl); [unfold is_u64, two64; lia|]. destruct (read_digits s _ Ec Hv) as [Hb Et]. rewrite Z.mul_0_l, Z.add_0_l in *. unfold is_u64. split; [lia|done].
  - intros [Hn Et]. apply quantity_text in Et as (raw & Ec & Hv & Ex & Hl); [|apply Hn]. rewrite Ec. destruct raw as [|c raw]; [by apply checkNumber_spec in Ec as (_ & _ & [])|].
    pose proof (ParseUint_loop_spec (c :: raw) 0) as H. rewrite Ex, Hv in H. destruct (ParseUint_loop 16 0 (c :: raw)) as [v [e|]]; unfold is_u64, two64 in *.
    + specialize (H ltac:(lia)). destruct H as [?|?]; [done|lia].
    + specialize (H ltac:(lia)). destruct H as (_ & -> & _). simpl. by rewrite ?Z.add_0_l.
Qed.

Lemma Uint64_text_exact s n : Uint64_UnmarshalText s = inr n <-> s = [] /\ n = 0 \/ is_u64 n /\ lower <$> s = EncodeUint64 n.
Proof.
  unfold Uint64_UnmarshalText, EncodeUint64. rewrite checkNumberText_spec. destruct s as [|c0 s0]; [simpl; naive_solver|]. set (s := c0 :: s0). split.
  - intros E. right. destruct (checkNumber s) as [e|raw] eqn:Ec; [done|]. destruct (Z.ltb_spec 16 (len raw)) as [?|Hl]; [done|].
    assert (Hp : 16 ^ len raw <= two64) by (change two64 with (16 ^ 16); apply Z.pow_le_mono_r; lia).
    pose proof (decode_word_spec raw 0 ltac:(lia) ltac:(lia)) as H. rewrite E in H. destruct H as [Hv ->]. destruct (read_digits s _ Ec Hv) as [Hb Et].
    rewrite Z.mul_0_l, Z.add_0_l. unfold is_u64. split; [lia|done].
  - intros [[? _]|[Hn Et]]; [done|]. apply quantity_text in Et as (raw & -> & Hv & Ex & Hl); [|apply Hn]. pose proof (digits_16 n Hn) as Hd.
    assert (Hl' : len raw <= 16) by (unfold len; lia). destruct (Z.ltb_spec 16 (len raw)) as [?|_]; [lia|].
    assert (Hp : 16 ^ len raw <= two64) by (change two64 with (16 ^ 16); apply Z.pow_le_mono_r; lia).
    pose proof (decode_word_spec raw 0 ltac:(lia) ltac:(lia)) as H. rewrite Hv, Ex in H. destruct (decode_word 0 raw); [done|]. destruct H as [_ ->]. by rewrite Z.mul_0_l.
Qed.

Lemma quoted {A} (u : bytes -> hexErr + A) t a : u t = inr a -> unmarshal_json u (34 :: t ++ [34]) = inr a.
Proof.
  intros E. unfold unmarshal_json, isString. rewrite len_cons, len_app. change (len [34]) with 1. rewrite app_comm_cons, last_snoc.
  rewrite (proj2 (Z.leb_le _ _)) by (pose proof (len_nonneg t); lia). cbn [head app]. rewrite !bool_decide_true by done. cbn [negb andb].
  replace (length (34%Z :: t ++ [34%Z]) - 1)%nat with (length (34%Z :: t)) by (simpl; rewrite length_app; simpl; lia). rewrite app_comm_cons, take_app_length.
  change (drop 1 (34 :: t)) with t. by rewrite E.
Qed.

(** A JSON value is accepted iff it is a quoted text that is accepted. *)
Lemma json_exact {A} (u : bytes -> hexErr + A) j a :
  unmarshal_json u j = inr a <-> exists t, j = 34 :: t ++ [34] /\ u t = inr a.
Proof.
  split; [|by intros (t & -> & E); apply quoted]. unfold unmarshal_json. destruct (isString j) eqn:Hs; [|done].
  unfold isString in Hs. apply andb_prop in Hs as [Hs H2]. apply andb_prop in Hs as [Hl H1].
  apply bool_decide_eq_true_1 in H1, H2. apply Z.leb_le in Hl. cbn [negb].
  apply last_Some in H2 as [l ->]. destruct l as [|c t]; [by cbn in Hl|]. cbn in H1. injection H1 as ->.
  replace (length ((34%Z :: t) ++ [34%Z]) - 1)%nat with (length (34%Z :: t)) by (rewrite length_app; simpl; lia).
  rewrite take_app_length. change (drop 1 (34 :: t)) with t. intros E. exists t. split; [done|].
  by destruct (u t) as [e|x]; [destruct e|].
Qed.

Lemma Uint_text_exact s n : Uint_UnmarshalText s = inr n <-> s = [] /\ n = 0 \/ is_u64 n /\ lower <$> s = EncodeUint64 n.
Proof. rewrite <-Uint64_text_exact. unfold Uint_UnmarshalText. by destruct (Uint64_UnmarshalText s) as [[]|]. Qed.

Lemma Big_text_exact s x : Big_UnmarshalText s = inr x <-> s = [] /\ x = 0 \/ 0 <= x < 2 ^ 256 /\ lower <$> s = EncodeBig x.
Proof.
  unfold Big_UnmarshalText. rewrite checkNumberText_spec. destruct s as [|c s].
  - split; [intros H; vm_compute in H; left; by injection H as <-|]. intros [[_ ->]|[Hx E]]; [done|]. rewrite EncodeBig_digits in E by lia. done.
  - fold (DecodeBig (c :: s)). rewrite DecodeBig_exact. split; [by right|]. by intros [[? _]|?].
Qed.

(** [unmarshal] reads exactly the texts that [marshal] writes for the numbers
    [ok], in either letter case, and the empty text as zero; and [json] exactly
    those texts between quotes. *)
Definition reads_exactly (ok : Z -> Prop) (marshal : Z -> bytes) (unmarshal json : bytes -> hexErr + Z) : Prop :=
  forall n s,
    (unmarshal s = inr n <-> s = [] /\ n = 0 \/ ok n /\ lower <$> s = marshal n) /\
    (json s = inr n <->
       exists t, s = 34 :: t ++ [34] /\ (t = [] /\ n = 0 \/ ok n /\ lower <$> t = marshal n)).

Lemma text_reads_exactly ok marshal unmarshal :
  (forall s n, unmarshal s = inr n <-> s = [] /\ n = 0 \/ ok n /\ lower <$> s = marshal n) ->
  reads_exactly ok marshal unmarshal (unmarshal_json unmarshal).
Proof. intros H n s. split; [apply H|]. rewrite json_exact. by setoid_rewrite H. Qed.

(** C36: The quantities are read exactly from the texts that are written for them, in
    either letter case: no other number, no leading zero, nothing out of range
    is accepted.  The text and JSON methods of Big, Uint64 and Uint also take
    the empty text for zero, and nothing else. *)
Theorem quantity_exact :
  (forall s x, DecodeBig s = inr x <-> 0 <= x < 2 ^ 256 /\ lower <$> s = EncodeBig x) /\
  (forall s n, DecodeUint64 s = (n, None) <-> is_u64 n /\ lower <$> s = EncodeUint64 n) /\
  reads_exactly is_u64 Uint64_MarshalText Uint64_UnmarshalText Uint64_UnmarshalJSON /\
  reads_exactly is_u64 Uint64_MarshalText Uint_UnmarshalText Uint_UnmarshalJSON /\
  reads_exactly (fun x => 0 <= x < 2 ^ 256) Big_MarshalText Big_UnmarshalText Big_UnmarshalJSON.
Proof.
  split; [exact DecodeBig_exact|]. split; [exact DecodeUint64_exact|].
  split; [apply text_reads_exactly; exact Uint64_text_exact|].
  split; [apply text_reads_exactly; exact Uint_text_exact|apply text_reads_exactly; exact Big_text_exact].
Qed.

(** ** Bytes, hashes and addresses *)

Import TypesText.

Lemma hex_Decode_lower s : hex_Decode (lower <$> s) = hex_Decode s.
Proof.
  induction s as [s IH] using (induction_ltof1 _ (@length Z)). destruct s as [|a [|b s]]; [done|simpl; by rewrite fromHexChar_lower|].
  rewrite !fmap_cons. cbn [hex_Decode]. rewrite !fromHexChar_lower, IH; [done|]. unfold ltof. simpl. lia.
Qed.

Lemma Hex2Bytes_Decode s : Hex2Bytes s = fst (hex_Decode s).
Proof.
  induction s as [s IH] using (induction_ltof1 _ (@length Z)). destruct s as [|a [|b s]]; [done|done|]. cbn [Hex2Bytes hex_Decode].
  destruct (fromHexChar a), (fromHexChar b); try done. rewrite IH by (unfold ltof; simpl; lia). by destruct (hex_Decode s).
Qed.

Lemma Bytes2Hex_cons b d : Bytes2Hex (b :: d) = hexDigit (b / 16) :: hexDigit (b mod 16) :: Bytes2Hex d.
Proof. done. Qed.

Lemma byte_nibs b : byte_ok b -> nib (b / 16) /\ nib (b mod 16).
Proof. unfold byte_ok, nib. intros Hb. split; [split; [apply Z.div_pos; lia|apply Z.div_lt_upper_bound; lia]|apply Z.mod_pos_bound; lia]. Qed.

(** A text of bytes, in any letter case. *)
Lemma decode_text raw d : bytes_ok d -> lower <$> raw = Bytes2Hex d -> hex_Decode raw = (d, None) /\ valid raw = true /\ len raw = 2 * len d.
Proof.
  intros Hd. revert raw. induction Hd as [|b d Hb _ IH]; intros raw E; [by destruct raw|]. rewrite Bytes2Hex_cons in E.
  destruct raw as [|x [|y raw]]; [done|done|]. rewrite !fmap_cons in E. injection E as Ex Ey Er. destruct (IH raw Er) as (H1 & H2 & H3).
  destruct (byte_nibs b Hb) as [Hq Hm]. pose proof (decodeNibble_digit x _ Hq Ex) as Nx. pose proof (decodeNibble_digit y _ Hm Ey) as Ny.
  pose proof (nib_good _ Hq) as Gq. pose proof (nib_good _ Hm) as Gm.
  cbn [hex_Decode]. rewrite !fromHexChar_nibble, Nx, Ny, !(proj2 (Z.eqb_neq _ _)), H1 by done. split; [f_equal; f_equal; pose proof (Z.div_mod b 16); lia|].
  rewrite !valid_cons, Nx, Ny, !(proj2 (Z.eqb_neq _ _)), H2, !len_cons, H3 by done. split; [done|lia].
Qed.

Lemma valid_exists raw : existsb (fun b => decodeNibble b =? badNibble) raw = negb (valid raw).
Proof. induction raw as [|c raw IH]; [done|]. simpl. rewrite IH, negb_andb, negb_involutive. done. Qed.

Lemma fixed_text n s d : bytes_ok d -> len d = n -> 0 < n -> lower <$> s = [48; 120] ++ Bytes2Hex d -> UnmarshalFixedText n s = inr d.
Proof.
  intros Hd Hn H0 Es. apply prefix_lower in Es as [Hp Er]. destruct (decode_text _ d Hd Er) as (H1 & H2 & H3).
  unfold UnmarshalFixedText, checkText. rewrite Hp. assert ((len s =? 0) = false) as -> by (destruct s; [done|apply Z.eqb_neq; rewrite len_cons; pose proof (len_nonneg s); lia]).
  cbn [negb andb]. rewrite H3, Z.mul_comm, Z.mod_mul by lia. change (0 =? 0) with true. cbn [negb unmarshal_fixed].
  rewrite H3, Z.mul_comm, Z.div_mul, Hn, Z.eqb_refl by lia. cbn [negb]. rewrite valid_exists, H2, H1. done.
Qed.

Lemma lower_digit v : nib v -> lower (hexDigit v) = hexDigit v.
Proof. unfold nib, lower, hexDigit. intros Hv. bools; lia. Qed.

Lemma digit_byte v : nib v -> byte_ok (hexDigit v).
Proof. unfold nib, byte_ok, hexDigit. intros Hv. bools; lia. Qed.

Lemma lower_hex d : bytes_ok d -> lower <$> Bytes2Hex d = Bytes2Hex d.
Proof.
  induction 1 as [|b d Hb _ IH]; [done|]. destruct (byte_nibs b Hb). rewrite Bytes2Hex_cons, !fmap_cons, IH, !lower_digit by done. done.
Qed.

Lemma checksum_lower hash i v : nib v -> lower (checksum_char hash i (hexDigit v)) = hexDigit v.
Proof. intros Hv. unfold checksum_char. cbv zeta. split_if; [|by apply lower_digit]. zbool. unfold nib, lower, hexDigit in *. bools; lia. Qed.

Lemma checksum_text d : bytes_ok d -> forall f : nat -> Z -> Z, (forall i v, nib v -> lower (f i (hexDigit v)) = hexDigit v) -> lower <$> imap f (Bytes2Hex d) = Bytes2Hex d.
Proof.
  induction 1 as [|b d Hb _ IH]; intros f Hf; [done|]. destruct (byte_nibs b Hb). rewrite Bytes2Hex_cons, !imap_cons, !fmap_cons.
  f_equal; [by apply Hf|]. f_equal; [by apply (Hf 1%nat)|]. apply IH. intros i v Hv. by apply (Hf (S (S i))).
Qed.

Lemma FromHex_text s d : bytes_ok d -> lower <$> s = [48; 120] ++ Bytes2Hex d -> FromHex s = d.
Proof.
  intros Hd Es. apply prefix_lower in Es as [Hp Er]. destruct (decode_text _ d Hd Er) as (H1 & _ & H3).
  unfold FromHex. change (hasHexPrefix s) with (has0xPrefix s). rewrite Hp, H3, Z.mul_comm, Z.mod_mul by lia. change (0 =? 1) with false. cbv zeta iota.
  by rewrite Hex2Bytes_Decode, H1.
Qed.

Lemma valid_isHex raw : forallb isHexCharacter raw = valid raw.
Proof.
  induction raw as [|c raw IH]; [done|]. cbn [forallb]. rewrite IH, valid_cons. f_equal. symmetry. unfold isHexCharacter, decodeNibble, badNibble, MaxUint64, two64.
  destruct ((48 <=? c) && (c <=? 57)) eqn:E1; [zbool; apply negb_true_iff, Z.eqb_neq; lia|].
  destruct ((65 <=? c) && (c <=? 70)) eqn:E2; [rewrite orb_true_r; zbool; apply negb_true_iff, Z.eqb_neq; lia|].
  destruct ((97 <=? c) && (c <=? 102)) eqn:E3; [|done]. zbool. apply negb_true_iff, Z.eqb_neq. lia.
Qed.

Lemma IsHexAddress_text s a : address_ok a -> lower <$> s = [48; 120] ++ Bytes2Hex a -> IsHexAddress s = true.
Proof.
  intros [Hl Ha] Es. apply prefix_lower in Es as [Hp Er]. destruct (decode_text _ a Ha Er) as (_ & H2 & H3).
  unfold IsHexAddress. change (hasHexPrefix s) with (has0xPrefix s). rewrite Hp. unfold isHex. rewrite H3. unfold len. rewrite Hl. cbn [andb]. by rewrite valid_isHex.
Qed.

Lemma set_bytes_id n b : length b = n -> set_bytes n b = b.
Proof. intros E. unfold set_bytes. rewrite E, Nat.ltb_irrefl. cbv iota zeta. by rewrite E, Nat.sub_diag. Qed.

Section Address.
Context (X : Keccak.Impl) `{!KeccakSponge.ImplLaws X KeccakSpec.keccak_f}.

Lemma Address_Hex_lower a : address_ok a -> exists t, Address_Hex (H := X) a = Ok t /\ lower <$> t = [48; 120] ++ Bytes2Hex a.
Proof.
  intros [_ Ha]. unfold Address_Hex. assert (Hb : bytes_ok (Bytes2Hex a)).
  { clear -Ha. induction Ha as [|b d Hb _ IH]; [constructor|]. destruct (byte_nibs b Hb). rewrite Bytes2Hex_cons.
    constructor; [by apply digit_byte|]. constructor; [by apply digit_byte|done]. }
  pose proof (KeccakLaws.digest_spec X 136 32 0x01 (Bytes2Hex a) ltac:(KeccakLaws.in_rates) ltac:(lia) ltac:(unfold byte_ok; lia) Hb) as E.
  unfold Keccak.digest in E. change (Keccak.new_state (Z.of_nat 136) 32 1) with Keccak.NewKeccak256 in E.
  destruct (Keccak.Write Keccak.NewKeccak256 (Bytes2Hex a)) as [[d k]| |]; [|done..]. cbn [rbind] in *. rewrite E. cbn [rbind]. eexists. split; [done|].
  rewrite fmap_app. f_equal. apply checksum_text; [done|]. intros i v. apply checksum_lower.
Qed.

(** C37: The text of an address: [Hex] returns the plain hexadecimal text in another
    letter case, which is recognised as an address and read back to the same
    address by every reader; hashes survive their text, also as JSON strings. *)
Theorem text_roundtrip a h : address_ok a -> hash_ok h ->
  (exists t, Address_Hex (H := X) a = Ok t /\ lower <$> t = Address_MarshalText a /\ IsHexAddress t = true /\ HexToAddress t = a /\
     Address_UnmarshalText t = inr a /\ Address_UnmarshalJSON (34 :: t ++ [34]) = inr a) /\
  HexToHash (Hash_Hex h) = h /\ Hash_UnmarshalText (Hash_MarshalText h) = inr h /\ Hash_UnmarshalJSON (34 :: Hash_MarshalText h ++ [34]) = inr h.
Proof.
  intros Ha [Hl Hh]. assert (Eh : lower <$> Hash_MarshalText h = [48; 120] ++ Bytes2Hex h) by (unfold Hash_MarshalText, Bytes_MarshalText; rewrite fmap_app; f_equal; by apply lower_hex).
  assert (Ht : Hash_UnmarshalText (Hash_MarshalText h) = inr h) by (apply fixed_text; [done|unfold len; by rewrite Hl|lia|done]).
  split; [|split; [|split; [done|by apply quoted]]].
  - destruct (Address_Hex_lower a Ha) as (t & E & Et). pose proof Ha as [Hal Hab]. exists t.
    assert (Hu : Address_UnmarshalText t = inr a) by (apply fixed_text; [done|unfold len; by rewrite Hal|lia|done]).
    split; [done|]. split; [done|]. split; [by eapply IsHexAddress_text|]. split; [|split; [done|by apply quoted]].
    unfold HexToAddress. rewrite (FromHex_text t a) by done. by apply set_bytes_id.
  - unfold HexToHash, Hash_Hex. rewrite (FromHex_text _ h) by done. by apply set_bytes_id.
Qed.

End Address.

#[local] Existing Instance KeccakSponge.generic_laws.

Lemma text_roundtrip_witness : exists t, Address_Hex (H := Keccak.generic) (zeros 19 ++ [171]) = Ok t /\
  Address_UnmarshalText t = inr (zeros 19 ++ [171]) /\ Hash_UnmarshalText (Hash_MarshalText zeroHash) = inr zeroHash.
Proof.
  destruct (text_roundtrip Keccak.generic (zeros 19 ++ [171]) zeroHash) as [(t & E & _ & _ & _ & Hu & _) (_ & Hh & _)].
  - split; [reflexivity|]. apply bytes_ok_app. split; [apply bytes_ok_zeros|]. repeat constructor; unfold byte_ok; lia.
  - exact zeroHash_ok.
  - exists t. auto.
Defined.

Lemma digit_value_digit v : nib v -> digit_value (hexDigit v) = Some v.
Proof. unfold nib, digit_value, hexDigit. intros Hv. bools; try (f_equal; lia); lia. Qed.

Lemma scan_digits ns : Forall nib ns -> forall a, MathText.scan 16 a (hexDigit <$> ns) = Some (fold_left (fun a n => a * 16 + n) ns a).
Proof.
  induction 1 as [|v ns Hv _ IH]; intros a; [done|]. rewrite fmap_cons. cbn [MathText.scan fold_left]. rewrite digit_value_digit by done.
  unfold nib in Hv. destruct (Z.leb_spec 16 v); [lia|]. apply IH.
Qed.

Lemma SetString_digits x : 0 <= x -> MathText.SetString (hex_digits x) 16 = Some x.
Proof.
  intros Hx. destruct (hex_digits_canonical x Hx) as (ns & [Hn Hc] & <- & -> & _). destruct ns as [|v ns]; [done|]. rewrite fmap_cons. unfold MathText.SetString.
  apply Forall_cons in Hn as [Hv Hn]. assert (hexDigit v <> 45 /\ hexDigit v <> 43) as [H1 H2] by (unfold nib, hexDigit in *; bools; lia).
  rewrite (proj2 (Z.eqb_neq _ _) H1), (proj2 (Z.eqb_neq _ _) H2), <-fmap_cons, scan_digits by (by constructor). done.
Qed.

(** The texts of numbers for configuration files: those of numbers that are not
    negative are read back; a negative one is written in a form that is not. *)
Lemma HexOrDecimal_roundtrip x n :
  (0 <= x < 2 ^ 256 -> MathText.HexOrDecimal256_UnmarshalText (MathText.HexOrDecimal256_MarshalText (Some x)) = Some x) /\
  (x < 0 -> MathText.HexOrDecimal256_UnmarshalText (MathText.HexOrDecimal256_MarshalText (Some x)) = None) /\
  (is_u64 n -> MathText.HexOrDecimal64_UnmarshalText (MathText.HexOrDecimal64_MarshalText n) = Some n).
Proof.
  unfold MathText.HexOrDecimal256_UnmarshalText, MathText.HexOrDecimal64_UnmarshalText, MathText.HexOrDecimal64_MarshalText. cbn [MathText.HexOrDecimal256_MarshalText].
  assert (Hdig : forall y, 0 <= y -> Sprintf_x y = 48 :: 120 :: hex_digits y).
  { intros y Hy. unfold Sprintf_x. rewrite Z.abs_eq by done. by destruct (Z.ltb_spec y 0); [lia|]. }
  split; [|split].
  - intros Hx. rewrite Hdig by lia. unfold MathText.ParseBig256. cbn [has0xPrefix]. change (drop 2 (48 :: 120 :: hex_digits x)) with (hex_digits x).
    change ((48 =? 48) && ((120 =? 120) || (120 =? 88))) with true. cbv iota zeta. rewrite SetString_digits by lia.
    destruct (Z.ltb_spec 256 (BitLen x)) as [Hb|]; [|done]. assert (BitLen x <= 256) by (apply BitLen_spec; lia). lia.
  - intros Hx. unfold Sprintf_x. destruct (Z.ltb_spec x 0); [|lia]. reflexivity.
  - intros Hn. rewrite Hdig by apply Hn. unfold MathText.ParseUint64. cbn [has0xPrefix]. change (drop 2 (48 :: 120 :: hex_digits n)) with (hex_digits n).
    change ((48 =? 48) && ((120 =? 120) || (120 =? 88))) with true. cbv iota zeta.
    pose proof (proj2 (DecodeUint64_exact ([48; 120] ++ hex_digits n) n)) as E. unfold DecodeUint64 in E.
    assert (Et : lower <$> [48; 120] ++ hex_digits n = [48; 120] ++ hex_digits n).
    { destruct (hex_digits_canonical n ltac:(apply Hn)) as (ns & [Hns _] & _ & -> & _). rewrite fmap_app. f_equal. clear -Hns.
      induction Hns as [|v ns Hv _ IH]; [done|]. rewrite !fmap_cons, IH, lower_digit by done. done. }
    specialize (E (conj Hn Et)). destruct (checkNumber _) as [|raw] eqn:Ec; [done|]. apply checkNumber_spec in Ec as (_ & <- & _).
    change (drop 2 ([48; 120] ++ hex_digits n)) with (hex_digits n) in E. destruct (ParseUint (hex_digits n) 16) as [v [e|]]; [done|]. simpl in E. by injection E as ->.
Qed.

End HexLaws.
