(* ===== verification/TrieEncoding.v ===== *)
(** * Trie: the encodings of keys

    Translates [src/trie/encoding.go]: keys as bytes, as nibbles with an
    optional terminator 16, and in the compact form stored on disk. *)

From Stdlib Require Import Lia.
From stdpp Require Import base numbers list.
From S2P Require Import Prelude BigInt.

#[local] Open Scope Z_scope.
#[local] Open Scope go_scope.

Module TrieEncoding.

(** ** The functions *)

Definition hasTerm (s : bytes) : bool :=
  match last s with Some 16 => true | _ => false end.

(** Fills [out] from its start; panics on an odd number of nibbles, or when
    [out] is too short. *)
Fixpoint decodeNibbles (nibbles out : bytes) : result bytes :=
  match nibbles with
  | [] => Ok out
  | [_] => Panic
  | hi :: lo :: nibbles =>
      match out with
      | [] => Panic
      | _ :: out =>
          let? rest := decodeNibbles nibbles out in
          Ok (Z.lor (Z.shiftl hi 4 mod 256) lo :: rest)
      end
  end.

Definition hexToCompact (hex : bytes) : result bytes :=
  let terminator := if hasTerm hex then 1 else 0 in
  let hex := if hasTerm hex then take (length hex - 1) hex else hex in
  let buf := zeros (len hex / 2 + 1) in
  let flag := Z.shiftl terminator 5 in
  let? (flag, hex) :=
    if Z.land (len hex) 1 =? 1 then
      match hex with
      | n :: hex => Ok (Z.lor (Z.lor flag 16) n, hex)
      | [] => Panic
      end
    else Ok (flag, hex) in
  let? rest := decodeNibbles hex (drop 1 buf) in
  Ok (flag :: rest).

Definition keybytesToHex (str : bytes) : bytes :=
  flat_map (fun b => [b / 16; b mod 16]) str ++ [16].

Definition compactToHex (compact : bytes) : result bytes :=
  let base := keybytesToHex compact in
  let base := take (length base - 1) base in
  let? b0 := index base 0 in
  let base := if b0 >=? 2 then base ++ [16] else base in
  let chop := 2 - Z.land b0 1 in
  slice base chop (len base).

Definition hexToKeybytes (hex : bytes) : result bytes :=
  let hex := if hasTerm hex then take (length hex - 1) hex else hex in
  if negb (Z.land (len hex) 1 =? 0) then Panic
  else decodeNibbles hex (zeros ((len hex + 1) / 2)).

Fixpoint prefixLen (a b : bytes) : nat :=
  match a, b with
  | x :: a, y :: b => if x =? y then S (prefixLen a b) else O
  | _, _ => O
  end.

(** ** Nibbles *)

Definition nibble_ok (n : Z) : Prop := 0 <= n < 16.
Definition nibbles_ok (l : bytes) : Prop := Forall nibble_ok l.

(** A key with the terminator. *)
Definition tkey (k : bytes) : Prop := exists l, k = l ++ [16] /\ nibbles_ok l.

Lemma hasTerm_snoc l x : hasTerm (l ++ [x]) = (x =? 16).
Proof. unfold hasTerm. rewrite last_snoc. destruct (Z.eqb_spec x 16) as [->|H]; [done|]. by repeat case_match. Qed.

Lemma hasTerm_nibbles l : nibbles_ok l -> hasTerm l = false.
Proof.
  intros H. destruct l as [|x l] using rev_ind; [done|]. rewrite hasTerm_snoc.
  apply Forall_app in H as [_ H]. apply Forall_cons in H as [H _]. unfold nibble_ok in H. apply Z.eqb_neq. lia.
Qed.

Lemma hasTerm_inv k : hasTerm k = true -> exists l, k = l ++ [16].
Proof.
  destruct k as [|x l] using rev_ind; [done|]. rewrite hasTerm_snoc. intros ->%Z.eqb_eq. by exists l.
Qed.

Definition hex_of (b : bytes) : bytes := flat_map (fun b => [b / 16; b mod 16]) b.

Lemma hex_of_nibbles b : bytes_ok b -> nibbles_ok (hex_of b).
Proof.
  induction 1 as [|x b Hx _ IH]; [constructor|]. unfold byte_ok in Hx. simpl.
  constructor; [split; [apply Z.div_pos; lia|apply Z.div_lt_upper_bound; lia]|].
  constructor; [apply Z.mod_pos_bound; lia|done].
Qed.

Lemma length_hex_of b : length (hex_of b) = (2 * length b)%nat.
Proof. induction b as [|x b IH]; [done|]. simpl in *. lia. Qed.

Lemma keybytesToHex_tkey b : bytes_ok b -> tkey (keybytesToHex b).
Proof. intros H. exists (hex_of b). split; [done|by apply hex_of_nibbles]. Qed.

Lemma nibble_pair hi lo : nibble_ok hi -> nibble_ok lo ->
  Z.lor (Z.shiftl hi 4 mod 256) lo = 16 * hi + lo /\ (16 * hi + lo) / 16 = hi /\ (16 * hi + lo) mod 16 = lo.
Proof.
  unfold nibble_ok. intros Hh Hl. rewrite Z.shiftl_mul_pow2 by lia. change (2 ^ 4) with 16.
  rewrite Z.mod_small by lia. split.
  - assert (Z.land (hi * 16) lo = 0) as E.
    { apply Z.bits_inj'. intros k Hk. rewrite Z.land_spec, Z.bits_0. change 16 with (2 ^ 4).
      rewrite Z.mul_pow2_bits by lia. destruct (Z.lt_ge_cases k 4); [rewrite Z.testbit_neg_r by lia; done|].
      assert (2 ^ 4 <= 2 ^ k) by (apply Z.pow_le_mono_r; lia).
      rewrite (Z.testbit_eqb lo), Z.div_small by lia. by rewrite andb_comm. }
    pose proof (Z.add_lor_land (hi * 16) lo). lia.
  - split; [rewrite Z.mul_comm, Z.div_add_l, Z.div_small by lia; lia|].
    rewrite Z.add_comm, Z.mul_comm, Z_mod_plus_full. apply Z.mod_small. lia.
Qed.

(** Packing an even number of nibbles, and unpacking. *)
Lemma decodeNibbles_spec n l out : length l = (2 * n)%nat -> nibbles_ok l -> length out = n ->
  exists b, decodeNibbles l out = Ok b /\ hex_of b = l /\ bytes_ok b /\ length b = n.
Proof.
  revert l out. induction n as [|n IH]; intros l out Hl Hn Ho.
  - destruct l; [|done]. destruct out; [|done]. exists []. by repeat split; constructor.
  - destruct l as [|hi [|lo l]]; simpl in Hl; [lia|lia|]. destruct out as [|o out]; [done|].
    apply Forall_cons in Hn as [Hh Hn]. apply Forall_cons in Hn as [Hlo Hn].
    destruct (IH l out) as (b & E & Hx & Hb & Hlen); [lia|done|by injection Ho|].
    destruct (nibble_pair hi lo Hh Hlo) as (E1 & E2 & E3). cbn [decodeNibbles]. rewrite E. cbn [rbind]. rewrite E1.
    eexists. split; [done|]. split; [simpl; fold (hex_of b); by rewrite E2, E3, Hx|].
    split; [|simpl; lia]. constructor; [|done]. unfold byte_ok, nibble_ok in *. lia.
Qed.

Lemma decodeNibbles_bytes b out : bytes_ok b -> length out = length b -> decodeNibbles (hex_of b) out = Ok b.
Proof.
  intros Hb Ho. destruct (decodeNibbles_spec (length b) (hex_of b) out) as (b' & -> & Hx & Hb' & Hl);
    [apply length_hex_of|by apply hex_of_nibbles|done|]. f_equal. clear Ho.
  revert b' Hx Hb' Hl. induction Hb as [|x b Hx _ IH]; intros [|y b'] He Hb' Hl; try done.
  simpl in He. injection He as E1 E2 E3. apply Forall_cons in Hb' as [Hy Hb'].
  f_equal; [|apply IH; [done|done|by injection Hl]].
  rewrite (Z.div_mod x 16), (Z.div_mod y 16) by lia. congruence.
Qed.

(** ** Round trips *)

Lemma hexToKeybytes_keybytesToHex b : bytes_ok b -> hexToKeybytes (keybytesToHex b) = Ok b.
Proof.
  intros Hb. unfold hexToKeybytes, keybytesToHex. fold (hex_of b). rewrite hasTerm_snoc. cbn [Z.eqb Pos.eqb].
  rewrite length_app. cbn [length]. rewrite Nat.add_sub, take_app_length.
  assert (len (hex_of b) = 2 * len b) as E by (unfold len; rewrite length_hex_of; lia). rewrite E.
  assert (Z.land (2 * len b) 1 = 0) as ->.
  { change 1 with (Z.ones 1). rewrite Z.land_ones by lia. change (2 ^ 1) with 2. by rewrite Z.mul_comm, Z_mod_mult. }
  cbn [Z.eqb negb]. apply decodeNibbles_bytes; [done|]. unfold zeros. rewrite length_replicate.
  replace ((2 * len b + 1) / 2) with (len b) by (apply Z.div_unique with 1; lia). unfold len. lia.
Qed.

Lemma keybytesToHex_inj a b : bytes_ok a -> bytes_ok b -> keybytesToHex a = keybytesToHex b -> a = b.
Proof.
  intros Ha Hb E. pose proof (hexToKeybytes_keybytesToHex a Ha) as E1. rewrite E in E1.
  rewrite (hexToKeybytes_keybytesToHex b Hb) in E1. by injection E1.
Qed.

(** *** The compact encoding *)

Definition term (t : bool) : bytes := if t then [16] else [].

Lemma strip_term l (t : bool) : nibbles_ok l ->
  hasTerm (l ++ term t) = t /\ (if t then take (length (l ++ term t) - 1) (l ++ term t) else l ++ term t) = l.
Proof.
  intros Hl. destruct t; simpl.
  - rewrite hasTerm_snoc, length_app. cbn [length]. by rewrite Nat.add_sub, take_app_length.
  - rewrite app_nil_r. split; [by apply hasTerm_nibbles|done].
Qed.

Lemma odd_length (l : bytes) : (Z.land (len l) 1 =? 1) = Nat.odd (length l).
Proof.
  change 1 with (Z.ones 1) at 1. rewrite Z.land_ones by lia. change (2 ^ 1) with 2. unfold len.
  rewrite <-Nat.negb_even. destruct (Nat.even (length l)) eqn:E.
  - apply Nat.even_spec in E as [m ->]. replace (Z.of_nat (2 * m)) with (Z.of_nat m * 2) by lia. by rewrite Z_mod_mult.
  - assert (Nat.odd (length l) = true) as Ho by (by rewrite <-Nat.negb_even, E). apply Nat.odd_spec in Ho as [m ->].
    replace (Z.of_nat (2 * m + 1)) with (1 + Z.of_nat m * 2) by lia. by rewrite Z_mod_plus_full.
Qed.

(** The flag byte, with the first nibble when their number is odd, and the rest
    in pairs. *)
Lemma hexToCompact_spec l (t : bool) : nibbles_ok l ->
  exists c b, hexToCompact (l ++ term t) = Ok (c :: b) /\ bytes_ok b /\
    if Nat.odd (length l) then exists n, nibble_ok n /\ c = 16 * (if t then 3 else 1) + n /\ l = n :: hex_of b
    else c = 16 * (if t then 2 else 0) /\ l = hex_of b.
Proof.
  intros Hl. destruct (strip_term l t Hl) as [Ht Hs]. unfold hexToCompact. rewrite Ht, Hs, odd_length.
  assert (forall h, nibbles_ok h -> Nat.even (length h) = true -> len h / 2 = len l / 2 ->
    exists b, decodeNibbles h (drop 1 (zeros (len l / 2 + 1))) = Ok b /\ hex_of b = h /\ bytes_ok b) as Hd.
  { intros h Hh He Hn. apply Nat.even_spec in He as [m Hm].
    destruct (decodeNibbles_spec m h (drop 1 (zeros (len l / 2 + 1)))) as (b & E & Hb & Hok & _); [lia|done| |by exists b].
    unfold zeros. rewrite length_drop, length_replicate, <-Hn. unfold len. rewrite Hm.
    replace (Z.of_nat (2 * m) / 2) with (Z.of_nat m) by (apply Z.div_unique with 0; lia). lia. }
  destruct (Nat.odd (length l)) eqn:Ho.
  - destruct l as [|n h]; [done|]. apply Forall_cons in Hl as [Hn Hh]. cbn [rbind length] in *.
    rewrite Nat.odd_succ in Ho. destruct (Hd h) as (b & -> & Hb & Hok); [done|done| |].
    { unfold len. cbn [length]. apply Nat.even_spec in Ho as [m Hm]. rewrite Hm.
      apply Z.div_unique with 1; [lia|]. rewrite <-(Z.div_unique (Z.of_nat (2 * m)) 2 (Z.of_nat m) 0); lia. }
    cbn [rbind]. do 2 eexists. split; [done|]. split; [done|]. exists n. split; [done|].
    split; [|by rewrite Hb]. unfold nibble_ok in Hn.
    destruct (nibble_pair (if t then 3 else 1) n) as [E _]; [unfold nibble_ok; destruct t; lia|done|].
    rewrite <-E. by destruct t.
  - cbn [rbind]. destruct (Hd l) as (b & -> & Hb & Hok); [done|by rewrite <-Nat.negb_odd, Ho|done|].
    cbn [rbind]. do 2 eexists. split; [done|]. split; [done|]. split; [by destruct t|done].
Qed.

Lemma compactToHex_hexToCompact l (t : bool) c : nibbles_ok l ->
  hexToCompact (l ++ term t) = Ok c -> compactToHex c = Ok (l ++ term t).
Proof.
  intros Hl H. destruct (hexToCompact_spec l t Hl) as (c0 & b & E & Hb & Hc). rewrite E in H. injection H as <-.
  unfold compactToHex, keybytesToHex. fold (hex_of (c0 :: b)).
  rewrite length_app. cbn [length]. rewrite Nat.add_sub, take_app_length.
  change (hex_of (c0 :: b)) with (c0 / 16 :: c0 mod 16 :: hex_of b).
  change (index (c0 / 16 :: c0 mod 16 :: hex_of b) 0) with (Ok (c0 / 16)). cbn [rbind].
  destruct (Nat.odd (length l)).
  - destruct Hc as (n & Hn & -> & ->).
    destruct (nibble_pair (if t then 3 else 1) n) as (_ & -> & ->); [unfold nibble_ok; destruct t; lia|done|].
    destruct t; cbn [Z.geb Z.compare Pos.compare Pos.compare_cont term app].
    + change (2 - Z.land 3 1) with (Z.of_nat 1). rewrite slice_drop by (simpl; lia). done.
    + change (2 - Z.land 1 1) with (Z.of_nat 1). rewrite slice_drop by (simpl; lia). simpl. by rewrite app_nil_r.
  - destruct Hc as (-> & ->). destruct t.
    + change (16 * 2 / 16) with 2. change ((16 * 2) mod 16) with 0. cbn [Z.geb Z.compare Pos.compare Pos.compare_cont term app].
      change (2 - Z.land 2 1) with (Z.of_nat 2). rewrite slice_drop by (simpl; lia). done.
    + change (16 * 0 / 16) with 0. change ((16 * 0) mod 16) with 0. cbn [Z.geb Z.compare term app].
      change (2 - Z.land 0 1) with (Z.of_nat 2). rewrite slice_drop by (simpl; lia). simpl. by rewrite app_nil_r.
Qed.

(** ** Common prefixes *)

Lemma prefixLen_spec a b :
  take (prefixLen a b) a = take (prefixLen a b) b /\ (prefixLen a b <= length a)%nat /\
  (prefixLen a b <= length b)%nat /\
  forall x y, a !! prefixLen a b = Some x -> b !! prefixLen a b = Some y -> x <> y.
Proof.
  revert b. induction a as [|x a IH]; intros [|y b]; simpl; try (split; [done|]; split; [lia|]; split; [lia|]; done).
  destruct (Z.eqb_spec x y) as [->|Hne].
  - destruct (IH b) as (E & H1 & H2 & H3). simpl. rewrite E. split; [done|]. split; [lia|]. split; [lia|done].
  - simpl. split; [done|]. split; [lia|]. split; [lia|]. intros x' y'. simpl. naive_solver.
Qed.

Lemma prefixLen_app p a b : prefixLen (p ++ a) (p ++ b) = (length p + prefixLen a b)%nat.
Proof. induction p as [|x p IH]; simpl; [done|]. by rewrite Z.eqb_refl, IH. Qed.

End TrieEncoding.
