(* ===== verification/TrieNode.v ===== *)
(** * Trie: nodes and their decoding

    Translates [src/trie/node.go] (the printing of nodes aside).  A Go [node]
    is an interface whose nil value is [nilNode]; the pointers to short and
    full nodes are values here, because every function of the package copies a
    node before it changes a field of it.

    [decodeNode] recurses into embedded nodes; the fuel is the length of the
    buffer, which shrinks by the header of the list at each level. *)

From Stdlib Require Import Lia.
From stdpp Require Import base numbers list strings pretty.
From S2P Require Import Prelude BigInt Types RlpTypes RlpDecode TrieEncoding.
Import RlpTypes RlpDecode TrieEncoding.

#[local] Open Scope Z_scope.
#[local] Open Scope go_scope.

Module TrieNode.

(** ** Nodes *)

Record nodeFlag := {
  hash : option bytes;     (* nil or a cached hash *)
  gen : Z;                 (* uint16 *)
  dirty : bool
}.

Inductive node :=
| nilNode
| valueNode (v : bytes)
| hashNode (h : bytes)
| shortNode (Key : bytes) (Val : node) (flags : nodeFlag)
| fullNode (Children : list node) (flags : nodeFlag).

#[export] Instance nodeFlag_eq_dec : EqDecision nodeFlag.
Proof. solve_decision. Defined.

Section NodeInd.
Context (P : node -> Prop).
Context (Hnil : P nilNode) (Hvalue : forall v, P (valueNode v)) (Hhash : forall h, P (hashNode h)).
Context (Hshort : forall k c f, P c -> P (shortNode k c f)).
Context (Hfull : forall cs f, Forall P cs -> P (fullNode cs f)).

Fixpoint node_ind' (n : node) : P n :=
  match n with
  | nilNode => Hnil
  | valueNode v => Hvalue v
  | hashNode h => Hhash h
  | shortNode k c f => Hshort k c f (node_ind' c)
  | fullNode cs f => Hfull cs f
      ((fix go cs : Forall P cs :=
          match cs with [] => Forall_nil_2 P | c :: cs => Forall_cons_2 P c cs (node_ind' c) (go cs) end) cs)
  end.
End NodeInd.

Definition uint16 (x : Z) : Z := x mod 65536.

Definition flag_canUnload (f : nodeFlag) (cachegen cachelimit : Z) : bool :=
  negb (dirty f) && (uint16 (cachegen - gen f) >=? cachelimit).

(** The methods are called on non-nil nodes only; on the nil interface Go
    panics. *)
Definition canUnload (n : node) (cachegen cachelimit : Z) : result bool :=
  match n with
  | fullNode _ f | shortNode _ _ f => Ok (flag_canUnload f cachegen cachelimit)
  | hashNode _ | valueNode _ => Ok false
  | nilNode => Panic
  end.

Definition cache (n : node) : result (option bytes * bool) :=
  match n with
  | fullNode _ f | shortNode _ _ f => Ok (hash f, dirty f)
  | hashNode _ | valueNode _ => Ok (None, true)
  | nilNode => Panic
  end.

(** ** Decoding errors *)

Inductive decErr :=
| errEOF                                          (* io.ErrUnexpectedEOF *)
| decode_error (e : error)
| invalid_elements (c : Z)
| invalid_value (e : error)
| rlp_error (e : error)
| oversized (size : Z)
| invalid_size (n : Z)
| pathError (what : decErr) (stack : list string).  (* *decodeError *)

Definition wrapError (err : decErr) (ctx : string) : decErr :=
  match err with
  | pathError what stack => pathError what (stack ++ [ctx])
  | _ => pathError err [ctx]
  end.

(** A call that may fail, and the use of its result. *)
Definition dbind {E A B} (m : result (E + A)) (k : A -> result (E + B)) : result (E + B) :=
  let? r := m in match r with inl e => Ok (inl e) | inr a => k a end.

(** The error of a call, rewritten. *)
Definition on_error {E E' A} (f : E -> E') (m : result (E + A)) : result (E' + A) :=
  let? r := m in Ok match r with inl e => inl (f e) | inr a => inr a end.

End TrieNode.

Declare Scope trie_scope.
Notation "'let*' x := m 'in' k" := (TrieNode.dbind m (fun x => k))
  (at level 10, x pattern, m at level 200, k at level 200) : trie_scope.
#[local] Open Scope trie_scope.

Module TrieDecode.
Import TrieNode.

Definition hashLen : Z := 32.

Section Refs.
Context (decodeNode : option bytes -> bytes -> result (decErr + node)) (cachegen : Z).

Definition decodeRef (buf : bytes) : result (decErr + node * bytes) :=
  let* (kind, val, rest) := on_error rlp_error (Split buf) in
  match kind with
  | List =>
      let size := len buf - len rest in
      if size >? hashLen then Ok (inl (oversized size))
      else let* n := decodeNode None buf in Ok (inr (n, rest))
  | String =>
      if len val =? 0 then Ok (inr (nilNode, rest))
      else if len val =? 32 then Ok (inr (hashNode val, rest))
      else Ok (inl (invalid_size (len val)))
  | Byte => Ok (inl (invalid_size (len val)))
  end.

Definition decodeShort (h : option bytes) (elems : bytes) : result (decErr + node) :=
  let* (kbuf, rest) := on_error rlp_error (SplitString elems) in
  let flag := {| hash := h; gen := cachegen; dirty := false |} in
  let? key := compactToHex kbuf in
  if hasTerm key then
    let* (val, _) := on_error invalid_value (SplitString rest) in
    Ok (inr (shortNode key (valueNode val) flag))
  else
    let* (r, _) := on_error (fun e => wrapError e "val") (decodeRef rest) in
    Ok (inr (shortNode key r flag)).

(** The children from index [i] on, [todo] of them, and the bytes behind. *)
Fixpoint decodeFull_loop (todo i : nat) (elems : bytes) : result (decErr + list node * bytes) :=
  match todo with
  | O => Ok (inr ([], elems))
  | S todo =>
      let* (cld, rest) := on_error (fun e => wrapError e ("[" ++ pretty i ++ "]")%string) (decodeRef elems) in
      let* (cs, rest) := decodeFull_loop todo (S i) rest in
      Ok (inr (cld :: cs, rest))
  end.

Definition decodeFull (h : option bytes) (elems : bytes) : result (decErr + node) :=
  let* (cs, elems) := decodeFull_loop 16 0 elems in
  let* (val, _) := on_error rlp_error (SplitString elems) in
  let c16 := if len val >? 0 then valueNode val else nilNode in
  Ok (inr (fullNode (cs ++ [c16]) {| hash := h; gen := cachegen; dirty := false |})).

End Refs.

Fixpoint decodeNode_fuel (fuel : nat) (cachegen : Z) (h : option bytes) (buf : bytes) : result (decErr + node) :=
  match fuel with
  | O => NoFuel
  | S fuel =>
      match buf with
      | [] => Ok (inl errEOF)
      | _ =>
          let* (elems, _) := on_error decode_error (SplitList buf) in
          let? count := CountValues elems in
          let c := match count with inr c => c | inl _ => 0 end in
          let refs := decodeNode_fuel fuel cachegen in
          if c =? 2 then on_error (fun e => wrapError e "short") (decodeShort refs cachegen h elems)
          else if c =? 17 then on_error (fun e => wrapError e "full") (decodeFull refs cachegen h elems)
          else Ok (inl (invalid_elements c))
      end
  end.

Definition decodeNode (h : option bytes) (buf : bytes) (cachegen : Z) : result (decErr + node) :=
  decodeNode_fuel (S (length buf)) cachegen h buf.

Definition mustDecodeNode (h : option bytes) (buf : bytes) (cachegen : Z) : result node :=
  let? r := decodeNode h buf cachegen in
  match r with inl _ => Panic | inr n => Ok n end.

(** ** Termination *)

Lemma dbind_not_NoFuel {E A B} (m : result (E + A)) (k : A -> result (E + B)) :
  m <> NoFuel -> (forall a, m = Ok (inr a) -> k a <> NoFuel) -> dbind m k <> NoFuel.
Proof. intros Hm Hk. unfold dbind. destruct m as [[e|a]| |]; simpl; [done|by apply Hk|done|done]. Qed.

End TrieDecode.
