(* ===== verification/TrieOps.v ===== *)
(** * Trie: reading and changing a trie

    Translates [src/trie/trie.go] (hashing and committing are in
    [TrieHasher.v]) and [src/trie/errors.go].  The database is the function
    [Node] from hashes to blobs; [None] is an error or a nil blob, which the
    source treats alike.

    The recursion goes through nodes that are loaded on the way, so it takes
    fuel.  Every step but the loading of a node consumes at least one nibble of
    the key in a well-formed trie, and a loaded node is not a hash again:
    [trie_fuel] is enough ([TrieSpec.v]). *)

From Stdlib Require Import Lia.
From stdpp Require Import base numbers list.
From S2P Require Import Prelude BigInt Types TrieEncoding TrieNode.
Import Common TrieEncoding TrieNode TrieDecode.

#[local] Open Scope Z_scope.
#[local] Open Scope go_scope.

Module TrieOps.

Record MissingNodeError := { NodeHash : Hash; Path : bytes }.

Record Trie := {
  root : node;
  originalRoot : Hash;
  cachegen : Z;            (* uint16 *)
  cachelimit : Z           (* uint16 *)
}.

Definition set_root (n : node) (t : Trie) : Trie :=
  {| root := n; originalRoot := originalRoot t; cachegen := cachegen t; cachelimit := cachelimit t |}.

Definition SetCacheLimit (t : Trie) (l : Z) : Trie :=
  {| root := root t; originalRoot := originalRoot t; cachegen := cachegen t; cachelimit := l |}.

Definition set_gen (g : Z) (f : nodeFlag) : nodeFlag := {| hash := hash f; gen := g; dirty := dirty f |}.

(** The known root hash of an empty trie. *)
Definition emptyRoot : Hash :=
  [86; 232; 31; 23; 27; 204; 85; 166; 255; 131; 69; 230; 146; 192; 248; 110;
   91; 72; 224; 27; 153; 108; 173; 192; 1; 98; 47; 181; 227; 99; 180; 33].

Definition concat (s1 s2 : bytes) : bytes := s1 ++ s2.

Definition trie_fuel (key : bytes) : nat := 2 * length key + 4.

(** The only child that is left ([pos >= 0]), or [-2] when there are two, or
    [-1] when there is none. *)
Fixpoint remaining (i pos : Z) (cs : list node) : Z :=
  match cs with
  | [] => pos
  | nilNode :: cs => remaining (i + 1) pos cs
  | _ :: cs => if pos =? -1 then remaining (i + 1) i cs else -2
  end.

Section Ops.
Context (Node : Hash -> option bytes) (cachegen : Z).

Definition newFlag : nodeFlag := {| hash := None; gen := cachegen; dirty := true |}.

Definition resolveHash (n : bytes) (prefix : bytes) : result (MissingNodeError + node) :=
  let hash := BytesToHash n in
  match Node hash with
  | None => Ok (inl {| NodeHash := hash; Path := prefix |})
  | Some enc => let? n := mustDecodeNode (Some n) enc cachegen in Ok (inr n)
  end.

Definition resolve (n : node) (prefix : bytes) : result (MissingNodeError + node) :=
  match n with
  | hashNode h => resolveHash h prefix
  | _ => Ok (inr n)
  end.

(** ** [tryGet] *)

Definition got : Type := option bytes * node * bool * option MissingNodeError.

Definition succeeded (didResolve : bool) (err : option MissingNodeError) : bool :=
  match err with None => didResolve | Some _ => false end.

Fixpoint tryGet (fuel : nat) (origNode : node) (key : bytes) (pos : nat) : result got :=
  match fuel with
  | O => NoFuel
  | S fuel =>
      match origNode with
      | nilNode => Ok (None, nilNode, false, None)
      | valueNode v => Ok (Some v, valueNode v, false, None)
      | shortNode k c f =>
          if bool_decide (len key - Z.of_nat pos < len k) || negb (bool_decide (k = take (length k) (drop pos key)))
          then Ok (None, origNode, false, None)
          else
            let? (value, newnode, didResolve, err) := tryGet fuel c key (pos + length k) in
            let n := if succeeded didResolve err then shortNode k newnode (set_gen cachegen f) else origNode in
            Ok (value, n, didResolve, err)
      | fullNode cs f =>
          let? x := index key (Z.of_nat pos) in
          let? c := index cs x in
          let? (value, newnode, didResolve, err) := tryGet fuel c key (pos + 1) in
          let? cs' := update cs x newnode in
          let n := if succeeded didResolve err then fullNode cs' (set_gen cachegen f) else origNode in
          Ok (value, n, didResolve, err)
      | hashNode h =>
          let? r := resolveHash h (take pos key) in
          match r with
          | inl err => Ok (None, origNode, true, Some err)
          | inr child =>
              let? (value, newnode, _, err) := tryGet fuel child key pos in
              Ok (value, newnode, true, err)
          end
      end
  end.

(** ** [insert] *)

Definition changed : Type := bool * node * option MissingNodeError.

Fixpoint insert (fuel : nat) (n : node) (prefix key : bytes) (value : node) : result changed :=
  match fuel with
  | O => NoFuel
  | S fuel =>
      match key with
      | [] =>
          match n with
          | valueNode v =>
              match value with
              | valueNode w => Ok (negb (bool_decide (v = w)), value, None)
              | _ => Panic
              end
          | _ => Ok (true, value, None)
          end
      | k0 :: krest =>
          match n with
          | shortNode nkey val f =>
              let matchlen := prefixLen key nkey in
              if (matchlen =? length nkey)%nat then
                let? (dirty, nn, err) :=
                  insert fuel val (prefix ++ take matchlen key) (drop matchlen key) value in
                match dirty, err with
                | true, None => Ok (true, shortNode nkey nn newFlag, None)
                | _, _ => Ok (false, n, err)
                end
              else
                let branch := replicate 17 nilNode in
                let? x := index nkey (Z.of_nat matchlen) in
                let? (_, c1, err) :=
                  insert fuel nilNode (prefix ++ take (matchlen + 1) nkey) (drop (matchlen + 1) nkey) val in
                let? branch := update branch x c1 in
                match err with
                | Some err => Ok (false, nilNode, Some err)
                | None =>
                    let? y := index key (Z.of_nat matchlen) in
                    let? (_, c2, err) :=
                      insert fuel nilNode (prefix ++ take (matchlen + 1) key) (drop (matchlen + 1) key) value in
                    let? branch := update branch y c2 in
                    match err with
                    | Some err => Ok (false, nilNode, Some err)
                    | None =>
                        if (matchlen =? 0)%nat then Ok (true, fullNode branch newFlag, None)
                        else Ok (true, shortNode (take matchlen key) (fullNode branch newFlag) newFlag, None)
                    end
                end
          | fullNode cs f =>
              let? c := index cs k0 in
              let? (dirty, nn, err) := insert fuel c (prefix ++ [k0]) krest value in
              match dirty, err with
              | true, None => let? cs := update cs k0 nn in Ok (true, fullNode cs newFlag, None)
              | _, _ => Ok (false, n, err)
              end
          | nilNode => Ok (true, shortNode key value newFlag, None)
          | hashNode h =>
              let? r := resolveHash h prefix in
              match r with
              | inl err => Ok (false, nilNode, Some err)
              | inr rn =>
                  let? (dirty, nn, err) := insert fuel rn prefix key value in
                  match dirty, err with
                  | true, None => Ok (true, nn, None)
                  | _, _ => Ok (false, rn, err)
                  end
              end
          | valueNode _ => Panic
          end
      end
  end.

(** ** [delete] *)

(** A full node that lost a child, reduced to a short node when one is left. *)
Definition reduce (cs : list node) (prefix : bytes) : result changed :=
  let pos := remaining 0 (-1) cs in
  if pos >=? 0 then
    let? c := index cs pos in
    let single := Ok (true, shortNode [pos] c newFlag, None) in
    if negb (pos =? 16) then
      let? r := resolve c prefix in
      match r with
      | inl err => Ok (false, nilNode, Some err)
      | inr (shortNode ckey cval _) => Ok (true, shortNode (pos :: ckey) cval newFlag, None)
      | inr _ => single
      end
    else single
  else Ok (true, fullNode cs newFlag, None).

Fixpoint delete (fuel : nat) (n : node) (prefix key : bytes) : result changed :=
  match fuel with
  | O => NoFuel
  | S fuel =>
      match n with
      | shortNode nkey val f =>
          let matchlen := prefixLen key nkey in
          if (matchlen <? length nkey)%nat then Ok (false, n, None)
          else if (matchlen =? length key)%nat then Ok (true, nilNode, None)
          else
            let? (dirty, child, err) :=
              delete fuel val (prefix ++ take (length nkey) key) (drop (length nkey) key) in
            match dirty, err with
            | true, None =>
                match child with
                | shortNode ckey cval _ => Ok (true, shortNode (concat nkey ckey) cval newFlag, None)
                | _ => Ok (true, shortNode nkey child newFlag, None)
                end
            | _, _ => Ok (false, n, err)
            end
      | fullNode cs f =>
          let? k0 := index key 0 in
          let? c := index cs k0 in
          let? (dirty, nn, err) := delete fuel c (prefix ++ [k0]) (drop 1 key) in
          match dirty, err with
          | true, None => let? cs := update cs k0 nn in reduce cs prefix
          | _, _ => Ok (false, n, err)
          end
      | valueNode _ => Ok (true, nilNode, None)
      | nilNode => Ok (false, nilNode, None)
      | hashNode h =>
          let? r := resolveHash h prefix in
          match r with
          | inl err => Ok (false, nilNode, Some err)
          | inr rn =>
              let? (dirty, nn, err) := delete fuel rn prefix key in
              match dirty, err with
              | true, None => Ok (true, nn, None)
              | _, _ => Ok (false, rn, err)
              end
          end
      end
  end.

End Ops.

(** ** The operations of a [Trie] *)

Section Trie.
Context (Node : Hash -> option bytes).

Definition New (r : Hash) : result (MissingNodeError + Trie) :=
  let trie := {| root := nilNode; originalRoot := r; cachegen := 0; cachelimit := 0 |} in
  if negb (bool_decide (r = zeroHash)) && negb (bool_decide (r = emptyRoot)) then
    let? res := resolveHash Node 0 r [] in
    Ok match res with inl err => inl err | inr rootnode => inr (set_root rootnode trie) end
  else Ok (inr trie).

Definition TryGet (t : Trie) (key : bytes) : result (Trie * option bytes * option MissingNodeError) :=
  let key := keybytesToHex key in
  let? (value, newroot, didResolve, err) := tryGet Node (cachegen t) (trie_fuel key) (root t) key 0 in
  let t := if succeeded didResolve err then set_root newroot t else t in
  Ok (t, value, err).

(** The error is logged. *)
Definition Get (t : Trie) (key : bytes) : result (Trie * option bytes) :=
  let? (t, res, _) := TryGet t key in Ok (t, res).

Definition apply_change (t : Trie) (c : changed) : Trie * option MissingNodeError :=
  match c with
  | (_, _, Some err) => (t, Some err)
  | (_, n, None) => (set_root n t, None)
  end.

Definition TryUpdate (t : Trie) (key value : bytes) : result (Trie * option MissingNodeError) :=
  let k := keybytesToHex key in
  let? c :=
    if negb (len value =? 0) then insert Node (cachegen t) (trie_fuel k) (root t) [] k (valueNode value)
    else delete Node (cachegen t) (trie_fuel k) (root t) [] k in
  Ok (apply_change t c).

Definition TryDelete (t : Trie) (key : bytes) : result (Trie * option MissingNodeError) :=
  let k := keybytesToHex key in
  let? c := delete Node (cachegen t) (trie_fuel k) (root t) [] k in
  Ok (apply_change t c).

Definition Update (t : Trie) (key value : bytes) : result Trie :=
  let? (t, _) := TryUpdate t key value in Ok t.

Definition Delete (t : Trie) (key : bytes) : result Trie :=
  let? (t, _) := TryDelete t key in Ok t.

End Trie.

End TrieOps.
