(* ===== verification/TrieRep.v ===== *)
(** * Trie: trees, and the nodes that represent them

    The tree behind the nodes ([TrieTree]) is the specification of the trie: a
    tree without hashes and cache flags, the value it holds for a key, and the
    canonical form every operation keeps ([wf]): an extension is followed by a
    branch or, at the end of a key, by a value; a branch has at least two
    children; only the seventeenth is a value; values are not empty. *)

From Stdlib Require Import Lia.
From stdpp Require Import base numbers list.
From S2P Require Import Prelude BigInt Types TrieEncoding TrieNode TrieOps.
Import TrieEncoding.

#[local] Open Scope Z_scope.

Module TrieTree.

Inductive tree :=
| E
| Leaf (v : bytes)
| Ext (k : bytes) (t : tree)
| Branch (ts : list tree).

Section TreeInd.
Context (P : tree -> Prop).
Context (HE : P E) (HL : forall v, P (Leaf v)) (HX : forall k t, P t -> P (Ext k t)).
Context (HB : forall ts, Forall P ts -> P (Branch ts)).

Fixpoint tree_ind' (t : tree) : P t :=
  match t with
  | E => HE
  | Leaf v => HL v
  | Ext k t => HX k t (tree_ind' t)
  | Branch ts => HB ts
      ((fix go ts : Forall P ts :=
          match ts with [] => Forall_nil_2 P | t :: ts => Forall_cons_2 P t ts (tree_ind' t) (go ts) end) ts)
  end.
End TreeInd.

#[export] Instance tree_E_dec (t : tree) : Decision (t = E).
Proof. destruct t; [by left|by right..]. Defined.

(** The value under a key. *)
Fixpoint look (t : tree) (k : bytes) : option bytes :=
  match t with
  | E => None
  | Leaf v => match k with [] => Some v | _ => None end
  | Ext p t => if decide (take (length p) k = p) then look t (drop (length p) k) else None
  | Branch ts =>
      match k with
      | [] => None
      | x :: k => match index (map look ts) x with Ok f => f k | _ => None end
      end
  end.

(** Two children that are there. *)
Definition two (ts : list tree) : Prop :=
  exists i j c d, i <> j /\ ts !! i = Some c /\ ts !! j = Some d /\ c <> E /\ d <> E.

Inductive wf : tree -> Prop :=
| wf_leaf k v : tkey k -> v <> [] -> wf (Ext k (Leaf v))
| wf_ext k ts : nibbles_ok k -> k <> [] -> wf (Branch ts) -> wf (Ext k (Branch ts))
| wf_branch ts :
    length ts = 17%nat ->
    (forall i c, ts !! i = Some c -> (i < 16)%nat -> c <> E -> wf c) ->
    (forall c, ts !! 16%nat = Some c -> c = E \/ exists v, c = Leaf v /\ v <> []) ->
    two ts ->
    wf (Branch ts).

(** What can stand where the key [key] is left. *)
Definition fits (t : tree) (key : bytes) : Prop :=
  (t = E /\ (key = [] \/ tkey key)) \/
  (key = [] /\ exists v, t = Leaf v /\ v <> []) \/
  (tkey key /\ wf t).

(** ** Keys *)

Lemma tkey_nil : ~ tkey [].
Proof. by intros ([|x l] & E & _). Qed.

Lemma tkey_cons x k : tkey (x :: k) <-> (x = 16 /\ k = []) \/ (nibble_ok x /\ tkey k).
Proof.
  split.
  - intros ([|y l] & Hk & Hl); simpl in Hk; injection Hk as -> ->; [by left|].
    apply Forall_cons in Hl as [Hy Hl]. right. split; [done|]. by exists l.
  - intros [[-> ->]|[Hx (l & -> & Hl)]]; [exists []; by split; [|constructor]|].
    exists (x :: l). split; [done|]. by constructor.
Qed.

Lemma tkey_app p k : nibbles_ok p -> tkey (p ++ k) <-> tkey k.
Proof.
  induction 1 as [|x p Hx _ IH]; [done|]. rewrite <-app_comm_cons, tkey_cons, IH. unfold nibble_ok in *.
  split; [intros [[-> _]|[_ ?]]; [lia|done]|by right].
Qed.

(** Keys with a terminator are not prefixes of each other. *)
Lemma tkey_prefix p k : tkey p -> tkey (p ++ k) -> k = [].
Proof.
  intros (l & -> & Hl). rewrite <-app_assoc, tkey_app by done. simpl. rewrite tkey_cons.
  intros [[_ ?]|[H _]]; [done|]. unfold nibble_ok in H. lia.
Qed.

Lemma tkey_range x k : tkey (x :: k) -> 0 <= x <= 16.
Proof. rewrite tkey_cons. unfold nibble_ok. lia. Qed.

(** ** Looking up *)

Lemma look_Ext p t k : look (Ext p t) (p ++ k) = look t k.
Proof. simpl. rewrite take_app_length, drop_app_length. by rewrite decide_True. Qed.

Lemma look_Ext_cases p t k :
  (exists k', k = p ++ k' /\ look (Ext p t) k = look t k') \/
  ((forall k', k <> p ++ k') /\ look (Ext p t) k = None).
Proof.
  destruct (decide (take (length p) k = p)) as [E|H].
  - left. exists (drop (length p) k). assert (k = p ++ drop (length p) k) as Ek by (rewrite <-E at 1; by rewrite take_drop).
    split; [done|]. rewrite Ek at 1. apply look_Ext.
  - right. split; [intros k' ->; by rewrite take_app_length in H|]. simpl. by rewrite decide_False.
Qed.

Lemma look_Ext_None p t k : (forall k', k <> p ++ k') -> look (Ext p t) k = None.
Proof. intros H. by destruct (look_Ext_cases p t k) as [(k' & -> & _)|[_ ?]]; [edestruct H|]. Qed.

Lemma look_Ext_Ext p q t k : look (Ext (p ++ q) t) k = look (Ext p (Ext q t)) k.
Proof.
  destruct (look_Ext_cases p (Ext q t) k) as [(k' & -> & ->)|[H ->]].
  - destruct (look_Ext_cases q t k') as [(k2 & -> & ->)|[H ->]].
    + by rewrite app_assoc, look_Ext.
    + apply look_Ext_None. intros k2 E. rewrite <-app_assoc in E. apply app_inv_head in E. by edestruct H.
  - apply look_Ext_None. intros k2 E. rewrite <-app_assoc in E. by edestruct H.
Qed.

Lemma look_Branch ts x k :
  look (Branch ts) (x :: k) = match index ts x with Ok c => look c k | _ => None end.
Proof.
  simpl. unfold index. destruct (0 <=? x); [|done]. rewrite list_lookup_fmap. by destruct (ts !! _).
Qed.

Lemma index_nat {A} (l : list A) x c : 0 <= x -> l !! Z.to_nat x = Some c -> index l x = Ok c.
Proof. intros Hx E. unfold index. rewrite (proj2 (Z.leb_le 0 x)) by done. by rewrite E. Qed.

Lemma look_child ts x k c : 0 <= x -> ts !! Z.to_nat x = Some c -> look (Branch ts) (x :: k) = look c k.
Proof. intros Hx E. by rewrite look_Branch, (index_nat _ _ _ Hx E). Qed.

Lemma update_nat {A} (l : list A) x c : 0 <= x -> (Z.to_nat x < length l)%nat ->
  update l x c = Ok (<[Z.to_nat x := c]> l).
Proof.
  intros Hx Hl. unfold update. unfold len.
  rewrite (proj2 (Z.leb_le 0 x)), (proj2 (Z.ltb_lt x (Z.of_nat (length l)))) by lia. done.
Qed.

(** Replacing a child changes the keys below it. *)
Lemma look_insert ts x c k : 0 <= x -> (Z.to_nat x < length ts)%nat ->
  look (Branch (<[Z.to_nat x := c]> ts)) k =
  match k with y :: k' => if decide (y = x) then look c k' else look (Branch ts) k | [] => None end.
Proof.
  intros Hx Hl. destruct k as [|y k]; [done|]. rewrite !look_Branch. destruct (decide (y = x)) as [->|Hne].
  - rewrite (index_nat _ x c); [done|done|]. by apply list_lookup_insert_eq.
  - unfold index. destruct (Z.leb_spec 0 y); [|done]. rewrite list_lookup_insert_ne by lia. done.
Qed.

Lemma two_insert ts i t : (i < length ts)%nat -> t <> E -> two ts -> two (<[i := t]> ts).
Proof.
  intros Hi Ht (a & b & c & d & Hab & Ha & Hb & Hc & Hd). pose proof (list_lookup_insert_eq ts i t Hi) as Ei.
  destruct (decide (a = i)) as [->|Hai].
  - exists i, b, t, d. by rewrite (list_lookup_insert_ne ts i b) by done.
  - exists i, a, t, c. by rewrite (list_lookup_insert_ne ts i a) by done.
Qed.

(** ** Where keys lead *)

Lemma fits_child ts x k : wf (Branch ts) -> tkey (x :: k) ->
  0 <= x /\ exists c, ts !! Z.to_nat x = Some c /\ fits c k.
Proof.
  intros H Hk. pose proof (tkey_range _ _ Hk). split; [lia|]. inversion H as [| |ts' Hl H1 H2 _ E]; subst ts'.
  destruct (lookup_lt_is_Some_2 ts (Z.to_nat x)) as [c Hc]; [lia|]. exists c. split; [done|].
  rewrite tkey_cons in Hk. destruct Hk as [[-> ->]|[Hx Hk]].
  - destruct (H2 c Hc) as [->|Hv]; [left; auto|right; left; auto].
  - destruct (decide (c = E)) as [->|Hne]; [left; auto|]. right; right. split; [done|].
    unfold nibble_ok in Hx. apply (H1 (Z.to_nat x)); [done|lia|done].
Qed.

Lemma fits_ext p c k : wf (Ext p c) -> tkey (p ++ k) -> fits c k.
Proof.
  intros H Hk. inversion H as [p' v Hp Hv|p' ts Hp _ Hb|]; subst.
  - apply (tkey_prefix _ _ Hp) in Hk. right; left. by split; [|exists v].
  - rewrite tkey_app in Hk by done. by right; right.
Qed.

Lemma wf_ext_key p c : wf (Ext p c) -> p <> [].
Proof. inversion 1; subst; [|done]. intros ->. by eapply tkey_nil. Qed.

Lemma fits_key t key : fits t key -> key = [] \/ tkey key.
Proof. intros [[_ ?]|[[? _]|[? _]]]; auto. Qed.

Lemma fits_ne t key : fits t key -> t <> E -> (key = [] /\ exists v, t = Leaf v /\ v <> []) \/ (tkey key /\ wf t).
Proof. intros [[? _]|?]; done. Qed.

(** The value of a key exists in a tree that is not empty. *)
Lemma wf_not_E t : wf t -> t <> E.
Proof. by inversion 1. Qed.

End TrieTree.

(** ** Trie: nodes represent trees

    [rep top n t]: the node [n], with the nodes its hashes stand for in the
    database, is the tree [t].  The cache flags and the hashes may carry
    further promises about the tree ([Marks]); [top] tells the root, whose
    promises are weaker, from the other nodes.  Reading keeps the tree, and
    [insert] and [delete] change it at one key and keep it canonical. *)

Import Common TrieEncoding TrieNode TrieDecode TrieOps TrieTree.

#[local] Open Scope go_scope.

Module TrieRep.

(** ** Loaded nodes *)

Definition loaded (n : node) : Prop :=
  match n with shortNode _ _ _ | fullNode _ _ => True | _ => False end.

Lemma dbind_inr {E A B} (m : result (E + A)) (k : A -> result (E + B)) b :
  dbind m k = Ok (inr b) -> exists a, m = Ok (inr a) /\ k a = Ok (inr b).
Proof. unfold dbind. destruct m as [[e|a]| |]; simpl; intros H; try done. by exists a. Qed.

Lemma on_error_inr {E E' A} (f : E -> E') (m : result (E + A)) a :
  on_error f m = Ok (inr a) <-> m = Ok (inr a).
Proof. unfold on_error. destruct m as [[e|x]| |]; simpl; split; congruence. Qed.

Lemma decodeNode_fuel_loaded fuel g h buf n : decodeNode_fuel fuel g h buf = Ok (inr n) -> loaded n.
Proof.
  destruct fuel as [|fuel]; [done|]. cbn [decodeNode_fuel]. destruct buf as [|b buf]; [done|].
  intros (p & _ & H)%dbind_inr. destruct p as [elems rest].
  apply rbind_Ok_inv in H as (count & _ & H). repeat case_match; try done; apply on_error_inr in H.
  - unfold decodeShort in H. apply dbind_inr in H as ([kbuf r] & _ & H).
    apply rbind_Ok_inv in H as (key & _ & H). case_match; apply dbind_inr in H as ([v r'] & _ & H); by injection H as <-.
  - unfold decodeFull in H. apply dbind_inr in H as ([cs r] & _ & H).
    apply dbind_inr in H as ([v r'] & _ & H). by injection H as <-.
Qed.

(** ** The representation *)

(** What flags and hashes promise about the tree they stand on. *)
Class Marks := {
  flag_ok : bool -> tree -> nodeFlag -> Prop;
  hash_ok : bool -> bytes -> tree -> Prop;
  flag_new b t g : flag_ok b t {| hash := None; gen := g; dirty := true |};
  flag_gen b t g f : flag_ok b t f -> flag_ok b t (set_gen g f)
}.

(** No promises. *)
#[export, refine] Instance no_marks : Marks | 10 :=
  {| flag_ok _ _ _ := True; hash_ok _ _ _ := True |}.
Proof. all: done. Defined.

Section Rep.
Context {M : Marks} (Node : Hash -> option bytes).

Inductive rep : bool -> node -> tree -> Prop :=
| rep_nil b : rep b nilNode E
| rep_value b v : rep b (valueNode v) (Leaf v)
| rep_short b k c f t : rep false c t -> flag_ok b (Ext k t) f -> rep b (shortNode k c f) (Ext k t)
| rep_full b cs f ts :
    length cs = length ts ->
    (forall i c t, cs !! i = Some c -> ts !! i = Some t -> rep false c t) ->
    flag_ok b (Branch ts) f -> rep b (fullNode cs f) (Branch ts)
| rep_hash b h enc dec t :
    Node (BytesToHash h) = Some enc ->
    (forall g, decodeNode (Some h) enc g = Ok (inr (dec g))) ->
    (forall g, rep b (dec g) t) ->
    hash_ok b h t ->
    rep b (hashNode h) t.

Definition is_hash (n : node) : bool := match n with hashNode _ => true | _ => false end.

Lemma rep_loaded b h t : rep b (hashNode h) t -> forall g pre, exists n,
  resolveHash Node g h pre = Ok (inr n) /\ loaded n /\ rep b n t.
Proof.
  inversion 1 as [| | | |b' h' enc dec t' E1 E2 E3 E4]; subst. intros g pre. exists (dec g).
  unfold resolveHash, mustDecodeNode. rewrite E1, E2. split; [done|].
  split; [eapply decodeNode_fuel_loaded; apply E2|done].
Qed.

Lemma rep_E b n : rep b n E -> n = nilNode.
Proof.
  inversion 1 as [| | | |b' h enc dec t E1 E2 E3 E4]; subst; [done|].
  pose proof (decodeNode_fuel_loaded _ _ _ _ _ (E2 0)) as Hl. specialize (E3 0).
  destruct (dec 0); try done; inversion E3.
Qed.

Lemma rep_Leaf b n v : rep b n (Leaf v) -> n = valueNode v.
Proof.
  inversion 1 as [| | | |b' h enc dec t E1 E2 E3 E4]; subst; [done|].
  pose proof (decodeNode_fuel_loaded _ _ _ _ _ (E2 0)) as Hl. specialize (E3 0).
  destruct (dec 0); try done; inversion E3.
Qed.

Lemma rep_nil_inv b t : rep b nilNode t -> t = E.
Proof. by inversion 1. Qed.

Lemma rep_value_inv b v t : rep b (valueNode v) t -> t = Leaf v.
Proof. by inversion 1. Qed.

Lemma rep_short_inv b k c f t : rep b (shortNode k c f) t ->
  exists u, t = Ext k u /\ rep false c u /\ flag_ok b t f.
Proof. inversion 1; subst. eauto. Qed.

(** The children of a full node. *)
Definition reps (cs : list node) (ts : list tree) : Prop :=
  length cs = length ts /\ forall i c t, cs !! i = Some c -> ts !! i = Some t -> rep false c t.

Lemma rep_full_inv b cs f t : rep b (fullNode cs f) t ->
  exists ts, t = Branch ts /\ reps cs ts /\ flag_ok b t f.
Proof. inversion 1; subst. unfold reps. eauto 7. Qed.

Lemma rep_branch b cs ts f : reps cs ts -> flag_ok b (Branch ts) f -> rep b (fullNode cs f) (Branch ts).
Proof. intros [Hl Hr] Hf. by constructor. Qed.

Lemma reps_empty n : reps (replicate n nilNode) (replicate n E).
Proof.
  split; [by rewrite !length_replicate|]. intros i c t [-> _]%lookup_replicate [-> _]%lookup_replicate. constructor.
Qed.

Lemma reps_insert cs ts i c t : reps cs ts -> rep false c t -> reps (<[i := c]> cs) (<[i := t]> ts).
Proof.
  intros [Hl Hr] Hc. split; [by rewrite !length_insert|]. intros j d u Hd Hu.
  apply list_lookup_insert_Some in Hd as [(-> & -> & _)|[Hne Hd]];
    apply list_lookup_insert_Some in Hu as [(He & -> & _)|[Hne' Hu]]; try done. by eapply Hr.
Qed.

(** A child and the tree it represents. *)
Lemma reps_child cs ts x t : reps cs ts -> 0 <= x -> ts !! Z.to_nat x = Some t ->
  exists c, index cs x = Ok c /\ rep false c t /\ (Z.to_nat x < length cs)%nat.
Proof.
  intros [Hl Hr] Hx Ht. pose proof (lookup_lt_Some _ _ _ Ht) as Hlt.
  destruct (lookup_lt_is_Some_2 cs (Z.to_nat x)) as [c Hc]; [lia|]. exists c.
  split; [by apply index_nat|]. split; [by eapply Hr|lia].
Qed.

End Rep.

End TrieRep.
