(* ===== verification/TrieSpec.v ===== *)
(** * Trie: reading, inserting and deleting

    On a node that represents a canonical tree [tryGet] returns what the tree
    holds, [insert] and [delete] return a node of the tree changed at the key,
    again canonical; none of them panics, and the fuel suffices. *)

From Stdlib Require Import Lia.
From stdpp Require Import base numbers list gmap.
From S2P Require Import Prelude BigInt Types TrieEncoding TrieNode TrieOps TrieRep.
Import Common TrieEncoding TrieNode TrieDecode TrieOps TrieTree TrieRep.

#[local] Open Scope Z_scope.
#[local] Open Scope go_scope.

Module TrieSpec.

Section Spec.
Context {M : Marks} (Node : Hash -> option bytes) (g : Z).

(** Steps a key of this length needs from this node on. *)
Definition cost (n : node) (key : bytes) : nat := 2 * length key + (if is_hash n then 2 else 1).

Lemma cost_loaded h n key : loaded n -> cost (hashNode h) key = S (cost n key).
Proof. unfold cost. destruct n; simpl; (done || lia). Qed.

Lemma cost_child n c x key fuel : is_hash n = false -> (cost n (x :: key) <= S fuel)%nat -> (cost c key <= fuel)%nat.
Proof. unfold cost. intros ->. destruct (is_hash c); simpl; lia. Qed.

Lemma cost_app n c p key fuel : is_hash n = false -> p <> [] -> (cost n (p ++ key) <= S fuel)%nat ->
  (cost c key <= fuel)%nat.
Proof.
  intros Hn Hp. destruct p as [|x p]; [done|]. unfold cost. rewrite Hn, <-app_comm_cons. simpl. rewrite length_app.
  destruct (is_hash c); lia.
Qed.

(** ** [tryGet] *)

Definition get_ok (fuel : nat) (key : bytes) : Prop := forall n t pos b,
  rep Node b n t -> fits t (drop pos key) -> (pos <= length key)%nat -> (cost n (drop pos key) <= fuel)%nat ->
  exists n' r, tryGet Node g fuel n key pos = Ok (look t (drop pos key), n', r, None) /\ rep Node b n' t.

Lemma get_ext fuel key k c f u pos b : get_ok fuel key -> rep Node false c u -> flag_ok b (Ext k u) f ->
  wf (Ext k u) -> tkey (drop pos key) -> (pos <= length key)%nat ->
  (cost (shortNode k c f) (drop pos key) <= S fuel)%nat ->
  exists n' r, tryGet Node g (S fuel) (shortNode k c f) key pos = Ok (look (Ext k u) (drop pos key), n', r, None) /\
    rep Node b n' (Ext k u).
Proof.
  intros IH Hu Hfl Hw Hk Hp Hc. cbn [tryGet]. destruct (look_Ext_cases k u (drop pos key)) as [(k' & Ek & ->)|[Hno ->]].
  - pose proof (f_equal length Ek) as El. rewrite length_drop, length_app in El. pose proof (wf_ext_key _ _ Hw) as Hne.
    rewrite bool_decide_false by (unfold len; lia). rewrite Ek, take_app_length, bool_decide_true by done. cbn [orb negb].
    assert (drop (pos + length k) key = k') as Ek' by (by rewrite <-drop_drop, Ek, drop_app_length).
    rewrite Ek in Hk, Hc. destruct (IH c u (pos + length k)%nat false) as (n' & r & -> & Hn').
    + done.
    + rewrite Ek'. by eapply fits_ext.
    + destruct k; [done|]. simpl in *. lia.
    + rewrite Ek'. by apply (cost_app (shortNode k c f) c k).
    + cbn [rbind]. rewrite Ek'. eexists _, _. split; [done|].
      destruct (succeeded r None); constructor; try done. by apply flag_gen.
  - assert ((bool_decide (len key - Z.of_nat pos < len k) || negb (bool_decide (k = take (length k) (drop pos key)))) = true) as ->.
    { apply orb_true_iff. right. apply negb_true_iff, bool_decide_eq_false. intros E.
      apply (Hno (drop (length k) (drop pos key))). rewrite E at 1. by rewrite take_drop. }
    eexists _, _. split; [done|]. by constructor.
Qed.

Lemma get_full fuel key cs ts f pos b : get_ok fuel key -> reps Node cs ts -> flag_ok b (Branch ts) f ->
  wf (Branch ts) -> tkey (drop pos key) -> (cost (fullNode cs f) (drop pos key) <= S fuel)%nat ->
  exists n' r, tryGet Node g (S fuel) (fullNode cs f) key pos = Ok (look (Branch ts) (drop pos key), n', r, None) /\
    rep Node b n' (Branch ts).
Proof.
  intros IH Hcs Hfl Hw Hk Hc. cbn [tryGet]. destruct (drop pos key) as [|x k'] eqn:Ek; [by apply tkey_nil in Hk|].
  assert (key !! pos = Some x) as Ex by (rewrite <-(Nat.add_0_r pos), <-lookup_drop, Ek; done).
  assert (drop (pos + 1) key = k') as Ek' by (by rewrite <-drop_drop, Ek).
  rewrite (index_nat key (Z.of_nat pos) x) by (rewrite ?Nat2Z.id; (done || lia)). cbn [rbind].
  destruct (fits_child _ _ _ Hw Hk) as (Hx & u & Hu & Hfu).
  destruct (reps_child _ cs ts x u Hcs Hx Hu) as (c & -> & Hrc & Hlt). cbn [rbind].
  destruct (IH c u (pos + 1)%nat false) as (n' & r & -> & Hn').
  - done.
  - by rewrite Ek'.
  - apply lookup_lt_Some in Ex. lia.
  - rewrite Ek'. by apply (cost_child (fullNode cs f) c x).
  - cbn [rbind]. rewrite update_nat by done. cbn [rbind]. rewrite Ek', (look_child ts x k' u) by done.
    eexists _, _. split; [done|]. destruct (succeeded r None); [|by apply rep_branch].
    apply rep_branch; [|by apply flag_gen]. rewrite <-(list_insert_id ts (Z.to_nat x) u Hu). by apply reps_insert.
Qed.

Lemma tryGet_spec fuel key : get_ok fuel key.
Proof.
  induction fuel as [|fuel IH]; intros n t pos b Hr Hf Hp Hc; [unfold cost in Hc; destruct (is_hash n); lia|].
  destruct n as [|v|h|k c f|cs f].
  - apply rep_nil_inv in Hr as ->. eexists _, _. split; [done|constructor].
  - apply rep_value_inv in Hr as ->. destruct Hf as [[? _]|[[-> _]|[_ Hw]]]; [done| |inversion Hw].
    eexists _, _. split; [done|constructor].
  - cbn [tryGet]. destruct (rep_loaded _ _ _ _ Hr g (take pos key)) as (m & -> & Hm & Hrm). cbn [rbind].
    rewrite (cost_loaded h m) in Hc by done.
    destruct (IH m t pos b) as (n' & r & -> & Hn'); [done|done|done|lia|]. cbn [rbind]. by eexists _, _.
  - apply rep_short_inv in Hr as (u & -> & Hu & Hfl).
    destruct (fits_ne _ _ Hf) as [[_ (v & ? & _)]|[Hk Hw]]; [done..|]. by apply get_ext.
  - apply rep_full_inv in Hr as (ts & -> & Hcs & Hfl).
    destruct (fits_ne _ _ Hf) as [[_ (v & ? & _)]|[Hk Hw]]; [done..|]. by apply get_full.
Qed.

(** ** [insert] *)

(** The tree changed at one key. *)
Definition sets (t t' : tree) (key : bytes) (v : option bytes) : Prop :=
  forall k, look t' k = if decide (k = key) then v else look t k.

Lemma insert_nil fuel pre key value : (1 <= fuel)%nat ->
  insert Node g fuel nilNode pre key value =
  Ok (true, match key with [] => value | _ => shortNode key value (newFlag g) end, None).
Proof. destruct fuel; [lia|]. by destruct key. Qed.

(** The tree of a value or a branch put at a key of its own. *)
Definition put (key : bytes) (t : tree) : tree := match key with [] => t | _ => Ext key t end.

Lemma rep_put key n t : rep Node false n t ->
  rep Node false (match key with [] => n | _ => shortNode key n (newFlag g) end) (put key t).
Proof. intros H. destruct key; [done|]. constructor; [done|apply flag_new]. Qed.

Lemma look_put p t k : look (put p t) k = look (Ext p t) k.
Proof. destruct p; [|done]. simpl. by rewrite drop_0. Qed.

Lemma put_not_E p t : t <> E -> put p t <> E.
Proof. by destruct p. Qed.

(** Two trees under different nibbles. *)
Definition fork (x y : Z) (a b : tree) : tree :=
  Branch (<[Z.to_nat y := b]> (<[Z.to_nat x := a]> (replicate 17 E))).

Lemma look_empty k : look (Branch (replicate 17 E)) k = None.
Proof.
  destruct k as [|x k]; [done|]. rewrite look_Branch. unfold index. destruct (0 <=? x); [|done].
  destruct (replicate 17 E !! Z.to_nat x) eqn:H; [|done]. apply lookup_replicate in H as [-> _]. done.
Qed.

Lemma look_fork x y a b k : 0 <= x <= 16 -> 0 <= y <= 16 ->
  look (fork x y a b) k =
  match k with
  | z :: k' => if decide (z = y) then look b k' else if decide (z = x) then look a k' else None
  | [] => None
  end.
Proof.
  intros Hx Hy. unfold fork. rewrite look_insert by (rewrite ?length_insert, ?length_replicate; lia).
  destruct k as [|z k]; [done|]. destruct (decide (z = y)); [done|].
  rewrite look_insert by (rewrite ?length_replicate; lia). destruct (decide (z = x)); [done|]. apply look_empty.
Qed.

(** What stands at a nibble or at the terminator. *)
Definition slot (x : Z) (t : tree) : Prop :=
  if decide (x = 16) then exists v, t = Leaf v /\ v <> [] else wf t.

Lemma slot_not_E x t : slot x t -> t <> E.
Proof. unfold slot. destruct (decide (x = 16)); [by intros (v & -> & _)|apply wf_not_E]. Qed.

Lemma wf_fork x y a b : 0 <= x <= 16 -> 0 <= y <= 16 -> x <> y -> slot x a -> slot y b -> wf (fork x y a b).
Proof.
  intros Hx Hy Hne Ha Hb. unfold fork. set (ts := <[Z.to_nat y := b]> _).
  assert (ts !! Z.to_nat y = Some b) as Ey by (apply list_lookup_insert_eq; rewrite length_insert, length_replicate; lia).
  assert (ts !! Z.to_nat x = Some a) as Ex.
  { unfold ts. rewrite list_lookup_insert_ne by lia. apply list_lookup_insert_eq. rewrite length_replicate. lia. }
  assert (forall i c, ts !! i = Some c -> c <> E -> (i = Z.to_nat y /\ c = b) \/ (i = Z.to_nat x /\ c = a)) as Hts.
  { intros i c Hc HE. destruct (decide (i = Z.to_nat y)) as [->|H1]; [left; split; congruence|].
    destruct (decide (i = Z.to_nat x)) as [->|H2]; [right; split; congruence|].
    unfold ts in Hc. rewrite !list_lookup_insert_ne in Hc by done. apply lookup_replicate in Hc as [-> _]. done. }
  constructor.
  - unfold ts. by rewrite !length_insert, length_replicate.
  - intros i c Hc Hi HE. destruct (Hts i c Hc HE) as [[-> ->]|[-> ->]]; unfold slot in *; rewrite decide_False in * by lia; done.
  - intros c Hc. destruct (decide (c = E)) as [|HE]; [by left|]. right.
    destruct (Hts _ c Hc HE) as [[Hi ->]|[Hi ->]]; unfold slot in *; rewrite decide_True in * by lia; done.
  - exists (Z.to_nat x), (Z.to_nat y), a, b. split; [lia|]. split; [done|]. split; [done|].
    split; by eapply slot_not_E.
Qed.

(** A key or the rest of an extension, behind its first nibble. *)
Lemma slot_put_leaf x k v : tkey (x :: k) -> v <> [] -> slot x (put k (Leaf v)).
Proof.
  rewrite tkey_cons. unfold slot. intros [[-> ->]|[Hx Hk]] Hv; [rewrite decide_True by done; by exists v|].
  unfold nibble_ok in Hx. rewrite decide_False by lia. destruct k; [by apply tkey_nil in Hk|by constructor].
Qed.

Lemma slot_put_branch x k ts : nibble_ok x -> nibbles_ok k -> wf (Branch ts) -> slot x (put k (Branch ts)).
Proof.
  unfold slot, nibble_ok. intros Hx Hk Hw. rewrite decide_False by lia. destruct k; [done|]. by constructor.
Qed.

Lemma slot_rest p x k c : wf (Ext (p ++ x :: k) c) -> 0 <= x <= 16 /\ slot x (put k c) /\ (x <> 16 \/ k = []).
Proof.
  inversion 1 as [k' v Hk Hv|k' ts Hk _ Hb|]; subst.
  - assert (tkey (x :: k)) as Hx.
    { destruct Hk as (l & E & Hl). destruct (decide (length p <= length l)%nat) as [Hle|Hgt].
      - assert (p = take (length p) l) as Ep.
        { apply (f_equal (take (length p))) in E. rewrite take_app_length, take_app_le in E by done. done. }
        rewrite <-(take_drop (length p) l), <-Ep, <-app_assoc in E. apply app_inv_head in E.
        rewrite E. exists (drop (length p) l). split; [done|]. by apply Forall_drop.
      - apply (f_equal length) in E. rewrite !length_app in E. simpl in E. lia. }
    split; [by eapply tkey_range|]. split; [by apply slot_put_leaf|].
    rewrite tkey_cons in Hx. unfold nibble_ok in Hx. destruct Hx as [[-> ->]|[? _]]; [by right|left; lia].
  - apply Forall_app in Hk as [_ Hk]. apply Forall_cons in Hk as [Hx Hk]. pose proof Hx as Hx'. unfold nibble_ok in Hx'.
    split; [lia|]. split; [by apply slot_put_branch|left; lia].
Qed.

(** How a key and the key of an extension differ. *)
Lemma prefixLen_cases key p :
  (exists k', key = p ++ k' /\ prefixLen key p = length p) \/
  (exists q x a y b, key = q ++ x :: a /\ p = q ++ y :: b /\ x <> y /\ prefixLen key p = length q) \/
  (exists y b, p = key ++ y :: b /\ prefixLen key p = length key).
Proof.
  revert p. induction key as [|x key IH]; intros [|y p]; simpl.
  - left. by exists [].
  - right; right. by exists y, p.
  - left. by exists (x :: key).
  - destruct (Z.eqb_spec x y) as [->|Hne].
    + destruct (IH p) as [(k' & -> & ->)|[(q & x' & a & y' & b & -> & -> & H & ->)|(y' & b & -> & ->)]].
      * left. by exists k'.
      * right; left. by exists (y :: q), x', a, y', b.
      * right; right. by exists y', b.
    + right; left. by exists [], x, key, y, p.
Qed.

Lemma tkey_init q x a : tkey (q ++ x :: a) -> nibbles_ok q /\ tkey (x :: a).
Proof.
  induction q as [|y q IH]; [by split; [constructor|]|]. rewrite <-app_comm_cons, tkey_cons.
  intros [[_ H]|[Hy H]]; [by destruct q|]. destruct (IH H). split; [by constructor|done].
Qed.

(** A whole key does not end inside an extension. *)
Lemma ext_not_longer key y b c : tkey key -> wf (Ext (key ++ y :: b) c) -> False.
Proof.
  intros Hk. inversion 1 as [k' v Hk' Hv|k' ts Hk' _ Hb|]; subst.
  - by apply (tkey_prefix _ _ Hk) in Hk'.
  - destruct Hk as (l & -> & _). apply Forall_app in Hk' as [Hk' _]. apply Forall_app in Hk' as [_ Hk'].
    apply Forall_cons in Hk' as [Hk' _]. unfold nibble_ok in Hk'. lia.
Qed.

Lemma look_Leaf_at p v k : look (Ext p (Leaf v)) k = if decide (k = p) then Some v else None.
Proof.
  destruct (look_Ext_cases p (Leaf v) k) as [(k' & -> & ->)|[H ->]].
  - destruct k' as [|x k']; simpl; [by rewrite app_nil_r, decide_True|].
    rewrite decide_False; [done|]. intros E. apply (f_equal length) in E. rewrite length_app in E. simpl in E. lia.
  - rewrite decide_False; [done|]. intros ->. apply (H []). by rewrite app_nil_r.
Qed.

Lemma look_Ext_cons y p t k : look (Ext (y :: p) t) k =
  match k with z :: k' => if decide (z = y) then look (Ext p t) k' else None | [] => None end.
Proof.
  destruct k as [|z k]; [done|]. destruct (decide (z = y)) as [->|Hne].
  - simpl. destruct (decide (take (length p) k = p)) as [E|H]; [by rewrite decide_True by congruence|].
    rewrite decide_False; [done|]. intros [=]. done.
  - apply look_Ext_None. intros k' [=]. done.
Qed.

Lemma sets_ext p t t' key v : sets t t' key v -> sets (Ext p t) (Ext p t') (p ++ key) v.
Proof.
  intros H k. destruct (look_Ext_cases p t k) as [(k' & -> & ->)|[Hno ->]].
  - rewrite look_Ext, H. destruct (decide (k' = key)) as [->|Hne]; [by rewrite decide_True|].
    rewrite decide_False; [done|]. intros E. by apply app_inv_head in E.
  - rewrite decide_False by (intros ->; by eapply Hno). by apply look_Ext_None.
Qed.

Lemma sets_child ts x u u' key v : 0 <= x -> ts !! Z.to_nat x = Some u -> sets u u' key v ->
  sets (Branch ts) (Branch (<[Z.to_nat x := u']> ts)) (x :: key) v.
Proof.
  intros Hx Hu H k. pose proof (lookup_lt_Some _ _ _ Hu). rewrite look_insert by done.
  destruct k as [|y k]; [by rewrite decide_False|]. destruct (decide (y = x)) as [->|Hne].
  - rewrite H, (look_child ts x k u) by done. destruct (decide (k = key)) as [->|Hk]; [by rewrite decide_True|].
    rewrite decide_False; [done|congruence].
  - rewrite decide_False; [done|congruence].
Qed.

Lemma sets_split q x a y b u v : x <> y -> 0 <= x <= 16 -> 0 <= y <= 16 ->
  sets (Ext (q ++ y :: b) u) (put q (fork y x (put b u) (put a (Leaf v)))) (q ++ x :: a) (Some v).
Proof.
  intros Hne Hx Hy k. rewrite look_put, look_Ext_Ext.
  destruct (look_Ext_cases q (Ext (y :: b) u) k) as [(k' & -> & ->)|[Hno ->]].
  - rewrite look_Ext, look_fork, look_Ext_cons by lia. destruct k' as [|z k2].
    + rewrite decide_False; [done|]. intros E. apply app_inv_head in E. done.
    + destruct (decide (z = x)) as [->|Hzx].
      * rewrite look_put, look_Leaf_at. destruct (decide (k2 = a)) as [->|Ha]; [by rewrite decide_True|].
        rewrite !decide_False; [done|done|]. intros E. apply app_inv_head in E. congruence.
      * rewrite (decide_False (P := q ++ z :: k2 = _)); [|intros E; apply app_inv_head in E; congruence].
        destruct (decide (z = y)); [by rewrite look_put|done].
  - rewrite decide_False by (intros ->; by eapply Hno). by apply look_Ext_None.
Qed.

(** Putting a tree in the place of a child. *)
Lemma wf_update ts x u k : wf (Branch ts) -> tkey (x :: k) -> fits u k -> u <> E ->
  wf (Branch (<[Z.to_nat x := u]> ts)).
Proof.
  intros Hw Hk Hu HE. pose proof (tkey_range _ _ Hk) as Hx. inversion Hw as [| |ts' Hl H1 H2 H3]; subst ts'.
  assert (<[Z.to_nat x := u]> ts !! Z.to_nat x = Some u) as Ex by (apply list_lookup_insert_eq; lia).
  rewrite tkey_cons in Hk. destruct (fits_ne _ _ Hu HE) as [[-> (v & -> & Hv)]|[Hk' Hwu]].
  - destruct Hk as [[-> _]|[_ Hk]]; [|by apply tkey_nil in Hk].
    constructor; [by rewrite length_insert| | |by apply two_insert; [lia|..]].
    + intros i c Hc Hi. rewrite list_lookup_insert_ne in Hc by lia. by eapply H1.
    + intros c Hc. assert (Some (Leaf v) = Some c) as [= <-] by (rewrite <-Ex; exact Hc). right. by exists v.
  - destruct Hk as [[_ ->]|[Hn _]]; [by apply tkey_nil in Hk'|]. unfold nibble_ok in Hn.
    constructor; [by rewrite length_insert| | |by apply two_insert; [lia|..]].
    + intros i c Hc Hi. destruct (decide (i = Z.to_nat x)) as [->|Hne]; [rewrite Ex in Hc; by injection Hc as <-|].
      rewrite list_lookup_insert_ne in Hc by done. by eapply H1.
    + intros c Hc. rewrite list_lookup_insert_ne in Hc by lia. by apply H2.
Qed.

Definition is_branch (t : tree) : Prop := match t with Branch _ => True | _ => False end.

(** [insert] puts the value at the key. *)
Definition inserted (b : bool) (t : tree) (key v : bytes) (r : result changed) : Prop :=
  exists d n' t', r = Ok (d, n', None) /\ rep Node b n' t' /\ fits t' key /\ t' <> E /\
    sets t t' key (Some v) /\ (d = false -> t' = t) /\ (is_branch t -> is_branch t').

Lemma insert_split fuel b u f pre q x a y c v w nkey key : key = q ++ x :: a -> nkey = q ++ y :: c -> x <> y ->
  prefixLen key nkey = length q -> rep Node false u w -> wf (Ext nkey w) -> tkey key -> v <> [] ->
  (1 <= fuel)%nat ->
  inserted b (Ext nkey w) key v (insert Node g (S fuel) (shortNode nkey u f) pre key (valueNode v)).
Proof.
  intros Ek En Hne Hpl Hu Hw Hk Hv Hf.
  assert (match key with [] => False | _ => True end) as Hnn by (destruct key; [by apply tkey_nil in Hk|done]).
  rewrite En in Hw. destruct (slot_rest _ _ _ _ Hw) as (Hy & Hsy & _).
  pose proof Hk as Hk'. rewrite Ek in Hk'. destruct (tkey_init _ _ _ Hk') as [Hq Hxa].
  pose proof (tkey_range _ _ Hxa) as Hx. pose proof (slot_put_leaf _ _ _ Hxa Hv) as Hsx.
  assert (forall p (z : Z) l, index (p ++ z :: l) (Z.of_nat (length p)) = Ok z) as Hidx.
  { intros p z l. apply index_nat; [lia|]. rewrite Nat2Z.id, lookup_app_r by lia. by rewrite Nat.sub_diag. }
  assert (forall p (z : Z) l, drop (length p + 1) (p ++ z :: l) = l) as Hdrop.
  { intros p z l. by rewrite <-drop_drop, drop_app_length. }
  exists true. cbn [insert]. destruct key as [|k0 k1] eqn:Ekey; [done|]. rewrite <-Ekey in *. clear Hnn.
  rewrite Hpl, (proj2 (Nat.eqb_neq (length q) (length nkey))) by (rewrite En, length_app; simpl; lia).
  rewrite En, Hidx, Hdrop. cbn [rbind]. rewrite insert_nil by done. cbn [rbind].
  rewrite update_nat by (rewrite ?length_replicate; lia). cbn [rbind].
  rewrite Ek, Hidx, Hdrop. cbn [rbind]. rewrite insert_nil by done. cbn [rbind].
  rewrite update_nat by (rewrite ?length_insert, ?length_replicate; lia). cbn [rbind].
  rewrite take_app_length. set (T := fork y x (put c w) (put a (Leaf v))).
  assert (wf T) as HT by (apply wf_fork; (done || lia)).
  assert (reps Node (<[Z.to_nat x := match a with [] => valueNode v | _ => shortNode a (valueNode v) (newFlag g) end]>
    (<[Z.to_nat y := match c with [] => u | _ => shortNode c u (newFlag g) end]> (replicate 17 nilNode)))
    (<[Z.to_nat x := put a (Leaf v)]> (<[Z.to_nat y := put c w]> (replicate 17 E)))) as HR.
  { apply reps_insert; [|apply rep_put; constructor]. apply reps_insert; [|by apply rep_put]. apply reps_empty. }
  assert (fits (put q T) key /\ put q T <> E) as [HF HE].
  { split; [|by apply put_not_E]. right; right. split; [done|]. destruct q; [done|]. by constructor. }
  match type of HR with reps _ ?B _ => set (br := fullNode B (newFlag g)) end.
  exists (if (length q =? 0)%nat then br else shortNode q br (newFlag g)), (put q T).
  split; [by destruct q|]. rewrite <-Ek. split; [|split; [done|split; [done|split; [|by split]]]].
  - destruct q as [|q0 q]; cbn [length Nat.eqb put]; [|constructor; [|apply flag_new]];
      (apply rep_branch; [done|apply flag_new]).
  - rewrite Ek. by apply sets_split.
Qed.

Definition insert_ok (fuel : nat) (v : bytes) : Prop := forall n t pre key b,
  rep Node b n t -> fits t key -> v <> [] -> (cost n key <= fuel)%nat ->
  inserted b t key v (insert Node g fuel n pre key (valueNode v)).

Lemma insert_at_end fuel n t pre v b : rep Node b n t -> fits t [] -> v <> [] ->
  inserted b t [] v (insert Node g (S fuel) n pre [] (valueNode v)).
Proof.
  intros Hr Hf Hv. assert (fits (Leaf v) []) as Hfv by (right; left; eauto).
  destruct Hf as [[-> _]|[[_ (w & -> & Hw)]|[Hk _]]]; [| |by apply tkey_nil in Hk].
  - apply rep_E in Hr as ->. exists true, (valueNode v), (Leaf v). cbn [insert].
    repeat split; try done; [constructor|]. by intros [|x k].
  - assert (exists d, insert Node g (S fuel) n pre [] (valueNode v) = Ok (d, valueNode v, None) /\ (d = false -> v = w))
      as (d & -> & Hd).
    { cbn [insert]. destruct n; try (by eexists true). apply rep_value_inv in Hr as [= <-].
      eexists. split; [done|]. intros Hb%negb_false_iff. by apply bool_decide_eq_true in Hb. }
    exists d, (valueNode v), (Leaf v). repeat split; try done; [constructor| |intros; f_equal; auto].
    by intros [|x k].
Qed.

(** Below an extension whose key is a prefix of the key. *)
Lemma insert_below fuel nkey u w f pre k' v b : insert_ok fuel v -> rep Node false u w ->
  wf (Ext nkey w) -> tkey (nkey ++ k') -> v <> [] -> flag_ok b (Ext nkey w) f ->
  (cost (shortNode nkey u f) (nkey ++ k') <= S fuel)%nat -> prefixLen (nkey ++ k') nkey = length nkey ->
  inserted b (Ext nkey w) (nkey ++ k') v (insert Node g (S fuel) (shortNode nkey u f) pre (nkey ++ k') (valueNode v)).
Proof.
  intros IH Hu Hw Hk Hv Hfl Hc Hpl. pose proof (wf_ext_key _ _ Hw) as Hnk.
  destruct (IH u w (pre ++ nkey) k' false) as (d & n' & t' & E' & H1 & H2 & H3 & H4 & H5 & H6);
    [done|by eapply fits_ext|done|by apply (cost_app (shortNode nkey u f) u nkey)|].
  assert (insert Node g (S fuel) (shortNode nkey u f) pre (nkey ++ k') (valueNode v) =
    let? (dirty, nn, err) := insert Node g fuel u (pre ++ nkey) k' (valueNode v) in
    match dirty, err with
    | true, None => Ok (true, shortNode nkey nn (newFlag g), None)
    | _, _ => Ok (false, shortNode nkey u f, err)
    end) as ->.
  { cbn [insert]. rewrite Hpl, Nat.eqb_refl, take_app_length, drop_app_length. by destruct nkey. }
  rewrite E'. cbn [rbind]. destruct d.
  - exists true, (shortNode nkey n' (newFlag g)), (Ext nkey t').
    split; [done|]. split; [constructor; [done|apply flag_new]|].
    split; [right; right; split; [done|]|split; [done|split; [by apply sets_ext|by split]]].
    inversion Hw as [p0 v0 Hp Hv0|p0 ts Hp Hp' Hb|]; subst.
    + apply (tkey_prefix _ _ Hp) in Hk as ->. destruct (fits_ne _ _ H2 H3) as [[_ (v1 & -> & Hv1)]|[Hn _]];
        [by constructor|by apply tkey_nil in Hn].
    + specialize (H6 I). destruct t'; try done. constructor; [done|done|].
      by destruct (fits_ne _ _ H2 H3) as [[_ (v1 & ? & _)]|[_ ?]].
  - rewrite (H5 eq_refl) in *. exists false, (shortNode nkey u f), (Ext nkey w).
    split; [done|]. split; [by constructor|]. split; [by right; right|]. split; [done|]. split; [|by split].
    by apply sets_ext.
Qed.

Lemma insert_child fuel cs ts f pre x kr v b : insert_ok fuel v -> reps Node cs ts -> flag_ok b (Branch ts) f ->
  wf (Branch ts) -> tkey (x :: kr) -> v <> [] -> (cost (fullNode cs f) (x :: kr) <= S fuel)%nat ->
  inserted b (Branch ts) (x :: kr) v (insert Node g (S fuel) (fullNode cs f) pre (x :: kr) (valueNode v)).
Proof.
  intros IH Hcs Hfl Hw Hk Hv Hc. destruct (fits_child _ _ _ Hw Hk) as (Hx & u & Hu & Hfu).
  destruct (reps_child _ cs ts x u Hcs Hx Hu) as (c & Ec & Hrc & Hlt).
  destruct (IH c u (pre ++ [x]) kr false) as (d & n' & t' & E' & H1 & H2 & H3 & H4 & H5 & H6);
    [done|done|done|by apply (cost_child (fullNode cs f) c x)|].
  cbn [insert]. rewrite Ec. cbn [rbind]. rewrite E'. cbn [rbind]. destruct d.
  - rewrite update_nat by done. cbn [rbind].
    exists true, (fullNode (<[Z.to_nat x := n']> cs) (newFlag g)), (Branch (<[Z.to_nat x := t']> ts)).
    split; [done|]. split; [apply rep_branch; [by apply reps_insert|apply flag_new]|].
    split; [right; right; split; [done|by eapply wf_update]|]. split; [done|]. split; [by eapply sets_child|by split].
  - rewrite (H5 eq_refl) in *. exists false, (fullNode cs f), (Branch ts).
    split; [done|]. split; [by apply rep_branch|]. split; [by right; right|]. split; [done|]. split; [|by split].
    pose proof (sets_child ts x u u kr (Some v) Hx Hu H4) as Hs. by rewrite list_insert_id in Hs.
Qed.

Lemma insert_spec fuel v : insert_ok fuel v.
Proof.
  induction fuel as [|fuel IH]; intros n t pre key b Hr Hf Hv Hc; [unfold cost in Hc; destruct (is_hash n); lia|].
  destruct (fits_key _ _ Hf) as [->|Hk]; [by apply insert_at_end|].
  destruct n as [|w|h|nkey u f|cs f].
  - apply rep_nil_inv in Hr as ->. exists true, (shortNode key (valueNode v) (newFlag g)), (Ext key (Leaf v)).
    split; [destruct key; [by apply tkey_nil in Hk|done]|]. split; [constructor; [constructor|apply flag_new]|].
    split; [right; right; split; [done|by constructor]|]. split; [done|]. split; [|by split].
    intros k. apply look_Leaf_at.
  - apply rep_value_inv in Hr as ->. destruct Hf as [[? _]|[[-> _]|[_ Hw]]]; [done|by apply tkey_nil in Hk|inversion Hw].
  - destruct (rep_loaded _ _ _ _ Hr g pre) as (m & Em & Hm & Hrm). rewrite (cost_loaded h m) in Hc by done.
    destruct (IH m t pre key b) as (d & n' & t' & E & H1 & H2 & H3 & H4 & H5 & H6); [done|done|done|lia|].
    destruct key as [|k0 kr]; [by apply tkey_nil in Hk|].
    cbn [insert]. rewrite Em. cbn [rbind]. rewrite E. cbn [rbind].
    destruct d; [by exists true, n', t'|]. rewrite (H5 eq_refl) in *. by exists false, m, t.
  - apply rep_short_inv in Hr as (w & -> & Hu & Hfl).
    destruct (fits_ne _ _ Hf) as [[-> _]|[_ Hw]]; [done|by apply tkey_nil in Hk|].
    destruct (prefixLen_cases key nkey) as [(k' & -> & Hpl)|[(q & x & a & y & c & E1 & E2 & Hne & Hpl)|(y & c & -> & _)]].
    + by apply insert_below.
    + eapply insert_split; try done. rewrite E1 in Hc. unfold cost in Hc. rewrite length_app in Hc. simpl in Hc. lia.
    + by eapply ext_not_longer in Hw.
  - apply rep_full_inv in Hr as (ts & -> & Hcs & Hfl).
    destruct (fits_ne _ _ Hf) as [[-> _]|[_ Hw]]; [done|by apply tkey_nil in Hk|].
    destruct key; [by apply tkey_nil in Hk|]. by apply insert_child.
Qed.

(** ** [delete] *)

Definition filled (cs : list node) (j : nat) : Prop := exists c, cs !! j = Some c /\ c <> nilNode.

Lemma filled_cons c cs j : filled (c :: cs) (S j) <-> filled cs j.
Proof. done. Qed.

Lemma filled_0 c cs : filled (c :: cs) 0 <-> c <> nilNode.
Proof. split; [by intros (d & [= <-] & H)|by exists c]. Qed.

(** One child was seen. *)
Lemma remaining_one i pos cs : 0 <= pos ->
  (remaining i pos cs = pos /\ forall j, ~ filled cs j) \/ (remaining i pos cs = -2 /\ exists j, filled cs j).
Proof.
  intros Hp. revert i. induction cs as [|c cs IH]; intros i; [left; split; [done|by intros j (d & ? & _)]|].
  assert (c <> nilNode -> remaining i pos (c :: cs) = -2 /\ exists j, filled (c :: cs) j) as Hne.
  { intros Hc. split; [|exists O; by apply filled_0]. destruct c; simpl; try done; by rewrite (proj2 (Z.eqb_neq pos (-1))) by lia. }
  destruct c; try (right; by apply Hne). simpl. destruct (IH (i + 1)) as [[-> H]|[-> [j H]]].
  - left. split; [done|]. intros [|j] Hj; [by apply filled_0 in Hj|by apply (H j)].
  - right. split; [done|]. by exists (S j).
Qed.

Lemma remaining_spec i cs : 0 <= i ->
  (remaining i (-1) cs = -1 /\ forall j, ~ filled cs j) \/
  (exists j, remaining i (-1) cs = i + Z.of_nat j /\ filled cs j /\ forall j', filled cs j' -> j' = j) \/
  (remaining i (-1) cs = -2 /\ exists j j', j <> j' /\ filled cs j /\ filled cs j').
Proof.
  revert i. induction cs as [|c cs IH]; intros i Hi; [left; split; [done|by intros j (d & ? & _)]|].
  assert (c <> nilNode -> (exists j, remaining i (-1) (c :: cs) = i + Z.of_nat j /\ filled (c :: cs) j /\
      forall j', filled (c :: cs) j' -> j' = j) \/
    (remaining i (-1) (c :: cs) = -2 /\ exists j j', j <> j' /\ filled (c :: cs) j /\ filled (c :: cs) j')) as Hne.
  { intros Hc. assert (remaining i (-1) (c :: cs) = remaining (i + 1) i cs) as -> by (by destruct c).
    destruct (remaining_one (i + 1) i cs Hi) as [[-> H]|[-> [j H]]].
    - left. exists O. split; [lia|]. split; [by apply filled_0|]. intros [|j] Hj; [done|]. by apply H in Hj.
    - right. split; [done|]. exists O, (S j). split; [done|]. split; [by apply filled_0|done]. }
  destruct c; try (right; by apply Hne). simpl.
  destruct (IH (i + 1)) as [[-> H]|[(j & -> & H & Hu)|[-> (j & j' & Hjj & H1 & H2)]]]; [lia|..].
  - left. split; [done|]. intros [|j] Hj; [by apply filled_0 in Hj|by apply (H j)].
  - right; left. exists (S j). split; [lia|]. split; [done|]. intros [|j'] Hj'; [by apply filled_0 in Hj'|].
    f_equal. by apply Hu.
  - right; right. split; [done|]. exists (S j), (S j'). split; [lia|done].
Qed.

Lemma reps_filled cs ts j t : reps Node cs ts -> ts !! j = Some t -> filled cs j <-> t <> E.
Proof.
  intros [Hl Hr] Ht. pose proof (lookup_lt_Some _ _ _ Ht).
  destruct (lookup_lt_is_Some_2 cs j) as [c Hc]; [lia|]. specialize (Hr j c t Hc Ht). split.
  - intros (d & Hd & Hne) ->. apply rep_E in Hr. congruence.
  - intros HE. exists c. split; [done|]. intros ->. by apply rep_nil_inv in Hr.
Qed.

Lemma filled_tree cs ts j : reps Node cs ts -> filled cs j -> exists t, ts !! j = Some t /\ t <> E.
Proof.
  intros Hr Hj. destruct (lookup_lt_is_Some_2 ts j) as [t Ht].
  { destruct Hj as (c & Hc & _). destruct Hr as [<- _]. by eapply lookup_lt_Some. }
  exists t. split; [done|]. by apply (reps_filled cs ts j t Hr Ht).
Qed.

(** A branch with a single child is an extension. *)
Lemma look_single ts j u k : ts !! j = Some u -> (forall i c, ts !! i = Some c -> c <> E -> i = j) ->
  look (Branch ts) k = look (Ext [Z.of_nat j] u) k.
Proof.
  intros Hu H. rewrite look_Ext_cons. destruct k as [|x k]; [done|]. rewrite look_Branch.
  assert (look (Ext [] u) k = look u k) as -> by (simpl; by rewrite drop_0).
  unfold index. destruct (decide (x = Z.of_nat j)) as [->|Hne].
  - rewrite (proj2 (Z.leb_le 0 (Z.of_nat j))), Nat2Z.id, Hu by lia. done.
  - destruct (Z.leb_spec 0 x); [|done]. destruct (ts !! Z.to_nat x) as [c|] eqn:Hc; [|done].
    destruct (decide (c = E)) as [->|HE]; [done|]. apply H in Hc; [lia|done].
Qed.

Lemma resolve_spec c u pre : rep Node false c u -> wf u ->
  exists m, resolve Node g c pre = Ok (inr m) /\ rep Node false m u /\ loaded m.
Proof.
  intros Hr Hw. destruct c as [|v|h|k c f|cs f]; simpl; try (by eexists).
  - apply rep_nil_inv in Hr as ->. inversion Hw.
  - apply rep_value_inv in Hr as ->. inversion Hw.
  - destruct (rep_loaded _ _ _ _ Hr g pre) as (m & -> & Hm & Hrm). by exists m.
Qed.

(** The result of [delete] at a key. *)
Definition deleted (b : bool) (t : tree) (key : bytes) (r : result changed) : Prop :=
  exists d n' t', r = Ok (d, n', None) /\ rep Node b n' t' /\ fits t' key /\ sets t t' key None /\
    (d = false -> t' = t) /\ (is_branch t -> t' <> E) /\ (d = true -> t' = E \/ loaded n').

(** A branch that lost a child. *)
Lemma reduce_spec cs ts pre b : reps Node cs ts -> length ts = 17%nat ->
  (forall i c, ts !! i = Some c -> (i < 16)%nat -> c <> E -> wf c) ->
  (forall c, ts !! 16%nat = Some c -> c = E \/ exists v, c = Leaf v /\ v <> []) ->
  (exists i c, ts !! i = Some c /\ c <> E) ->
  exists n' t', reduce Node g cs pre = Ok (true, n', None) /\ rep Node b n' t' /\ wf t' /\ loaded n' /\
    forall k, look t' k = look (Branch ts) k.
Proof.
  intros Hr Hl H1 H2 (i0 & c0 & Hi0 & Hc0). unfold reduce.
  destruct (remaining_spec 0 cs) as [[_ H]|[(j & -> & Hj & Hu)|[-> (j & j' & Hjj & Hj & Hj')]]]; [lia|..].
  - edestruct H. by eapply (reps_filled cs ts i0 c0).
  - destruct (filled_tree _ _ _ Hr Hj) as (u & Hju & HE). rewrite Z.add_0_l, (proj2 (Z.geb_le (Z.of_nat j) 0)) by lia.
    assert (forall i c, ts !! i = Some c -> c <> E -> i = j) as Hone.
    { intros i c Hc HcE. apply Hu. by eapply reps_filled. }
    destruct (reps_child _ cs ts (Z.of_nat j) u Hr) as (c & -> & Hc & _); [lia|by rewrite Nat2Z.id|]. cbn [rbind].
    pose proof (lookup_lt_Some _ _ _ Hju). destruct (Z.eqb_spec (Z.of_nat j) 16) as [Hj16|Hj16]; cbn [negb].
    + assert (j = 16)%nat as -> by lia. destruct (H2 u Hju) as [->|(v & -> & Hv)]; [done|].
      do 2 eexists. split; [done|]. split; [constructor; [done|apply flag_new]|].
      split; [constructor; [by exists []; split; [|constructor]|done]|]. split; [done|].
      intros k. symmetry. by eapply look_single.
    + assert (wf u) as Hw by (apply (H1 j); [done|lia|done]).
      destruct (resolve_spec c u pre Hc Hw) as (m & -> & Hm & Hlm). cbn [rbind].
      assert (nibble_ok (Z.of_nat j)) as Hn by (unfold nibble_ok; lia).
      destruct m as [| | |ck cv cf|ccs cf]; try done.
      * apply rep_short_inv in Hm as (w & -> & Hw' & _). do 2 eexists. split; [done|].
        split; [constructor; [done|apply flag_new]|]. split; [|split; [done|]].
        -- inversion Hw as [p0 v0 Hp Hv0|p0 us Hp Hp' Hb|]; subst; constructor; try done;
             [apply tkey_cons; by right|by constructor].
        -- intros k. rewrite (look_single ts j (Ext ck w) k) by done. by rewrite <-look_Ext_Ext.
      * apply rep_full_inv in Hm as (us & -> & _). do 2 eexists. split; [done|].
        split; [constructor; [done|apply flag_new]|].
        split; [constructor; [by constructor|done|done]|]. split; [done|].
        intros k. symmetry. by eapply look_single.
  - do 2 eexists. split; [done|]. split; [apply rep_branch; [done|apply flag_new]|]. split; [|done].
    destruct (filled_tree _ _ _ Hr Hj) as (c & Hc & HcE). destruct (filled_tree _ _ _ Hr Hj') as (d & Hd & HdE).
    constructor; [done|done|done|]. by exists j, j', c, d.
Qed.

Lemma sets_none t key : look t key = None -> sets t t key None.
Proof. intros H k. by destruct (decide (k = key)) as [->|]. Qed.

Lemma fits_wf t key : tkey key -> wf t -> fits t key.
Proof. by right; right. Qed.

(** A child is replaced and the branch reduced. *)
Lemma delete_child cs ts x u u' n' kr pre b : wf (Branch ts) -> reps Node cs ts -> tkey (x :: kr) -> 0 <= x ->
  ts !! Z.to_nat x = Some u -> rep Node false n' u' -> fits u' kr -> sets u u' kr None ->
  exists m t', reduce Node g (<[Z.to_nat x := n']> cs) pre = Ok (true, m, None) /\ rep Node b m t' /\
    wf t' /\ loaded m /\ sets (Branch ts) t' (x :: kr) None.
Proof.
  intros Hw Hcs Hk Hx Hu Hr Hf Hs. inversion Hw as [| |ts' Hl H1 H2 H3]; subst ts'.
  assert ((Z.to_nat x < length ts)%nat) as Hlt by (by eapply lookup_lt_Some).
  assert (forall i c, <[Z.to_nat x := u']> ts !! i = Some c -> (i = Z.to_nat x /\ c = u') \/ ts !! i = Some c) as Hget.
  { intros i c Hc. apply list_lookup_insert_Some in Hc as [(-> & -> & _)|[_ Hc]]; auto. }
  destruct (reduce_spec (<[Z.to_nat x := n']> cs) (<[Z.to_nat x := u']> ts) pre b) as (m & t' & E & Hm & Ht & Hlo & Hlk).
  - by apply reps_insert.
  - by rewrite length_insert.
  - intros i c Hc Hi HcE. destruct (Hget i c Hc) as [[-> ->]|Hc']; [|by eapply H1].
    destruct (fits_ne _ _ Hf HcE) as [[-> _]|[_ ?]]; [|done]. apply tkey_cons in Hk as [[-> _]|[_ Hk]]; [lia|by apply tkey_nil in Hk].
  - intros c Hc. destruct (Hget _ c Hc) as [[Hi ->]|Hc']; [|by apply H2].
    assert (x = 16) as -> by lia. apply tkey_cons in Hk as [[_ ->]|[Hn _]]; [|unfold nibble_ok in Hn; lia].
    destruct Hf as [[-> _]|[[_ Hv]|[Hk _]]]; [by left|by right|by apply tkey_nil in Hk].
  - destruct H3 as (i & j & c & d & Hij & Hi & Hj & Hc & Hd). destruct (decide (i = Z.to_nat x)) as [->|Hne].
    + exists j, d. by rewrite list_lookup_insert_ne.
    + exists i, c. by rewrite list_lookup_insert_ne.
  - exists m, t'. repeat split; try done. intros k. rewrite Hlk. by apply (sets_child ts x u u' kr None).
Qed.

(** Removing below an extension merges extensions. *)
Lemma delete_below nkey u k' d n' t' f b : wf (Ext nkey u) -> is_branch u ->
  tkey (nkey ++ k') -> rep Node false n' t' -> fits t' k' -> sets u t' k' None -> t' <> E ->
  (d = true -> t' = E \/ loaded n') -> (d = false -> t' = u) -> flag_ok b (Ext nkey u) f ->
  forall c, rep Node false c u ->
  deleted b (Ext nkey u) (nkey ++ k')
    (match d with
     | true => match n' with
               | shortNode ckey cval _ => Ok (true, shortNode (concat nkey ckey) cval (newFlag g), None)
               | _ => Ok (true, shortNode nkey n' (newFlag g), None)
               end
     | false => Ok (false, shortNode nkey c f, None)
     end).
Proof.
  intros Hw Hbr Hk Hr Hf Hs HE Hlo Hd Hfl c Hc. inversion Hw as [|p0 ts Hp Hp' Hb|]; subst; [done|].
  assert (wf t') as Ht.
  { destruct (fits_ne _ _ Hf HE) as [[-> (v & -> & _)]|[_ ?]]; [|done].
    rewrite app_nil_r in Hk. destruct Hk as (l & -> & _). apply Forall_app in Hp as [_ Hp].
    apply Forall_cons in Hp as [Hp _]. unfold nibble_ok in Hp. lia. }
  destruct d.
  - destruct Hlo as [?|Hlo]; [done|done|]. destruct n' as [| | |ck cv cf|cs cf]; try done.
    + apply rep_short_inv in Hr as (w & -> & Hw' & _). exists true, (shortNode (concat nkey ck) cv (newFlag g)), (Ext (nkey ++ ck) w).
      split; [done|]. split; [constructor; [done|apply flag_new]|].
      split; [apply fits_wf; [done|]|split; [|split; [done|split; [done|by right]]]].
      * inversion Ht as [p0 v0 Hq Hv0|p0 us Hq Hq' Hb'|]; subst; constructor; try done;
          [by apply tkey_app|by apply Forall_app|]. by destruct nkey.
      * intros k. rewrite look_Ext_Ext. by apply sets_ext.
    + apply rep_full_inv in Hr as (us & -> & Hcs & Hfc). exists true, (shortNode nkey (fullNode cs cf) (newFlag g)), (Ext nkey (Branch us)).
      split; [done|]. split; [constructor; [by apply rep_branch|apply flag_new]|].
      split; [apply fits_wf; [done|by constructor]|]. split; [by apply sets_ext|]. split; [done|]. split; [done|by right].
  - rewrite (Hd eq_refl) in *. exists false, (shortNode nkey c f), (Ext nkey (Branch ts)).
    split; [done|]. split; [by constructor|]. split; [by apply fits_wf|]. split; [by apply sets_ext|done].
Qed.

Definition delete_ok (fuel : nat) : Prop := forall n t pre key b,
  rep Node b n t -> fits t key -> (cost n key <= fuel)%nat -> deleted b t key (delete Node g fuel n pre key).

Lemma nibbles_not_tkey k : nibbles_ok k -> ~ tkey k.
Proof.
  intros H (l & -> & _). apply Forall_app in H as [_ H]. apply Forall_cons in H as [H _]. unfold nibble_ok in H. lia.
Qed.

Lemma delete_ext fuel nkey u w f pre key b : delete_ok fuel -> rep Node false u w -> flag_ok b (Ext nkey w) f ->
  wf (Ext nkey w) -> tkey key -> (cost (shortNode nkey u f) key <= S fuel)%nat ->
  deleted b (Ext nkey w) key (delete Node g (S fuel) (shortNode nkey u f) pre key).
Proof.
  intros IH Hu Hfl Hw Hk Hc. cbn [delete].
  destruct (prefixLen_cases key nkey) as [(k' & E & ->)|[(q & x & a & y & c & E1 & E2 & Hne & ->)|(y & c & -> & _)]];
    [| |by eapply ext_not_longer in Hw].
  - rewrite (proj2 (Nat.ltb_ge _ _)) by lia. destruct (Nat.eqb_spec (length nkey) (length key)) as [Hlen|Hlen].
    + assert (k' = []) as -> by (rewrite E, length_app in Hlen; destruct k'; [done|simpl in Hlen; lia]).
      rewrite app_nil_r in E. subst nkey.
      inversion Hw as [p0 v0 Hp Hv0|p0 ts Hp _ Hb|]; subst; [|by apply nibbles_not_tkey in Hp].
      exists true, nilNode, TrieTree.E. repeat split; try done; [constructor|left; auto| |by left].
      intros k. rewrite look_Leaf_at. by destruct (decide (k = key)).
    + rewrite E in Hk, Hc |- *. rewrite take_app_length, drop_app_length.
      assert (is_branch w) as Hbr.
      { inversion Hw as [p0 v0 Hp Hv0|p0 ts Hp _ Hb|]; subst; [|done]. apply (tkey_prefix _ _ Hp) in Hk as ->.
        by rewrite app_nil_r in Hlen. }
      destruct (IH u w (pre ++ nkey) k' false) as (d & n' & t' & -> & H1 & H2 & H3 & H4 & H5 & H6);
        [done|by eapply fits_ext|apply (cost_app (shortNode nkey u f) u nkey); [done|by eapply wf_ext_key|done]|].
      cbn [rbind]. pose proof (delete_below nkey w k' d n' t' f b Hw Hbr Hk H1 H2 H3 (H5 Hbr) H6 H4 Hfl u Hu) as HD.
      destruct d; exact HD.
  - rewrite (proj2 (Nat.ltb_lt _ _)) by (rewrite E2, length_app; simpl; lia).
    exists false, (shortNode nkey u f), (Ext nkey w). repeat split; try done; [by constructor|by apply fits_wf|].
    apply sets_none, look_Ext_None. rewrite E1, E2. intros k'. rewrite <-app_assoc. intros E%app_inv_head. simpl in E. congruence.
Qed.

Lemma delete_full fuel cs ts f pre x kr b : delete_ok fuel -> reps Node cs ts -> flag_ok b (Branch ts) f ->
  wf (Branch ts) -> tkey (x :: kr) -> (cost (fullNode cs f) (x :: kr) <= S fuel)%nat ->
  deleted b (Branch ts) (x :: kr) (delete Node g (S fuel) (fullNode cs f) pre (x :: kr)).
Proof.
  intros IH Hcs Hfl Hw Hk Hc. cbn [delete].
  change (index (x :: kr) 0) with (Ok x). change (drop 1 (x :: kr)) with kr. cbn [rbind].
  destruct (fits_child _ _ _ Hw Hk) as (Hx & u & Hu & Hfu).
  destruct (reps_child _ cs ts x u Hcs Hx Hu) as (c & -> & Hrc & Hlt). cbn [rbind].
  destruct (IH c u (pre ++ [x]) kr false) as (d & n' & t' & -> & H1 & H2 & H3 & H4 & H5 & H6);
    [done|done|by apply (cost_child (fullNode cs f) c x)|]. cbn [rbind]. destruct d.
  - rewrite update_nat by done. cbn [rbind].
    destruct (delete_child cs ts x u t' n' kr pre b) as (m & t2 & -> & Hm & Ht2 & Hlo & Hs); try done.
    exists true, m, t2. split; [done|]. split; [done|]. split; [by apply fits_wf|]. split; [done|]. split; [done|].
    split; [intros _; by apply wf_not_E|by right].
  - rewrite (H4 eq_refl) in *. exists false, (fullNode cs f), (Branch ts).
    split; [done|]. split; [by apply rep_branch|]. split; [by apply fits_wf|]. split; [|done].
    pose proof (sets_child ts x u u kr None Hx Hu H3) as Hs. by rewrite list_insert_id in Hs.
Qed.

Lemma delete_spec fuel : delete_ok fuel.
Proof.
  induction fuel as [|fuel IH]; intros n t pre key b Hr Hf Hc; [unfold cost in Hc; destruct (is_hash n); lia|].
  destruct n as [|v|h|nkey u f|cs f].
  - apply rep_nil_inv in Hr as ->. exists false, nilNode, E. repeat split; try done; [constructor|].
    by apply sets_none.
  - apply rep_value_inv in Hr as ->. destruct Hf as [[? _]|[[-> _]|[_ Hw]]]; [done| |inversion Hw].
    exists true, nilNode, E. repeat split; try done; [constructor|left; auto|by intros [|x k]|by left].
  - cbn [delete]. destruct (rep_loaded _ _ _ _ Hr g pre) as (m & -> & Hm & Hrm). cbn [rbind].
    rewrite (cost_loaded h m) in Hc by done.
    destruct (IH m t pre key b) as (d & n' & t' & -> & H1 & H2 & H3 & H4 & H5 & H6); [done|done|lia|]. cbn [rbind].
    destruct d; [by exists true, n', t'|]. rewrite (H4 eq_refl) in *. by exists false, m, t.
  - apply rep_short_inv in Hr as (w & -> & Hu & Hfl).
    destruct (fits_ne _ _ Hf) as [[_ (v & ? & _)]|[Hk Hw]]; [done..|]. by apply delete_ext.
  - apply rep_full_inv in Hr as (ts & -> & Hcs & Hfl).
    destruct (fits_ne _ _ Hf) as [[_ (v & ? & _)]|[Hk Hw]]; [done..|].
    destruct key; [by apply tkey_nil in Hk|]. by apply delete_full.
Qed.

End Spec.

End TrieSpec.

(** ** Trie: canonical trees are determined by what they hold

    Two canonical trees with the same value under every key are equal, so the
    root hash depends on the contents alone and not on the order of the
    insertions and deletions. *)

Import TrieEncoding TrieTree TrieSpec.

Module TrieCanon.

(** Keys of a canonical tree end with the terminator. *)
Lemma look_tkey t k v : wf t -> look t k = Some v -> tkey k.
Proof.
  intros Hw. revert k. induction Hw as [p w Hp Hv|p ts Hp Hp' Hb IH|ts Hl H1 IH H2 H3]; intros k.
  - rewrite look_Leaf_at. by destruct (decide (k = p)) as [->|].
  - destruct (look_Ext_cases p (Branch ts) k) as [(k' & -> & ->)|[_ ->]]; [|done].
    intros Hk. apply tkey_app; [done|auto].
  - destruct k as [|x k]; [done|]. rewrite look_Branch. unfold index.
    destruct (Z.leb_spec 0 x); [|done]. destruct (ts !! Z.to_nat x) as [c|] eqn:Hc; [|done].
    pose proof (lookup_lt_Some _ _ _ Hc) as Hlt. intros Hk. apply tkey_cons.
    destruct (decide (x = 16)) as [->|Hx].
    + left. destruct (H2 c Hc) as [->|(w & -> & _)]; [done|]. by destruct k.
    + right. split; [unfold nibble_ok; lia|]. eapply (IH (Z.to_nat x)); [done|lia| |done]. by intros ->.
Qed.

(** A canonical tree holds something. *)
Lemma wf_inhabited t : wf t -> exists k v, look t k = Some v.
Proof.
  induction 1 as [p w Hp Hv|p ts Hp Hp' Hb IH|ts Hl H1 IH H2 H3].
  - exists p, w. rewrite look_Leaf_at. by rewrite decide_True.
  - destruct IH as (k & v & Hk). exists (p ++ k), v. by rewrite look_Ext.
  - destruct H3 as (i & _ & c & _ & _ & Hi & _ & Hc & _). pose proof (lookup_lt_Some _ _ _ Hi) as Hlt.
    assert (exists k v, look c k = Some v) as (k & v & Hk).
    { destruct (decide (i = 16)%nat) as [->|]; [|apply (IH i); [done|lia|done]].
      destruct (H2 c Hi) as [?|(w & -> & _)]; [done|]. by exists [], w. }
    exists (Z.of_nat i :: k), v. rewrite (look_child ts (Z.of_nat i) k c) by (rewrite ?Nat2Z.id; (done || lia)). done.
Qed.

(** What stands in a child of a branch holds something too. *)
Lemma child_inhabited ts i c : wf (Branch ts) -> ts !! i = Some c -> c <> E ->
  exists k v, look (Branch ts) (Z.of_nat i :: k) = Some v.
Proof.
  intros Hw Hi Hc. inversion Hw as [| |ts' Hl H1 H2 _]; subst. pose proof (lookup_lt_Some _ _ _ Hi) as Hlt.
  assert (exists k v, look c k = Some v) as (k & v & Hk).
  { destruct (decide (i = 16)%nat) as [->|]; [|apply wf_inhabited, (H1 i); [done|lia|done]].
    destruct (H2 c Hi) as [?|(w & -> & _)]; [done|]. by exists [], w. }
  exists k, v. rewrite (look_child ts (Z.of_nat i) k c) by (rewrite ?Nat2Z.id; (done || lia)). done.
Qed.

(** A branch holds keys with different first nibbles. *)
Lemma branch_forks ts : wf (Branch ts) -> exists x y k l v w, x <> y /\
  look (Branch ts) (x :: k) = Some v /\ look (Branch ts) (y :: l) = Some w.
Proof.
  intros Hw. inversion Hw as [| |ts' Hl H1 H2 (i & j & c & d & Hij & Hi & Hj & Hc & Hd)]; subst.
  destruct (child_inhabited ts i c Hw Hi Hc) as (k & v & Hk). destruct (child_inhabited ts j d Hw Hj Hd) as (l & w & Hl').
  exists (Z.of_nat i), (Z.of_nat j), k, l, v, w. split; [lia|done].
Qed.

(** All keys of an extension begin alike. *)
Lemma ext_prefix p t k v : look (Ext p t) k = Some v -> exists k', k = p ++ k' /\ look t k' = Some v.
Proof. destruct (look_Ext_cases p t k) as [(k' & -> & ->)|[_ ->]]; [|done]. eauto. Qed.

Lemma branch_not_ext ts p u : wf (Branch ts) -> wf (Ext p u) -> (forall k, look (Branch ts) k = look (Ext p u) k) -> False.
Proof.
  intros Hb Hw H. destruct (branch_forks ts Hb) as (x & y & k & l & v & w & Hne & Hx & Hy). rewrite H in Hx, Hy.
  apply ext_prefix in Hx as (k1 & E1 & _). apply ext_prefix in Hy as (k2 & E2 & _).
  pose proof (wf_ext_key _ _ Hw). destruct p as [|z p]; [done|]. simplify_eq/=.
Qed.

(** The key of an extension is the longest common prefix of its keys. *)
Lemma ext_same_key p q ts us : wf (Branch ts) -> wf (Branch us) ->
  (forall k, look (Ext p (Branch ts)) k = look (Ext q (Branch us)) k) -> p = q.
Proof.
  assert (forall p q ts us, wf (Branch ts) -> (forall k, look (Ext p (Branch ts)) k = look (Ext q (Branch us)) k) ->
    exists r, p = q ++ r) as Hpre.
  { clear p q ts us. intros p q ts us Hw H. destruct (branch_forks ts Hw) as (x & y & k & l & v & w & Hne & Hx & Hy).
    rewrite <-(look_Ext p) in Hx, Hy. rewrite H in Hx, Hy.
    apply ext_prefix in Hx as (k1 & E1 & _). apply ext_prefix in Hy as (k2 & E2 & _).
    clear H. revert p E1 E2. induction q as [|z q IH]; intros p E1 E2; [by exists p|].
    destruct p as [|z' p]; simplify_eq/=. destruct (IH p) as [r ->]; [done|done|]. by exists r. }
  intros Ht Hu H. destruct (Hpre p q ts us Ht H) as [r Hr]. destruct (Hpre q p us ts Hu) as [r' Hr']; [done|].
  rewrite Hr, <-app_assoc in Hr'. rewrite <-(app_nil_r q) in Hr' at 1. apply app_inv_head in Hr'.
  symmetry in Hr'. apply app_eq_nil in Hr' as [-> _]. by rewrite app_nil_r in Hr.
Qed.

Theorem canonical t u : wf t -> wf u -> (forall k, look t k = look u k) -> t = u.
Proof.
  intros Ht. revert u. induction Ht as [p w Hp Hv|p ts Hp Hp' Hb IH|ts Hl H1 IH H2 H3]; intros u Hu H.
  - inversion Hu as [q w' Hq Hv'|q us Hq Hq' Hub|us]; subst.
    + pose proof (H p) as E. rewrite !look_Leaf_at, decide_True in E by done.
      destruct (decide (p = q)) as [->|]; [|done]. congruence.
    + exfalso. destruct (branch_forks us Hub) as (x & y & k & l & v & z & Hne & Hx & Hy).
      rewrite <-(look_Ext q), <-H, look_Leaf_at in Hx, Hy.
      destruct (decide (q ++ x :: k = p)) as [<-|]; [|done]. destruct (decide (q ++ y :: l = _)) as [E|]; [|done].
      apply app_inv_head in E. congruence.
    + exfalso. eapply (branch_not_ext us p (Leaf w)); [done|by constructor|done].
  - inversion Hu as [q w' Hq Hv'|q us Hq Hq' Hub|us]; subst.
    + exfalso. destruct (branch_forks ts Hb) as (x & y & k & l & v & z & Hne & Hx & Hy).
      rewrite <-(look_Ext p), H, look_Leaf_at in Hx, Hy.
      destruct (decide (p ++ x :: k = q)) as [<-|]; [|done]. destruct (decide (p ++ y :: l = _)) as [E|]; [|done].
      apply app_inv_head in E. congruence.
    + pose proof (ext_same_key p q ts us Hb Hub H) as ->. f_equal. apply IH; [done|]. intros k.
      by rewrite <-(look_Ext q (Branch ts)), H, look_Ext.
    + exfalso. eapply (branch_not_ext us p (Branch ts)); [done|by constructor|done].
  - assert (wf (Branch ts)) as Ht by (by constructor).
    inversion Hu as [q w' Hq Hv'|q us Hq Hq' Hub|us Hl' H1' H2' H3']; subst.
    + exfalso. eapply (branch_not_ext ts q); done.
    + exfalso. eapply (branch_not_ext ts q); done.
    + f_equal. apply list_eq_same_length with (n := 17%nat); [done|done|]. intros i c d Hi Hc Hd.
      assert (forall k, look c k = look d k) as Hk.
      { intros k. pose proof (H (Z.of_nat i :: k)) as E.
        by rewrite (look_child ts (Z.of_nat i) k c), (look_child us (Z.of_nat i) k d) in E by (rewrite ?Nat2Z.id; (done || lia)). }
      destruct (decide (i = 16)%nat) as [->|Hi16].
      * specialize (Hk []). destruct (H2 c Hc) as [->|(v & -> & _)], (H2' d Hd) as [->|(v' & -> & _)]; simpl in Hk; congruence.
      * destruct (decide (c = E)) as [->|HcE], (decide (d = E)) as [->|HdE]; [done| | |apply (IH i); try done; [lia|apply (H1' i); [done|lia|done]]].
        -- destruct (wf_inhabited d) as (k & v & Hv); [apply (H1' i); [done|lia|done]|]. by rewrite <-Hk in Hv.
        -- destruct (wf_inhabited c) as (k & v & Hv); [apply (H1 i); [done|lia|done]|]. by rewrite Hk in Hv.
Qed.

(** ** Contents *)

(** The tree holds the map: byte keys under their nibbles, and nothing else. *)
Record contents (t : tree) (m : gmap bytes bytes) : Prop := {
  c_shape : t = E \/ wf t;
  c_get key : bytes_ok key -> look t (keybytesToHex key) = m !! key;
  c_keys k v : look t k = Some v -> exists key, bytes_ok key /\ k = keybytesToHex key
}.

Lemma contents_unique t u m : contents t m -> contents u m -> t = u.
Proof.
  intros Ht Hu. assert (forall k, look t k = look u k) as H.
  { assert (forall t u, contents t m -> contents u m -> forall k v, look t k = Some v -> look u k = Some v) as Hle.
    { clear. intros t u Ht Hu k v Hk. destruct (c_keys _ _ Ht k v Hk) as (key & Hb & ->).
      rewrite (c_get _ _ Ht key Hb) in Hk. by rewrite (c_get _ _ Hu key Hb). }
    intros k. destruct (look t k) as [v|] eqn:E; [symmetry; by apply (Hle t u Ht Hu)|].
    destruct (look u k) as [w|] eqn:E'; [|done]. apply (Hle u t Hu Ht) in E'. congruence. }
  destruct (c_shape _ _ Ht) as [->|Hwt], (c_shape _ _ Hu) as [->|Hwu]; [done| | |by apply canonical].
  - destruct (wf_inhabited u Hwu) as (k & v & E). by rewrite <-H in E.
  - destruct (wf_inhabited t Hwt) as (k & v & E). by rewrite H in E.
Qed.

Lemma contents_empty : contents E ∅.
Proof. split; [by left|intros key _; by rewrite lookup_empty|done]. Qed.

(** A change at one key of the tree is one of the map. *)
Lemma contents_sets t t' m key v : contents t m -> bytes_ok key -> t' = E \/ wf t' ->
  sets t t' (keybytesToHex key) v -> contents t' (partial_alter (fun _ => v) key m).
Proof.
  intros Ht Hk Hw Hs. split; [done| |].
  - intros k Hk'. rewrite (Hs (keybytesToHex k)). destruct (decide (k = key)) as [->|Hne].
    + by rewrite lookup_partial_alter_eq, decide_True.
    + rewrite lookup_partial_alter_ne, decide_False; [by apply Ht| |done].
      intros E. by apply keybytesToHex_inj in E.
  - intros k w Hw'. rewrite (Hs k) in Hw'. destruct (decide (k = keybytesToHex key)) as [->|]; [by exists key|].
    by apply (c_keys _ _ Ht k w).
Qed.

End TrieCanon.
