(* ===== verification/TrieDb.v ===== *)
(** * The databases under the trie

    Module [MemDatabase] translates [src/ethdb/memory_database.go], module
    [TrieDb] the intermediate node store of [src/trie/database.go] on top of it
    (the locks, the clock and the log are left out).  A byte slice that the
    source tests against nil is an [option].  Sizes are floats in the source;
    they are whole numbers, exact below 2^53, and integers here.

    The order in which Go ranges over a map is not specified: [range] is any
    enumeration of the keys.  The pointers of the node map are never shared
    outside of it, so an update through one is an update of the map. *)

From Stdlib Require Import Lia String.
From stdpp Require Import base numbers list gmap strings.
From S2P Require Import Prelude BigInt Types.
Import Common.

#[local] Open Scope Z_scope.
#[local] Open Scope go_scope.

(** ** [ethdb] *)

Module MemDatabase.

Abbreviation t := (gmap (list Z) (option (list Z))) (only parsing).

Definition NewMemDatabase : t := ∅.

Definition CopyBytes (b : option bytes) : option bytes := b.

Definition Put (db : t) (key : bytes) (value : option bytes) : t := <[key := CopyBytes value]> db.

Definition Has (db : t) (key : bytes) : bool := bool_decide (is_Some (db !! key)).

Inductive error := not_found.

Definition Get (db : t) (key : bytes) : error + option bytes :=
  match db !! key with
  | Some entry => inr (CopyBytes entry)
  | None => inl not_found
  end.

(** In the order of ranging over the map. *)
Definition Keys (range : t -> list bytes) (db : t) : list bytes := range db.

Definition Delete (db : t) (key : bytes) : t := delete key db.

Definition Len (db : t) : Z := Z.of_nat (base.size db).

Record kv := { k : bytes; v : option bytes }.

Record memBatch := { writes : list kv; size : Z }.

Definition NewBatch : memBatch := {| writes := []; size := 0 |}.

Definition slice_len (b : option bytes) : Z := match b with Some b => len b | None => 0 end.

Definition batch_Put (b : memBatch) (key : bytes) (value : option bytes) : memBatch :=
  {| writes := writes b ++ [{| k := key; v := CopyBytes value |}]; size := size b + slice_len value |}.

Definition batch_Write (b : memBatch) (db : t) : t := fold_left (fun db w => <[k w := v w]> db) (writes b) db.

Definition ValueSize (b : memBatch) : Z := size b.

Definition batch_Reset (b : memBatch) : memBatch := {| writes := []; size := 0 |}.

Definition IdealBatchSize : Z := 100 * 1024.

End MemDatabase.

(** ** [trie.Database] *)

Module TrieDb.
Import MemDatabase.

Record cachedNode := {
  blob : option bytes;
  parents : Z;
  children : gmap Hash Z
}.

Record Database := {
  diskdb : MemDatabase.t;
  nodes : gmap Hash cachedNode;
  preimages : gmap Hash bytes;
  gcnodes : Z;
  gcsize : Z;
  nodesSize : Z;
  preimagesSize : Z
}.

Definition set_nodes (x : gmap Hash cachedNode) (d : Database) : Database :=
  {| diskdb := diskdb d; nodes := x; preimages := preimages d; gcnodes := gcnodes d; gcsize := gcsize d;
     nodesSize := nodesSize d; preimagesSize := preimagesSize d |}.
Definition set_nodesSize (x : Z) (d : Database) : Database :=
  {| diskdb := diskdb d; nodes := nodes d; preimages := preimages d; gcnodes := gcnodes d; gcsize := gcsize d;
     nodesSize := x; preimagesSize := preimagesSize d |}.
Definition set_disk (x : MemDatabase.t) (d : Database) : Database :=
  {| diskdb := x; nodes := nodes d; preimages := preimages d; gcnodes := gcnodes d; gcsize := gcsize d;
     nodesSize := nodesSize d; preimagesSize := preimagesSize d |}.
Definition set_preimages (x : gmap Hash bytes) (n : Z) (d : Database) : Database :=
  {| diskdb := diskdb d; nodes := nodes d; preimages := x; gcnodes := gcnodes d; gcsize := gcsize d;
     nodesSize := nodesSize d; preimagesSize := n |}.
Definition set_gc (n s : Z) (d : Database) : Database :=
  {| diskdb := diskdb d; nodes := nodes d; preimages := preimages d; gcnodes := n; gcsize := s;
     nodesSize := nodesSize d; preimagesSize := preimagesSize d |}.

Definition secureKeyPrefix : bytes := of_string "secure-key-".

Definition NewDatabase (disk : MemDatabase.t) : Database :=
  {| diskdb := disk; nodes := {[ zeroHash := {| blob := None; parents := 0; children := ∅ |} ]};
     preimages := ∅; gcnodes := 0; gcsize := 0; nodesSize := 0; preimagesSize := 0 |}.

Definition insert (db : Database) (hash : Hash) (b : bytes) : Database :=
  match nodes db !! hash with
  | Some _ => db
  | None =>
      set_nodesSize (nodesSize db + (32 + len b))
        (set_nodes (<[hash := {| blob := Some b; parents := 0; children := ∅ |}]> (nodes db)) db)
  end.

Definition Insert (db : Database) (hash : Hash) (b : bytes) : Database := insert db hash b.

Definition insertPreimage (db : Database) (hash : Hash) (preimage : bytes) : Database :=
  match preimages db !! hash with
  | Some _ => db
  | None => set_preimages (<[hash := preimage]> (preimages db)) (preimagesSize db + (32 + len preimage)) db
  end.

Definition Node (db : Database) (hash : Hash) : error + option bytes :=
  match nodes db !! hash with
  | Some node => inr (blob node)
  | None => Get (diskdb db) hash
  end.

Definition secureKey (key : bytes) : bytes := secureKeyPrefix ++ key.

Definition preimage (db : Database) (hash : Hash) : error + option bytes :=
  match preimages db !! hash with
  | Some p => inr (Some p)
  | None => Get (diskdb db) (secureKey hash)
  end.

(** The blob of a node, as the callers use it: an error and a nil blob are the
    same to them. *)
Definition node_blob (db : Database) (hash : Hash) : option bytes :=
  match Node db hash with inr b => b | inl _ => None end.

(** *** References *)

Definition add_child (h : Hash) (n : cachedNode) : cachedNode :=
  {| blob := blob n; parents := parents n; children := <[h := default 0 (children n !! h) + 1]> (children n) |}.

Definition reference (db : Database) (child parent : Hash) : result Database :=
  match nodes db !! child with
  | None => Ok db
  | Some node =>
      match nodes db !! parent with
      | None => Panic
      | Some p =>
          if bool_decide (is_Some (children p !! child)) && negb (bool_decide (parent = zeroHash)) then Ok db
          else
            let ns := <[child := {| blob := blob node; parents := parents node + 1; children := children node |}]> (nodes db) in
            Ok (set_nodes (alter (add_child child) parent ns) db)
      end
  end.

Definition Reference (db : Database) (child parent : Hash) : result Database := reference db child parent.

(** One reference less; the entry goes when it reaches zero. *)
Definition drop_child (h : Hash) (n : cachedNode) : cachedNode :=
  let c := default 0 (children n !! h) - 1 in
  {| blob := blob n; parents := parents n;
     children := if c =? 0 then delete h (children n) else <[h := c]> (children n) |}.

Definition drop_parent (n : cachedNode) : cachedNode :=
  {| blob := blob n; parents := parents n - 1; children := children n |}.

Section Range.
Context (range : forall A, gmap Hash A -> list Hash).

(** Nodes other than the one that holds the roots. *)
Definition Nodes (db : Database) : list Hash :=
  filter (fun h => h <> zeroHash) (range _ (nodes db)).

Fixpoint dereference (fuel : nat) (db : Database) (child parent : Hash) : result Database :=
  match fuel with
  | O => NoFuel
  | S fuel =>
      match nodes db !! parent with
      | None => Panic
      | Some p =>
          let db := set_nodes (<[parent := drop_child child p]> (nodes db)) db in
          match nodes db !! child with
          | None => Ok db
          | Some node =>
              let node := drop_parent node in
              let db := set_nodes (<[child := node]> (nodes db)) db in
              if parents node =? 0 then
                let? db :=
                  (fix each (hs : list Hash) (db : Database) : result Database :=
                     match hs with
                     | [] => Ok db
                     | h :: hs => let? db := dereference fuel db h child in each hs db
                     end) (range _ (children node)) db in
                Ok (set_nodesSize (nodesSize db - (32 + slice_len (blob node)))
                      (set_nodes (base.delete child (nodes db)) db))
              else Ok db
          end
      end
  end.

Definition Dereference (fuel : nat) (db : Database) (child parent : Hash) : result Database :=
  let count := Z.of_nat (base.size (nodes db)) in
  let storage := nodesSize db in
  let? db := dereference fuel db child parent in
  Ok (set_gc (u64 (gcnodes db + (count - Z.of_nat (base.size (nodes db))))) (gcsize db + (storage - nodesSize db)) db).

(** *** Committing *)

(** A write batch that is flushed when it is full. *)
Definition flush (full : bool) (disk : MemDatabase.t) (b : memBatch) : MemDatabase.t * memBatch :=
  if full then (batch_Write b disk, batch_Reset b) else (disk, b).

Fixpoint put_preimages (ps : gmap Hash bytes) (hs : list Hash) (disk : MemDatabase.t) (b : memBatch)
  : MemDatabase.t * memBatch :=
  match hs with
  | [] => (disk, b)
  | h :: hs =>
      let b := batch_Put b (secureKey h) (ps !! h) in
      let '(disk, b) := flush (ValueSize b >? IdealBatchSize) disk b in
      put_preimages ps hs disk b
  end.

Fixpoint commit (fuel : nat) (ns : gmap Hash cachedNode) (hash : Hash) (disk : MemDatabase.t) (b : memBatch)
  : result (MemDatabase.t * memBatch) :=
  match fuel with
  | O => NoFuel
  | S fuel =>
      match ns !! hash with
      | None => Ok (disk, b)
      | Some node =>
          let? (disk, b) :=
            (fix each (hs : list Hash) (disk : MemDatabase.t) (b : memBatch) : result (MemDatabase.t * memBatch) :=
               match hs with
               | [] => Ok (disk, b)
               | h :: hs => let? (disk, b) := commit fuel ns h disk b in each hs disk b
               end) (range _ (children node)) disk b in
          let b := batch_Put b hash (blob node) in
          Ok (flush (ValueSize b >=? IdealBatchSize) disk b)
      end
  end.

Fixpoint uncache (fuel : nat) (db : Database) (hash : Hash) : result Database :=
  match fuel with
  | O => NoFuel
  | S fuel =>
      match nodes db !! hash with
      | None => Ok db
      | Some node =>
          let? db :=
            (fix each (hs : list Hash) (db : Database) : result Database :=
               match hs with
               | [] => Ok db
               | h :: hs => let? db := uncache fuel db h in each hs db
               end) (range _ (children node)) db in
          Ok (set_nodesSize (nodesSize db - (32 + slice_len (blob node)))
                (set_nodes (base.delete hash (nodes db)) db))
      end
  end.

(** The batch of an in-memory database cannot fail, so the error returns of the
    source are not reached. *)
Definition Commit (fuel : nat) (db : Database) (node : Hash) : result Database :=
  let '(disk, b) := put_preimages (preimages db) (range _ (preimages db)) (diskdb db) NewBatch in
  let? (disk, b) := commit fuel (nodes db) node disk b in
  let db := set_preimages ∅ 0 (set_disk (batch_Write b disk) db) in
  let? db := uncache fuel db node in
  Ok (set_gc 0 0 db).

End Range.

Definition Size (db : Database) : Z := nodesSize db + preimagesSize db.

End TrieDb.
