(* ===== verification/TrieDbSpec.v ===== *)
(** * The node store: committing and garbage collection

    The lemmas behind [TrieDbLaws.v]: what a batch leaves on disk, how committing
    moves nodes, and how the reference counts change when a node is dropped. *)

From Stdlib Require Import Lia String.
From stdpp Require Import base numbers list gmap strings.
From S2P Require Import Prelude BigInt Types TrieDb.
Import Common MemDatabase TrieDb.

#[local] Open Scope Z_scope.
#[local] Open Scope go_scope.

Module TrieDbSpec.

(** ** Batches *)

(** What the disk will hold when the batch is written. *)
Definition pending (disk : MemDatabase.t) (b : memBatch) : MemDatabase.t := batch_Write b disk.

Lemma pending_new disk : pending disk NewBatch = disk.
Proof. done. Qed.

Lemma pending_put disk b key v : pending disk (batch_Put b key v) = <[key := v]> (pending disk b).
Proof. unfold pending, batch_Write. simpl. by rewrite fold_left_app. Qed.

Lemma pending_flush full disk b : pending (fst (flush full disk b)) (snd (flush full disk b)) = pending disk b.
Proof. by destruct full. Qed.

Section Range.
Context (range : forall A, gmap Hash A -> list Hash).
(** The enumeration is complete. *)
Context (range_ok : forall A (m : gmap Hash A) h, h ∈ range A m <-> is_Some (m !! h)).

(** ** Committing *)

Inductive reach (ns : gmap Hash cachedNode) : Hash -> Hash -> Prop :=
| reach_refl h : reach ns h h
| reach_step h n c x : ns !! h = Some n -> is_Some (children n !! c) -> reach ns c x -> reach ns h x.

(** A disk on which the nodes below [h] were written, and only blobs of nodes. *)
Record written (ns : gmap Hash cachedNode) (R : Hash -> Prop) (d d' : MemDatabase.t) : Prop := {
  w_all x n : R x -> ns !! x = Some n -> d' !! x = Some (blob n);
  w_only x : d' !! x = d !! x \/ exists n, ns !! x = Some n /\ d' !! x = Some (blob n)
}.

Lemma written_trans ns R R' d1 d2 d3 : written ns R d1 d2 -> written ns R' d2 d3 ->
  written ns (fun x => R x \/ R' x) d1 d3.
Proof.
  intros [A1 O1] [A2 O2]. split.
  - intros x n [HR|HR] Hn; [|by eapply A2]. destruct (O2 x) as [->|(m & Hm & ->)]; [by eapply A1|]. congruence.
  - intros x. destruct (O2 x) as [->|(m & Hm & ->)]; [apply O1|]. right. by exists m.
Qed.

Lemma written_put ns h n d : ns !! h = Some n -> written ns (fun x => x = h) d (<[h := blob n]> d).
Proof.
  intros Hn. split.
  - intros x m -> Hm. rewrite lookup_insert_eq. congruence.
  - intros x. destruct (decide (x = h)) as [->|Hne]; [right; exists n; by rewrite lookup_insert_eq|].
    left. by rewrite lookup_insert_ne.
Qed.

Lemma written_mono ns (R R' : Hash -> Prop) d d' :
  (forall x n, R' x -> ns !! x = Some n -> R x) -> written ns R d d' -> written ns R' d d'.
Proof. intros H [A O]. split; [intros x n Hx Hn; by eapply A; [eapply H|]|done]. Qed.

Lemma commit_written fuel ns h disk b disk' b' : commit range fuel ns h disk b = Ok (disk', b') ->
  written ns (reach ns h) (pending disk b) (pending disk' b').
Proof.
  revert h disk b disk' b'. induction fuel as [|fuel IH]; intros h disk b disk' b' H; [done|].
  cbn [commit] in H. destruct (ns !! h) as [n|] eqn:En.
  2:{ injection H as <- <-. split; [|by left]. intros x m Hx Hm. inversion Hx; congruence. }
  apply rbind_Ok_inv in H as ([d1 b1] & Heach & H).
  assert (written ns (fun x => exists c, c ∈ range _ (children n) /\ reach ns c x) (pending disk b) (pending d1 b1)) as Hw.
  { clear H. revert disk b Heach. generalize (range _ (children n)) as hs. induction hs as [|c hs IHhs]; intros disk b Heach.
    - injection Heach as <- <-. split; [|by left]. intros x m (c & Hc & _). by apply not_elem_of_nil in Hc.
    - apply rbind_Ok_inv in Heach as ([d2 b2] & E1 & E2). apply IH in E1. apply IHhs in E2.
      eapply written_mono, (written_trans _ _ _ _ _ _ E1 E2). intros x m (e & He & Hx) _.
      apply elem_of_cons in He as [->|He]; [by left|right; eauto]. }
  injection H as H. assert (pending disk' b' = <[h := blob n]> (pending d1 b1)) as ->.
  { change disk' with (fst (disk', b')). change b' with (snd (disk', b')) at 2. by rewrite <-H, pending_flush, pending_put. }
  eapply written_mono, (written_trans _ _ _ _ _ _ Hw (written_put ns h n _ En)). intros x m Hx _.
  inversion Hx as [|? n' c ? Hn' Hc Hr]; subst; [by right|]. left. exists c. split; [|done].
  apply range_ok. congruence.
Qed.

(** Nothing else is written. *)
Lemma commit_reaches fuel ns h disk b disk' b' x : commit range fuel ns h disk b = Ok (disk', b') ->
  pending disk' b' !! x = pending disk b !! x \/ reach ns h x.
Proof.
  revert h disk b disk' b'. induction fuel as [|fuel IH]; intros h disk b disk' b' H; [done|].
  cbn [commit] in H. destruct (ns !! h) as [n|] eqn:En; [|injection H as <- <-; by left].
  apply rbind_Ok_inv in H as ([d1 b1] & Heach & H).
  assert (pending d1 b1 !! x = pending disk b !! x \/ reach ns h x) as Hw.
  { clear H. assert (forall c, c ∈ range _ (children n) -> is_Some (children n !! c)) as Hin by (intros c; apply range_ok).
    revert disk b Heach Hin. generalize (range _ (children n)) as hs. induction hs as [|c hs IHhs]; intros disk b Heach Hin.
    - injection Heach as <- <-. by left.
    - apply rbind_Ok_inv in Heach as ([d2 b2] & E1 & E2). apply IH in E1.
      destruct E1 as [E1|E1]; [|right; eapply reach_step; [done|apply Hin; by apply elem_of_cons; left|done]].
      rewrite <-E1. apply IHhs; [done|]. intros e He. apply Hin. by apply elem_of_cons; right. }
  injection H as H. assert (pending disk' b' = <[h := blob n]> (pending d1 b1)) as ->.
  { change disk' with (fst (disk', b')). change b' with (snd (disk', b')) at 2. by rewrite <-H, pending_flush, pending_put. }
  destruct (decide (x = h)) as [->|Hne]; [right; constructor|by rewrite lookup_insert_ne].
Qed.

(** Removing nodes: those that are left are unchanged. *)
Definition shrinks (R : Hash -> Prop) (ns ns' : gmap Hash cachedNode) : Prop :=
  forall x, ns' !! x = ns !! x \/ (ns' !! x = None /\ R x).

Lemma reach_sub ns ns' h x : (forall y n, ns' !! y = Some n -> ns !! y = Some n) -> reach ns' h x -> reach ns h x.
Proof. intros Hs. induction 1 as [|h n c x Hn Hc _ IH]; [constructor|]. econstructor; eauto. Qed.

Lemma shrinks_sub R ns ns' y n : shrinks R ns ns' -> ns' !! y = Some n -> ns !! y = Some n.
Proof. intros H Hn. destruct (H y) as [E|[E _]]; congruence. Qed.

Lemma shrinks_trans (R R1 R2 : Hash -> Prop) ns1 ns2 ns3 : (forall x, R1 x -> R x) -> (forall x, R2 x -> R x) ->
  shrinks R1 ns1 ns2 -> shrinks R2 ns2 ns3 -> shrinks R ns1 ns3.
Proof.
  intros H1 H2 A B x. destruct (B x) as [->|[-> ?]]; [|right; auto]. destruct (A x) as [->|[-> ?]]; [by left|right; auto].
Qed.

Lemma uncache_shrinks fuel db h db' : uncache range fuel db h = Ok db' ->
  shrinks (reach (nodes db) h) (nodes db) (nodes db') /\ diskdb db' = diskdb db.
Proof.
  revert h db db'. induction fuel as [|fuel IH]; intros h db db' H; [done|].
  cbn [uncache] in H. destruct (nodes db !! h) as [n|] eqn:En; [|injection H as <-; split; [by left|done]].
  apply rbind_Ok_inv in H as (d1 & Heach & H). injection H as <-. simpl.
  assert (shrinks (reach (nodes db) h) (nodes db) (nodes d1) /\ diskdb d1 = diskdb db) as [Hs Hd].
  { assert (forall c, c ∈ range _ (children n) -> is_Some (children n !! c)) as Hin by (intros c; apply range_ok).
    revert Hin Heach. generalize (range _ (children n)) as hs. intros hs Hin.
    assert (forall d0, shrinks (reach (nodes db) h) (nodes db) (nodes d0) -> diskdb d0 = diskdb db ->
      (fix each hs d := match hs with [] => Ok d | c :: hs => let? d := uncache range fuel d c in each hs d end) hs d0 = Ok d1 ->
      shrinks (reach (nodes db) h) (nodes db) (nodes d1) /\ diskdb d1 = diskdb db) as Hloop; [|by apply Hloop; [left|]].
    induction hs as [|c hs IHhs]; intros d0 H0 Hd0 Heach; [by injection Heach as <-|].
    apply rbind_Ok_inv in Heach as (d2 & E1 & E2). apply IH in E1 as [Hs Hd]. eapply IHhs; [..|exact E2].
    - intros e He. apply Hin. by apply elem_of_cons; right.
    - eapply (shrinks_trans _ _ (reach (nodes d0) c)); [done| |done|done]. intros x Hx.
      eapply (reach_step _ _ n c); [done|apply Hin; by apply elem_of_cons; left|].
      eapply reach_sub, Hx. intros y m. by apply (shrinks_sub (reach (nodes db) h)).
    - congruence. }
  split; [|done]. intros x. destruct (decide (x = h)) as [->|Hne]; [right; rewrite lookup_delete_eq; split; [done|constructor]|].
  rewrite lookup_delete_ne by done. apply Hs.
Qed.

(** Preimages are stored under longer keys. *)
Lemma put_preimages_other ps hs disk b x : length x = 32%nat ->
  (forall h, h ∈ hs -> length h = 32%nat) ->
  pending (fst (put_preimages ps hs disk b)) (snd (put_preimages ps hs disk b)) !! x = pending disk b !! x.
Proof.
  intros Hx. revert disk b. induction hs as [|h hs IH]; intros disk b Hhs; [done|]. cbn [put_preimages].
  destruct (flush _ disk _) as [d1 b1] eqn:Ef. rewrite IH by (intros e He; apply Hhs; by apply elem_of_cons; right).
  change d1 with (fst (d1, b1)). change b1 with (snd (d1, b1)) at 2. rewrite <-Ef, pending_flush, pending_put.
  rewrite lookup_insert_ne; [done|]. intros E. apply (f_equal length) in E. unfold secureKey in E.
  rewrite length_app, Hx, (Hhs h) in E by (by apply elem_of_cons; left). vm_compute in E. discriminate.
Qed.

Lemma Commit_keeps fuel db h db' x : (forall p, is_Some (preimages db !! p) -> length p = 32%nat) -> length x = 32%nat ->
  Commit range fuel db h = Ok db' -> node_blob db' x = node_blob db x.
Proof.
  intros Hpre Hx H. unfold Commit in H.
  destruct (put_preimages _ _ (diskdb db) NewBatch) as [d1 b1] eqn:Ep.
  assert (pending d1 b1 !! x = diskdb db !! x) as Hd1.
  { pose proof (put_preimages_other (preimages db) (range _ (preimages db)) (diskdb db) NewBatch x Hx) as E.
    rewrite Ep in E. apply E. intros p Hp. by apply Hpre, range_ok. }
  apply rbind_Ok_inv in H as ([d2 b2] & Hc & H). apply rbind_Ok_inv in H as (db2 & Hu & H). injection H as <-.
  apply commit_written in Hc as [Hall Honly]. apply uncache_shrinks in Hu as [Hs Hd]. simpl in Hs, Hd.
  unfold node_blob, Node. simpl. rewrite Hd. change (batch_Write b2 d2) with (pending d2 b2).
  destruct (Hs x) as [->|[-> Hr]].
  - destruct (nodes db !! x) as [n|] eqn:En; [done|]. unfold Get. destruct (Honly x) as [->|(n & Hn & _)]; [by rewrite Hd1|congruence].
  - unfold Get. destruct (nodes db !! x) as [n|] eqn:En; [by rewrite (Hall x n)|].
    destruct (Honly x) as [->|(n & Hn & _)]; [by rewrite Hd1|congruence].
Qed.

End Range.

(** ** Counting references *)

Definition refs (h : Hash) (n : cachedNode) : Z := default 0 (children n !! h).

(** All references to a node. *)
Definition cnt (ns : gmap Hash cachedNode) (h : Hash) : Z := map_fold (fun _ n acc => refs h n + acc) 0 ns.

Lemma cnt_delete ns h p n : ns !! p = Some n -> cnt ns h = refs h n + cnt (base.delete p ns) h.
Proof. intros Hp. unfold cnt. rewrite (map_fold_delete_L _ _ p n ns); [done|intros; lia|done]. Qed.

Lemma cnt_insert_new ns h p n : ns !! p = None -> cnt (<[p := n]> ns) h = refs h n + cnt ns h.
Proof. intros Hp. unfold cnt. rewrite map_fold_insert_L; [done|intros; lia|done]. Qed.

Lemma cnt_update ns h p n n' : ns !! p = Some n -> cnt (<[p := n']> ns) h = cnt ns h - refs h n + refs h n'.
Proof.
  intros Hp. rewrite (cnt_delete ns h p n Hp), <-insert_delete_eq, cnt_insert_new by apply lookup_delete_eq. lia.
Qed.

(** Removing nodes that do not refer to [h] leaves its count. *)
Lemma cnt_shrink ns ns' h :
  (forall x, ns' !! x = ns !! x \/ (ns' !! x = None /\ forall n, ns !! x = Some n -> refs h n = 0)) -> cnt ns' h = cnt ns h.
Proof.
  revert ns'. induction ns as [|p n ns Hp IH] using map_ind; intros ns' H.
  - replace ns' with (∅ : gmap Hash cachedNode); [done|]. symmetry. apply map_empty. intros x. destruct (H x) as [->|[-> _]]; [apply lookup_empty|done].
  - rewrite cnt_insert_new by done. assert (cnt (base.delete p ns') h = cnt ns h) as E.
    { apply IH. intros x. destruct (decide (x = p)) as [->|Hne]; [left; by rewrite lookup_delete_eq|].
      rewrite lookup_delete_ne by done. specialize (H x). by rewrite lookup_insert_ne in H. }
    destruct (H p) as [Hs|[Hs Hz]]; rewrite lookup_insert_eq in *.
    + rewrite (cnt_delete ns' h p n Hs). lia.
    + rewrite (Hz n eq_refl), <-E, delete_id; [lia|done].
Qed.

(** The counts of the nodes that are not on disk are right, every reference is
    to a node that is there or on disk, nothing but nodes of the disk is below a
    node of the disk, only the holder of the roots refers to a node more than
    once, and nothing refers to that holder. *)
Record counted (d : MemDatabase.t) (ns : gmap Hash cachedNode) : Prop := {
  c_parents h n : d !! h = None -> ns !! h = Some n -> parents n = cnt ns h;
  c_child p n h c : ns !! p = Some n -> children n !! h = Some c ->
    0 < c /\ (d !! h = None -> is_Some (ns !! h)) /\ h <> zeroHash /\ (p <> zeroHash -> c = 1);
  c_down p n h : ns !! p = Some n -> is_Some (children n !! h) -> d !! h = None -> d !! p = None
}.

(** References go down. *)
Definition ranked (rank : Hash -> nat) (ns : gmap Hash cachedNode) : Prop :=
  forall p n c, ns !! p = Some n -> is_Some (children n !! c) -> (rank c < rank p)%nat.

Section Counting.
Context (d : MemDatabase.t).

Lemma refs_nonneg ns p n h : counted d ns -> ns !! p = Some n -> 0 <= refs h n.
Proof. intros Hc Hn. unfold refs. destruct (children n !! h) as [c|] eqn:E; simpl; [|lia]. destruct (c_child _ _ Hc p n h c Hn E). lia. Qed.

Lemma cnt_nonneg ns' h : (forall p n, ns' !! p = Some n -> 0 <= refs h n) -> 0 <= cnt ns' h.
Proof.
  revert h. induction ns' as [|p n ns' Hp IH] using map_ind; intros h Hn; [done|].
  rewrite cnt_insert_new by done. assert (0 <= refs h n) by (apply (Hn p); apply lookup_insert_eq).
  assert (0 <= cnt ns' h); [|lia]. apply IH. intros q m Hm. apply (Hn q). rewrite lookup_insert_ne; [done|congruence].
Qed.

Lemma cnt_refs ns p n h : counted d ns -> ns !! p = Some n -> refs h n <= cnt ns h.
Proof.
  intros Hc Hn. rewrite (cnt_delete ns h p n Hn). assert (0 <= cnt (base.delete p ns) h); [|lia].
  apply cnt_nonneg. intros q m Hm. apply lookup_delete_Some in Hm as [_ Hm]. by eapply refs_nonneg.
Qed.

Lemma refs_drop_child h c n :
  refs h (drop_child c n) = refs h n - (if decide (h = c) then 1 else 0).
Proof.
  unfold refs, drop_child. simpl. destruct (decide (h = c)) as [->|Hne].
  - destruct (Z.eqb_spec (default 0 (children n !! c) - 1) 0) as [E|E]; [rewrite lookup_delete_eq|rewrite lookup_insert_eq]; simpl; lia.
  - destruct (_ =? 0); [rewrite lookup_delete_ne by done|rewrite lookup_insert_ne by done]; lia.
Qed.

Lemma counted_parents ns p n c m k : counted d ns -> d !! c = None -> ns !! p = Some n -> children n !! c = Some k -> ns !! c = Some m -> parents m <> 0.
Proof.
  intros Hc Hd Hp Hk Hm. pose proof (cnt_refs ns p n c Hc Hp) as Hr. rewrite <-(c_parents _ _ Hc c m Hd Hm) in Hr. unfold refs in Hr.
  rewrite Hk in Hr. simpl in Hr. destruct (c_child _ _ Hc p n c k Hp Hk). lia.
Qed.

(** One reference is removed. *)
Lemma counted_drop ns p n c m k : counted d ns -> ns !! p = Some n -> children n !! c = Some k -> ns !! c = Some m -> p <> c ->
  counted d (<[c := drop_parent m]> (<[p := drop_child c n]> ns)).
Proof.
  intros Hc Hp Hk Hm Hne. set (ns1 := <[p := drop_child c n]> ns).
  assert (ns1 !! c = Some m) as Hm1 by (unfold ns1; by rewrite lookup_insert_ne).
  assert (forall h, cnt (<[c := drop_parent m]> ns1) h = cnt ns h - (if decide (h = c) then 1 else 0)) as Hcnt.
  { intros h. rewrite (cnt_update _ h c m (drop_parent m) Hm1). unfold ns1. rewrite (cnt_update _ h p n _ Hp), refs_drop_child.
    change (refs h (drop_parent m)) with (refs h m). lia. }
  assert (forall q q', (<[c := drop_parent m]> ns1) !! q = Some q' ->
    exists q0, ns !! q = Some q0 /\ parents q' = parents q0 - (if decide (q = c) then 1 else 0) /\
      (forall h x, children q' !! h = Some x -> (q = p /\ h = c /\ children q0 !! h = Some (x + 1) /\ x <> 0) \/ children q0 !! h = Some x)) as Hold.
  { intros q q' Hq. destruct (decide (q = c)) as [->|Hqc].
    - rewrite lookup_insert_eq in Hq. injection Hq as <-. exists m. split; [done|]. split; [done|]. by right.
    - rewrite lookup_insert_ne in Hq by done. unfold ns1 in Hq. destruct (decide (q = p)) as [->|Hqp].
      + rewrite lookup_insert_eq in Hq. injection Hq as <-. exists n. split; [done|]. split; [simpl; lia|]. intros h x.
        unfold drop_child. simpl. rewrite Hk. simpl. destruct (decide (h = c)) as [->|Hhc].
        * destruct (Z.eqb_spec (k - 1) 0); [by rewrite lookup_delete_eq|]. rewrite lookup_insert_eq. intros [= <-].
          left. repeat split; try done. rewrite Hk. f_equal. lia.
        * destruct (_ =? 0); [rewrite lookup_delete_ne by done|rewrite lookup_insert_ne by done]; by right.
      + rewrite lookup_insert_ne in Hq by done. exists q'. split; [done|]. split; [lia|]. by right. }
  split.
  - intros h q' Hd Hq. destruct (Hold h q' Hq) as (q0 & Hq0 & -> & _). rewrite Hcnt, (c_parents _ _ Hc h q0 Hd Hq0). done.
  - intros q q' h x Hq Hx. destruct (Hold q q' Hq) as (q0 & Hq0 & _ & Hch).
    assert (forall h, is_Some (ns !! h) -> is_Some ((<[c := drop_parent m]> ns1) !! h)) as Hsome.
    { intros h' Hh'. unfold ns1. destruct (decide (h' = c)) as [->|]; [rewrite lookup_insert_eq; by eexists|].
      rewrite lookup_insert_ne by done. destruct (decide (h' = p)) as [->|]; [rewrite lookup_insert_eq; by eexists|].
      by rewrite lookup_insert_ne. }
    destruct (Hch h x Hx) as [(-> & -> & H1 & H2)|H1].
    + destruct (c_child _ _ Hc p q0 c (x + 1) Hq0 H1) as (H3 & H4 & H5 & H6). split; [lia|]. split; [auto|]. split; [done|].
      intros Hz. specialize (H6 Hz). lia.
    + destruct (c_child _ _ Hc q q0 h x Hq0 H1) as (H3 & H4 & H5 & H6). auto 10.
  - intros q q' h Hq [x Hx]. destruct (Hold q q' Hq) as (q0 & Hq0 & _ & Hch). apply (c_down _ _ Hc q q0 h Hq0).
    destruct (Hch h x Hx) as [(_ & _ & H1 & _)|H1]; by eexists.
Qed.

(** The same for a reference to a node that has left memory. *)
Lemma counted_drop_gone ns p n c k : counted d ns -> ns !! p = Some n -> children n !! c = Some k -> ns !! c = None ->
  counted d (<[p := drop_child c n]> ns).
Proof.
  intros Hc Hp Hk Hm. assert (d !! c <> None) as Hdc.
  { intros E. destruct (c_child _ _ Hc p n c k Hp Hk) as (_ & H & _). rewrite Hm in H. by destruct (H E). }
  assert (forall h, is_Some (ns !! h) -> is_Some ((<[p := drop_child c n]> ns) !! h)) as Hsome.
  { intros h Hh. destruct (decide (h = p)) as [->|]; [rewrite lookup_insert_eq; by eexists|by rewrite lookup_insert_ne]. }
  assert (forall q q', (<[p := drop_child c n]> ns) !! q = Some q' -> exists q0, ns !! q = Some q0 /\ parents q' = parents q0 /\
      (forall h x, children q' !! h = Some x -> (q = p /\ h = c /\ children q0 !! h = Some (x + 1) /\ x <> 0) \/ children q0 !! h = Some x)) as Hold.
  { intros q q' [[<- <-]|[_ Hq]]%lookup_insert_Some; [|exists q'; auto]. exists n. split; [done|]. split; [done|]. intros h x.
    unfold drop_child. simpl. rewrite Hk. simpl. destruct (decide (h = c)) as [->|Hhc].
    - destruct (Z.eqb_spec (k - 1) 0); [by rewrite lookup_delete_eq|]. rewrite lookup_insert_eq. intros [= <-].
      left. repeat split; try done. rewrite Hk. f_equal. lia.
    - destruct (_ =? 0); [rewrite lookup_delete_ne by done|rewrite lookup_insert_ne by done]; by right. }
  split.
  - intros h q' Hd Hq. destruct (Hold h q' Hq) as (q0 & Hq0 & -> & _). rewrite (cnt_update _ h p n _ Hp), refs_drop_child.
    rewrite decide_False by congruence. rewrite (c_parents _ _ Hc h q0 Hd Hq0). lia.
  - intros q q' h x Hq Hx. destruct (Hold q q' Hq) as (q0 & Hq0 & _ & Hch). destruct (Hch h x Hx) as [(-> & -> & H1 & H2)|H1].
    + destruct (c_child _ _ Hc p q0 c (x + 1) Hq0 H1) as (H3 & H4 & H5 & H6). split; [lia|]. split; [auto|]. split; [done|].
      intros Hz. specialize (H6 Hz). lia.
    + destruct (c_child _ _ Hc q q0 h x Hq0 H1) as (H3 & H4 & H5 & H6). auto 10.
  - intros q q' h Hq [x Hx]. destruct (Hold q q' Hq) as (q0 & Hq0 & _ & Hch). apply (c_down _ _ Hc q q0 h Hq0).
    destruct (Hch h x Hx) as [(_ & _ & H1 & _)|H1]; by eexists.
Qed.

(** A node without references and without children is removed. *)
Lemma counted_delete ns c m : counted d ns -> ns !! c = Some m -> parents m = 0 -> children m = ∅ -> counted d (base.delete c ns).
Proof.
  intros Hc Hm Hp Hch.
  assert (forall h, cnt (base.delete c ns) h = cnt ns h) as Hcnt.
  { intros h. rewrite (cnt_delete ns h c m Hm). unfold refs. rewrite Hch, lookup_empty. simpl. lia. }
  split.
  - intros h n Hd Hn. apply lookup_delete_Some in Hn as [_ Hn]. rewrite Hcnt. by apply (c_parents _ _ Hc).
  - intros p n h x Hn Hx. apply lookup_delete_Some in Hn as [_ Hn]. destruct (c_child _ _ Hc p n h x Hn Hx) as (H1 & H2 & H3 & H4).
    split; [done|]. split; [|done]. intros Hd. rewrite lookup_delete_ne; [auto|]. intros <-.
    by destruct (counted_parents ns p n c m x Hc Hd Hn Hx Hm).
  - intros p n h [_ Hn]%lookup_delete_Some. by apply (c_down _ _ Hc p n h).
Qed.

Lemma cnt_pos ns h : cnt ns h <> 0 -> exists p n, ns !! p = Some n /\ is_Some (children n !! h).
Proof.
  induction ns as [|p n ns Hp IH] using map_ind; [done|]. rewrite cnt_insert_new by done. intros Hn.
  unfold refs in Hn. destruct (children n !! h) as [x|] eqn:E.
  - exists p, n. rewrite lookup_insert_eq. split; [done|by eexists].
  - simpl in Hn. destruct IH as (q & m & Hq & Hm); [lia|]. exists q, m. rewrite lookup_insert_ne; [done|congruence].
Qed.

(** Nothing refers to a node that is not there. *)
Lemma cnt_absent ns h : counted d ns -> d !! h = None -> ns !! h = None -> cnt ns h = 0.
Proof.
  intros Hc Hd Hh. destruct (decide (cnt ns h = 0)) as [|Hn]; [done|]. destruct (cnt_pos ns h Hn) as (p & n & Hp & [k Hk]).
  destruct (c_child _ _ Hc p n h k Hp Hk) as (_ & H & _). rewrite Hh in H. by destruct (H Hd).
Qed.

(** A new node. *)
Lemma counted_insert ns h b : counted d ns -> ns !! h = None -> counted d (<[h := {| blob := b; parents := 0; children := ∅ |}]> ns).
Proof.
  intros Hc Hh. set (new := {| blob := b; parents := 0; children := ∅ |}).
  assert (forall q, cnt (<[h := new]> ns) q = cnt ns q) as Hcnt by (intros q; rewrite cnt_insert_new by done; unfold refs; simpl; rewrite lookup_empty; simpl; lia).
  split.
  - intros q n Hd Hq. rewrite Hcnt. apply lookup_insert_Some in Hq as [[<- <-]|[_ Hq]]; [by rewrite cnt_absent|by apply (c_parents _ _ Hc)].
  - intros p n q x Hp Hx. apply lookup_insert_Some in Hp as [[<- <-]|[_ Hp]]; [simpl in Hx; by rewrite lookup_empty in Hx|].
    destruct (c_child _ _ Hc p n q x Hp Hx) as (H1 & H2 & H3). split; [done|]. split; [|done].
    intros [m Hm]%H2. exists m. rewrite lookup_insert_ne; [done|congruence].
  - intros p n q [[<- <-]|[_ Hp]]%lookup_insert_Some Hx; [simpl in Hx; rewrite lookup_empty in Hx; by destruct Hx|]. by apply (c_down _ _ Hc p n q).
Qed.

Definition add_parent (n : cachedNode) : cachedNode :=
  {| blob := blob n; parents := parents n + 1; children := children n |}.

Lemma refs_add_child h c n : refs h (add_child c n) = refs h n + (if decide (h = c) then 1 else 0).
Proof.
  unfold refs, add_child. simpl. destruct (decide (h = c)) as [->|Hne]; [by rewrite lookup_insert_eq|].
  rewrite lookup_insert_ne by done. lia.
Qed.

(** A new reference. *)
Lemma counted_add ns p n c m : counted d ns -> ns !! p = Some n -> ns !! c = Some m -> p <> c -> c <> zeroHash ->
  (p <> zeroHash -> children n !! c = None) -> (d !! c = None -> d !! p = None) -> counted d (<[p := add_child c n]> (<[c := add_parent m]> ns)).
Proof.
  intros Hc Hp Hm Hne Hz Hnew Hdown. set (ns1 := <[c := add_parent m]> ns).
  assert (ns1 !! p = Some n) as Hp1 by (unfold ns1; by rewrite lookup_insert_ne by done).
  assert (forall h, cnt (<[p := add_child c n]> ns1) h = cnt ns h + (if decide (h = c) then 1 else 0)) as Hcnt.
  { intros h. rewrite (cnt_update _ h p n _ Hp1). unfold ns1. rewrite (cnt_update _ h c m _ Hm), refs_add_child.
    change (refs h (add_parent m)) with (refs h m). lia. }
  assert (forall h, is_Some (ns !! h) -> is_Some ((<[p := add_child c n]> ns1) !! h)) as Hsome.
  { intros h Hh. unfold ns1. destruct (decide (h = p)) as [->|]; [rewrite lookup_insert_eq; by eexists|].
    rewrite lookup_insert_ne by done. destruct (decide (h = c)) as [->|]; [rewrite lookup_insert_eq; by eexists|].
    by rewrite lookup_insert_ne. }
  split.
  - intros h q Hd Hq. rewrite Hcnt. apply lookup_insert_Some in Hq as [[<- <-]|[Hqp Hq]].
    + rewrite decide_False by done. simpl. rewrite (c_parents _ _ Hc p n Hd Hp). lia.
    + apply lookup_insert_Some in Hq as [[<- <-]|[Hqc Hq]].
      * rewrite decide_True by done. simpl. by rewrite (c_parents _ _ Hc c m Hd Hm).
      * rewrite decide_False by done. rewrite (c_parents _ _ Hc h q Hd Hq). lia.
  - intros q q' h x Hq Hx. apply lookup_insert_Some in Hq as [[<- <-]|[Hqp Hq]].
    + simpl in Hx. apply lookup_insert_Some in Hx as [[<- <-]|[Hh Hx]].
      * destruct (children n !! c) as [k|] eqn:Ek; simpl.
        -- destruct (c_child _ _ Hc p n c k Hp Ek) as (H1 & H2 & _). repeat split; [lia|auto|done|].
           intros H. by specialize (Hnew H).
        -- split; [lia|]. split; [intros _; apply Hsome; by exists m|done].
      * destruct (c_child _ _ Hc p n h x Hp Hx) as (H1 & H2 & H3). auto.
    + apply lookup_insert_Some in Hq as [[<- <-]|[Hqc Hq]].
      * destruct (c_child _ _ Hc c m h x Hm Hx) as (H1 & H2 & H3). auto.
      * destruct (c_child _ _ Hc q q' h x Hq Hx) as (H1 & H2 & H3). auto.
  - intros q q' h [[<- <-]|[Hqp Hq]]%lookup_insert_Some Hx.
    + simpl in Hx. destruct (decide (h = c)) as [->|Hh]; [done|]. rewrite lookup_insert_ne in Hx by done. by apply (c_down _ _ Hc p n h).
    + apply lookup_insert_Some in Hq as [[<- <-]|[Hqc Hq]]; [by apply (c_down _ _ Hc c m h)|by apply (c_down _ _ Hc q q' h)].
Qed.

End Counting.

(** ** Garbage collection *)

Section Collect.
Context (range : forall A, gmap Hash A -> list Hash).
Context (range_ok : forall A (m : gmap Hash A) h, h ∈ range A m <-> is_Some (m !! h)).
Context (range_NoDup : forall A (m : gmap Hash A), NoDup (range A m)).
Context (rank : Hash -> nat).

(** What a collection below [top] may do: nodes that are not below it stay as
    they are, the others are removed or keep their blob and children, and none
    is left over that has just lost its last reference; a node that is not on
    disk and had none stays. *)
Record collects (d : MemDatabase.t) (top : nat) (keep : Hash -> Prop) (ns ns' : gmap Hash cachedNode) : Prop := {
  g_above q : (top <= rank q)%nat -> keep q -> ns' !! q = ns !! q;
  g_below q n' : ns' !! q = Some n' -> keep q -> exists n, ns !! q = Some n /\ blob n' = blob n /\
    children n' = children n /\ (parents n' = 0 -> parents n = 0);
  g_root q n : d !! q = None -> ns !! q = Some n -> parents n = 0 -> keep q -> ns' !! q = Some n
}.

Lemma collects_trans d top top' keep ns1 ns2 ns3 : (top' <= top)%nat ->
  collects d top keep ns1 ns2 -> collects d top' keep ns2 ns3 -> collects d top keep ns1 ns3.
Proof.
  intros Ht [A1 B1 R1] [A2 B2 R2]. split; [..|auto].
  - intros q Hq Hk. rewrite A2, A1; [done|done|done|lia|done].
  - intros q n3 Hn Hk. destruct (B2 q n3 Hn Hk) as (n2 & H2 & E1 & E2 & E3).
    destruct (B1 q n2 H2 Hk) as (n1 & H1 & E4 & E5 & E6). exists n1. repeat split; [done|congruence|congruence|auto].
Qed.

Lemma collects_same d top keep ns ns' : (forall q, keep q -> ns' !! q = ns !! q) -> collects d top keep ns ns'.
Proof. intros H. split; [auto| |intros q n _ Hn _ Hk; by rewrite H]. intros q n' Hn Hk. rewrite H in Hn by done. eauto. Qed.

Lemma ranked_keeps ns ns' : ranked rank ns ->
  (forall q n' c, ns' !! q = Some n' -> is_Some (children n' !! c) -> exists n, ns !! q = Some n /\ is_Some (children n !! c)) ->
  ranked rank ns'.
Proof. intros Hr H p n c Hp Hc. destruct (H p n c Hp Hc) as (m & Hm & Hmc). by eapply Hr. Qed.

Lemma drop_child_some h c n x : children (drop_child c n) !! h = Some x -> is_Some (children n !! c) -> is_Some (children n !! h).
Proof.
  unfold drop_child. simpl. intros H Hc. destruct (decide (h = c)) as [->|Hne]; [done|].
  destruct (_ =? 0); [rewrite lookup_delete_ne in H by done|rewrite lookup_insert_ne in H by done]; by eexists.
Qed.

Lemma ranked_drop ns p n c m : ranked rank ns -> ns !! p = Some n -> is_Some (children n !! c) -> ns !! c = Some m ->
  ranked rank (<[c := drop_parent m]> (<[p := drop_child c n]> ns)).
Proof.
  intros Hr Hp Hc Hm. apply (ranked_keeps _ _ Hr). intros q n' h Hq [x Hh].
  apply lookup_insert_Some in Hq as [[<- <-]|[Hqc Hq]]; [exists m; split; [done|by exists x]|].
  apply lookup_insert_Some in Hq as [[<- <-]|[Hqp Hq]]; [|exists n'; split; [done|by exists x]].
  exists n. split; [done|]. by eapply drop_child_some.
Qed.

Lemma ranked_drop_gone ns p n c : ranked rank ns -> ns !! p = Some n -> is_Some (children n !! c) ->
  ranked rank (<[p := drop_child c n]> ns).
Proof.
  intros Hr Hp Hc. apply (ranked_keeps _ _ Hr). intros q n' h [[<- <-]|[Hqp Hq]]%lookup_insert_Some [x Hh].
  - exists n. split; [done|]. by eapply drop_child_some.
  - exists n'. split; [done|by exists x].
Qed.

(** The contract of one dereferencing. *)
Definition drops (deref : Database -> Hash -> Hash -> result Database) (bound : nat) : Prop :=
  forall db p c n, counted (diskdb db) (nodes db) -> ranked rank (nodes db) -> nodes db !! p = Some n -> is_Some (children n !! c) ->
  (rank p <= bound)%nat -> exists db', deref db c p = Ok db' /\ counted (diskdb db') (nodes db') /\ ranked rank (nodes db') /\
    nodes db' !! p = Some (drop_child c n) /\ diskdb db' = diskdb db /\
    collects (diskdb db) (rank p) (fun q => q <> p) (nodes db) (nodes db').

(** A node that is going, with the references it still holds. *)
Definition dying (hs : list Hash) (n : cachedNode) : Prop :=
  parents n = 0 /\ forall h, children n !! h = if decide (h ∈ hs) then Some 1 else None.

Lemma dying_drop h hs n : h ∉ hs -> dying (h :: hs) n -> dying hs (drop_child h n).
Proof.
  intros Hh [Hp Hc]. split; [done|]. intros e. unfold drop_child. simpl.
  rewrite (Hc h), decide_True by (by apply elem_of_cons; left). simpl. destruct (decide (e = h)) as [->|Hne].
  - rewrite lookup_delete_eq. by rewrite decide_False.
  - rewrite lookup_delete_ne, Hc by done. apply decide_ext. rewrite elem_of_cons. naive_solver.
Qed.

Lemma dereference_each deref bound c hs : drops deref bound -> (rank c <= bound)%nat -> NoDup hs ->
  forall db m, counted (diskdb db) (nodes db) -> ranked rank (nodes db) -> nodes db !! c = Some m -> dying hs m ->
  exists db' m', (fix each (hs : list Hash) (db : Database) : result Database :=
      match hs with [] => Ok db | h :: hs => let? db := deref db h c in each hs db end) hs db = Ok db' /\
    counted (diskdb db') (nodes db') /\ ranked rank (nodes db') /\ nodes db' !! c = Some m' /\ dying [] m' /\ diskdb db' = diskdb db /\
    collects (diskdb db) (rank c) (fun q => q <> c) (nodes db) (nodes db').
Proof.
  intros Hd Hb. induction 1 as [|h hs Hh _ IH]; intros db m Hc Hr Hm Hdy.
  { exists db, m. repeat (split; [done|]). by apply collects_same. }
  destruct (Hd db c h m Hc Hr Hm) as (d1 & -> & Hc1 & Hr1 & Hm1 & Hk1 & Hg1); [|done|].
  { destruct Hdy as [_ ->]. rewrite decide_True; [by eexists|by apply elem_of_cons; left]. }
  simpl. destruct (IH d1 _ Hc1 Hr1 Hm1 (dying_drop h hs m Hh Hdy)) as (d2 & m2 & -> & Hc2 & Hr2 & Hm2 & Hdy2 & Hk2 & Hg2).
  exists d2, m2. repeat (split; [done|]). split; [congruence|]. rewrite Hk1 in Hg2. by eapply collects_trans.
Qed.

Lemma dereference_drops fuel : drops (dereference range fuel) fuel.
Proof.
  induction fuel as [|fuel IH]; intros db p c n Hc Hr Hp [k Hk] Hb.
  { pose proof (Hr p n c Hp (ex_intro _ k Hk)). lia. }
  destruct (c_child _ _ Hc p n c k Hp Hk) as (_ & _ & Hz & _). pose proof (Hr p n c Hp (ex_intro _ k Hk)) as Hlt.
  assert (p <> c) as Hne by (intros ->; lia).
  destruct (nodes db !! c) as [m|] eqn:Hm.
  2:{ cbn [dereference]. rewrite Hp. simpl. rewrite lookup_insert_ne, Hm by done. eexists. split; [reflexivity|]. simpl.
      split; [by eapply counted_drop_gone|]. split; [by eapply ranked_drop_gone|]. rewrite lookup_insert_eq. repeat (split; [done|]).
      apply collects_same. intros q Hq. by rewrite lookup_insert_ne. }
  pose proof (counted_drop _ _ p n c m k Hc Hp Hk Hm Hne) as Hc1. pose proof (ranked_drop _ p n c m Hr Hp (ex_intro _ k Hk) Hm) as Hr1.
  set (ns1 := <[c := drop_parent m]> (<[p := drop_child c n]> (nodes db))) in *.
  assert (ns1 !! c = Some (drop_parent m)) as Hm1 by apply lookup_insert_eq.
  assert (ns1 !! p = Some (drop_child c n)) as Hp1 by (unfold ns1; by rewrite lookup_insert_ne, lookup_insert_eq).
  assert (forall q, q <> c -> q <> p -> ns1 !! q = nodes db !! q) as Hq1 by (intros q ? ?; unfold ns1; by rewrite !lookup_insert_ne).
  cbn [dereference]. rewrite Hp. simpl. rewrite lookup_insert_ne, Hm by done. fold ns1. simpl.
  destruct (Z.eqb_spec (parents m - 1) 0) as [E|E].
  - destruct (dereference_each _ fuel c (range _ (children m)) IH ltac:(lia) (range_NoDup _ _)
      (set_nodes ns1 (set_nodes (<[p := drop_child c n]> (nodes db)) db)) (drop_parent m) Hc1 Hr1 Hm1)
      as (d2 & m2 & -> & Hc2 & Hr2 & Hm2 & [Hp2 Hch2] & Hk2 & Hg2).
    { split; [done|]. intros h. simpl. destruct (children m !! h) as [x|] eqn:Ex.
      - rewrite decide_True by (apply range_ok; by eexists). destruct (c_child _ _ Hc c m h x Hm Ex) as (_ & _ & _ & H1). by rewrite H1.
      - rewrite decide_False; [done|]. intros Hin%range_ok. rewrite Ex in Hin. by destruct Hin. }
    eexists. split; [reflexivity|]. simpl.
    assert (children m2 = ∅) as Hch by (apply map_eq; intros h; rewrite Hch2, lookup_empty; by destruct (decide _) as [?%not_elem_of_nil|]).
    split; [by eapply counted_delete|]. split; [apply (ranked_keeps _ _ Hr2); intros q n' h [_ Hq]%lookup_delete_Some Hh; by exists n'|].
    split; [rewrite lookup_delete_ne by done; rewrite (g_above _ _ _ _ _ Hg2 p) by (done || lia); done|].
    split; [done|]. split.
    + intros q Hq Hqp. assert (q <> c) by (intros ->; lia). rewrite lookup_delete_ne by done.
      rewrite (g_above _ _ _ _ _ Hg2 q) by (done || lia). simpl. by apply Hq1.
    + intros q n' [Hqc Hq]%lookup_delete_Some Hqp. destruct (g_below _ _ _ _ _ Hg2 q n' Hq ltac:(done)) as (n0 & H0 & HH).
      exists n0. simpl in H0. by rewrite <-(Hq1 q) by done.
    + intros q n0 Hqd Hq Hq0 Hqp. assert (q <> c) by (intros ->; rewrite Hm in Hq; injection Hq as <-; exact (counted_parents _ _ p n c m k Hc Hqd Hp Hk Hm Hq0)).
      rewrite lookup_delete_ne by done. apply (g_root _ _ _ _ _ Hg2); [done|simpl; by rewrite Hq1|done|done].
  - eexists. split; [reflexivity|]. simpl. fold ns1. repeat (split; [done|]). split.
    + intros q Hq Hqp. apply Hq1; [intros ->; lia|done].
    + intros q n' Hq Hqp. destruct (decide (q = c)) as [->|Hqc].
      * rewrite Hm1 in Hq. injection Hq as <-. exists m. repeat split; [done|]. simpl. lia.
      * rewrite Hq1 in Hq by done. by exists n'.
    + intros q n0 Hqd Hq Hq0 Hqp. rewrite Hq1; [done|intros ->; rewrite Hm in Hq; injection Hq as <-; exact (counted_parents _ _ p n c m k Hc Hqd Hp Hk Hm Hq0)|done].
Qed.

(** ** What is left *)

Definition unreferenced (ns : gmap Hash cachedNode) (r : Hash) : Prop := exists n, ns !! r = Some n /\ parents n = 0.

Lemma rank_bounded (ns : gmap Hash cachedNode) : exists top, forall q, is_Some (ns !! q) -> (rank q <= top)%nat.
Proof.
  induction ns as [|p n ns Hp [top IH]] using map_ind; [exists O; intros q [? Hq]; by rewrite lookup_empty in Hq|].
  exists (Nat.max top (rank p)). intros q [m Hq]. apply lookup_insert_Some in Hq as [[<- _]|[_ Hq]]; [lia|].
  assert (rank q <= top)%nat by (apply IH; by eexists). lia.
Qed.

Lemma reach_trans ns a b c : reach ns a b -> reach ns b c -> reach ns a c.
Proof. intros Hab Hbc. induction Hab; [done|by eapply reach_step; eauto]. Qed.

(** Every node is below one that nothing refers to. *)
Lemma climb d ns q : counted d ns -> ranked rank ns -> d !! q = None -> is_Some (ns !! q) -> exists r, unreferenced ns r /\ reach ns r q.
Proof.
  intros Hc Hr. destruct (rank_bounded ns) as [top Htop]. remember (top - rank q)%nat as k eqn:Ek. revert q Ek.
  induction k as [k IH] using lt_wf_ind. intros q -> Hd [n Hn]. destruct (decide (parents n = 0)) as [E|E].
  - exists q. split; [by exists n|constructor].
  - rewrite (c_parents _ _ Hc q n Hd Hn) in E. destruct (cnt_pos ns q E) as (p & m & Hp & Hm).
    pose proof (Hr p m q Hp Hm). assert (rank p <= top)%nat by (apply Htop; by eexists).
    destruct (IH (top - rank p)%nat ltac:(lia) p eq_refl (c_down _ _ Hc p m q Hp Hm Hd) (ex_intro _ m Hp)) as (r & Hur & Hrp).
    exists r. split; [done|]. eapply reach_trans; [done|]. eapply reach_step; [done|done|constructor].
Qed.

Lemma reach_children ns ns' h x : (forall y n', ns' !! y = Some n' -> exists n, ns !! y = Some n /\ children n' = children n) ->
  reach ns' h x -> reach ns h x.
Proof.
  intros Hs. induction 1 as [|h n c x Hn Hc _ IH]; [constructor|]. destruct (Hs h n Hn) as (n0 & Hn0 & E). rewrite E in Hc.
  by eapply reach_step.
Qed.

(** What is not on disk is below nothing on disk. *)
Definition downward (d : MemDatabase.t) (ns : gmap Hash cachedNode) : Prop :=
  forall p n h, ns !! p = Some n -> is_Some (children n !! h) -> d !! h = None -> d !! p = None.

Lemma reach_down d ns h x : downward d ns -> reach ns h x -> d !! x = None -> d !! h = None.
Proof. intros Hc. induction 1 as [|h n c x Hn Hch _ IH]; [done|]. intros Hx. apply (Hc h n c Hn Hch). auto. Qed.

Lemma reach_stays d ns ns' h x : counted d ns' -> downward d ns ->
  (forall y n', ns' !! y = Some n' -> exists n, ns !! y = Some n /\ children n' = children n) ->
  reach ns h x -> d !! x = None -> is_Some (ns' !! h) -> is_Some (ns' !! x).
Proof.
  intros Hc Hc0 Hs. induction 1 as [|h n c x Hn Hch Hrx IH]; [done|]. intros Hx [n' Hn']. apply IH; [done|].
  destruct (Hs h n' Hn') as (n0 & Hn0 & E). simplify_eq. rewrite <-E in Hch. destruct Hch as [k Hk].
  destruct (c_child _ _ Hc h n' c k Hn' Hk) as (_ & H & _). apply H. by eapply (reach_down d ns).
Qed.

(** Which nodes are left, among those that are not on disk; the others can be
    read as before. *)
Lemma dereference_exact fuel db p c n : counted (diskdb db) (nodes db) -> ranked rank (nodes db) ->
  nodes db !! p = Some n -> is_Some (children n !! c) -> (rank p <= fuel)%nat ->
  exists db', dereference range fuel db c p = Ok db' /\ counted (diskdb db) (nodes db') /\ ranked rank (nodes db') /\ diskdb db' = diskdb db /\
    (forall q, diskdb db !! q = None -> is_Some (nodes db' !! q) <->
       exists r, unreferenced (nodes db) r /\ reach (<[p := drop_child c n]> (nodes db)) r q) /\
    (forall q m, nodes db' !! q = Some m -> exists m0, nodes db !! q = Some m0 /\ blob m = blob m0 /\
       forall h, is_Some (children m !! h) -> is_Some (children m0 !! h)).
Proof.
  intros Hc Hr Hp Hch Hb. destruct (dereference_drops fuel db p c n Hc Hr Hp Hch Hb) as (db' & -> & Hc' & Hr' & Hp' & Hd & [Ga Gb Gr]).
  exists db'. rewrite Hd in Hc'. repeat (split; [done|]).
  assert (forall y n', nodes db' !! y = Some n' -> exists m, <[p := drop_child c n]> (nodes db) !! y = Some m /\ children n' = children m) as Hsame.
  { intros y n' Hy. destruct (decide (y = p)) as [->|Hne]; [exists (drop_child c n); rewrite lookup_insert_eq; split; [done|congruence]|].
    destruct (Gb y n' Hy Hne) as (m & Hm & _ & E & _). exists m. by rewrite lookup_insert_ne. }
  split; [intros q Hq0; split|].
  - intros Hq. destruct (climb _ _ q Hc' Hr' Hq0 Hq) as (r & (m & Hm & Hm0) & Hrq). exists r. split; [|by eapply reach_children].
    destruct (decide (r = p)) as [->|Hne]; [exists n; split; [done|]; rewrite Hp' in Hm; by injection Hm as <-|].
    destruct (Gb r m Hm Hne) as (m0 & H0 & _ & _ & HH). exists m0. auto.
  - intros (r & (m & Hm & Hm0) & Hrq). assert (downward (diskdb db) (<[p := drop_child c n]> (nodes db))) as Hdw.
    { intros q1 n1 h [[<- <-]|[_ Hq1]]%lookup_insert_Some [x Hh]; [|apply (c_down _ _ Hc q1 n1 h Hq1); by eexists].
      apply (c_down _ _ Hc p n h Hp). by eapply drop_child_some. }
    eapply reach_stays; [exact Hc'|exact Hdw|exact Hsame|exact Hrq|done|].
    destruct (decide (r = p)) as [->|Hne]; [by eexists|]. exists m. apply Gr; [by eapply reach_down|done..].
  - intros q m Hq. destruct (decide (q = p)) as [->|Hne].
    + exists n. rewrite Hp' in Hq. injection Hq as <-. split; [done|]. split; [done|]. intros h [x Hx]. by eapply drop_child_some.
    + destruct (Gb q m Hq Hne) as (m0 & ? & E & Ech & _). exists m0. rewrite Ech. done.
Qed.

End Collect.

End TrieDbSpec.
