(* ===== verification/TrieDbLaws.v ===== *)
(** * The node store: what it promises

    The reference counts of the nodes that are not on disk are exact
    ([refcounts_exact]), collecting garbage removes exactly those of them that
    cannot be reached any more and loses nothing that can ([gc_exact]), and a commit moves a trie to disk without changing what is
    read under any hash ([commit_keeps_nodes]). *)

From Stdlib Require Import Lia String.
From stdpp Require Import base numbers list gmap strings.
From S2P Require Import Prelude BigInt Types TrieDb TrieDbSpec.
Import Common MemDatabase TrieDb TrieDbSpec.

#[local] Open Scope Z_scope.
#[local] Open Scope go_scope.

Module TrieDbLaws.

(** An enumeration of the keys of a map, each once: what ranging over a map
    is.  The order is left open. *)
Record enumerates (range : forall A, gmap Hash A -> list Hash) : Prop := {
  range_all A (m : gmap Hash A) h : h ∈ range A m <-> is_Some (m !! h);
  range_once A (m : gmap Hash A) : NoDup (range A m)
}.

Section Laws.
Context (range : forall A, gmap Hash A -> list Hash) (rank : Hash -> nat).

(** ** Counting *)

(** The states of a store: nodes and preimages are added, references are added
    from a node to a node below it (a blob holds the hashes of its children, so
    there are no cycles), references that are there are dropped, and tries are
    committed.  A hash stands for one blob: what is on disk comes back with the
    blob it has there, and below it only nodes that are on disk too. *)
Inductive grown : Database -> Prop :=
| grown_new disk : disk !! zeroHash = None -> grown (NewDatabase disk)
| grown_insert db h b : grown db -> length h = 32%nat -> diskdb db !! h = None \/ diskdb db !! h = Some (Some b) ->
    grown (insert db h b)
| grown_preimage db h b : grown db -> length h = 32%nat -> grown (insertPreimage db h b)
| grown_reference db c p db' : grown db -> c <> zeroHash -> (rank c < rank p)%nat ->
    (diskdb db !! c = None -> diskdb db !! p = None) -> reference db c p = Ok db' -> grown db'
| grown_dereference db c p n fuel db' : grown db -> nodes db !! p = Some n -> is_Some (children n !! c) ->
    (rank p <= fuel)%nat -> Dereference range fuel db c p = Ok db' -> grown db'
| grown_commit db h fuel db' : grown db -> (rank h < fuel)%nat -> Commit range fuel db h = Ok db' -> grown db'.

Record sound (db : Database) : Prop := {
  s_counted : counted (diskdb db) (nodes db);
  s_ranked : ranked rank (nodes db);
  s_blob h n v : nodes db !! h = Some n -> diskdb db !! h = Some v -> v = blob n;
  s_nodes h : is_Some (nodes db !! h) -> length h = 32%nat;
  s_children p n h : nodes db !! p = Some n -> is_Some (children n !! h) -> length h = 32%nat;
  s_preimages p : is_Some (preimages db !! p) -> length p = 32%nat
}.

Lemma sound_new disk : disk !! zeroHash = None -> sound (NewDatabase disk).
Proof.
  intros Hz. split; simpl.
  - split.
    + intros h n _ Hn. apply lookup_singleton_Some in Hn as [<- <-]. simpl. unfold cnt. by rewrite map_fold_singleton.
    + intros p n h c Hn Hc. apply lookup_singleton_Some in Hn as [<- <-]. simpl in Hc. by rewrite lookup_empty in Hc.
    + intros p n h Hn _ _. by apply lookup_singleton_Some in Hn as [<- <-].
  - intros p n c Hn [k Hc]. apply lookup_singleton_Some in Hn as [<- <-]. simpl in Hc. by rewrite lookup_empty in Hc.
  - intros h n v Hn Hv. apply lookup_singleton_Some in Hn as [<- <-]. congruence.
  - intros h [n Hn]. by apply lookup_singleton_Some in Hn as [<- <-].
  - intros p n h Hn [k Hc]. apply lookup_singleton_Some in Hn as [<- <-]. simpl in Hc. by rewrite lookup_empty in Hc.
  - intros p [b Hb]. by rewrite lookup_empty in Hb.
Qed.

Lemma insert_sound db h b : length h = 32%nat -> diskdb db !! h = None \/ diskdb db !! h = Some (Some b) ->
  sound db -> sound (insert db h b).
Proof.
  intros Hl Hd [Hc Hr Hb Hn Hk Hp]. unfold insert. destruct (nodes db !! h) as [n|] eqn:En; [done|].
  split; simpl; [by apply counted_insert|..|done].
  - intros q n' c [[<- <-]|[_ Hq]]%lookup_insert_Some Hc'; [|by apply (Hr q n' c Hq)].
    simpl in Hc'. rewrite lookup_empty in Hc'. by destruct Hc'.
  - intros q n' v [[<- <-]|[_ Hq]]%lookup_insert_Some Hv; [destruct Hd; simpl; congruence|by apply (Hb q)].
  - intros q [n' [[<- <-]|[_ Hq]]%lookup_insert_Some]; [done|]. apply Hn. by eexists.
  - intros p n' c [[<- <-]|[_ Hq]]%lookup_insert_Some Hc'; [|by apply (Hk p n' c Hq)].
    simpl in Hc'. rewrite lookup_empty in Hc'. by destruct Hc'.
Qed.

Lemma insertPreimage_sound db h b : length h = 32%nat -> sound db -> sound (insertPreimage db h b).
Proof.
  intros Hl [Hc Hr Hb Hn Hk Hp]. unfold insertPreimage. destruct (preimages db !! h) eqn:E; [done|]. split; simpl; try done.
  intros p [x [[<- _]|[_ Hx]]%lookup_insert_Some]; [done|]. apply Hp. by eexists.
Qed.

Lemma reference_sound db c p db' : c <> zeroHash -> (rank c < rank p)%nat -> (diskdb db !! c = None -> diskdb db !! p = None) ->
  reference db c p = Ok db' -> sound db -> sound db'.
Proof.
  intros Hz Hlt Hdown H [Hc Hr Hb Hn Hk Hps]. unfold reference in H. destruct (nodes db !! c) as [m|] eqn:Em; [|by injection H as <-].
  destruct (nodes db !! p) as [n|] eqn:En; [|done]. assert (p <> c) as Hne by (intros ->; lia).
  destruct (bool_decide _ && _) eqn:Eb; injection H as <-; [done|].
  assert (forall f (ns : gmap Hash cachedNode), ns !! p = Some n -> alter f p ns = <[p := f n]> ns) as Halter.
  { intros f ns Hp. apply map_eq. intros q. destruct (decide (q = p)) as [->|Hq];
      [by rewrite lookup_alter_eq, lookup_insert_eq, Hp|by rewrite lookup_alter_ne, lookup_insert_ne]. }
  assert (forall q n', (<[p := add_child c n]> (<[c := add_parent m]> (nodes db))) !! q = Some n' ->
    exists n0, nodes db !! q = Some n0 /\ blob n' = blob n0 /\
      forall h, is_Some (children n' !! h) -> is_Some (children n0 !! h) \/ (q = p /\ h = c)) as Hold.
  { intros q n' [[<- <-]|[_ [[<- <-]|[_ Hq]]%lookup_insert_Some]]%lookup_insert_Some.
    - exists n. split; [done|]. split; [done|]. intros h Hh. destruct (decide (h = c)) as [->|Hhc]; [by right|left].
      simpl in Hh. by rewrite lookup_insert_ne in Hh.
    - exists m. auto.
    - exists n'. auto. }
  split; simpl; rewrite ?Halter by (by rewrite lookup_insert_ne); [..|done].
  - apply (counted_add _ _ p n c m); try done. intros Hp. destruct (children n !! c) as [k|]; [|done]. exfalso.
    rewrite bool_decide_true in Eb by (by eexists). by rewrite bool_decide_false in Eb.
  - intros q n' h Hq Hh. destruct (Hold q n' Hq) as (n0 & H0 & _ & Hch). destruct (Hch h Hh) as [Hh'|[-> ->]]; [by apply (Hr q n0 h H0)|done].
  - intros q n' v Hq Hv. destruct (Hold q n' Hq) as (n0 & H0 & -> & _). by apply (Hb q).
  - intros q [n' Hq]. destruct (Hold q n' Hq) as (n0 & H0 & _). apply Hn. by eexists.
  - intros q n' h Hq Hh. destruct (Hold q n' Hq) as (n0 & H0 & _ & Hch). destruct (Hch h Hh) as [Hh'|[-> ->]]; [by apply (Hk q n0 h H0)|].
    apply Hn. by eexists.
Qed.

Lemma dereference_preimages fuel db c p d : dereference range fuel db c p = Ok d -> preimages d = preimages db.
Proof.
  revert db c p d. induction fuel as [|fuel IH]; intros db c p d H; [done|]. cbn [dereference] in H.
  destruct (nodes db !! p) as [n|]; [|done]. simpl in H. destruct (_ !! c) as [m|]; [|by injection H as <-]. simpl in H.
  destruct (_ =? 0); [|by injection H as <-]. apply rbind_Ok_inv in H as (d1 & H & H1). injection H1 as <-. simpl.
  change (preimages db) with (preimages (set_nodes (<[c := drop_parent m]> (<[p := drop_child c n]> (nodes db)))
    (set_nodes (<[p := drop_child c n]> (nodes db)) db))).
  revert H. generalize (range Z (children m)) as hs. generalize (set_nodes (<[c := drop_parent m]> (<[p := drop_child c n]> (nodes db)))
    (set_nodes (<[p := drop_child c n]> (nodes db)) db)) as d0. intros d0 hs. revert d0.
  induction hs as [|h hs IHhs]; intros d0 H; [by injection H as <-|].
  apply rbind_Ok_inv in H as (d2 & E1 & E2). rewrite (IHhs _ E2). by eapply IH.
Qed.

Lemma Dereference_nodes fuel db c p db' : Dereference range fuel db c p = Ok db' ->
  exists d, dereference range fuel db c p = Ok d /\ nodes db' = nodes d /\ diskdb db' = diskdb d /\ preimages db' = preimages d.
Proof. intros H. apply rbind_Ok_inv in H as (d & E & H). injection H as <-. by exists d. Qed.

Lemma dereference_sound fuel db c p n db' : enumerates range -> sound db -> nodes db !! p = Some n -> is_Some (children n !! c) ->
  (rank p <= fuel)%nat -> Dereference range fuel db c p = Ok db' -> sound db'.
Proof.
  intros He [Hc Hr Hb Hn Hk Hps] Hp Hch Hf H. apply Dereference_nodes in H as (d & E & H1 & H2 & H3).
  destruct (dereference_exact range (range_all _ He) (range_once _ He) rank fuel db p c n Hc Hr Hp Hch Hf)
    as (d' & E' & Hc' & Hr' & Hd & _ & Hold).
  rewrite E in E'. injection E' as <-. rewrite Hd in H2. split; rewrite ?H1, ?H2, ?H3; try done.
  - intros h m v Hm Hv. destruct (Hold h m Hm) as (m0 & Hm0 & -> & _). by apply (Hb h).
  - intros h [m Hm]. destruct (Hold h m Hm) as (m0 & Hm0 & _). apply Hn. by eexists.
  - intros q m h Hm Hh. destruct (Hold q m Hm) as (m0 & Hm0 & _ & Hsub). apply (Hk q m0 h Hm0). auto.
  - rewrite (dereference_preimages _ _ _ _ _ E). done.
Qed.

Lemma commit_total fuel ns h disk b : (forall A m c, c ∈ range A m -> is_Some (m !! c)) -> ranked rank ns -> (rank h < fuel)%nat ->
  exists r, commit range fuel ns h disk b = Ok r.
Proof.
  intros He Hr. revert h disk b. induction fuel as [|fuel IH]; intros h disk b Hf; [lia|]. cbn [commit].
  destruct (ns !! h) as [n|] eqn:En; [|by eexists].
  assert (forall c, c ∈ range _ (children n) -> (rank c < fuel)%nat) as Hc by (intros c Hc; pose proof (Hr h n c En (He _ _ _ Hc)); lia).
  revert disk b. induction (range _ (children n)) as [|c hs IHhs]; intros disk b; [by eexists|].
  destruct (IH c disk b) as [[d1 b1] ->]; [apply Hc; by apply elem_of_cons; left|]. cbn [rbind].
  apply IHhs. intros e He'. apply Hc. by apply elem_of_cons; right.
Qed.

(** Removed nodes take everything below them along. *)
Definition closed (ns : gmap Hash cachedNode) (d : Database) : Prop :=
  (forall y n, nodes d !! y = Some n -> ns !! y = Some n) /\
  (forall y n c, ns !! y = Some n -> nodes d !! y = None -> is_Some (children n !! c) -> nodes d !! c = None).

Lemma uncache_closed fuel ns h d : (forall A m c, c ∈ range A m <-> is_Some (m !! c)) -> ranked rank ns -> (rank h < fuel)%nat ->
  closed ns d -> exists d', uncache range fuel d h = Ok d' /\ closed ns d' /\ nodes d' !! h = None /\
    (forall y, nodes d !! y = None -> nodes d' !! y = None) /\ diskdb d' = diskdb d /\ preimages d' = preimages d.
Proof.
  intros He Hr. revert h d. induction fuel as [|fuel IH]; intros h d Hf Hd; [lia|]. cbn [uncache].
  destruct (nodes d !! h) as [n|] eqn:En; [|exists d; auto 10]. pose proof (proj1 Hd h n En) as Hn.
  assert (exists d1, (fix each hs d := match hs with [] => Ok d | c :: hs => let? d := uncache range fuel d c in each hs d end)
    (range _ (children n)) d = Ok d1 /\ closed ns d1 /\ (forall c, c ∈ range _ (children n) -> nodes d1 !! c = None) /\
    (forall y, nodes d !! y = None -> nodes d1 !! y = None) /\ diskdb d1 = diskdb d /\ preimages d1 = preimages d) as (d1 & E1 & H1 & Hc1 & Hm1 & Hk1 & Hp1).
  { assert (forall c, c ∈ range _ (children n) -> (rank c < fuel)%nat) as Hc by (intros c Hc%He; pose proof (Hr h n c Hn Hc); lia).
    clear En. revert d Hd. induction (range _ (children n)) as [|c hs IHhs]; intros d Hd.
    { exists d. repeat (split; [done|]). split; [by intros c ?%not_elem_of_nil|done]. }
    destruct (IH c d) as (d1 & -> & H1 & Hc1 & Hm1 & Hk1 & Hp1); [apply Hc; by apply elem_of_cons; left|done|]. cbn [rbind].
    destruct (IHhs ltac:(intros e ?; apply Hc; by apply elem_of_cons; right) d1 H1) as (d2 & E2 & H2 & Hc2 & Hm2 & Hk2 & Hp2).
    exists d2. split; [exact E2|]. split; [done|]. split; [|split; [auto|split; congruence]].
    intros e He'. apply elem_of_cons in He' as [->|He']; auto. }
  rewrite E1. cbn [rbind]. eexists. split; [reflexivity|]. simpl. rewrite lookup_delete_eq.
  split; [|split; [done|]; split; [intros y Hy; apply lookup_delete_None; right; auto|done]]. destruct H1 as [S1 C1]. split.
  - intros y m Hy. simpl in Hy. apply lookup_delete_Some in Hy as [_ Hy]. auto.
  - intros y m c Hy Hg Hc. simpl in *. apply lookup_delete_None. destruct (decide (c = h)) as [->|Hch]; [by left|right].
    apply lookup_delete_None in Hg as [<-|Hg]; [|by apply (C1 y m)]. apply Hc1, He. congruence.
Qed.

Lemma closed_reach ns d h x : closed ns d -> reach ns h x -> nodes d !! h = None -> nodes d !! x = None.
Proof. intros [_ C]. induction 1 as [|h n c x Hn Hc _ IH]; [done|]. intros Hh. apply IH. by apply (C h n). Qed.

(** The parts of a commit: what is below the root is written and leaves memory,
    the rest stays as it is in memory and, under the keys of nodes, on disk. *)
Lemma Commit_parts fuel db h db' : enumerates range -> sound db -> (rank h < fuel)%nat -> Commit range fuel db h = Ok db' ->
  preimages db' = ∅ /\
  (forall x n, nodes db !! x = Some n -> reach (nodes db) h x -> nodes db' !! x = None /\ diskdb db' !! x = Some (blob n)) /\
  (forall x, length x = 32%nat -> ~ reach (nodes db) h x -> nodes db' !! x = nodes db !! x /\ diskdb db' !! x = diskdb db !! x) /\
  (forall x n, nodes db' !! x = Some n -> nodes db !! x = Some n /\ ~ reach (nodes db) h x) /\
  (forall x, length x = 32%nat -> diskdb db' !! x = None -> diskdb db !! x = None).
Proof.
  intros [He Hnd] [Hc Hr Hb Hn Hk Hps] Hf H. unfold Commit in H.
  destruct (put_preimages _ _ (diskdb db) NewBatch) as [d1 b1] eqn:Ep.
  assert (forall x, length x = 32%nat -> pending d1 b1 !! x = diskdb db !! x) as Hd1.
  { intros x Hx. pose proof (put_preimages_other (preimages db) (range _ (preimages db)) (diskdb db) NewBatch x Hx) as E.
    rewrite Ep in E. apply E. intros p Hp. by apply Hps, He. }
  apply rbind_Ok_inv in H as ([d2 b2] & Ecm & H). apply rbind_Ok_inv in H as (db2 & Hu & H). injection H as <-. simpl.
  pose proof (commit_written range He _ _ _ _ _ _ _ Ecm) as [Hall Honly].
  pose proof (fun x => commit_reaches range He _ _ _ _ _ _ _ x Ecm) as Hreach.
  pose proof (uncache_shrinks range He _ _ _ _ Hu) as [Hs _]. simpl in Hs.
  set (dbx := set_preimages ∅ 0 (set_disk (batch_Write b2 d2) db)) in *.
  destruct (uncache_closed fuel (nodes db) h dbx He Hr Hf) as (dby & Eu & Hcl & Hgone & _ & Hdisk & Hpre).
  { split; [done|]. intros y n c Hy Hy'. simpl in Hy'. congruence. }
  rewrite Hu in Eu. injection Eu as <-. rewrite Hdisk, Hpre. simpl. change (batch_Write b2 d2) with (pending d2 b2).
  split; [done|]. split; [|split; [|split]].
  - intros x n Hx Hrx. split; [by eapply closed_reach|by apply Hall].
  - intros x Hx Hnr. split; [destruct (Hs x) as [?|[_ ?]]; done|]. destruct (Hreach x) as [->|?]; [by apply Hd1|done].
  - intros x n Hx. split; [by apply (proj1 Hcl)|]. intros Hrx. pose proof (closed_reach _ _ _ _ Hcl Hrx Hgone). congruence.
  - intros x Hx Hnone. destruct (Honly x) as [E|(n & _ & E)]; rewrite E in Hnone; [by rewrite <-Hd1|done].
Qed.

Lemma reach_end ns h x n c : reach ns h x -> ns !! x = Some n -> is_Some (children n !! c) -> reach ns h c.
Proof. induction 1 as [|h m e x Hm He _ IH]; intros Hx Hc; [eapply reach_step; [done|done|constructor]|]. eapply reach_step; eauto. Qed.

Lemma commit_sound fuel db h db' : enumerates range -> sound db -> (rank h < fuel)%nat -> Commit range fuel db h = Ok db' -> sound db'.
Proof.
  intros He Hsd Hf H. destruct (Commit_parts fuel db h db' He Hsd Hf H) as (Hp & Hgone & Hstay & Hold & Hdisk).
  destruct Hsd as [Hc Hr Hb Hn Hk Hps].
  assert (forall p n q, nodes db !! p = Some n -> is_Some (children n !! q) -> diskdb db' !! q = None -> ~ reach (nodes db) h p) as Habove.
  { intros p n q Hpn [k Hq] Hd Hrp. assert (is_Some (nodes db !! q)) as [m Hm].
    { apply (c_child _ _ Hc p n q k Hpn Hq). apply Hdisk; [|done]. apply (Hk p n q Hpn). by eexists. }
    destruct (Hgone q m Hm) as [_ E]; [eapply reach_end; [exact Hrp|exact Hpn|by eexists]|]. congruence. }
  split; [split|..].
  - intros x n Hd Hx. destruct (Hold x n Hx) as [Hx0 Hnr]. rewrite (c_parents _ _ Hc x n); [|apply Hdisk; [apply Hn; by eexists|done]|done].
    symmetry. apply cnt_shrink. intros y. destruct (nodes db' !! y) as [m|] eqn:Ey; [left; by destruct (Hold y m Ey)|].
    destruct (nodes db !! y) as [m|] eqn:Ey0; [right|by left]. split; [done|]. intros m' [= <-].
    unfold refs. destruct (children m !! x) as [k|] eqn:Ek; [|done]. exfalso. apply (Habove y m x Ey0 (ex_intro _ k Ek) Hd).
    destruct (Hstay y) as [E _]; [apply Hn; by eexists| |congruence]. by apply (Habove y m x Ey0).
  - intros p n x k Hpn Hx. destruct (Hold p n Hpn) as [Hp0 Hnr]. destruct (c_child _ _ Hc p n x k Hp0 Hx) as (H1 & H2 & H3).
    split; [done|]. split; [|done]. intros Hd. assert (length x = 32%nat) as Hl by (apply (Hk p n x Hp0); by eexists).
    destruct (H2 (Hdisk x Hl Hd)) as [m Hm]. destruct (Hstay x Hl) as [E _]; [|rewrite E; by eexists].
    intros Hrx. destruct (Hgone x m Hm Hrx). congruence.
  - intros p n x Hpn Hx Hd. destruct (Hold p n Hpn) as [Hp0 Hnr]. destruct (Hstay p) as [_ ->]; [apply Hn; by eexists|done|].
    apply (c_down _ _ Hc p n x Hp0 Hx). apply Hdisk; [by apply (Hk p n x Hp0)|done].
  - intros p n x Hpn. destruct (Hold p n Hpn) as [Hp0 _]. by apply Hr.
  - intros x n v Hx Hv. destruct (Hold x n Hx) as [Hx0 Hnr]. apply (Hb x n v Hx0). by destruct (Hstay x) as [_ <-]; [apply Hn; by eexists|done|].
  - intros x [n Hx]. apply Hn. destruct (Hold x n Hx) as [? _]. by eexists.
  - intros p n x Hpn. destruct (Hold p n Hpn) as [Hp0 _]. by apply (Hk p n x).
  - intros p. rewrite Hp, lookup_empty. by intros [? ?].
Qed.

Lemma grown_sound db : enumerates range -> grown db -> sound db.
Proof.
  intros He. induction 1; eauto using sound_new, insert_sound, insertPreimage_sound, reference_sound, dereference_sound, commit_sound.
Qed.

(** Whatever is added, referenced, dropped and committed, the count of every node
    that is not on disk is the number of references to it, every reference is to
    a node of the store or of the disk, only the holder of the roots refers to a
    node more than once and nothing refers to that holder. *)
Theorem refcounts_exact (db : Database) : enumerates range -> grown db ->
  (forall h n, diskdb db !! h = None -> nodes db !! h = Some n -> parents n = cnt (nodes db) h) /\
  (forall p n h c, nodes db !! p = Some n -> children n !! h = Some c ->
     0 < c /\ (diskdb db !! h = None -> is_Some (nodes db !! h)) /\ h <> zeroHash /\ (p <> zeroHash -> c = 1)).
Proof. intros He Hg. destruct (s_counted _ (grown_sound db He Hg)) as [H1 H2 _]. by split. Qed.

(** ** Collecting *)

(** C24: Dropping a reference ends within the fuel, whatever was added, referenced,
    dropped and committed before.  The disk is not touched.  Of the nodes that
    are not on disk it keeps exactly those that can be reached, without that
    reference, from a node nothing referred to (the holder of the roots is one);
    and what is kept or on disk, every node that can be reached among it, is
    read as before. *)
Theorem gc_exact (fuel : nat) (db : Database) (c p : Hash) (n : cachedNode) :
  enumerates range -> grown db -> nodes db !! p = Some n -> is_Some (children n !! c) -> (rank p <= fuel)%nat ->
  exists db', Dereference range fuel db c p = Ok db' /\ diskdb db' = diskdb db /\
    (forall q, diskdb db !! q = None -> is_Some (nodes db' !! q) <->
       exists r, unreferenced (nodes db) r /\ reach (<[p := drop_child c n]> (nodes db)) r q) /\
    (forall q, is_Some (nodes db' !! q) \/ is_Some (diskdb db !! q) -> Node db' q = Node db q).
Proof.
  intros He Hg Hp Hch Hf. destruct (grown_sound db He Hg) as [Hc Hr Hb _ _ _].
  destruct (dereference_exact range (range_all _ He) (range_once _ He) rank fuel db p c n Hc Hr Hp Hch Hf) as (d & E & _ & _ & Hd & Hq & Hold).
  eexists. split; [unfold Dereference; rewrite E; reflexivity|]. simpl. split; [done|]. split; [done|].
  intros q Hin. unfold Node. simpl. rewrite Hd. destruct (nodes d !! q) as [m|] eqn:Em.
  - by destruct (Hold q m Em) as (m0 & -> & -> & _).
  - destruct Hin as [[? ?]|[v Hv]]; [done|]. unfold Get. rewrite Hv. destruct (nodes db !! q) as [m|] eqn:Em0; [|done].
    by rewrite (Hb q m v).
Qed.

(** ** Committing *)

(** A written preimage. *)
Lemma put_preimages_all ps hs disk b p : p ∈ hs -> NoDup hs ->
  pending (fst (put_preimages ps hs disk b)) (snd (put_preimages ps hs disk b)) !! secureKey p = Some (ps !! p).
Proof.
  intros Hin Hnd. revert disk b. induction Hnd as [|h hs Hh _ IH]; intros disk b; [by apply not_elem_of_nil in Hin|]. cbn [put_preimages].
  destruct (flush _ disk _) as [d1 b1] eqn:Ef. apply elem_of_cons in Hin as [->|Hin]; [|by apply IH].
  assert (pending d1 b1 !! secureKey h = Some (ps !! h)) as H1.
  { change d1 with (fst (d1, b1)). change b1 with (snd (d1, b1)) at 2. by rewrite <-Ef, pending_flush, pending_put, lookup_insert_eq. }
  clear Ef IH. revert d1 b1 H1. induction hs as [|e hs IH]; intros d1 b1 H1; [done|]. cbn [put_preimages].
  apply not_elem_of_cons in Hh as [Hne Hh]. destruct (flush _ d1 _) as [d2 b2] eqn:Ef. apply IH; [done|].
  change d2 with (fst (d2, b2)). change b2 with (snd (d2, b2)) at 2. rewrite <-Ef, pending_flush, pending_put, lookup_insert_ne; [done|].
  unfold secureKey. intros E. by apply app_inv_head in E.
Qed.

(** A commit ends within the fuel.  It changes what is read under no hash: the
    nodes below the root it is given have left memory and are on disk with
    their blobs, the others are untouched; and the preimages of keys, which are
    written out and forgotten, are still found. *)
Theorem commit_keeps_nodes (fuel : nat) (db : Database) (h : Hash) :
  enumerates range -> ranked rank (nodes db) -> (rank h < fuel)%nat ->
  (forall p, is_Some (preimages db !! p) -> length p = 32%nat) ->
  (forall x, is_Some (nodes db !! x) -> length x = 32%nat) ->
  exists db', Commit range fuel db h = Ok db' /\
    (forall x, length x = 32%nat -> node_blob db' x = node_blob db x) /\
    (forall x n, reach (nodes db) h x -> nodes db !! x = Some n -> nodes db' !! x = None /\ diskdb db' !! x = Some (blob n)) /\
    (forall p, is_Some (preimages db !! p) -> preimage db' p = preimage db p).
Proof.
  intros [He Hnd] Hr Hf Hpre Hn. unfold Commit.
  destruct (put_preimages _ _ (diskdb db) NewBatch) as [d1 b1] eqn:Ep.
  destruct (commit_total fuel (nodes db) h d1 b1 (fun A m c => proj1 (He A m c)) Hr Hf) as [[d2 b2] Ec].
  set (dbx := set_preimages ∅ 0 (set_disk (batch_Write b2 d2) db)).
  destruct (uncache_closed fuel (nodes db) h dbx He Hr Hf) as (dby & Eu & Hcl & Hgone & _ & Hdisk & Hps).
  { split; [done|]. intros y n c Hy Hy'. simpl in Hy'. congruence. }
  assert (Commit range fuel db h = Ok (set_gc 0 0 dby)) as EC by (unfold Commit; rewrite Ep; cbn iota beta; rewrite Ec; cbn [rbind]; fold dbx; by rewrite Eu).
  exists (set_gc 0 0 dby). rewrite Ec. cbn [rbind]. fold dbx. rewrite Eu. cbn [rbind]. split; [done|]. split; [|split].
  - intros x Hx. by eapply Commit_keeps.
  - intros x n Hx Hxn. simpl. rewrite (closed_reach _ _ _ _ Hcl Hx Hgone). split; [done|]. rewrite Hdisk. simpl.
    apply (commit_written range He) in Ec as [Hall _]. by apply Hall.
  - intros p Hp. unfold preimage. simpl. rewrite Hps, Hdisk. simpl. rewrite lookup_empty. unfold Get.
    apply (commit_written range He) in Ec as [_ Honly]. change (batch_Write b2 d2) with (pending d2 b2).
    destruct (Honly (secureKey p)) as [->|(n & Hsn & _)].
    + pose proof (put_preimages_all (preimages db) (range _ (preimages db)) (diskdb db) NewBatch p) as Hw. rewrite Ep in Hw. cbn [fst snd] in Hw.
      rewrite Hw; [|by apply He|done]. destruct Hp as [k ->]. done.
    + pose proof (Hn (secureKey p) (ex_intro _ n Hsn)) as Hl. unfold secureKey in Hl. rewrite length_app, (Hpre p Hp) in Hl.
      vm_compute in Hl. discriminate.
Qed.

End Laws.

(** ** Examples *)

Definition keys_of A (m : gmap Hash A) : list Hash := (map_to_list m).*1.

Lemma keys_of_enumerates : enumerates keys_of.
Proof.
  split.
  - intros A m h. unfold keys_of. rewrite list_elem_of_fmap. split.
    + intros ([k x] & -> & Hx%elem_of_map_to_list). by exists x.
    + intros [x Hx]. exists (h, x). by rewrite elem_of_map_to_list.
  - intros A m. apply NoDup_fst_map_to_list.
Qed.

(** Hashes [0] (the holder of the roots), [1], [2], ... *)
Definition hash_at (i : Z) : Hash := replicate 31 0 ++ [i].

(** The holder of the roots is above the roots, and larger numbers are below. *)
Definition rank_at (h : Hash) : nat := 10 - Z.to_nat (List.nth 31 h 0).

Definition step_ok (r : result Database) (db : Database) : Database := match r with Ok db' => db' | _ => db end.

(** Two roots, [1] and [2], that share the node [4], and a node [5] below it. *)
Definition two_roots : Database :=
  let db := insert (insert (insert (insert (NewDatabase ∅) (hash_at 5) [5]) (hash_at 4) [4]) (hash_at 1) [1]) (hash_at 2) [2] in
  let db := step_ok (reference db (hash_at 5) (hash_at 4)) db in
  let db := step_ok (reference db (hash_at 4) (hash_at 1)) db in
  let db := step_ok (reference db (hash_at 4) (hash_at 2)) db in
  let db := step_ok (reference db (hash_at 1) (hash_at 0)) db in
  step_ok (reference db (hash_at 2) (hash_at 0)) db.

(** The first root is committed; then a third one, [3], brings the shared node
    back. *)
Definition third_root : Database :=
  let db := step_ok (Commit keys_of 20 two_roots (hash_at 1)) two_roots in
  let db := insert (insert db (hash_at 4) [4]) (hash_at 3) [3] in
  let db := step_ok (reference db (hash_at 4) (hash_at 3)) db in
  step_ok (reference db (hash_at 3) (hash_at 0)) db.

Lemma grown_step db c p : c <> zeroHash -> (rank_at c < rank_at p)%nat -> (diskdb db !! c = None -> diskdb db !! p = None) ->
  grown keys_of rank_at db -> grown keys_of rank_at (step_ok (reference db c p) db).
Proof. intros Hc Hp Hd Hg. destruct (reference db c p) eqn:E; simpl; [by eapply grown_reference|done|done]. Qed.

Lemma two_roots_grown : grown keys_of rank_at two_roots.
Proof.
  unfold two_roots. cbv zeta. do 5 (apply grown_step; [discriminate|vm_compute; lia|intros _; vm_compute; reflexivity|]).
  do 4 (apply grown_insert; [|reflexivity|left; vm_compute; reflexivity]). apply grown_new. reflexivity.
Qed.

Lemma third_root_grown : grown keys_of rank_at third_root.
Proof.
  unfold third_root. cbv zeta. do 2 (apply grown_step; [discriminate|vm_compute; lia|intros _; vm_compute; reflexivity|]).
  apply grown_insert; [|reflexivity|left; vm_compute; reflexivity].
  apply grown_insert; [|reflexivity|right; vm_compute; reflexivity].
  destruct (Commit keys_of 20 two_roots (hash_at 1)) as [db| |] eqn:E; simpl; [|apply two_roots_grown..].
  eapply (grown_commit _ _ _ _ _ _ two_roots_grown); [|exact E]. vm_compute. lia.
Qed.

(** The shared node is referred to twice. *)
Lemma refcounts_exact_witness : cnt (nodes two_roots) (hash_at 4) = 2 /\
  (parents <$> nodes two_roots !! hash_at 4) = Some (cnt (nodes two_roots) (hash_at 4)).
Proof.
  split; [vm_compute; reflexivity|].
  destruct (nodes two_roots !! hash_at 4) as [n|] eqn:E; [|vm_compute in E; discriminate]. change (parents <$> Some n) with (Some (parents n)). apply (f_equal Some).
  refine (proj1 (refcounts_exact keys_of rank_at two_roots keys_of_enumerates two_roots_grown) _ _ _ E). vm_compute. reflexivity.
Defined.

(** Which of the nodes [0], [1], ... are in memory. *)
Definition in_memory (db : Database) : list bool :=
  map (fun i => bool_decide (is_Some (nodes db !! hash_at i))) [0; 1; 2; 3; 4; 5].

(** Before the commit, dropping the first root removes it alone: the shared
    nodes stay. *)
Example two_roots_collected :
  in_memory (step_ok (Dereference keys_of 10 two_roots (hash_at 1) (hash_at 0)) two_roots) = [true; false; true; false; true; true].
Proof. vm_compute. reflexivity. Qed.

(** A node that comes back after a commit is counted from zero, while the nodes
    that referred to it still do: one reference too few, so that it leaves
    memory with the second root although the third one refers to it. *)
Example third_root_undercounted :
  cnt (nodes third_root) (hash_at 4) = 2 /\ (parents <$> nodes third_root !! hash_at 4) = Some 1 /\
  in_memory (step_ok (Dereference keys_of 10 third_root (hash_at 2) (hash_at 0)) third_root) = [true; false; false; true; false; false].
Proof. repeat split; vm_compute; reflexivity. Qed.

(** It is still read, from the disk; the third root, which is not on disk, stays. *)
Lemma gc_exact_witness : exists db', Dereference keys_of 10 third_root (hash_at 2) (hash_at 0) = Ok db' /\
  Node db' (hash_at 4) = inr (Some [4]) /\ is_Some (nodes db' !! hash_at 3) /\ nodes db' !! hash_at 2 = None.
Proof.
  destruct (nodes third_root !! hash_at 0) as [n|] eqn:En; [|vm_compute in En; discriminate].
  destruct (gc_exact keys_of rank_at 10 third_root (hash_at 2) (hash_at 0) n keys_of_enumerates third_root_grown En) as (db' & E & _ & Hk & Hq).
  - assert (fmap (M := option) (fun m : cachedNode => children m !! hash_at 2) (nodes third_root !! hash_at 0) = Some (Some 1)) as E by (vm_compute; reflexivity).
    rewrite En in E. injection E as ->. by eexists.
  - vm_compute. lia.
  - exists db'. split; [exact E|]. split; [rewrite Hq; [vm_compute; reflexivity|right; exists (Some [4]); vm_compute; reflexivity]|].
    split.
    + apply Hk; [vm_compute; reflexivity|]. exists (hash_at 0). split; [exists n; split; [exact En|]|].
      * assert (fmap (M := option) parents (nodes third_root !! hash_at 0) = Some 0) as E0 by (vm_compute; reflexivity).
        rewrite En in E0. by injection E0 as ->.
      * eapply (reach_step _ _ (drop_child (hash_at 2) n) (hash_at 3)); [apply lookup_insert_eq| |apply reach_refl].
        assert (fmap (M := option) (fun m => children (drop_child (hash_at 2) m) !! hash_at 3) (nodes third_root !! hash_at 0) = Some (Some 1)) as E1 by (vm_compute; reflexivity).
        rewrite En in E1. apply (inj Some) in E1. exists 1. exact E1.
    + clear Hk Hq. vm_compute in E. injection E as <-. vm_compute. reflexivity.
Defined.

Lemma commit_keeps_nodes_witness : exists db', Commit keys_of 20 two_roots (hash_at 1) = Ok db' /\
  node_blob db' (hash_at 4) = Some [4] /\ nodes db' !! hash_at 4 = None.
Proof.
  destruct (commit_keeps_nodes keys_of rank_at 20 two_roots (hash_at 1) keys_of_enumerates) as (db' & E & H1 & _).
  - exact (s_ranked _ _ (grown_sound keys_of rank_at two_roots keys_of_enumerates two_roots_grown)).
  - vm_compute. lia.
  - exact (s_preimages _ _ (grown_sound keys_of rank_at two_roots keys_of_enumerates two_roots_grown)).
  - exact (s_nodes _ _ (grown_sound keys_of rank_at two_roots keys_of_enumerates two_roots_grown)).
  - exists db'. split; [exact E|]. rewrite H1 by reflexivity. split; [vm_compute; reflexivity|].
    vm_compute in E. injection E as <-. vm_compute. reflexivity.
Defined.

End TrieDbLaws.
