(* ===== verification/TrieHasher.v ===== *)
(** * Trie: hashing and committing

    Translates [src/trie/hasher.go] and the end of [src/trie/trie.go].  The
    database is [None] when only the hash is wanted; a commit passes it from
    call to call.  The encoding of a node is written as an RLP item: a nil
    interface is an empty list, the byte types are strings, a [shortNode] is
    the list of its two exported fields and a [fullNode] encodes its children.
    [rlp.Encode] does not fail on such values, and [store] returns no error on
    any path, so the error results are left out.

    The callback of a commit is a function on the database: what it does is
    the caller's.  The hash function is Keccak-256 with the state of a pooled
    hasher, which is reset first. *)

From Stdlib Require Import Lia.
From stdpp Require Import base numbers list gmap.
From S2P Require Import Prelude BigInt Types RlpSpec RlpCanon Keccak TrieEncoding TrieNode TrieOps TrieDb.
Import Common RlpCanon TrieEncoding TrieNode TrieDecode TrieOps.

#[local] Open Scope Z_scope.
#[local] Open Scope go_scope.

Module TrieHasher.

Abbreviation DB := TrieDb.Database.

(** ** Encoding *)

Fixpoint node_item (n : node) : item :=
  match n with
  | nilNode => Lst []
  | valueNode v | hashNode v => Str v
  | shortNode k c _ => Lst [Str k; node_item c]
  | fullNode cs _ => Lst (map node_item cs)
  end.

Definition node_enc (n : node) : bytes := rlp_item (node_item n).

Definition LeafCallback : Type := bytes -> Hash -> DB -> result DB.

Section Hasher.
Context `{!Keccak.Impl} (gen limit : Z) (onleaf : option LeafCallback).

Definition sha (d : Keccak.state) (b : bytes) : result bytes :=
  let? (d, _) := Keccak.Write (Keccak.Reset d) b in Keccak.Sum d [].

(** ** [store] *)

(** The references from a stored node to its children. *)
Fixpoint reference_each (todo : nat) (cs : list node) (hash : Hash) (db : DB) : result DB :=
  match todo, cs with
  | S todo, hashNode c :: cs =>
      let? db := TrieDb.reference db (BytesToHash c) hash in reference_each todo cs hash db
  | S todo, _ :: cs => reference_each todo cs hash db
  | _, _ => Ok db
  end.

(** The callback on the values of a stored node. *)
Fixpoint leaf_each (f : LeafCallback) (todo : nat) (cs : list node) (hash : Hash) (db : DB) : result DB :=
  match todo, cs with
  | S todo, valueNode v :: cs => let? db := f v hash db in leaf_each f todo cs hash db
  | S todo, _ :: cs => leaf_each f todo cs hash db
  | _, _ => Ok db
  end.

(** The children the two loops look at. *)
Definition direct (n : node) : list node :=
  match n with shortNode _ c _ => [c] | fullNode cs _ => cs | _ => [] end.

Definition store (n : node) (db : option DB) (force : bool) : result (node * option DB) :=
  match n with
  | nilNode | hashNode _ => Ok (n, db)
  | _ =>
      let enc := node_enc n in
      if (len enc <? 32) && negb force then Ok (n, db)
      else
        let? (cached, _) := cache n in
        let? h := match cached with Some h => Ok h | None => sha Keccak.NewKeccak256 enc end in
        match db with
        | None => Ok (hashNode h, None)
        | Some d =>
            let hash := BytesToHash h in
            let d := TrieDb.insert d hash enc in
            let? d := reference_each 16 (direct n) hash d in
            let? d := match onleaf with Some f => leaf_each f 16 (direct n) hash d | None => Ok d end in
            Ok (hashNode h, Some d)
        end
  end.

(** ** [hashChildren] *)

(** Nil children are encoded as empty strings. *)
Definition some_value (n : node) : node := match n with nilNode => valueNode [] | _ => n end.

Section Children.
Context (hash : node -> option DB -> result (node * node * option DB)).

Fixpoint hash_each (todo : nat) (cs : list node) (db : option DB) : result (list node * list node * option DB) :=
  match cs with
  | [] => Ok ([], [], db)
  | c :: cs =>
      let? (collapsed, cached, db) :=
        match todo, c with
        | S _, nilNode | O, _ => Ok (some_value c, c, db)
        | S _, _ => hash c db
        end in
      let? (collapseds, cacheds, db) := hash_each (pred todo) cs db in
      Ok (collapsed :: collapseds, cached :: cacheds, db)
  end.

Definition hashChildren_with (original : node) (db : option DB) : result (node * node * option DB) :=
  match original with
  | shortNode k c f =>
      let? key := hexToCompact k in
      let? (collapsed, cached, db) :=
        match c with valueNode _ => Ok (c, c, db) | _ => hash c db end in
      Ok (shortNode key (some_value collapsed) f, shortNode k cached f, db)
  | fullNode cs f =>
      let? (collapseds, cacheds, db) := hash_each 16 cs db in
      Ok (fullNode collapseds f, fullNode cacheds f, db)
  | _ => Ok (original, original, db)
  end.

End Children.

(** ** [hash] *)

(** The hash is remembered, and after a commit the node is clean. *)
Definition set_hash (h : option bytes) (committed : bool) (f : nodeFlag) : nodeFlag :=
  {| TrieNode.hash := h; TrieNode.gen := TrieNode.gen f; dirty := if committed then false else dirty f |}.

Definition with_hash (hashed : node) (committed : bool) (cached : node) : node :=
  let h := match hashed with hashNode h => Some h | _ => None end in
  match cached with
  | shortNode k c f => shortNode k c (set_hash h committed f)
  | fullNode cs f => fullNode cs (set_hash h committed f)
  | _ => cached
  end.

(** The cached hash, when it can be used. *)
Definition use_cache (n : node) (db : option DB) : result (option (node * node)) :=
  let? (h, dirty) := cache n in
  match h with
  | None => Ok None
  | Some h =>
      match db with
      | None => Ok (Some (hashNode h, n))
      | Some _ =>
          let? unload := canUnload n gen limit in
          if unload then Ok (Some (hashNode h, hashNode h))
          else if negb dirty then Ok (Some (hashNode h, n)) else Ok None
      end
  end.

Definition is_some {A} (o : option A) : bool := match o with Some _ => true | None => false end.

Fixpoint hash (n : node) (db : option DB) (force : bool) : result (node * node * option DB) :=
  let? hit := use_cache n db in
  match hit with
  | Some (hashed, cached) => Ok (hashed, cached, db)
  | None =>
      let? (collapsed, cached, db) := hashChildren_with (fun c db => hash c db false) n db in
      let? (hashed, db) := store collapsed db force in
      Ok (hashed, with_hash hashed (is_some db) cached, db)
  end.

Definition hashChildren (n : node) (db : option DB) : result (node * node * option DB) :=
  hashChildren_with (fun c db => hash c db false) n db.

End Hasher.

(** ** [Trie.Hash] and [Trie.Commit] *)

Section Trie.
Context `{!Keccak.Impl}.

Definition hashRoot (t : Trie) (db : option DB) (onleaf : option LeafCallback) : result (node * node * option DB) :=
  match root t with
  | nilNode => Ok (hashNode emptyRoot, nilNode, db)
  | n => hash (cachegen t) (cachelimit t) onleaf n db true
  end.

(** The assertion that the result is a hash node. *)
Definition root_hash (n : node) : result Hash :=
  match n with hashNode h => Ok (BytesToHash h) | _ => Panic end.

Definition Trie_Hash (t : Trie) : result (Trie * Hash) :=
  let? (hashed, cached, _) := hashRoot t None None in
  let? h := root_hash hashed in
  Ok (set_root cached t, h).

Definition Root (t : Trie) : result (Trie * bytes) := Trie_Hash t.

Definition next_gen (t : Trie) : Trie :=
  {| root := root t; originalRoot := originalRoot t; cachegen := uint16 (cachegen t + 1); cachelimit := cachelimit t |}.

Definition Commit (t : Trie) (db : DB) (onleaf : option LeafCallback) : result (Trie * DB * Hash) :=
  let? (hashed, cached, db') := hashRoot t (Some db) onleaf in
  let? h := root_hash hashed in
  match db' with
  | Some db' => Ok (next_gen (set_root cached t), db', h)
  | None => Panic
  end.

End Trie.

End TrieHasher.
