(* ===== verification/TrieEnc.v ===== *)
(** * Trie: the encoding of a tree

    The reference encoding of a canonical tree, with the children whose
    encoding has 32 bytes or more replaced by their hashes, and its inverse:
    [decodeNode] on the encoding returns the node whose long children are hash
    nodes.  The hash function is any function to 32 bytes. *)

From Stdlib Require Import Lia.
From stdpp Require Import base numbers strings list.
From S2P Require Import Prelude BigInt Types RlpTypes RlpDecode RlpSpec RlpStream RlpCanon RlpRaw TrieEncoding.
From S2P Require Import TrieNode TrieRep.
Import Common RlpTypes RlpDecode RlpSpec RlpStream RlpCanon RlpRaw TrieEncoding TrieNode TrieDecode TrieTree TrieRep.

#[local] Open Scope Z_scope.
#[local] Open Scope go_scope.

Module TrieEnc.

(** A hash function. *)
Class HashFn := {
  hsh : bytes -> bytes;
  hsh_length b : length (hsh b) = 32%nat;
  hsh_bytes b : bytes_ok (hsh b)
}.

Section Enc.
Context {HF : HashFn}.

Definition compact (k : bytes) : bytes := value_of (hexToCompact k) [].

(** A child inside its parent. *)
Definition shrink (t : tree) (i : item) : item :=
  match t with
  | E | Leaf _ => i
  | _ => if len (rlp_item i) <? 32 then i else Str (hsh (rlp_item i))
  end.

Fixpoint titem (t : tree) : item :=
  match t with
  | E => Str []
  | Leaf v => Str v
  | Ext k c => Lst [Str (compact k); shrink c (titem c)]
  | Branch ts => Lst (map (fun c => shrink c (titem c)) ts)
  end.

Definition ref (t : tree) : item := shrink t (titem t).
Definition tenc (t : tree) : bytes := rlp_item (titem t).

(** Replaced by its hash below another node. *)
Definition hashed (t : tree) : bool :=
  match t with E | Leaf _ => false | _ => 32 <=? len (tenc t) end.

(** The node that the encoding decodes to. *)
Fixpoint expand (h : option bytes) (g : Z) (t : tree) : node :=
  let child c := if hashed c then hashNode (hsh (tenc c)) else expand None g c in
  let f := {| TrieNode.hash := h; gen := g; dirty := false |} in
  match t with
  | E => nilNode
  | Leaf v => valueNode v
  | Ext k c => shortNode k (child c) f
  | Branch ts => fullNode (map child ts) f
  end.

Definition child_node (g : Z) (c : tree) : node := if hashed c then hashNode (hsh (tenc c)) else expand None g c.

(** Every encoding in the tree is that of bytes, and of a size that fits in
    memory. *)
Fixpoint sized (t : tree) : Prop :=
  match t with
  | E => True
  | Leaf v => bytes_ok v
  | Ext k c => len (tenc t) <= maxAlloc /\ sized c
  | Branch ts => len (tenc t) <= maxAlloc /\ foldr (fun c P => sized c /\ P) True ts
  end.

Lemma sized_Branch ts : sized (Branch ts) <-> len (tenc (Branch ts)) <= maxAlloc /\ Forall sized ts.
Proof.
  simpl. apply and_iff_compat_l. induction ts as [|t ts IH]; simpl; [by split; [constructor|]|].
  by rewrite IH, Forall_cons.
Qed.

(** ** The items *)

Lemma compact_spec l (t : bool) : nibbles_ok l ->
  hexToCompact (l ++ term t) = Ok (compact (l ++ term t)) /\ bytes_ok (compact (l ++ term t)) /\
  compactToHex (compact (l ++ term t)) = Ok (l ++ term t).
Proof.
  intros Hl. destruct (hexToCompact_spec l t Hl) as (c & b & Ec & Hb & Hc). unfold compact. rewrite Ec. cbn [value_of].
  split; [done|]. split; [|by apply compactToHex_hexToCompact]. apply bytes_ok_cons. split; [|done].
  unfold byte_ok. destruct (Nat.odd (length l)).
  - destruct Hc as (n & Hn & -> & _). unfold nibble_ok in Hn. destruct t; lia.
  - destruct Hc as [-> _]. destruct t; lia.
Qed.

Lemma key_compact k c : wf (Ext k c) ->
  hexToCompact k = Ok (compact k) /\ bytes_ok (compact k) /\ compactToHex (compact k) = Ok k /\
  hasTerm k = match c with Leaf _ => true | _ => false end.
Proof.
  inversion 1 as [k' v (l & -> & Hl) Hv|k' ts Hk _ _|]; subst.
  - destruct (compact_spec l true Hl) as (H1 & H2 & H3). repeat (split; [done|]). by rewrite hasTerm_snoc.
  - destruct (compact_spec k false Hk) as (H1 & H2 & H3). cbn [term] in *. rewrite app_nil_r in *.
    repeat (split; [done|]). by apply hasTerm_nibbles.
Qed.

Lemma shrink_ok t i : item_ok i -> item_ok (shrink t i).
Proof. intros Hi. destruct t; simpl; try done; destruct (_ <? 32); try done; apply hsh_bytes. Qed.

(** A subtree of a canonical tree. *)
Definition part (t : tree) : Prop := t = E \/ (exists v, t = Leaf v /\ v <> []) \/ wf t.

Lemma part_child ts c : wf (Branch ts) -> c ∈ ts -> part c.
Proof.
  inversion 1 as [| |ts' Hl H1 H2 _]; subst. intros (i & Hi)%list_elem_of_lookup. unfold part.
  destruct (decide (c = E)); [by left|]. right. pose proof (lookup_lt_Some _ _ _ Hi).
  destruct (decide (i = 16)%nat) as [->|]; [left; by destruct (H2 c Hi)|right; apply (H1 i); [done|lia|done]].
Qed.

Lemma part_ext k c : wf (Ext k c) -> part c.
Proof. inversion 1; subst; [right; left; eauto|right; by right]. Qed.

Lemma titem_ok t : part t -> sized t -> item_ok (titem t).
Proof.
  induction t as [|v|k c IH|ts IH] using tree_ind'; intros Hp Hs; simpl in *; [constructor|done|..].
  - destruct Hp as [?|[(v & ? & _)|Hw]]; [done..|]. destruct (key_compact _ _ Hw) as (_ & Hb & _).
    split; [done|]. split; [|done]. apply shrink_ok, IH; [by eapply part_ext|apply Hs].
  - destruct Hp as [?|[(v & ? & _)|Hw]]; [done..|]. apply (item_ok_Lst (map _ ts)). apply Forall_fmap, Forall_forall.
    intros c Hc. apply sized_Branch in Hs as [_ Hs]. rewrite Forall_forall in IH, Hs. apply shrink_ok, IH; [done| |by apply Hs].
    by eapply part_child.
Qed.

Lemma tenc_bytes t : part t -> sized t -> len (tenc t) <= maxAlloc -> bytes_ok (tenc t).
Proof.
  intros Hp Hs Hl. apply rlp_item_bytes; [by apply titem_ok|]. pose proof two64_maxAlloc. unfold tenc in Hl. lia.
Qed.

Lemma sized_len t : wf t -> sized t -> len (tenc t) <= maxAlloc.
Proof. inversion 1; simpl; tauto. Qed.

Lemma ref_cases t : part t ->
  (ref t = Str (hsh (tenc t)) /\ hashed t = true /\ wf t) \/ (ref t = titem t /\ hashed t = false).
Proof.
  intros [->|[(v & -> & _)|Hw]]; [by right..|].
  assert (ref t = (if len (tenc t) <? 32 then titem t else Str (hsh (tenc t))) /\ hashed t = (32 <=? len (tenc t))) as [-> ->]
    by (by inversion Hw).
  destruct (Z.ltb_spec (len (tenc t)) 32); [right|left]; rewrite ?Z.leb_le, ?Z.leb_gt; repeat split; (done || lia).
Qed.

Lemma ref_ok t : part t -> sized t -> item_ok (ref t).
Proof. intros Hp Hs. by apply shrink_ok, titem_ok. Qed.

(** The encodings of the children follow each other. *)
Lemma concat_refs ts : concat (map rlp_item (map (fun c => shrink c (titem c)) ts)) = concat (map (fun c => rlp_item (ref c)) ts).
Proof. by rewrite map_map. Qed.

(** ** Decoding *)

(** The buffers that occur while an encoding is decoded. *)
Definition buffer (b : bytes) : Prop := bytes_ok b /\ len b <= maxAlloc.

Lemma buffer_app a b : buffer (a ++ b) -> buffer a /\ buffer b.
Proof.
  intros [Hb Hl]. apply bytes_ok_app in Hb as [? ?]. rewrite len_app in Hl. pose proof (len_nonneg a).
  pose proof (len_nonneg b). repeat split; (done || lia).
Qed.

Lemma Split_buffer i rest : item_ok i -> buffer (rlp_item i ++ rest) ->
  Split (rlp_item i ++ rest) = Ok (inr (fst (fst (parts i)), snd (parts i), rest)).
Proof. intros Hi [Hb Hl]. by apply Split_item. Qed.

Lemma SplitString_str b rest : bytes_ok b -> buffer (rlp_item (Str b) ++ rest) ->
  SplitString (rlp_item (Str b) ++ rest) = Ok (inr (b, rest)).
Proof.
  intros Hb Hr. unfold SplitString. rewrite Split_buffer by done. cbn [rbind].
  destruct b as [|x [|y b]]; simpl; try done. by destruct (x <=? 127).
Qed.

Lemma SplitList_lst l rest : Forall item_ok l -> buffer (rlp_item (Lst l) ++ rest) ->
  SplitList (rlp_item (Lst l) ++ rest) = Ok (inr (concat (map rlp_item l), rest)).
Proof. intros Hl Hr. unfold SplitList. rewrite Split_buffer; [done|by apply item_ok_Lst|done]. Qed.

(** The payload of a list is a shorter buffer. *)
Lemma payload_buffer l rest : buffer (rlp_item (Lst l) ++ rest) ->
  buffer (concat (map rlp_item l)) /\ (length (concat (map rlp_item l)) < length (rlp_item (Lst l) ++ rest))%nat.
Proof.
  intros Hb. apply buffer_app in Hb as [Hb _]. simpl in *. unfold rlp_list in *.
  pose proof (buffer_app _ _ Hb) as [_ Hc]. split; [done|].
  assert (0 < length (header 192 247 (len (concat (map rlp_item l)))))%nat; [|rewrite !length_app; lia].
  unfold header. destruct (_ <? 56); simpl; lia.
Qed.

(** A step of [decodeNode] on a list. *)
Lemma decodeNode_list fuel g h l rest : Forall item_ok l -> buffer (rlp_item (Lst l) ++ rest) ->
  decodeNode_fuel (S fuel) g h (rlp_item (Lst l) ++ rest) =
  let refs := decodeNode_fuel fuel g in
  let elems := concat (map rlp_item l) in
  if Z.of_nat (length l) =? 2 then on_error (fun e => wrapError e "short"%string) (decodeShort refs g h elems)
  else if Z.of_nat (length l) =? 17 then on_error (fun e => wrapError e "full"%string) (decodeFull refs g h elems)
  else Ok (inl (invalid_elements (Z.of_nat (length l)))).
Proof.
  intros Hl Hb. pose proof (payload_buffer _ _ Hb) as [[Hp Hpl] Hlt]. cbn [decodeNode_fuel].
  destruct (rlp_item (Lst l) ++ rest) as [|x buf] eqn:E; [simpl in Hlt; lia|].
  rewrite <-E in *. rewrite SplitList_lst by done. unfold on_error at 1, dbind at 1. cbn [rbind].
  unfold CountValues. rewrite CountValues_items; [|done|done|done|unfold len; lia]. cbn [rbind]. done.
Qed.

Definition dec_ok (t : tree) : Prop := forall fuel g h rest,
  buffer (tenc t ++ rest) -> (length (tenc t ++ rest) < fuel)%nat ->
  decodeNode_fuel fuel g h (tenc t ++ rest) = Ok (inr (expand h g t)).

Lemma decodeRef_spec fuel g c rest : c = E \/ wf c -> sized c -> (wf c -> hashed c = false -> dec_ok c) ->
  buffer (rlp_item (ref c) ++ rest) -> (length (rlp_item (ref c) ++ rest) < fuel)%nat ->
  decodeRef (decodeNode_fuel fuel g) (rlp_item (ref c) ++ rest) = Ok (inr (child_node g c, rest)).
Proof.
  intros Hc Hs IH Hb Hf. assert (part c) as Hp by (destruct Hc as [->|?]; [by left|right; by right]).
  unfold decodeRef, child_node. rewrite Split_buffer by (done || by apply ref_ok).
  unfold on_error, dbind. cbn [rbind].
  destruct (ref_cases c Hp) as [(E & -> & _)|[E Hh]]; rewrite E in *.
  - pose proof (hsh_length (tenc c)) as Hl. destruct (hsh (tenc c)) as [|x [|y l]] eqn:Eh; [done..|]. cbn [parts fst snd].
    assert (len (x :: y :: l) = 32) as -> by (unfold len; lia). done.
  - rewrite Hh. destruct Hc as [->|Hw]; [done|]. fold (tenc c) in *.
    assert (fst (fst (parts (titem c))) = List) as -> by (by inversion Hw).
    assert (len (tenc c) < 32) as Hlt.
    { unfold hashed in Hh. inversion Hw; subst; apply Z.leb_gt in Hh; exact Hh. }
    rewrite len_app. replace (len (tenc c) + len rest - len rest) with (len (tenc c)) by lia.
    rewrite Z.gtb_ltb, (proj2 (Z.ltb_ge hashLen _)) by (unfold hashLen; lia).
    rewrite (IH Hw Hh) by done. done.
Qed.

Lemma decodeFull_loop_spec fuel g cs i rest :
  Forall (fun c => (c = E \/ wf c) /\ sized c /\ (wf c -> hashed c = false -> dec_ok c)) cs ->
  buffer (concat (map (fun c => rlp_item (ref c)) cs) ++ rest) ->
  (length (concat (map (fun c => rlp_item (ref c)) cs) ++ rest) < fuel)%nat ->
  decodeFull_loop (decodeNode_fuel fuel g) (length cs) i (concat (map (fun c => rlp_item (ref c)) cs) ++ rest) =
  Ok (inr (map (child_node g) cs, rest)).
Proof.
  intros Hcs. revert i. induction Hcs as [|c cs (H1 & H2 & H3) _ IH]; intros i Hb Hf; [done|].
  simpl in *. rewrite <-app_assoc in *. rewrite decodeRef_spec by done. unfold on_error, dbind. cbn [rbind].
  rewrite IH; [done|by apply buffer_app in Hb as [_ ?]|rewrite length_app in Hf; lia].
Qed.

Lemma dec_short fuel g h k c : wf (Ext k c) -> sized (Ext k c) -> (wf c -> hashed c = false -> dec_ok c) ->
  let elems := rlp_item (Str (compact k)) ++ rlp_item (ref c) ++ [] in
  buffer elems -> (length elems < fuel)%nat ->
  decodeShort (decodeNode_fuel fuel g) g h elems = Ok (inr (expand h g (Ext k c))).
Proof.
  intros Hw [_ Hs] IH elems Hb Hf. destruct (key_compact k c Hw) as (_ & Hck & Ek & Ht). unfold decodeShort, elems in *.
  rewrite SplitString_str by done. unfold on_error at 1, dbind at 1. cbn [rbind]. rewrite Ek. cbn [rbind]. rewrite Ht.
  pose proof (buffer_app _ _ Hb) as [_ Hb2]. inversion Hw as [k' v Hk Hv|k' ts Hk Hk' Hbr|]; subst.
  - change (ref (Leaf v)) with (Str v) in *. rewrite SplitString_str by done. done.
  - rewrite decodeRef_spec; [done|by right|done|done|done|]. rewrite length_app in Hf. lia.
Qed.

(** The children of a branch and the value. *)
Lemma branch_parts ts : wf (Branch ts) -> exists cs v, ts = cs ++ [v] /\ length cs = 16%nat /\
  Forall (fun c => c = E \/ wf c) cs /\ (v = E \/ exists b, v = Leaf b /\ b <> []).
Proof.
  inversion 1 as [| |ts' Hl H1 H2 _]; subst. destruct ts as [|v cs _] using rev_ind; [done|].
  rewrite length_app in Hl. simpl in Hl. exists cs, v. split; [done|]. split; [lia|]. split.
  - apply Forall_lookup. intros i c Hc. destruct (decide (c = E)); [by left|]. right. pose proof (lookup_lt_Some _ _ _ Hc).
    apply (H1 i); [by rewrite lookup_app_l by lia|lia|done].
  - apply H2. rewrite lookup_app_r by lia. replace (16 - length cs)%nat with 0%nat by lia. done.
Qed.

Lemma dec_full fuel g h ts : wf (Branch ts) -> Forall sized ts ->
  Forall (fun c => wf c -> hashed c = false -> dec_ok c) ts ->
  let elems := concat (map (fun c => rlp_item (ref c)) ts) in
  buffer elems -> (length elems < fuel)%nat ->
  decodeFull (decodeNode_fuel fuel g) g h elems = Ok (inr (expand h g (Branch ts))).
Proof.
  intros Hw Hs IH elems Hb Hf. unfold elems in *. destruct (branch_parts ts Hw) as (cs & v & -> & Hl & Hcs & Hv).
  apply Forall_app in Hs as [Hs Hsv]. apply Forall_app in IH as [IH _]. apply Forall_cons in Hsv as [Hsv _].
  rewrite map_app, concat_app in *. cbn [map concat] in *. rewrite app_nil_r in *.
  unfold decodeFull. rewrite <-Hl, decodeFull_loop_spec; [| |done|done].
  2:{ apply Forall_forall. intros c Hc. rewrite Forall_forall in Hcs, Hs, IH. auto. }
  unfold dbind at 1. cbn [rbind]. pose proof (buffer_app _ _ Hb) as [_ Hb2].
  rewrite <-(app_nil_r (rlp_item (ref v))) in *. cbn [expand]. rewrite map_app. cbn [map].
  destruct Hv as [->|(b & -> & Hb0)].
  - change (ref E) with (Str []) in *. rewrite SplitString_str by (done || constructor). done.
  - change (ref (Leaf b)) with (Str b) in *. rewrite SplitString_str by done. unfold on_error, dbind. cbn [rbind].
    destruct b; [done|]. rewrite len_cons. pose proof (len_nonneg b).
    rewrite (proj2 (Z.gtb_lt _ _)) by lia. done.
Qed.

Lemma decode_tree t : part t -> sized t -> wf t -> dec_ok t.
Proof.
  induction t as [|v|k c IH|ts IH] using tree_ind'; intros Hp Hs Hw fuel g h rest Hb Hf; [inversion Hw..| |].
  - destruct fuel as [|fuel]; [lia|]. pose proof (titem_ok _ Hp Hs) as Hok. unfold tenc in *. cbn [titem] in *.
    apply item_ok_Lst in Hok. rewrite decodeNode_list by done. pose proof (payload_buffer _ _ Hb) as [Hpb Hpl].
    cbv zeta. cbn [length Z.of_nat Z.eqb Pos.of_succ_nat Pos.succ Pos.eqb]. fold (ref c). cbn [map concat] in *.
    rewrite (dec_short fuel g h k c Hw Hs); [done| |done|unfold ref; lia].
    intros Hwc _. apply IH; [by right; right|apply Hs|done].
  - destruct fuel as [|fuel]; [lia|]. pose proof (titem_ok _ Hp Hs) as Hok. unfold tenc in *. cbn [titem] in *.
    apply item_ok_Lst in Hok. rewrite decodeNode_list by done. pose proof (payload_buffer _ _ Hb) as [Hpb Hpl].
    cbv zeta. rewrite concat_refs in *. apply sized_Branch in Hs as [_ Hs].
    assert (length ts = 17%nat) as Hl by (by inversion Hw). rewrite length_map, Hl. cbn [Z.of_nat Z.eqb Pos.of_succ_nat Pos.succ Pos.eqb].
    rewrite (dec_full fuel g h ts Hw Hs); [done| |done|lia]. apply Forall_forall. intros c Hc Hwc _.
    rewrite Forall_forall in IH, Hs. apply IH; [done|by right; right|by apply Hs|done].
Qed.

Lemma decodeNode_tree t h g : wf t -> sized t -> decodeNode (Some h) (tenc t) g = Ok (inr (expand (Some h) g t)).
Proof.
  intros Hw Hs. assert (part t) as Hp by (by right; right). pose proof (sized_len t Hw Hs) as Hl.
  pose proof (decode_tree t Hp Hs Hw (S (length (tenc t))) g (Some h) []) as E. rewrite app_nil_r in E.
  apply E; [split; [by apply tenc_bytes|done]|lia].
Qed.

End Enc.

End TrieEnc.

(** ** Trie: decoding any data

    On any buffer [decodeNode] ends within its fuel, and the hashes in what it
    returns have 32 bytes. *)

Import Common RlpTypes RlpDecode RlpStream RlpRaw TrieEncoding TrieNode TrieDecode TrieRep TrieEnc.

Module TrieDecodeLaws.

(** ** Hashes *)

Definition hash_of (n : node) : option bytes := match n with hashNode h => Some h | _ => None end.

(** The hashes a node refers to. *)
Definition hkids (n : node) : list bytes :=
  match n with
  | shortNode _ v _ => omap hash_of [v]
  | fullNode cs _ => omap hash_of (take 17 cs)
  | _ => []
  end.

Lemma decodeRef_hash dec buf n rest h : decodeRef dec buf = Ok (inr (n, rest)) -> (forall b m, dec None b = Ok (inr m) -> loaded m) ->
  hash_of n = Some h -> len h = 32.
Proof.
  intros H Hd Hh. apply dbind_inr in H as ([[k v] r] & _ & H). destruct k.
  - done.
  - destruct (len v =? 0); [by injection H as <- _|]. destruct (Z.eqb_spec (len v) 32); [|done]. injection H as <- _. by injection Hh as <-.
  - cbv zeta in H. case_match; [done|]. apply dbind_inr in H as (m & Em & H). injection H as <- _. apply Hd in Em. by destruct m.
Qed.

Lemma decodeFull_hash dec todo : forall i buf cs rest h, decodeFull_loop dec todo i buf = Ok (inr (cs, rest)) ->
  (forall b m, dec None b = Ok (inr m) -> loaded m) -> h ∈ omap hash_of cs -> len h = 32.
Proof.
  induction todo as [|todo IH]; intros i buf cs rest h H Hd Hin; [injection H as <- _; by apply not_elem_of_nil in Hin|].
  cbn [decodeFull_loop] in H. apply dbind_inr in H as ([c r] & Ec & H). apply on_error_inr in Ec. apply dbind_inr in H as ([cs' r'] & Es & H).
  injection H as <- _. cbn in Hin. destruct (hash_of c) as [x|] eqn:Ex; [apply elem_of_cons in Hin as [->|Hin]|]; eauto using decodeRef_hash.
Qed.

Lemma decodeNode_hash h d g n c : decodeNode h d g = Ok (inr n) -> c ∈ hkids n -> len c = 32.
Proof.
  unfold decodeNode. cbn [decodeNode_fuel]. destruct d as [|b d]; [done|]. intros (p & _ & H)%dbind_inr Hin. destruct p as [elems rest].
  apply rbind_Ok_inv in H as (count & _ & H).
  assert (Hd : forall b0 m, decodeNode_fuel (length (b :: d)) g None b0 = Ok (inr m) -> loaded m) by (intros; by eapply decodeNode_fuel_loaded).
  repeat case_match; try done; apply on_error_inr in H.
  - unfold decodeShort in H. apply dbind_inr in H as ([kbuf r] & _ & H).
    apply rbind_Ok_inv in H as (key & _ & H). case_match; apply dbind_inr in H as ([v r'] & Ev & H); injection H as <-.
    + by apply not_elem_of_nil in Hin.
    + apply on_error_inr in Ev. cbn in Hin. destruct (hash_of v) as [x|] eqn:Ex; [|by apply not_elem_of_nil in Hin].
      apply list_elem_of_singleton in Hin as ->. by eapply decodeRef_hash.
  - unfold decodeFull in H. apply dbind_inr in H as ([cs r] & Ec & H).
    apply dbind_inr in H as ([v r'] & _ & H). injection H as <-. cbn [hkids] in Hin.
    assert (Hin' : c ∈ omap hash_of (cs ++ [if len v >? 0 then valueNode v else nilNode])).
    { apply list_elem_of_omap in Hin as (x & Hx & E). apply list_elem_of_omap. exists x. split; [|done]. apply elem_of_take in Hx as (i & Hi & _). by eapply list_elem_of_lookup_2. }
    rewrite omap_app in Hin'. apply elem_of_app in Hin' as [Hin'|Hin']; [by eapply decodeFull_hash|]. by destruct (len v >? 0); apply not_elem_of_nil in Hin'.
Qed.

Lemma BytesToHash_32 c : len c = 32 -> BytesToHash c = c.
Proof.
  intros H. assert (Hn : length c = 32%nat) by (unfold len in H; lia). unfold BytesToHash, set_bytes, HashLength. rewrite Hn.
  change (32 <? 32)%nat with false. cbv iota zeta. by rewrite Hn.
Qed.

(** ** Termination *)

Lemma list_header b ts cs : rawReadKind b = inr (List, ts, cs) -> len b <= maxAlloc -> bytes_ok b -> 1 <= ts.
Proof.
  intros H Hl Hb. destruct b as [|x rest]; [done|]. apply bytes_ok_cons in Hb as [Hx _]. unfold byte_ok in Hx. cbn [rawReadKind] in H.
  assert (forall k t c, fits (x :: rest) k t c = inr (List, ts, cs) -> k = List /\ ts = t) as Hf.
  { intros k t [e|m] Hk; unfold fits in Hk; [done|]. case_match; [done|]. by injection Hk as -> -> _. }
  destruct (Z.ltb_spec x 128); [by apply Hf in H as [? _]|]. destruct (Z.ltb_spec x 184); [case_match; [done|]; by apply Hf in H as [? _]|].
  destruct (Z.ltb_spec x 192); [by apply Hf in H as [? _]|]. destruct (Z.ltb_spec x 248); apply Hf in H as [_ ->]; lia.
Qed.

(** What is split off a buffer is a buffer, and shorter. *)
Lemma Split_shorter b : buffer b -> (exists e, Split b = Ok (inl e)) \/
  exists k c rest, Split b = Ok (inr (k, c, rest)) /\ buffer c /\ buffer rest /\ len rest < len b /\ len c <= len b /\ (k = List -> len c < len b).
Proof.
  intros [Hb Hl]. destruct (rawReadKind b) as [e|[[k ts] cs]] eqn:E; [left; exists e; unfold Split; by rewrite E|]. right.
  destruct (rawReadKind_bounds b k ts cs Hb Hl E) as (H1 & H2 & H3). destruct (Split_parts b k ts cs Hb Hl E) as (Es & _ & Hlt).
  do 3 eexists. split; [exact Es|]. unfold buffer.
  assert (Hc : len (take (Z.to_nat cs) (drop (Z.to_nat ts) b)) = cs) by (unfold len in *; rewrite length_take, length_drop; lia).
  rewrite Hc. split; [split; [by apply bytes_ok_take, bytes_ok_drop|lia]|]. split; [split; [by apply bytes_ok_drop|lia]|].
  split; [lia|]. split; [lia|]. intros ->. pose proof (list_header b ts cs E Hl Hb). lia.
Qed.

Lemma decodeRef_total dec buf : buffer buf -> (forall b, buffer b -> len b <= len buf -> dec None b <> NoFuel) ->
  decodeRef dec buf <> NoFuel /\ forall n rest, decodeRef dec buf = Ok (inr (n, rest)) -> buffer rest /\ len rest <= len buf.
Proof.
  intros Hb Hd. unfold decodeRef. destruct (Split_shorter buf Hb) as [[e ->]|(k & c & rest & -> & Hc & Hr & Hlr & Hlc & Hl)]; [done|].
  unfold on_error, dbind. cbn [rbind]. destruct k; [done| |].
  - repeat case_match; (split; [done|]); intros n r [= <- <-]; (split; [done|lia]).
  - cbv zeta. case_match; [done|]. specialize (Hd buf Hb ltac:(lia)). destruct (dec None buf) as [[e|m]| |]; try done.
    split; [done|]. intros n r [= <- <-]. split; [done|lia].
Qed.

Lemma SplitString_total b : buffer b -> SplitString b <> NoFuel /\ forall c rest, SplitString b = Ok (inr (c, rest)) -> buffer rest /\ len rest < len b.
Proof.
  intros Hb. unfold SplitString. destruct (Split_shorter b Hb) as [[e ->]|(k & c & rest & -> & Hc & Hr & Hlr & Hlc & Hl)]; [done|].
  cbn [rbind]. destruct k; try done; (split; [done|]); by intros c' r' [= <- <-].
Qed.

Lemma decodeFull_total dec todo : forall i buf, buffer buf -> (forall b, buffer b -> len b <= len buf -> dec None b <> NoFuel) ->
  decodeFull_loop dec todo i buf <> NoFuel /\ forall cs rest, decodeFull_loop dec todo i buf = Ok (inr (cs, rest)) -> buffer rest /\ len rest <= len buf.
Proof.
  induction todo as [|todo IH]; intros i buf Hb Hd; [split; [done|]; intros cs rest [= <- <-]; split; [done|lia]|].
  cbn [decodeFull_loop]. destruct (decodeRef_total dec buf Hb Hd) as [Hn Hr]. unfold on_error, dbind.
  destruct (decodeRef dec buf) as [[e|[c r]]| |]; cbn [rbind]; try done. destruct (Hr c r eq_refl) as [Hbr Hlr].
  destruct (IH (S i) r Hbr) as [Hn' Hr']; [intros b H1 H2; apply Hd; [done|lia]|].
  destruct (decodeFull_loop dec todo (S i) r) as [[e|[cs r']]| |]; cbn [rbind]; try done. destruct (Hr' cs r' eq_refl) as [Hb' Hl'].
  split; [done|]. intros cs' r'' [= <- <-]. split; [done|lia].
Qed.

Lemma compactToHex_total b : compactToHex b <> NoFuel.
Proof. unfold compactToHex, index, slice. repeat (case_match || cbn [rbind]); done. Qed.

Lemma decodeNode_fuel_total fuel : forall g h buf, buffer buf -> (length buf < fuel)%nat -> decodeNode_fuel fuel g h buf <> NoFuel.
Proof.
  induction fuel as [|fuel IH]; intros g h buf Hb Hf; [lia|]. cbn [decodeNode_fuel]. destruct buf as [|x buf]; [done|].
  unfold SplitList. destruct (Split_shorter _ Hb) as [[e ->]|(k & elems & rest & -> & Hc & _ & _ & _ & Hl)]; [done|].
  unfold on_error, dbind. cbn [rbind]. destruct k; try done. cbn [rbind]. specialize (Hl eq_refl).
  destruct (CountValues_loop_total (length elems) 0 elems) as [cnt E]; [apply Hc..|unfold len; lia|]. unfold CountValues. rewrite E. cbn [rbind].
  assert (Hd : forall b, buffer b -> len b <= len elems -> decodeNode_fuel fuel g None b <> NoFuel) by (intros b H1 H2; apply IH; [done|unfold len in *; lia]).
  destruct (_ =? 2); [|destruct (_ =? 17); [|done]].
  - unfold decodeShort, on_error, dbind. destruct (SplitString_total elems Hc) as [Hn Hs]. destruct (SplitString elems) as [[e|[kb r]]| |]; cbn [rbind]; try done.
    destruct (Hs kb r eq_refl) as [Hbr Hlr]. pose proof (compactToHex_total kb). destruct (compactToHex kb) as [key| |]; cbn [rbind]; try done. case_match.
    + destruct (SplitString_total r Hbr) as [Hn' _]. destruct (SplitString r) as [[e|[v r']]| |]; done.
    + destruct (decodeRef_total (decodeNode_fuel fuel g) r Hbr) as [Hn' _]; [intros b H1 H2; apply Hd; [done|lia]|].
      destruct (decodeRef _ r) as [[e|[v r']]| |]; done.
  - unfold decodeFull, on_error, dbind. destruct (decodeFull_total (decodeNode_fuel fuel g) 16 0 elems Hc Hd) as [Hn Hr].
    destruct (decodeFull_loop _ 16 0 elems) as [[e|[cs r]]| |]; cbn [rbind]; try done. destruct (Hr cs r eq_refl) as [Hbr _].
    destruct (SplitString_total r Hbr) as [Hn' _]. destruct (SplitString r) as [[e|[v r']]| |]; done.
Qed.

Lemma decodeNode_total h b g : buffer b -> decodeNode h b g <> NoFuel.
Proof. intros Hb. apply decodeNode_fuel_total; [done|lia]. Qed.

End TrieDecodeLaws.
