(* ===== verification/TrieCommit.v ===== *)
(** * Trie: trees in a database

    A tree is saved when the database has its encoding and those of all its
    hashed subtrees under their hashes; then its hash alone represents it.
    [hash_marks] are the promises of the cached hashes: a cached hash is that
    of the tree, and a clean node with a hash is saved. *)

From Stdlib Require Import Lia.
From stdpp Require Import base numbers list gmap.
From S2P Require Import Prelude BigInt Types RlpDecode RlpStream RlpCanon Keccak TrieEncoding TrieNode TrieOps.
From S2P Require Import TrieRep TrieDb TrieHasher TrieEnc.
Import Common TrieEncoding TrieNode TrieDecode TrieOps TrieTree TrieRep TrieEnc.

#[local] Open Scope Z_scope.
#[local] Open Scope go_scope.

Module TrieStore.

Section Saved.
Context {HF : HashFn}.

Section Reader.
Context (Node : Hash -> option bytes).

Definition here (c : tree) : Prop := hashed c = true -> Node (hsh (tenc c)) = Some (tenc c).

Fixpoint below (t : tree) : Prop :=
  match t with
  | E | Leaf _ => True
  | Ext _ c => here c /\ below c
  | Branch ts => foldr (fun c P => (here c /\ below c) /\ P) True ts
  end.

Lemma below_Branch ts : below (Branch ts) <-> Forall (fun c => here c /\ below c) ts.
Proof.
  simpl. induction ts as [|t ts IH]; simpl; [by split; [constructor|]|]. by rewrite IH, Forall_cons.
Qed.

Definition saved (t : tree) : Prop := Node (hsh (tenc t)) = Some (tenc t) /\ below t.

End Reader.

#[refine] Instance hash_marks (Node : Hash -> option bytes) : Marks := {|
  flag_ok b t f :=
    match TrieNode.hash f with
    | Some h => h = hsh (tenc t) /\ (b = false -> hashed t = true) /\ (dirty f = false -> saved Node t)
    | None => dirty f = false -> b = false /\ hashed t = false
    end;
  hash_ok b h t := h = hsh (tenc t) /\ (b = false -> hashed t = true) /\ saved Node t
|}.
Proof. - by intros b t g. - by intros b t g [[h|] g' d]. Defined.

Lemma BytesToHash_hash b : BytesToHash (hsh b) = hsh b.
Proof.
  unfold BytesToHash, set_bytes, HashLength. rewrite hsh_length. change (32 <? 32)%nat with false. cbv iota zeta.
  by rewrite hsh_length.
Qed.

(** ** Growing databases *)

Definition extends (N N' : Hash -> option bytes) : Prop := forall h b, N h = Some b -> N' h = Some b.

#[export] Instance extends_pre : PreOrder extends.
Proof. split; [by intros N h b|intros N1 N2 N3 H12 H23 h b Hb; auto]. Qed.

Lemma here_mono N N' c : extends N N' -> here N c -> here N' c.
Proof. intros He Hc Hh. by apply He, Hc. Qed.

Lemma below_mono N N' t : extends N N' -> below N t -> below N' t.
Proof.
  intros He. induction t as [|v|k c IH|ts IH] using tree_ind'; [done..| |].
  - intros [H1 H2]. split; [by eapply here_mono|auto].
  - rewrite !below_Branch, !Forall_forall in *. intros Hb c Hc. destruct (Hb c Hc). split; [by eapply here_mono|auto].
Qed.

Lemma saved_mono N N' t : extends N N' -> saved N t -> saved N' t.
Proof. intros He [H1 H2]. split; [by apply He|by eapply below_mono]. Qed.

Abbreviation repH N := (rep (M := hash_marks N) N).
Abbreviation repsH N := (reps (M := hash_marks N) N).

Lemma flag_mono N N' b t f : extends N N' -> flag_ok (Marks := hash_marks N) b t f -> flag_ok (Marks := hash_marks N') b t f.
Proof.
  intros He. simpl. destruct (TrieNode.hash f); [|done]. intros (H1 & H2 & H3).
  split; [done|]. split; [done|]. intros Hd. by eapply saved_mono, H3.
Qed.

Lemma rep_mono N N' b n t : extends N N' -> repH N b n t -> repH N' b n t.
Proof.
  intros He Hr. induction Hr as [b|b v|b k c f t Hc IH Hf|b cs f ts Hl Hcs IH Hf|b h enc dec t H1 H2 H3 IH Hh].
  - constructor.
  - constructor.
  - constructor; [done|by eapply flag_mono].
  - constructor; [done|done|by eapply flag_mono].
  - econstructor; [by apply He|done|done|]. destruct Hh as (E1 & E2 & E3). split; [done|]. split; [done|by eapply saved_mono].
Qed.

(** ** A saved tree is represented by its hash *)

(** What the hash in a flag promises. *)
Definition hash_says (N : Hash -> option bytes) (b : bool) (h : option bytes) (t : tree) : Prop :=
  match h with
  | Some h => h = hsh (tenc t) /\ (b = false -> hashed t = true) /\ saved N t
  | None => b = false /\ hashed t = false
  end.

Lemma hash_says_flag N b h g t : hash_says N b h t ->
  flag_ok (Marks := hash_marks N) b t {| TrieNode.hash := h; gen := g; dirty := false |}.
Proof. destruct h; simpl; [by intros (? & ? & ?)|done]. Qed.

(** The step from the trees below a node to the node. *)
Lemma rep_child_node N c g : part c -> sized c -> here N c -> below N c ->
  (forall b h g, hash_says N b h c -> repH N b (expand h g c) c) -> repH N false (child_node g c) c.
Proof.
  intros Hp Hs Hc Hb IH. unfold child_node. destruct (hashed c) eqn:E; [|by apply IH].
  assert (wf c) as Hw by (destruct Hp as [->|[(v & -> & _)|?]]; done).
  assert (hash_says N false (Some (hsh (tenc c))) c) as Hh.
  { split; [done|]. split; [done|]. split; [by apply Hc|done]. }
  apply (rep_hash N false _ (tenc c) (fun g => expand (Some (hsh (tenc c))) g c)).
  - rewrite BytesToHash_hash. by apply Hc.
  - intros g'. by apply decodeNode_tree.
  - intros g'. by apply IH.
  - exact Hh.
Qed.

Lemma rep_expand N t b h g : part t -> sized t -> below N t -> hash_says N b h t -> repH N b (expand h g t) t.
Proof.
  revert b h g. induction t as [|v|k c IH|ts IH] using tree_ind'; intros b h g Hp Hs Hb Hh; [constructor..| |].
  - assert (wf (Ext k c)) as Hw by (destruct Hp as [?|[(v & ? & _)|?]]; done).
    destruct Hb as [Hc Hb]. destruct Hs as [_ Hs]. pose proof (part_ext _ _ Hw) as Hpc.
    constructor; [|by apply hash_says_flag]. apply rep_child_node; try done. intros. by apply IH.
  - assert (wf (Branch ts)) as Hw by (destruct Hp as [?|[(v & ? & _)|?]]; done).
    apply below_Branch in Hb. apply sized_Branch in Hs as [_ Hs].
    apply (rep_branch (M := hash_marks N)); [|by apply hash_says_flag]. split; [by rewrite length_map|].
    intros i n c Hn Hc. rewrite list_lookup_fmap, Hc in Hn. injection Hn as <-.
    pose proof (list_elem_of_lookup_2 _ _ _ Hc) as Hin. rewrite Forall_forall in IH, Hs, Hb.
    destruct (Hb c Hin). pose proof (part_child _ _ Hw Hin). apply rep_child_node; try done; [by apply Hs|].
    intros. apply IH; try done. by apply Hs.
Qed.

Lemma rep_saved N t : wf t -> sized t -> saved N t -> repH N true (hashNode (hsh (tenc t))) t.
Proof.
  intros Hw Hs Ht. apply (rep_hash N true _ (tenc t) (fun g => expand (Some (hsh (tenc t))) g t)).
  - rewrite BytesToHash_hash. apply Ht.
  - intros g. by apply decodeNode_tree.
  - intros g. apply rep_expand; [by right; right|done|apply Ht|]. by split.
  - by split.
Qed.

End Saved.

Abbreviation repH N := (rep (M := hash_marks N) N).
Abbreviation repsH N := (reps (M := hash_marks N) N).

End TrieStore.

(** ** Trie: the hash of a trie, and committing it

    [hash] returns the reference to the tree ([TrieEnc.v]), leaves a node of
    the same tree whose cached hashes are right, and, with a database, saves
    the tree in it without losing anything the database had.

    The blobs that occur are taken from a set on which the hash function has
    no collisions ([blobs]): no function to 32 bytes is injective on all byte
    strings, and the database silently drops a blob whose hash it has. *)

Import Common RlpCanon TrieEncoding TrieNode TrieDecode TrieOps TrieTree TrieRep TrieEnc TrieStore TrieHasher.
Import TrieDb (node_blob, nodes, blob, diskdb).

Module TrieCommit.

(** The hasher computes the hash function. *)
Class ShaLaw (HF : HashFn) (X : Keccak.Impl) : Prop :=
  sha_hash b : bytes_ok b -> sha Keccak.NewKeccak256 b = Ok (hsh b).

(** Blobs without collisions. *)
Record blobs `{!HashFn} (known : bytes -> Prop) : Prop := {
  known_size b : known b -> len b <= RlpDecode.maxAlloc;
  known_inj a b : known a -> known b -> hsh a = hsh b -> a = b;
  known_zero b : known b -> hsh b <> zeroHash
}.

Section Db.
Context {HF : HashFn} (known : bytes -> Prop) (Hknown : blobs known).

(** Every subtree's encoding is known. *)
Fixpoint tree_known (t : tree) : Prop :=
  match t with
  | E => True
  | Leaf v => bytes_ok v
  | Ext _ c => known (tenc t) /\ tree_known c
  | Branch ts => known (tenc t) /\ foldr (fun c P => tree_known c /\ P) True ts
  end.

Lemma tree_known_Branch ts : tree_known (Branch ts) <-> known (tenc (Branch ts)) /\ Forall tree_known ts.
Proof.
  simpl. apply and_iff_compat_l. induction ts as [|t ts IH]; simpl; [by split; [constructor|]|].
  by rewrite IH, Forall_cons.
Qed.

Lemma tree_known_sized t : tree_known t -> sized t.
Proof.
  induction t as [|v|k c IH|ts IH] using tree_ind'; [done..| |].
  - intros [H1 H2]. split; [by apply (known_size _ Hknown)|auto].
  - rewrite tree_known_Branch, sized_Branch. intros [H1 H2]. split; [by apply (known_size _ Hknown)|].
    rewrite Forall_forall in *. auto.
Qed.

Lemma tree_known_enc t : wf t -> tree_known t -> known (tenc t).
Proof. inversion 1; simpl; tauto. Qed.

(** ** The database *)

Record db_ok (db : DB) : Prop := {
  db_known h b : node_blob db h = Some b -> known b /\ h = hsh b;
  db_nil h n : nodes db !! h = Some n -> blob n = None -> h = zeroHash
}.

(** The same blobs; the reference counts may differ. *)
Definition same (db db' : DB) : Prop :=
  diskdb db = diskdb db' /\ forall h, blob <$> nodes db !! h = blob <$> nodes db' !! h.

#[export] Instance same_equiv : Equivalence same.
Proof.
  split.
  - by intros db.
  - by intros a b [H1 H2].
  - intros a b c [H1 H2] [H3 H4]. split; [congruence|]. intros h. by rewrite H2.
Qed.

Lemma same_blob db db' h : same db db' -> node_blob db h = node_blob db' h.
Proof.
  intros [H1 H2]. specialize (H2 h). unfold node_blob, TrieDb.Node. rewrite H1.
  destruct (nodes db !! h), (nodes db' !! h); simpl in H2; congruence.
Qed.

Lemma same_present db db' h : same db db' -> is_Some (nodes db !! h) -> is_Some (nodes db' !! h).
Proof. intros [_ H]. specialize (H h). rewrite <-!(fmap_is_Some blob), H. done. Qed.

Lemma same_extends db db' : same db db' -> extends (node_blob db) (node_blob db').
Proof. intros H h b. by rewrite (same_blob _ _ h H). Qed.

Lemma same_ok db db' : same db db' -> db_ok db -> db_ok db'.
Proof.
  intros Hs [H1 H2]. split.
  - intros h b. rewrite <-(same_blob _ _ h Hs). apply H1.
  - intros h n Hn Hb. destruct Hs as [_ Hs]. specialize (Hs h). rewrite Hn in Hs.
    destruct (nodes db !! h) as [m|] eqn:E; simpl in Hs; [|done]. apply (H2 h m E). congruence.
Qed.

Lemma insert_ok db x : db_ok db -> known x ->
  let db' := TrieDb.insert db (hsh x) x in
  db_ok db' /\ extends (node_blob db) (node_blob db') /\ node_blob db' (hsh x) = Some x /\ is_Some (nodes db' !! hsh x).
Proof.
  intros [H1 H2] Hx. unfold TrieDb.insert. destruct (nodes db !! hsh x) as [n|] eqn:E; cbv zeta.
  - split; [by split|]. split; [done|]. split; [|by eexists]. unfold node_blob, TrieDb.Node. rewrite E.
    destruct (blob n) as [b|] eqn:Eb; [|by apply H2, (known_zero _ Hknown) in E].
    destruct (H1 (hsh x) b) as [Hb He]; [unfold node_blob, TrieDb.Node; by rewrite E|].
    f_equal. symmetry. by apply (known_inj _ Hknown).
  - set (db' := TrieDb.set_nodesSize _ _).
    assert (forall h, h <> hsh x -> node_blob db' h = node_blob db h) as Hne.
    { intros h Hh. unfold node_blob, TrieDb.Node, db'. simpl. by rewrite lookup_insert_ne. }
    assert (node_blob db' (hsh x) = Some x) as Hsame.
    { unfold node_blob, TrieDb.Node, db'. simpl. by rewrite lookup_insert_eq. }
    split; [split|split; [|split; [done|]]].
    + intros h b Hb. destruct (decide (h = hsh x)) as [->|Hh]; [rewrite Hsame in Hb; by injection Hb as <-|].
      rewrite Hne in Hb by done. by apply H1.
    + intros h n Hn Hb. destruct (decide (h = hsh x)) as [->|Hh].
      * unfold db' in Hn. simpl in Hn. rewrite lookup_insert_eq in Hn. by injection Hn as <-.
      * unfold db' in Hn. simpl in Hn. rewrite lookup_insert_ne in Hn by done. by eapply H2.
    + intros h b Hb. destruct (decide (h = hsh x)) as [->|Hh]; [|by rewrite Hne].
      destruct (H1 _ _ Hb) as [Hkb He]. rewrite Hsame. f_equal. by apply (known_inj _ Hknown).
    + unfold db'. simpl. rewrite lookup_insert_eq. by eexists.
Qed.

Lemma reference_ok db c p : is_Some (nodes db !! p) -> exists db', TrieDb.reference db c p = Ok db' /\ same db db'.
Proof.
  intros [n Hn]. unfold TrieDb.reference. rewrite Hn. destruct (nodes db !! c) as [m|] eqn:Hm; [|by eexists].
  case_match; [by eexists|]. eexists. split; [done|]. split; [done|]. intros h. simpl.
  assert (forall h, blob <$> nodes db !! h =
    blob <$> <[c := {| TrieDb.blob := blob m; TrieDb.parents := TrieDb.parents m + 1; TrieDb.children := TrieDb.children m |}]> (nodes db) !! h) as Hi.
  { intros i. destruct (decide (i = c)) as [->|Hne]; [by rewrite lookup_insert_eq, Hm|by rewrite lookup_insert_ne]. }
  destruct (decide (h = p)) as [->|Hne]; [|by rewrite lookup_alter_ne]. rewrite lookup_alter_eq, Hi.
  by destruct (<[c := _]> (nodes db) !! p).
Qed.

End Db.

(** ** Hashing *)

Section Hash.
Context {HF : HashFn} {X : Keccak.Impl} {SL : ShaLaw HF X} (known : bytes -> Prop) (Hknown : blobs known).
Context (g limit : Z) (onleaf : option LeafCallback) (N0 : Hash -> option bytes).

(** The callback keeps the blobs. *)
Context (Hleaf : forall f v h db, onleaf = Some f -> is_Some (nodes db !! h) -> exists db', f v h db = Ok db' /\ same db db').

(** The nodes that can be loaded: those of the database of a commit, or those
    of the trie's own. *)
Definition N (db : option DB) : Hash -> option bytes :=
  match db with Some db => node_blob db | None => N0 end.

(** Properties of the database of a commit. *)
Definition committed (db : option DB) (P : (Hash -> option bytes) -> Prop) : Prop :=
  match db with Some d => P (node_blob d) | None => True end.

Definition state_ok (db : option DB) : Prop := match db with Some d => db_ok known d | None => True end.

Definition grows (db db' : option DB) : Prop :=
  match db, db' with
  | Some d, Some d' => extends (node_blob d) (node_blob d') /\ db_ok known d'
  | None, None => True
  | _, _ => False
  end.

Lemma grows_extends db db' : grows db db' -> extends (N db) (N db').
Proof. destruct db, db'; simpl; try done; by intros [? _]. Qed.

Lemma grows_ok db db' : grows db db' -> state_ok db'.
Proof. destruct db, db'; simpl; try done; by intros [_ ?]. Qed.

Lemma state_grows_refl db : state_ok db -> grows db db.
Proof. destruct db; simpl; [by split|done]. Qed.

Lemma state_grows_trans a b c : grows a b -> grows b c -> grows a c.
Proof. destruct a, b, c; simpl; try done. intros [H1 _] [H2 ?]. split; [by etrans|done]. Qed.

Lemma committed_mono db db' (P : (Hash -> option bytes) -> Prop) :
  (forall A B, extends A B -> P A -> P B) -> grows db db' -> committed db P -> committed db' P.
Proof. intros HP. destruct db, db'; simpl; try done. intros [He _]. by apply HP. Qed.

Lemma is_some_grows db db' : grows db db' -> is_some db' = is_some db.
Proof. by destruct db, db'. Qed.

(** The result of [hash]: the hash of the tree, or a node with its encoding. *)
Definition out (force : bool) (t : tree) (r : node) : Prop :=
  if force || hashed t then r = hashNode (hsh (tenc t)) else node_item r = titem t /\ r <> nilNode /\ is_hash r = false.

Lemma out_ref t r : part t -> out false t r -> r <> nilNode /\ node_item r = ref t.
Proof.
  unfold out. intros Hp H. destruct (ref_cases t Hp) as [(-> & Hh & _)|[-> Hh]]; rewrite Hh in H; simpl in H; [by subst r|].
  by destruct H as (? & ? & _).
Qed.

(** *** [store] *)

Lemma reference_each_ok todo cs h db : is_Some (nodes db !! h) ->
  exists db', reference_each todo cs h db = Ok db' /\ same db db'.
Proof.
  revert cs db. induction todo as [|todo IH]; intros cs db Hh; [by exists db|].
  destruct cs as [|c cs]; [by exists db|]. destruct c; simpl; try (by apply IH).
  destruct (reference_ok db (BytesToHash h0) h Hh) as (d1 & -> & H1). cbn [rbind].
  destruct (IH cs d1) as (d2 & -> & H2); [by eapply same_present|]. exists d2. split; [done|by etrans].
Qed.

Lemma leaf_each_ok f todo cs h db : onleaf = Some f -> is_Some (nodes db !! h) ->
  exists db', leaf_each f todo cs h db = Ok db' /\ same db db'.
Proof.
  intros Hf. revert cs db. induction todo as [|todo IH]; intros cs db Hh; [by exists db|].
  destruct cs as [|c cs]; [by exists db|]. destruct c; simpl; try (by apply IH).
  destruct (Hleaf f v h db Hf Hh) as (d1 & -> & H1). cbn [rbind].
  destruct (IH cs d1) as (d2 & -> & H2); [by eapply same_present|]. exists d2. split; [done|by etrans].
Qed.

Lemma leaves_ok todo cs h db : is_Some (nodes db !! h) ->
  exists db', match onleaf with Some f => leaf_each f todo cs h db | None => Ok db end = Ok db' /\ same db db'.
Proof. intros Hh. pose proof leaf_each_ok as HL. destruct onleaf; [by apply HL|by exists db]. Qed.

(** The flags of a short or full node. *)
Definition flags_of (n : node) (f : nodeFlag) : Prop :=
  match n with shortNode _ _ f' | fullNode _ f' => f' = f | _ => False end.

Lemma store_spec n f t db force : flags_of n f -> node_item n = titem t -> wf t -> tree_known known t ->
  (forall h, TrieNode.hash f = Some h -> h = hsh (tenc t)) -> state_ok db -> committed db (fun N => below N t) ->
  exists r db', store onleaf n db force = Ok (r, db') /\ grows db db' /\ out force t r /\
    (force || hashed t = true -> committed db' (fun N => saved N t)).
Proof.
  intros Hn Hi Hw Hk Hf Hs Hb. pose proof (tree_known_enc _ _ Hw Hk) as Hx.
  pose proof (tree_known_sized _ Hknown _ Hk) as Hsz. assert (part t) as Hp by (by right; right).
  assert (bytes_ok (tenc t)) as Hxb by (apply tenc_bytes; [done|done|by apply sized_len]).
  assert (hashed t = (32 <=? len (tenc t))) as Hh by (by inversion Hw).
  assert (exists enc, node_enc n = enc /\ enc = tenc t) as (enc & He & Ee) by (exists (node_enc n); unfold node_enc; by rewrite Hi).
  assert (store onleaf n db force =
    (if (len (tenc t) <? 32) && negb force then Ok (n, db)
     else match db with
     | None => Ok (hashNode (hsh (tenc t)), None)
     | Some d =>
        let d := TrieDb.insert d (hsh (tenc t)) (tenc t) in
        let? d := reference_each 16 (direct n) (hsh (tenc t)) d in
        let? d := match onleaf with Some f => leaf_each f 16 (direct n) (hsh (tenc t)) d | None => Ok d end in
        Ok (hashNode (hsh (tenc t)), Some d)
     end)) as ->.
  { unfold store. rewrite He, Ee. destruct n as [| | |k c f'|cs f']; try done; simpl in Hn; subst f';
      (case_match; [done|]); cbn [cache rbind];
      (destruct (TrieNode.hash f) as [h|] eqn:Eh; [rewrite (Hf h eq_refl)|rewrite (sha_hash _ Hxb)]);
      cbn [rbind]; by rewrite ?BytesToHash_hash. }
  destruct ((len (tenc t) <? 32) && negb force) eqn:Esmall.
  - apply andb_prop in Esmall as [Hlt%Z.ltb_lt Hfo]. destruct force; [done|].
    assert (hashed t = false) as E by (rewrite Hh; apply Z.leb_gt; lia). exists n, db. split; [done|].
    split; [by apply state_grows_refl|]. unfold out. rewrite E. split; [|done]. split; [done|]. by destruct n.
  - assert (force || hashed t = true) as E.
    { rewrite Hh. destruct force; [done|]. simpl. rewrite andb_true_r in Esmall. apply Z.ltb_ge in Esmall. by apply Z.leb_le. }
    unfold out. rewrite E. destruct db as [d|]; [|by eexists _, None].
    destruct (insert_ok known Hknown d (tenc t) Hs Hx) as (Hd & He' & Hnode & Hin). cbv zeta.
    destruct (reference_each_ok 16 (direct n) (hsh (tenc t)) _ Hin) as (d2 & -> & Hs2). cbn [rbind].
    destruct (leaves_ok 16 (direct n) (hsh (tenc t)) d2) as (d3 & -> & Hs3); [by eapply same_present|].
    assert (same (TrieDb.insert d (hsh (tenc t)) (tenc t)) d3) as Hs13 by (by etrans).
    assert (extends (node_blob d) (node_blob d3)) as Hext by (etrans; [exact He'|by apply same_extends]).
    cbn [rbind]. exists (hashNode (hsh (tenc t))), (Some d3). split; [done|].
    split; [split; [done|by eapply same_ok]|]. split; [done|]. intros _. split; [by rewrite <-(same_blob _ _ _ Hs13)|].
    by eapply below_mono.
Qed.

(** *** [hash] *)

Abbreviation run_hash := (hash g limit onleaf).

Lemma hash_eq n db force : run_hash n db force =
  (let? hit := use_cache g limit n db in
   match hit with
   | Some (hashed, cached) => Ok (hashed, cached, db)
   | None =>
      let? (collapsed, cached, db) := hashChildren g limit onleaf n db in
      let? (hashed, db) := store onleaf collapsed db force in
      Ok (hashed, with_hash hashed (is_some db) cached, db)
   end).
Proof. by destruct n. Qed.

Lemma use_cache_eq n f db : flags_of n f -> use_cache g limit n db =
  match TrieNode.hash f, db with
  | None, _ => Ok None
  | Some h, None => Ok (Some (hashNode h, n))
  | Some h, Some _ =>
      if flag_canUnload f g limit then Ok (Some (hashNode h, hashNode h))
      else if negb (dirty f) then Ok (Some (hashNode h, n)) else Ok None
  end.
Proof.
  unfold use_cache. destruct n as [| | |k c f'|cs f']; try done; simpl; intros ->;
    (destruct (TrieNode.hash f), db; [|done..]); by destruct (flag_canUnload f g limit).
Qed.

(** What [hash] does to a node of the tree [t]. *)
Definition hashes_to (n : node) (t : tree) (b : bool) (db : option DB) : Prop :=
  exists r c db', run_hash n db b = Ok (r, c, db') /\ grows db db' /\ out b t r /\ repH (N db') b c t /\
    committed db' (fun N => below N t) /\ (b || hashed t = true -> committed db' (fun N => saved N t)).

Definition with_flags (f : nodeFlag) (n : node) : node :=
  match n with shortNode k c _ => shortNode k c f | fullNode cs _ => fullNode cs f | _ => n end.

Lemma with_hash_flags r c n f : flags_of n f ->
  with_hash r c n = with_flags (set_hash (match r with hashNode h => Some h | _ => None end) c f) n.
Proof. by destruct n; simpl; intros <- || intros []. Qed.

(** What [hashChildren] does to it. *)
Definition collapses (n : node) (f : nodeFlag) (t : tree) (db : option DB) : Prop :=
  exists col cached db', hashChildren g limit onleaf n db = Ok (col, cached, db') /\ grows db db' /\
    flags_of col f /\ flags_of cached f /\ node_item col = titem t /\ committed db' (fun N => below N t) /\
    (forall b f' d, grows db' d -> flag_ok (Marks := hash_marks (N d)) b t f' -> repH (N d) b (with_flags f' cached) t).

Lemma saved_below db t : committed db (fun N => saved N t) -> committed db (fun N => below N t).
Proof. destruct db; simpl; [by intros [_ ?]|done]. Qed.

Lemma hash_cached n f t b db h : flags_of n f -> repH (N db) b n t -> flag_ok (Marks := hash_marks (N db)) b t f ->
  wf t -> tree_known known t -> state_ok db -> TrieNode.hash f = Some h ->
  (db = None \/ dirty f = false) -> hashes_to n t b db.
Proof.
  intros Hfl Hr Hf Hw Hk Hs Eh Hd. simpl in Hf. rewrite Eh in Hf. destruct Hf as (-> & Hb & Hsv).
  assert (out b t (hashNode (hsh (tenc t)))) as Ho by (unfold out; destruct b; simpl; [done|by rewrite Hb]).
  assert (committed db (fun N => saved N t)) as Hc by (destruct db; [|done]; destruct Hd as [?|Hd]; [done|by apply Hsv]).
  pose proof (saved_below _ _ Hc) as Hbl.
  pose proof (tree_known_sized _ Hknown _ Hk) as Hsz. assert (part t) as Hp by (by right; right).
  unfold hashes_to. rewrite hash_eq, (use_cache_eq n f db Hfl), Eh. destruct db as [d|].
  - destruct Hd as [?|Hd]; [done|]. destruct (flag_canUnload f g limit).
    + exists (hashNode (hsh (tenc t))), (hashNode (hsh (tenc t))), (Some d). split; [done|]. split; [by apply state_grows_refl|].
      split; [done|]. split; [|done].
      apply (rep_hash (M := hash_marks (node_blob d)) _ _ _ (tenc t) (fun g => expand (Some (hsh (tenc t))) g t)).
      * rewrite BytesToHash_hash. apply Hc.
      * intros g'. by apply decodeNode_tree.
      * intros g'. apply rep_expand; [done|done|exact Hbl|]. split; [done|]. split; [done|exact Hc].
      * split; [done|]. split; [done|exact Hc].
    + rewrite Hd. cbn [negb rbind]. exists (hashNode (hsh (tenc t))), n, (Some d).
      split; [done|]. split; [by apply state_grows_refl|]. done.
  - cbn [rbind]. by exists (hashNode (hsh (tenc t))), n, None.
Qed.

Lemma hash_loaded n f t b db : flags_of n f -> repH (N db) b n t -> flag_ok (Marks := hash_marks (N db)) b t f ->
  wf t -> tree_known known t -> state_ok db -> collapses n f t db -> hashes_to n t b db.
Proof.
  intros Hfl Hr Hf Hw Hk Hs (col & cached & d1 & Ec & Hg1 & Hcf & Hccf & Hi & Hb1 & Hrep).
  assert (hashes_to n t b db \/ use_cache g limit n db = Ok None /\ (TrieNode.hash f <> None -> dirty f = true)) as [?|[Hmiss Hdi]];
    [|done|].
  { rewrite (use_cache_eq n f db Hfl). destruct (TrieNode.hash f) as [h|] eqn:Eh; [|by right].
    destruct db as [d|]; [|left; eapply hash_cached; eauto]. destruct (dirty f) eqn:Ed; [|left; eapply hash_cached; eauto].
    right. unfold flag_canUnload. by rewrite Ed. }
  unfold hashes_to. rewrite hash_eq, Hmiss. cbn [rbind]. rewrite Ec. cbn [rbind].
  destruct (store_spec col f t d1 b) as (r & d2 & -> & Hg2 & Ho & Hsv); try done.
  { intros h Eh. simpl in Hf. rewrite Eh in Hf. apply Hf. }
  { by eapply grows_ok. }
  cbn [rbind]. exists r, (with_hash r (is_some d2) cached), d2. split; [done|]. split; [by eapply state_grows_trans|].
  split; [done|]. split; [|split; [|done]].
  - rewrite (with_hash_flags r (is_some d2) cached f Hccf). apply Hrep; [done|]. unfold out in Ho.
    destruct (b || hashed t) eqn:Ehash.
    + rewrite Ho. simpl. split; [done|]. split; [by intros ->|]. destruct d2 as [d2|]; simpl.
      * intros _. by apply Hsv.
      * intros Hclean. exfalso. destruct (TrieNode.hash f) as [h|] eqn:Eh; [by rewrite Hdi in Hclean by done|].
        simpl in Hf. rewrite Eh in Hf. destruct (Hf Hclean) as [-> ?]. simpl in Ehash. congruence.
    + destruct Ho as (_ & _ & Hnh). apply orb_false_iff in Ehash as [-> Hnt]. destruct r; try done; by simpl.
  - eapply (committed_mono d1 d2 (fun N => below N t)); [|done|done]. intros A B. apply below_mono.
Qed.

(** A hash node. *)
Lemma hash_hashNode h t b db : repH (N db) b (hashNode h) t -> state_ok db -> hashes_to (hashNode h) t b db.
Proof.
  intros Hr Hs. pose proof Hr as Hr'. inversion Hr' as [| | | |b' h' enc dec t' _ _ _ (E & Hb & Hsv)]; subst.
  unfold hashes_to. rewrite hash_eq. cbn. exists (hashNode (hsh (tenc t))), (hashNode (hsh (tenc t))), db.
  split; [done|]. split; [by apply state_grows_refl|]. split; [unfold out; destruct b; simpl; [done|by rewrite Hb]|].
  split; [done|]. assert (committed db (fun N => saved N t)) as Hc by (by destruct db).
  split; [by apply saved_below|done].
Qed.

(** *** Children *)

Definition hashable (n : node) : Prop := forall t b db,
  repH (N db) b n t -> wf t -> tree_known known t -> state_ok db -> hashes_to n t b db.

Lemma collapse_short k c f u db : hashable c -> repH (N db) false c u -> wf (Ext k u) -> tree_known known (Ext k u) ->
  state_ok db -> collapses (shortNode k c f) f (Ext k u) db.
Proof.
  intros IH Hc Hw [_ Hk] Hs. destruct (key_compact _ _ Hw) as (Ek & _).
  unfold collapses, hashChildren, hashChildren_with. rewrite Ek. cbn [rbind].
  assert (exists r c' db', match c with valueNode _ => Ok (c, c, db) | _ => run_hash c db false end = Ok (r, c', db') /\
    grows db db' /\ r <> nilNode /\ node_item r = ref u /\ repH (N db') false c' u /\
    committed db' (fun N => here N u /\ below N u)) as (r & c' & d1 & -> & Hg & Hr & Hi & Hc' & Hb).
  { inversion Hw as [k' v _ Hv|k' ts _ _ Hwb|]; subst.
    - apply rep_Leaf in Hc as ->.
      exists (valueNode v), (valueNode v), db. split; [done|]. split; [by apply state_grows_refl|]. split; [done|].
      split; [done|]. split; [constructor|]. destruct db; [|done]. by split.
    - destruct (IH (Branch ts) false db Hc Hwb Hk Hs) as (r & c' & d1 & E & Hg & Ho & Hr & Hb & Hsv).
      exists r, c', d1. split; [by destruct c; [| inversion Hc|..]|]. split; [done|].
      destruct (out_ref (Branch ts) r) as [? ?]; [by right; right|done|]. split; [done|]. split; [done|]. split; [done|].
      destruct d1; [|done]. split; [|done]. intros Hh. apply Hsv. done. }
  cbn [rbind]. assert (some_value r = r) as -> by (by destruct r).
  do 3 eexists. split; [done|]. split; [done|]. split; [done|]. split; [done|].
  split; [cbn [node_item titem]; by rewrite Hi|]. split; [done|].
  intros b f' d Hd Hf. constructor; [|done]. eapply (rep_mono (N d1)); [by apply grows_extends|done].
Qed.

Abbreviation each := (hash_each (fun c db => run_hash c db false)).

(** One child, hashed or left alone. *)
Lemma hash_one c u todo db : hashable c -> repH (N db) false c u ->
  (match todo with O => u = E \/ exists v, u = Leaf v /\ v <> [] | _ => u = E \/ wf u end) -> tree_known known u -> state_ok db ->
  exists r c' db', match todo, c with S _, nilNode | O, _ => Ok (some_value c, c, db) | S _, _ => run_hash c db false end =
    Ok (r, c', db') /\ grows db db' /\ node_item r = ref u /\ repH (N db') false c' u /\
    committed db' (fun N => here N u /\ below N u).
Proof.
  intros IH Hc Hu Hk Hs.
  assert (u = E -> exists r c' db', match todo, c with S _, nilNode | O, _ => Ok (some_value c, c, db) | S _, _ => run_hash c db false end =
    Ok (r, c', db') /\ grows db db' /\ node_item r = ref u /\ repH (N db') false c' u /\
    committed db' (fun N => here N u /\ below N u)) as HE.
  { intros ->. apply rep_E in Hc as ->. exists (valueNode []), nilNode, db. split; [by destruct todo|].
    split; [by apply state_grows_refl|]. split; [done|]. split; [constructor|]. destruct db; [|done]. by split. }
  destruct todo as [|todo].
  - destruct Hu as [Hu|(v & -> & Hv)]; [auto|]. apply rep_Leaf in Hc as ->. exists (valueNode v), (valueNode v), db.
    split; [done|]. split; [by apply state_grows_refl|]. split; [done|]. split; [constructor|]. destruct db; [|done]. by split.
  - destruct Hu as [Hu|Hw]; [auto|]. destruct (IH u false db Hc Hw Hk Hs) as (r & c' & d1 & E & Hg & Ho & Hr & Hb & Hsv).
    exists r, c', d1. split; [destruct c; [|done..]; apply rep_nil_inv in Hc as ->; inversion Hw|]. split; [done|].
    destruct (out_ref u r) as [_ ?]; [by right; right|done|]. split; [done|]. split; [done|].
    destruct d1; [|done]. split; [|done]. intros Hh. by apply Hsv.
Qed.

Lemma hash_each_spec us v cs db : Forall hashable cs -> Forall2 (repH (N db) false) cs (us ++ [v]) ->
  Forall (fun u => u = E \/ wf u) us -> (v = E \/ exists b, v = Leaf b /\ b <> []) ->
  Forall (tree_known known) (us ++ [v]) -> state_ok db ->
  exists cols cacheds db', each (length us) cs db = Ok (cols, cacheds, db') /\ grows db db' /\
    map node_item cols = map ref (us ++ [v]) /\ Forall2 (repH (N db') false) cacheds (us ++ [v]) /\
    committed db' (fun N => Forall (fun u => here N u /\ below N u) (us ++ [v])).
Proof.
  revert cs db. induction us as [|u us IH]; intros cs db Hh Hr Hu Hv Hk Hs; simpl in Hr, Hk;
    apply Forall2_cons_inv_r in Hr as (c & cs' & Hc & Hr & ->); apply Forall_cons in Hh as [Hhc Hh];
    apply Forall_cons in Hk as [Hkc Hk]; cbn [hash_each length].
  - apply Forall2_nil_inv_r in Hr as ->. destruct (hash_one c v O db Hhc Hc Hv Hkc Hs) as (r & c' & d1 & -> & Hg & Hi & Hr & Hb).
    cbn [rbind hash_each]. exists [r], [c'], d1. split; [done|]. split; [done|]. simpl. rewrite Hi. split; [done|].
    split; [by constructor|]. destruct d1; [|done]. constructor; [exact Hb|constructor].
  - apply Forall_cons in Hu as [Hu Hus].
    destruct (hash_one c u (S (length us)) db Hhc Hc Hu Hkc Hs) as (r & c' & d1 & -> & Hg & Hi & Hrc & Hb). cbn [rbind pred].
    destruct (IH cs' d1) as (cols & cacheds & d2 & -> & Hg2 & Hi2 & Hr2 & Hb2); try done.
    { eapply Forall2_impl; [done|]. intros n t. apply rep_mono. by apply grows_extends. }
    { by eapply grows_ok. }
    cbn [rbind]. exists (r :: cols), (c' :: cacheds), d2. split; [done|]. split; [by eapply state_grows_trans|].
    simpl. rewrite Hi, Hi2. split; [done|]. split.
    + constructor; [|done]. eapply rep_mono; [by apply grows_extends|done].
    + eapply (committed_mono _ _ (fun N => here N u /\ below N u)) in Hb; [| |done].
      * destruct d2; [|done]. by constructor.
      * intros A B HAB [H1 H2]. split; [by eapply here_mono|by eapply below_mono].
Qed.

Lemma collapse_full cs f ts db : Forall hashable cs -> repsH (N db) cs ts -> wf (Branch ts) ->
  tree_known known (Branch ts) -> state_ok db -> collapses (fullNode cs f) f (Branch ts) db.
Proof.
  intros IH Hcs Hw Hk Hs. destruct (branch_parts ts Hw) as (us & v & -> & Hl & Hus & Hv).
  apply tree_known_Branch in Hk as [_ Hk].
  destruct (hash_each_spec us v cs db) as (cols & cacheds & d1 & E & Hg & Hi & Hr & Hb); try done.
  { by apply Forall2_same_length_lookup. }
  unfold collapses, hashChildren, hashChildren_with. rewrite <-Hl, E. cbn [rbind].
  do 3 eexists. split; [done|]. split; [done|]. split; [done|]. split; [done|].
  split; [cbn [node_item titem]; by rewrite Hi|]. split.
  - destruct d1; [|done]. by apply below_Branch.
  - intros b f' d Hd Hf. cbn [with_flags]. apply (rep_branch (M := hash_marks (N d))); [|done].
    apply Forall2_same_length_lookup. eapply Forall2_impl; [done|]. intros n t. apply rep_mono. by apply grows_extends.
Qed.

Lemma hash_spec n : hashable n.
Proof.
  induction n as [|v|h|k c f IH|cs f IH] using node_ind'; intros t b db Hr Hw Hk Hs.
  - apply rep_nil_inv in Hr as ->. inversion Hw.
  - apply rep_value_inv in Hr as ->. inversion Hw.
  - by apply hash_hashNode.
  - pose proof Hr as Hr'. apply rep_short_inv in Hr' as (u & -> & Hu & Hf).
    apply (hash_loaded _ f); try done. by apply collapse_short.
  - pose proof Hr as Hr'. apply rep_full_inv in Hr' as (ts & -> & Hcs & Hf).
    apply (hash_loaded _ f); try done. by apply collapse_full.
Qed.

End Hash.

End TrieCommit.
