(* ===== verification/TrieLaws.v ===== *)
(** * Trie: what a trie promises

    A trie is a finite map from byte strings to non-empty byte strings
    ([trie_refines_map]); its hash is a function of that map
    ([hash_canonical]); and a committed trie is found again under its hash
    ([commit_reload]). *)

From Stdlib Require Import Lia String.
From stdpp Require Import base numbers list gmap.
From S2P Require Import Prelude BigInt Types RlpDecode RlpSpec RlpCanon Keccak KeccakSpec KeccakSponge KeccakLaws.
From S2P Require Import TrieEncoding TrieNode TrieOps TrieRep TrieSpec TrieEnc TrieCommit TrieDb TrieHasher.
Import Common RlpCanon TrieEncoding TrieNode TrieOps TrieTree TrieRep TrieSpec TrieCanon TrieEnc TrieStore TrieHasher TrieCommit.
Import TrieDb (node_blob, nodes).
Import KeccakSpec (keccak_f).
Import KeccakSponge (sponge_hash, sponge_hash_length, sponge_hash_ok, ImplLaws, rates, absorbed, Reset_absorbed, Write_spec, Sum_spec, kept).

#[local] Open Scope Z_scope.
#[local] Open Scope go_scope.

Module TrieLaws.

(** ** The map *)

Inductive op :=
| OGet (key : bytes)
| OUpdate (key value : bytes)
| ODelete (key : bytes).

Definition op_ok (o : op) : Prop :=
  match o with OGet k | ODelete k => bytes_ok k | OUpdate k v => bytes_ok k end.

(** The abstract machine: the state is a map, only a read has an output. *)
Definition map_step (m : gmap bytes bytes) (o : op) : gmap bytes bytes * option bytes :=
  match o with
  | OGet k => (m, m !! k)
  | OUpdate k [] | ODelete k => (base.delete k m, None)
  | OUpdate k v => (<[k := v]> m, None)
  end.

Fixpoint map_run (m : gmap bytes bytes) (os : list op) : gmap bytes bytes * list (option bytes) :=
  match os with
  | [] => (m, [])
  | o :: os => let '(m, r) := map_step m o in let '(m, rs) := map_run m os in (m, r :: rs)
  end.

(** The machine of the code; an error of the database stops it. *)
Definition trie_step (Node : Hash -> option bytes) (t : Trie) (o : op)
  : result (MissingNodeError + Trie * option bytes) :=
  match o with
  | OGet k =>
      let? (t, v, err) := TryGet Node t k in
      Ok match err with Some e => inl e | None => inr (t, v) end
  | OUpdate k v =>
      let? (t, err) := TryUpdate Node t k v in
      Ok match err with Some e => inl e | None => inr (t, None) end
  | ODelete k =>
      let? (t, err) := TryDelete Node t k in
      Ok match err with Some e => inl e | None => inr (t, None) end
  end.

Fixpoint trie_run (Node : Hash -> option bytes) (t : Trie) (os : list op)
  : result (MissingNodeError + Trie * list (option bytes)) :=
  match os with
  | [] => Ok (inr (t, []))
  | o :: os =>
      let? r := trie_step Node t o in
      match r with
      | inl e => Ok (inl e)
      | inr (t, v) =>
          let? r := trie_run Node t os in
          Ok match r with inl e => inl e | inr (t, vs) => inr (t, v :: vs) end
      end
  end.

(** The trie represents the map, its unloaded parts in the database. *)
Definition represents {M : Marks} (Node : Hash -> option bytes) (t : Trie) (m : gmap bytes bytes) : Prop :=
  exists T, rep Node true (root t) T /\ contents T m.

Section Map.
Context {M : Marks} (Node : Hash -> option bytes).

Lemma fits_contents T m key : contents T m -> bytes_ok key -> fits T (keybytesToHex key).
Proof.
  intros [Hs _ _] Hk. pose proof (keybytesToHex_tkey key Hk). destruct Hs as [->|Hw]; [left; auto|right; by right].
Qed.

Lemma cost_fuel n key : (cost n key <= trie_fuel key)%nat.
Proof. unfold cost, trie_fuel. destruct (is_hash n); lia. Qed.

Lemma fits_shape T key : tkey key -> fits T key -> T = E \/ wf T.
Proof. intros Hk [[? _]|[[-> _]|[_ ?]]]; [by left|by apply tkey_nil in Hk|by right]. Qed.

Lemma TryGet_ok t m key : represents Node t m -> bytes_ok key ->
  exists t', TryGet Node t key = Ok (t', m !! key, None) /\ represents Node t' m.
Proof.
  intros (T & Hr & Hc) Hk. unfold TryGet.
  destruct (tryGet_spec Node (cachegen t) (trie_fuel (keybytesToHex key)) (keybytesToHex key) (root t) T 0%nat true)
    as (n' & r & -> & Hn'); [done|by eapply fits_contents|lia|apply cost_fuel|].
  cbn [rbind]. rewrite drop_0, (c_get _ _ Hc key Hk). eexists. split; [done|]. exists T. split; [|done].
  by destruct (succeeded r None).
Qed.

Lemma remove_ok t m key : represents Node t m -> bytes_ok key ->
  exists c, delete Node (cachegen t) (trie_fuel (keybytesToHex key)) (root t) [] (keybytesToHex key) = Ok c /\
    exists t', apply_change t c = (t', None) /\ represents Node t' (base.delete key m).
Proof.
  intros (T & Hr & Hc) Hk. pose proof (fits_contents _ _ _ Hc Hk) as Hf.
  destruct (delete_spec Node (cachegen t) (trie_fuel (keybytesToHex key)) (root t) T [] (keybytesToHex key) true)
    as (d & n' & T' & -> & Hr' & Hf' & Hs & _); [done|done|apply cost_fuel|].
  eexists. split; [done|]. eexists. split; [done|]. exists T'. split; [done|].
  apply (contents_sets T T' m key None); [done|done| |done]. by eapply fits_shape, Hf'; apply keybytesToHex_tkey.
Qed.

Lemma TryUpdate_ok t m key v : represents Node t m -> bytes_ok key ->
  exists t', TryUpdate Node t key v = Ok (t', None) /\
    represents Node t' (match v with [] => base.delete key m | _ => <[key := v]> m end).
Proof.
  intros Ht Hk. unfold TryUpdate. destruct v as [|x v].
  - change (negb (len (@nil Z) =? 0)) with false. cbn iota.
    destruct (remove_ok t m key Ht Hk) as (c & -> & t' & Ec & Ht'). cbn [rbind]. rewrite Ec. by exists t'.
  - destruct Ht as (T & Hr & Hc). pose proof (fits_contents _ _ _ Hc Hk) as Hf.
    rewrite len_cons. pose proof (len_nonneg v). rewrite (proj2 (Z.eqb_neq (1 + len v) 0)) by lia. cbn [negb].
    destruct (insert_spec Node (cachegen t) (trie_fuel (keybytesToHex key)) (x :: v) (root t) T [] (keybytesToHex key) true)
      as (d & n' & T' & -> & Hr' & Hf' & _ & Hs & _); [done|done|done|apply cost_fuel|].
    eexists. split; [done|]. exists T'. split; [done|].
    apply (contents_sets T T' m key (Some (x :: v))); [done|done| |done]. by eapply fits_shape, Hf'; apply keybytesToHex_tkey.
Qed.

Lemma trie_step_ok t m o : represents Node t m -> op_ok o ->
  exists t', trie_step Node t o = Ok (inr (t', snd (map_step m o))) /\ represents Node t' (fst (map_step m o)).
Proof.
  intros Ht Ho. destruct o as [k|k v|k]; simpl in Ho |- *.
  - destruct (TryGet_ok t m k Ht Ho) as (t' & -> & Ht'). by exists t'.
  - destruct (TryUpdate_ok t m k v Ht Ho) as (t' & -> & Ht'). exists t'. by destruct v.
  - unfold TryDelete. destruct (remove_ok t m k Ht Ho) as (c & -> & t' & Ec & Ht'). cbn [rbind]. rewrite Ec. by exists t'.
Qed.

Lemma trie_run_ok t m os : represents Node t m -> Forall op_ok os ->
  exists t', trie_run Node t os = Ok (inr (t', snd (map_run m os))) /\ represents Node t' (fst (map_run m os)).
Proof.
  intros Ht Hos. revert t m Ht. induction Hos as [|o os Ho _ IH]; intros t m Ht; [by exists t|].
  destruct (trie_step_ok t m o Ht Ho) as (t1 & E1 & H1). simpl. rewrite E1. cbn [rbind].
  destruct (map_step m o) as [m1 r1] eqn:Em. simpl in H1 |- *. destruct (IH t1 m1 H1) as (t2 & -> & H2). cbn [rbind].
  destruct (map_run m1 os). by exists t2.
Qed.

(** C19: A trie is a map: however its parts are cached or left in the database, any
    sequence of reads, updates and deletions returns what the same sequence on
    a finite map returns, never panics, always ends within the fuel and never
    reports a missing node, and the trie represents the resulting map. *)
Theorem trie_refines_map (t : Trie) (m : gmap bytes bytes) (os : list op) :
  represents Node t m -> Forall op_ok os ->
  exists t', trie_run Node t os = Ok (inr (t', snd (map_run m os))) /\ represents Node t' (fst (map_run m os)).
Proof. apply trie_run_ok. Qed.

End Map.

(** The empty trie. *)
Definition empty_trie : Trie := {| root := nilNode; originalRoot := zeroHash; cachegen := 0; cachelimit := 0 |}.

Lemma empty_represents {M : Marks} Node t : root t = nilNode -> represents Node t ∅.
Proof. intros E. exists TrieTree.E. rewrite E. split; [constructor|apply contents_empty]. Qed.

Lemma trie_refines_map_witness : exists t',
  trie_run (fun _ => None) empty_trie
    [OUpdate (of_string "doe") [1]; OUpdate (of_string "dog") [2]; OUpdate (of_string "doe") []; OGet (of_string "dog"); OGet (of_string "doe")] =
  Ok (inr (t', [None; None; None; Some [2]; None])).
Proof.
  destruct (trie_refines_map (M := no_marks) (fun _ => None) empty_trie ∅
    [OUpdate (of_string "doe") [1]; OUpdate (of_string "dog") [2]; OUpdate (of_string "doe") []; OGet (of_string "dog"); OGet (of_string "doe")])
    as (t' & E & _).
  - apply empty_represents. reflexivity.
  - repeat (apply List.Forall_cons; [apply of_string_ok|]). apply List.Forall_nil.
  - exists t'. rewrite E. vm_compute. reflexivity.
Defined.

(** A trie that was only ever held in memory. *)
Definition history (os : list op) : Trie :=
  match trie_run (fun _ => None) empty_trie os with Ok (inr (t, _)) => t | _ => empty_trie end.

Lemma history_ok {M : Marks} os m : Forall op_ok os -> fst (map_run ∅ os) = m -> represents (fun _ => None) (history os) m.
Proof.
  intros Ho <-. destruct (trie_run_ok (fun _ => None) empty_trie ∅ os) as (t' & E & Ht); [by apply empty_represents|done|].
  unfold history. by rewrite E.
Qed.

(** ** The hash function *)

#[export, refine] Instance keccak256 : HashFn := {| hsh := sponge_hash keccak_f 136 0x01 32 |}.
Proof. - intros b. apply sponge_hash_length. - intros b. apply sponge_hash_ok. Defined.

#[export] Instance keccak_sha (X : Keccak.Impl) `{!ImplLaws X keccak_f} : ShaLaw keccak256 X.
Proof.
  intros b Hb. unfold sha. assert (Z.of_nat 136 ∈ rates) as HR by KeccakLaws.in_rates.
  assert (absorbed keccak_f 136 (Keccak.Reset Keccak.NewKeccak256) []) as Ha by (by apply Reset_absorbed).
  destruct (Write_spec X keccak_f 136 HR _ [] b Ha) as (d & -> & Hd & Hk); [constructor|done|]. cbn [rbind].
  destruct Hk as [Ho Hds]. rewrite (Sum_spec X keccak_f 136 HR d b []); rewrite ?Ho, ?Hds; try done.
Qed.

#[local] Existing Instance KeccakSponge.generic_laws.

(** Computing a hash with the code instead of the specification. *)
Lemma hsh_compute b h : bytes_ok b -> sha (H := Keccak.generic) Keccak.NewKeccak256 b = Ok h -> hsh b = h.
Proof. intros Hb E. rewrite (sha_hash (X := Keccak.generic) b Hb) in E. by injection E. Qed.

Lemma empty_string_hash : hsh [128] = emptyRoot.
Proof. apply hsh_compute; [repeat constructor; lia|vm_compute; reflexivity]. Qed.

(** ** Hashing *)

(** The root hash of a tree. *)
Definition troot (t : tree) : Hash := match t with E => emptyRoot | _ => hsh (tenc t) end.

Lemma troot_wf t : wf t -> troot t = hsh (tenc t).
Proof. by inversion 1. Qed.

Section Laws.
Context {X : Keccak.Impl} {XL : ImplLaws X keccak_f} (known : bytes -> Prop).

(** Whatever tree holds the map, its encodings are known blobs. *)
Definition map_known (m : gmap bytes bytes) : Prop := forall T, contents T m -> tree_known known T.

Abbreviation reprs N t m := (represents (M := hash_marks N) N t m).

Lemma hashRoot_nil t db onleaf : root t = nilNode -> hashRoot t db onleaf = Ok (hashNode emptyRoot, nilNode, db).
Proof. unfold hashRoot. by intros ->. Qed.

Lemma hashRoot_wf t T N db onleaf : rep (M := hash_marks N) N true (root t) T -> wf T ->
  hashRoot t db onleaf = hash (cachegen t) (cachelimit t) onleaf (root t) db true.
Proof. intros Hr Hw. unfold hashRoot. destruct (root t); try done. apply rep_nil_inv in Hr as ->. inversion Hw. Qed.

Lemma Hash_ok N t m T : blobs known -> map_known m -> rep (M := hash_marks N) N true (root t) T -> contents T m ->
  exists t', Trie_Hash t = Ok (t', troot T) /\ reprs N t' m.
Proof.
  intros Hk Hm Hr Hc. unfold Trie_Hash. destruct (c_shape _ _ Hc) as [->|Hw].
  - apply rep_E in Hr as Hn. rewrite (hashRoot_nil t None None Hn). eexists. split; [done|].
    exists TrieTree.E. split; [constructor|done].
  - rewrite (hashRoot_wf t T N None None Hr Hw).
    destruct (hash_spec known Hk (cachegen t) (cachelimit t) None N ltac:(done) (root t) T true None Hr Hw (Hm T Hc) I)
      as (r & c & db' & -> & Hg & Ho & Hr' & _). cbn [rbind]. unfold out in Ho. cbn [orb] in Ho. subst r. cbn [root_hash rbind].
    rewrite BytesToHash_hash, (troot_wf T Hw). eexists. split; [done|]. exists T. split; [|done]. by destruct db'.
Qed.

(** C20: The hash of a trie is a function of the map it represents: two tries with
    the same contents, whatever their histories, databases and caches, have the
    same hash, and hashing changes neither. *)
Theorem hash_canonical (N1 N2 : Hash -> option bytes) (t1 t2 : Trie) (m : gmap bytes bytes) :
  blobs known -> map_known m -> reprs N1 t1 m -> reprs N2 t2 m ->
  exists t1' t2' h, Trie_Hash t1 = Ok (t1', h) /\ Trie_Hash t2 = Ok (t2', h) /\ reprs N1 t1' m /\ reprs N2 t2' m.
Proof.
  intros Hk Hm (T & Hr1 & Hc1) (T2 & Hr2 & Hc2). pose proof (contents_unique _ _ _ Hc2 Hc1) as ->.
  destruct (Hash_ok N1 t1 m T Hk Hm Hr1 Hc1) as (t1' & E1 & H1). destruct (Hash_ok N2 t2 m T Hk Hm Hr2 Hc2) as (t2' & E2 & H2).
  by exists t1', t2', (troot T).
Qed.

(** ** Committing *)

Lemma repr_mono N N' t m : extends N N' -> reprs N t m -> reprs N' t m.
Proof. intros He (T & Hr & Hc). exists T. split; [by eapply rep_mono|done]. Qed.

(** The blob of the empty string is not that of a tree. *)
Lemma troot_not_empty T : blobs known -> known [128] -> wf T -> tree_known known T -> troot T <> emptyRoot /\ troot T <> zeroHash.
Proof.
  intros Hk H0 Hw Ht. rewrite (troot_wf T Hw). pose proof (tree_known_enc _ _ Hw Ht) as Hx.
  split; [|by apply (known_zero _ Hk)]. rewrite <-empty_string_hash.
  intros E. apply (known_inj _ Hk) in E; [|done|done].
  assert (forall l, rlp_item (Lst l) <> [128]) as Hl.
  { intros l El. simpl in El. unfold RlpSpec.rlp_list, RlpSpec.header in El.
    destruct (Z.ltb_spec (len (List.concat (map rlp_item l))) 56); simplify_eq/=.
    - pose proof (len_nonneg (List.concat (map rlp_item l))). lia.
    - pose proof (len_nonneg (Big.Bytes (len (List.concat (map rlp_item l))))). lia. }
  inversion Hw; subst; by apply Hl in E.
Qed.

Lemma New_reloads N T : blobs known -> known [128] -> tree_known known T -> T = E \/ wf T -> (wf T -> saved N T) ->
  exists t, New N (troot T) = Ok (inr t) /\ rep (M := hash_marks N) N true (root t) T.
Proof.
  intros Hk H0 Ht Hs Hsv. unfold New. destruct Hs as [->|Hw].
  - rewrite (bool_decide_true (troot E = emptyRoot)) by done. rewrite andb_false_r. eexists. split; [done|constructor].
  - destruct (troot_not_empty T Hk H0 Hw Ht) as [H1 H2]. rewrite !bool_decide_false by done. cbn [negb andb].
    pose proof (rep_saved N T Hw (tree_known_sized _ Hk _ Ht) (Hsv Hw)) as Hr.
    destruct (rep_loaded (M := hash_marks N) N _ _ _ Hr 0 []) as (n & E & _ & Hn). rewrite (troot_wf T Hw), E. cbn [rbind].
    eexists. by split.
Qed.

Lemma Commit_ok (t : Trie) (db : TrieDb.Database) (m : gmap bytes bytes) (onleaf : option LeafCallback) :
  blobs known -> known [128] -> map_known m -> db_ok known db -> reprs (node_blob db) t m ->
  (forall f v h d, onleaf = Some f -> is_Some (nodes d !! h) -> exists d', f v h d = Ok d' /\ same d d') ->
  exists t' db' h t2, Commit t db onleaf = Ok (t', db', h) /\ db_ok known db' /\ reprs (node_blob db') t' m /\
    (forall u mu, reprs (node_blob db) u mu -> reprs (node_blob db') u mu) /\
    New (node_blob db') h = Ok (inr t2) /\ reprs (node_blob db') t2 m.
Proof.
  intros Hk H0 Hm Hd (T & Hr & Hc) Hl. pose proof (Hm T Hc) as Ht. unfold Commit. destruct (c_shape _ _ Hc) as [->|Hw].
  - apply rep_E in Hr as Hn. rewrite (hashRoot_nil t (Some db) onleaf Hn). cbn [rbind root_hash].
    destruct (New_reloads (node_blob db) TrieTree.E Hk H0 I (or_introl eq_refl)) as (t2 & E2 & Hr2); [by inversion 1|].
    do 4 eexists. split; [done|]. split; [done|]. split; [exists TrieTree.E; by split; [constructor|]|].
    split; [done|]. split; [exact E2|]. by exists TrieTree.E.
  - rewrite (hashRoot_wf t T (node_blob db) (Some db) onleaf Hr Hw).
    destruct (hash_spec known Hk (cachegen t) (cachelimit t) onleaf (node_blob db) Hl (root t) T true (Some db) Hr Hw Ht Hd)
      as (r & c & db' & -> & Hg & Ho & Hr' & _ & Hsv). cbn [rbind]. unfold out in Ho. cbn [orb] in Ho. subst r.
    destruct db' as [db'|]; [|done]. destruct Hg as [He Hd']. cbn [root_hash rbind].
    destruct (New_reloads (node_blob db') T Hk H0 Ht (or_intror Hw)) as (t2 & E2 & Hr2); [intros _; by apply Hsv|].
    rewrite BytesToHash_hash, <-(troot_wf T Hw). do 4 eexists. split; [done|]. split; [done|].
    split; [by exists T|]. split; [intros u mu; by apply repr_mono|]. split; [exact E2|]. by exists T.
Qed.

(** C21: Committing a trie saves it: it returns the hash of its contents and goes on
    representing the same map; so does every other trie on the database; and
    the trie opened at the returned hash represents the map too. *)
Theorem commit_reload (t : Trie) (db : TrieDb.Database) (m : gmap bytes bytes) (onleaf : option LeafCallback) :
  blobs known -> known [128] -> map_known m -> db_ok known db -> reprs (node_blob db) t m ->
  (forall f v h d, onleaf = Some f -> is_Some (nodes d !! h) -> exists d', f v h d = Ok d' /\ same d d') ->
  exists t' db' h t2, Commit t db onleaf = Ok (t', db', h) /\ db_ok known db' /\ reprs (node_blob db') t' m /\
    (forall u mu, reprs (node_blob db) u mu -> reprs (node_blob db') u mu) /\
    New (node_blob db') h = Ok (inr t2) /\ reprs (node_blob db') t2 m.
Proof. apply Commit_ok. Qed.

End Laws.

(** *** Examples with one key *)

Definition leaf_tree (k v : bytes) : tree := Ext (keybytesToHex k) (Leaf v).

Lemma contents_single k v : bytes_ok k -> v <> [] -> contents (leaf_tree k v) {[k := v]}.
Proof.
  intros Hk Hv. split; [right; constructor; [by apply keybytesToHex_tkey|done]| |]; unfold leaf_tree.
  - intros key Hkey. rewrite look_Leaf_at. destruct (decide (key = k)) as [->|Hne].
    + by rewrite lookup_singleton_eq, decide_True.
    + rewrite lookup_singleton_ne, decide_False; [done| |done]. intros E. by apply keybytesToHex_inj in E.
  - intros key w. rewrite look_Leaf_at. destruct (decide (key = keybytesToHex k)) as [->|]; [|done]. by exists k.
Qed.

Definition one_key : gmap bytes bytes := {[of_string "dog" := of_string "puppy"]}.
Definition one_tree : tree := leaf_tree (of_string "dog") (of_string "puppy").

(** The blobs of that trie and of the empty one. *)
Definition one_blobs (b : bytes) : Prop := b = tenc one_tree \/ b = [128].

Definition one_enc : bytes := Eval vm_compute in tenc one_tree.
Definition one_hash : Hash :=
  Eval vm_compute in value_of (sha (H := Keccak.generic) Keccak.NewKeccak256 one_enc) [].

Lemma one_hash_ok : hsh (tenc one_tree) = one_hash.
Proof. apply hsh_compute; [change (tenc one_tree) with one_enc; repeat constructor; lia|vm_compute; reflexivity]. Qed.

Lemma one_blobs_ok : blobs one_blobs.
Proof.
  split.
  - intros b [->| ->]; vm_compute; discriminate.
  - intros a b [->| ->] [->| ->]; rewrite ?one_hash_ok, ?empty_string_hash; (reflexivity || discriminate).
  - intros b [->| ->]; rewrite ?one_hash_ok, ?empty_string_hash; discriminate.
Qed.

Lemma one_key_known : map_known one_blobs one_key.
Proof.
  intros T HT. assert (T = one_tree) as ->.
  { apply (contents_unique _ _ one_key); [done|]. apply contents_single; [apply of_string_ok|discriminate]. }
  split; [by left|apply of_string_ok].
Qed.

(** A direct insertion, and a detour over a branch. *)
Definition direct_way : list op := [OUpdate (of_string "dog") (of_string "puppy")].
Definition detour : list op :=
  [OUpdate (of_string "doe") (of_string "reindeer"); OUpdate (of_string "dog") (of_string "cat");
   OUpdate (of_string "dog") (of_string "puppy"); ODelete (of_string "doe")].

Lemma ways_ok : Forall op_ok direct_way /\ Forall op_ok detour.
Proof. split; (repeat (apply List.Forall_cons; [apply of_string_ok|])); apply List.Forall_nil. Qed.

Lemma hash_canonical_witness : exists t1 t2 h,
  Trie_Hash (H := Keccak.generic) (history direct_way) = Ok (t1, h) /\
  Trie_Hash (H := Keccak.generic) (history detour) = Ok (t2, h).
Proof.
  destruct ways_ok as [H1 H2].
  destruct (hash_canonical (X := Keccak.generic) one_blobs (fun _ => None) (fun _ => None) (history direct_way) (history detour) one_key)
    as (t1 & t2 & h & E1 & E2 & _).
  - exact one_blobs_ok.
  - exact one_key_known.
  - apply history_ok; [exact H1|vm_compute; reflexivity].
  - apply history_ok; [exact H2|vm_compute; reflexivity].
  - exists t1, t2, h. split; assumption.
Defined.

Lemma new_db_ok : db_ok one_blobs (TrieDb.NewDatabase ∅).
Proof.
  assert (forall h, nodes (TrieDb.NewDatabase ∅) !! h <> None -> h = zeroHash) as Hz.
  { intros h. simpl. destruct (decide (h = zeroHash)) as [|Hne]; [done|]. by rewrite lookup_singleton_ne. }
  split.
  - intros h b. unfold node_blob, TrieDb.Node. destruct (nodes _ !! h) as [n|] eqn:E; [|done].
    rewrite (Hz h) in E by congruence. simpl in E. rewrite lookup_singleton_eq in E. by injection E as <-.
  - intros h n Hn _. apply Hz. congruence.
Qed.

Lemma commit_reload_witness : exists t' db' h t2,
  Commit (H := Keccak.generic) (history detour) (TrieDb.NewDatabase ∅) None = Ok (t', db', h) /\
  New (node_blob db') h = Ok (inr t2).
Proof.
  destruct ways_ok as [H1 H2].
  destruct (commit_reload (X := Keccak.generic) one_blobs (history detour) (TrieDb.NewDatabase ∅) one_key None)
    as (t' & db' & h & t2 & E & _ & _ & _ & E2 & _).
  - exact one_blobs_ok.
  - right. reflexivity.
  - exact one_key_known.
  - apply new_db_ok.
  - apply (repr_mono (fun _ => None)); [intros ? ?; discriminate|]. apply history_ok; [exact H2|vm_compute; reflexivity].
  - discriminate.
  - exists t', db', h, t2. split; assumption.
Defined.

End TrieLaws.
