(* ===== verification/SecureTrie.v ===== *)
(** * Secure tries

    Translates [src/trie/secure_trie.go] (the node iterator apart): a trie whose
    keys are hashed, with a cache of the keys that were hashed.  Go compares the
    trie's address with [secKeyCacheOwner]; the address is [self] here.  A copy
    shares the cache of the original only until it first asks for it
    ([getSecKeyCache] replaces it), so the cache is a value.  An error of the
    logging variants is dropped, as in the source.  The lock around the writing
    of the preimages is left out. *)

From Stdlib Require Import Lia String.
From stdpp Require Import base numbers list gmap.
From S2P Require Import Prelude BigInt Types Keccak TrieEncoding TrieNode TrieOps TrieDb TrieHasher.
From S2P Require Import RlpCanon KeccakSpec KeccakSponge TrieRep TrieSpec TrieEnc TrieCommit TrieLaws.
Import Common TrieNode TrieOps TrieHasher.
Import TrieDb (node_blob, nodes, preimages, preimage, insertPreimage).

#[local] Open Scope Z_scope.
#[local] Open Scope go_scope.

Module SecureTrie.

Record t := {
  self : nat;
  trie : Trie;
  secKeyCache : gmap bytes bytes;
  secKeyCacheOwner : option nat
}.

Definition set_trie (x : Trie) (s : t) : t :=
  {| self := self s; trie := x; secKeyCache := secKeyCache s; secKeyCacheOwner := secKeyCacheOwner s |}.
Definition set_cache (x : gmap bytes bytes) (s : t) : t :=
  {| self := self s; trie := trie s; secKeyCache := x; secKeyCacheOwner := secKeyCacheOwner s |}.

Definition getSecKeyCache (s : t) : t :=
  if bool_decide (secKeyCacheOwner s = Some (self s)) then s
  else {| self := self s; trie := trie s; secKeyCache := ∅; secKeyCacheOwner := Some (self s) |}.

Section Ops.
Context `{!Keccak.Impl} (range : gmap bytes bytes -> list bytes).

Definition hashKey (key : bytes) : result bytes := sha Keccak.NewKeccak256 key.

(** [addr] is where the new trie is placed. *)
Definition NewSecure (addr : nat) (root : Hash) (db : DB) (cachelimit : Z) : result (MissingNodeError + t) :=
  let? r := New (node_blob db) root in
  Ok match r with
     | inl err => inl err
     | inr trie => inr {| self := addr; trie := SetCacheLimit trie cachelimit; secKeyCache := ∅; secKeyCacheOwner := None |}
     end.

Definition TryGet (s : t) (db : DB) (key : bytes) : result (t * option bytes * option MissingNodeError) :=
  let? hk := hashKey key in
  let? (trie, v, err) := TrieOps.TryGet (node_blob db) (trie s) hk in
  Ok (set_trie trie s, v, err).

Definition Get (s : t) (db : DB) (key : bytes) : result (t * option bytes) :=
  let? (s, res, _) := TryGet s db key in Ok (s, res).

Definition TryUpdate (s : t) (db : DB) (key value : bytes) : result (t * option MissingNodeError) :=
  let? hk := hashKey key in
  let? (trie, err) := TrieOps.TryUpdate (node_blob db) (trie s) hk value in
  let s := set_trie trie s in
  match err with
  | Some _ => Ok (s, err)
  | None => let s := getSecKeyCache s in Ok (set_cache (<[hk := key]> (secKeyCache s)) s, None)
  end.

Definition Update (s : t) (db : DB) (key value : bytes) : result t :=
  let? (s, _) := TryUpdate s db key value in Ok s.

Definition TryDelete (s : t) (db : DB) (key : bytes) : result (t * option MissingNodeError) :=
  let? hk := hashKey key in
  let s := getSecKeyCache s in
  let s := set_cache (base.delete hk (secKeyCache s)) s in
  let? (trie, err) := TrieOps.TryDelete (node_blob db) (trie s) hk in
  Ok (set_trie trie s, err).

Definition Delete (s : t) (db : DB) (key : bytes) : result t :=
  let? (s, _) := TryDelete s db key in Ok s.

Definition GetKey (s : t) (db : DB) (shaKey : bytes) : t * option bytes :=
  let s := getSecKeyCache s in
  match secKeyCache s !! shaKey with
  | Some key => (s, Some key)
  | None => (s, match preimage db (BytesToHash shaKey) with inr key => key | inl _ => None end)
  end.

Fixpoint insert_preimages (cache : gmap bytes bytes) (hks : list bytes) (db : DB) : DB :=
  match hks with
  | [] => db
  | hk :: hks => insert_preimages cache hks (insertPreimage db (BytesToHash hk) (default [] (cache !! hk)))
  end.

Definition Commit (s : t) (db : DB) (onleaf : option LeafCallback) : result (t * DB * Hash) :=
  let s := getSecKeyCache s in
  let '(s, db) :=
    if (0 <? base.size (secKeyCache s))%nat
    then (set_cache ∅ s, insert_preimages (secKeyCache s) (range (secKeyCache s)) db)
    else (s, db) in
  let? (trie, db, h) := TrieHasher.Commit (trie s) db onleaf in
  Ok (set_trie trie s, db, h).

Definition Hash (s : t) : result (t * Common.Hash) :=
  let? (trie, h) := Trie_Hash (trie s) in Ok (set_trie trie s, h).

Definition Root (s : t) : result (t * bytes) :=
  let? (trie, h) := TrieHasher.Root (trie s) in Ok (set_trie trie s, h).

Definition Copy (s : t) (addr : nat) : t :=
  {| self := addr; trie := trie s; secKeyCache := secKeyCache s; secKeyCacheOwner := secKeyCacheOwner s |}.

End Ops.

End SecureTrie.
