(* ===== verification/SecureLaws.v ===== *)
(** * Secure tries: what they promise

    A secure trie is a map whose keys can be recovered from their hashes; a
    commit and a reload keep both ([secure_roundtrip]). *)

From Stdlib Require Import Lia String.
From stdpp Require Import base numbers list gmap.
From S2P Require Import Prelude BigInt Types Keccak TrieEncoding TrieNode TrieOps TrieDb TrieHasher.
From S2P Require Import RlpCanon KeccakSpec KeccakSponge TrieRep TrieSpec TrieEnc TrieCommit TrieLaws SecureTrie.
Import Common TrieNode TrieOps TrieHasher TrieRep TrieEnc TrieStore TrieCommit TrieLaws.
Import TrieDb (node_blob, nodes, preimages, preimage, insertPreimage, diskdb).
Import KeccakSpec (keccak_f).
Import KeccakSponge (ImplLaws).

#[local] Open Scope Z_scope.
#[local] Open Scope go_scope.

Module SecureLaws.
Import SecureTrie.

(** ** Hashing leaves the preimages alone *)

Definition quiet (db db' : option DB) : Prop :=
  match db, db' with
  | Some d, Some d' => preimages d' = preimages d /\ diskdb d' = diskdb d
  | None, None => True
  | _, _ => False
  end.

#[export] Instance db_quiet_preorder : PreOrder quiet.
Proof.
  split; [by intros [d|]|]. intros [a|] [b|] [c|]; simpl; try done. intros [H1 H2] [H3 H4]. split; congruence.
Qed.

Section Quiet.
Context {X : Keccak.Impl} (gen limit : Z).

Lemma insert_quiet d h b : quiet (Some d) (Some (TrieDb.insert d h b)).
Proof. unfold TrieDb.insert. by destruct (nodes d !! h). Qed.

Lemma reference_quiet d c p d' : TrieDb.reference d c p = Ok d' -> quiet (Some d) (Some d').
Proof.
  unfold TrieDb.reference. destruct (nodes d !! c); [|by intros [= <-]]. destruct (nodes d !! p); [|done].
  destruct (_ && _); by intros [= <-].
Qed.

Lemma reference_each_quiet todo cs h d d' : reference_each todo cs h d = Ok d' -> quiet (Some d) (Some d').
Proof.
  revert cs d. induction todo as [|todo IH]; intros cs d H; [by injection H as <-|].
  destruct cs as [|c cs]; [by injection H as <-|]. cbn [reference_each] in H.
  destruct c; try (by eapply IH). apply rbind_Ok_inv in H as (d1 & E1 & E2).
  transitivity (Some d1); [by eapply reference_quiet|by eapply IH].
Qed.

Lemma store_quiet n db force r db' : store None n db force = Ok (r, db') -> quiet db db'.
Proof.
  destruct n as [|v|h|k c f|cs f]; unfold store; [intros [= _ <-]; done| |intros [= _ <-]; done|..].
  all: destruct (_ && _); [intros [= _ <-]; done|].
  all: intros H; apply rbind_Ok_inv in H as ([h0 b0] & E0 & H); apply rbind_Ok_inv in H as (h & E1 & H).
  all: destruct db as [d|]; [|injection H as _ <-; exact I].
  all: apply rbind_Ok_inv in H as (d1 & E2 & H); cbn [rbind] in H; injection H as _ <-.
  all: apply reference_each_quiet in E2; etransitivity; [apply insert_quiet|exact E2].
Qed.

Lemma hash_each_quiet (f : node -> option DB -> result (node * node * option DB)) todo cs db a b db' :
  Forall (fun c => forall db x y db', f c db = Ok (x, y, db') -> quiet db db') cs ->
  hash_each f todo cs db = Ok (a, b, db') -> quiet db db'.
Proof.
  intros Hf. revert todo db a b. induction Hf as [|c cs Hc _ IH]; intros todo db a b H; [by injection H as _ _ <-|].
  cbn [hash_each] in H. apply rbind_Ok_inv in H as ([[x y] d1] & E1 & H). apply rbind_Ok_inv in H as ([[x' y'] d2] & E2 & H).
  injection H as _ _ <-. transitivity d1; [|by eapply IH].
  destruct todo; [by injection E1 as _ _ <-|]. destruct c; try (by eapply Hc). by injection E1 as _ _ <-.
Qed.

Lemma hash_quiet n : forall db force r c db', TrieHasher.hash gen limit None n db force = Ok (r, c, db') -> quiet db db'.
Proof.
  induction n as [|v|h|k c f IH|cs f IH] using node_ind'; intros db force r c' db' H.
  all: cbn [TrieHasher.hash] in H; apply rbind_Ok_inv in H as (hit & _ & H).
  all: destruct hit as [[x y]|]; [by injection H as _ _ <-|].
  all: apply rbind_Ok_inv in H as ([[x y] d1] & E1 & H); apply rbind_Ok_inv in H as ([z d2] & E2 & H); injection H as _ _ <-.
  all: apply store_quiet in E2; transitivity d1; [clear E2|exact E2]; cbn [hashChildren_with] in E1.
  1-3: by injection E1 as _ _ <-.
  - apply rbind_Ok_inv in E1 as (key & _ & E1). apply rbind_Ok_inv in E1 as ([[x' y'] d3] & E1 & E3). injection E3 as _ _ <-.
    destruct c; try (by eapply IH). by injection E1 as _ _ <-.
  - apply rbind_Ok_inv in E1 as ([[x' y'] d3] & E1 & E3). injection E3 as _ _ <-. eapply hash_each_quiet, E1.
    eapply Forall_impl; [exact IH|]. intros m Hm e u w e'. apply Hm.
Qed.

End Quiet.

Lemma Commit_quiet {X : Keccak.Impl} t d t' d' h : TrieHasher.Commit t d None = Ok (t', d', h) -> quiet (Some d) (Some d').
Proof.
  unfold TrieHasher.Commit. intros H. apply rbind_Ok_inv in H as ([[x y] db] & E & H). apply rbind_Ok_inv in H as (h' & _ & H).
  destruct db as [db|]; [|done]. injection H as _ <- _. unfold hashRoot in E.
  destruct (root t); [by injection E as _ _ ->|..]; by eapply hash_quiet.
Qed.

(** ** The map behind the hashes *)

Definition hashes (m hm : gmap bytes bytes) : Prop :=
  (forall k v, m !! k = Some v -> hm !! hsh k = Some v) /\
  (forall x v, hm !! x = Some v -> exists k, m !! k = Some v /\ x = hsh k).

(** Keys without collisions. *)
Record hashable_keys (keys : bytes -> Prop) : Prop := {
  keys_bytes k : keys k -> bytes_ok k;
  keys_inj j k : keys j -> keys k -> hsh j = hsh k -> j = k
}.

Section Laws.
Context {X : Keccak.Impl} {XL : ImplLaws X keccak_f} (known keys : bytes -> Prop).
Context (range : gmap bytes bytes -> list bytes).

(** The trie holds the map under hashed keys, and every key of the map is found
    again, in the cache or among the preimages of the database. *)
Record secure_ok (s : t) (db : DB) (m : gmap bytes bytes) : Prop := {
  so_trie : exists hm, represents (M := hash_marks (node_blob db)) (node_blob db) (trie s) hm /\ hashes m hm;
  so_keys k : is_Some (m !! k) -> keys k;
  so_cache x k : secKeyCache (getSecKeyCache s) !! x = Some k -> keys k /\ x = hsh k;
  so_pre k x : keys k -> preimage db (hsh k) = inr x -> x = Some k;
  so_found k : is_Some (m !! k) -> secKeyCache (getSecKeyCache s) !! hsh k = Some k \/ preimage db (hsh k) = inr (Some k)
}.

Context (Hkeys : hashable_keys keys).

Lemma hashKey_ok k : keys k -> hashKey k = Ok (hsh k).
Proof. intros Hk. apply (sha_hash (HF := keccak256) (X := X)). by apply (keys_bytes _ Hkeys). Qed.

Lemma hashes_lookup m hm k : hashes m hm -> (forall j, is_Some (m !! j) -> keys j) -> keys k -> hm !! hsh k = m !! k.
Proof.
  intros [H1 H2] Hm Hk. destruct (m !! k) as [v|] eqn:E; [by apply H1|]. destruct (hm !! hsh k) as [v|] eqn:E'; [|done].
  destruct (H2 _ _ E') as (j & Hj & Hh). apply (keys_inj _ Hkeys) in Hh as ->; [congruence|done|]. apply Hm. by eexists.
Qed.

Lemma hashes_insert m hm k v : hashes m hm -> (forall j, is_Some (m !! j) -> keys j) -> keys k ->
  hashes (<[k := v]> m) (<[hsh k := v]> hm).
Proof.
  intros [H1 H2] Hm Hk. split.
  - intros j w Hj. apply lookup_insert_Some in Hj as [[<- <-]|[Hne Hj]]; [by rewrite lookup_insert_eq|].
    rewrite lookup_insert_ne; [by apply H1|]. intros E. apply (keys_inj _ Hkeys) in E; [done|done|]. apply Hm. by eexists.
  - intros x w Hx. apply lookup_insert_Some in Hx as [[<- <-]|[Hne Hx]]; [exists k; by rewrite lookup_insert_eq|].
    destruct (H2 _ _ Hx) as (j & Hj & ->). exists j. rewrite lookup_insert_ne; [done|congruence].
Qed.

Lemma hashes_delete m hm k : hashes m hm -> (forall j, is_Some (m !! j) -> keys j) -> keys k ->
  hashes (base.delete k m) (base.delete (hsh k) hm).
Proof.
  intros [H1 H2] Hm Hk. split.
  - intros j w [Hne Hj]%lookup_delete_Some. rewrite lookup_delete_ne; [by apply H1|]. intros E.
    apply (keys_inj _ Hkeys) in E; [done|done|]. apply Hm. by eexists.
  - intros x w [Hne Hx]%lookup_delete_Some. destruct (H2 _ _ Hx) as (j & Hj & ->). exists j.
    rewrite lookup_delete_ne; [done|congruence].
Qed.

Lemma getSecKeyCache_own s : secKeyCacheOwner s = Some (self s) -> getSecKeyCache s = s.
Proof. intros E. unfold getSecKeyCache. by rewrite bool_decide_true. Qed.

Lemma getSecKeyCache_self s : secKeyCacheOwner (getSecKeyCache s) = Some (self (getSecKeyCache s)).
Proof. unfold getSecKeyCache. by case_bool_decide. Qed.

Lemma getSecKeyCache_trie s : trie (getSecKeyCache s) = trie s.
Proof. unfold getSecKeyCache. by case_bool_decide. Qed.

Lemma getSecKeyCache_owner s s' : self s' = self s -> secKeyCacheOwner s' = secKeyCacheOwner s -> secKeyCache s' = secKeyCache s ->
  secKeyCache (getSecKeyCache s') = secKeyCache (getSecKeyCache s).
Proof. unfold getSecKeyCache. intros -> -> E. by case_bool_decide. Qed.

(** *** Reading *)

Lemma secure_TryGet s db m k : secure_ok s db m -> keys k ->
  exists s', TryGet s db k = Ok (s', m !! k, None) /\ secure_ok s' db m.
Proof.
  intros [(hm & Hr & Hh) Hk Hc Hp Hf] Hkk. unfold TryGet. rewrite (hashKey_ok k Hkk). cbn [rbind].
  destruct (TryGet_ok (M := hash_marks (node_blob db)) (node_blob db) (trie s) hm (hsh k) Hr (hsh_bytes k)) as (t' & -> & Ht'). cbn [rbind].
  rewrite (hashes_lookup m hm k Hh Hk Hkk). eexists. split; [done|].
  assert (secKeyCache (getSecKeyCache (set_trie t' s)) = secKeyCache (getSecKeyCache s)) as E by (by apply getSecKeyCache_owner).
  split; rewrite ?E; try done. by exists hm.
Qed.

Lemma secure_GetKey s db m k : secure_ok s db m -> is_Some (m !! k) -> GetKey s db (hsh k) = (getSecKeyCache s, Some k).
Proof.
  intros Hs Hk. unfold GetKey. rewrite BytesToHash_hash. destruct (secKeyCache (getSecKeyCache s) !! hsh k) as [j|] eqn:E.
  - destruct (so_cache _ _ _ Hs _ _ E) as [Hj Hh]. apply (keys_inj _ Hkeys) in Hh as ->; [done|by apply (so_keys _ _ _ Hs)|done].
  - destruct (so_found _ _ _ Hs k Hk) as [E'| ->]; [congruence|done].
Qed.

(** *** Writing *)

Lemma secure_TryUpdate s db m k v : secure_ok s db m -> keys k ->
  exists s', TryUpdate s db k v = Ok (s', None) /\
    secure_ok s' db (match v with [] => base.delete k m | _ => <[k := v]> m end).
Proof.
  intros [(hm & Hr & Hh) Hk Hc Hp Hf] Hkk. unfold TryUpdate. rewrite (hashKey_ok k Hkk). cbn [rbind].
  destruct (TryUpdate_ok (M := hash_marks (node_blob db)) (node_blob db) (trie s) hm (hsh k) v Hr (hsh_bytes k)) as (t' & -> & Ht'). cbn [rbind].
  set (s1 := getSecKeyCache (set_trie t' s)). eexists. split; [done|].
  assert (secKeyCache s1 = secKeyCache (getSecKeyCache s)) as Ec by (by apply getSecKeyCache_owner).
  assert (forall c, secKeyCache (getSecKeyCache (set_cache c s1)) = c) as Eg.
  { intros c. by rewrite getSecKeyCache_own by apply getSecKeyCache_self. }
  assert (trie s1 = t') as Et by apply getSecKeyCache_trie.
  split; rewrite ?Eg, ?Ec; simpl; rewrite ?Et; try done.
  - destruct v as [|x v]; eexists; (split; [exact Ht'|]); [by apply hashes_delete|by apply hashes_insert].
  - intros j Hj. destruct v; [apply lookup_delete_is_Some in Hj as [_ Hj]; by apply Hk|].
    apply lookup_insert_is_Some in Hj as [<-|[_ Hj]]; [done|by apply Hk].
  - intros x j Hx. apply lookup_insert_Some in Hx as [[<- <-]|[_ Hx]]; [done|by apply Hc].
  - intros j Hj. destruct (decide (j = k)) as [->|Hne]; [left; by rewrite lookup_insert_eq|].
    assert (is_Some (m !! j)) as Hjm by (destruct v; [by rewrite lookup_delete_ne in Hj|by rewrite lookup_insert_ne in Hj]).
    rewrite lookup_insert_ne; [by apply Hf|]. intros E. by apply (keys_inj _ Hkeys) in E; auto.
Qed.

Lemma secure_TryDelete s db m k : secure_ok s db m -> keys k ->
  exists s', TryDelete s db k = Ok (s', None) /\ secure_ok s' db (base.delete k m).
Proof.
  intros [(hm & Hr & Hh) Hk Hc Hp Hf] Hkk. unfold TryDelete. rewrite (hashKey_ok k Hkk). cbn [rbind].
  set (c := base.delete (hsh k) (secKeyCache (getSecKeyCache s))). set (s1 := set_cache c (getSecKeyCache s)).
  assert (trie s1 = trie s) as Et by apply getSecKeyCache_trie. rewrite Et.
  destruct (remove_ok (M := hash_marks (node_blob db)) (node_blob db) (trie s) hm (hsh k) Hr (hsh_bytes k)) as (ch & E & t' & Ea & Ht').
  unfold TrieOps.TryDelete. rewrite E. cbn [rbind]. rewrite Ea. eexists. split; [done|].
  assert (secKeyCache (getSecKeyCache (set_trie t' s1)) = c) as Eg by (by rewrite getSecKeyCache_own by apply getSecKeyCache_self).
  split; rewrite ?Eg; try done.
  - exists (base.delete (hsh k) hm). split; [done|by apply hashes_delete].
  - intros j [_ Hj]%lookup_delete_is_Some. by apply Hk.
  - intros x j [_ Hx]%lookup_delete_Some. by apply Hc.
  - intros j [Hne Hj]%lookup_delete_is_Some. unfold c. rewrite lookup_delete_ne; [by apply Hf|].
    intros E'. by apply (keys_inj _ Hkeys) in E'; auto.
Qed.

(** *** Committing *)

Lemma preimage_insert db k j : preimage (insertPreimage db (hsh j) j) k =
  if decide (k = hsh j /\ preimages db !! k = None) then inr (Some j) else preimage db k.
Proof.
  unfold preimage, insertPreimage. destruct (preimages db !! hsh j) as [x|] eqn:E.
  - destruct (decide _) as [[-> E']|]; [congruence|done].
  - simpl. destruct (decide (k = hsh j)) as [->|Hne].
    + rewrite lookup_insert_eq, decide_True; done.
    + rewrite lookup_insert_ne, decide_False by naive_solver. done.
Qed.

Lemma insert_preimages_ok cache hks db : (forall x k, cache !! x = Some k -> keys k /\ x = hsh k) ->
  (forall x, x ∈ hks -> is_Some (cache !! x)) -> (forall k x, keys k -> preimage db (hsh k) = inr x -> x = Some k) ->
  let db' := insert_preimages cache hks db in
  (forall k x, keys k -> preimage db' (hsh k) = inr x -> x = Some k) /\
  (forall k, keys k -> hsh k ∈ hks \/ preimage db (hsh k) = inr (Some k) -> preimage db' (hsh k) = inr (Some k)) /\
  nodes db' = nodes db /\ diskdb db' = diskdb db.
Proof.
  intros Hc. revert db. induction hks as [|x hks IH]; intros db Hin Hp; cbv zeta; cbn [insert_preimages].
  { split; [done|]. split; [|done]. by intros k Hk [?%not_elem_of_nil|]. }
  destruct (Hin x) as [j Hj]; [by apply elem_of_cons; left|]. destruct (Hc x j Hj) as [Hjk ->]. rewrite Hj, BytesToHash_hash. cbn [default from_option id].
  assert (forall k y, keys k -> preimage (insertPreimage db (hsh j) j) (hsh k) = inr y -> y = Some k) as Hp1.
  { intros k y Hk. rewrite preimage_insert. destruct (decide _) as [[E _]|]; [|by apply Hp]. intros [= <-].
    f_equal. by apply (keys_inj _ Hkeys). }
  destruct (IH (insertPreimage db (hsh j) j)) as (H1 & H2 & H3 & H4); [|done|].
  { intros y Hy. apply Hin. by apply elem_of_cons; right. }
  assert (nodes (insertPreimage db (hsh j) j) = nodes db /\ diskdb (insertPreimage db (hsh j) j) = diskdb db) as [E1 E2]
    by (unfold insertPreimage; by destruct (preimages db !! hsh j)).
  split; [done|]. split; [|split; [by rewrite H3|by rewrite H4]]. intros k Hk Hor. apply H2; [done|].
  destruct (decide (k = j)) as [->|Hne].
  - right. rewrite preimage_insert. destruct (decide _) as [|Hn]; [done|].
    destruct Hor as [_|Hor]; [|done]. unfold preimage in Hp |- *. destruct (preimages db !! hsh j) as [y|] eqn:E; [|by exfalso; apply Hn].
    specialize (Hp j (Some y) Hjk). rewrite E in Hp. f_equal. by apply Hp.
  - destruct Hor as [Hin'|Hor]; [apply elem_of_cons in Hin' as [E|]; [by apply (keys_inj _ Hkeys) in E|by left]|right].
    rewrite preimage_insert, decide_False; [done|]. intros [E _]. by apply (keys_inj _ Hkeys) in E.
Qed.

(** Everything is in the database. *)
Definition settled (db : DB) (m : gmap bytes bytes) : Prop :=
  (forall k x, keys k -> preimage db (hsh k) = inr x -> x = Some k) /\
  forall k, is_Some (m !! k) -> keys k /\ preimage db (hsh k) = inr (Some k).

Lemma settled_ok s db m hm : settled db m -> secKeyCache (getSecKeyCache s) = ∅ -> hashes m hm ->
  represents (M := hash_marks (node_blob db)) (node_blob db) (trie s) hm -> secure_ok s db m.
Proof.
  intros [Hp Hf] Hc Hh Hr. split; rewrite ?Hc.
  - by exists hm.
  - intros k Hk. by apply Hf.
  - intros x k Hx. by rewrite lookup_empty in Hx.
  - done.
  - intros k Hk. right. by apply Hf.
Qed.

Context (range_ok : forall m x, x ∈ range m <-> is_Some (m !! x)).

(** The first half of a commit. *)
Lemma write_preimages s db m : secure_ok s db m ->
  let s0 := getSecKeyCache s in
  let '(s1, db1) := if (0 <? base.size (secKeyCache s0))%nat
    then (set_cache ∅ s0, insert_preimages (secKeyCache s0) (range (secKeyCache s0)) db) else (s0, db) in
  trie s1 = trie s /\ secKeyCache s1 = ∅ /\ getSecKeyCache s1 = s1 /\ settled db1 m /\ nodes db1 = nodes db /\ diskdb db1 = diskdb db.
Proof.
  intros [_ Hk Hc Hp Hf]. cbv zeta. set (s0 := getSecKeyCache s) in *.
  assert (forall c, getSecKeyCache (set_cache c s0) = set_cache c s0) as Hown by (intros c; apply getSecKeyCache_own, getSecKeyCache_self).
  destruct (Nat.ltb_spec 0 (base.size (secKeyCache s0))) as [Hlt|Hle].
  - destruct (insert_preimages_ok (secKeyCache s0) (range (secKeyCache s0)) db Hc (fun x => proj1 (range_ok _ x)) Hp) as (H1 & H2 & H3 & H4).
    split; [apply getSecKeyCache_trie|]. split; [done|]. split; [apply Hown|]. split; [|done]. split; [done|].
    intros k Hkm. split; [auto|]. apply H2; [auto|]. destruct (Hf k Hkm) as [E|E]; [left; apply range_ok; by eexists|by right].
  - assert (secKeyCache s0 = ∅) as E by (apply map_size_empty_inv; lia).
    split; [apply getSecKeyCache_trie|]. split; [done|]. split; [apply getSecKeyCache_own, getSecKeyCache_self|]. split; [|done].
    split; [done|]. intros k Hkm. split; [auto|]. destruct (Hf k Hkm) as [E'|E']; [by rewrite E, lookup_empty in E'|done].
Qed.

Lemma settled_quiet db db' m : quiet (Some db) (Some db') -> settled db m -> settled db' m.
Proof.
  intros [E1 E2] [Hp Hf]. assert (forall x, preimage db' x = preimage db x) as E by (intros x; unfold preimage; by rewrite E1, E2).
  split; [intros k x|intros k]; rewrite E; auto.
Qed.

Lemma secure_Commit s db m hm : blobs known -> known [128] -> db_ok known db -> secure_ok s db m ->
  hashes m hm -> map_known known hm -> represents (M := hash_marks (node_blob db)) (node_blob db) (trie s) hm ->
  exists s' db' h, Commit range s db None = Ok (s', db', h) /\ db_ok known db' /\ secure_ok s' db' m /\
    forall addr limit, exists s2, NewSecure addr h db' limit = Ok (inr s2) /\ secure_ok s2 db' m.
Proof.
  intros Hk H0 Hd Hs Hh Hm Hr. pose proof (write_preimages s db m Hs) as Hw. unfold Commit. cbv zeta in Hw |- *.
  destruct (if _ : bool then _ else _) as [s1 db1]. destruct Hw as (Et & Ec & Eo & Hset & En & Ed).
  assert (same db db1) as Hsame by (split; [done|intros h; by rewrite En]).
  destruct (Commit_ok (X := X) known (trie s1) db1 hm None Hk H0 Hm) as (t' & db' & h & t2 & E & Hd' & Hr' & _ & EN & HrN).
  { by eapply same_ok. }
  { rewrite Et. eapply repr_mono, Hr. by apply same_extends. }
  { done. }
  rewrite E. cbn [rbind]. apply Commit_quiet in E as Hq. pose proof (settled_quiet _ _ _ Hq Hset) as Hset'.
  do 3 eexists. split; [done|]. split; [done|]. split.
  - apply (settled_ok _ _ _ hm); [done| |done|done]. rewrite (getSecKeyCache_owner s1); [by rewrite Eo|done..].
  - intros addr limit. unfold NewSecure. rewrite EN. cbn [rbind]. eexists. split; [done|].
    apply (settled_ok _ _ _ hm); [done| |done|exact HrN]. unfold getSecKeyCache. by case_bool_decide.
Qed.

End Laws.

(** C22: A secure trie is a map that knows its keys.  Storing a value under a key
    and committing succeed; in a trie opened at the returned hash every key of
    the map reads its value and every other key reads nothing, and every key of
    the map is recovered from its hash. *)
Theorem secure_roundtrip {X : Keccak.Impl} {XL : ImplLaws X keccak_f} (known keys : bytes -> Prop) (range : gmap bytes bytes -> list bytes)
  (s : t) (db : DB) (m : gmap bytes bytes) (key v : bytes) (addr : nat) (limit : Z) :
  hashable_keys keys -> (forall m x, x ∈ range m <-> is_Some (m !! x)) -> blobs known -> known [128] -> db_ok known db ->
  secure_ok keys s db m -> keys key -> v <> [] -> (forall hm, hashes (<[key := v]> m) hm -> map_known known hm) ->
  exists s1 s2 db2 h s3, TryUpdate s db key v = Ok (s1, None) /\ Commit range s1 db None = Ok (s2, db2, h) /\
    NewSecure addr h db2 limit = Ok (inr s3) /\ secure_ok keys s2 db2 (<[key := v]> m) /\
    (forall k, keys k -> exists s4, TryGet s3 db2 k = Ok (s4, <[key := v]> m !! k, None)) /\
    (forall k, is_Some (<[key := v]> m !! k) -> snd (GetKey s3 db2 (hsh k)) = Some k).
Proof.
  intros Hkeys Hrange Hk H0 Hd Hs Hkey Hv Hm.
  destruct (secure_TryUpdate keys Hkeys s db m key v Hs Hkey) as (s1 & E1 & H1).
  assert (match v with [] => base.delete key m | _ => <[key := v]> m end = <[key := v]> m) as Ev by (by destruct v). rewrite Ev in H1.
  destruct (so_trie _ _ _ _ H1) as (hm & Hr & Hh).
  destruct (secure_Commit known keys range Hkeys Hrange s1 db _ hm Hk H0 Hd H1 Hh (Hm hm Hh) Hr) as (s2 & db2 & h & E2 & _ & H2 & HN).
  destruct (HN addr limit) as (s3 & E3 & H3). exists s1, s2, db2, h, s3. repeat (split; [done|]). split.
  - intros k Hkk. destruct (secure_TryGet keys Hkeys s3 db2 _ k H3 Hkk) as (s4 & E4 & _). by exists s4.
  - intros k Hkk. by rewrite (secure_GetKey keys Hkeys s3 db2 _ k H3 Hkk).
Qed.

(** *** An example *)

#[local] Existing Instance KeccakSponge.generic_laws.

Definition dog : bytes := of_string "dog".
Definition dog_hash : Common.Hash := Eval vm_compute in value_of (sha (H := Keccak.generic) Keccak.NewKeccak256 dog) [].
Definition dog_tree : TrieTree.tree := leaf_tree dog_hash (of_string "puppy").
Definition dog_enc : bytes := Eval vm_compute in tenc dog_tree.
Definition dog_root : Common.Hash := Eval vm_compute in value_of (sha (H := Keccak.generic) Keccak.NewKeccak256 dog_enc) [].

Lemma dog_hash_ok : hsh dog = dog_hash.
Proof. apply hsh_compute; [apply of_string_ok|vm_compute; reflexivity]. Qed.

Lemma dog_root_ok : hsh (tenc dog_tree) = dog_root.
Proof. apply hsh_compute; [change (tenc dog_tree) with dog_enc; repeat constructor; lia|vm_compute; reflexivity]. Qed.

Definition dog_blobs (b : bytes) : Prop := b = tenc dog_tree \/ b = [128].

Lemma dog_blobs_ok : blobs dog_blobs.
Proof.
  split.
  - intros b [->| ->]; vm_compute; discriminate.
  - intros a b [->| ->] [->| ->]; rewrite ?dog_root_ok, ?empty_string_hash; (reflexivity || discriminate).
  - intros b [->| ->]; rewrite ?dog_root_ok, ?empty_string_hash; discriminate.
Qed.

Lemma dog_known hm : hashes (<[dog := of_string "puppy"]> ∅) hm -> map_known dog_blobs hm.
Proof.
  intros [H1 H2]. assert (hm = {[dog_hash := of_string "puppy"]}) as ->.
  { apply map_eq. intros x. destruct (decide (x = dog_hash)) as [->|Hne].
    - rewrite lookup_singleton_eq, <-dog_hash_ok. apply H1. apply lookup_insert_eq.
    - rewrite lookup_singleton_ne by done. destruct (hm !! x) as [v|] eqn:E; [|done]. destruct (H2 x v E) as (k & Hk & ->).
      apply lookup_insert_Some in Hk as [[<- _]|[_ Hk]]; [by rewrite dog_hash_ok in Hne|by rewrite lookup_empty in Hk]. }
  intros T HT. assert (T = dog_tree) as ->.
  { eapply TrieCanon.contents_unique, contents_single; [done| |discriminate]. rewrite <-dog_hash_ok. apply hsh_bytes. }
  split; [by left|]. apply of_string_ok.
Qed.

Definition fresh_secure : t := {| self := 0; trie := empty_trie; secKeyCache := ∅; secKeyCacheOwner := None |}.

Lemma fresh_secure_ok : secure_ok (fun k => k = dog) fresh_secure (TrieDb.NewDatabase ∅) ∅.
Proof.
  apply (settled_ok _ _ _ _ ∅).
  - split; [intros k x _ H; unfold preimage in H; simpl in H; rewrite lookup_empty in H; discriminate|].
    intros k Hk. rewrite lookup_empty in Hk. by destruct Hk.
  - reflexivity.
  - split; intros k v Hk; by rewrite lookup_empty in Hk.
  - by apply empty_represents.
Qed.

Lemma secure_db_ok : db_ok dog_blobs (TrieDb.NewDatabase ∅).
Proof.
  split.
  - intros h b H. destruct (new_db_ok) as [H1 _]. unfold node_blob, TrieDb.Node in H. simpl in H.
    destruct (decide (h = zeroHash)) as [->|Hne]; [rewrite lookup_singleton_eq in H|rewrite lookup_singleton_ne in H by done]; discriminate.
  - destruct new_db_ok as [_ H2]. exact H2.
Qed.

Lemma secure_roundtrip_witness : exists s1 s2 db2 h s3,
  TryUpdate (H := Keccak.generic) fresh_secure (TrieDb.NewDatabase ∅) dog (of_string "puppy") = Ok (s1, None) /\
  Commit (H := Keccak.generic) (fun m => (map_to_list m).*1) s1 (TrieDb.NewDatabase ∅) None = Ok (s2, db2, h) /\
  NewSecure 1 h db2 0 = Ok (inr s3) /\ snd (GetKey s3 db2 (hsh dog)) = Some dog.
Proof.
  destruct (secure_roundtrip (X := Keccak.generic) dog_blobs (fun k => k = dog) (fun m => (map_to_list m).*1)
    fresh_secure (TrieDb.NewDatabase ∅) ∅ dog (of_string "puppy") 1 0) as (s1 & s2 & db2 & h & s3 & E1 & E2 & E3 & _ & _ & H).
  - split; [intros k ->; apply of_string_ok|intros j k -> ->; reflexivity].
  - intros m x. rewrite list_elem_of_fmap. split.
    + intros ([k y] & -> & Hx%elem_of_map_to_list). exists y. exact Hx.
    + intros [y Hy]. exists (x, y). rewrite elem_of_map_to_list. split; [reflexivity|exact Hy].
  - exact dog_blobs_ok.
  - right. reflexivity.
  - exact secure_db_ok.
  - exact fresh_secure_ok.
  - reflexivity.
  - discriminate.
  - exact dog_known.
  - exists s1, s2, db2, h, s3. repeat (split; [assumption|]). apply H. rewrite lookup_insert_eq. eexists. reflexivity.
Defined.

End SecureLaws.
