(* ===== verification/TrieProof.v ===== *)
(** * Trie: Merkle proofs

    Translates [src/trie/proof.go].  A proof database is read as a function
    from keys to blobs ([None]: absent or nil) and written as a map.
    [VerifyProof] runs on fuel, one unit per proof node.

    A proof produced from a trie verifies against its root and yields what the
    trie holds ([prove_verify]); a proof whose nodes are stored under their
    hashes cannot make [VerifyProof] return anything else ([verify_sound]).
    [VerifyProof] itself computes no hash: it relies on the keys of the
    database, and with wrong ones it may not even return
    ([verify_trusts_keys]). *)

From Stdlib Require Import Lia String.
From stdpp Require Import base numbers list gmap.
From S2P Require Import Prelude BigInt Types RlpDecode RlpCanon Keccak KeccakSpec KeccakSponge Keys KeccakLaws.
From S2P Require Import TrieEncoding TrieNode TrieOps TrieRep TrieSpec TrieEnc TrieCommit TrieDb TrieHasher TrieLaws SecureTrie.
Import Common RlpCanon TrieEncoding TrieNode TrieDecode TrieOps TrieTree TrieRep TrieSpec TrieCanon TrieEnc TrieStore TrieHasher TrieCommit TrieLaws.
Import KeccakSpec (keccak_f).
Import KeccakSponge (ImplLaws).

#[local] Open Scope Z_scope.
#[local] Open Scope go_scope.

Module TrieProof.

(** ** Verifying *)

Fixpoint get (tn : node) (key : bytes) : result (bytes * node) :=
  match tn with
  | shortNode k c _ =>
      if bool_decide (len key < len k) || negb (bool_decide (k = take (length k) key)) then Ok ([], nilNode)
      else get c (drop (length k) key)
  | fullNode cs _ =>
      let? x := index key 0 in
      let? f := index (map get cs) x in
      f (drop 1 key)
  | hashNode _ => Ok (key, tn)
  | nilNode => Ok (key, nilNode)
  | valueNode _ => Ok ([], tn)
  end.

Inductive proofError :=
| proof_missing (i : nat) (hash : Hash)
| proof_bad (i : nat) (e : decErr).

(** The value, the error and the number of nodes. *)
Definition verdict : Type := (proofError + option bytes) * nat.

Fixpoint VerifyProof_loop (fuel : nat) (i : nat) (wantHash : Hash) (key : bytes) (Get : bytes -> option bytes)
  : result verdict :=
  match fuel with
  | O => NoFuel
  | S fuel =>
      match Get wantHash with
      | None => Ok (inl (proof_missing i wantHash), i)
      | Some buf =>
          let? r := decodeNode (Some wantHash) buf 0 in
          match r with
          | inl err => Ok (inl (proof_bad i err), i)
          | inr n =>
              let? (keyrest, cld) := get n key in
              match cld with
              | nilNode => Ok (inr None, i)
              | hashNode h => VerifyProof_loop fuel (S i) (copy_into wantHash h) keyrest Get
              | valueNode v => Ok (inr (Some v), S i)
              | _ => VerifyProof_loop fuel (S i) wantHash key Get
              end
          end
      end
  end.

Definition VerifyProof (fuel : nat) (rootHash : Hash) (key : bytes) (Get : bytes -> option bytes) : result verdict :=
  VerifyProof_loop fuel 0 rootHash (keybytesToHex key) Get.

(** ** Proving *)

Abbreviation proofDb := (gmap (list Z) (list Z)) (only parsing).

Section Prove.
Context `{!Keccak.Impl} (Node : Hash -> option bytes) (gen : Z).

(** The nodes on the path of the key. *)
Fixpoint path_nodes (fuel : nat) (tn : node) (key : bytes) : result (MissingNodeError + list node) :=
  match fuel with
  | O => NoFuel
  | S fuel =>
      match key, tn with
      | [], _ | _, nilNode => Ok (inr [])
      | _, shortNode k c _ =>
          let? r :=
            if bool_decide (len key < len k) || negb (bool_decide (k = take (length k) key))
            then path_nodes fuel nilNode key
            else path_nodes fuel c (drop (length k) key) in
          Ok match r with inl e => inl e | inr ns => inr (tn :: ns) end
      | x :: key, fullNode cs _ =>
          let? c := index cs x in
          let? r := path_nodes fuel c key in
          Ok match r with inl e => inl e | inr ns => inr (tn :: ns) end
      | _, hashNode h =>
          let? r := resolveHash Node gen h [] in
          match r with inl e => Ok (inl e) | inr n => path_nodes fuel n key end
      | _, valueNode _ => Panic
      end
  end.

Fixpoint put_nodes (i : nat) (fromLevel : Z) (ns : list node) (pdb : proofDb) : result proofDb :=
  match ns with
  | [] => Ok pdb
  | n :: ns =>
      let? (n, _, _) := hashChildren 0 0 None n None in
      let? (hn, _) := store None n None false in
      let hash := match hn with hashNode h => Some h | _ => None end in
      if is_some hash || (i =? 0)%nat then
        if fromLevel >? 0 then put_nodes (S i) (fromLevel - 1) ns pdb
        else
          let enc := node_enc n in
          let? h := match hash with Some h => Ok h | None => Keys.Keccak256 [enc] end in
          put_nodes (S i) fromLevel ns (<[h := enc]> pdb)
      else put_nodes (S i) fromLevel ns pdb
  end.

End Prove.

Definition Prove `{!Keccak.Impl} (Node : Hash -> option bytes) (t : Trie) (key : bytes) (fromLevel : Z) (pdb : proofDb)
  : result (MissingNodeError + proofDb) :=
  let key := keybytesToHex key in
  let? r := path_nodes Node (cachegen t) (trie_fuel key) (root t) key in
  match r with
  | inl err => Ok (inl err)
  | inr nodes => let? pdb := put_nodes 0 fromLevel nodes pdb in Ok (inr pdb)
  end.

(** A secure trie passes the key on as it is: callers hash it first. *)
Definition SecureProve `{!Keccak.Impl} (Node : Hash -> option bytes) (s : SecureTrie.t) (key : bytes) (fromLevel : Z) (pdb : proofDb)
  : result (MissingNodeError + proofDb) :=
  Prove Node (SecureTrie.trie s) key fromLevel pdb.

(** ** The path of a key in a tree *)

Fixpoint path (t : tree) (key : bytes) : list tree :=
  match key, t with
  | [], _ | _, E | _, Leaf _ => []
  | _, Ext p c => t :: (if decide (take (length p) key = p) then path c (drop (length p) key) else [])
  | x :: key, Branch ts => t :: match index (map path ts) x with Ok f => f key | _ => [] end
  end.

Lemma path_Ext p c k : p <> [] -> path (Ext p c) (p ++ k) = Ext p c :: path c k.
Proof.
  intros Hp. destruct (p ++ k) as [|x l] eqn:E; [by destruct p|]. simpl. rewrite <-E, take_app_length, drop_app_length.
  by rewrite decide_True.
Qed.

Lemma path_Branch ts x k c : 0 <= x -> ts !! Z.to_nat x = Some c -> path (Branch ts) (x :: k) = Branch ts :: path c k.
Proof.
  intros Hx Hc. simpl. rewrite (index_nat (map path ts) x (path c)); [done|done|]. by rewrite list_lookup_fmap, Hc.
Qed.

Lemma path_self t key : wf t -> tkey key -> exists l, path t key = t :: l.
Proof.
  intros Hw Hk. destruct key as [|x key]; [by apply tkey_nil in Hk|]. inversion Hw; subst; simpl; eauto.
Qed.

Section Verify.
Context {HF : HashFn} (known : bytes -> Prop) (Hknown : blobs known).

(** Where [get] arrives: at nothing, at a value, or at the hash of a tree on
    the path. *)
Definition lands (u : tree) (key : bytes) (n : nat) (r : result (bytes * node)) : Prop :=
  (exists k, r = Ok (k, nilNode) /\ look u key = None) \/
  (exists k v, r = Ok (k, valueNode v) /\ look u key = Some v) \/
  (exists k c, r = Ok (k, hashNode (hsh (tenc c))) /\ look u key = look c k /\ wf c /\ tree_known known c /\
     hashed c = true /\ tkey k /\ (length k <= n)%nat /\ c ∈ path u key /\ path c k ⊆ path u key).

(** Going down from a node to a child. *)
Lemma lands_down u key c k n r : look u key = look c k -> path u key = u :: path c k -> lands c k n r -> lands u key n r.
Proof.
  intros El Ep [(k' & -> & H)|[(k' & v & -> & H)|(k' & d & -> & H1 & H2 & H3 & H4 & H5 & H6 & H7 & H8)]].
  - left. exists k'. by rewrite El.
  - right; left. exists k', v. by rewrite El.
  - right; right. exists k', d. rewrite El, Ep. split; [done|]. do 6 (split; [done|]).
    split; [by apply list_elem_of_further|]. intros e He. apply list_elem_of_further. by apply H8.
Qed.

Lemma get_child g c key : fits c key -> tree_known known c ->
  (wf c -> tkey key -> lands c key (pred (length key)) (get (expand None g c) key)) ->
  lands c key (length key) (get (child_node g c) key).
Proof.
  intros Hf Hk IH. unfold child_node. destruct Hf as [[-> _]|[[-> (v & -> & _)]|[Ht Hw]]].
  - left. by exists key.
  - right; left. by exists [], v.
  - destruct (hashed c) eqn:E.
    + right; right. exists key, c. destruct (path_self c key Hw Ht) as [l ->]. repeat (split; [done|]).
      split; [by apply list_elem_of_here|done].
    + destruct (IH Hw Ht) as [H|[H|(k & d & -> & H1 & H2 & H3 & H4 & H5 & H6 & H7)]]; [by left|by right; left|].
      right; right. exists k, d. do 6 (split; [done|]). split; [lia|done].
Qed.

Lemma get_expand h g u key : wf u -> tree_known known u -> tkey key ->
  lands u key (pred (length key)) (get (expand h g u) key).
Proof.
  revert h key. induction u as [|v|p c IH|ts IH] using tree_ind'; intros h key Hw Hk Ht; [inversion Hw..| |].
  - destruct Hk as [_ Hk]. cbn [expand get]. fold (child_node g c). pose proof (wf_ext_key _ _ Hw) as Hp.
    destruct (look_Ext_cases p c key) as [(k' & -> & El)|[Hno El]].
    + rewrite bool_decide_false by (rewrite len_app; pose proof (len_nonneg k'); lia).
      rewrite take_app_length, drop_app_length, bool_decide_true by done. cbn [orb negb].
      apply (lands_down _ _ c k'); [done|by apply path_Ext|].
      destruct (get_child g c k') as [H|[H|(k & d & -> & H1 & H2 & H3 & H4 & H5 & H6 & H7)]];
        [by eapply fits_ext|done|intros Hwc Hkc; by apply IH|by left|by right; left|].
      right; right. exists k, d. do 6 (split; [done|]). split; [|done].
      rewrite length_app. destruct p; [done|]. simpl. lia.
    + left. exists []. split; [|done]. case_match eqn:Eb; [done|]. apply orb_false_iff in Eb as [_ Eb].
      apply negb_false_iff, bool_decide_eq_true in Eb. exfalso. apply (Hno (drop (length p) key)). rewrite Eb at 1. by rewrite take_drop.
  - apply tree_known_Branch in Hk as [_ Hk]. cbn [expand get]. destruct key as [|x k]; [by apply tkey_nil in Ht|].
    change (index (x :: k) 0) with (Ok x). change (drop 1 (x :: k)) with k. cbn [rbind].
    destruct (fits_child _ _ _ Hw Ht) as (Hx & c & Hc & Hf). pose proof (list_elem_of_lookup_2 _ _ _ Hc) as Hin.
    rewrite Forall_forall in IH, Hk.
    rewrite (index_nat _ x (get (child_node g c))); [|done|by rewrite !list_lookup_fmap, Hc]. cbn [rbind].
    apply (lands_down _ _ c k); [by apply look_child|by apply path_Branch|].
    apply get_child; [done|by apply Hk|]. intros Hwc Hkc. by apply IH; [|done|apply Hk|].
Qed.

(** One round of [VerifyProof] at the hash of a tree. *)
Lemma verify_loop_ok fuel i T key Get : wf T -> tree_known known T -> tkey key -> (length key <= fuel)%nat ->
  (forall u b, wf u -> tree_known known u -> Get (hsh (tenc u)) = Some b -> b = tenc u) ->
  exists j r, VerifyProof_loop fuel i (hsh (tenc T)) key Get = Ok (r, j) /\
    (r = inr (look T key) \/
     exists n u, r = inl (proof_missing n (hsh (tenc u))) /\ Get (hsh (tenc u)) = None /\ u ∈ path T key /\ (u = T \/ hashed u = true)).
Proof.
  intros Hw Hk Ht Hf HG. revert i T key Hw Hk Ht Hf. induction fuel as [|fuel IH]; intros i T key Hw Hk Ht Hf.
  { destruct key; [by apply tkey_nil in Ht|simpl in Hf; lia]. }
  cbn [VerifyProof_loop]. destruct (Get (hsh (tenc T))) as [buf|] eqn:EG.
  - rewrite (HG T buf Hw Hk EG), (decodeNode_tree T _ 0 Hw (tree_known_sized _ Hknown _ Hk)). cbn [rbind].
    destruct (get_expand (Some (hsh (tenc T))) 0 T key Hw Hk Ht)
      as [(k & -> & El)|[(k & v & -> & El)|(k & c & -> & El & Hwc & Hkc & Hh & Hck & Hlen & Hin & Hsub)]]; cbn [rbind].
    + eexists _, _. split; [done|]. left. by rewrite El.
    + eexists _, _. split; [done|]. left. by rewrite El.
    + assert (copy_into (hsh (tenc T)) (hsh (tenc c)) = hsh (tenc c)) as ->.
      { unfold copy_into. rewrite !hsh_length, take_ge, drop_ge, app_nil_r by (rewrite hsh_length; lia). done. }
      destruct (IH (S i) c k) as (j & r & -> & Hr); [done|done|done|destruct key; [by apply tkey_nil in Ht|simpl in *; lia]|].
      exists j, r. split; [done|]. rewrite El. destruct Hr as [->|(n & u & -> & Hg & Hu & Hc)]; [by left|right].
      exists n, u. split; [done|]. split; [done|]. split; [by apply Hsub|]. right. destruct Hc as [->|?]; done.
  - eexists _, _. split; [done|]. right. exists i, T. split; [done|]. split; [done|].
    destruct (path_self T key Hw Ht) as [l ->]. split; [by apply list_elem_of_here|by left].
Qed.

End Verify.

(** ** The nodes of a proof *)

Section Nodes.
Context {HF : HashFn} {X : Keccak.Impl} {SL : ShaLaw HF X} (known : bytes -> Prop) (Hknown : blobs known).
Context (N : Hash -> option bytes).

(** A node on the path and its tree. *)
Definition stands (n : node) (u : tree) : Prop :=
  loaded n /\ wf u /\ tree_known known u /\ exists b, repH N b n u.

Lemma path_nodes_spec g fuel n T key b : repH N b n T -> fits T key -> tree_known known T -> (cost n key <= fuel)%nat ->
  exists ns, path_nodes N g fuel n key = Ok (inr ns) /\ Forall2 stands ns (path T key).
Proof.
  revert n T key b. induction fuel as [|fuel IH]; intros n T key b Hr Hf Hk Hc; [unfold cost in Hc; destruct (is_hash n); lia|].
  destruct (fits_key _ _ Hf) as [->|Ht]; [exists []; split; [by destruct n|by destruct T]|].
  destruct key as [|x kr] eqn:Ek; [by apply tkey_nil in Ht|]. rewrite <-Ek in *.
  destruct n as [|v|h|k c f|cs f].
  - apply rep_nil_inv in Hr as ->. exists []. by rewrite Ek.
  - apply rep_value_inv in Hr as ->. destruct Hf as [[? _]|[[-> _]|[_ Hw]]]; [done..|inversion Hw].
  - destruct (rep_loaded _ _ _ _ Hr g []) as (m & Em & Hm & Hrm). rewrite (cost_loaded h m) in Hc by done.
    destruct (IH m T key b Hrm Hf Hk ltac:(lia)) as (ns & E & Hns). exists ns. split; [|done].
    rewrite Ek in E |- *. cbn [path_nodes]. rewrite Em. cbn [rbind]. exact E.
  - destruct (rep_short_inv _ _ _ _ _ _ Hr) as (u & -> & Hu & _).
    destruct (fits_ne _ _ Hf) as [[-> _]|[_ Hw]]; [done..|]. pose proof Hk as [_ Hku].
    assert (stands (shortNode k c f) (Ext k u)) as Hst by (split; [done|]; split; [done|]; split; [done|by exists b]).
    destruct (look_Ext_cases k u key) as [(k' & E & _)|[Hno _]].
    + pose proof (wf_ext_key _ _ Hw) as Hne.
      destruct (IH c u k' false) as (ns & En & Hns);
        [done|rewrite E in Ht; by eapply fits_ext|done|rewrite E in Hc; by apply (cost_app (shortNode k c f) c k)|].
      exists (shortNode k c f :: ns). rewrite E at 2. rewrite path_Ext by done. split; [|by constructor].
      rewrite Ek. cbn [path_nodes]. rewrite <-Ek, E.
      rewrite bool_decide_false by (rewrite len_app; pose proof (len_nonneg k'); lia).
      rewrite take_app_length, drop_app_length, bool_decide_true by done. cbn [orb negb]. by rewrite En.
    + exists [shortNode k c f]. split.
      * rewrite Ek. cbn [path_nodes]. rewrite <-Ek. case_match eqn:Eb.
        -- destruct fuel; [rewrite Ek in Hc; unfold cost in Hc; simpl in Hc; lia|]. by rewrite Ek.
        -- apply orb_false_iff in Eb as [_ Eb]. apply negb_false_iff, bool_decide_eq_true in Eb. exfalso.
           apply (Hno (drop (length k) key)). rewrite Eb at 1. by rewrite take_drop.
      * rewrite Ek. simpl. rewrite decide_False; [by constructor|]. rewrite <-Ek. intros E.
        apply (Hno (drop (length k) key)). rewrite <-E at 1. by rewrite take_drop.
  - destruct (rep_full_inv _ _ _ _ _ Hr) as (ts & -> & Hcs & _).
    destruct (fits_ne _ _ Hf) as [[-> _]|[_ Hw]]; [done..|]. rewrite Ek in Ht, Hc |- *.
    assert (stands (fullNode cs f) (Branch ts)) as Hst by (split; [done|]; split; [done|]; split; [done|by exists b]).
    destruct (fits_child _ _ _ Hw Ht) as (Hx & u & Hu & Hfu).
    destruct (reps_child _ cs ts x u Hcs Hx Hu) as (c & Ec & Hrc & _).
    apply tree_known_Branch in Hk as [_ Hk]. rewrite Forall_forall in Hk.
    destruct (IH c u kr false) as (ns & En & Hns);
      [done|done|by eapply Hk, list_elem_of_lookup_2|by apply (cost_child (fullNode cs f) c x)|].
    exists (fullNode cs f :: ns). rewrite (path_Branch ts x kr u) by done. split; [|by constructor].
    cbn [path_nodes]. rewrite Ec. cbn [rbind]. by rewrite En.
Qed.

(** The encoding of such a node. *)
Lemma stands_encodes n u : stands n u -> exists col c r,
  hashChildren 0 0 None n None = Ok (col, c, None) /\ store None col None false = Ok (r, None) /\
  node_enc col = tenc u /\ (if hashed u then r = hashNode (hsh (tenc u)) else is_hash r = false).
Proof.
  intros (Hl & Hw & Hk & b & Hr).
  assert (exists f, flag_ok (Marks := hash_marks N) b u f /\ collapses known 0 0 None N n f u None) as (f & Hf & Hc).
  { destruct n as [| | |k c f|cs f]; try done.
    - destruct (rep_short_inv _ _ _ _ _ _ Hr) as (w & -> & Hc & Hf). exists f. split; [done|].
      apply collapse_short; try done. by apply hash_spec.
    - destruct (rep_full_inv _ _ _ _ _ Hr) as (ts & -> & Hcs & Hf). exists f. split; [done|].
      apply collapse_full; try done. apply Forall_forall. intros c _. by apply hash_spec. }
  destruct Hc as (col & c & db' & E & Hg & Hcf & _ & Hi & _). destruct db'; [done|].
  destruct (store_spec known Hknown None ltac:(done) col f u None false) as (r & db' & Es & Hg' & Ho & _); try done.
  { intros h Eh. simpl in Hf. rewrite Eh in Hf. apply Hf. }
  destruct db'; [done|]. exists col, c, r. split; [done|]. split; [done|]. split; [unfold node_enc; by rewrite Hi|].
  unfold out in Ho. simpl in Ho. destruct (hashed u); [done|]. by destruct Ho as (_ & _ & ?).
Qed.

(** A proof database with blobs under their hashes. *)
Definition proof_ok (Get : bytes -> option bytes) : Prop := forall h b, Get h = Some b -> known b /\ h = hsh b.

Lemma put_nodes_spec (Hsum : forall b, bytes_ok b -> Keys.Keccak256 [b] = Ok (hsh b))
    (i : nat) (ns : list node) (us : list tree) (pdb : proofDb) :
  Forall2 stands ns us -> proof_ok (fun k => pdb !! k) ->
  exists pdb', put_nodes i 0 ns pdb = Ok pdb' /\ proof_ok (fun k => pdb' !! k) /\
    extends (fun k => pdb !! k) (fun k => pdb' !! k) /\
    (forall j u, us !! j = Some u -> hashed u = true \/ (i + j = 0)%nat -> pdb' !! hsh (tenc u) = Some (tenc u)).
Proof.
  intros Hs. revert i pdb. induction Hs as [|n u ns us Hn _ IH]; intros i pdb Hp; [by exists pdb|].
  destruct (stands_encodes n u Hn) as (col & c & r & E1 & E2 & E3 & E4). destruct Hn as (_ & Hw & Hk & _).
  pose proof (tree_known_sized _ Hknown _ Hk) as Hsz. pose proof (tree_known_enc _ _ Hw Hk) as Hx.
  assert (bytes_ok (tenc u)) as Hxb by (apply tenc_bytes; [by right; right|done|by apply sized_len]).
  cbn [put_nodes]. rewrite E1. cbn [rbind]. rewrite E2. cbn [rbind]. rewrite E3.
  destruct (hashed u || (i =? 0)%nat) eqn:Eput.
  - assert (proof_ok (fun k => <[hsh (tenc u) := tenc u]> pdb !! k)) as Hp'.
    { intros h b. cbv beta. destruct (decide (h = hsh (tenc u))) as [->|Hne]; [rewrite lookup_insert_eq; by intros [= <-]|].
      rewrite lookup_insert_ne by done. apply Hp. }
    assert (extends (fun k => pdb !! k) (fun k => <[hsh (tenc u) := tenc u]> pdb !! k)) as He.
    { intros h b Hb. cbv beta. destruct (decide (h = hsh (tenc u))) as [->|Hne]; [|by rewrite lookup_insert_ne].
      rewrite lookup_insert_eq. f_equal. destruct (Hp _ _ Hb). by apply (known_inj _ Hknown). }
    destruct (IH (S i) (<[hsh (tenc u) := tenc u]> pdb) Hp') as (pdb' & E & H1 & H2 & H3). exists pdb'. split; [|split; [done|split]].
    + destruct (hashed u); [subst r; exact E|]. simpl in Eput. destruct r; try done; cbn [is_some orb];
        rewrite Eput, (Hsum _ Hxb); exact E.
    + by etrans.
    + intros [|j] w Hj Hw'; [injection Hj as <-; apply H2; cbv beta; apply lookup_insert_eq|]. apply (H3 j w Hj). destruct Hw'; [by left|lia].
  - apply orb_false_iff in Eput as [Eh Ei]. rewrite Eh in E4.
    destruct (IH (S i) pdb Hp) as (pdb' & E & H1 & H2 & H3). exists pdb'. split; [|split; [done|split; [done|]]].
    + destruct r; try done; cbn [is_some orb]; rewrite Ei; exact E.
    + apply Nat.eqb_neq in Ei. intros [|j] w Hj Hw'; [injection Hj as <-; destruct Hw'; [congruence|lia]|].
      apply (H3 j w Hj). destruct Hw'; [by left|lia].
Qed.

End Nodes.

(** ** Proofs *)

Section Laws.
Context {X : Keccak.Impl} {XL : ImplLaws X keccak_f} (known : bytes -> Prop).

Lemma Keccak256_hsh b : bytes_ok b -> Keys.Keccak256 [b] = Ok (hsh b).
Proof.
  intros Hb. pose proof (KeccakLaws.summed X 136 32 1 [b] ltac:(KeccakLaws.in_rates) ltac:(lia) ltac:(unfold byte_ok; lia) ltac:(by repeat constructor)) as E.
  unfold Keys.Keccak256. rewrite KeccakLaws.write_each_all. simpl List.concat in E. rewrite app_nil_r in E. exact E.
Qed.

(** C23: Verification cannot be misled: against the hash of a trie, with a proof
    database that stores blobs under their hashes, [VerifyProof] always returns,
    and returns what the trie holds for the key or reports a missing node. *)
Theorem verify_sound (N : Hash -> option bytes) (t t' : Trie) (h : Hash) (m : gmap bytes bytes) (key : bytes) (Get : bytes -> option bytes) :
  blobs known -> map_known known m -> represents (M := hash_marks N) N t m -> root t <> nilNode ->
  Trie_Hash t = Ok (t', h) -> bytes_ok key -> proof_ok known Get ->
  exists j r, VerifyProof (2 * length key + 1) h key Get = Ok (r, j) /\
    (r = inr (m !! key) \/ exists i hash, r = inl (proof_missing i hash)).
Proof.
  intros Hk Hm (T & Hr & Hc) Hn Eh Hb HG. pose proof (Hm T Hc) as Ht.
  assert (wf T) as Hw by (destruct (c_shape _ _ Hc) as [->|]; [by apply rep_E in Hr|done]).
  destruct (Hash_ok known N t m T Hk Hm Hr Hc) as (t2 & E2 & _). rewrite Eh in E2. injection E2 as _ ->.
  rewrite (troot_wf T Hw). pose proof (keybytesToHex_tkey key Hb) as Htk.
  destruct (verify_loop_ok known Hk (2 * length key + 1) 0 T (keybytesToHex key) Get Hw Ht Htk) as (j & r & E & Hr').
  - unfold keybytesToHex. fold (hex_of key). rewrite length_app, length_hex_of. simpl. lia.
  - intros u b Hwu Hku Hg. destruct (HG _ _ Hg) as [Hkb He]. symmetry. apply (known_inj _ Hk); [by apply tree_known_enc|done|done].
  - exists j, r. split; [exact E|]. rewrite (c_get _ _ Hc key Hb) in Hr'. destruct Hr' as [?|(n & u & -> & _)]; [by left|right; eauto].
Qed.

(** C16: A proof made from a trie verifies: [Prove] succeeds, keeps the proofs that
    were in the database, and [VerifyProof] against the trie's hash returns what
    the trie holds for the key, be it a value or nothing. *)
Theorem prove_verify (N : Hash -> option bytes) (t t' : Trie) (h : Hash) (m : gmap bytes bytes) (key : bytes) (pdb : gmap bytes bytes) :
  blobs known -> map_known known m -> represents (M := hash_marks N) N t m -> root t <> nilNode ->
  Trie_Hash t = Ok (t', h) -> bytes_ok key -> proof_ok known (fun k => pdb !! k) ->
  exists pdb' j, Prove N t key 0 pdb = Ok (inr pdb') /\ pdb ⊆ pdb' /\ proof_ok known (fun k => pdb' !! k) /\
    VerifyProof (2 * length key + 1) h key (fun k => pdb' !! k) = Ok (inr (m !! key), j).
Proof.
  intros Hk Hm (T & Hr & Hc) Hn Eh Hb Hp. pose proof (Hm T Hc) as Ht.
  assert (wf T) as Hw by (destruct (c_shape _ _ Hc) as [->|]; [by apply rep_E in Hr|done]).
  destruct (Hash_ok known N t m T Hk Hm Hr Hc) as (t2 & E2 & _). rewrite Eh in E2. injection E2 as _ ->.
  rewrite (troot_wf T Hw). pose proof (keybytesToHex_tkey key Hb) as Htk.
  destruct (path_nodes_spec known N (cachegen t) (trie_fuel (keybytesToHex key)) (root t) T (keybytesToHex key) true)
    as (ns & En & Hns); [done|by eapply fits_contents|done|apply cost_fuel|].
  destruct (put_nodes_spec known Hk N Keccak256_hsh 0 ns _ pdb Hns Hp) as (pdb' & Ep & Hp' & He & Hput).
  unfold Prove. rewrite En. cbn [rbind]. rewrite Ep. cbn [rbind].
  destruct (verify_loop_ok known Hk (2 * length key + 1) 0 T (keybytesToHex key) (fun k => pdb' !! k) Hw Ht Htk)
    as (j & r & E & Hr').
  - unfold keybytesToHex. fold (hex_of key). rewrite length_app, length_hex_of. simpl. lia.
  - intros u b Hwu Hku Hg. destruct (Hp' _ _ Hg) as [Hkb He']. symmetry. apply (known_inj _ Hk); [by apply tree_known_enc|done|done].
  - exists pdb', j. split; [done|]. split; [by apply map_subseteq_spec|]. split; [done|]. unfold VerifyProof. rewrite E.
    rewrite (c_get _ _ Hc key Hb) in Hr'. destruct Hr' as [->|(n & u & _ & Hno & Hu & Hcase)]; [done|]. exfalso.
    apply list_elem_of_lookup in Hu as (i & Hi). destruct (path_self T (keybytesToHex key) Hw Htk) as [l Hl].
    assert (pdb' !! hsh (tenc u) = Some (tenc u)) as Hin; [|by rewrite Hno in Hin].
    destruct Hcase as [->|Hh]; [|by apply (Hput i u Hi); left]. apply (Hput 0%nat T); [by rewrite Hl|by right].
Qed.

End Laws.

(** A blob that refers to itself, under a key that is not its hash: a short
    node with an empty key. *)
Definition loop_key : Hash := replicate 32 1.
Definition loop_blob : bytes := [226; 0; 160] ++ loop_key.

(** [VerifyProof] does not hash the nodes it reads: with a database whose keys
    are not the hashes of its values it can go round for ever. *)
Theorem verify_trusts_keys (fuel : nat) (key : bytes) :
  VerifyProof fuel loop_key key (fun k => if bool_decide (k = loop_key) then Some loop_blob else None) = NoFuel.
Proof.
  unfold VerifyProof. generalize 0%nat. induction fuel as [|fuel IH]; intros i; [done|]. cbn [VerifyProof_loop].
  rewrite bool_decide_true by done.
  assert (decodeNode (Some loop_key) loop_blob 0 =
    Ok (inr (shortNode [] (hashNode loop_key) {| TrieNode.hash := Some loop_key; TrieNode.gen := 0; dirty := false |}))) as ->
    by (vm_compute; reflexivity).
  cbn [rbind get]. rewrite bool_decide_false by (rewrite len_nil; pose proof (len_nonneg (keybytesToHex key)); lia).
  rewrite bool_decide_true by done. cbn [orb negb rbind]. change (copy_into loop_key loop_key) with loop_key.
  change (drop (length (@nil Z)) (keybytesToHex key)) with (keybytesToHex key). apply IH.
Qed.

(** *** Witnesses *)

Lemma one_hashed : exists t' h, Trie_Hash (H := Keccak.generic) (history detour) = Ok (t', h) /\ root (history detour) <> nilNode.
Proof. do 2 eexists. split; [vm_compute; reflexivity|discriminate]. Qed.

Lemma verify_sound_witness : exists t' h, Trie_Hash (H := Keccak.generic) (history detour) = Ok (t', h) /\
  exists j r, VerifyProof 7 h (of_string "dog") (fun _ => None) = Ok (r, j).
Proof.
  destruct one_hashed as (t' & h & E & Hn). exists t', h. split; [exact E|].
  destruct (verify_sound (X := Keccak.generic) (XL := KeccakSponge.generic_laws) one_blobs (fun _ => None) (history detour) t' h one_key
    (of_string "dog") (fun _ => None) one_blobs_ok one_key_known) as (j & r & Er & _).
  - apply history_ok; [apply ways_ok|vm_compute; reflexivity].
  - exact Hn.
  - exact E.
  - apply of_string_ok.
  - intros ? ?. discriminate.
  - exists j, r. exact Er.
Defined.

Lemma prove_verify_witness : exists t' h pdb j, Trie_Hash (H := Keccak.generic) (history detour) = Ok (t', h) /\
  Prove (H := Keccak.generic) (fun _ => None) (history detour) (of_string "dog") 0 ∅ = Ok (inr pdb) /\
  VerifyProof 7 h (of_string "dog") (fun k => pdb !! k) = Ok (inr (Some (of_string "puppy")), j).
Proof.
  destruct one_hashed as (t' & h & E & Hn).
  destruct (prove_verify (X := Keccak.generic) (XL := KeccakSponge.generic_laws) one_blobs (fun _ => None) (history detour) t' h one_key
    (of_string "dog") ∅ one_blobs_ok one_key_known) as (pdb & j & Ep & _ & _ & Ev).
  - apply history_ok; [apply ways_ok|vm_compute; reflexivity].
  - exact Hn.
  - exact E.
  - apply of_string_ok.
  - intros ? ?. rewrite lookup_empty. discriminate.
  - exists t', h, pdb, j. split; [exact E|]. split; [exact Ep|]. exact Ev.
Defined.

End TrieProof.
