(* ===== verification/TrieIter.v ===== *)
(** * Trie: iterators

    Translates [src/trie/iterator.go]: the iterator over the nodes of a trie
    with its stack of positions, the iterator over its entries, and the
    iterators over the difference and the union of other iterators.

    The interface [NodeIterator] is a class of operations.  A stack is the list
    of its states, the top first.  Searching for the start and for the next
    leaf are loops over the nodes of the trie and take fuel. *)

From Stdlib Require Import Lia.
From stdpp Require Import base numbers list.
From S2P Require Import Prelude BigInt Types Keccak TrieEncoding TrieNode TrieOps TrieHasher.
Import Common TrieEncoding TrieNode TrieOps TrieHasher.

#[local] Open Scope Z_scope.
#[local] Open Scope go_scope.

Module TrieIter.

(** [bytes.Compare] and [bytes.HasPrefix]. *)
Fixpoint Compare (a b : bytes) : comparison :=
  match a, b with
  | [], [] => Eq
  | [], _ => Lt
  | _, [] => Gt
  | x :: a, y :: b => match x ?= y with Eq => Compare a b | c => c end
  end.
Definition HasPrefix (s prefix : bytes) : bool := bool_decide (take (length prefix) s = prefix).

(** The hash of the empty string. *)
Definition emptyState : Hash :=
  Eval vm_compute in value_of (sha (H := Keccak.generic) Keccak.NewKeccak256 []) [].

(** ** The interface *)

Class NodeIterator (I : Type) := {
  Next : bool -> I -> result (I * bool);
  Error : I -> option MissingNodeError;
  Hash_ : I -> result Hash;
  Parent : I -> result Hash;
  Path : I -> result bytes;
  Leaf : I -> result bool;
  LeafBlob : I -> result bytes;
  LeafKey : I -> result bytes
}.

(** ** [Iterator] *)

Section Iterator.
Context {I : Type} `{!NodeIterator I}.

Record Iterator := mkIterator {
  nodeIt : I;
  Key : option bytes;
  Value : option bytes;
  Err : option MissingNodeError
}.

Definition NewIterator (it : I) : Iterator := mkIterator it None None None.

Fixpoint Iterator_Next (fuel : nat) (it : Iterator) : result (Iterator * bool) :=
  match fuel with
  | O => NoFuel
  | S fuel =>
      let? (n, more) := Next true (nodeIt it) in
      if (more : bool) then
        let? leaf := Leaf n in
        if (leaf : bool) then
          let? key := LeafKey n in
          let? blob := LeafBlob n in
          Ok (mkIterator n (Some key) (Some blob) (Err it), true)
        else Iterator_Next fuel (mkIterator n (Key it) (Value it) (Err it))
      else Ok (mkIterator n None None (Error n), false)
  end.

End Iterator.
Arguments Iterator : clear implicits.

(** ** [nodeIterator] *)

Record nodeIteratorState := mkState {
  sHash : Hash;
  sNode : node;
  sParent : Hash;
  sIndex : Z;
  sPathlen : nat
}.

Inductive iterErr :=
| iteratorEnd
| seekError (key : bytes) (err : MissingNodeError)
| missing (err : MissingNodeError).

Record nodeIterator := mkIter {
  iTrie : option Trie;
  stack : list nodeIteratorState;
  path : bytes;
  err : option iterErr
}.

Definition set_index (i : Z) (s : nodeIteratorState) : nodeIteratorState :=
  mkState (sHash s) (sNode s) (sParent s) i (sPathlen s).

Section NodeIter.
Context `{!Keccak.Impl} (Node : Hash -> option bytes).

(** The first child that is there, and its number. *)
Fixpoint first_child (i : Z) (cs : list node) : option (Z * node) :=
  match cs with
  | [] => None
  | nilNode :: cs => first_child (i + 1) cs
  | c :: _ => Some (i, c)
  end.

(** The state of a child, before it is resolved. *)
Definition child_state (c : node) (ancestor : Hash) (p : bytes) : result nodeIteratorState :=
  let? (h, _) := cache c in
  Ok (mkState (BytesToHash (default [] h)) c ancestor (-1) (length p)).

(** The child, its path, and the parent with its number of the child before. *)
Definition nextChild (parent : nodeIteratorState) (ancestor : Hash) (p : bytes)
  : result (option (nodeIteratorState * bytes * nodeIteratorState)) :=
  match sNode parent with
  | fullNode cs _ =>
      match first_child (sIndex parent + 1) (drop (Z.to_nat (sIndex parent + 1)) cs) with
      | Some (i, c) =>
          let? s := child_state c ancestor p in
          Ok (Some (s, p ++ [i], set_index (i - 1) parent))
      | None => Ok None
      end
  | shortNode k c _ =>
      if sIndex parent <? 0 then
        let? s := child_state c ancestor p in
        Ok (Some (s, p ++ k, parent))
      else Ok None
  | _ => Ok None
  end.

Definition state_resolve (tr : Trie) (s : nodeIteratorState) (p : bytes) : result (MissingNodeError + nodeIteratorState) :=
  match sNode s with
  | hashNode h =>
      let? r := resolveHash Node (cachegen tr) h p in
      Ok match r with
         | inl e => inl e
         | inr n => inr (mkState (BytesToHash h) n (sParent s) (sIndex s) (sPathlen s))
         end
  | _ => Ok (inr s)
  end.

(** What [peek] found: an error, or a state to push with its path (and whether
    it has a parent whose index moves). *)
Inductive peeked :=
| PErr (e : iterErr)
| POk (s : nodeIteratorState) (child : bool) (p : bytes).

Definition peeked_of (r : MissingNodeError + nodeIteratorState) (child : bool) (p : bytes) : peeked :=
  match r with inl e => PErr (missing e) | inr s => POk s child p end.

(** Moving up until there is a next child. *)
Fixpoint peek_up (tr : Trie) (st : list nodeIteratorState) (p : bytes) : result (list nodeIteratorState * bytes * peeked) :=
  match st with
  | [] => Ok ([], p, PErr iteratorEnd)
  | parent :: rest =>
      let ancestor := if bool_decide (sHash parent = zeroHash) then sParent parent else sHash parent in
      let? c := nextChild parent ancestor p in
      match c with
      | Some (s, cp, parent) =>
          let? r := state_resolve tr s cp in
          Ok (parent :: rest, p, peeked_of r true cp)
      | None =>
          let? p := slice p 0 (Z.of_nat (sPathlen parent)) in
          peek_up tr rest p
      end
  end.

(** [pop]. *)
Definition pop (st : list nodeIteratorState) (p : bytes) : result (list nodeIteratorState * bytes) :=
  match st with
  | [] => Panic
  | parent :: rest => let? p := slice p 0 (Z.of_nat (sPathlen parent)) in Ok (rest, p)
  end.

Definition peek (descend : bool) (it : nodeIterator) : result (nodeIterator * peeked) :=
  match iTrie it with
  | None => Panic
  | Some tr =>
      match stack it with
      | [] =>
          let? (tr, root) := Trie_Hash tr in
          let s := mkState (if bool_decide (root = emptyRoot) then zeroHash else root) (TrieOps.root tr) zeroHash (-1) 0 in
          let? r := state_resolve tr s [] in
          Ok (mkIter (Some tr) [] (path it) (err it), peeked_of r false [])
      | st =>
          let? (st, p) := if descend then Ok (st, path it) else pop st (path it) in
          let? (st, p, r) := peek_up tr st p in
          Ok (mkIter (Some tr) st p (err it), r)
      end
  end.

Definition push (s : nodeIteratorState) (child : bool) (p : bytes) (it : nodeIterator) : nodeIterator :=
  let st :=
    match stack it with
    | parent :: rest => if child then set_index (sIndex parent + 1) parent :: rest else stack it
    | [] => []
    end in
  mkIter (iTrie it) (s :: st) p (err it).

Definition set_err (e : option iterErr) (it : nodeIterator) : nodeIterator := mkIter (iTrie it) (stack it) (path it) e.

Fixpoint seek_loop (fuel : nat) (prefix key : bytes) (it : nodeIterator) : result (nodeIterator * option iterErr) :=
  match fuel with
  | O => NoFuel
  | S fuel =>
      let? (it, r) := peek (HasPrefix key (path it)) it in
      match r with
      | PErr (missing e) => Ok (it, Some (seekError prefix e))
      | PErr e => Ok (it, Some e)
      | POk s child p =>
          match Compare p key with
          | Lt => seek_loop fuel prefix key (push s child p it)
          | _ => Ok (it, None)
          end
      end
  end.

Definition seek (fuel : nat) (prefix : bytes) (it : nodeIterator) : result (nodeIterator * option iterErr) :=
  let key := keybytesToHex prefix in
  seek_loop fuel prefix (take (length key - 1) key) it.

Definition newNodeIterator (fuel : nat) (t : Trie) (start : bytes) : result nodeIterator :=
  let? (t, h) := Trie_Hash t in
  if bool_decide (h = emptyState) then Ok (mkIter None [] [] None)
  else
    let? (it, e) := seek fuel start (mkIter (Some t) [] [] None) in
    Ok (set_err e it).

Definition node_step (descend : bool) (it : nodeIterator) : result (nodeIterator * bool) :=
  let? (it, r) := peek descend it in
  Ok match r with
     | PErr e => (set_err (Some e) it, false)
     | POk s child p => (push s child p (set_err None it), true)
     end.

Definition node_Next (fuel : nat) (descend : bool) (it : nodeIterator) : result (nodeIterator * bool) :=
  match err it with
  | Some iteratorEnd => Ok (it, false)
  | Some (seekError key _) =>
      let? (it, e) := seek fuel key it in
      match e with
      | Some e => Ok (set_err (Some e) it, false)
      | None => node_step descend (set_err None it)
      end
  | _ => node_step descend it
  end.

Definition top_value (it : nodeIterator) : result bytes :=
  match stack it with
  | s :: _ => match sNode s with valueNode v => Ok v | _ => Panic end
  | [] => Panic
  end.

Definition node_ops (fuel : nat) : NodeIterator nodeIterator := {|
  Next := node_Next fuel;
  Error it :=
    match err it with
    | Some (seekError _ e) | Some (missing e) => Some e
    | Some iteratorEnd | None => None
    end;
  Hash_ it := Ok match stack it with s :: _ => sHash s | [] => zeroHash end;
  Parent it := Ok match stack it with s :: _ => sParent s | [] => zeroHash end;
  Path it := Ok (path it);
  Leaf it := Ok (hasTerm (path it));
  LeafBlob it := top_value it;
  LeafKey it := let? _ := top_value it in hexToKeybytes (path it)
|}.
#[local] Existing Instance node_ops.

End NodeIter.

(** ** Comparing positions *)

Section Compare.
Context {I J : Type} `{!NodeIterator I, !NodeIterator J}.

Definition compareNodes (a : I) (b : J) : result comparison :=
  let? pa := Path a in
  let? pb := Path b in
  match Compare pa pb with
  | Eq =>
      let? la := Leaf a in
      let? lb := Leaf b in
      if la && negb lb then Ok Lt
      else if lb && negb la then Ok Gt
      else
        let? ha := Hash_ a in
        let? hb := Hash_ b in
        match Compare ha hb with
        | Eq =>
            if la && lb then
              let? va := LeafBlob a in
              let? vb := LeafBlob b in
              Ok (Compare va vb)
            else Ok Eq
        | c => Ok c
        end
  | c => Ok c
  end.

End Compare.

(** ** The difference of two iterators *)

Section Difference.
Context {I J : Type} `{!NodeIterator I, !NodeIterator J} (fuel : nat).

Record differenceIterator := mkDiff { dA : I; dB : J; eof : bool; dCount : Z }.

Definition NewDifferenceIterator (a : I) (b : J) : result differenceIterator :=
  let? (a, _) := Next true a in Ok (mkDiff a b false 0).

Fixpoint diff_loop (fuel : nat) (it : differenceIterator) : result (differenceIterator * bool) :=
  match fuel with
  | O => NoFuel
  | S fuel =>
      let? c := compareNodes (dA it) (dB it) in
      match c with
      | Lt =>
          let? (a, more) := Next true (dA it) in
          if (more : bool) then diff_loop fuel (mkDiff a (dB it) (eof it) (dCount it + 1))
          else Ok (mkDiff a (dB it) true (dCount it), true)
      | Gt => Ok (it, true)
      | Eq =>
          let? h := Hash_ (dA it) in
          let hasHash := bool_decide (h = zeroHash) in
          let? (b, more) := Next hasHash (dB it) in
          if (more : bool) then
            let? (a, more) := Next hasHash (dA it) in
            if (more : bool) then diff_loop fuel (mkDiff a b (eof it) (dCount it + 2))
            else Ok (mkDiff a b true (dCount it + 1), true)
          else Ok (mkDiff (dA it) b (eof it) (dCount it), false)
      end
  end.

(** The argument is ignored. *)
Definition diff_Next (_ : bool) (it : differenceIterator) : result (differenceIterator * bool) :=
  let? (b, more) := Next true (dB it) in
  if (more : bool) then
    let it := mkDiff (dA it) b (eof it) (dCount it + 1) in
    if eof it then Ok (it, true) else diff_loop fuel it
  else Ok (mkDiff (dA it) b (eof it) (dCount it), false).

Definition difference_ops : NodeIterator differenceIterator := {|
  Next := diff_Next;
  Error it := match Error (dA it) with Some e => Some e | None => Error (dB it) end;
  Hash_ it := Hash_ (dB it);
  Parent it := Parent (dB it);
  Path it := Path (dB it);
  Leaf it := Leaf (dB it);
  LeafBlob it := LeafBlob (dB it);
  LeafKey it := LeafKey (dB it)
|}.
#[local] Existing Instance difference_ops.

End Difference.

(** ** Heaps *)

(** Go's [container/heap] on a slice; [less] compares two elements. *)
Section Heap.
Context {A : Type} (less : A -> A -> result bool).

(** [h.Less(i, j)] and [h.Swap(i, j)]. *)
Definition Less (h : list A) (i j : nat) : result bool :=
  match h !! i, h !! j with Some a, Some b => less a b | _, _ => Panic end.

Definition Swap (h : list A) (i j : nat) : result (list A) :=
  match h !! i, h !! j with Some a, Some b => Ok (<[j := a]> (<[i := b]> h)) | _, _ => Panic end.

(** The index is at least halved in each round. *)
Fixpoint heap_up (fuel : nat) (h : list A) (j : nat) : result (list A) :=
  match fuel with
  | O => NoFuel
  | S fuel =>
      let i := ((j - 1) / 2)%nat in
      if (i =? j)%nat then Ok h
      else
        let? l := Less h j i in
        if (l : bool) then let? h := Swap h i j in heap_up fuel h i else Ok h
  end.

Fixpoint heap_down (fuel : nat) (h : list A) (i n : nat) : result (list A) :=
  match fuel with
  | O => NoFuel
  | S fuel =>
      let j1 := (2 * i + 1)%nat in
      if (n <=? j1)%nat then Ok h
      else
        let j2 := S j1 in
        let? smaller := (if (j2 <? n)%nat then Less h j2 j1 else Ok false) in
        let j := if (smaller : bool) then j2 else j1 in
        let? l := Less h j i in
        if (l : bool) then let? h := Swap h i j in heap_down fuel h j n else Ok h
  end.

(** From element [i - 1] down to element 0. *)
Fixpoint heap_Init_loop (i n : nat) (h : list A) : result (list A) :=
  match i with
  | O => Ok h
  | S i => let? h := heap_down (S n) h i n in heap_Init_loop i n h
  end.

Definition heap_Init (h : list A) : result (list A) := heap_Init_loop (length h / 2) (length h) h.

Definition heap_Push (h : list A) (x : A) : result (list A) := heap_up (S (length h)) (h ++ [x]) (length h).

Definition heap_Pop (h : list A) : result (A * list A) :=
  match length h with
  | O => Panic
  | S n =>
      let? h := Swap h 0 n in
      let? h := heap_down (S n) h 0 n in
      match h !! n with Some x => Ok (x, take n h) | None => Panic end
  end.

End Heap.

(** ** The union of iterators *)

Section Union.
Context {I : Type} `{!NodeIterator I} (fuel : nat).

Definition node_less (a b : I) : result bool := let? c := compareNodes a b in Ok match c with Lt => true | _ => false end.

Record unionIterator := mkUnion { items : list I; uCount : Z }.

Definition NewUnionIterator (iters : list I) : result unionIterator :=
  let? h := heap_Init node_less iters in Ok (mkUnion h 0).

(** Whether the iterator at the top is to be moved on. *)
Definition skippable (descend : bool) (least top : I) : result bool :=
  let? below :=
    (if descend then Ok false
     else let? p := Path top in let? q := Path least in Ok (HasPrefix p q)) in
  if (below : bool) then Ok true
  else let? c := compareNodes least top in Ok match c with Eq => true | _ => false end.

Fixpoint union_skip (fuel : nat) (descend : bool) (least : I) (it : unionIterator) : result unionIterator :=
  match fuel with
  | O => NoFuel
  | S fuel =>
      match items it with
      | [] => Ok it
      | top :: _ =>
          let? s := skippable descend least top in
          if (s : bool) then
            let? (skipped, h) := heap_Pop node_less (items it) in
            let? hash := Hash_ skipped in
            let? (skipped, more) := Next (bool_decide (hash = zeroHash)) skipped in
            if (more : bool) then
              let? h := heap_Push node_less h skipped in
              union_skip fuel descend least (mkUnion h (uCount it + 1))
            else union_skip fuel descend least (mkUnion h (uCount it))
          else Ok it
      end
  end.

Definition union_Next (descend : bool) (it : unionIterator) : result (unionIterator * bool) :=
  match items it with
  | [] => Ok (it, false)
  | _ =>
      let? (least, h) := heap_Pop node_less (items it) in
      let? it := union_skip fuel descend least (mkUnion h (uCount it)) in
      let? (least, more) := Next descend least in
      let? it := (if (more : bool) then let? h := heap_Push node_less (items it) least in Ok (mkUnion h (uCount it + 1)) else Ok it) in
      Ok (it, match items it with [] => false | _ => true end)
  end.

Definition union_top {B} (f : I -> result B) (it : unionIterator) : result B :=
  match items it with top :: _ => f top | [] => Panic end.

Definition union_Error (it : unionIterator) : option MissingNodeError := head (omap Error (items it)).

Definition union_ops : NodeIterator unionIterator := {|
  Next := union_Next;
  Error := union_Error;
  Hash_ := union_top Hash_;
  Parent := union_top Parent;
  Path := union_top Path;
  Leaf := union_top Leaf;
  LeafBlob := union_top LeafBlob;
  LeafKey := union_top LeafKey
|}.

End Union.

End TrieIter.
