(* ===== verification/TrieIterSpec.v ===== *)
(** * Trie: what iterators promise

    The interface of [TrieIter.v] with its laws: an iterator stands on an item
    and has a list of items before it, in increasing order of their paths;
    going on without descending leaves out the items below the current one.
    Against these laws: the difference of two iterators ([difference_exact]). *)

From Stdlib Require Import Lia.
From stdpp Require Import base numbers list sorting.
From S2P Require Import Prelude BigInt Types TrieEncoding TrieOps TrieIter.
Import Common TrieEncoding TrieOps TrieIter.

#[local] Open Scope Z_scope.
#[local] Open Scope go_scope.

Module TrieIterSpec.

(** ** The order of paths *)

Lemma Compare_refl a : Compare a a = Eq.
Proof. induction a as [|x a IH]; simpl; [done|]. by rewrite Z.compare_refl. Qed.

Lemma Compare_eq a b : Compare a b = Eq -> a = b.
Proof.
  revert b. induction a as [|x a IH]; intros [|y b]; simpl; try done. destruct (Z.compare_spec x y) as [->| |]; try done.
  intros H. by rewrite (IH b H).
Qed.

Lemma Compare_flip a b : Compare b a = CompOpp (Compare a b).
Proof.
  revert b. induction a as [|x a IH]; intros [|y b]; simpl; try done. rewrite (Z.compare_antisym x y).
  destruct (x ?= y); simpl; [apply IH|done..].
Qed.

Lemma Compare_trans a b c : Compare a b = Lt -> Compare b c = Lt -> Compare a c = Lt.
Proof.
  revert b c. induction a as [|x a IH]; intros [|y b] [|z c]; simpl; try done.
  destruct (Z.compare_spec x y) as [->|Hxy|]; try done.
  - destruct (y ?= z); try done. apply IH.
  - intros _. destruct (Z.compare_spec y z) as [<-|Hyz|]; try done; intros _; [by rewrite (proj2 (Z.compare_lt_iff x y))|].
    by rewrite (proj2 (Z.compare_lt_iff x z)) by lia.
Qed.

(** Strictly before. *)
Definition before (a b : bytes) : Prop := Compare a b = Lt.

#[export] Instance before_trans : Transitive before.
Proof. intros a b c. apply Compare_trans. Qed.

Lemma before_irrefl a : ~ before a a.
Proof. unfold before. by rewrite Compare_refl. Qed.

Lemma before_app p k : k <> [] -> before p (p ++ k).
Proof. intros Hk. unfold before. induction p as [|x p IH]; simpl; [by destruct k|]. by rewrite Z.compare_refl. Qed.

Lemma before_app_l p a b : before (p ++ a) (p ++ b) <-> before a b.
Proof. unfold before. induction p as [|x p IH]; simpl; [done|]. by rewrite Z.compare_refl. Qed.

(** What is behind an extension of [p] that does not extend [p] is behind all of them. *)
Lemma before_prefix p a b : before (p ++ a) b -> (forall k, b <> p ++ k) -> forall c, before (p ++ c) b.
Proof.
  intros H Hb c. revert b H Hb. unfold before. induction p as [|x p IH]; intros b H Hb; simpl in *; [by destruct (Hb b)|].
  destruct b as [|y b]; [done|]. destruct (Z.compare_spec x y) as [->| |]; try done. apply IH; [done|]. intros k ->. by apply (Hb k).
Qed.

(** ** Items and laws *)

Record item := mkItem {
  iPath : bytes;
  iHash : Hash;
  iParent : Hash;
  iValue : option bytes
}.

Definition under (p : bytes) (x : item) : bool := HasPrefix (iPath x) p.

Lemma HasPrefix_spec s p : HasPrefix s p = true <-> exists k, s = p ++ k.
Proof.
  unfold HasPrefix. rewrite bool_decide_eq_true. split.
  - intros H. exists (drop (length p) s). rewrite <-H at 1. by rewrite take_drop.
  - intros [k ->]. by rewrite take_app_length.
Qed.

(** The items that are not below [p]. *)
Fixpoint skip (p : bytes) (l : list item) : list item :=
  match l with
  | x :: l' => if under p x then skip p l' else l
  | [] => []
  end.

Definition behind (x y : item) : Prop := before (iPath x) (iPath y).

Definition ordered (l : list item) : Prop := StronglySorted behind l.

Class NodeIteratorLaws (I : Type) `{!NodeIterator I} := {
  (** the iterator stands on the item (if any), and the items are before it *)
  stands : I -> option item -> list item -> Prop;
  next_more it cur x l : stands it cur (x :: l) -> exists it', Next true it = Ok (it', true) /\ stands it' (Some x) l;
  next_end it cur : stands it cur [] -> exists it', Next true it = Ok (it', false) /\ stands it' None [] /\ Error it' = None;
  next_skip it x l : stands it (Some x) l ->
    match skip (iPath x) l with
    | y :: l' => exists it', Next false it = Ok (it', true) /\ stands it' (Some y) l'
    | [] => exists it', Next false it = Ok (it', false) /\ stands it' None [] /\ Error it' = None
    end;
  view_path it x l : stands it (Some x) l -> Path it = Ok (iPath x);
  view_hash it x l : stands it (Some x) l -> Hash_ it = Ok (iHash x);
  view_leaf it x l : stands it (Some x) l -> Leaf it = Ok (bool_decide (is_Some (iValue x)));
  view_blob it x l v : stands it (Some x) l -> iValue x = Some v -> LeafBlob it = Ok v;
  view_key it x l v : stands it (Some x) l -> iValue x = Some v -> LeafKey it = hexToKeybytes (iPath x);
  stands_ordered it cur l : stands it cur l -> ordered (option_list cur ++ l)
}.

Lemma ordered_NoDup l : ordered l -> NoDup l.
Proof.
  induction 1 as [|z l Ho IH Hz]; constructor; [|done]. intros Hin. eapply Forall_forall in Hz; [|exact Hin]. by apply before_irrefl in Hz.
Qed.

(** *** Skipping *)

Lemma skip_suffix p l : exists l1, l = l1 ++ skip p l /\ Forall (fun x => under p x = true) l1.
Proof.
  induction l as [|x l (l1 & E & H)]; [by exists []|]. simpl. destruct (under p x) eqn:Ex; [|by exists []].
  exists (x :: l1). split; [simpl; by f_equal|by constructor].
Qed.

Lemma ordered_tail x l y : ordered (x :: l) -> y ∈ l -> behind x y.
Proof. intros H Hy. apply StronglySorted_inv in H as [_ H]. by eapply Forall_forall in H. Qed.

(** Nothing below [p] comes after the items skipped. *)
Lemma skip_rest x l y : ordered (x :: l) -> y ∈ skip (iPath x) l -> under (iPath x) y = false.
Proof.
  intros Ho Hy. destruct (skip_suffix (iPath x) l) as (l1 & E & _).
  destruct (skip (iPath x) l) as [|z l2] eqn:Es; [by apply not_elem_of_nil in Hy|].
  assert (Hz : under (iPath x) z = false).
  { clear -Es. induction l as [|a l IH]; simpl in Es; [done|]. destruct (under (iPath x) a) eqn:Ea; [by apply IH|]. by injection Es as -> ->. }
  assert (Hxz : behind x z) by (eapply ordered_tail; [exact Ho|]; rewrite E; apply elem_of_app; right; by left).
  apply elem_of_cons in Hy as [->|Hy]; [done|].
  assert (Hzy : behind z y).
  { apply StronglySorted_inv in Ho as [Ho _]. rewrite E in Ho. apply StronglySorted_app_1_r in Ho. by eapply ordered_tail. }
  apply not_true_is_false. intros Hp. apply HasPrefix_spec in Hp as [k Ek].
  apply (before_irrefl (iPath y)). rewrite Ek at 1. transitivity (iPath z); [|done].
  apply (before_prefix (iPath x) []); [by rewrite app_nil_r|]. intros k' E'. unfold under in Hz.
  assert (HasPrefix (iPath z) (iPath x) = true) by (apply HasPrefix_spec; by exists k'). congruence.
Qed.

Lemma skip_ordered x l : ordered (x :: l) -> ordered (skip (iPath x) l).
Proof.
  intros Ho. apply StronglySorted_inv in Ho as [Ho _]. destruct (skip_suffix (iPath x) l) as (l1 & E & _). rewrite E in Ho.
  by apply StronglySorted_app_1_r in Ho.
Qed.

Lemma skip_in p l y : y ∈ skip p l -> y ∈ l.
Proof. destruct (skip_suffix p l) as (l1 & E & _). intros H. rewrite E. apply elem_of_app. by right. Qed.

Lemma skip_length p l : (length (skip p l) <= length l)%nat.
Proof. destruct (skip_suffix p l) as (l1 & E & _). rewrite E at 2. rewrite length_app. lia. Qed.

(** ** Entries *)

Section Entries.
Context {I : Type} `{!NodeIterator I, !NodeIteratorLaws I} (fuel : nat).

(** All entries an iterator delivers, and the error it ends with. *)
Fixpoint entries (n : nat) (it : Iterator I) : result (list (bytes * bytes) * option MissingNodeError) :=
  match n with
  | O => NoFuel
  | S n =>
      let? (it, more) := Iterator_Next fuel it in
      if (more : bool) then
        let? (l, e) := entries n it in
        Ok ((default [] (Key it), default [] (Value it)) :: l, e)
      else Ok ([], Err it)
  end.

Definition entry_of (x : item) (e : bytes * bytes) : Prop := iValue x = Some (snd e) /\ hexToKeybytes (iPath x) = Ok (fst e).

Definition leaves (l : list item) : list item := filter (fun x => is_Some (iValue x)) l.

Lemma Iterator_Next_spec n it l : stands (nodeIt it) n l ->
  (forall x v, x ∈ l -> iValue x = Some v -> exists k, hexToKeybytes (iPath x) = Ok k) -> (length l < fuel)%nat ->
  match leaves l with
  | [] => exists it', Iterator_Next fuel it = Ok (it', false) /\ Err it' = None
  | x :: xs => exists it' k v l', Iterator_Next fuel it = Ok (it', true) /\ Key it' = Some k /\ Value it' = Some v /\
      entry_of x (k, v) /\ stands (nodeIt it') (Some x) l' /\ leaves l' = xs /\ (length l' < length l)%nat /\ (forall y, y ∈ l' -> y ∈ l)
  end.
Proof.
  revert n it l. induction fuel as [|f IH]; intros n it l Hs Hk Hf; [lia|]. cbn [Iterator_Next]. destruct l as [|x l].
  { destruct (next_end _ _ Hs) as (it' & -> & _ & He). cbn [rbind]. by eexists. }
  destruct (next_more _ _ _ _ Hs) as (n' & -> & Hs'). cbn [rbind]. rewrite (view_leaf _ _ _ Hs'). cbn [rbind]. unfold leaves. rewrite filter_cons.
  destruct (decide (is_Some (iValue x))) as [[v Hv]|Hv].
  - rewrite bool_decide_true by (by rewrite Hv). destruct (Hk x v) as [k Ek]; [by left|done|].
    rewrite (view_key _ _ _ v Hs' Hv), Ek. cbn [rbind]. rewrite (view_blob _ _ _ v Hs' Hv). cbn [rbind].
    eexists _, k, v, l. split; [reflexivity|]. split; [done|]. split; [done|]. split; [by split|]. split; [exact Hs'|]. split; [done|].
    split; [simpl; lia|]. intros y Hy. by right.
  - rewrite bool_decide_false by done. specialize (IH (Some x) (mkIterator n' (Key it) (Value it) (Err it)) l Hs').
    fold (leaves l). destruct (leaves l) as [|y ys] eqn:El.
    + apply IH; [intros z w Hz; apply Hk; by right|simpl in Hf; lia].
    + destruct IH as (it' & k & v & l' & E1 & E2 & E3 & E4 & E5 & E6 & E7 & E8); [intros z w Hz; apply Hk; by right|simpl in Hf; lia|].
      exists it', k, v, l'. split; [done|]. split; [done|]. split; [done|]. split; [done|]. split; [done|]. split; [done|].
      split; [simpl; lia|]. intros z Hz. right. by apply E8.
Qed.

Lemma entries_spec m n it l : stands (nodeIt it) n l ->
  (forall x v, x ∈ l -> iValue x = Some v -> exists k, hexToKeybytes (iPath x) = Ok k) ->
  (length l < fuel)%nat -> (length l < m)%nat ->
  exists kvs, entries m it = Ok (kvs, None) /\ Forall2 entry_of (leaves l) kvs.
Proof.
  revert n it l. induction m as [|m IH]; intros n it l Hs Hk Hf Hm; [lia|]. cbn [entries].
  pose proof (Iterator_Next_spec n it l Hs Hk Hf) as H. destruct (leaves l) as [|x xs].
  - destruct H as (it' & -> & He). cbn [rbind]. rewrite He. exists []. by split; [|constructor].
  - destruct H as (it' & k & v & l' & -> & Ek & Ev & He & Hs' & <- & Hl & Hin). cbn [rbind].
    destruct (IH _ _ _ Hs') as (kvs & E & Hkvs); [intros y w Hy; apply Hk; by apply Hin|lia|lia|].
    rewrite E. cbn [rbind]. rewrite Ek, Ev. eexists. split; [done|]. by constructor.
Qed.

End Entries.

(** ** The difference *)

(** What is compared of two items. *)
Definition view (x : item) : bytes * option bytes * Hash := (iPath x, iValue x, iHash x).

Definition cmp_items (x y : item) : comparison :=
  match Compare (iPath x) (iPath y) with
  | Eq =>
      match iValue x, iValue y with
      | Some _, None => Lt
      | None, Some _ => Gt
      | vx, vy =>
          match Compare (iHash x) (iHash y) with
          | Eq => match vx, vy with Some a, Some b => Compare a b | _, _ => Eq end
          | c => c
          end
      end
  | c => c
  end.

Lemma cmp_items_eq x y : cmp_items x y = Eq -> view x = view y.
Proof.
  unfold cmp_items, view. destruct (Compare (iPath x) (iPath y)) eqn:Ep; try done. apply Compare_eq in Ep as ->.
  destruct (iValue x) as [a|], (iValue y) as [b|]; try done; destruct (Compare (iHash x) (iHash y)) eqn:Eh; try done; apply Compare_eq in Eh as ->; try done.
  by intros ->%Compare_eq.
Qed.

Lemma cmp_items_refl x y : view x = view y -> cmp_items x y = Eq.
Proof.
  unfold view. intros [= Ep Ev Eh]. unfold cmp_items. rewrite Ep, Ev, Eh, !Compare_refl. destruct (iValue y); [apply Compare_refl|done].
Qed.

(** At or before. *)
Lemma cmp_items_lt x y z : cmp_items x y = Lt -> behind y z -> behind x z.
Proof.
  unfold cmp_items, behind, before. destruct (Compare (iPath x) (iPath y)) eqn:Ep; try done; intros _; [by apply Compare_eq in Ep as ->|].
  by apply Compare_trans.
Qed.

Lemma cmp_items_gt x y z : cmp_items x y = Gt -> behind x z -> behind y z.
Proof.
  unfold cmp_items, behind, before. destruct (Compare (iPath x) (iPath y)) eqn:Ep; try done; intros _; [by apply Compare_eq in Ep as ->|].
  apply Compare_trans. rewrite Compare_flip, Ep. done.
Qed.

Lemma behind_view x y : behind x y -> view x <> view y.
Proof. unfold behind, view. intros H [= E _ _]. rewrite E in H. by apply before_irrefl in H. Qed.

Section Difference.
Context {I J : Type} `{!NodeIterator I, !NodeIteratorLaws I, !NodeIterator J, !NodeIteratorLaws J}.

Lemma compareNodes_spec (a : I) (b : J) x la y lb : stands a (Some x) la -> stands b (Some y) lb ->
  compareNodes a b = Ok (cmp_items x y).
Proof.
  intros Ha Hb. unfold compareNodes, cmp_items. rewrite (view_path _ _ _ Ha), (view_path _ _ _ Hb). cbn [rbind].
  destruct (Compare (iPath x) (iPath y)); try done. rewrite (view_leaf _ _ _ Ha), (view_leaf _ _ _ Hb). cbn [rbind].
  destruct (iValue x) as [vx|] eqn:Ex, (iValue y) as [vy|] eqn:Ey; simpl; try done;
    rewrite (view_hash _ _ _ Ha), (view_hash _ _ _ Hb); cbn [rbind]; destruct (Compare (iHash x) (iHash y)); try done.
  by rewrite (view_blob _ _ _ _ Ha Ex), (view_blob _ _ _ _ Hb Ey).
Qed.

(** The two lists, the items of the first to be left out of the second: what is
    below an item with a hash that both have is in both. *)
Definition agree (A B : list item) : Prop :=
  forall x y z, x ∈ A -> y ∈ B -> view x = view y -> iHash x <> zeroHash -> z ∈ B -> under (iPath y) z = true -> view z ∈ view <$> A.

(** Where the difference stands: [B] is left of the second list, and of the
    items of [A] those that can still occur there are to come. *)
Definition ready (A : list item) (it : differenceIterator (I := I) (J := J)) (cur : option item) (B : list item) : Prop :=
  stands (dB it) cur B /\
  if eof it then forall y, y ∈ B -> view y ∉ view <$> A
  else exists x la, stands (dA it) (Some x) la /\ (forall z, z ∈ x :: la -> z ∈ A) /\
    forall y, y ∈ B -> view y ∈ view <$> A -> view y ∈ view <$> x :: la.

(** The items that are in [A] are passed over. *)
Fixpoint pass (A : list item) (B : list item) : list item :=
  match B with
  | y :: B' => if decide (view y ∈ view <$> A) then pass A B' else B
  | [] => []
  end.

Lemma pass_app A B1 B2 : (forall y, y ∈ B1 -> view y ∈ view <$> A) -> pass A (B1 ++ B2) = pass A B2.
Proof.
  induction B1 as [|y B1 IH]; intros H; [done|]. simpl. rewrite decide_True by (apply H; by left). apply IH. intros z Hz. apply H. by right.
Qed.

Lemma view_in x (l : list item) : x ∈ l -> view x ∈ view <$> l.
Proof. apply list_elem_of_fmap_2. Qed.

Lemma view_tail y x (l : list item) : view y ∈ view <$> x :: l -> view x <> view y -> view y ∈ view <$> l.
Proof. rewrite fmap_cons, elem_of_cons. intros [E|E] H; [by rewrite E in H|done]. Qed.

(** What a step of the search leaves. *)
Definition searched (A : list item) (B : list item) (r : result (differenceIterator (I := I) (J := J) * bool)) : Prop :=
  match pass A B with
  | [] => exists it', r = Ok (it', false)
  | y :: B' => exists it', r = Ok (it', true) /\ ready A it' (Some y) B'
  end.

(** What is left behind an item, with or without what is below it. *)
Definition rest_of (d : bool) (x : item) (l : list item) : list item := if d then l else skip (iPath x) l.

Lemma rest_of_in d x l y : y ∈ rest_of d x l -> y ∈ l.
Proof. destruct d; [done|apply skip_in]. Qed.

Lemma rest_of_length d x l : (length (rest_of d x l) <= length l)%nat.
Proof. destruct d; [done|apply skip_length]. Qed.

Lemma next_either {K} `{!NodeIterator K, !NodeIteratorLaws K} (d : bool) (it : K) x l : stands it (Some x) l ->
  match rest_of d x l with
  | y :: l' => exists it', Next d it = Ok (it', true) /\ stands it' (Some y) l'
  | [] => exists it', Next d it = Ok (it', false) /\ stands it' None []
  end.
Proof.
  intros H. destruct d; simpl.
  - destruct l as [|y l]; [|by apply (next_more it (Some x))]. destruct (next_end _ _ H) as (it' & E & H' & _). by exists it'.
  - pose proof (next_skip _ _ _ H) as Hn. destruct (skip (iPath x) l); [|done]. destruct Hn as (it' & E & H' & _). by exists it'.
Qed.

(** Going past an item both have. *)
Lemma past_common A B d x la y lb : agree A B -> view x = view y -> (d = false -> iHash x <> zeroHash) ->
  ordered (x :: la) -> ordered (y :: lb) -> (forall z, z ∈ x :: la -> z ∈ A) -> (forall z, z ∈ y :: lb -> z ∈ B) ->
  (forall z, z ∈ y :: lb -> view z ∈ view <$> A -> view z ∈ view <$> x :: la) ->
  pass A (y :: lb) = pass A (rest_of d y lb) /\
  forall z, z ∈ rest_of d y lb -> view z ∈ view <$> A -> view z ∈ view <$> rest_of d x la.
Proof.
  intros Hag Ev Hd Hoa Hob HA HB Hin. assert (HxA : x ∈ A) by (apply HA; by left). assert (HyB : y ∈ B) by (apply HB; by left).
  assert (Hz : forall z, z ∈ lb -> view z ∈ view <$> A -> view z ∈ view <$> la).
  { intros z Hz HzA. apply Hin in HzA; [|by right]. apply view_tail in HzA; [done|]. rewrite Ev. apply behind_view. by eapply ordered_tail. }
  split.
  - change (y :: lb) with ([y] ++ lb). rewrite pass_app by (intros z ->%list_elem_of_singleton; rewrite <-Ev; by apply view_in).
    destruct d; [done|]. simpl. destruct (skip_suffix (iPath y) lb) as (l1 & E & H1). rewrite E at 1. apply pass_app.
    intros z Hz1. apply (Hag x y z); try done; [by apply Hd| |].
    + apply HB. right. rewrite E. apply elem_of_app. by left.
    + by eapply Forall_forall in H1.
  - intros z Hzr HzA. pose proof (Hz z (rest_of_in _ _ _ _ Hzr) HzA) as Hla. destruct d; [done|]. simpl in *.
    destruct (skip_suffix (iPath x) la) as (l1 & E & H1). rewrite E, fmap_app, elem_of_app in Hla. destruct Hla as [Hla|Hla]; [|done].
    apply list_elem_of_fmap in Hla as (w & Ew & Hw). eapply Forall_forall in H1; [|exact Hw]. apply (skip_rest y lb z Hob) in Hzr.
    unfold under in *. unfold view in Ev, Ew. injection Ev as Ep _ _. injection Ew as Ew _ _. rewrite Ew, <-Ep in Hzr. cbn beta in H1. congruence.
Qed.

Lemma diff_loop_spec A B fuel it x la y lb :
  agree A B -> eof it = false -> stands (dA it) (Some x) la -> stands (dB it) (Some y) lb ->
  (forall z, z ∈ x :: la -> z ∈ A) -> (forall z, z ∈ y :: lb -> z ∈ B) ->
  (forall z, z ∈ y :: lb -> view z ∈ view <$> A -> view z ∈ view <$> x :: la) ->
  (length la + length lb < fuel)%nat -> searched A (y :: lb) (diff_loop fuel it).
Proof.
  intros Hag. revert it x la y lb. induction fuel as [|fuel IH]; intros it x la y lb He Ha Hb HA HB Hin Hf; [lia|].
  cbn [diff_loop]. rewrite (compareNodes_spec _ _ _ _ _ _ Ha Hb). cbn [rbind].
  pose proof (stands_ordered _ _ _ Ha) as Hoa. pose proof (stands_ordered _ _ _ Hb) as Hob. simpl in Hoa, Hob.
  destruct (cmp_items x y) eqn:Ec.
  - (* both have the item *)
    rewrite (view_hash _ _ _ Ha). cbn [rbind]. set (d := bool_decide (iHash x = zeroHash)). apply cmp_items_eq in Ec.
    destruct (past_common A B d x la y lb) as [Ep Hr]; try done; [intros Hd; by apply bool_decide_eq_false in Hd|]. unfold searched. rewrite Ep.
    pose proof (next_either d _ _ _ Hb) as Hnb. pose proof (next_either d _ _ _ Ha) as Hna.
    pose proof (rest_of_length d y lb). pose proof (rest_of_length d x la).
    assert (HB' : forall z, z ∈ rest_of d y lb -> z ∈ B) by (intros z Hz; apply HB; right; by eapply rest_of_in).
    assert (HA' : forall z, z ∈ rest_of d x la -> z ∈ A) by (intros z Hz; apply HA; right; by eapply rest_of_in).
    destruct (rest_of d y lb) as [|y' lb']; [destruct Hnb as (b' & -> & _); cbn [rbind]; by eexists|].
    destruct Hnb as (b' & -> & Hb'). cbn [rbind]. destruct (rest_of d x la) as [|x' la'].
    + destruct Hna as (a' & -> & _). cbn [rbind].
      assert (Hnone : forall z, z ∈ y' :: lb' -> view z ∉ view <$> A) by (intros z Hz HzA; by apply (Hr z Hz), not_elem_of_nil in HzA).
      simpl. rewrite decide_False by (apply Hnone; by left). eexists. split; [done|]. split; [exact Hb'|]. simpl. intros z Hz. apply Hnone. by right.
    + destruct Hna as (a' & -> & Ha'). cbn [rbind]. apply (IH _ x' la' y' lb'); try done. simpl in *. lia.
  - (* the first list is behind *)
    assert (Hne : forall z, z ∈ y :: lb -> view x <> view z).
    { intros z [->|Hz]%elem_of_cons; [intros E%cmp_items_refl; congruence|].
      apply behind_view. eapply cmp_items_lt; [exact Ec|]. by eapply ordered_tail. }
    destruct la as [|x' la].
    + destruct (next_end _ _ Ha) as (a' & -> & _). cbn [rbind]. unfold searched. simpl.
      assert (Hnone : forall z, z ∈ y :: lb -> view z ∉ view <$> A).
      { intros z Hz HzA. apply (Hin z Hz) in HzA. apply view_tail in HzA; [by apply not_elem_of_nil in HzA|by apply Hne]. }
      rewrite decide_False by (apply Hnone; by left). eexists. split; [done|]. split; [exact Hb|]. simpl. intros z Hz. apply Hnone. by right.
    + destruct (next_more _ _ _ _ Ha) as (a' & -> & Ha'). cbn [rbind]. apply (IH _ x' la y lb); try done.
      * intros z Hz. apply HA. by right.
      * intros z Hz HzA. eapply view_tail; [by apply Hin|by apply Hne].
      * simpl in Hf. lia.
  - (* the second list is behind *)
    unfold searched. simpl. rewrite decide_False.
    + eexists. split; [done|]. split; [exact Hb|]. rewrite He. exists x, la. split; [done|]. split; [done|].
      intros z Hz. apply Hin. by right.
    + intros Hy. apply Hin in Hy; [|by left]. apply list_elem_of_fmap in Hy as (z & Ez & Hz). apply elem_of_cons in Hz as [->|Hz].
      * symmetry in Ez. apply cmp_items_refl in Ez. congruence.
      * revert Ez. apply behind_view. eapply cmp_items_gt; [exact Ec|]. by eapply ordered_tail.
Qed.

(** All items an iterator delivers. *)
Fixpoint walk {K} {H : NodeIterator K} (n : nat) (it : K) : result (list (bytes * option bytes * Hash)) :=
  match n with
  | O => NoFuel
  | S n =>
      let? (it, more) := Next true it in
      if (more : bool) then
        let? p := Path it in
        let? h := Hash_ it in
        let? leaf := Leaf it in
        let? v := (if (leaf : bool) then (let? v := LeafBlob it in Ok (Some v)) else Ok None) in
        let? l := walk n it in
        Ok ((p, v, h) :: l)
      else Ok []
  end.

#[local] Existing Instance difference_ops.

Lemma pass_in A B y B' : pass A B = y :: B' -> view y ∉ view <$> A /\ (forall z, z ∈ y :: B' -> z ∈ B) /\ (length B' < length B)%nat.
Proof.
  induction B as [|x B IH]; simpl; [done|]. case_decide as Hd.
  - intros H. destruct (IH H) as (H1 & H2 & H3). split; [done|]. split; [intros z Hz; right; by apply H2|lia].
  - intros [= -> ->]. split; [done|]. split; [done|lia].
Qed.

Lemma filter_pass A B : filter (fun y => view y ∉ view <$> A) B = filter (fun y => view y ∉ view <$> A) (pass A B).
Proof.
  induction B as [|x B IH]; simpl; [done|]. rewrite filter_cons. destruct (decide (view x ∈ view <$> A)) as [Hd|Hd].
  - rewrite decide_False by (by intros []). exact IH.
  - rewrite filter_cons. done.
Qed.

Lemma pass_none A B : (forall y, y ∈ B -> view y ∉ view <$> A) -> pass A B = B.
Proof. destruct B as [|y B]; intros H; [done|]. simpl. rewrite decide_False; [done|]. apply H. by left. Qed.

Lemma diff_Next_spec A B0 fuel it cur B : agree A B0 -> ready A it cur B -> (forall z, z ∈ B -> z ∈ B0) ->
  (length A + length B < fuel)%nat -> NoDup A -> searched A B (diff_Next fuel true it).
Proof.
  intros Hag [Hb Hr] HB Hf Hnd. unfold diff_Next. destruct B as [|y B].
  { destruct (next_end _ _ Hb) as (b' & -> & _). cbn [rbind]. unfold searched. simpl. by eexists. }
  destruct (next_more _ _ _ _ Hb) as (b' & -> & Hb'). cbn [rbind eof]. destruct (eof it) eqn:He.
  - unfold searched. rewrite pass_none by done. eexists. split; [done|]. split; [exact Hb'|]. simpl. intros z Hz. apply Hr. by right.
  - destruct Hr as (x & la & Ha & HA & Hin). apply (diff_loop_spec A B0 fuel _ x la y B); try done. simpl in Hf.
    pose proof (ordered_NoDup _ (stands_ordered _ _ _ Ha)) as Hnl. simpl in Hnl.
    pose proof (submseteq_length _ _ (NoDup_submseteq _ _ Hnl HA)) as Hl. simpl in Hl. lia.
Qed.


Lemma walk_spec A B0 fuel n it cur B : agree A B0 -> NoDup A -> ready A it cur B -> (forall z, z ∈ B -> z ∈ B0) ->
  (length A + length B0 < fuel)%nat -> (length B < n)%nat -> (length B <= length B0)%nat ->
  walk (H := difference_ops fuel) n it = Ok (view <$> filter (fun y => view y ∉ view <$> A) B).
Proof.
  intros Hag Hnd. revert it cur B. induction n as [|n IH]; intros it cur B Hr HB Hf Hn Hl; [lia|]. cbn [walk].
  pose proof (diff_Next_spec A B0 fuel it cur B Hag Hr HB ltac:(lia) Hnd) as H. unfold searched in H. rewrite filter_pass.
  change (Next true it) with (diff_Next fuel true it). destruct (pass A B) as [|y B'] eqn:Ep.
  - destruct H as (it' & ->). done.
  - destruct H as (it' & -> & Hr'). cbn [rbind]. destruct (pass_in _ _ _ _ Ep) as (Hy & Hsub & Hlen). pose proof (proj1 Hr') as Hb'.
    change (Path it') with (Path (dB it')). change (Hash_ it') with (Hash_ (dB it')). change (Leaf it') with (Leaf (dB it')).
    change (LeafBlob it') with (LeafBlob (dB it')).
    rewrite (view_path _ _ _ Hb'), (view_hash _ _ _ Hb'), (view_leaf _ _ _ Hb'). cbn [rbind]. rewrite filter_cons_True, fmap_cons by done.
    rewrite (IH _ _ _ Hr'); [|intros z Hz; apply HB, Hsub; by right|done|lia|lia].
    change (view y) with (iPath y, iValue y, iHash y). destruct (iValue y) as [v|] eqn:Ev; simpl; [|done]. by rewrite (view_blob _ _ _ _ Hb' Ev).
Qed.

(** C33: the difference of two iterators delivers exactly the items of the second
    that are not items of the first, in order, although it passes over whole
    subtrees with equal hashes without looking at them; as long as equal hashes
    stand for equal subtrees.  The first iterator has at least one item (a
    trie's root). *)
Theorem difference_exact (a : I) (b : J) (A B : list item) (fuel n : nat) :
  stands a None A -> stands b None B -> A <> [] -> agree A B -> (length A + length B < fuel)%nat -> (length B < n)%nat ->
  exists it, NewDifferenceIterator a b = Ok it /\
    walk (H := difference_ops fuel) n it = Ok (view <$> filter (fun y => view y ∉ view <$> A) B).
Proof.
  intros Ha Hb HA Hag Hf Hn. destruct A as [|x A]; [done|]. unfold NewDifferenceIterator.
  destruct (next_more _ _ _ _ Ha) as (a' & -> & Ha'). cbn [rbind]. eexists. split; [done|].
  eapply (walk_spec (x :: A) B); try done.
  - exact (ordered_NoDup _ (stands_ordered _ _ _ Ha')).
  - split; [exact Hb|]. simpl. by exists x, A.
Qed.

End Difference.

(** *** Iterators over a list *)

Record list_iter := mkListIter { lCur : option item; lRest : list item }.

Definition list_next (d : bool) (it : list_iter) : result (list_iter * bool) :=
  let l := match lCur it with Some x => rest_of d x (lRest it) | None => lRest it end in
  Ok match l with [] => (mkListIter None [], false) | y :: l' => (mkListIter (Some y) l', true) end.

Definition on_cur {A} (f : item -> result A) (it : list_iter) : result A := match lCur it with Some x => f x | None => Panic end.

#[export] Instance list_ops : NodeIterator list_iter := {|
  Next := list_next; Error _ := None;
  Hash_ it := Ok (default zeroHash (iHash <$> lCur it)); Parent it := Ok (default zeroHash (iParent <$> lCur it));
  Path it := Ok (default [] (iPath <$> lCur it)); Leaf it := Ok (bool_decide (is_Some (lCur it ≫= iValue)));
  LeafBlob := on_cur (fun x => match iValue x with Some v => Ok v | None => Panic end);
  LeafKey := on_cur (fun x => hexToKeybytes (iPath x))
|}.

#[export, refine] Instance list_laws : NodeIteratorLaws list_iter := {|
  stands it cur l := lCur it = cur /\ lRest it = l /\ ordered (option_list cur ++ l)
|}.
Proof.
  all: intros [c r] cur; simpl.
  - intros x l (-> & -> & Ho). unfold list_next. simpl. exists (mkListIter (Some x) l).
    split; [by destruct cur|]. split; [done|]. split; [done|]. destruct cur; simpl in Ho; [|done]. by apply StronglySorted_inv in Ho as [? _].
  - intros (-> & -> & _). unfold list_next. exists (mkListIter None []). split; [by destruct cur|]. repeat split. constructor.
  - intros l (-> & -> & Ho). unfold list_next. simpl. destruct (skip (iPath cur) l) as [|y l'] eqn:E; eexists; (split; [done|]); [repeat split; constructor|].
    split; [done|]. split; [done|]. simpl. rewrite <-E. by apply skip_ordered.
  - by intros l (-> & _ & _).
  - by intros l (-> & _ & _).
  - by intros l (-> & _ & _).
  - intros l v (-> & _ & _). unfold on_cur. simpl. by intros ->.
  - by intros l v (-> & _ & _).
  - by intros l (_ & _ & ?).
Defined.

Definition demo_item (p : bytes) (h : Z) : item := mkItem p (replicate 32 h) zeroHash None.
(** Two roots that differ, with one child in common and one that is new. *)
Definition demo_A : list item := [demo_item [] 1; demo_item [2] 7; demo_item [2; 5] 0].
Definition demo_B : list item := [demo_item [] 2; demo_item [2] 7; demo_item [2; 5] 0; demo_item [3] 9].

Lemma demo_ordered : ordered demo_A /\ ordered demo_B.
Proof. split; repeat constructor. Qed.

Lemma difference_exact_witness : exists it,
  NewDifferenceIterator (mkListIter None demo_A) (mkListIter None demo_B) = Ok it /\
  walk (H := difference_ops 20) 20 it = Ok [([], None, replicate 32 2); ([3], None, replicate 32 9)].
Proof.
  destruct (difference_exact (mkListIter None demo_A) (mkListIter None demo_B) demo_A demo_B 20 20) as (it & E & H).
  - split; [reflexivity|]. split; [reflexivity|]. exact (proj1 demo_ordered).
  - split; [reflexivity|]. split; [reflexivity|]. exact (proj2 demo_ordered).
  - discriminate.
  - intros x y z Hx Hy Ev Hz HzB Hu. revert x y z Hx Hy Ev Hz HzB Hu.
    assert (forall x y, x ∈ demo_A -> y ∈ demo_B -> view x = view y -> iHash x <> zeroHash -> iPath y = [2]) as Hxy.
    { intros x y Hx Hy. unfold demo_A, demo_B in *. repeat apply elem_of_cons in Hx as [->|Hx]; try (by apply not_elem_of_nil in Hx);
        repeat apply elem_of_cons in Hy as [->|Hy]; try (by apply not_elem_of_nil in Hy); done. }
    intros x y z Hx Hy Ev Hz HzB. rewrite (Hxy x y Hx Hy Ev Hz). unfold demo_B in HzB.
    repeat apply elem_of_cons in HzB as [->|HzB]; try (by apply not_elem_of_nil in HzB); try done; intros _; unfold demo_A; rewrite !fmap_cons, !elem_of_cons; auto.
  - simpl. lia.
  - simpl. lia.
  - exists it. split; [exact E|]. rewrite H. vm_compute. reflexivity.
Defined.

End TrieIterSpec.
