(* ===== verification/TrieUnion.v ===== *)
(** * Trie: the union of iterators

    The heap of [TrieIter.v] keeps its least element in front; the union of
    iterators delivers the items of all of them, each once, in order
    ([union_exact]). *)

From Stdlib Require Import Lia.
From stdpp Require Import base numbers list sorting.
From S2P Require Import Prelude BigInt Types Keccak TrieNode TrieOps TrieIter TrieIterSpec.
Import Common TrieNode TrieOps TrieIter TrieIterSpec.

#[local] Open Scope Z_scope.
#[local] Open Scope go_scope.

Module TrieUnion.

(** ** Heaps *)

Definition child (i k : nat) : Prop := k = (2 * i + 1)%nat \/ k = (2 * i + 2)%nat.

Section Heap.
Context {A : Type} (less : A -> A -> result bool) (Good : A -> Prop) (R : A -> A -> bool).

(** The comparison never fails on the elements, and is a strict weak order. *)
Hypothesis less_R : forall a b, Good a -> Good b -> less a b = Ok (R a b).
Hypothesis R_asym : forall a b, Good a -> Good b -> R a b = true -> R b a = false.
Hypothesis R_trans : forall a b c, Good a -> Good b -> Good c -> R b a = false -> R c b = false -> R c a = false.

Definition le (a b : A) : Prop := R b a = false.

(** Below [n], the elements from [lo] on are not behind their children. *)
Definition heap_from (lo n : nat) (h : list A) : Prop :=
  forall i k a b, (lo <= i)%nat -> (k < n)%nat -> child i k -> h !! i = Some a -> h !! k = Some b -> le a b.

Lemma Less_ok h i j a b : Forall Good h -> h !! i = Some a -> h !! j = Some b -> Less less h i j = Ok (R a b).
Proof. intros Hg Ha Hb. unfold Less. rewrite Ha, Hb. apply less_R; by eapply Forall_lookup_1. Qed.

Lemma Swap_ok (h : list A) i j a b : i <> j -> h !! i = Some a -> h !! j = Some b -> exists h', Swap h i j = Ok h' /\ h' ≡ₚ h /\
  h' !! i = Some b /\ h' !! j = Some a /\ forall k, k <> i -> k <> j -> h' !! k = h !! k.
Proof.
  intros Hn Ha Hb. unfold Swap. rewrite Ha, Hb. eexists. split; [done|].
  pose proof (lookup_lt_Some _ _ _ Ha). pose proof (lookup_lt_Some _ _ _ Hb). split; [by apply Permutation_insert_swap|].
  split; [rewrite list_lookup_insert_ne, list_lookup_insert_eq by done; done|].
  split; [rewrite list_lookup_insert_eq by (by rewrite length_insert); done|]. intros k H1 H2. by rewrite !list_lookup_insert_ne.
Qed.

Lemma swap_good (h h' : list A) : h' ≡ₚ h -> Forall Good h -> Forall Good h'.
Proof. intros E. by rewrite E. Qed.

(** *** [down] *)

(** Everything from [lo] on is in order but the children of [i]. *)
Definition sinking (lo n i : nat) (h : list A) : Prop :=
  (forall p k a b, (lo <= p)%nat -> p <> i -> (k < n)%nat -> child p k -> h !! p = Some a -> h !! k = Some b -> le a b) /\
  (forall p k a b, (lo <= p)%nat -> child p i -> child i k -> (k < n)%nat -> h !! p = Some a -> h !! k = Some b -> le a b).

(** The smaller child. *)
Lemma smaller_ok h i n : Forall Good h -> (n <= length h)%nat -> (2 * i + 1 < n)%nat ->
  exists s, (if (S (2 * i + 1) <? n)%nat then Less less h (S (2 * i + 1)) (2 * i + 1) else Ok false) = Ok s /\
    let j := if s then S (2 * i + 1) else (2 * i + 1)%nat in
    (j < n)%nat /\ child i j /\ forall k a b, child i k -> (k < n)%nat -> h !! j = Some a -> h !! k = Some b -> le a b.
Proof.
  intros Hg Hn H1. destruct (lookup_lt_is_Some_2 h (2 * i + 1)) as [a1 E1]; [lia|].
  assert (Hrefl : forall k a b, h !! k = Some a -> h !! k = Some b -> le a b).
  { intros k a b Ha Hb. assert (b = a) as -> by congruence. assert (Good a) by (by eapply Forall_lookup_1). unfold le.
    destruct (R a a) eqn:E; [|done]. pose proof E as E'. apply R_asym in E'; [congruence|done|done]. }
  destruct (Nat.ltb_spec (S (2 * i + 1)) n) as [H2|H2].
  - destruct (lookup_lt_is_Some_2 h (S (2 * i + 1))) as [a2 E2]; [lia|]. rewrite (Less_ok _ _ _ _ _ Hg E2 E1). eexists. split; [done|]. cbv zeta.
    assert (Good a1) by (by eapply Forall_lookup_1). assert (Good a2) by (by eapply Forall_lookup_1).
    destruct (R a2 a1) eqn:ER; (split; [lia|]; split; [unfold child; lia|]); intros k a b [->| ->] Hk Ha Hb.
    + replace a with a2 in * by congruence. replace b with a1 in * by congruence. by apply R_asym.
    + by apply (Hrefl (2 * i + 2)%nat); [replace (2 * i + 2)%nat with (S (2 * i + 1)) by lia|].
    + by apply (Hrefl (2 * i + 1)%nat).
    + replace (2 * i + 2)%nat with (S (2 * i + 1)) in Hb by lia. replace a with a1 in * by congruence. replace b with a2 in * by congruence. done.
  - eexists. split; [done|]. cbv zeta. split; [lia|]. split; [unfold child; lia|]. intros k a b [->| ->] Hk Ha Hb; [by apply (Hrefl (2 * i + 1)%nat)|lia].
Qed.

Lemma sinking_swap lo n i j h h' a b : sinking lo n i h -> (lo <= i)%nat -> child i j -> (j < n)%nat ->
  (forall k c, child i k -> (k < n)%nat -> h !! k = Some c -> le b c) -> le b a ->
  h !! i = Some a -> h !! j = Some b -> h' !! i = Some b -> h' !! j = Some a -> (forall k, k <> i -> k <> j -> h' !! k = h !! k) ->
  sinking lo n j h'.
Proof.
  intros [S1 S2] Hlo Hc Hj Hmin Hba Ha Hb Ha' Hb' Hk. split.
  - intros p k x y Hp Hpj Hkn Hpk Hx Hy. destruct (decide (p = i)) as [->|Hpi].
    + rewrite Ha' in Hx. injection Hx as <-. destruct (decide (k = j)) as [->|Hkj]; [rewrite Hb' in Hy; by injection Hy as <-|].
      rewrite Hk in Hy by (unfold child in *; lia). by apply (Hmin k).
    + rewrite Hk in Hx by done. destruct (decide (k = i)) as [->|Hki]; [rewrite Ha' in Hy; injection Hy as <-; by apply (S2 p j)|].
      rewrite Hk in Hy by (unfold child in *; lia). by apply (S1 p k).
  - intros p k x y Hp Hpj Hjk Hkn Hx Hy. assert (p = i) as -> by (unfold child in *; lia). rewrite Ha' in Hx. injection Hx as <-.
    rewrite Hk in Hy by (unfold child in *; lia). apply (S1 j k); try done; unfold child in *; lia.
Qed.

Lemma down_ok lo n fuel : forall h i, Forall Good h -> (n <= length h)%nat -> (n - i < fuel)%nat -> (lo <= i)%nat -> sinking lo n i h ->
  exists h', heap_down less fuel h i n = Ok h' /\ h' ≡ₚ h /\ (forall k, (n <= k)%nat -> h' !! k = h !! k) /\ heap_from lo n h'.
Proof.
  induction fuel as [|fuel IH]; intros h i Hg Hn Hf Hlo Hs; [lia|]. cbn [heap_down]. cbv zeta. destruct (Nat.leb_spec n (2 * i + 1)) as [H1|H1].
  { exists h. split; [done|]. split; [done|]. split; [done|]. intros p k a b Hp Hk Hc. apply (proj1 Hs); [done| |done|done]. unfold child in Hc. lia. }
  destruct (smaller_ok h i n Hg Hn H1) as (s & -> & Hj & Hc & Hmin). cbn [rbind]. set (j := if s then S (2 * i + 1) else (2 * i + 1)%nat) in *.
  destruct (lookup_lt_is_Some_2 h j) as [b Eb]; [lia|]. destruct (lookup_lt_is_Some_2 h i) as [a Ea]; [unfold child in Hc; lia|].
  assert (Good a) by (by eapply Forall_lookup_1). assert (Good b) by (by eapply Forall_lookup_1).
  rewrite (Less_ok _ _ _ _ _ Hg Eb Ea). cbn [rbind]. destruct (R b a) eqn:ER.
  - destruct (Swap_ok h i j a b) as (h1 & -> & P1 & A1 & B1 & K1); [unfold child in Hc; lia|done..|]. cbn [rbind].
    destruct (IH h1 j) as (h' & -> & P' & K' & H'); [by eapply swap_good|by rewrite P1|unfold child in Hc; lia|unfold child in Hc; lia| |].
    { apply (sinking_swap lo n i j h h1 a b); try done; [|by apply R_asym]. intros k c Hck Hkn Ec. by apply (Hmin k). }
    exists h'. split; [done|]. split; [by rewrite P'|]. split; [|done]. intros k Hk. rewrite K' by done. apply K1; unfold child in Hc; lia.
  - exists h. split; [done|]. split; [done|]. split; [done|]. intros p k x y Hp Hk Hpk Hx Hy. destruct (decide (p = i)) as [->|Hpi]; [|by apply (proj1 Hs p k)].
    rewrite Ea in Hx. injection Hx as <-. apply (R_trans a b y); try done; [by eapply Forall_lookup_1|]. by apply (Hmin k).
Qed.

(** *** [up] *)

(** Everything is in order but [j] with its parent. *)
Definition rising (j : nat) (h : list A) : Prop :=
  (forall p k a b, k <> j -> child p k -> h !! p = Some a -> h !! k = Some b -> le a b) /\
  (forall p k a b, child p j -> child j k -> h !! p = Some a -> h !! k = Some b -> le a b).

Lemma rising_swap i j h h' a b : Forall Good h -> rising j h -> child i j -> le b a ->
  h !! i = Some a -> h !! j = Some b -> h' !! i = Some b -> h' !! j = Some a -> (forall k, k <> i -> k <> j -> h' !! k = h !! k) -> rising i h'.
Proof.
  intros Hg [S1 S2] Hc Hba Ha Hb Ha' Hb' Hk.
  assert (Ht : forall x c, le x a -> le a c -> x ∈ h -> c ∈ h -> le x c).
  { intros x c H1 H2 Hx Hcc. rewrite Forall_forall in Hg. apply (R_trans x a c); auto. apply Hg. by eapply list_elem_of_lookup_2. }
  split.
  - intros p k x y Hki Hpk Hx Hy. destruct (decide (k = j)) as [->|Hkj].
    + assert (p = i) as -> by (unfold child in *; lia). congruence.
    + rewrite Hk in Hy by done. destruct (decide (p = i)) as [->|Hpi].
      { rewrite Ha' in Hx. injection Hx as <-. apply Ht; [done|by apply (S1 i k)|by eapply list_elem_of_lookup_2..]. }
      destruct (decide (p = j)) as [->|Hpj]; [|rewrite Hk in Hx by done; by apply (S1 p k)].
      rewrite Hb' in Hx. injection Hx as <-. by apply (S2 i k).
  - intros p k x y Hpi Hik Hx Hy. rewrite Hk in Hx by (unfold child in *; lia).
    assert (Hxa : le x a) by (apply (S1 p i); try done; unfold child in *; lia).
    destruct (decide (k = j)) as [->|Hkj]; [congruence|]. rewrite Hk in Hy by (unfold child in *; lia).
    apply Ht; [done|by apply (S1 i k)|by eapply list_elem_of_lookup_2..].
Qed.

Lemma up_ok fuel : forall h j, Forall Good h -> (j < fuel)%nat -> (j < length h)%nat -> rising j h ->
  exists h', heap_up less fuel h j = Ok h' /\ h' ≡ₚ h /\ heap_from 0 (length h') h'.
Proof.
  induction fuel as [|fuel IH]; intros h j Hg Hf Hj Hr; [lia|]. cbn [heap_up]. cbv zeta.
  destruct (Nat.eqb_spec ((j - 1) / 2) j) as [E|E].
  { exists h. split; [done|]. split; [done|]. intros p k a b _ _ Hc. apply (proj1 Hr); [|done].
    assert (j = 0%nat) as -> by (destruct j; [done|]; pose proof (Nat.Div0.div_le_upper_bound (S j - 1) 2 j ltac:(lia)); lia). unfold child in Hc. lia. }
  set (i := ((j - 1) / 2)%nat) in *. assert (Hc : child i j).
  { unfold child. pose proof (Nat.div_mod_eq (j - 1) 2). pose proof (Nat.mod_upper_bound (j - 1) 2 ltac:(lia)). fold i in H. destruct j; [done|]. lia. }
  destruct (lookup_lt_is_Some_2 h j Hj) as [b Eb]. destruct (lookup_lt_is_Some_2 h i) as [a Ea]; [unfold child in Hc; lia|].
  assert (Good a) by (by eapply Forall_lookup_1). assert (Good b) by (by eapply Forall_lookup_1).
  rewrite (Less_ok _ _ _ _ _ Hg Eb Ea). cbn [rbind]. destruct (R b a) eqn:ER.
  - destruct (Swap_ok h i j a b) as (h1 & -> & P1 & A1 & B1 & K1); [done..|]. cbn [rbind].
    destruct (IH h1 i) as (h' & -> & P' & H'); [by eapply swap_good|unfold child in Hc; lia|rewrite P1; unfold child in Hc; lia| |].
    { apply (rising_swap i j h h1 a b); try done. by apply R_asym. }
    exists h'. split; [done|]. split; [by rewrite P'|done].
  - exists h. split; [done|]. split; [done|]. intros p k x y _ _ Hpk Hx Hy. destruct (decide (k = j)) as [->|Hkj]; [|by apply (proj1 Hr p k)].
    assert (p = i) as -> by (unfold child in *; lia). by replace x with a by congruence; replace y with b by congruence.
Qed.

(** *** The operations *)

Definition is_heap (h : list A) : Prop := Forall Good h /\ heap_from 0 (length h) h.

Lemma heap_least a h b : is_heap (a :: h) -> b ∈ a :: h -> le a b.
Proof.
  intros [Hg Hh] Hb. apply list_elem_of_lookup_1 in Hb as [k Hk]. revert b Hk. induction k as [k IH] using lt_wf_ind. intros b Hk.
  assert (Good a) by (by apply Forall_cons in Hg as [? _]). assert (Good b) by (by eapply Forall_lookup_1). destruct k as [|k].
  - injection Hk as ->. unfold le. destruct (R b b) eqn:E; [|done]. pose proof E as E'. apply R_asym in E'; [congruence|done|done].
  - assert (Hc : child (k / 2) (S k)) by (unfold child; pose proof (Nat.div_mod_eq k 2); pose proof (Nat.mod_upper_bound k 2 ltac:(lia)); lia).
    pose proof (lookup_lt_Some _ _ _ Hk). destruct (lookup_lt_is_Some_2 (a :: h) (k / 2)) as [c Ec]; [unfold child in Hc; lia|].
    apply (R_trans a c b); [done|by eapply Forall_lookup_1|done| |].
    + apply (IH (k / 2)%nat); [unfold child in Hc; lia|done].
    + by apply (Hh (k / 2)%nat (S k)); [lia|..].
Qed.

Lemma heap_Push_ok h x : is_heap h -> Good x -> exists h', heap_Push less h x = Ok h' /\ h' ≡ₚ x :: h /\ is_heap h'.
Proof.
  intros [Hg Hh] Hx. unfold heap_Push. assert (Hg' : Forall Good (h ++ [x])) by (apply Forall_app; split; [done|by apply Forall_singleton]).
  destruct (up_ok (S (length h)) (h ++ [x]) (length h) Hg') as (h' & -> & P & H); [lia|rewrite length_app; simpl; lia| |].
  - split.
    + intros p k a b Hk Hc Ha Hb. pose proof (lookup_lt_Some _ _ _ Hb) as Hl. rewrite length_app in Hl. simpl in Hl.
      rewrite lookup_app_l in Ha by (unfold child in Hc; lia). rewrite lookup_app_l in Hb by lia. apply (Hh p k); [lia|lia|done..].
    + intros p k a b _ Hc _ Hb. pose proof (lookup_lt_Some _ _ _ Hb) as Hl. rewrite length_app in Hl. simpl in Hl. unfold child in Hc. lia.
  - exists h'. split; [done|]. split; [by rewrite P, Permutation_app_comm|]. split; [by rewrite P|done].
Qed.

Lemma heap_Pop_ok x t : is_heap (x :: t) -> exists h', heap_Pop less (x :: t) = Ok (x, h') /\ h' ≡ₚ t /\ is_heap h'.
Proof.
  intros [Hg Hh]. unfold heap_Pop. cbn [length]. set (n := length t). destruct (decide (n = 0%nat)) as [Hn|Hn].
  { apply length_zero_iff_nil in Hn as ->. exists []. split; [done|]. split; [done|]. split; [done|]. intros i k a b _ Hk. simpl in Hk. lia. }
  destruct (lookup_lt_is_Some_2 (x :: t) n) as [y Ey]; [simpl; unfold n; lia|].
  destruct (Swap_ok (x :: t) 0 n x y) as (h1 & -> & P1 & A1 & B1 & K1); [lia|done..|]. cbn [rbind].
  assert (Hl1 : length h1 = S n) by (rewrite P1; done).
  destruct (down_ok 0 n (S n) h1 0) as (h2 & -> & P2 & K2 & H2); [by rewrite P1|lia|lia|lia| |].
  { split; [|intros p k a b _ Hc; unfold child in Hc; lia]. intros p k a b _ Hp Hk Hc Ha Hb. pose proof (lookup_lt_Some _ _ _ Hb).
    rewrite K1 in Ha by (unfold child in Hc; lia). rewrite K1 in Hb by (unfold child in Hc; lia). apply (Hh p k); [lia|simpl; lia|done..]. }
  cbn [rbind]. rewrite K2, B1 by lia. assert (Hl2 : length h2 = S n) by (by rewrite P2). exists (take n h2). split; [done|].
  assert (E : h2 = take n h2 ++ [x]).
  { rewrite <-(take_drop n h2) at 1. f_equal. apply list_eq. intros [|i]; rewrite lookup_drop; [rewrite Nat.add_0_r, K2, B1 by lia; done|].
    simpl. rewrite lookup_ge_None_2 by lia. done. }
  assert (P : take n h2 ≡ₚ t) by (apply (Permutation_cons_inv (a := x)); transitivity h2; [rewrite E at 2; apply Permutation_cons_append|by rewrite P2]).
  split; [done|]. split; [rewrite P; by apply Forall_cons in Hg as [_ ?]|]. intros i k a b _ Hk Hc Ha Hb. rewrite length_take in Hk.
  rewrite lookup_take_lt in Ha by (unfold child in Hc; lia). rewrite lookup_take_lt in Hb by lia. apply (H2 i k); [lia|lia|done..].
Qed.

Lemma heap_Init_loop_ok i : forall h, Forall Good h -> heap_from i (length h) h ->
  exists h', heap_Init_loop less i (length h) h = Ok h' /\ h' ≡ₚ h /\ is_heap h'.
Proof.
  induction i as [|i IH]; intros h Hg Hh; [exists h; done|]. cbn [heap_Init_loop].
  destruct (down_ok i (length h) (S (length h)) h i Hg) as (h1 & -> & P1 & _ & H1); [lia..| |].
  { split; [|intros p k a b Hp Hc; unfold child in Hc; lia]. intros p k a b Hp Hne. apply Hh. lia. }
  cbn [rbind]. assert (Hl : length h1 = length h) by (by rewrite P1). rewrite <-Hl in *.
  destruct (IH h1) as (h' & -> & P' & H'); [by rewrite P1|done|]. exists h'. split; [done|]. split; [by rewrite P'|done].
Qed.

Lemma heap_Init_ok h : Forall Good h -> exists h', heap_Init less h = Ok h' /\ h' ≡ₚ h /\ is_heap h'.
Proof.
  intros Hg. apply heap_Init_loop_ok; [done|]. intros i k a b Hi Hk Hc. exfalso.
  pose proof (Nat.div_mod_eq (length h) 2). pose proof (Nat.mod_upper_bound (length h) 2 ltac:(lia)). unfold child in Hc. lia.
Qed.

End Heap.

(** ** The order of items *)

#[local] Instance item_eq_dec : EqDecision item.
Proof. solve_decision. Defined.

Definition clt (x y : item) : Prop := cmp_items x y = Lt.

Lemma cmp_items_flip x y : cmp_items y x = CompOpp (cmp_items x y).
Proof.
  unfold cmp_items. rewrite (Compare_flip (iPath x) (iPath y)). destruct (Compare (iPath x) (iPath y)); try done.
  destruct (iValue x), (iValue y); try done; rewrite (Compare_flip (iHash x) (iHash y)); destruct (Compare (iHash x) (iHash y)); try done.
  apply Compare_flip.
Qed.

Lemma cmp_items_view x x' y : view x = view x' -> cmp_items x y = cmp_items x' y.
Proof. unfold view. intros [= Ep Ev Eh]. unfold cmp_items. by rewrite Ep, Ev, Eh. Qed.

(** First by one comparison, then by another. *)
Lemma lex_trans (a b c : bytes) u v w : (u = Lt -> v = Lt -> w = Lt) ->
  match Compare a b with Eq => u | o => o end = Lt -> match Compare b c with Eq => v | o => o end = Lt -> match Compare a c with Eq => w | o => o end = Lt.
Proof.
  intros H. destruct (Compare a b) eqn:Eab; try done.
  - apply Compare_eq in Eab as ->. by destruct (Compare b c); auto.
  - intros _. destruct (Compare b c) eqn:Ebc; try done; intros _; [apply Compare_eq in Ebc as <-; by rewrite Eab|]. by rewrite (Compare_trans _ _ _ Eab Ebc).
Qed.

#[local] Instance clt_trans : Transitive clt.
Proof.
  intros x y z. unfold clt, cmp_items. apply lex_trans.
  destruct (iValue x) as [a|], (iValue y) as [b|], (iValue z) as [c|]; try done; apply lex_trans; [apply Compare_trans|done].
Qed.

Lemma clt_irrefl x : ~ clt x x.
Proof. unfold clt. by rewrite (cmp_items_refl x x). Qed.

Lemma clt_path x y : clt x y -> ~ before (iPath y) (iPath x).
Proof. unfold clt, cmp_items, before. rewrite (Compare_flip (iPath x) (iPath y)). destruct (Compare (iPath x) (iPath y)); done. Qed.

Lemma behind_clt x y : behind x y -> clt x y.
Proof. unfold behind, before, clt, cmp_items. by intros ->. Qed.

Definition csorted (l : list item) : Prop := StronglySorted clt l.

Lemma ordered_csorted l : ordered l -> csorted l.
Proof. induction 1 as [|x l _ IH Hx]; constructor; [done|]. eapply Forall_impl; [exact Hx|]. apply behind_clt. Qed.

Lemma cmp_le_trans x y z : cmp_items y x <> Lt -> cmp_items z y <> Lt -> cmp_items z x <> Lt.
Proof.
  rewrite (cmp_items_flip x y), (cmp_items_flip y z), (cmp_items_flip x z). intros H1 H2.
  destruct (cmp_items x y) eqn:E1, (cmp_items y z) eqn:E2; try done.
  - apply cmp_items_eq in E1. by rewrite (cmp_items_view _ _ z E1), E2.
  - apply cmp_items_eq in E1. by rewrite (cmp_items_view _ _ z E1), E2.
  - apply cmp_items_eq in E2. rewrite (cmp_items_flip z x), (cmp_items_view z y x), (cmp_items_flip x y), E1; done.
  - assert (cmp_items x z = Lt) as ->; [|done]. by apply (clt_trans x y z).
Qed.

(** ** The union *)

Section Union.
Context {I : Type} `{!NodeIterator I, !NodeIteratorLaws I}.

(** Where an iterator is before its first step. *)
Definition start_item : item := mkItem [] zeroHash zeroHash None.

Definition fresh (a : I) (l : list item) : Prop :=
  stands a None l /\ Path a = Ok [] /\ Hash_ a = Ok zeroHash /\ Leaf a = Ok false.

Definition at_item (a : I) (x : item) (l : list item) : Prop := stands a (Some x) l \/ x = start_item /\ fresh a l.

Lemma at_views a x l : at_item a x l -> Path a = Ok (iPath x) /\ Hash_ a = Ok (iHash x) /\ Leaf a = Ok (bool_decide (is_Some (iValue x))) /\
  forall v, iValue x = Some v -> LeafBlob a = Ok v.
Proof.
  intros [H|[-> (H & -> & -> & ->)]]; [|done].
  rewrite (view_path _ _ _ H), (view_hash _ _ _ H), (view_leaf _ _ _ H). do 3 (split; [done|]). intros v. by apply (view_blob _ _ _ _ H).
Qed.

Lemma compare_at a b x l y m : at_item a x l -> at_item b y m -> compareNodes a b = Ok (cmp_items x y).
Proof.
  intros (Pa & Ha & La & Ba)%at_views (Pb & Hb & Lb & Bb)%at_views. unfold compareNodes, cmp_items. rewrite Pa, Pb. cbn [rbind].
  destruct (Compare (iPath x) (iPath y)); try done. rewrite La, Lb. cbn [rbind].
  destruct (iValue x) as [vx|], (iValue y) as [vy|]; simpl; try done; rewrite Ha, Hb; cbn [rbind]; destruct (Compare (iHash x) (iHash y)); try done.
  by rewrite (Ba vx), (Bb vy).
Qed.

Lemma next_at (d : bool) a x l : at_item a x l -> (d = false -> iHash x <> zeroHash) ->
  match rest_of d x l with
  | y :: l' => exists a', Next d a = Ok (a', true) /\ at_item a' y l'
  | [] => exists a', Next d a = Ok (a', false)
  end.
Proof.
  intros [H|[-> (H & _)]] Hd.
  - pose proof (next_either d a x l H) as Hn. destruct (rest_of d x l); destruct Hn as (a' & E & H'); exists a'; [done|]. split; [done|by left].
  - destruct d; [|by destruct (Hd eq_refl)]. simpl. destruct l as [|y l].
    + destruct (next_end _ _ H) as (a' & E & _). by exists a'.
    + destruct (next_more _ _ _ _ H) as (a' & E & H'). exists a'. split; [done|by left].
Qed.

(** A source: an iterator, all its items, the one it stands on and those to come. *)
Record source := mkSource { it_ : I; all : list item; cur : item; rest : list item }.

Definition source_ok (e : source) : Prop :=
  at_item (it_ e) (cur e) (rest e) /\ csorted (all e) /\ exists pre, all e = pre ++ cur e :: rest e.

Definition Good (a : I) : Prop := exists x l, at_item a x l.
Definition R (a b : I) : bool := match compareNodes a b with Ok Lt => true | _ => false end.

Lemma R_at a b x l y m : at_item a x l -> at_item b y m -> R a b = true <-> clt x y.
Proof. intros Ha Hb. unfold R, clt. rewrite (compare_at _ _ _ _ _ _ Ha Hb). by destruct (cmp_items x y). Qed.

Lemma R_false a b x l y m : at_item a x l -> at_item b y m -> R a b = false <-> cmp_items x y <> Lt.
Proof. intros Ha Hb. unfold R. rewrite (compare_at _ _ _ _ _ _ Ha Hb). by destruct (cmp_items x y). Qed.

Lemma node_less_R a b : Good a -> Good b -> node_less a b = Ok (R a b).
Proof. intros (x & l & Ha) (y & m & Hb). unfold node_less, R. rewrite (compare_at _ _ _ _ _ _ Ha Hb). by destruct (cmp_items x y). Qed.

Lemma R_asym a b : Good a -> Good b -> R a b = true -> R b a = false.
Proof.
  intros (x & l & Ha) (y & m & Hb) H%(R_at _ _ _ _ _ _ Ha Hb). apply (R_false _ _ _ _ _ _ Hb Ha). unfold clt in H. by rewrite cmp_items_flip, H.
Qed.

Lemma R_trans a b c : Good a -> Good b -> Good c -> R b a = false -> R c b = false -> R c a = false.
Proof.
  intros (x & l & Ha) (y & m & Hb) (z & n & Hc). rewrite (R_false _ _ _ _ _ _ Hb Ha), (R_false _ _ _ _ _ _ Hc Hb), (R_false _ _ _ _ _ _ Hc Ha).
  apply cmp_le_trans.
Qed.

(** The sources of a heap. *)
Definition holds (P : list source) (h : list I) : Prop := h = it_ <$> P /\ Forall source_ok P /\ is_heap Good R h.

Lemma good_sources P : Forall source_ok P -> Forall Good (it_ <$> P).
Proof. intros H. apply Forall_fmap. eapply Forall_impl; [exact H|]. intros e (Ha & _). by exists (cur e), (rest e). Qed.

Lemma holds_perm P h' : Forall source_ok P -> h' ≡ₚ it_ <$> P -> is_heap Good R h' -> exists P', P' ≡ₚ P /\ holds P' h'.
Proof.
  intros Hp E Hh. destruct (Permutation_map_inv it_ P E) as (P' & -> & EP). exists P'. split; [by rewrite EP|].
  split; [done|]. split; [by rewrite <-EP|done].
Qed.

Lemma pop_source e P h : holds (e :: P) h -> exists P' h', heap_Pop node_less h = Ok (it_ e, h') /\ P' ≡ₚ P /\ holds P' h' /\
  forall e', e' ∈ P' -> cmp_items (cur e') (cur e) <> Lt.
Proof.
  intros (-> & Hp & Hh). apply Forall_cons in Hp as [He Hp]. rewrite fmap_cons in *.
  destruct (heap_Pop_ok node_less Good R node_less_R R_asym R_trans _ _ Hh) as (h' & -> & E' & Hh').
  destruct (holds_perm P h' Hp E' Hh') as (P' & EP & HP'). exists P', h'. split; [done|]. split; [done|]. split; [done|].
  intros e' He'. rewrite EP in He'. assert (Hin : it_ e' ∈ it_ e :: (it_ <$> P)) by (right; by apply list_elem_of_fmap_2).
  apply (heap_least Good R R_asym R_trans _ _ _ Hh) in Hin. apply (R_false (it_ e') (it_ e) (cur e') (rest e') (cur e) (rest e)); [|apply He|done].
  eapply Forall_forall in Hp; [apply Hp|done].
Qed.

Lemma push_source P h e : holds P h -> source_ok e -> exists h' P', heap_Push node_less h (it_ e) = Ok h' /\ P' ≡ₚ e :: P /\ holds P' h'.
Proof.
  intros (-> & Hp & Hh) He. destruct (heap_Push_ok node_less Good R node_less_R R_asym R_trans _ (it_ e) Hh) as (h' & -> & E & Hh').
  { exists (cur e), (rest e). apply He. }
  destruct (holds_perm (e :: P) h') as (P' & EP & HP'); [by constructor|done|done|]. by exists h', P'.
Qed.

(** *** Moving on *)

Definition views (e : source) := view <$> cur e :: rest e.
Definition shows (P : list source) v : Prop := exists e, e ∈ P /\ v ∈ views e.
Definition total (P : list source) : nat := sum_list_with (fun e => S (length (rest e))) P.

Lemma shows_cons e P v : shows (e :: P) v <-> v ∈ views e \/ shows P v.
Proof.
  split; [intros (x & [->|Hx]%elem_of_cons & Hv); [by left|right; by exists x]|]. intros [Hv|(x & Hx & Hv)]; [exists e|exists x]; (split; [|done]); [by left|by right].
Qed.

Lemma shows_perm P P' v : P ≡ₚ P' -> shows P v <-> shows P' v.
Proof. intros E. unfold shows. split; intros (e & He & Hv); exists e; (split; [|done]); [by rewrite <-E|by rewrite E]. Qed.

Lemma total_perm P P' : P ≡ₚ P' -> total P = total P'.
Proof. intros E. unfold total. by rewrite E. Qed.

Lemma rest_after e z : source_ok e -> z ∈ rest e -> clt (cur e) z.
Proof.
  intros (_ & Hs & pre & E) Hz. rewrite E in Hs. apply StronglySorted_app_1_r in Hs. apply StronglySorted_inv in Hs as [_ Hs]. by eapply Forall_forall in Hs.
Qed.

Lemma move_source (d : bool) e : source_ok e -> (d = false -> iHash (cur e) <> zeroHash) ->
  (exists e', Next d (it_ e) = Ok (it_ e', true) /\ source_ok e' /\ all e' = all e /\ cur e' :: rest e' = rest_of d (cur e) (rest e)) \/
  (exists a, Next d (it_ e) = Ok (a, false) /\ rest_of d (cur e) (rest e) = []).
Proof.
  intros (Ha & Hs & pre & E) Hd. pose proof (next_at d _ _ _ Ha Hd) as Hn. destruct (rest_of d (cur e) (rest e)) as [|y l] eqn:Er; [right; naive_solver|].
  left. destruct Hn as (a' & En & Ha'). exists (mkSource a' (all e) y l). split; [done|]. split; [|done]. split; [done|]. split; [done|]. simpl.
  assert (exists l1, rest e = l1 ++ y :: l) as [l1 E1].
  { destruct d; simpl in Er; [by exists []|]. destruct (skip_suffix (iPath (cur e)) (rest e)) as (l1 & E1 & _). exists l1. by rewrite E1, Er. }
  exists (pre ++ cur e :: l1). rewrite E, E1. by rewrite <-app_assoc.
Qed.

(** What is skipped with an item that the least source has too, the least source
    still has to deliver. *)
Lemma skipped_shown e0 e z : source_ok e0 -> source_ok e -> agree (all e0) (all e) -> cmp_items (cur e0) (cur e) = Eq ->
  let d := bool_decide (iHash (cur e) = zeroHash) in
  z ∈ cur e :: rest e -> z ∉ rest_of d (cur e) (rest e) -> view z ∈ views e0.
Proof.
  intros He0 He Hag Ev%cmp_items_eq d Hz Hnin. apply elem_of_cons in Hz as [->|Hz]; [unfold views; rewrite <-Ev; by left|]. unfold d in Hnin.
  case_bool_decide as Hh; [done|]. simpl in Hnin. destruct He as (Ha & _ & pre & E). destruct Ha as [Hst|[Hc _]]; [|by rewrite Hc in Hh].
  assert (Hb : before (iPath (cur e)) (iPath z)) by (apply stands_ordered in Hst; by apply (ordered_tail _ _ _ Hst)).
  assert (Hu : under (iPath (cur e)) z = true).
  { destruct (skip_suffix (iPath (cur e)) (rest e)) as (l1 & E1 & H1). rewrite E1 in Hz. apply elem_of_app in Hz as [Hz|Hz]; [|done]. by eapply Forall_forall in H1. }
  destruct He0 as (_ & Hs0 & pre0 & E0). destruct (proj1 (list_elem_of_fmap _ _ _) (Hag (cur e0) (cur e) z
    ltac:(rewrite E0; apply elem_of_app; right; by left) ltac:(rewrite E; apply elem_of_app; right; by left) Ev ltac:(unfold view in Ev; congruence)
    ltac:(rewrite E; apply elem_of_app; right; by right) Hu)) as (w & Ew & Hw).
  unfold views. rewrite Ew. apply list_elem_of_fmap_2. assert (Hbw : before (iPath (cur e0)) (iPath w)) by (unfold view in Ev, Ew; congruence).
  rewrite E0 in Hw, Hs0. apply elem_of_app in Hw as [Hw|Hw]; [|done]. exfalso. apply (clt_path w (cur e0)); [|done].
  eapply (StronglySorted_app_1_elem_of _ _ _ _ _ Hs0); [done|by left].
Qed.

(** What passing over the items equal to that of [e0] leaves of the others. *)
Definition passed (e0 : source) (P P' : list source) : Prop :=
  (forall e, e ∈ P' -> clt (cur e0) (cur e)) /\ (forall e', e' ∈ P' -> exists e, e ∈ P /\ all e' = all e) /\
  (forall v, shows P v -> shows P' v \/ v ∈ views e0) /\ (forall v, shows P' v -> shows P v) /\ (total P' <= total P)%nat.

(** One source moved on, or was dropped; the rest is left to do. *)
Lemma passed_step e0 e P0 Q P' : source_ok e0 -> source_ok e -> agree (all e0) (all e) -> cmp_items (cur e0) (cur e) = Eq ->
  let d := bool_decide (iHash (cur e) = zeroHash) in
  (Q ≡ₚ P0 /\ rest_of d (cur e) (rest e) = [] \/
   exists e', Q ≡ₚ e' :: P0 /\ all e' = all e /\ cur e' :: rest e' = rest_of d (cur e) (rest e)) ->
  passed e0 Q P' -> passed e0 (e :: P0) P'.
Proof.
  intros He0 He Hag Ec d HQ (H1 & H2 & H3 & H4 & H5).
  assert (Hsk : forall v, v ∈ views e -> v ∈ view <$> rest_of d (cur e) (rest e) \/ v ∈ views e0).
  { intros v (z & -> & Hz)%list_elem_of_fmap. destruct (decide (z ∈ rest_of d (cur e) (rest e))) as [Hin|Hin]; [left; by apply list_elem_of_fmap_2|].
    right. by apply (skipped_shown e0 e z). }
  assert (Hback : forall v, v ∈ view <$> rest_of d (cur e) (rest e) -> v ∈ views e).
  { intros v (z & -> & Hz)%list_elem_of_fmap. apply list_elem_of_fmap_2. right. by eapply rest_of_in. }
  pose proof (rest_of_length d (cur e) (rest e)) as Hlen.
  assert (HQs : forall v, shows Q v <-> v ∈ view <$> rest_of d (cur e) (rest e) \/ shows P0 v).
  { intros v. destruct HQ as [[EQ ->]|(e' & EQ & _ & <-)]; rewrite (shows_perm _ _ v EQ); [|by rewrite shows_cons]. split; [by right|]. by intros [?%not_elem_of_nil|]. }
  assert (HQt : (total Q <= total (e :: P0))%nat).
  { destruct HQ as [[EQ _]|(e' & EQ & _ & Er)]; rewrite (total_perm _ _ EQ); unfold total; simpl; [lia|]. rewrite <-Er in Hlen. simpl in Hlen. lia. }
  split; [done|]. split; [|split; [|split; [|lia]]].
  - intros x (y & Hy & ->)%H2. destruct HQ as [[EQ _]|(e' & EQ & Ea & _)]; rewrite EQ in Hy; [exists y; split; [by right|done]|].
    apply elem_of_cons in Hy as [->|Hy]; [exists e; split; [by left|done]|exists y; split; [by right|done]].
  - intros v [Hv|Hv]%shows_cons; [|apply H3, HQs; by right]. destruct (Hsk v Hv) as [Hv'|]; [|by right]. apply H3, HQs. by left.
  - intros v [Hv|Hv]%H4%HQs; apply shows_cons; [left; by apply Hback|by right].
Qed.

(** What is not before [x] and the next source's item. *)
Lemma moved_after e0 e z : source_ok e -> cmp_items (cur e0) (cur e) = Eq -> z ∈ rest e -> cmp_items z (cur e0) <> Lt.
Proof.
  intros He Ec Hz Hl. apply (rest_after e z He) in Hz. assert (clt (cur e) (cur e0)) as H by (by transitivity z).
  unfold clt in H. by rewrite cmp_items_flip, Ec in H.
Qed.

Lemma union_skip_ok fuel : forall P it e0, holds P (items it) -> source_ok e0 -> (forall e, e ∈ P -> agree (all e0) (all e)) ->
  (forall e, e ∈ P -> cmp_items (cur e) (cur e0) <> Lt) -> (total P < fuel)%nat ->
  exists it' P', union_skip fuel true (it_ e0) it = Ok it' /\ holds P' (items it') /\ passed e0 P P'.
Proof.
  induction fuel as [|fuel IH]; intros P it e0 Hh He0 Hag Hle Hf; [lia|]. cbn [union_skip]. pose proof Hh as (E & Hp & Hheap). destruct P as [|e P].
  { rewrite E. exists it, []. split; [done|]. split; [done|]. split; [by intros e ?%not_elem_of_nil|]. split; [by intros e ?%not_elem_of_nil|].
    split; [by left|]. by split. }
  rewrite E. cbn [fmap list_fmap]. apply Forall_cons in Hp as [He Hp]. unfold skippable. cbn [rbind]. rewrite (compare_at _ _ _ _ _ _ (proj1 He0) (proj1 He)). cbn [rbind].
  destruct (cmp_items (cur e0) (cur e)) eqn:Ec; cycle 1.
  - exists it, (e :: P). split; [done|]. split; [done|]. split; [|split; [naive_solver|]; split; [by left|]; by split]. intros e' He'.
    destruct (cmp_items (cur e0) (cur e')) eqn:Ec'; try done; exfalso.
    + apply cmp_items_eq in Ec'. apply elem_of_cons in He' as [->|He']; [by apply cmp_items_refl in Ec'; congruence|].
      destruct (pop_source e P (items it) Hh) as (P1 & h1 & _ & EP & _ & Hmin). rewrite <-EP in He'. apply (Hmin e' He').
      rewrite (cmp_items_view _ (cur e0)) by done. done.
    + apply (Hle e' He'). by rewrite cmp_items_flip, Ec'.
  - exfalso. apply (Hle e); [by left|]. by rewrite cmp_items_flip, Ec.
  - destruct (pop_source e P _ Hh) as (P1 & h1 & E1 & EP & H1 & _). rewrite E in E1. cbn [fmap list_fmap] in E1. rewrite E1. cbn [rbind].
    destruct (at_views _ _ _ (proj1 He)) as (_ & -> & _). cbn [rbind]. set (d := bool_decide (iHash (cur e) = zeroHash)).
    assert (Hsub : forall x, x ∈ P1 -> x ∈ e :: P) by (intros x Hx; right; by rewrite <-EP).
    assert (Hstep : forall Q it1, holds Q (items it1) -> (Q ≡ₚ P /\ rest_of d (cur e) (rest e) = [] \/
      exists e', Q ≡ₚ e' :: P /\ all e' = all e /\ cur e' :: rest e' = rest_of d (cur e) (rest e)) ->
      exists it' P', union_skip fuel true (it_ e0) it1 = Ok it' /\ holds P' (items it') /\ passed e0 (e :: P) P').
    { intros Q it1 HQ HD. destruct (IH Q it1 e0 HQ He0) as (it' & P' & Es & HP' & Hps).
      - intros x Hx. destruct HD as [[EQ _]|(e' & EQ & Ea & _)]; rewrite EQ in Hx; [apply Hag; by right|].
        apply elem_of_cons in Hx as [->|Hx]; [rewrite Ea; apply Hag; by left|apply Hag; by right].
      - intros x Hx. destruct HD as [[EQ _]|(e' & EQ & _ & Er)]; rewrite EQ in Hx; [apply Hle; by right|].
        apply elem_of_cons in Hx as [->|Hx]; [|apply Hle; by right]. apply (moved_after e0 e); [done..|]. eapply rest_of_in. rewrite <-Er. by left.
      - pose proof (rest_of_length d (cur e) (rest e)) as Hlen. unfold total in Hf. simpl in Hf.
        destruct HD as [[EQ _]|(e' & EQ & _ & Er)]; rewrite (total_perm _ _ EQ); unfold total; simpl; [lia|]. rewrite <-Er in Hlen. simpl in Hlen. lia.
      - exists it', P'. split; [done|]. split; [done|]. by apply (passed_step e0 e P Q P'); [..|apply Hag; left| | |]. }
    destruct (move_source d e He) as [(e' & -> & He' & Ea & Er)|(a & -> & Er)]; [unfold d; by intros ?%bool_decide_eq_false| |]; cbn [rbind].
    + destruct (push_source P1 h1 e' H1 He') as (h2 & P2 & -> & E2 & H2). cbn [rbind]. apply (Hstep P2); [done|]. right. exists e'. by rewrite E2, EP.
    + apply (Hstep P1); [done|]. by left.
Qed.

Definition family (P : list source) : Prop := forall e e', e ∈ P -> e' ∈ P -> agree (all e) (all e').

Lemma union_Next_ok fuel e P it : holds (e :: P) (items it) -> family (e :: P) -> (total (e :: P) < fuel)%nat ->
  exists it' P', union_Next fuel true it = Ok (it', match P' with [] => false | _ => true end) /\ holds P' (items it') /\ family P' /\
    (forall e', e' ∈ P' -> clt (cur e) (cur e')) /\ (forall v, shows (e :: P) v <-> v = view (cur e) \/ shows P' v) /\ (total P' < total (e :: P))%nat.
Proof.
  intros Hh Hfam Hf. unfold union_Next. pose proof Hh as (E & Hp & _). apply Forall_cons in Hp as [He _].
  destruct (pop_source e P _ Hh) as (P1 & h1 & E1 & EP & H1 & Hmin). rewrite E in E1 |- *. cbn [fmap list_fmap] in E1 |- *. rewrite E1. cbn [rbind].
  assert (Hin : forall x, x ∈ P1 -> x ∈ e :: P) by (intros x Hx; right; by rewrite <-EP).
  assert (Ht : total (e :: P) = (S (length (rest e)) + total P1)%nat) by (rewrite (total_perm _ _ EP); done).
  destruct (union_skip_ok fuel P1 (mkUnion h1 (uCount it)) e H1 He) as (it2 & P2 & -> & H2 & K1 & K2 & K3 & K4 & K5);
    [intros x Hx; apply Hfam; [by left|by apply Hin]|done|lia|]. cbn [rbind].
  assert (Hall : forall x, x ∈ P2 -> exists y, y ∈ e :: P /\ all x = all y) by (intros x (y & Hy & Ey)%K2; eauto).
  assert (Hsh : forall v, shows (e :: P) v <-> v ∈ views e \/ shows P2 v).
  { intros v. rewrite shows_cons, <-(shows_perm _ _ v EP). split; [intros [?|Hv]; [by left|]; destruct (K3 v Hv); auto|intros [?|Hv]; auto]. }
  assert (Hf2 : forall Q, (forall x, x ∈ Q -> exists y, y ∈ e :: P /\ all x = all y) -> family Q).
  { intros Q HQ x y (x' & Hx & ->)%HQ (y' & Hy & ->)%HQ. by apply Hfam. }
  assert (Hends : forall Q it3, holds Q (items it3) -> match items it3 with [] => false | _ => true end = match Q with [] => false | _ => true end).
  { intros Q it3 (-> & _). by destruct Q. }
  destruct (move_source true e He) as [(e' & -> & He' & Ea & Er)|(a & -> & Er)]; [done| |]; cbn [rbind]; simpl in Er.
  - destruct (push_source P2 (items it2) e' H2 He') as (h3 & P3 & -> & E3 & H3). cbn [rbind].
    exists (mkUnion h3 (uCount it2 + 1)), P3. rewrite (Hends P3) by done. split; [done|]. split; [done|]. split; [|split; [|split]].
    + apply Hf2. intros x Hx. rewrite E3 in Hx. apply elem_of_cons in Hx as [->|Hx]; [exists e; split; [by left|done]|by apply Hall].
    + intros x Hx. rewrite E3 in Hx. apply elem_of_cons in Hx as [->|Hx]; [|by apply K1]. apply rest_after; [done|]. rewrite <-Er. by left.
    + intros v. rewrite Hsh, (shows_perm _ _ v E3), shows_cons. unfold views at 2. rewrite Er. unfold views. rewrite fmap_cons, elem_of_cons. tauto.
    + rewrite (total_perm _ _ E3), Ht, <-Er. unfold total in *. simpl. lia.
  - exists it2, P2. rewrite (Hends P2) by done. split; [done|]. split; [done|]. split; [by apply Hf2|]. split; [done|]. split; [|lia].
    intros v. rewrite Hsh. unfold views. rewrite Er, fmap_cons, elem_of_cons. simpl. rewrite elem_of_nil. tauto.
Qed.

(** The items that are delivered after that of [e], the least. *)
Lemma union_walk_ok fuel n : forall e P it, holds (e :: P) (items it) -> family (e :: P) -> (total (e :: P) < fuel)%nat -> (total (e :: P) < n)%nat ->
  exists zs, walk (H := union_ops fuel) n it = Ok (view <$> zs) /\ csorted (cur e :: zs) /\ forall v, shows (e :: P) v <-> v ∈ view <$> cur e :: zs.
Proof.
  induction n as [|n IH]; intros e P it Hh Hfam Hf Hn; [lia|]. cbn [walk]. change (Next (NodeIterator := union_ops fuel) true it) with (union_Next fuel true it).
  destruct (union_Next_ok fuel e P it Hh Hfam Hf) as (it' & P' & -> & H' & F' & Hlt & Hsh & Ht). cbn [rbind]. destruct P' as [|e' P'].
  - exists []. split; [done|]. split; [repeat constructor|]. intros v. rewrite Hsh, fmap_cons, list_elem_of_singleton.
    split; [|by left]. intros [?|(x & Hx & _)]; [done|by apply not_elem_of_nil in Hx].
  - destruct (IH e' P' it' H' F') as (zs & Ew & Hs & Hv); [lia..|]. pose proof H' as (Ei & Hok & _). apply Forall_cons in Hok as [(Hat & _) _].
    destruct (at_views _ _ _ Hat) as (EP & EH & EL & EB). cbn [Path Hash_ Leaf LeafBlob union_ops]. unfold union_top. rewrite Ei. cbn [fmap list_fmap].
    rewrite EP, EH, EL. cbn [rbind]. exists (cur e' :: zs). split; [|split].
    + rewrite Ew. rewrite fmap_cons. change (view (cur e')) with (iPath (cur e'), iValue (cur e'), iHash (cur e')).
      destruct (iValue (cur e')) as [v|] eqn:Ev; simpl; [|done]. by rewrite (EB v).
    + pose proof Hs as [Hs1 Hs2]%StronglySorted_inv. constructor; [done|]. assert (clt (cur e) (cur e')) by (apply Hlt; by left).
      constructor; [done|]. eapply Forall_impl; [exact Hs2|]. intros z Hz. by transitivity (cur e').
    + intros v. rewrite Hsh, Hv. symmetry. apply elem_of_cons.
Qed.

(** *** The property *)

Lemma agree_start A B : agree A B -> agree (start_item :: A) (start_item :: B).
Proof.
  intros H x y z Hx Hy Ev Hh Hz Hu. apply elem_of_cons in Hz as [->|Hz]; [by left|]. right.
  apply elem_of_cons in Hx as [->|Hx]; [done|]. apply elem_of_cons in Hy as [->|Hy]; [|by apply (H x y z)].
  unfold view in Ev. by injection Ev as _ _ Ev.
Qed.

(** Iterators that have not moved, with the items before them; the root of each
    has a hash. *)
Definition ready (a : I) (l : list item) : Prop := fresh a l /\ Forall (clt start_item) l.

Definition start_source (p : I * list item) : source := mkSource (fst p) (start_item :: snd p) start_item (snd p).

Lemma start_ok a l : ready a l -> source_ok (start_source (a, l)).
Proof.
  intros [Hf Hl]. split; [right; by split|]. split; [|by exists []]. constructor; [|done]. apply ordered_csorted.
  pose proof (stands_ordered _ _ _ (proj1 Hf)). done.
Qed.

Lemma start_total ps : total (start_source <$> ps) = sum_list_with (fun p => S (length (snd p))) ps.
Proof. unfold total. induction ps as [|p ps IH]; [done|]. rewrite fmap_cons. cbn [sum_list_with]. by rewrite IH. Qed.

(** C34: For iterators at their start, with equal subtrees below equal hashes: the
    union iterator delivers the items of all of them, each once and in order
    (by path, then leaf or not, hash, value), although it passes over the
    subtrees that several of them have; every call ends. *)
Theorem union_exact (ps : list (I * list item)) (fuel n : nat) : ps <> [] -> Forall (fun p => ready (fst p) (snd p)) ps ->
  (forall p q, p ∈ ps -> q ∈ ps -> agree (snd p) (snd q)) ->
  (sum_list_with (fun p => S (length (snd p))) ps < fuel)%nat -> (sum_list_with (fun p => S (length (snd p))) ps < n)%nat ->
  exists it zs, NewUnionIterator (fst <$> ps) = Ok it /\ walk (H := union_ops fuel) n it = Ok (view <$> zs) /\
    StronglySorted clt zs /\ forall v, v ∈ view <$> zs <-> exists p, p ∈ ps /\ v ∈ view <$> snd p.
Proof.
  intros Hne Hr Hag Hf Hn. assert (Hok : Forall source_ok (start_source <$> ps)).
  { apply Forall_fmap. eapply Forall_impl; [exact Hr|]. intros [a l]. apply start_ok. }
  assert (Eit : fst <$> ps = it_ <$> (start_source <$> ps)) by (rewrite <-list_fmap_compose; done).
  unfold NewUnionIterator. destruct (heap_Init_ok node_less Good R node_less_R R_asym R_trans (fst <$> ps)) as (h & -> & Eh & Hh).
  { rewrite Eit. by apply good_sources. }
  cbn [rbind]. rewrite Eit in Eh. destruct (holds_perm _ h Hok Eh Hh) as (P & EP & HP).
  assert (Hin : forall e, e ∈ P <-> exists p, p ∈ ps /\ e = start_source p).
  { intros e. rewrite EP, list_elem_of_fmap. split; intros (p & H1 & H2); by exists p. }
  assert (Et : total P = sum_list_with (fun p => S (length (snd p))) ps).
  { rewrite (total_perm _ _ EP). apply start_total. }
  destruct P as [|e P]; [apply Permutation_nil_l in EP; by destruct ps|].
  assert (Hst : cur e = start_item) by (destruct (proj1 (Hin e) ltac:(by left)) as (p & _ & ->); done).
  destruct (union_walk_ok fuel n e P (mkUnion h 0)) as (zs & Ew & Hs & Hv); [done| |lia|lia|].
  { intros x y (p & Hp & ->)%Hin (q & Hq & ->)%Hin. apply agree_start. by apply Hag. }
  rewrite Hst in Hs, Hv. apply StronglySorted_inv in Hs as [Hs Hlt]. exists (mkUnion h 0), zs. split; [done|]. split; [done|]. split; [done|].
  assert (Hns : forall l, Forall (clt start_item) l -> view start_item ∉ view <$> l).
  { intros l Hl (z & Ez & Hz)%list_elem_of_fmap. eapply Forall_forall in Hl; [|exact Hz]. unfold clt in Hl. by rewrite (cmp_items_refl _ _ Ez) in Hl. }
  intros v. destruct (Hv v) as [Hv1 Hv2]. split.
  - intros Hz. destruct Hv2 as (x & (p & Hp & ->)%Hin & Hx); [by right|]. exists p. split; [done|]. apply elem_of_cons in Hx as [->|Hx]; [|done].
    by apply Hns in Hz.
  - intros (p & Hp & Hvp). destruct (proj1 (elem_of_cons _ _ _) (Hv1 ltac:(exists (start_source p); split; [apply Hin; by exists p|by right]))) as [->|]; [|done].
    apply Hns in Hvp; [done|]. eapply Forall_forall in Hr; [apply Hr|done].
Qed.

End Union.

Lemma agree_check A B :
  bool_decide (Forall (fun x => Forall (fun y => view x = view y -> iHash x <> zeroHash -> Forall (fun z => under (iPath y) z = true -> view z ∈ view <$> A) B) B) A) = true ->
  agree A B.
Proof.
  intros H%bool_decide_eq_true x y z Hx Hy Ev Hh Hz Hu. rewrite Forall_forall in H. specialize (H x Hx). rewrite Forall_forall in H.
  specialize (H y Hy Ev Hh). rewrite Forall_forall in H. by apply H.
Qed.

(** Two iterators with different roots and a child in common. *)
Definition demo_left : list item := [demo_item [] 1; demo_item [2] 7; demo_item [2; 5] 0; demo_item [2; 6] 4].
Definition demo_right : list item := [demo_item [] 2; demo_item [1] 3; demo_item [2] 7; demo_item [2; 5] 0; demo_item [2; 6] 4].

Lemma union_exact_witness : exists it zs,
  NewUnionIterator [mkListIter None demo_left; mkListIter None demo_right] = Ok it /\ walk (H := union_ops 20) 20 it = Ok (view <$> zs) /\
  StronglySorted clt zs /\ (forall v, v ∈ view <$> zs <-> exists p, p ∈ [(mkListIter None demo_left, demo_left); (mkListIter None demo_right, demo_right)] /\ v ∈ view <$> snd p) /\
  length zs = 6%nat.
Proof.
  destruct (union_exact [(mkListIter None demo_left, demo_left); (mkListIter None demo_right, demo_right)] 20 20) as (it & zs & E & Ew & H).
  - discriminate.
  - repeat constructor.
  - intros p q Hp Hq. apply agree_check. apply list_elem_of_In in Hp, Hq. simpl in Hp, Hq.
    decompose [or] Hp; decompose [or] Hq; subst; try done; vm_compute; reflexivity.
  - simpl. lia.
  - simpl. lia.
  - exists it, zs. split; [exact E|]. split; [exact Ew|]. split; [apply H|]. split; [apply H|].
    assert (Hc : (let? it := NewUnionIterator [mkListIter None demo_left; mkListIter None demo_right] in
      let? l := walk (H := union_ops 20) 20 it in Ok (length l)) = Ok 6%nat) by (vm_compute; reflexivity).
    change ([mkListIter None demo_left; mkListIter None demo_right]) with (fst <$> [(mkListIter None demo_left, demo_left); (mkListIter None demo_right, demo_right)]) in Hc.
    rewrite E in Hc. cbn [rbind] in Hc. rewrite Ew in Hc. cbn [rbind] in Hc. injection Hc as Hc. by rewrite length_fmap in Hc.
Defined.

(** An iterator that stops with an error leaves the heap, and the error is lost:
    over a trie whose root is missing in the database the union ends at once and
    reports no error, while the iterator does. *)
Definition lost_trie : Trie := {| root := hashNode (replicate 32 1); originalRoot := zeroHash; cachegen := 0; cachelimit := 0 |}.

#[local] Existing Instance Keccak.generic.

Definition lost_ops : NodeIterator nodeIterator := node_ops (fun _ => None) 9.
#[local] Existing Instance lost_ops.

Lemma union_loses_error :
  match (let? it := newNodeIterator (fun _ => None) 9 lost_trie [] in
         let? (it', more) := Next true it in
         let? u := NewUnionIterator [it] in
         let? (u', more') := union_Next 9 true u in
         Ok (more, Error it', more', union_Error u')) with
  | Ok (false, Some _, false, None) => True
  | _ => False
  end.
Proof. vm_compute. exact Logic.I. Qed.

End TrieUnion.
