(* ===== verification/TrieIterLaws.v ===== *)
(** * Trie: iterating over the nodes and the entries

    The iterator of [TrieIter.v] over the nodes of a trie keeps the laws of
    [TrieIterSpec.v]: its items are the nodes in the order of their paths,
    loaded from the database where they are not in memory ([TrieIterNode]). *)

From Stdlib Require Import Lia String.
From stdpp Require Import base numbers list gmap sorting.
From S2P Require Import Prelude BigInt Types RlpSpec RlpCanon Keccak KeccakSpec KeccakSponge TrieEncoding TrieNode.
From S2P Require Import TrieOps TrieRep TrieSpec TrieHasher TrieEnc TrieCommit TrieLaws TrieIter TrieIterSpec.
Import Common TrieEncoding TrieNode TrieOps TrieTree TrieRep TrieHasher TrieIter TrieIterSpec.

#[local] Open Scope Z_scope.
#[local] Open Scope go_scope.

Module TrieIterNode.

Definition node_value (n : node) : option bytes := match n with valueNode v => Some v | _ => None end.

Definition ancestor (h parent : Hash) : Hash := if bool_decide (h = zeroHash) then parent else h.

Section Visits.
Context (Node : Hash -> option bytes) (g : Z).

(** A child [c] is the node [n], with the hash [h] it is reported with. *)
Inductive opened : node -> node -> Hash -> Prop :=
| opened_here c ho d : is_hash c = false -> cache c = Ok (ho, d) -> opened c c (BytesToHash (default [] ho))
| opened_hash h n : (forall p, resolveHash Node g h p = Ok (inr n)) -> is_hash n = false -> opened (hashNode h) n (BytesToHash h).

(** The items at and below a child, and those below a node from a child on. *)
Inductive sub : bytes -> Hash -> node -> list item -> Prop :=
| sub_intro p a c n h l : opened c n h -> hasTerm p = bool_decide (is_Some (node_value n)) -> kids p (ancestor h a) n 0 l ->
    sub p a c (mkItem p h a (node_value n) :: l)
with kids : bytes -> Hash -> node -> nat -> list item -> Prop :=
| kids_nil p a i : kids p a nilNode i []
| kids_value p a v i : kids p a (valueNode v) i []
| kids_short p a k c f l : k <> [] -> sub (p ++ k) a c l -> kids p a (shortNode k c f) 0 l
| kids_short_done p a k c f i : kids p a (shortNode k c f) (S i) []
| kids_full p a cs f i l : branches p a (drop i cs) i l -> kids p a (fullNode cs f) i l
with branches : bytes -> Hash -> list node -> nat -> list item -> Prop :=
| branches_nil p a i : branches p a [] i []
| branches_skip p a cs i l : branches p a cs (S i) l -> branches p a (nilNode :: cs) i l
| branches_child p a c cs i l1 l2 : c <> nilNode -> sub (p ++ [Z.of_nat i]) a c l1 -> branches p a cs (S i) l2 ->
    branches p a (c :: cs) i (l1 ++ l2).

Scheme sub_ind' := Induction for sub Sort Prop
with kids_ind' := Induction for kids Sort Prop
with branches_ind' := Induction for branches Sort Prop.
Combined Scheme visits_ind from sub_ind', kids_ind', branches_ind'.

(** ** Order *)

(** Everything in the list extends [p], by something that starts at [i] or later. *)
Definition from (p : bytes) (i : nat) (x : item) : Prop := exists j k, (i <= j)%nat /\ iPath x = p ++ Z.of_nat j :: k.

Lemma before_sibling p i j a b : (i < j)%nat -> before (p ++ Z.of_nat i :: a) (p ++ Z.of_nat j :: b).
Proof. intros H. rewrite before_app_l. unfold before. simpl. by rewrite (proj2 (Z.compare_lt_iff _ _)) by lia. Qed.

Lemma visits_ordered :
  (forall p a c l, sub p a c l -> ordered l /\ Forall (fun x => exists k, iPath x = p ++ k) l) /\
  (forall p a n i l, kids p a n i l -> ordered l /\ Forall (fun x => exists k, k <> [] /\ iPath x = p ++ k) l) /\
  (forall p a cs i l, branches p a cs i l -> ordered l /\ Forall (from p i) l).
Proof.
  apply visits_ind.
  - intros p a c n h l Ho Ht Hk [IH1 IH2]. split.
    + constructor; [done|]. eapply Forall_impl; [exact IH2|]. intros x (k & Hk' & E). unfold behind. simpl. rewrite E. by apply before_app.
    + constructor; [exists []; by rewrite app_nil_r|]. eapply Forall_impl; [exact IH2|]. intros x (k & _ & E). by exists k.
  - intros p a i. split; constructor.
  - intros p a v i. split; constructor.
  - intros p a k c f l Hk Hs [IH1 IH2]. split; [done|]. eapply Forall_impl; [exact IH2|]. intros x (k' & E). exists (k ++ k').
    split; [by destruct k|]. by rewrite E, app_assoc.
  - intros p a k c f i. split; constructor.
  - intros p a cs f i l Hb [IH1 IH2]. split; [done|]. eapply Forall_impl; [exact IH2|]. intros x (j & k & _ & E). by exists (Z.of_nat j :: k).
  - intros p a i. split; constructor.
  - intros p a cs i l Hb [IH1 IH2]. split; [done|]. eapply Forall_impl; [exact IH2|]. intros x (j & k & Hj & E). exists j, k. split; [lia|done].
  - intros p a c cs i l1 l2 Hc Hs [IH1 IH2] Hb [IH3 IH4].
    assert (H1 : forall x, x ∈ l1 -> exists k, iPath x = p ++ Z.of_nat i :: k).
    { intros x Hx. eapply Forall_forall in IH2 as (k & E); [|exact Hx]. exists k. rewrite E, <-app_assoc. done. }
    split.
    + apply StronglySorted_app. split; [|split; [done|done]]. intros x y Hx Hy. destruct (H1 x Hx) as (k & E).
      eapply Forall_forall in IH4 as (j & k' & Hj & E'); [|exact Hy]. unfold behind. rewrite E, E'. apply before_sibling. lia.
    + apply Forall_app. split; [|eapply Forall_impl; [exact IH4|]; intros x (j & k & Hj & E); exists j, k; split; [lia|done]].
      apply Forall_forall. intros x Hx. destruct (H1 x Hx) as (k & E). exists i, k. split; [lia|done].
Qed.

(** ** The stack *)

(** The step from a state to the one above it: where its index points. *)
Definition linked (st : list nodeIteratorState) (k : bytes) : Prop :=
  match st with
  | [] => k = []
  | s :: _ =>
      match sNode s with
      | fullNode _ _ => 0 <= sIndex s /\ k = [sIndex s]
      | shortNode _ _ _ => 0 <= sIndex s
      | _ => False
      end
  end.

(** The items that are left on a stack. *)
Inductive frames : list nodeIteratorState -> bytes -> list item -> Prop :=
| frames_nil p : frames [] p []
| frames_cons s st p l1 l2 :
    -1 <= sIndex s -> kids p (ancestor (sHash s) (sParent s)) (sNode s) (Z.to_nat (sIndex s + 1)) l1 ->
    (sPathlen s <= length p)%nat -> frames st (take (sPathlen s) p) l2 -> linked st (drop (sPathlen s) p) ->
    frames (s :: st) p (l1 ++ l2).

(** What is left below the top comes after everything at the top's path. *)
Lemma frames_behind st p l k : frames st p l -> linked st k -> forall y, y ∈ l -> forall c, before (p ++ k ++ c) (iPath y).
Proof.
  intros H. revert k. induction H as [p|s st p l1 l2 Hi Hk Hl Hf IH Hlk]; intros k Hlink y Hy c; [by apply not_elem_of_nil in Hy|].
  apply elem_of_app in Hy as [Hy|Hy].
  - simpl in Hlink. destruct (proj1 (proj2 visits_ordered) _ _ _ _ _ Hk) as [_ Hun]. inversion Hk; subst; try (by apply not_elem_of_nil in Hy).
    + replace (sNode s) with (shortNode k0 c0 f) in Hlink. lia.
    + replace (sNode s) with (fullNode cs f) in Hlink. destruct Hlink as [Hi' ->].
      match goal with Hb : branches _ _ _ _ _ |- _ => destruct (proj2 (proj2 visits_ordered) _ _ _ _ _ Hb) as [_ Hfr] end.
      eapply Forall_forall in Hfr as (j & k' & Hj & E); [|exact Hy]. rewrite E.
      replace (sIndex s) with (Z.of_nat (Z.to_nat (sIndex s))) by lia. apply before_sibling. lia.
  - rewrite <-(take_drop (sPathlen s) p), <-app_assoc. by apply IH.
Qed.

Lemma frames_fresh s st p l2 y : (sPathlen s <= length p)%nat -> frames st (take (sPathlen s) p) l2 -> linked st (drop (sPathlen s) p) ->
  y ∈ l2 -> (forall c, before (p ++ c) (iPath y)) /\ under p y = false.
Proof.
  intros Hl Hf Hlk Hy. assert (Hb : forall c, before (p ++ c) (iPath y)).
  { intros c. pose proof (frames_behind _ _ _ _ Hf Hlk y Hy c) as H. by rewrite app_assoc, take_drop in H. }
  split; [done|]. apply not_true_is_false. intros [k E]%HasPrefix_spec. specialize (Hb k). rewrite E in Hb. by apply before_irrefl in Hb.
Qed.

Lemma frames_skip s st p l1 l2 : kids p (ancestor (sHash s) (sParent s)) (sNode s) (Z.to_nat (sIndex s + 1)) l1 ->
  (sPathlen s <= length p)%nat -> frames st (take (sPathlen s) p) l2 -> linked st (drop (sPathlen s) p) -> skip p (l1 ++ l2) = l2.
Proof.
  intros Hk Hl Hf Hlk. destruct (proj1 (proj2 visits_ordered) _ _ _ _ _ Hk) as [_ Hun].
  assert (Hno : skip p l2 = l2).
  { destruct l2 as [|y l2]; [done|]. simpl. by rewrite (proj2 (frames_fresh s st p (y :: l2) y Hl Hf Hlk ltac:(by left))). }
  clear Hk. induction l1 as [|x l1 IH]; [done|]. apply Forall_cons in Hun as [(k & _ & E) Hun]. simpl.
  assert (under p x = true) as -> by (apply HasPrefix_spec; by exists k). by apply IH.
Qed.

Lemma frames_ordered st p l : frames st p l -> ordered l /\ (st <> [] -> Forall (fun y => before p (iPath y)) l).
Proof.
  induction 1 as [p|s st p l1 l2 Hi Hk Hl Hf [IH _] Hlk]; [split; [constructor|done]|].
  destruct (proj1 (proj2 visits_ordered) _ _ _ _ _ Hk) as [Ho Hun]. split.
  - apply StronglySorted_app. split; [|by split]. intros x y Hx Hy. eapply Forall_forall in Hun as (k & _ & E); [|exact Hx].
    unfold behind. rewrite E. by apply (frames_fresh s st p l2 y).
  - intros _. apply Forall_app. split.
    + eapply Forall_impl; [exact Hun|]. intros x (k & Hk' & ->). by apply before_app.
    + apply Forall_forall. intros y Hy. rewrite <-(app_nil_r p). by apply (frames_fresh s st p l2 y).
Qed.

(** ** Looking ahead *)

(** The state of an item that was found. *)
Definition state_of (x : item) (n : node) (i : nat) : nodeIteratorState := mkState (iHash x) n (iParent x) (-1) i.

Lemma child_opened tr c n h a p : cachegen tr = g -> opened c n h ->
  exists s, child_state c a p = Ok s /\ forall cp, state_resolve Node tr s cp = Ok (inr (mkState h n a (-1) (length p))).
Proof.
  intros Hg. destruct 1 as [c ho d Hh Hc|h n Hr Hn].
  - unfold child_state. rewrite Hc. cbn [rbind]. eexists. split; [done|]. intros cp. unfold state_resolve. simpl. by destruct c.
  - eexists. split; [reflexivity|]. intros cp. unfold state_resolve. simpl. by rewrite Hg, Hr.
Qed.

Lemma sub_cons p a c l : sub p a c l -> exists n h l', l = mkItem p h a (node_value n) :: l' /\ opened c n h /\
  hasTerm p = bool_decide (is_Some (node_value n)) /\ kids p (ancestor h a) n 0 l'.
Proof. inversion 1; subst. eauto 10. Qed.

(** The first child of a full node from [i] on. *)
Lemma first_child_spec p a cs i l : branches p a cs i l ->
  match l with
  | [] => first_child (Z.of_nat i) cs = None
  | x :: l' => exists j c l1 l2, first_child (Z.of_nat i) cs = Some (Z.of_nat j, c) /\ (i <= j)%nat /\ sub (p ++ [Z.of_nat j]) a c (x :: l1) /\
      l' = l1 ++ l2 /\ branches p a (drop (S j - i) cs) (S j) l2 /\ branches p a (drop (j - i) cs) j (x :: l')
  end.
Proof.
  induction 1 as [p a i|p a cs i l Hb IH|p a c cs i l1 l2 Hc Hs Hb IH]; [done| |].
  - simpl. replace (Z.of_nat i + 1) with (Z.of_nat (S i)) by lia. destruct l as [|x l]; [done|].
    destruct IH as (j & c & l1 & l2 & E & Hj & Hs & -> & Hb1 & Hb2). exists j, c, l1, l2. split; [done|]. split; [lia|]. split; [done|]. split; [done|].
    replace (S j - i)%nat with (S (S j - S i)) by lia. replace (j - i)%nat with (S (j - S i)) by lia. done.
  - destruct (sub_cons _ _ _ _ Hs) as (n & h & l' & -> & _). simpl. exists i, c, l', l2.
    split; [by destruct c|]. split; [done|]. split; [done|]. split; [done|].
    replace (S i - i)%nat with 1%nat by lia. replace (i - i)%nat with 0%nat by lia. split; [done|]. by apply (branches_child p a c cs i (_ :: l') l2).
Qed.

(** The state above, and the stack it is pushed on. *)
Lemma nextChild_spec tr s p l : cachegen tr = g -> -1 <= sIndex s ->
  kids p (ancestor (sHash s) (sParent s)) (sNode s) (Z.to_nat (sIndex s + 1)) l ->
  match l with
  | [] => nextChild s (ancestor (sHash s) (sParent s)) p = Ok None
  | x :: l' => exists c n k i l1 l2, nextChild s (ancestor (sHash s) (sParent s)) p = Ok (Some (c, p ++ k, set_index i s)) /\
      state_resolve Node tr c (p ++ k) = Ok (inr (state_of x n (length p))) /\ node_value n = iValue x /\
      iPath x = p ++ k /\ hasTerm (p ++ k) = bool_decide (is_Some (iValue x)) /\ -1 <= i /\ l' = l1 ++ l2 /\
      kids (p ++ k) (ancestor (iHash x) (iParent x)) n 0 l1 /\
      kids p (ancestor (sHash s) (sParent s)) (sNode s) (Z.to_nat (i + 2)) l2 /\
      kids p (ancestor (sHash s) (sParent s)) (sNode s) (Z.to_nat (i + 1)) (x :: l') /\
      linked [set_index (i + 1) s] k
  end.
Proof.
  intros Hg Hi Hk. unfold nextChild. remember (Z.to_nat (sIndex s + 1)) as i0 eqn:Ei. remember (ancestor (sHash s) (sParent s)) as a eqn:Ea.
  remember (sNode s) as m eqn:Em. destruct Hk as [p a i|p a v i|p a k c f l Hne Hs|p a k c f i|p a cs f i l Hb].
  - done.
  - done.
  - assert (sIndex s = -1) as Hi1 by lia. destruct (sub_cons _ _ _ _ Hs) as (n & h & l' & -> & Ho & Ht & Hk).
    destruct (child_opened tr c n h a p Hg Ho) as (cs & Ec & Hr). rewrite (proj2 (Z.ltb_lt _ _)) by lia. rewrite Ec. cbn [rbind].
    assert (set_index (-1) s = s) as Hs1 by (destruct s; simpl in *; by subst).
    exists cs, n, k, (-1), l', []. rewrite Hs1. split; [done|]. split; [apply Hr|]. split; [done|]. split; [done|]. split; [done|]. split; [lia|].
    split; [by rewrite app_nil_r|]. split; [done|]. split; [constructor|]. split; [by constructor|]. simpl. rewrite <-Em. done.
  - by rewrite (proj2 (Z.ltb_ge _ _)) by lia.
  - subst i. pose proof (first_child_spec _ _ _ _ _ Hb) as Hf. rewrite Z2Nat.id in Hf by lia. destruct l as [|x l]; [by rewrite Hf|].
    destruct Hf as (j & c & l1 & l2 & -> & Hj & Hs & -> & Hb2 & Hb3). destruct (sub_cons _ _ _ _ Hs) as (n & h & l' & E & Ho & Ht & Hk).
    injection E as -> ->. destruct (child_opened tr c n h a p Hg Ho) as (cs' & Ec & Hr). rewrite Ec. cbn [rbind].
    exists cs', n, [Z.of_nat j], (Z.of_nat j - 1), l', l2. split; [done|]. split; [apply Hr|]. split; [done|]. split; [done|]. split; [done|]. split; [lia|].
    split; [done|]. split; [done|].
    replace (Z.to_nat (Z.of_nat j - 1 + 2)) with (S j) by lia. replace (Z.to_nat (Z.of_nat j - 1 + 1)) with j by lia.
    assert (drop (S j) cs = drop (S j - Z.to_nat (sIndex s + 1)) (drop (Z.to_nat (sIndex s + 1)) cs)) as Ed by (rewrite drop_drop; f_equal; lia).
    assert (drop j cs = drop (j - Z.to_nat (sIndex s + 1)) (drop (Z.to_nat (sIndex s + 1)) cs)) as Ed' by (rewrite drop_drop; f_equal; lia).
    split; [constructor; by rewrite Ed|]. split; [constructor; by rewrite Ed'|]. simpl. rewrite <-Em. split; [lia|]. f_equal. lia.
Qed.

(** Where the search stops, and what is there after the push. *)
Definition found (x : item) (l : list item) (s : nodeIteratorState) (rest : list nodeIteratorState) (p : bytes) (n : node) : Prop :=
  frames (s :: rest) p (x :: l) /\ frames (state_of x n (length p) :: set_index (sIndex s + 1) s :: rest) (iPath x) l /\
  node_value n = iValue x /\ hasTerm (iPath x) = bool_decide (is_Some (iValue x)).

Lemma peek_up_spec tr st p l : cachegen tr = g -> frames st p l ->
  match l with
  | [] => exists p', peek_up Node tr st p = Ok ([], p', PErr iteratorEnd)
  | x :: l' => exists s rest p' n, peek_up Node tr st p = Ok (s :: rest, p', POk (state_of x n (length p')) true (iPath x)) /\
      found x l' s rest p' n
  end.
Proof.
  intros Hg. induction 1 as [p|s st p l1 l2 Hi Hk Hl Hf IH Hlk]; [by eexists|]. cbn [peek_up].
  change (if bool_decide (sHash s = zeroHash) then sParent s else sHash s) with (ancestor (sHash s) (sParent s)).
  pose proof (nextChild_spec tr s p l1 Hg Hi Hk) as Hc. destruct l1 as [|x l1].
  - rewrite Hc. cbn [rbind]. rewrite slice_take by done. exact IH.
  - destruct Hc as (c & n & k & i & m1 & m2 & -> & Hr & Hv & Hp & Ht & Hi' & -> & Hk1 & Hk2 & Hk3 & Hlink). cbn [rbind app]. rewrite Hr. cbn [rbind peeked_of].
    exists (set_index i s), st, p, n. rewrite Hp. split; [done|]. split.
    { change (x :: (m1 ++ m2) ++ l2) with ((x :: m1 ++ m2) ++ l2). by constructor. }
    split; [|by rewrite Hp]. rewrite <-app_assoc. constructor; simpl; [lia|by rewrite Hp| |rewrite Hp, take_app_length|].
    + rewrite Hp, length_app. lia.
    + constructor; simpl; [lia| |done..]. by replace (i + 1 + 1) with (i + 2) by lia.
    + rewrite Hp, drop_app_length. exact Hlink.
Qed.

End Visits.

(** ** The laws *)

Section Laws.
Context {X : Keccak.Impl} (Node : Hash -> option bytes) (fuel : nat).
#[local] Existing Instance node_ops.

(** The root of a hashed trie, with the items below it. *)
Definition fresh (tr : Trie) (l : list item) : Prop :=
  exists h r, Trie_Hash tr = Ok (tr, h) /\
    state_resolve Node tr (mkState (if bool_decide (h = emptyRoot) then zeroHash else h) (TrieOps.root tr) zeroHash (-1) 0) [] = Ok (inr r) /\
    sIndex r = -1 /\ sParent r = zeroHash /\ sPathlen r = 0%nat /\ node_value (sNode r) = None /\
    exists l', l = mkItem [] (sHash r) zeroHash None :: l' /\ kids Node (cachegen tr) [] (ancestor (sHash r) zeroHash) (sNode r) 0 l'.

Definition node_stands (it : nodeIterator) (cur : option item) (l : list item) : Prop :=
  (err it = Some iteratorEnd /\ cur = None /\ l = []) \/
  (err it = None /\ exists tr, iTrie it = Some tr /\
    ((stack it = [] /\ path it = [] /\ cur = None /\ fresh tr l) \/
     (exists s st, stack it = s :: st /\ frames Node (cachegen tr) (s :: st) (path it) l /\
       (cur = None \/ cur = Some (mkItem (path it) (sHash s) (sParent s) (node_value (sNode s))) /\
          hasTerm (path it) = bool_decide (is_Some (node_value (sNode s))))))).

(** Where looking ahead leads: to the first of the items left. *)
Lemma peek_spec d it cur l : err it = None -> node_stands it cur l -> (d = false -> exists x, cur = Some x) ->
  match (if d then l else skip (path it) l) with
  | [] => exists it', peek Node d it = Ok (it', PErr iteratorEnd)
  | x :: l' => exists it' s child, peek Node d it = Ok (it', POk s child (iPath x)) /\ err it' = None /\
      node_stands it' None (x :: l') /\ node_stands (push s child (iPath x) it') (Some x) l'
  end.
Proof.
  intros He [(H & _)|(_ & tr & Etr & [(Es & Ep & -> & Hfr)|(s & st & Es & Hf & Hcur)])] Hd; [congruence| |].
  - destruct d; [|by destruct (Hd eq_refl)]. destruct Hfr as (h & r & Eh & Er & Hi & Hpa & Hpl & Hv & l' & -> & Hk). unfold peek.
    rewrite Etr, Es, Eh. cbn [rbind]. rewrite Er. cbn [rbind peeked_of]. do 3 eexists. split; [reflexivity|]. split; [done|]. split.
    + right. split; [done|]. exists tr. split; [done|]. left. split; [done|]. split; [done|]. split; [done|]. exists h, r. eauto 10.
    + right. split; [done|]. exists tr. split; [done|]. right. exists r, []. split; [done|]. split.
      * rewrite <-(app_nil_r l'). simpl. constructor; [lia|by rewrite Hpa, Hi|by rewrite Hpl|constructor|by rewrite Hpl].
      * right. simpl. by rewrite Hpa, Hv.
  - assert (H : exists st' p', (if d then Ok (s :: st, path it) else pop (s :: st) (path it)) = Ok (st', p') /\
      frames Node (cachegen tr) st' p' (if d then l else skip (path it) l)).
    { destruct d; [by eexists _, _|]. inversion Hf as [|s0 st0 p0 l1 l2 Hi Hk Hl Hf' Hlk]; subst. simpl. rewrite slice_take by done. cbn [rbind].
      eexists _, _. split; [done|]. by rewrite (frames_skip _ _ _ _ _ _ _ Hk Hl Hf' Hlk). }
    destruct H as (st' & p' & Epop & Hf'). unfold peek. rewrite Etr, Es, Epop. cbn [rbind].
    pose proof (peek_up_spec Node (cachegen tr) tr st' p' _ eq_refl Hf') as Hup. destruct (if d then l else skip (path it) l) as [|x l'].
    + destruct Hup as (p2 & ->). by eexists.
    + destruct Hup as (s2 & rest & p2 & n & -> & Hf1 & Hf2 & Hv & Ht). cbn [rbind]. do 3 eexists. split; [reflexivity|]. split; [done|]. split.
      * right. split; [done|]. exists tr. split; [done|]. right. exists s2, rest. split; [done|]. split; [done|by left].
      * right. split; [done|]. exists tr. split; [done|]. right. eexists _, _. split; [reflexivity|]. split; [exact Hf2|].
        right. simpl. rewrite Hv, Ht. by destruct x.
Qed.

Lemma node_step_spec d it cur l : err it = None -> node_stands it cur l -> (d = false -> exists x, cur = Some x) ->
  match (if d then l else skip (path it) l) with
  | [] => exists it', node_step Node d it = Ok (it', false) /\ node_stands it' None [] /\ err it' = Some iteratorEnd
  | x :: l' => exists it', node_step Node d it = Ok (it', true) /\ node_stands it' (Some x) l'
  end.
Proof.
  intros He Hs Hd. pose proof (peek_spec d it cur l He Hs Hd) as H. unfold node_step. destruct (if d then l else skip (path it) l) as [|x l'].
  - destruct H as (it' & ->). cbn [rbind]. eexists. split; [done|]. split; [by left|done].
  - destruct H as (it' & s & ch & -> & He' & _ & Hs'). cbn [rbind]. eexists. split; [done|].
    replace (set_err None it') with it'; [done|]. destruct it'; simpl in *; by subst.
Qed.

Lemma node_Next_spec d it cur l : node_stands it cur l -> (d = false -> exists x, cur = Some x) ->
  match (if d then l else skip (path it) l) with
  | [] => exists it', node_Next Node fuel d it = Ok (it', false) /\ node_stands it' None [] /\ err it' = Some iteratorEnd
  | x :: l' => exists it', node_Next Node fuel d it = Ok (it', true) /\ node_stands it' (Some x) l'
  end.
Proof.
  intros Hs Hd. pose proof Hs as [(He & -> & ->)|(He & _)].
  - unfold node_Next. rewrite He. assert ((if d then [] else skip (path it) []) = []) as -> by (by destruct d).
    exists it. split; [done|]. split; [by left|done].
  - pose proof (node_step_spec d it cur l He Hs Hd) as H. unfold node_Next. by rewrite He.
Qed.

Lemma node_stands_cur it x l : node_stands it (Some x) l -> exists s st, stack it = s :: st /\
  x = mkItem (path it) (sHash s) (sParent s) (node_value (sNode s)) /\ hasTerm (path it) = bool_decide (is_Some (node_value (sNode s))).
Proof.
  intros [(_ & ? & _)|(_ & tr & _ & [(_ & _ & ? & _)|(s & st & Es & _ & [?|[E Ht]])])]; try done. injection E as ->. by exists s, st.
Qed.

Lemma node_top_value it x l v : node_stands it (Some x) l -> iValue x = Some v -> top_value it = Ok v.
Proof.
  intros H Hv. destruct (node_stands_cur _ _ _ H) as (s & st & Es & -> & _). unfold top_value. rewrite Es. simpl in Hv.
  destruct (sNode s); try done. by injection Hv as ->.
Qed.

Lemma node_stands_ordered it cur l : node_stands it cur l -> ordered (option_list cur ++ l).
Proof.
  intros [(_ & -> & ->)|(_ & tr & _ & [(_ & _ & -> & Hfr)|(s & st & Es & Hf & Hcur)])]; [constructor| |].
  - destruct Hfr as (h & r & _ & _ & _ & _ & _ & _ & l' & -> & Hk).
    destruct (proj1 (proj2 (visits_ordered Node (cachegen tr))) _ _ _ _ _ Hk) as [Ho Hun]. simpl. constructor; [done|].
    eapply Forall_impl; [exact Hun|]. intros x (k & Hne & E). unfold behind. rewrite E. by apply before_app.
  - destruct (frames_ordered _ _ _ _ _ Hf) as [Ho Hb]. destruct Hcur as [->|[-> _]]; [done|]. simpl. constructor; [done|]. by apply Hb.
Qed.

#[export, refine] Instance node_laws : NodeIteratorLaws nodeIterator (NodeIterator0 := node_ops Node fuel) := {|
  stands := node_stands
|}.
Proof.
  - intros it cur x l H. exact (node_Next_spec true it cur (x :: l) H ltac:(done)).
  - intros it cur H. destruct (node_Next_spec true it cur [] H ltac:(done)) as (it' & E & Hs & He). exists it'. split; [exact E|].
    split; [done|]. simpl. by rewrite He.
  - intros it x l H. pose proof (node_Next_spec false it (Some x) l H ltac:(by exists x)) as Hn.
    destruct (node_stands_cur _ _ _ H) as (s & st & _ & -> & _). simpl in *. destruct (skip (path it) l); [|done].
    destruct Hn as (it' & E & Hs & He). exists it'. split; [done|]. split; [done|]. by rewrite He.
  - intros it x l H. destruct (node_stands_cur _ _ _ H) as (s & st & _ & -> & _). done.
  - intros it x l H. destruct (node_stands_cur _ _ _ H) as (s & st & Es & -> & _). simpl. by rewrite Es.
  - intros it x l H. destruct (node_stands_cur _ _ _ H) as (s & st & Es & -> & Ht). simpl. by rewrite Ht.
  - intros it x l v H Hv. by apply (node_top_value it x l).
  - intros it x l v H Hv. simpl. rewrite (node_top_value it x l v H Hv). cbn [rbind].
    destruct (node_stands_cur _ _ _ H) as (s & st & Es & -> & Ht). done.
  - exact node_stands_ordered.
Defined.

(** ** Seeking *)

(** The items from a path on. *)
Fixpoint from_path (key : bytes) (l : list item) : list item :=
  match l with
  | x :: l' => match Compare (iPath x) key with Lt => from_path key l' | _ => l end
  | [] => []
  end.

Lemma from_path_skip key p l : (forall c, before (p ++ c) key) -> from_path key (skip p l) = from_path key l.
Proof.
  intros H. induction l as [|x l IH]; [done|]. simpl. destruct (under p x) eqn:Eu; [|done]. rewrite IH.
  apply HasPrefix_spec in Eu as [k E]. rewrite E. by rewrite (H k).
Qed.

Lemma seek_loop_spec n prefix key it cur l : err it = None -> node_stands it cur l -> (length l < n)%nat ->
  (cur = None /\ path it = []) \/ ((exists x, cur = Some x) /\ before (path it) key) ->
  match from_path key l with
  | [] => exists it', seek_loop Node n prefix key it = Ok (it', Some iteratorEnd)
  | r => exists it', seek_loop Node n prefix key it = Ok (it', None) /\ err it' = None /\ node_stands it' None r
  end.
Proof.
  revert it cur l. induction n as [|n IH]; intros it cur l He Hs Hn Hc; [lia|]. cbn [seek_loop].
  set (d := HasPrefix key (path it)).
  assert (Hd : d = false -> (exists x, cur = Some x) /\ forall c, before (path it ++ c) key).
  { intros Ed. destruct Hc as [[_ Ep]|[Hc Hb]].
    - unfold d in Ed. rewrite Ep in Ed. by rewrite (proj2 (HasPrefix_spec key [])) in Ed; [|by exists key].
    - split; [done|]. apply (before_prefix (path it) []); [by rewrite app_nil_r|]. intros k Ek.
      assert (d = true) by (apply HasPrefix_spec; by exists k). congruence. }
  assert (Hf : from_path key l = from_path key (if d then l else skip (path it) l)).
  { destruct d eqn:Ed; [done|]. symmetry. apply from_path_skip. by apply Hd. }
  assert (Hlen : (length (if d then l else skip (path it) l) <= length l)%nat) by (destruct d; [done|apply skip_length]).
  pose proof (peek_spec d it cur l He Hs ltac:(intros Ed; by apply Hd)) as Hp. rewrite Hf.
  destruct (if d then l else skip (path it) l) as [|x l'].
  - destruct Hp as (it' & ->). cbn [rbind from_path]. by eexists.
  - destruct Hp as (it' & s & ch & -> & He' & Hs1 & Hs2). cbn [rbind]. simpl from_path. simpl in Hlen.
    destruct (Compare (iPath x) key) eqn:Ec; [by exists it'| |by exists it'].
    apply (IH _ (Some x) l'); [done|done|lia|]. right. split; [by exists x|exact Ec].
Qed.

End Laws.

End TrieIterNode.

(** ** Trie: iterating over the entries

    The nodes of a trie that represents a tree are visited in the order of the
    tree, so the entries delivered are those of the map, ordered, from the
    start that was asked for ([iterate_contents]). *)

Import Common TrieEncoding TrieNode TrieDecode TrieOps TrieTree TrieRep TrieCanon TrieEnc TrieStore TrieHasher TrieCommit TrieLaws TrieIter TrieIterSpec TrieIterNode.
Import KeccakSpec (keccak_f).
Import KeccakSponge (ImplLaws).

Module TrieIterLaws.

(** ** The nodes of a tree *)

Definition tree_value (t : tree) : option bytes := match t with TrieTree.Leaf v => Some v | _ => None end.

(** The paths and values of the nodes, a node before those below it. *)
Fixpoint nodes_of (p : bytes) (t : tree) : list (bytes * option bytes) :=
  (p, tree_value t) ::
  match t with
  | Ext k u => nodes_of (p ++ k) u
  | Branch ts =>
      (fix go (i : nat) (ts : list tree) : list (bytes * option bytes) :=
         match ts with
         | [] => []
         | c :: ts => (match c with E => [] | _ => nodes_of (p ++ [Z.of_nat i]) c end) ++ go (S i) ts
         end) 0%nat ts
  | _ => []
  end.

Fixpoint nodes_from (p : bytes) (i : nat) (ts : list tree) : list (bytes * option bytes) :=
  match ts with
  | [] => []
  | c :: ts => (if decide (c = E) then [] else nodes_of (p ++ [Z.of_nat i]) c) ++ nodes_from p (S i) ts
  end.

Lemma nodes_of_Branch p ts : nodes_of p (Branch ts) = (p, None) :: nodes_from p 0 ts.
Proof.
  simpl. f_equal. generalize 0%nat as i. induction ts as [|c ts IH]; intros i; [done|]. simpl. rewrite IH. f_equal. by destruct c.
Qed.

(** Where a subtree stands. *)
Definition place (p : bytes) (t : tree) : Prop := (wf t /\ nibbles_ok p) \/ (exists v q, t = TrieTree.Leaf v /\ p = q ++ [16]).

Lemma place_term p t : place p t -> hasTerm p = bool_decide (is_Some (tree_value t)).
Proof.
  intros [[Hw Hp]|(v & q & -> & ->)]; [rewrite hasTerm_nibbles by done; by inversion Hw|by rewrite hasTerm_snoc].
Qed.

Definition shown (x : item) : bytes * option bytes := (iPath x, iValue x).

Section Exists.
Context {M : Marks} (Node : Hash -> option bytes) (g : Z).

Lemma rep_value_of b n t : is_hash n = false -> rep Node b n t -> node_value n = tree_value t.
Proof. intros Hh Hr. by inversion Hr; subst. Qed.

Lemma rep_opened b c t : rep Node b c t -> t <> E -> exists n h, opened Node g c n h /\ rep Node b n t /\ is_hash n = false.
Proof.
  intros Hr Ht. destruct (is_hash c) eqn:Eh.
  - destruct c as [| |h| |]; try done. inversion Hr as [| | | |b' h' enc dec t' E1 E2 E3 E4]; subst. exists (dec g), (BytesToHash h).
    assert (loaded (dec g)) as Hl by (eapply decodeNode_fuel_loaded; apply E2). split; [|split; [done|by destruct (dec g)]].
    constructor; [|by destruct (dec g)]. intros p. unfold resolveHash, mustDecodeNode. by rewrite E1, E2.
  - destruct c as [| |h|k c f|cs f]; try done; [by apply rep_nil_inv in Hr|..]; eexists _, _; (split; [by econstructor|done]).
Qed.

Definition visited (t : tree) : Prop := forall b p a n, rep Node b n t -> is_hash n = false -> t = E \/ place p t ->
  exists l, kids Node g p a n 0 l /\ (p, tree_value t) :: (shown <$> l) = nodes_of p t.

Lemma sub_exists t c p a : visited t -> rep Node false c t -> t <> E -> place p t ->
  exists l, sub Node g p a c l /\ shown <$> l = nodes_of p t.
Proof.
  intros IH Hr Ht Hp. destruct (rep_opened false c t Hr Ht) as (n & h & Ho & Hn & Hh).
  destruct (IH false p (ancestor h a) n Hn Hh (or_intror Hp)) as (l & Hk & E). eexists. split.
  - econstructor; [exact Ho| |exact Hk]. rewrite (rep_value_of false n t Hh Hn). by apply place_term.
  - rewrite fmap_cons, <-E. unfold shown at 1. simpl. by rewrite (rep_value_of false n t Hh Hn).
Qed.

Lemma branches_exist ts cs p a i : Forall visited ts -> Forall2 (rep Node false) cs ts ->
  (forall j c, ts !! j = Some c -> c <> E -> place (p ++ [Z.of_nat (i + j)]) c) ->
  exists l, branches Node g p a cs i l /\ shown <$> l = nodes_from p i ts.
Proof.
  intros Hv Hr. revert i. induction Hr as [|c t cs ts Hc Hr IH]; intros i Hp; [exists []; by split; [constructor|]|].
  apply Forall_cons in Hv as [Hvt Hv]. destruct (IH Hv (S i)) as (l2 & Hb & E2).
  { intros j u Hj Hu. replace (S i + j)%nat with (i + S j)%nat by lia. by apply Hp. }
  simpl. destruct (decide (t = E)) as [->|Ht].
  - apply rep_E in Hc as ->. exists l2. by split; [constructor|].
  - destruct (sub_exists t c (p ++ [Z.of_nat i]) a Hvt Hc Ht) as (l1 & Hs & E1).
    { specialize (Hp 0%nat t eq_refl Ht). by rewrite Nat.add_0_r in Hp. }
    exists (l1 ++ l2). split; [|by rewrite fmap_app, E1, E2]. constructor; [|done|done]. intros ->. by apply rep_nil_inv in Hc.
Qed.

Lemma place_ext p k u : place p (Ext k u) -> k <> [] /\ u <> E /\ place (p ++ k) u.
Proof.
  intros [[Hw Hp]|(v & q & ? & _)]; [|done]. split; [by eapply wf_ext_key|]. inversion Hw as [k' v (q & -> & Hq) Hv|k' ts Hk Hne Hb|]; subst.
  - split; [done|]. right. exists v, (p ++ q). by rewrite app_assoc.
  - split; [done|]. left. split; [done|]. by apply Forall_app.
Qed.

Lemma place_branch p ts j c : place p (Branch ts) -> ts !! j = Some c -> c <> E -> place (p ++ [Z.of_nat j]) c.
Proof.
  intros [[Hw Hp]|(v & q & ? & _)] Hj Hc; [|done]. inversion Hw as [| |ts' Hl H1 H2 _]; subst. pose proof (lookup_lt_Some _ _ _ Hj).
  destruct (decide (j = 16%nat)) as [->|Hne].
  - destruct (H2 c Hj) as [|(v & -> & _)]; [done|]. right. by exists v, p.
  - left. split; [apply (H1 j); [done|lia|done]|]. apply Forall_app. split; [done|]. apply Forall_singleton. unfold nibble_ok. lia.
Qed.

Lemma visits_exist t : visited t.
Proof.
  induction t as [|v|k u IH|ts IH] using tree_ind'; intros b p a n Hr Hh Hp.
  - apply rep_E in Hr as ->. exists []. split; [constructor|done].
  - apply rep_Leaf in Hr as ->. exists []. split; [constructor|done].
  - destruct Hp as [|Hp]; [done|]. destruct (place_ext _ _ _ Hp) as (Hk & Hu & Hpu).
    destruct n as [| |h|k' c f|cs f]; try done; inversion Hr; subst.
    destruct (sub_exists u c (p ++ k) a IH ltac:(done) Hu Hpu) as (l & Hs & E). exists l. split; [by constructor|]. simpl. by rewrite E.
  - destruct Hp as [|Hp]; [done|]. destruct n as [| |h|k' c f|cs f]; try done; [by inversion Hr..|].
    apply rep_full_inv in Hr as (ts' & [= <-] & [Hlen Hcs] & _).
    destruct (branches_exist ts cs p a 0 IH) as (l & Hb & E).
    + apply Forall2_same_length_lookup. split; [done|]. intros i x y Hx Hy. by eapply Hcs.
    + intros j c Hj Hc. by eapply place_branch.
    + exists l. split; [by constructor|]. by rewrite nodes_of_Branch, E.
Qed.

(** The values are those that are looked up. *)
Lemma nodes_of_prefix t p q w : (q, w) ∈ nodes_of p t -> exists k, q = p ++ k.
Proof.
  revert p. induction t as [|v|k u IH|ts IH] using tree_ind'; intros p H.
  1,2: simpl in H; apply list_elem_of_singleton in H as [= -> ->]; exists []; by rewrite app_nil_r.
  - simpl in H. apply elem_of_cons in H as [[= -> ->]|H]; [exists []; by rewrite app_nil_r|].
    destruct (IH _ H) as (k' & ->). exists (k ++ k'). by rewrite app_assoc.
  - rewrite nodes_of_Branch in H. apply elem_of_cons in H as [[= -> ->]|H]; [exists []; by rewrite app_nil_r|].
    revert H. generalize 0%nat as i. induction IH as [|c ts Hc IH IH']; intros i H; simpl in H; [by apply not_elem_of_nil in H|].
    apply elem_of_app in H as [H|H]; [|by eapply IH']. case_decide; [by apply not_elem_of_nil in H|].
    destruct (Hc _ H) as (k & ->). eexists. by rewrite <-app_assoc.
Qed.

Lemma nodes_of_look t p k v : (p ++ k, Some v) ∈ nodes_of p t <-> look t k = Some v.
Proof.
  revert p k. induction t as [|w|x u IH|ts IH] using tree_ind'; intros p k.
  - simpl. rewrite list_elem_of_singleton. split; [by intros [=]|done].
  - simpl. rewrite list_elem_of_singleton. split.
    + intros [= E ->]. rewrite <-(app_nil_r p) in E at 2. apply app_inv_head in E as ->. done.
    + destruct k; [|done]. intros [= ->]. by rewrite app_nil_r.
  - simpl nodes_of. rewrite elem_of_cons. split.
    + intros [[=]|H]. destruct (nodes_of_prefix _ _ _ _ H) as (k' & E). rewrite <-app_assoc in E. apply app_inv_head in E as ->.
      rewrite look_Ext. apply (IH (p ++ x)). by rewrite <-app_assoc.
    + intros H. destruct (look_Ext_cases x u k) as [(k' & -> & E)|[_ E]]; [|congruence]. right. rewrite E in H.
      rewrite app_assoc. by apply IH.
  - rewrite nodes_of_Branch, elem_of_cons.
    assert (Hg : forall i, (p ++ k, Some v) ∈ nodes_from p i ts <->
      exists j c k', ts !! j = Some c /\ k = Z.of_nat (i + j) :: k' /\ look c k' = Some v).
    { clear -IH. induction IH as [|c ts Hc IH IH']; intros i; simpl.
      - split; [by intros ?%not_elem_of_nil|by intros (j & c & k' & ? & _)].
      - rewrite elem_of_app, IH'. split.
        + intros [H|(j & d & k' & Hj & -> & Hl)]; [|exists (S j), d, k'; split; [done|]; split; [do 2 f_equal; lia|done]].
          case_decide as Hd; [by apply not_elem_of_nil in H|]. destruct (nodes_of_prefix _ _ _ _ H) as (k' & E). rewrite <-app_assoc in E.
          apply app_inv_head in E. simpl in E. subst k. exists 0%nat, c, k'. split; [done|]. split; [do 2 f_equal; lia|]. apply (Hc (p ++ [Z.of_nat i])).
          by rewrite <-app_assoc.
        + intros ([|j] & d & k' & Hj & -> & Hl); simpl in Hj.
          * injection Hj as ->. left. case_decide as Hd; [by subst|]. rewrite Nat.add_0_r. change (Z.of_nat i :: k') with ([Z.of_nat i] ++ k').
            rewrite app_assoc. by apply Hc.
          * right. exists j, d, k'. split; [done|]. split; [do 2 f_equal; lia|done]. }
    split.
    + intros [[=]|H]. apply Hg in H as (j & c & k' & Hj & -> & Hl). simpl. rewrite <-Hl, <-(look_child ts (Z.of_nat (0 + j)) k' c); [done|lia|]. by rewrite Nat2Z.id.
    + intros H. right. apply Hg. destruct k as [|x k]; [done|]. rewrite look_Branch in H. unfold index in H. destruct (Z.leb_spec 0 x); [|done].
      destruct (ts !! Z.to_nat x) as [c|] eqn:Ec; [|done]. exists (Z.to_nat x), c, k. split; [done|]. split; [|done]. by rewrite Nat.add_0_l, Z2Nat.id.
Qed.

End Exists.

(** ** Hashing twice *)

Section Fixed.
Context {X : Keccak.Impl}.

(** A node with a cached hash is left alone. *)
Lemma hashRoot_cached t n x : root t = n -> (exists k c f, n = shortNode k c f /\ TrieNode.hash f = Some x) \/ (exists cs f, n = fullNode cs f /\ TrieNode.hash f = Some x) ->
  hashRoot t None None = Ok (hashNode x, n, None).
Proof.
  intros Hn [(k & c & f & -> & Hf)|(cs & f & -> & Hf)]; unfold hashRoot; rewrite Hn; simpl; unfold use_cache; simpl; by rewrite Hf.
Qed.

Lemma with_hash_cached n m x b db l1 l2 coll db' : hashChildren l1 l2 None n db = Ok (coll, m, db') ->
  (exists k c f, n = shortNode k c f) \/ (exists cs f, n = fullNode cs f) ->
  (exists k c f, with_hash (hashNode x) b m = shortNode k c f /\ TrieNode.hash f = Some x) \/
  (exists cs f, with_hash (hashNode x) b m = fullNode cs f /\ TrieNode.hash f = Some x).
Proof.
  unfold hashChildren. intros H [(k & c & f & ->)|(cs & f & ->)]; simpl in H.
  - apply rbind_Ok_inv in H as (key & _ & H). apply rbind_Ok_inv in H as ([[? ?] ?] & _ & H). injection H as <- <- <-. left. by eexists _, _, _.
  - apply rbind_Ok_inv in H as ([[? ?] ?] & _ & H). injection H as <- <- <-. right. by eexists _, _.
Qed.

Lemma Hash_fixed t t' h : (forall v, root t <> valueNode v) -> Trie_Hash t = Ok (t', h) -> Trie_Hash t' = Ok (t', h).
Proof.
  intros Hv H. unfold Trie_Hash in H. apply rbind_Ok_inv in H as ([[hashed cached] db] & Hr & H). apply rbind_Ok_inv in H as (h' & Hh & H).
  injection H as <- <-. assert (exists db', hashRoot (set_root cached t) None None = Ok (hashed, cached, db')) as (db' & E).
  2: { unfold Trie_Hash. rewrite E. cbn [rbind]. by rewrite Hh. }
  destruct hashed as [| |x| |]; try done. destruct (root t) as [|v|y|k c f|cs f] eqn:En; [|by destruct (Hv v)| | |].
  - unfold hashRoot in *. rewrite En in Hr. injection Hr as <- <- _. simpl. by eexists.
  - unfold hashRoot in *. rewrite En in Hr. simpl in Hr. injection Hr as <- <- _. simpl. by eexists.
  - unfold hashRoot in Hr. rewrite En, hash_eq in Hr. unfold use_cache in Hr. cbn [cache rbind] in Hr. destruct (TrieNode.hash f) as [z|] eqn:Ef; cbn [rbind] in Hr.
    + injection Hr as <- <- _. exists None. apply hashRoot_cached; [done|]. left. by eexists _, _, _.
    + apply rbind_Ok_inv in Hr as ([[coll m] db1] & Hc & Hr). apply rbind_Ok_inv in Hr as ([hd db2] & Hs & Hr). injection Hr as -> <- _.
      exists None. apply hashRoot_cached; [done|]. eapply with_hash_cached; [exact Hc|]. left. by eexists _, _, _.
  - unfold hashRoot in Hr. rewrite En, hash_eq in Hr. unfold use_cache in Hr. cbn [cache rbind] in Hr. destruct (TrieNode.hash f) as [z|] eqn:Ef; cbn [rbind] in Hr.
    + injection Hr as <- <- _. exists None. apply hashRoot_cached; [done|]. right. by eexists _, _.
    + apply rbind_Ok_inv in Hr as ([[coll m] db1] & Hc & Hr). apply rbind_Ok_inv in Hr as ([hd db2] & Hs & Hr). injection Hr as -> <- _.
      exists None. apply hashRoot_cached; [done|]. eapply with_hash_cached; [exact Hc|]. right. by eexists _, _.
Qed.

End Fixed.

(** ** The entries *)

Lemma from_path_in key l x : ordered l -> x ∈ from_path key l <-> x ∈ l /\ ~ before (iPath x) key.
Proof.
  intros Ho. induction l as [|y l IH]; simpl; [split; [by intros ?%not_elem_of_nil|by intros [?%not_elem_of_nil _]]|].
  pose proof (StronglySorted_inv Ho) as [Ho' Hy]. destruct (Compare (iPath y) key) eqn:Ec.
  2: { rewrite (IH Ho'), elem_of_cons. split; [tauto|]. intros [[->|Hx] Hb]; [by destruct Hb|done]. }
  all: split; [|tauto]; intros Hx; split; [done|]; intros Hb.
  all: assert (~ before (iPath y) key) as Hny by (unfold before; congruence).
  all: apply elem_of_cons in Hx as [->|Hx]; [done|]; apply Hny; eapply before_trans; [|exact Hb]; eapply Forall_forall in Hy; [exact Hy|done].
Qed.

Lemma from_path_ordered key l : ordered l -> ordered (from_path key l).
Proof. induction 1 as [|x l Ho IH Hx]; simpl; [constructor|]. destruct (Compare (iPath x) key); [by constructor|done|by constructor]. Qed.

Lemma from_path_length key l : (length (from_path key l) <= length l)%nat.
Proof. induction l as [|x l IH]; simpl; [done|]. destruct (Compare (iPath x) key); simpl; lia. Qed.

Lemma paired_r {A B} (R : A -> B -> Prop) xs ys y : Forall2 R xs ys -> y ∈ ys -> exists x, x ∈ xs /\ R x y.
Proof.
  intros H Hy. apply list_elem_of_lookup in Hy as (i & Hi). destruct (Forall2_lookup_r _ _ _ _ _ H Hi) as (x & Hx & HR).
  exists x. split; [by eapply list_elem_of_lookup_2|done].
Qed.

Lemma paired_l {A B} (R : A -> B -> Prop) xs ys x : Forall2 R xs ys -> x ∈ xs -> exists y, y ∈ ys /\ R x y.
Proof.
  intros H Hx. apply list_elem_of_lookup in Hx as (i & Hi). destruct (Forall2_lookup_l _ _ _ _ _ H Hi) as (y & Hy & HR).
  exists y. split; [by eapply list_elem_of_lookup_2|done].
Qed.

Lemma Forall2_in {A B} (R : A -> B -> Prop) xs ys : Forall2 R xs ys -> Forall2 (fun x y => x ∈ xs /\ R x y) xs ys.
Proof.
  intros H. apply Forall2_same_length_lookup. split; [by eapply Forall2_length|]. intros i x y Hx Hy. split; [by eapply list_elem_of_lookup_2|].
  by eapply Forall2_lookup_lr.
Qed.

Lemma leaves_ordered l : ordered l -> ordered (leaves l).
Proof.
  induction 1 as [|x l Ho IH Hx]; [constructor|]. unfold leaves in *. rewrite filter_cons. case_decide; [|done].
  constructor; [done|]. apply Forall_forall. intros y [_ Hy]%list_elem_of_filter. by eapply Forall_forall in Hx.
Qed.

Section Contents.
Context {X : Keccak.Impl} {XL : ImplLaws X keccak_f} (known : bytes -> Prop) (N : Hash -> option bytes).

Lemma empty_state_hash : hsh [] = emptyState.
Proof. apply (hsh_compute [] emptyState); [constructor|vm_compute; reflexivity]. Qed.

Lemma troot_not_state T : blobs known -> known [] -> T = E \/ wf T -> tree_known known T -> troot T <> emptyState.
Proof.
  intros Hk H0 [->|Hw] Ht; [vm_compute; discriminate|]. rewrite (troot_wf T Hw), <-empty_state_hash. intros Eh.
  apply (known_inj _ Hk) in Eh; [|by apply tree_known_enc|done].
  assert (forall l, RlpCanon.rlp_item (RlpCanon.Lst l) <> []) as Hl.
  { intros l El. simpl in El. unfold RlpSpec.rlp_list, RlpSpec.header in El. by destruct (_ <? 56). }
  inversion Hw; subst; by apply Hl in Eh.
Qed.

(** The items of a hashed trie. *)
Lemma fresh_exists t T h : rep (M := hash_marks N) N true (root t) T -> T = E \/ wf T -> Trie_Hash t = Ok (t, h) -> (T = E -> h = emptyRoot) ->
  exists l, fresh N t l /\ shown <$> l = nodes_of [] T.
Proof.
  intros Hr Hs Hh He. destruct Hs as [->|Hw].
  - apply rep_E in Hr. rewrite (He eq_refl) in Hh. exists [mkItem [] zeroHash zeroHash None]. split; [|done].
    exists emptyRoot, (mkState zeroHash nilNode zeroHash (-1) 0). rewrite bool_decide_true by done. rewrite Hr.
    repeat (split; [done|]). exists []. split; [done|constructor].
  - destruct (rep_opened (M := hash_marks N) N (cachegen t) true (root t) T Hr (wf_not_E T Hw)) as (n & h0 & Ho & Hn & Hnh).
    assert (place [] T) as Hp by (left; split; [done|constructor]).
    assert (exists hr, state_resolve N t (mkState (if bool_decide (h = emptyRoot) then zeroHash else h) (root t) zeroHash (-1) 0) [] =
      Ok (inr (mkState hr n zeroHash (-1) 0))) as (hr & Er).
    { unfold state_resolve. cbn [sNode]. inversion Ho as [c ho d Hc Ec|hh n' Hres Hn']; subst.
      - destruct (root t); try done; by eexists.
      - rewrite Hres. by eexists. }
    destruct (visits_exist (M := hash_marks N) N (cachegen t) T true [] (ancestor hr zeroHash) n Hn Hnh (or_intror Hp)) as (l & Hk & El).
    assert (tree_value T = None) as Hv by (by inversion Hw).
    exists (mkItem [] hr zeroHash None :: l). split; [|rewrite fmap_cons, <-El, Hv; done].
    exists h, (mkState hr n zeroHash (-1) 0). do 5 (split; [done|]).
    split; [cbn [sNode]; by rewrite (rep_value_of (M := hash_marks N) N true n T Hnh Hn)|]. by exists l.
Qed.

(** A new iterator stands before the items from its start on. *)
Lemma started_at t t' h l start fuel : Trie_Hash t = Ok (t', h) -> h <> emptyState -> fresh N t' l -> (length l < fuel)%nat ->
  exists it, newNodeIterator N fuel t start = Ok it /\ node_stands N it None (from_path (hex_of start) l).
Proof.
  intros Eh Hne Hf Hl. unfold newNodeIterator. rewrite Eh. cbn [rbind]. rewrite bool_decide_false by done.
  unfold seek. replace (take (length (keybytesToHex start) - 1) (keybytesToHex start)) with (hex_of start).
  2: { unfold keybytesToHex, hex_of. rewrite length_app. simpl. by rewrite Nat.add_sub, take_app_length. }
  pose proof (seek_loop_spec N fuel start (hex_of start) (mkIter (Some t') [] [] None) None l eq_refl) as H.
  destruct (from_path (hex_of start) l) as [|x r].
  - destruct H as (it & ->); [|done|by left|]. { right. split; [done|]. exists t'. split; [done|]. by left. }
    cbn [rbind]. eexists. split; [done|]. by left.
  - destruct H as (it & -> & He & Hs); [|done|by left|]. { right. split; [done|]. exists t'. split; [done|]. by left. }
    cbn [rbind]. eexists. split; [done|]. replace (set_err None it) with it; [done|]. destruct it; simpl in *; by subst.
Qed.

Lemma fresh_ordered t l : fresh N t l -> ordered l.
Proof.
  intros Hf. apply (node_stands_ordered N (mkIter (Some t) [] [] None) None l). right. split; [done|]. exists t. split; [done|]. by left.
Qed.

Lemma tree_entry T m l x v : shown <$> l = nodes_of [] T -> contents T m -> x ∈ l -> iValue x = Some v ->
  exists k, bytes_ok k /\ m !! k = Some v /\ iPath x = keybytesToHex k.
Proof.
  intros El Hc Hx Hv. apply (list_elem_of_fmap_2 shown) in Hx. rewrite El in Hx. unfold shown in Hx. rewrite Hv in Hx.
  apply (nodes_of_look T [] (iPath x) v) in Hx. destruct (c_keys _ _ Hc _ _ Hx) as (k & Hb & Ek). exists k. split; [done|]. split; [|done].
  rewrite <-(c_get _ _ Hc k Hb), <-Ek. done.
Qed.

Lemma entry_item T m l k v : shown <$> l = nodes_of [] T -> contents T m -> bytes_ok k -> m !! k = Some v ->
  exists x, x ∈ l /\ iPath x = keybytesToHex k /\ iValue x = Some v.
Proof.
  intros El Hc Hb Hm. rewrite <-(c_get _ _ Hc k Hb) in Hm. apply (nodes_of_look T [] (keybytesToHex k) v) in Hm. simpl in Hm. rewrite <-El in Hm.
  apply list_elem_of_fmap in Hm as (x & E & Hx). injection E as E1 E2. by exists x.
Qed.

Lemma sorted_entries xs kvs : ordered xs -> Forall2 (fun x e => iPath x = keybytesToHex (fst e)) xs kvs ->
  StronglySorted (fun a b : bytes * bytes => before (keybytesToHex (fst a)) (keybytesToHex (fst b))) kvs.
Proof.
  intros Ho H. induction H as [|x e xs kvs Ep H IH]; [constructor|]. apply StronglySorted_inv in Ho as [Ho Hx].
  constructor; [by apply IH|]. apply Forall_forall. intros e' He'. destruct (paired_r _ _ _ e' H He') as (y & Hy & Ep').
  eapply Forall_forall in Hx; [|exact Hy]. unfold behind in Hx. by rewrite <-Ep, <-Ep'.
Qed.

(** C32: iterating over a trie delivers exactly the entries of the map it represents,
    in the order of their keys (as paths: a key comes after the longer keys it
    is a prefix of), from the start that was given, an entry with that very key
    included (the comment of [NodeIterator] says from the key after it), without
    an error, whatever parts of the trie are still in the database; the loops
    end. *)
Theorem iterate_contents (t : Trie) (m : gmap bytes bytes) (start : bytes) :
  blobs known -> known [] -> map_known known m -> represents (M := hash_marks N) N t m ->
  exists F, forall fuel, (F <= fuel)%nat -> exists it kvs,
    newNodeIterator N fuel t start = Ok it /\
    entries (NodeIterator0 := node_ops N fuel) fuel fuel (NewIterator it) = Ok (kvs, None) /\
    StronglySorted (fun a b => before (keybytesToHex (fst a)) (keybytesToHex (fst b))) kvs /\
    forall k v, (k, v) ∈ kvs <-> bytes_ok k /\ m !! k = Some v /\ ~ before (keybytesToHex k) (hex_of start).
Proof.
  intros Hk H0 Hm (T & Hr & Hc). destruct (Hash_ok known N t m T Hk Hm Hr Hc) as (t' & Eh & T' & Hr' & Hc').
  pose proof (contents_unique _ _ _ Hc' Hc) as ->. pose proof (c_shape _ _ Hc) as Hs.
  assert (forall v, root t <> valueNode v) as Hnv by (intros v E; rewrite E in Hr; apply rep_value_inv in Hr as ->; destruct Hs as [|Hw]; [done|inversion Hw]).
  pose proof (Hash_fixed t t' _ Hnv Eh) as Eh'.
  destruct (fresh_exists t' T (troot T) Hr' Hs Eh') as (l & Hf & El); [by intros ->|].
  exists (S (length l)). intros fuel Hfuel. destruct (started_at t t' (troot T) l start fuel) as (it & En & Hit); try done.
  { apply troot_not_state; try done. by apply Hm. }
  pose proof (fresh_ordered t' l Hf) as Ho.
  pose proof (from_path_length (hex_of start) l) as Hlen.
  assert (Hkey : forall x v, x ∈ l -> iValue x = Some v -> exists k, bytes_ok k /\ m !! k = Some v /\ iPath x = keybytesToHex k).
  { intros x v Hx Hv. apply (tree_entry T m l x v El Hc Hx Hv). }
  destruct (entries_spec (NodeIterator0 := node_ops N fuel) (NodeIteratorLaws0 := node_laws N fuel) fuel fuel None (NewIterator it) _ Hit) as (kvs & Ee & Hkvs); [|lia|lia|].
  { intros x v Hx Hv. apply from_path_in in Hx as [Hx _]; [|done]. destruct (Hkey x v Hx Hv) as (k & Hb & _ & ->). exists k.
    by apply hexToKeybytes_keybytesToHex. }
  exists it, kvs. split; [done|]. split; [done|].
  assert (Hpath : Forall2 (fun x e => x ∈ from_path (hex_of start) l /\ iPath x = keybytesToHex (fst e) /\ bytes_ok (fst e) /\ m !! fst e = Some (snd e))
    (leaves (from_path (hex_of start) l)) kvs).
  { eapply Forall2_impl; [exact (Forall2_in _ _ _ Hkvs)|]. intros x [k v] [[_ Hx]%list_elem_of_filter [Hv Ek]]. split; [done|].
    apply from_path_in in Hx as [Hx _]; [|done]. destruct (Hkey x v Hx Hv) as (k' & Hb & Hm' & Ep). rewrite Ep, hexToKeybytes_keybytesToHex in Ek by done.
    injection Ek as ->. done. }
  split.
  { apply (sorted_entries (leaves (from_path (hex_of start) l))); [by apply leaves_ordered, from_path_ordered|].
    eapply Forall2_impl; [exact Hpath|]. by intros x e (_ & ? & _). }
  intros k v. split.
  - intros Hin. destruct (paired_r _ _ _ _ Hpath Hin) as (x & _ & Hx & Ep & Hb & Hmk). simpl in *. split; [done|]. split; [done|].
    rewrite <-Ep. by apply from_path_in in Hx as [_ ?].
  - intros (Hb & Hmk & Hge). destruct (entry_item T m l k v El Hc Hb Hmk) as (x & Hx & Ep & Hv).
    assert (x ∈ leaves (from_path (hex_of start) l)) as Hxl.
    { apply list_elem_of_filter. split; [by rewrite Hv|]. apply from_path_in; [done|]. by rewrite Ep. }
    destruct (paired_l _ _ _ _ Hkvs Hxl) as ([k' v'] & Hin & Hv' & Ek). simpl in *. rewrite Ep, hexToKeybytes_keybytesToHex in Ek by done.
    injection Ek as ->. by rewrite Hv in Hv'; injection Hv' as ->.
Qed.

End Contents.

(** The blobs of the trie with one key, and the empty string. *)
Definition iter_blobs (b : bytes) : Prop := b = tenc one_tree \/ b = [].

Lemma iter_blobs_ok : blobs iter_blobs.
Proof.
  split.
  - intros b [->| ->]; vm_compute; discriminate.
  - intros a b [->| ->] [->| ->]; rewrite ?one_hash_ok, ?empty_state_hash; (reflexivity || discriminate).
  - intros b [->| ->]; rewrite ?one_hash_ok, ?empty_state_hash; discriminate.
Qed.

Lemma iter_key_known : map_known iter_blobs one_key.
Proof.
  intros T HT. assert (T = one_tree) as ->.
  { apply (contents_unique _ _ one_key); [done|]. apply contents_single; [apply of_string_ok|discriminate]. }
  split; [by left|apply of_string_ok].
Qed.

Lemma iterate_contents_witness : exists F it kvs,
  newNodeIterator (H := Keccak.generic) (fun _ => None) F (history detour) (of_string "d") = Ok it /\
  entries (NodeIterator0 := node_ops (H := Keccak.generic) (fun _ => None) F) F F (NewIterator it) = Ok (kvs, None) /\ (of_string "dog", of_string "puppy") ∈ kvs.
Proof.
  destruct (iterate_contents (X := Keccak.generic) (XL := KeccakSponge.generic_laws) iter_blobs (fun _ => None) (history detour) one_key (of_string "d")) as (F & H).
  - exact iter_blobs_ok.
  - right. reflexivity.
  - exact iter_key_known.
  - apply history_ok; [exact (proj2 ways_ok)|vm_compute; reflexivity].
  - destruct (H F ltac:(lia)) as (it & kvs & E1 & E2 & _ & H3). exists F, it, kvs. split; [exact E1|]. split; [exact E2|].
    apply H3. split; [apply of_string_ok|]. split; [vm_compute; reflexivity|]. vm_compute. discriminate.
Defined.

End TrieIterLaws.
