(* ===== verification/TrieSync.v ===== *)
(** * Trie: synchronisation

    Translates [src/trie/sync.go]: the scheduler that asks for the missing nodes
    of a trie, takes their data in any order, and hands finished nodes to the
    database.

    Requests refer to each other by pointers: they are numbered objects, and
    the map [requests] holds the numbers.  The priority queue is a third-party
    package, a class of operations here.  A leaf callback is Go code that may
    register sub-tries and raw entries: it is described by what it adds
    ([LeafCallback]).  Data is a byte slice; nil and empty are not told apart,
    as neither decodes to a node. *)

From Stdlib Require Import Lia.
From stdpp Require Import base numbers list gmap.
From S2P Require Import Prelude BigInt Types TrieEncoding TrieNode TrieOps TrieIter.
Import Common TrieNode TrieDecode.
Import TrieOps (emptyRoot).
Import TrieIter (emptyState).

#[local] Open Scope Z_scope.
#[local] Open Scope go_scope.

Module TrieSync.

Class Prque (Q : Type) := {
  q_new : Q;
  q_push : Hash -> Z -> Q -> Q;
  q_pop : Q -> option (Hash * Q);            (* [None] when it is empty *)
  q_size : Q -> nat
}.

Inductive syncErr :=
| ErrNotRequested
| ErrAlreadyProcessed
| badNode (e : decErr)
| callbackFailed
| putFailed.

(** What a callback does for a leaf: its calls of the scheduler, and whether it
    returns an error. *)
Inductive LeafCallback := mkCallback (f : bytes -> Hash -> list addition * bool)
with addition :=
| SubTrie (root : Hash) (depth : Z) (parent : Hash) (callback : option LeafCallback)
| RawEntry (hash : Hash) (depth : Z) (parent : Hash).

Definition run_callback (cb : LeafCallback) (leaf : bytes) (parent : Hash) : list addition * bool :=
  match cb with mkCallback f => f leaf parent end.

Record request := mkRequest {
  rHash : Hash;
  rData : option bytes;
  rRaw : bool;
  rParents : list nat;
  rDepth : Z;
  rDeps : Z;
  rCallback : option LeafCallback
}.

Definition with_data (d : bytes) (r : request) : request :=
  mkRequest (rHash r) (Some d) (rRaw r) (rParents r) (rDepth r) (rDeps r) (rCallback r).
Definition with_parents (ps : list nat) (r : request) : request :=
  mkRequest (rHash r) (rData r) (rRaw r) (rParents r ++ ps) (rDepth r) (rDeps r) (rCallback r).
Definition add_deps (n : Z) (r : request) : request :=
  mkRequest (rHash r) (rData r) (rRaw r) (rParents r) (rDepth r) (rDeps r + n) (rCallback r).

Record SyncResult := { resHash : Hash; resData : bytes }.

Section Sync.
Context {Q : Type} `{!Prque Q}.

Record TrieSync := mkSync {
  database : gmap bytes bytes;
  batch : gmap Hash bytes;                   (* the membatch *)
  order : list Hash;
  objects : gmap nat request;                (* the requests ever made *)
  nextId : nat;
  requests : gmap Hash nat;
  queue : Q
}.

Definition update (id : nat) (f : request -> request) (s : TrieSync) : TrieSync :=
  mkSync (database s) (batch s) (order s) (alter f id (objects s)) (nextId s) (requests s) (queue s).

Definition schedule (req : request) (s : TrieSync) : TrieSync :=
  match requests s !! rHash req with
  | Some old => update old (with_parents (rParents req)) s
  | None =>
      mkSync (database s) (batch s) (order s) (<[nextId s := req]> (objects s)) (S (nextId s))
        (<[rHash req := nextId s]> (requests s)) (q_push (rHash req) (rDepth req) (queue s))
  end.

(** Linking a new request to its parent, which must be pending. *)
Definition link (parent : Hash) (req : list nat -> request) (s : TrieSync) : result TrieSync :=
  if bool_decide (parent = zeroHash) then Ok (schedule (req []) s)
  else
    match requests s !! parent with
    | None => Panic
    | Some ancestor => Ok (schedule (req [ancestor]) (update ancestor (add_deps 1) s))
    end.

Definition AddSubTrie (root : Hash) (depth : Z) (parent : Hash) (callback : option LeafCallback) (s : TrieSync) : result TrieSync :=
  if bool_decide (root = emptyRoot) then Ok s
  else if bool_decide (is_Some (batch s !! root)) then Ok s
  else
    let? local := decodeNode (Some root) (default [] (database s !! root)) 0 in
    match local with
    | inr _ => Ok s
    | inl _ => link parent (fun ps => mkRequest root None false ps depth 0 callback) s
    end.

Definition AddRawEntry (hash : Hash) (depth : Z) (parent : Hash) (s : TrieSync) : result TrieSync :=
  if bool_decide (hash = emptyState) then Ok s
  else if bool_decide (is_Some (batch s !! hash)) then Ok s
  else if bool_decide (is_Some (database s !! hash)) then Ok s
  else link parent (fun ps => mkRequest hash None true ps depth 0 None) s.

Definition NewTrieSync (root : Hash) (db : gmap bytes bytes) (callback : option LeafCallback) : result TrieSync :=
  AddSubTrie root 0 zeroHash callback (mkSync db ∅ [] ∅ 0 ∅ q_new).

(** At most [fuel] hashes, the size of the queue when there is no maximum. *)
Fixpoint take_queue (fuel : nat) (q : Q) : list Hash * Q :=
  match fuel with
  | O => ([], q)
  | S fuel =>
      match q_pop q with
      | None => ([], q)
      | Some (h, q) => let '(l, q) := take_queue fuel q in (h :: l, q)
      end
  end.

Definition Missing (max : Z) (s : TrieSync) : list Hash * TrieSync :=
  let '(l, q) := take_queue (if max =? 0 then q_size (queue s) else Z.to_nat max) (queue s) in
  (l, mkSync (database s) (batch s) (order s) (objects s) (nextId s) (requests s) q).

(** *** [commit] *)

(** The request leaves the pending ones and its data enters the membatch. *)
Definition finish (req : request) (s : TrieSync) : TrieSync :=
  mkSync (database s) (<[rHash req := default [] (rData req)]> (batch s)) (order s ++ [rHash req])
    (objects s) (nextId s) (base.delete (rHash req) (requests s)) (queue s).

Definition deps_of (id : nat) (s : TrieSync) : Z := match objects s !! id with Some r => rDeps r | None => 0 end.

Section Parents.
Context (commit : nat -> TrieSync -> result TrieSync).

Fixpoint notify (parents : list nat) (s : TrieSync) : result TrieSync :=
  match parents with
  | [] => Ok s
  | parent :: parents =>
      let s := update parent (add_deps (-1)) s in
      let? s := (if deps_of parent s =? 0 then commit parent s else Ok s) in
      notify parents s
  end.

End Parents.

Fixpoint commit (fuel : nat) (id : nat) (s : TrieSync) : result TrieSync :=
  match fuel with
  | O => NoFuel
  | S fuel =>
      match objects s !! id with
      | None => Panic
      | Some req => notify (commit fuel) (rParents req) (finish req s)
      end
  end.

(** Every nested commit ends a pending request. *)
Definition commit_request (id : nat) (s : TrieSync) : result TrieSync := commit (S (size (requests s))) id s.

(** *** [children] *)

Definition run_addition (a : addition) (s : TrieSync) : result TrieSync :=
  match a with
  | SubTrie root depth parent cb => AddSubTrie root depth parent cb s
  | RawEntry hash depth parent => AddRawEntry hash depth parent s
  end.

Fixpoint run_additions (l : list addition) (s : TrieSync) : result TrieSync :=
  match l with
  | [] => Ok s
  | a :: l => let? s := run_addition a s in run_additions l s
  end.

(** The children of a node, with their depths. *)
Definition node_children (depth : Z) (n : node) : result (list (node * Z)) :=
  match n with
  | shortNode k v _ => Ok [(v, i64 (depth + len k))]
  | fullNode cs _ => Ok ((fun c => (c, i64 (depth + 1))) <$> List.filter (fun c => match c with nilNode => false | _ => true end) (take 17 cs))
  | _ => Panic
  end.

(** The requests for the children that are not there, after those in [acc]. *)
Fixpoint children_loop (id : nat) (req : request) (cs : list (node * Z)) (acc : list request) (s : TrieSync)
  : result (syncErr + list request) * TrieSync :=
  match cs with
  | [] => (Ok (inr acc), s)
  | (c, depth) :: cs =>
      let called :=
        match c, rCallback req with
        | valueNode v, Some cb =>
            let '(adds, failed) := run_callback cb v (rHash req) in
            let? s := run_additions adds s in Ok (s, failed)
        | _, _ => Ok (s, false)
        end in
      match called with
      | Panic => (Panic, s)
      | NoFuel => (NoFuel, s)
      | Ok (s, true) => (Ok (inl callbackFailed), s)
      | Ok (s, false) =>
          match c with
          | hashNode h =>
              let hash := BytesToHash h in
              if bool_decide (is_Some (batch s !! hash)) || bool_decide (is_Some (database s !! h))
              then children_loop id req cs acc s
              else children_loop id req cs (acc ++ [mkRequest hash None false [id] depth 0 (rCallback req)]) s
          | _ => children_loop id req cs acc s
          end
      end
  end.

Definition children (id : nat) (req : request) (object : node) (s : TrieSync) : result (syncErr + list request) * TrieSync :=
  match node_children (rDepth req) object with
  | Ok cs => children_loop id req cs [] s
  | _ => (Panic, s)
  end.

(** *** [Process] *)

(** One result: the error, whether something was committed. *)
Definition process_one (item : SyncResult) (s : TrieSync) : result (option syncErr * bool * TrieSync) :=
  match requests s !! resHash item with
  | None => Ok (Some ErrNotRequested, false, s)
  | Some id =>
      match objects s !! id with
      | None => Panic
      | Some request =>
          if bool_decide (is_Some (rData request)) then Ok (Some ErrAlreadyProcessed, false, s)
          else if rRaw request then
            let? s := commit_request id (update id (with_data (resData item)) s) in Ok (None, true, s)
          else
            let? r := decodeNode (Some (resHash item)) (resData item) 0 in
            match r with
            | inl e => Ok (Some (badNode e), false, s)
            | inr node =>
                let s := update id (with_data (resData item)) s in
                let '(r, s) := children id request node s in
                let? r := r in
                match r with
                | inl e => Ok (Some e, false, s)
                | inr reqs =>
                    if bool_decide (reqs = []) && (deps_of id s =? 0) then
                      let? s := commit_request id s in Ok (None, true, s)
                    else Ok (None, false, fold_left (fun s child => schedule child s) reqs (update id (add_deps (Z.of_nat (length reqs))) s))
                end
            end
      end
  end.

(** Whether something was committed, the number of the result that failed (0
    without an error), and the error. *)
Fixpoint Process_from (i : Z) (committed : bool) (results : list SyncResult) (s : TrieSync) : result (bool * Z * option syncErr * TrieSync) :=
  match results with
  | [] => Ok (committed, 0, None, s)
  | item :: results =>
      let? (err, c, s) := process_one item s in
      match err with
      | Some e => Ok (committed, i, Some e, s)
      | None => Process_from (i + 1) (committed || c) results s
      end
  end.

Definition Process (results : list SyncResult) (s : TrieSync) : result (bool * Z * option syncErr * TrieSync) :=
  Process_from 0 false results s.

(** *** [Commit] *)

Definition put_all (keys : list Hash) (s : TrieSync) : gmap bytes bytes :=
  fold_left (fun db key => <[key := default [] (batch s !! key)]> db) keys (database s).

(** The writer is the database itself; it fails after [fails] writes. *)
Definition Commit (fails : option nat) (s : TrieSync) : Z * option syncErr * TrieSync :=
  match fails with
  | Some n =>
      if (n <? length (order s))%nat then
        (Z.of_nat n, Some putFailed,
         mkSync (put_all (take n (order s)) s) (batch s) (order s) (objects s) (nextId s) (requests s) (queue s))
      else (len (order s), None, mkSync (put_all (order s) s) ∅ [] (objects s) (nextId s) (requests s) (queue s))
  | None => (len (order s), None, mkSync (put_all (order s) s) ∅ [] (objects s) (nextId s) (requests s) (queue s))
  end.

Definition Pending (s : TrieSync) : nat := size (requests s).

End Sync.
Arguments TrieSync : clear implicits.

End TrieSync.
