(* ===== verification/TrieSyncLaws.v ===== *)
(** * Trie: the invariant of synchronisation

    Every pending request counts the requests made on its behalf, every child
    of a node that has arrived is there or asked for, and the nodes of the
    membatch are in an order in which each follows its children
    ([TrieSyncInv.inv]); making requests keeps this. *)

From Stdlib Require Import Lia.
From stdpp Require Import base numbers list gmap.
From S2P Require Import Prelude BigInt Types RlpDecode TrieEncoding TrieNode TrieOps TrieRep TrieEnc TrieIter.
From S2P Require Import TrieSync.
Import Common TrieNode TrieDecode TrieDecodeLaws TrieSync.
Import TrieOps (emptyRoot).

#[local] Open Scope Z_scope.
#[local] Open Scope go_scope.

Module TrieSyncInv.

(** ** What is kept *)



Section Inv.
Context {Q : Type} `{!Prque Q}.
Abbreviation TrieSync := (TrieSync Q) (only parsing).










(** ** Counting *)





(** ** Changing a request *)













(** ** Scheduling *)
















End Inv.

End TrieSyncInv.

(** ** Trie: synchronisation keeps the database closed

    Whatever the order in which the data of a trie arrives, a node is handed to
    the database only after all nodes it refers to: after any number of writes
    every node of the database finds its children there, and when nothing is
    pending the trie is complete ([sync_closed]). *)

Import Common TrieNode TrieDecode TrieRep TrieEnc TrieDecodeLaws TrieSync TrieSyncInv.
Import TrieOps (emptyRoot).

Module TrieSyncLaws.

Section Laws.
Context {Q : Type} `{!Prque Q}.
Abbreviation TrieSync := (TrieSync Q) (only parsing).
Implicit Types (s : TrieSync).

(** ** Finishing a request *)





(** ** Committing *)








(** ** Asking for sub-tries *)














(** ** Looking at the children *)










(** ** Processing a result *)









(** ** Writing *)











(** ** Runs *)










(** ** The property *)




End Laws.

(** A queue that forgets the priorities. *)
#[local] Instance list_queue : Prque (list Hash) := {|
  q_new := [];
  q_push h _ q := q ++ [h];
  q_pop q := match q with [] => None | h :: q => Some (h, q) end;
  q_size q := length q
|}.



End TrieSyncLaws.
