(* ===== verification/TxTypes.v ===== *)
(** * Transactions, signers, blooms and receipts

    Translates [src/core/types]: [bloom9.go], [transaction.go],
    [transaction_signing.go], the status of a receipt from [receipt.go], and
    [rlpHash] of [block.go]; and [Sign] of [src/crypto/signature_cgo.go].

    A [*big.Int] field of a transaction is an integer: every constructor and
    decoder sets it.  The caches of a transaction ([atomic.Value]s) are fields
    of its record, and an operation that fills one returns the transaction with
    it.  Hashing runs the RLP encoder and the sponge; the type cache of the
    encoder starts empty on each call.  The signature and recovery functions of
    libsecp256k1 are parameters, as is the order in which Go ranges over a map. *)

From Stdlib Require Import String Lia.
From stdpp Require Import base numbers strings list option gmap.
From S2P Require Import Prelude BigInt Types Params Machine Precompiles.
From S2P Require Import RlpTypes RlpEncode RlpLaws Keccak Keys HexText TrieIter.
Import Common.

#[local] Open Scope Z_scope.
#[local] Open Scope go_scope.

(** ** [rlpHash] *)

Module RlpHash.
Import RlpTypes RlpEncode.

(** The declarations of the types that are hashed. *)
Definition field (name : string) (tag : string) (t : typ) : sfield :=
  {| Name := name; Exported := true; Tag := tag; Type' := t |}.
Definition byte_array (n : nat) : decl :=
  {| Under := UType (TArray n (TUint W8)); EncodeRLP_on := None; DecodeRLP_on := None |}.

Definition TxData : typ := TNamed "types.txdata".
Definition HashType : typ := TNamed "common.Hash".
Definition txdata_fields : list sfield :=
  [field "AccountNonce" "" (TUint W64); field "Price" "" (TPtr TBigInt); field "GasLimit" "" (TUint W64);
   field "Recipient" "nil" (TPtr Keys.AddressType); field "Amount" "" (TPtr TBigInt);
   field "Payload" "" (TSlice (TUint W8));
   field "V" "" (TPtr TBigInt); field "R" "" (TPtr TBigInt); field "S" "" (TPtr TBigInt);
   field "Hash" "-" (TPtr HashType)].

Definition types_env : gmap string decl :=
  <["common.Address" := Keys.AddressDecl]>
  (<["common.Hash" := byte_array 32]>
  {["types.txdata" := {| Under := UStruct txdata_fields; EncodeRLP_on := None; DecodeRLP_on := None |}]}).

Section Hash.
Context `{!Keccak.Impl}.

(** Types nest three deep and values five deep. *)
Definition gen_fuel : nat := 8.
Definition run_fuel : nat := 8.

(** [hw.Write] as the [io.Writer] of the encoder. *)
Definition hw_Write (hw : result Keccak.state) (b : bytes) : result Keccak.state * (Z * option error) :=
  (let? d := hw in let? (d, _) := Keccak.Write d b in Ok d, (len b, None)).

(** The error of the encoder is ignored: nothing has been written then. *)
Definition rlpHash (t : typ) (v : val) : result Hash :=
  let? (_, hw, _) := Encode types_env RlpLaws.no_encoders gen_fuel hw_Write run_fuel empty_encbuf t v empty_cache
    (Ok Keccak.NewKeccak256) in
  let? d := hw in Keccak.Sum d [].

End Hash.
End RlpHash.

(** ** [bloom9.go] *)

Module Bloom.
Import Big.

Definition BloomByteLength : Z := 256.
Definition BloomBitLength : Z := 8 * BloomByteLength.
Abbreviation Bloom := (list Z) (only parsing).
Definition emptyBloom : Bloom := zeros BloomByteLength.

Definition SetBytes_ (b : Bloom) (d : bytes) : result Bloom :=
  if len b <? len d then Panic else copy_at b (BloomByteLength - len d) BloomByteLength d.
Definition BytesToBloom (b : bytes) : result Bloom := SetBytes_ emptyBloom b.
Definition Bloom_Big (b : Bloom) : Z := SetBytes b.
Definition Bloom_Bytes (b : Bloom) : bytes := b.
Definition Bloom_MarshalText (b : Bloom) : bytes := Hexutil.Bytes_MarshalText b.
Definition Bloom_UnmarshalText : bytes -> Hexutil.hexErr + Bloom := Hexutil.UnmarshalFixedText BloomByteLength.

Record Log := mkLog {
  Address_ : Address;
  Topics : list Hash;
  Data : bytes;
  BlockNumber : Z;
  TxHash : Hash;
  TxIndex : Z;
  BlockHash : Hash;
  Index : Z;
  Removed : bool
}.

Record Receipt := mkReceipt {
  PostState : bytes;
  Status : Z;
  CumulativeGasUsed : Z;
  RBloom : Bloom;
  Logs : list Log;
  RTxHash : Hash;
  ContractAddress : Address;
  GasUsed : Z
}.

Section Filter.
Context `{!Keccak.Impl}.

(** Three of the 2048 bits, at 0, 2 and 4. *)
Fixpoint bloom9_loop (n : nat) (i : Z) (b : bytes) (r : Z) : result Z :=
  match n with
  | O => Ok r
  | S n =>
      let? hi := index b i in
      let? lo := index b (i + 1) in
      let bit := Z.land (u64 (lo + u64 (Z.shiftl hi 8))) 2047 in
      bloom9_loop n (i + 2) b (Z.lor r (Z.shiftl 1 bit))
  end.

Definition bloom9 (b : bytes) : result Z :=
  let? b := Keys.Keccak256 [b] in bloom9_loop 3 0 b 0.

Definition Add (b : Bloom) (d : Z) : result Bloom :=
  let bin := SetBytes b in
  let? x := bloom9 (Bytes d) in
  SetBytes_ b (Bytes (Z.lor bin x)).

Definition BloomLookup (bin : Bloom) (topic : bytes) : result bool :=
  let? cmp := bloom9 topic in Ok (Z.land (Bloom_Big bin) cmp =? cmp).

Definition Test (b : Bloom) (test : Z) : result bool := BloomLookup b (Bytes test).
Definition TestBytes (b : Bloom) (test : bytes) : result bool := Test b (SetBytes test).

Fixpoint or_all (keys : list bytes) (bin : Z) : result Z :=
  match keys with
  | [] => Ok bin
  | k :: keys => let? x := bloom9 k in or_all keys (Z.lor bin x)
  end.

Fixpoint LogsBloom_loop (logs : list Log) (bin : Z) : result Z :=
  match logs with
  | [] => Ok bin
  | log :: logs =>
      let? x := bloom9 (Address_ log) in
      let? bin := or_all (Topics log) (Z.lor bin x) in
      LogsBloom_loop logs bin
  end.
Definition LogsBloom (logs : list Log) : result Z := LogsBloom_loop logs 0.

Fixpoint CreateBloom_loop (receipts : list Receipt) (bin : Z) : result Z :=
  match receipts with
  | [] => Ok bin
  | receipt :: receipts => let? x := LogsBloom (Logs receipt) in CreateBloom_loop receipts (Z.lor bin x)
  end.
Definition CreateBloom (receipts : list Receipt) : result Bloom :=
  let? bin := CreateBloom_loop receipts 0 in BytesToBloom (Bytes bin).

End Filter.

(** ** The status of a receipt *)

Definition receiptStatusFailedRLP : bytes := [].
Definition receiptStatusSuccessfulRLP : bytes := [1].
Definition ReceiptStatusFailed : Z := 0.
Definition ReceiptStatusSuccessful : Z := 1.

Definition NewReceipt (root : bytes) (failed : bool) (cumulativeGasUsed : Z) : Receipt :=
  mkReceipt root (if failed then ReceiptStatusFailed else ReceiptStatusSuccessful) cumulativeGasUsed
    emptyBloom [] zeroHash zeroAddress 0.

Definition set_status (r : Receipt) (postState : bytes) (status : Z) : Receipt :=
  mkReceipt postState status (CumulativeGasUsed r) (RBloom r) (Logs r) (RTxHash r) (ContractAddress r) (GasUsed r).

(** [None] is the error "invalid receipt status". *)
Definition setStatus (r : Receipt) (postStateOrStatus : bytes) : option Receipt :=
  if bool_decide (postStateOrStatus = receiptStatusSuccessfulRLP) then Some (set_status r (PostState r) ReceiptStatusSuccessful)
  else if bool_decide (postStateOrStatus = receiptStatusFailedRLP) then Some (set_status r (PostState r) ReceiptStatusFailed)
  else if len postStateOrStatus =? 32 then Some (set_status r postStateOrStatus (Status r))
  else None.

Definition statusEncoding (r : Receipt) : bytes :=
  if len (PostState r) =? 0 then
    if Status r =? ReceiptStatusFailed then receiptStatusFailedRLP else receiptStatusSuccessfulRLP
  else PostState r.

End Bloom.

(** ** [transaction.go] *)

Module Tx.
Import Big RlpTypes.

Record txdata := mkTxdata {
  AccountNonce : Z;
  Price : Z;
  GasLimit : Z;
  Recipient : option Address;
  Amount : Z;
  Payload : bytes;
  V_ : Z;
  R_ : Z;
  S_ : Z;
  Hash_ : option Hash
}.

Inductive Signer := FrontierSigner | HomesteadSigner | EIP155Signer (chainId chainIdMul : Z).

Record sigCache := mkSigCache { signer : Signer; from : Address }.

Record Transaction := mkTx {
  data : txdata;
  cHash : option Hash;
  cSize : option Z;
  cFrom : option sigCache
}.

Definition newTransaction (nonce : Z) (to : option Address) (amount : option Z) (gasLimit : Z) (gasPrice : option Z)
    (payload : bytes) : Transaction :=
  mkTx (mkTxdata nonce (default 0 gasPrice) gasLimit to (default 0 amount) payload 0 0 0 None) None None None.
Definition NewTransaction (nonce : Z) (to : Address) (amount : option Z) (gasLimit : Z) (gasPrice : option Z)
    (payload : bytes) : Transaction :=
  newTransaction nonce (Some to) amount gasLimit gasPrice payload.
Definition NewContractCreation (nonce : Z) (amount : option Z) (gasLimit : Z) (gasPrice : option Z)
    (payload : bytes) : Transaction :=
  newTransaction nonce None amount gasLimit gasPrice payload.

(** *** Chain ids *)

(** The second subtraction wraps around at 64 bits. *)
Definition deriveChainId (v : Z) : Z :=
  if BitLen v <=? 64 then
    let v := Uint64 v in
    if (v =? 27) || (v =? 28) then 0 else u64 (v - 35) / 2
  else (v - 35) / 2.

Definition isProtectedV (V : Z) : bool :=
  if BitLen V <=? 8 then let v := Uint64 V in negb (v =? 27) && negb (v =? 28) else true.

Definition tx_ChainId (tx : Transaction) : Z := deriveChainId (V_ (data tx)).
Definition Protected (tx : Transaction) : bool := isProtectedV (V_ (data tx)).

Definition NewEIP155Signer (chainId : option Z) : Signer :=
  let chainId := default 0 chainId in EIP155Signer chainId (chainId * 2).

Definition MakeSigner (config : Params.ChainConfig) (blockNumber : option Z) : Signer :=
  if Params.IsEIP155 config blockNumber then NewEIP155Signer (Params.ChainId config)
  else if Params.IsHomestead config blockNumber then HomesteadSigner
  else FrontierSigner.

Definition deriveSigner (V : Z) : Signer :=
  if negb (Z.sgn V =? 0) && isProtectedV V then NewEIP155Signer (Some (deriveChainId V)) else HomesteadSigner.

Definition EIP155_Equal (chainId : Z) (s2 : Signer) : bool :=
  match s2 with EIP155Signer c _ => c =? chainId | _ => false end.
Definition Homestead_Equal (s2 : Signer) : bool := match s2 with HomesteadSigner => true | _ => false end.
Definition Frontier_Equal (s2 : Signer) : bool := match s2 with FrontierSigner => true | _ => false end.

(** The methods of the interface, by the dynamic type of the signer. *)
Definition Equal (s : Signer) : Signer -> bool :=
  match s with
  | EIP155Signer chainId _ => EIP155_Equal chainId
  | HomesteadSigner => Homestead_Equal
  | FrontierSigner => Frontier_Equal
  end.

(** *** What is hashed *)

Definition big (x : Z) : val := VPtr (Some (VBig x)).
Definition recipient_val (to : option Address) : val := VPtr (VBytes <$> to).

Definition txdata_val (d : txdata) : val :=
  VStruct [VUint (AccountNonce d); big (Price d); VUint (GasLimit d); recipient_val (Recipient d); big (Amount d);
           VBytes (Payload d); big (V_ d); big (R_ d); big (S_ d); VPtr (VBytes <$> Hash_ d)].

(** [[]interface{}{tx.data.AccountNonce, ...}]. *)
Definition signed_fields (d : txdata) : list val :=
  map (fun f => VIface (Some f))
    [(TUint W64, VUint (AccountNonce d)); (TPtr TBigInt, big (Price d)); (TUint W64, VUint (GasLimit d));
     (TPtr Keys.AddressType, recipient_val (Recipient d)); (TPtr TBigInt, big (Amount d));
     (TSlice (TUint W8), VBytes (Payload d))].

Definition chain_fields (chainId : Z) : list val :=
  map (fun f => VIface (Some f)) [(TPtr TBigInt, big chainId); (TUint WUint, VUint 0); (TUint WUint, VUint 0)].

Inductive txError := ErrInvalidSig | ErrInvalidChainId | errInvalidPublicKey | errRecover | errSign.

Section Signing.
Context `{!Keccak.Impl}.
(** [secp256k1.Sign] and [secp256k1.RecoverPubkey]. *)
Context (secp256k1_Sign : bytes -> bytes -> option bytes) (RecoverPubkey : bytes -> bytes -> option bytes).

Definition EIP155_Hash (chainId : Z) (tx : Transaction) : result Hash :=
  RlpHash.rlpHash (TSlice (TInterface 0)) (VSlice (signed_fields (data tx) ++ chain_fields chainId) []).
Definition Frontier_Hash (tx : Transaction) : result Hash :=
  RlpHash.rlpHash (TSlice (TInterface 0)) (VSlice (signed_fields (data tx)) []).

(** [HomesteadSigner] embeds [FrontierSigner]. *)
Definition Signer_Hash (s : Signer) : Transaction -> result Hash :=
  match s with
  | EIP155Signer chainId _ => EIP155_Hash chainId
  | HomesteadSigner | FrontierSigner => Frontier_Hash
  end.

(** [tx.EncodeRLP] is [rlp.Encode(w, &tx.data)]. *)
Definition tx_Hash (tx : Transaction) : result (Transaction * Hash) :=
  match cHash tx with
  | Some h => Ok (tx, h)
  | None =>
      let? v := RlpHash.rlpHash (TPtr RlpHash.TxData) (VPtr (Some (txdata_val (data tx)))) in
      Ok (mkTx (data tx) (Some v) (cSize tx) (cFrom tx), v)
  end.

(** The bytes counted by [writeCounter]. *)
Definition tx_Size (tx : Transaction) : result (Transaction * Z) :=
  match cSize tx with
  | Some n => Ok (tx, n)
  | None =>
      let? (_, c, _) := RlpEncode.Encode RlpHash.types_env RlpLaws.no_encoders RlpHash.gen_fuel
        (fun (c : Z) b => (c + len b, (len b, None))) RlpHash.run_fuel RlpEncode.empty_encbuf
        (TPtr RlpHash.TxData) (VPtr (Some (txdata_val (data tx)))) empty_cache 0 in
      Ok (mkTx (data tx) (cHash tx) (Some c) (cFrom tx), c)
  end.

(** *** Signatures *)

Definition Sign (hash : bytes) (prv : Keys.PrivateKey) : option bytes :=
  if negb (len hash =? 32) then None
  else secp256k1_Sign hash (PaddedBigBytes (Keys.D prv) (Keys.BitSize / 8)).

Definition Frontier_SignatureValues (sig : bytes) : result (Z * Z * Z) :=
  if negb (len sig =? 65) then Panic
  else
    let? r := slice sig 0 32 in
    let? s := slice sig 32 64 in
    let? b := index sig 64 in
    Ok (SetBytes r, SetBytes s, SetBytes [(b + 27) mod 256]).

Definition Homestead_SignatureValues (sig : bytes) : result (Z * Z * Z) := Frontier_SignatureValues sig.

Definition EIP155_SignatureValues (chainId chainIdMul : Z) (sig : bytes) : result (Z * Z * Z) :=
  let? (r, s, v) := Homestead_SignatureValues sig in
  if negb (Z.sgn chainId =? 0) then
    let? b := index sig 64 in Ok (r, s, (b + 35) mod 256 + chainIdMul)
  else Ok (r, s, v).

Definition SignatureValues (s : Signer) : bytes -> result (Z * Z * Z) :=
  match s with
  | EIP155Signer chainId chainIdMul => EIP155_SignatureValues chainId chainIdMul
  | HomesteadSigner => Homestead_SignatureValues
  | FrontierSigner => Frontier_SignatureValues
  end.

(** The new transaction has no caches. *)
Definition WithSignature (tx : Transaction) (s : Signer) (sig : bytes) : result Transaction :=
  let? (r, s', v) := SignatureValues s sig in
  let d := data tx in
  Ok (mkTx (mkTxdata (AccountNonce d) (Price d) (GasLimit d) (Recipient d) (Amount d) (Payload d) v r s' (Hash_ d))
    None None None).

Definition SignTx (tx : Transaction) (s : Signer) (prv : Keys.PrivateKey) : result (txError + Transaction) :=
  let? h := Signer_Hash s tx in
  match Sign h prv with
  | None => Ok (inl errSign)
  | Some sig => let? tx := WithSignature tx s sig in Ok (inr tx)
  end.

Definition recoverPlain (sighash : Hash) (R S Vb : Z) (homestead : bool) : result (txError + Address) :=
  if 8 <? BitLen Vb then Ok (inl ErrInvalidSig)
  else
    let V := u64 (Uint64 Vb - 27) mod 256 in
    if negb (Precompiles.ValidateSignatureValues V R S homestead) then Ok (inl ErrInvalidSig)
    else
      let r := Bytes R in
      let s := Bytes S in
      let? sig := copy_at (zeros 65) (32 - len r) 32 r in
      let? sig := copy_at sig (64 - len s) 64 s in
      let? sig := update sig 64 V in
      match RecoverPubkey sighash sig with
      | None => Ok (inl errRecover)
      | Some pub =>
          match pub with
          | 4 :: _ =>
              let? rest := slice pub 1 (len pub) in
              let? h := Keys.Keccak256 [rest] in
              let? tail := slice h 12 (len h) in
              Ok (inr (copy_into zeroAddress tail))
          | _ => Ok (inl errInvalidPublicKey)
          end
      end.

Definition Frontier_Sender (tx : Transaction) : result (txError + Address) :=
  let? h := Frontier_Hash tx in recoverPlain h (R_ (data tx)) (S_ (data tx)) (V_ (data tx)) false.

Definition Homestead_Sender (tx : Transaction) : result (txError + Address) :=
  let? h := Frontier_Hash tx in recoverPlain h (R_ (data tx)) (S_ (data tx)) (V_ (data tx)) true.

Definition EIP155_Sender (chainId chainIdMul : Z) (tx : Transaction) : result (txError + Address) :=
  if negb (Protected tx) then Homestead_Sender tx
  else if negb (tx_ChainId tx =? chainId) then Ok (inl ErrInvalidChainId)
  else
    let V := V_ (data tx) - chainIdMul - 8 in
    let? h := EIP155_Hash chainId tx in recoverPlain h (R_ (data tx)) (S_ (data tx)) V true.

Definition Signer_Sender (s : Signer) : Transaction -> result (txError + Address) :=
  match s with
  | EIP155Signer chainId chainIdMul => EIP155_Sender chainId chainIdMul
  | HomesteadSigner => Homestead_Sender
  | FrontierSigner => Frontier_Sender
  end.

(** The function [Sender], which caches the address. *)
Definition Sender (s : Signer) (tx : Transaction) : result (Transaction * (txError + Address)) :=
  let compute :=
    let? r := Signer_Sender s tx in
    match r with
    | inl e => Ok (tx, inl e)
    | inr addr => Ok (mkTx (data tx) (cHash tx) (cSize tx) (Some (mkSigCache s addr)), inr addr)
    end in
  match cFrom tx with
  | Some sc => if Equal (signer sc) s then Ok (tx, inr (from sc)) else compute
  | None => compute
  end.

(** *** Messages and accessors *)

Record Message := mkMessage {
  mTo : option Address;
  mFrom : Address;
  mNonce : Z;
  mAmount : Z;
  mGasLimit : Z;
  mGasPrice : Z;
  mData : bytes;
  mCheckNonce : bool
}.

Definition NewMessage (from : Address) (to : option Address) (nonce amount gasLimit gasPrice : Z) (data : bytes)
    (checkNonce : bool) : Message :=
  mkMessage to from nonce amount gasLimit gasPrice data checkNonce.

Definition AsMessage (tx : Transaction) (s : Signer) : result (Transaction * (Message * option txError)) :=
  let d := data tx in
  let? (tx, r) := Sender s tx in
  let msg from := mkMessage (Recipient d) from (AccountNonce d) (Amount d) (GasLimit d) (Price d) (Payload d) true in
  Ok (tx, match r with inl e => (msg zeroAddress, Some e) | inr a => (msg a, None) end).

Definition Cost (tx : Transaction) : Z := Price (data tx) * GasLimit (data tx) + Amount (data tx).
Definition RawSignatureValues (tx : Transaction) : Z * Z * Z := (V_ (data tx), R_ (data tx), S_ (data tx)).
Definition CheckNonce (tx : Transaction) : bool := true.

(** [UnmarshalJSON], from the fields the generated decoder filled in. *)
Definition json_V (dec : txdata) : Z :=
  if isProtectedV (V_ dec) then
    let chainID := Uint64 (deriveChainId (V_ dec)) in
    u64 (Uint64 (V_ dec) - 35 - 2 * chainID) mod 256
  else u64 (Uint64 (V_ dec) - 27) mod 256.
Definition tx_UnmarshalJSON (dec : txdata) : txError + Transaction :=
  if negb (Precompiles.ValidateSignatureValues (json_V dec) (R_ dec) (S_ dec) false) then inl ErrInvalidSig
  else inr (mkTx dec None None None).

(** *** Lists of transactions *)

Fixpoint hash_all (txs : list Transaction) : result (list (Transaction * Hash)) :=
  match txs with
  | [] => Ok []
  | tx :: txs => let? x := tx_Hash tx in let? xs := hash_all txs in Ok (x :: xs)
  end.

Definition TxDifference (a b : list Transaction) : result (list Transaction) :=
  let? b := hash_all b in
  let? a := hash_all a in
  Ok (fst <$> filter (fun x => snd x ∉ snd <$> b) a).

Definition by_nonce (a b : Transaction) : bool := AccountNonce (data a) <? AccountNonce (data b).
Definition by_price (a b : Transaction) : result bool := Ok (Price (data b) <? Price (data a)).

Record TransactionsByPriceAndNonce := mkByPrice {
  txs : gmap Address (list Transaction);
  heads : list Transaction;
  tsigner : Signer
}.

(** [acc, _ := Sender(signer, tx)]: the zero address on an error. *)
Definition account_of (s : Signer) (tx : Transaction) : result (Transaction * Address) :=
  let? (tx, r) := Sender s tx in Ok (tx, match r with inl _ => zeroAddress | inr a => a end).

(** [order] is the order in which the keys of the map are visited. *)
Fixpoint collect_heads (s : Signer) (order : list Address) (txs : gmap Address (list Transaction))
    (heads : list Transaction) : result (gmap Address (list Transaction) * list Transaction) :=
  match order with
  | [] => Ok (txs, heads)
  | a :: order =>
      match txs !! a with
      | None => collect_heads s order txs heads
      | Some [] => Panic
      | Some (tx :: rest) =>
          let? (tx, acc) := account_of s tx in
          collect_heads s order (<[acc := rest]> txs) (heads ++ [tx])
      end
  end.

Definition NewTransactionsByPriceAndNonce (order : list Address) (s : Signer) (txs : gmap Address (list Transaction)) :
    result TransactionsByPriceAndNonce :=
  let? (txs, heads) := collect_heads s order txs [] in
  let? heads := TrieIter.heap_Init by_price heads in
  Ok (mkByPrice txs heads s).

Definition Peek (t : TransactionsByPriceAndNonce) : option Transaction := head (heads t).

(** [heap.Fix(h, 0)]: element 0 has no parent to move up to. *)
Definition heap_Fix0 (h : list Transaction) : result (list Transaction) :=
  TrieIter.heap_down by_price (S (length h)) h 0 (length h).

Definition Shift (t : TransactionsByPriceAndNonce) : result TransactionsByPriceAndNonce :=
  match heads t with
  | [] => Panic
  | h :: _ =>
      let? (_, acc) := account_of (tsigner t) h in
      match txs t !! acc with
      | Some (next :: rest) =>
          let? hs := update (heads t) 0 next in
          let? hs := heap_Fix0 hs in
          Ok (mkByPrice (<[acc := rest]> (txs t)) hs (tsigner t))
      | _ =>
          let? (_, hs) := TrieIter.heap_Pop by_price (heads t) in
          Ok (mkByPrice (txs t) hs (tsigner t))
      end
  end.

Definition PopHead (t : TransactionsByPriceAndNonce) : result TransactionsByPriceAndNonce :=
  let? (_, hs) := TrieIter.heap_Pop by_price (heads t) in Ok (mkByPrice (txs t) hs (tsigner t)).

End Signing.
End Tx.
