(* ===== verification/TxLaws.v ===== *)
(** * Transactions: the theorems

    What a signer hashes is the canonical encoding of the fields it covers; a
    transaction signed with a key is attributed to the address of that key;
    a bloom filter has no false negatives; and the price heap of
    [TransactionsByPriceAndNonce] implements the choice of the best next
    transaction of all accounts. *)

From Stdlib Require Import String Lia Zbitwise.
From stdpp Require Import base numbers strings list option gmap.
From S2P Require Import Prelude BigInt Types Params Machine Precompiles Spec.
From S2P Require Import RlpTypes RlpEncode RlpDecode RlpSpec RlpStream RlpRefine RlpCanon RlpCache RlpLaws Keccak KeccakSpec KeccakSponge Keys KeccakLaws.
From S2P Require Import HexText TrieIter TrieUnion TxTypes.
Import Common.

#[local] Open Scope Z_scope.
#[local] Open Scope go_scope.

Module TxLaws.
Import Big Keccak KeccakSpec KeccakSponge KeccakLaws RlpRefine RlpHash Tx.

Definition keccak256 (b : bytes) : Hash := sponge_hash keccak_f 136 0x01 32 b.

Section Hashing.
Context (X : Impl) `{!ImplLaws X keccak_f}.

Lemma Keccak256_ok b : bytes_ok b -> Keys.Keccak256 [b] = Ok (keccak256 b).
Proof.
  intros Hb. unfold Keys.Keccak256. rewrite write_each_all.
  pose proof (summed X 136 32 0x01 [b] ltac:(in_rates) ltac:(lia) ltac:(unfold byte_ok; lia) ltac:(by repeat constructor)) as H.
  cbn [concat] in H. by rewrite app_nil_r in H.
Qed.

(** ** [rlpHash] *)

Lemma feed_hw d ps : fst (feed hw_Write (Ok d) ps) = write_all X d ps.
Proof.
  assert (forall r, fst (feed hw_Write r ps) = let? d := r in write_all X d ps) as H; [|apply (H (Ok d))].
  induction ps as [|p ps IH]; intros r; simpl; [by destruct r|]. rewrite IH.
  destruct r as [d'| |]; simpl; [|done..]. by destruct (Write d' p) as [[]| |].
Qed.

Lemma bytes_ok_concat ps : bytes_ok (concat ps) -> Forall bytes_ok ps.
Proof. induction ps as [|p ps IH]; simpl; [constructor|]. intros [? ?]%bytes_ok_app. constructor; auto. Qed.

Lemma rlpHash_ok t v tc bs : uints_ok v ->
  spec_encode types_env (fun _ _ => Panic) gen_fuel run_fuel t v RlpTypes.empty_cache = Ok (tc, inr bs) ->
  len bs < two63 -> bytes_ok bs -> rlpHash t v = Ok (keccak256 bs).
Proof.
  intros Hv E Hl Hb. pose proof RlpLaws.no_encoders_law. destruct (Encode_spec types_env RlpLaws.no_encoders (fun _ _ => Panic) gen_fuel run_fuel
    RlpEncode.empty_encbuf hw_Write t v _ _ _ (Ok NewKeccak256) ltac:(by intros ???? [= _ <-]) Hv E Hl) as (ps & Hps & Ee).
  unfold rlpHash. rewrite Ee. cbn [rbind]. rewrite feed_hw. subst bs.
  exact (summed X 136 32 0x01 ps ltac:(in_rates) ltac:(lia) ltac:(unfold byte_ok; lia) (bytes_ok_concat ps Hb)).
Qed.

Lemma rlpHash_item t v tc i : uints_ok v ->
  spec_encode types_env (fun _ _ => Panic) gen_fuel run_fuel t v RlpTypes.empty_cache = Ok (tc, inr (RlpCanon.rlp_item i)) ->
  RlpCanon.item_ok i -> len (RlpCanon.rlp_item i) < two63 -> rlpHash t v = Ok (keccak256 (RlpCanon.rlp_item i)).
Proof.
  intros Hv E Hi Hl. eapply rlpHash_ok; [done|exact E|done|]. apply RlpCanon.rlp_item_bytes; [done|].
  unfold two63, two64 in *. lia.
Qed.

End Hashing.

(** ** What a signer hashes *)

Definition num (x : Z) : RlpCanon.item := RlpCanon.Str (Bytes x).

Definition signed_items (d : txdata) : list RlpCanon.item :=
  [num (AccountNonce d); num (Price d); num (GasLimit d); RlpCanon.Str (default [] (Recipient d));
   num (Amount d); RlpCanon.Str (Payload d)].

Definition signing_item (s : Signer) (d : txdata) : RlpCanon.item :=
  RlpCanon.Lst match s with
    | EIP155Signer chainId _ => signed_items d ++ [num chainId; num 0; num 0]
    | _ => signed_items d
    end.

(** The values the fields can hold; prices and amounts are words. *)
Record data_ok (d : txdata) : Prop := {
  nonce_ok : is_u64 (AccountNonce d);
  price_ok : is_word (Price d);
  gas_ok : is_u64 (GasLimit d);
  recipient_ok : forall a, Recipient d = Some a -> address_ok a;
  amount_ok : is_word (Amount d);
  payload_ok : bytes_ok (Payload d) /\ len (Payload d) < 2 ^ 62
}.

(** The signers the constructors make, with a chain id that is a word. *)
Definition signer_ok (s : Signer) : Prop :=
  match s with EIP155Signer c m => 0 <= c < two256 /\ m = c * 2 | _ => True end.

Import RlpTypes.

Section Written.
Import RlpCache RlpLaws.
Context (env : gmap string decl) (gen : nat) (Hgen : (3 <= gen)%nat).
Context (Haddr : env !! "common.Address"%string = Some Keys.AddressDecl).
Context (user : typ -> val -> result (error + bytes)).

(** A value in an interface is written as [bs], whatever the type cache. *)
Definition element (v : val) (bs : bytes) : Prop := forall fuel addr tc, (3 <= fuel)%nat ->
  yields env (spec_writer env user gen fuel WInterface (TInterface 0) addr v) bs tc.

Lemma fixed_element t v bs info : (forall rec, genTypeInfo env rec t no_tags = gret info) ->
  (forall tc w, good_writer env tc t no_tags w -> w = iwriter info) ->
  (forall fuel tc, spec_writer env user gen (S fuel) (iwriter info) t false v tc = Ok (tc, inr bs)) ->
  element (VIface (Some (t, v))) bs.
Proof.
  intros Hg Hw Hs fuel addr tc0 Hf. destruct fuel as [|[|fuel]]; [lia..|].
  apply interface_yields; [apply (plain_succeeds env gen ltac:(lia) t info Hg)|].
  intros tc inf _ [_ ->%Hw] tc1 _ R1. exists tc1. by rewrite Hs.
Qed.

Lemma uint_element w n : element (VIface (Some (TUint w, VUint n))) (RlpSpec.rlp_uint n).
Proof.
  apply (fixed_element _ _ _ {| idecoder := DUint; iwriter := WUintw |}); [done| |done].
  intros tc wr. destruct wr; simpl; naive_solver.
Qed.

Lemma big_element x : 0 <= x -> element (VIface (Some (TPtr TBigInt, big x))) (RlpSpec.rlp_uint x).
Proof.
  intros Hx. apply (fixed_element _ _ _ {| idecoder := DBigInt; iwriter := WBigIntPtr |}); [done| |].
  - intros tc wr. destruct wr; simpl; naive_solver.
  - intros fuel tc. cbn [spec_writer big iwriter]. rewrite bool_decide_true by done. unfold bigG.
    destruct (Z.ltb_spec x 0); [lia|done].
Qed.

Lemma bytes_element b : element (VIface (Some (TSlice (TUint W8), VBytes b))) (RlpSpec.rlp_string b).
Proof.
  apply (fixed_element _ _ _ {| idecoder := DByteSlice; iwriter := WBytes |}); [done| |done].
  intros tc wr. apply bytes_writer.
Qed.

Lemma recipient_succeeds : succeeds (cachedTypeInfo env gen (TPtr Keys.AddressType) no_tags).
Proof.
  intros tc. unfold cachedTypeInfo. destruct (typeCache tc !! _); [done|]. revert tc.
  destruct gen as [|[|g]]; [lia..|]. apply succeeds_cached.
  assert (succeeds (cachedTypeInfo1 env (S g) Keys.AddressType no_tags)) as Ha.
  { apply succeeds_cached. rewrite (gen_address env Haddr). apply succeeds_ret. }
  unfold genTypeInfo, makeDecoder, makeWriter, ImplementsDecoder, ImplementsEncoder, implements, is_ptr_kind,
    AssignableToBigPtr, AssignableToBig, Keys.AddressType. cbn [kind_of view_plain]. rewrite Haddr. cbn.
  repeat first [apply succeeds_bind; [|intros ?] | apply succeeds_ret | exact Ha].
Qed.

Lemma recipient_writer tc w : good_writer env tc (TPtr Keys.AddressType) no_tags w ->
  exists l, w = WPtr l NilString /\ points tc l (Keys.AddressType, no_tags).
Proof.
  destruct w as [| | | | | | | | | | | | |l nf]; simpl; unfold ImplementsEncoder, implements, AssignableToBigPtr, Keys.AddressType; cbn [kind_of view_plain];
    rewrite ?Haddr; simpl; try naive_solver.
  intros (_ & e & [= <-] & Hp & ->). exists l. split; [|done]. f_equal. unfold nil_func. cbn [kind_of]. by rewrite Haddr.
Qed.

(** A nil pointer is written as the empty string. *)
Lemma recipient_element to : element (VIface (Some (TPtr Keys.AddressType, recipient_val to))) (RlpSpec.rlp_string (default [] to)).
Proof.
  intros fuel addr tc0 Hf. destruct fuel as [|[|[|fuel]]]; [lia..|]. apply interface_yields.
  - apply recipient_succeeds.
  - intros tc inf _ [_ Hw] tc1 E1 [Hok1 Hc1]. apply recipient_writer in Hw as (l & -> & Hp). exists tc1.
    split; [|done]. destruct to as [a|]; cbn [spec_writer recipient_val fmap option_fmap option_map default]; [|done].
    destruct (info_at_points env tc1 l _ Hok1 Hc1 (points_ext _ _ _ _ E1 Hp)) as (info & -> & [_ Hw]).
    cbn [rbind]. by rewrite (address_writer env Haddr tc1 _ Hw).
Qed.

Lemma signed_elements d : 0 <= Price d -> 0 <= Amount d ->
  Forall2 element (signed_fields d) (RlpCanon.rlp_item <$> signed_items d).
Proof.
  intros Hp Ha. unfold signed_fields, signed_items.
  repeat (apply Forall2_cons; split; [by auto using uint_element, big_element, bytes_element, recipient_element|]).
  constructor.
Qed.

Lemma chain_elements c : 0 <= c -> Forall2 element (chain_fields c) (RlpCanon.rlp_item <$> [num c; num 0; num 0]).
Proof. intros Hc. repeat (apply Forall2_cons; split; [by auto using uint_element, big_element|]). constructor. Qed.

(** A slice of interface values is written as the list of its elements. *)
Lemma list_written fuel vs items tc : cache_ok env tc -> complete tc -> (4 <= fuel)%nat ->
  Forall2 element vs (RlpCanon.rlp_item <$> items) -> exists tc',
  spec_encode env user gen fuel (TSlice (TInterface 0)) (VSlice vs []) tc = Ok (tc', inr (RlpCanon.rlp_item (RlpCanon.Lst items))).
Proof.
  intros Hok Hc Hf F. destruct fuel as [|fuel]; [lia|].
  destruct (succeeds_info env gen (TSlice (TInterface 0)) tc (ifslice_succeeds env gen ltac:(lia)) Hok Hc)
    as (tc1 & l & info & Eg & Ei & Hi & Hok1 & Hc1 & _).
  destruct (ifslice_yields env gen user fuel false vs [] _ tc1 info ltac:(done) Hi
    ltac:(eapply Forall2_impl; [exact F|]; intros v bs He addr; apply He; lia) tc1 ltac:(done) ltac:(done))
    as (tc2 & Es & _).
  exists tc2. unfold spec_encode. rewrite Eg. cbn [rbind]. rewrite Ei. exact Es.
Qed.

End Written.

(** ** The hash of a signer *)

Lemma len_string b : len b < two64 -> len (RlpSpec.rlp_string b) <= len b + 9.
Proof. apply (KeccakLaws.len_rlp_string 2 (le_n 2)). Qed.

Lemma len_word_bytes x : is_word x -> len (Bytes x) <= 32.
Proof.
  intros Hx. rewrite len_Bytes. unfold is_word, two256 in Hx.
  assert (BitLen x <= 256) by (apply BitLen_spec; lia). assert ((BitLen x + 7) / 8 < 33) by (apply Z.div_lt_upper_bound; lia). lia.
Qed.

Lemma u64_word x : is_u64 x -> is_word x.
Proof. unfold is_u64, is_word. assert (two64 < two256) by done. lia. Qed.

Definition short (i : RlpCanon.item) : Prop := 0 <= len (RlpCanon.rlp_item i) <= 41.

Lemma num_short x : is_word x -> short (num x).
Proof.
  intros Hx%len_word_bytes. split; [apply len_nonneg|]. cbn [num RlpCanon.rlp_item].
  pose proof (len_string (Bytes x) ltac:(unfold two64; lia)). lia.
Qed.

Lemma list_short pre b post : Forall short (pre ++ post) -> (length (pre ++ post) <= 8)%nat -> len b < 2 ^ 62 ->
  len (RlpCanon.rlp_item (RlpCanon.Lst (pre ++ RlpCanon.Str b :: post))) < two63.
Proof.
  intros Hs Hl Hb. cbn [RlpCanon.rlp_item]. unfold RlpSpec.rlp_list.
  assert (forall l, Forall short l ->
    0 <= len (concat (map RlpCanon.rlp_item l)) <= 41 * Z.of_nat (length l)) as Hc.
  { induction 1 as [|i l Hi _ IH]; [done|]. unfold short in Hi. cbn [map concat length]. rewrite len_app. lia. }
  apply Forall_app in Hs as [H1%Hc H2%Hc]. rewrite length_app in Hl.
  pose proof (len_string b ltac:(unfold two64; lia)). pose proof (len_nonneg (RlpSpec.rlp_string b)).
  rewrite map_app, concat_app. cbn [map concat RlpCanon.rlp_item].
  set (payload := concat _ ++ _). assert (0 <= len payload <= 2 ^ 62 + 400) as Hp by (unfold payload; rewrite !len_app; lia).
  rewrite len_app. pose proof (RlpSpec.len_header 192 247 (len payload) ltac:(unfold two64; lia)). unfold two63. lia.
Qed.

Lemma recipient_short d : data_ok d -> short (RlpCanon.Str (default [] (Recipient d))).
Proof.
  intros H. split; [apply len_nonneg|]. destruct (Recipient d) as [a|] eqn:E; [|done].
  destruct (recipient_ok d H a E) as [Hl _]. simpl.
  assert (len a = 20) by (unfold len; by rewrite Hl). pose proof (len_string a ltac:(unfold two64; lia)). lia.
Qed.

Lemma signing_short s d : data_ok d -> signer_ok s -> len (RlpCanon.rlp_item (signing_item s d)) < two63.
Proof.
  intros Hd Hs. pose proof Hd as [Hn Hp Hg _ Ha [_ Hb]]. pose proof (recipient_short d Hd).
  apply u64_word in Hn, Hg.
  set (five := [num (AccountNonce d); num (Price d); num (GasLimit d); RlpCanon.Str (default [] (Recipient d)); num (Amount d)]).
  assert (Forall short five) as H5 by (repeat (apply Forall_cons; split; [by auto using num_short|]); constructor).
  destruct s as [| |c m]; [apply (list_short five _ []); [by rewrite app_nil_r|simpl; lia|done]..|].
  destruct Hs as [Hc ->]. apply (list_short five _ [num c; num 0; num 0]); [|simpl; lia|done].
  apply Forall_app. split; [done|].
  repeat (apply Forall_cons; split; [apply num_short; unfold is_word; lia|]); constructor.
Qed.

Lemma signing_item_ok s d : data_ok d -> RlpCanon.item_ok (signing_item s d).
Proof.
  intros [_ _ _ Hr _ [Hb _]]. assert (bytes_ok (default [] (Recipient d))) as Ht
    by (destruct (Recipient d) as [a|]; [by apply (Hr a)|constructor]).
  destruct s; simpl; repeat (split; [first [apply Bytes_ok|done]|]); done.
Qed.

Lemma signed_uints s d : data_ok d -> uints_ok (VSlice (signed_fields d ++ match s with EIP155Signer c _ => chain_fields c | _ => [] end) []).
Proof.
  intros [Hn _ Hg Hr _ [Hb _]]. assert (uints_ok (recipient_val (Recipient d))) as Ht
    by (unfold recipient_val; destruct (Recipient d) as [a|]; [by apply (Hr a)|done]).
  destruct s; simpl; unfold is_u64 in *; repeat (split; [first [done|unfold two64; lia]|]); done.
Qed.

Lemma Signer_Hash_ok (X : Impl) `{!ImplLaws X keccak_f} s tx : data_ok (data tx) -> signer_ok s ->
  Signer_Hash s tx = Ok (keccak256 (RlpCanon.rlp_item (signing_item s (data tx)))).
Proof.
  intros Hd Hs. set (d := data tx) in *.
  pose (vs := signed_fields d ++ match s with EIP155Signer c _ => chain_fields c | _ => [] end).
  pose (items := signed_items d ++ match s with EIP155Signer c _ => [num c; num 0; num 0] | _ => [] end).
  assert (Signer_Hash s tx = rlpHash (TSlice (TInterface 0)) (VSlice vs []) /\ signing_item s d = RlpCanon.Lst items) as [-> Ei].
  { unfold Signer_Hash, EIP155_Hash, Frontier_Hash, vs, items. destruct s; rewrite ?app_nil_r; done. }
  destruct (list_written types_env gen_fuel ltac:(unfold gen_fuel; lia) (fun _ _ => Panic) run_fuel vs items empty_cache
    (RlpCache.cache_ok_empty _) RlpLaws.complete_empty ltac:(unfold run_fuel; lia)) as (tc & E).
  { unfold vs, items. rewrite fmap_app. apply Forall2_app.
    - apply signed_elements; first [unfold gen_fuel; lia|reflexivity|apply (price_ok d Hd)|apply (amount_ok d Hd)].
    - destruct s as [| |c m]; [constructor..|]. destruct Hs. apply chain_elements; first [unfold gen_fuel; lia|reflexivity|lia]. }
  rewrite <-Ei in E. apply (rlpHash_item X _ _ tc); [by apply signed_uints|done|by apply signing_item_ok|by apply signing_short].
Qed.

(** ** Signatures *)

(** What libsecp256k1 documents: a recoverable signature is R, S and a recovery
    id from 0 to 3, with R and S below the order of the group and S in its lower
    half, and recovery gives the uncompressed public key of the signing key. *)
Class SecpLaws (sign recover : bytes -> bytes -> option bytes) (pubkey : bytes -> bytes) : Prop := {
  signature_shape : forall h k sig, sign h k = Some sig -> exists r s v, sig = r ++ s ++ [v] /\
    bytes_ok r /\ bytes_ok s /\ length r = 32%nat /\ length s = 32%nat /\ 0 <= v <= 3 /\
    0 < SetBytes r < Precompiles.secp256k1_N /\ 0 < SetBytes s <= Precompiles.secp256k1_halfN;
  recovers_signer : forall h k sig, len h = 32 -> sign h k = Some sig -> recover h sig = Some (pubkey k);
  pubkey_shape : forall k, exists xy, pubkey k = 4 :: xy /\ bytes_ok xy
}.

Definition address_of_pubkey (pub : bytes) : Address := drop 12 (keccak256 (drop 1 pub)).

Lemma halfN_N : Precompiles.secp256k1_halfN < Precompiles.secp256k1_N.
Proof. done. Qed.

Lemma placed (l : bytes) : bytes_ok l -> length l = 32%nat -> exists n, (n <= 32)%nat /\
  length (Bytes (SetBytes l)) = n /\ replicate (32 - n) 0 ++ Bytes (SetBytes l) = l.
Proof.
  intros Hb Hl. pose proof (SetBytes_bound l Hb) as Hr. unfold len in Hr. rewrite Hl in Hr.
  assert (len (Bytes (SetBytes l)) <= 32) as Hw by (apply len_word_bytes; exact Hr). unfold len in Hw.
  exists (length (Bytes (SetBytes l))). split; [lia|]. split; [done|].
  pose proof (set_bytes_be 32 (Bytes (SetBytes l)) (Bytes_ok _)) as E. unfold set_bytes in E.
  destruct (Nat.ltb_spec 32 (length (Bytes (SetBytes l)))); [lia|]. rewrite E, SetBytes_Bytes, Z.abs_eq by lia.
  rewrite <-Hl. by apply be_SetBytes.
Qed.

(** The signature put together again from its numbers. *)
Lemma reassembled r s v : bytes_ok r -> bytes_ok s -> length r = 32%nat -> length s = 32%nat ->
  (let? sig := copy_at (zeros 65) (32 - len (Bytes (SetBytes r))) 32 (Bytes (SetBytes r)) in
   let? sig := copy_at sig (64 - len (Bytes (SetBytes s))) 64 (Bytes (SetBytes s)) in
   update sig 64 v) = Ok (r ++ s ++ [v]).
Proof.
  intros Hr Hs Lr Ls. destruct (placed r Hr Lr) as (n & Hn & En & Pn), (placed s Hs Ls) as (m & Hm & Em & Pm).
  set (R := Bytes (SetBytes r)) in *. set (T := Bytes (SetBytes s)) in *.
  replace (zeros 65) with (replicate (32 - n) 0 ++ replicate n 0 ++ zeros 33).
  2: { unfold zeros. rewrite <-!replicate_add. f_equal. lia. }
  rewrite copy_at_mid; unfold len; rewrite ?length_replicate; [|lia..]. cbn [rbind].
  rewrite (app_assoc (replicate (32 - n) 0)), Pn.
  replace (r ++ zeros 33) with ((r ++ replicate (32 - m) 0) ++ replicate m 0 ++ [0]).
  2: { rewrite <-!app_assoc. f_equal. unfold zeros. change [0] with (replicate 1 0). rewrite <-!replicate_add. f_equal. lia. }
  rewrite copy_at_mid; unfold len; rewrite ?length_app, ?length_replicate; [|lia..]. cbn [rbind].
  rewrite (app_assoc (r ++ _)), <-(app_assoc r), Pm. unfold update, len. rewrite !length_app, Lr, Ls.
  cbn -[insert]. f_equal. change (Z.to_nat 64) with 64%nat.
  replace 64%nat with (length (r ++ s) + 0)%nat by (rewrite length_app; lia). rewrite insert_app_r.
  by rewrite <-app_assoc.
Qed.

Lemma recoverPlain_ok (X : Impl) `{!ImplLaws X keccak_f} recover h r s v xy homestead : bytes_ok r -> bytes_ok s ->
  length r = 32%nat -> length s = 32%nat -> v = 0 \/ v = 1 ->
  0 < SetBytes r < Precompiles.secp256k1_N -> 0 < SetBytes s <= Precompiles.secp256k1_halfN ->
  recover h (r ++ s ++ [v]) = Some (4 :: xy) -> bytes_ok xy ->
  recoverPlain recover h (SetBytes r) (SetBytes s) (v + 27) homestead = Ok (inr (address_of_pubkey (4 :: xy))).
Proof.
  intros Hr Hs Lr Ls Hv Br Bs Hrec Hxy. unfold recoverPlain.
  assert ((8 <? BitLen (v + 27)) = false) as -> by (destruct Hv as [-> | ->]; done).
  assert (u64 (Uint64 (v + 27) - 27) mod 256 = v) as -> by (destruct Hv as [-> | ->]; done).
  assert (Precompiles.ValidateSignatureValues v (SetBytes r) (SetBytes s) homestead = true) as ->.
  { unfold Precompiles.ValidateSignatureValues. pose proof halfN_N.
    destruct (Z.ltb_spec (SetBytes r) 1); [lia|]. destruct (Z.ltb_spec (SetBytes s) 1); [lia|]. cbn [orb].
    rewrite (proj2 (Z.ltb_ge _ _)), andb_false_r by lia. rewrite !(proj2 (Z.ltb_lt _ _)) by lia.
    by destruct Hv as [-> | ->]. }
  cbn [negb]. pose proof (reassembled r s v Hr Hs Lr Ls) as E. cbv zeta.
  apply rbind_Ok_inv in E as (b1 & -> & (b2 & E2 & E3)%rbind_Ok_inv). cbn [rbind]. rewrite E2. cbn [rbind]. rewrite E3.
  cbn [rbind]. rewrite Hrec. change 1 with (Z.of_nat 1). rewrite slice_drop by (simpl; lia). cbn [rbind drop].
  rewrite (Keccak256_ok X) by done. cbn [rbind]. change 12 with (Z.of_nat 12).
  rewrite slice_drop by (unfold keccak256; rewrite sponge_hash_length; lia). cbn [rbind].
  reflexivity.
Qed.

(** The same with the values a signer makes of a signature. *)
Definition sig_V (s : Signer) (v : Z) : Z :=
  match s with EIP155Signer c _ => if c =? 0 then v + 27 else v + 35 + c * 2 | _ => v + 27 end.

Lemma SignatureValues_ok s r t v : signer_ok s -> length r = 32%nat -> length t = 32%nat -> 0 <= v <= 3 ->
  SignatureValues s (r ++ t ++ [v]) = Ok (SetBytes r, SetBytes t, sig_V s v).
Proof.
  intros Hs Lr Lt Hv4. assert (v = 0 \/ v = 1 \/ v = 2 \/ v = 3) as Hv by lia. assert (len r = 32 /\ len t = 32) as [Er Et] by (unfold len; lia).
  assert (index (r ++ t ++ [v]) 64 = Ok v) as Hi.
  { unfold index. change (Z.to_nat 64) with 64%nat. rewrite app_assoc, lookup_app_r by (rewrite length_app; lia).
    rewrite length_app, Lr, Lt. done. }
  assert (Frontier_SignatureValues (r ++ t ++ [v]) = Ok (SetBytes r, SetBytes t, v + 27)) as Hf.
  { unfold Frontier_SignatureValues.
    assert (len (r ++ t ++ [v]) = 65) as -> by (unfold len; rewrite !length_app, Lr, Lt; done). cbn [negb Z.eqb Pos.eqb].
    rewrite (slice_mid [] r (t ++ [v]) 0 32 eq_refl ltac:(lia) : slice (r ++ t ++ [v]) 0 32 = Ok r). cbn [rbind].
    rewrite (slice_mid r t [v] 32 64 ltac:(lia) ltac:(lia)). cbn [rbind]. rewrite Hi. by destruct Hv as [-> |[-> |[-> | ->]]]. }
  destruct s as [| |c m]; [exact Hf..|]. destruct Hs as [Hc ->]. cbn [SignatureValues sig_V].
  unfold EIP155_SignatureValues, Homestead_SignatureValues. rewrite Hf. cbn [rbind].
  destruct (Z.eqb_spec c 0) as [->|Hne]; [done|].
  assert ((Z.sgn c =? 0) = false) as -> by (apply Z.eqb_neq; lia). cbn [negb].
  rewrite Hi. by destruct Hv as [-> |[-> |[-> | ->]]].
Qed.

Lemma chain_of_V c v : 0 < c -> 0 <= v <= 3 ->
  isProtectedV (v + 35 + c * 2) = true /\ deriveChainId (v + 35 + c * 2) = c + v / 2.
Proof.
  intros Hc Hv. set (V := v + 35 + c * 2). assert (37 <= V) by (unfold V; lia).
  assert ((V - 35) / 2 = c + v / 2) as Ec
    by (replace (V - 35) with (v + c * 2) by (unfold V; lia); rewrite Z.div_add by lia; lia).
  assert (BitLen V <= 64 -> Uint64 V = V /\ is_u64 V) as Hu.
  { intros H64%BitLen_spec; [|lia]. rewrite Z.abs_eq in H64 by lia. change (2 ^ 64) with two64 in H64.
    unfold Uint64, is_u64. rewrite Z.abs_eq, Z.mod_small by lia. lia. }
  unfold isProtectedV, deriveChainId. split.
  - destruct (Z.leb_spec (BitLen V) 8); [|done]. destruct Hu as [-> _]; [lia|].
    rewrite !(proj2 (Z.eqb_neq _ _)) by lia. done.
  - destruct (Z.leb_spec (BitLen V) 64); [|done]. destruct Hu as [-> HV]; [lia|].
    rewrite !(proj2 (Z.eqb_neq _ _)) by lia. cbn [orb]. rewrite u64_id; [done|]. unfold is_u64 in *. lia.
Qed.

Lemma plain_refuses_id (X : Impl) recover h R S v hs : 1 < v <= 3 ->
  recoverPlain recover h R S (v + 27) hs = Ok (inl ErrInvalidSig).
Proof.
  intros Hv. unfold recoverPlain. assert (v = 2 \/ v = 3) as Hv' by lia.
  assert ((8 <? BitLen (v + 27)) = false) as -> by (destruct Hv' as [-> | ->]; done).
  assert (u64 (Uint64 (v + 27) - 27) mod 256 = v) as -> by (destruct Hv' as [-> | ->]; done).
  assert (Precompiles.ValidateSignatureValues v R S hs = false) as ->; [|done].
  unfold Precompiles.ValidateSignatureValues. rewrite !(proj2 (Z.eqb_neq v _)) by lia.
  repeat split_if; try done. by rewrite andb_false_r.
Qed.

Lemma plain_refuses (X : Impl) recover h R S c v hs : 0 < c -> v = 0 \/ v = 1 ->
  recoverPlain recover h R S (v + 35 + c * 2) hs = Ok (inl ErrInvalidSig).
Proof.
  intros Hc Hv. unfold recoverPlain. set (V := v + 35 + c * 2). destruct (Z.ltb_spec 8 (BitLen V)) as [|H8]; [done|].
  apply BitLen_spec in H8; [|lia]. rewrite Z.abs_eq in H8 by (unfold V; lia). change (2 ^ 8) with 256 in H8.
  assert (u64 (Uint64 V - 27) mod 256 = V - 27) as ->.
  { unfold Uint64, u64. rewrite Z.abs_eq by (unfold V; lia).
    assert (37 <= V < 256) by (unfold V in *; lia). rewrite (Z.mod_small V), (Z.mod_small (V - 27) two64), Z.mod_small; unfold two64; lia. }
  assert (Precompiles.ValidateSignatureValues (V - 27) R S hs = false) as ->; [|done].
  unfold Precompiles.ValidateSignatureValues. rewrite !(proj2 (Z.eqb_neq (V - 27) _)) by (unfold V; lia).
  repeat split_if; try done. by rewrite andb_false_r.
Qed.

Section Signed.
Context (X : Impl) `{!ImplLaws X keccak_f}.
Context (sign recover : bytes -> bytes -> option bytes) (pubkey : bytes -> bytes) `{!SecpLaws sign recover pubkey}.

Definition secret (prv : Keys.PrivateKey) : bytes := PaddedBigBytes (Keys.D prv) 32.

Definition with_values (d : txdata) (v r s : Z) : txdata :=
  mkTxdata (AccountNonce d) (Price d) (GasLimit d) (Recipient d) (Amount d) (Payload d) v r s (Hash_ d).

Lemma signing_item_values s d v r t : signing_item s (with_values d v r t) = signing_item s d.
Proof. done. Qed.

Lemma with_values_ok d v r s : data_ok d -> data_ok (with_values d v r s).
Proof. by intros [? ? ? ? ? ?]. Qed.

Lemma signed_shape tx s prv sig : data_ok (data tx) -> signer_ok s ->
  sign (keccak256 (RlpCanon.rlp_item (signing_item s (data tx)))) (secret prv) = Some sig ->
  exists r t v xy, bytes_ok r /\ bytes_ok t /\ length r = 32%nat /\ length t = 32%nat /\ 0 <= v <= 3 /\
    0 < SetBytes r < Precompiles.secp256k1_N /\ 0 < SetBytes t <= Precompiles.secp256k1_halfN /\
    sig = r ++ t ++ [v] /\ pubkey (secret prv) = 4 :: xy /\ bytes_ok xy /\
    recover (keccak256 (RlpCanon.rlp_item (signing_item s (data tx)))) (r ++ t ++ [v]) = Some (4 :: xy) /\
    SignTx sign tx s prv = Ok (inr (mkTx (with_values (data tx) (sig_V s v) (SetBytes r) (SetBytes t)) None None None)).
Proof.
  intros Hd Hs Hsig. destruct (signature_shape _ _ _ Hsig) as (r & t & v & -> & Hr & Ht & Lr & Lt & Hv & Br & Bt).
  destruct (pubkey_shape (secret prv)) as (xy & Hp & Hxy).
  assert (len (keccak256 (RlpCanon.rlp_item (signing_item s (data tx)))) = 32) as Hl
    by (unfold len, keccak256; by rewrite sponge_hash_length).
  pose proof (recovers_signer _ _ _ Hl Hsig) as Hrec. rewrite Hp in Hrec.
  exists r, t, v, xy. repeat (split; [done|]).
  unfold SignTx. rewrite (Signer_Hash_ok X) by done. cbn [rbind]. unfold Sign. rewrite Hl. cbn [negb Z.eqb Pos.eqb].
  change (Keys.BitSize / 8) with 32. fold (secret prv). rewrite Hsig.
  unfold WithSignature. by rewrite SignatureValues_ok.
Qed.

(** The hash that a signer signs of a transaction. *)
Definition signing_hash (s : Signer) (d : txdata) : bytes := keccak256 (RlpCanon.rlp_item (signing_item s d)).

(** The transaction with the values a signer makes of a signature. *)
Definition signed_tx (d : txdata) (s : Signer) (r t : bytes) (v : Z) : Transaction :=
  mkTx (with_values d (sig_V s v) (SetBytes r) (SetBytes t)) None None None.

Lemma signed_hash s s' d r t v : data_ok d -> signer_ok s' ->
  Signer_Hash s' (signed_tx d s r t v) = Ok (signing_hash s' d).
Proof. intros Hd Hs. by apply (Signer_Hash_ok X s' (signed_tx d s r t v)); [apply with_values_ok|]. Qed.

Lemma attributed s d r t v xy : data_ok d -> signer_ok s -> s <> EIP155Signer 0 0 -> bytes_ok r -> bytes_ok t ->
  length r = 32%nat -> length t = 32%nat -> v = 0 \/ v = 1 ->
  0 < SetBytes r < Precompiles.secp256k1_N -> 0 < SetBytes t <= Precompiles.secp256k1_halfN ->
  recover (signing_hash s d) (r ++ t ++ [v]) = Some (4 :: xy) -> bytes_ok xy ->
  Signer_Sender recover s (signed_tx d s r t v) = Ok (inr (address_of_pubkey (4 :: xy))).
Proof.
  intros Hd Hs Hne Hr Ht Lr Lt Hv Br Bt Hrec Hxy. pose proof (signed_hash s s d r t v Hd Hs) as Hh.
  destruct s as [| |c m]; cbn [Signer_Sender Signer_Hash] in *; unfold Frontier_Sender, Homestead_Sender, EIP155_Sender.
  - rewrite Hh. cbn [rbind]. by apply recoverPlain_ok.
  - rewrite Hh. cbn [rbind]. by apply recoverPlain_ok.
  - destruct Hs as [Hc ->]. assert (c <> 0) as H0 by (intros ->; done). destruct (chain_of_V c v ltac:(lia) ltac:(lia)) as [HP HC].
    assert (sig_V (EIP155Signer c (c * 2)) v = v + 35 + c * 2) as EV by (cbn; by rewrite (proj2 (Z.eqb_neq _ _))).
    assert (v / 2 = 0) as E0 by by destruct Hv as [-> | ->].
    unfold Protected, tx_ChainId. cbn [data signed_tx V_ with_values]. rewrite EV, HP, HC, E0, Z.add_0_r, Z.eqb_refl. cbn [negb].
    rewrite Hh. cbn [rbind R_ S_ data signed_tx with_values].
    replace (v + 35 + c * 2 - c * 2 - 8) with (v + 27) by lia. by apply recoverPlain_ok.
Qed.

(** A signature with a recovery id of 2 or 3 is not recognised. *)
Lemma large_id_refused s d r t v : data_ok d -> signer_ok s -> 1 < v <= 3 ->
  exists e, Signer_Sender recover s (signed_tx d s r t v) = Ok (inl e).
Proof.
  intros Hd Hs Hv. pose proof (signed_hash s s d r t v Hd Hs) as Hh.
  destruct s as [| |c m]; cbn [Signer_Sender Signer_Hash] in *; unfold Frontier_Sender, Homestead_Sender, EIP155_Sender.
  - rewrite Hh. cbn [rbind]. eexists. by apply plain_refuses_id.
  - rewrite Hh. cbn [rbind]. eexists. by apply plain_refuses_id.
  - destruct Hs as [Hc ->]. unfold Protected, tx_ChainId. cbn [data signed_tx V_ with_values sig_V].
    assert (v = 2 \/ v = 3) as Hv' by lia. destruct (Z.eqb_spec c 0) as [->|Hne].
    + exists ErrInvalidChainId. by destruct Hv' as [-> | ->].
    + destruct (chain_of_V c v ltac:(lia) ltac:(lia)) as [-> ->]. cbn [negb].
      assert (v / 2 = 1) as -> by by destruct Hv' as [-> | ->].
      rewrite (proj2 (Z.eqb_neq (c + 1) c)) by lia. by eexists.
Qed.

Lemma chain_zero_unprotected d r t v : v = 0 \/ v = 1 -> let tx := signed_tx d (EIP155Signer 0 0) r t v in
  Protected tx = false /\ Signer_Sender recover (EIP155Signer 0 0) tx = Signer_Sender recover HomesteadSigner tx.
Proof. by intros [-> | ->]. Qed.

Lemma other_signers_refuse c d r t v : data_ok d -> 0 < c -> v = 0 \/ v = 1 ->
  let tx := signed_tx d (EIP155Signer c (c * 2)) r t v in
  (forall c' m', c' <> c -> Sender recover (EIP155Signer c' m') tx = Ok (tx, inl ErrInvalidChainId)) /\
  Sender recover HomesteadSigner tx = Ok (tx, inl ErrInvalidSig) /\
  Sender recover FrontierSigner tx = Ok (tx, inl ErrInvalidSig).
Proof.
  intros Hd Hc Hv tx. destruct (chain_of_V c v ltac:(lia) ltac:(lia)) as [HP HC].
  pose proof (signed_hash (EIP155Signer c (c * 2)) HomesteadSigner d r t v Hd I : Frontier_Hash tx = _) as Hh.
  assert (V_ (data tx) = v + 35 + c * 2) as EV by (cbn; by rewrite (proj2 (Z.eqb_neq c 0)) by lia).
  assert (v / 2 = 0) as E0 by by destruct Hv as [-> | ->]. rewrite E0, Z.add_0_r in HC.
  unfold Sender. cbn [cFrom tx signed_tx Signer_Sender]. fold tx. unfold Frontier_Sender, Homestead_Sender, EIP155_Sender.
  split; [|split].
  - intros c' m' Hne. unfold Protected, tx_ChainId. rewrite EV, HP, HC. cbn [negb].
    assert ((c =? c') = false) as -> by (apply Z.eqb_neq; lia). done.
  - rewrite Hh. cbn [rbind]. rewrite EV, plain_refuses by (done || lia). done.
  - rewrite Hh. cbn [rbind]. rewrite EV, plain_refuses by (done || lia). done.
Qed.

(** C38: What signing a transaction and asking for its sender give, for every
    signer the constructors make.  Signing fails where libsecp256k1 does, and
    otherwise changes nothing but the signature values.  With a recovery id of
    0 or 1, and any signer but the one for chain 0, [Sender] with the same
    signer returns the last twenty bytes of the hash of the public key, and
    caches it; a transaction signed for a chain is then refused by the signer of
    every other chain and by the signers that know no chains.  Signed for chain
    0 (or with a nil chain id) it is taken for an unprotected transaction, whose
    sender is recovered from a hash that was not signed.  With a recovery id of
    2 or 3 [Sender] with the same signer returns an error. *)
Theorem signed_sender (tx : Transaction) (s : Signer) (prv : Keys.PrivateKey) :
  data_ok (data tx) -> signer_ok s ->
  (sign (signing_hash s (data tx)) (secret prv) = None /\ SignTx sign tx s prv = Ok (inl errSign)) \/
  exists v r t, sign (signing_hash s (data tx)) (secret prv) = Some (r ++ t ++ [v]) /\ 0 <= v <= 3 /\
    let tx' := signed_tx (data tx) s r t v in
    SignTx sign tx s prv = Ok (inr tx') /\
    (v <= 1 -> s <> EIP155Signer 0 0 ->
      Sender recover s tx' = Ok (mkTx (data tx') None None (Some (mkSigCache s (address_of_pubkey (pubkey (secret prv))))),
        inr (address_of_pubkey (pubkey (secret prv)))) /\
      forall c m, s = EIP155Signer c m ->
        (forall c' m', c' <> c -> Sender recover (EIP155Signer c' m') tx' = Ok (tx', inl ErrInvalidChainId)) /\
        Sender recover HomesteadSigner tx' = Ok (tx', inl ErrInvalidSig) /\
        Sender recover FrontierSigner tx' = Ok (tx', inl ErrInvalidSig)) /\
    (v <= 1 -> s = EIP155Signer 0 0 ->
      Protected tx' = false /\ Signer_Sender recover s tx' = Signer_Sender recover HomesteadSigner tx') /\
    (1 < v -> exists e, Sender recover s tx' = Ok (tx', inl e)).
Proof.
  intros Hd Hs. unfold signing_hash at 1 2. destruct (sign _ _) as [sig|] eqn:Hsig; [right|left].
  2: { split; [done|]. unfold SignTx. rewrite (Signer_Hash_ok X) by done. cbn [rbind]. unfold Sign.
    assert (len (keccak256 (RlpCanon.rlp_item (signing_item s (data tx)))) = 32) as ->
      by (unfold len, keccak256; by rewrite sponge_hash_length).
    cbn [negb Z.eqb Pos.eqb]. change (Keys.BitSize / 8) with 32. fold (secret prv). by rewrite Hsig. }
  destruct (signed_shape tx s prv sig Hd Hs Hsig)
    as (r & t & v & xy & Hr & Ht & Lr & Lt & Hv & Br & Bt & -> & Hp & Hxy & Hrec & E).
  exists v, r, t. cbv zeta. split; [done|]. split; [done|]. split; [done|]. split; [|split].
  - intros Hv1 Hne. assert (v = 0 \/ v = 1) as Hv' by lia. split.
    + unfold Sender. cbn [cFrom signed_tx]. fold (signed_tx (data tx) s r t v).
      rewrite (attributed s (data tx) r t v xy) by done. cbn [rbind]. by rewrite Hp.
    + intros c m ->. destruct Hs as [Hc ->]. assert (c <> 0) by (intros ->; done). apply other_signers_refuse; [done|lia|done].
  - intros Hv1 ->. apply chain_zero_unprotected. lia.
  - intros Hv1. destruct (large_id_refused s (data tx) r t v Hd Hs ltac:(lia)) as [e He].
    exists e. unfold Sender. cbn [cFrom signed_tx]. fold (signed_tx (data tx) s r t v). by rewrite He.
Qed.

End Signed.

(** *** A toy scheme that obeys the laws *)

(** The signature is the key and the start of the hash. *)
Definition key_okb (k : bytes) : bool :=
  (len k =? 32) && forallb (fun b => (0 <=? b) && (b <? 256)) k && (0 <? SetBytes k) && (SetBytes k <? Precompiles.secp256k1_N).
Definition hash_start (h : bytes) : Z := 1 + SetBytes (take 8 h) mod two64.
Definition toy_sign (h k : bytes) : option bytes :=
  if key_okb k then Some (k ++ be 32 (hash_start h) ++ [0]) else None.
Definition toy_pubkey (k : bytes) : bytes := 4 :: if key_okb k then k ++ k else [].
Definition toy_recover (h sig : bytes) : option bytes :=
  if SetBytes (take 32 (drop 32 sig)) =? hash_start h then Some (toy_pubkey (take 32 sig)) else None.

Lemma key_okb_true k : key_okb k = true -> length k = 32%nat /\ bytes_ok k /\ 0 < SetBytes k < Precompiles.secp256k1_N.
Proof.
  unfold key_okb. intros [[[H1 H2]%andb_true_iff H3]%andb_true_iff H4]%andb_true_iff.
  apply Spec.Concrete.bytes_ok_dec in H2. apply Z.eqb_eq in H1. apply Z.ltb_lt in H3, H4. unfold len in H1.
  split; [lia|]. by split.
Qed.

Lemma hash_start_bound h : 0 < hash_start h <= two64.
Proof. unfold hash_start. pose proof (Z.mod_pos_bound (SetBytes (take 8 h)) two64 ltac:(done)). lia. Qed.

#[local] Instance toy_laws : SecpLaws toy_sign toy_recover toy_pubkey.
Proof.
  assert (forall h, SetBytes (be 32 (hash_start h)) = hash_start h) as Hb.
  { intros h. pose proof (hash_start_bound h). rewrite SetBytes_be, Z.mod_small; [done|].
    assert (two64 < 256 ^ Z.of_nat 32) by done. lia. }
  split.
  - intros h k sig. unfold toy_sign. destruct (key_okb k) eqn:E; [|done]. intros <-%(inj Some).
    apply key_okb_true in E as (Hl & Hk & Hr). exists k, (be 32 (hash_start h)), 0.
    split; [done|]. split; [done|]. split; [apply be_ok|]. split; [done|]. split; [apply length_be|]. split; [lia|].
    split; [done|]. rewrite Hb. pose proof (hash_start_bound h). assert (two64 <= Precompiles.secp256k1_halfN) by done. lia.
  - intros h k sig _. unfold toy_sign, toy_recover. destruct (key_okb k) eqn:E; [|done]. intros <-%(inj Some).
    pose proof (key_okb_true k E) as (Hl & _). rewrite (drop_app_length' k) by done.
    rewrite (take_app_length' (be 32 (hash_start h))) by (by rewrite length_be). rewrite Hb, Z.eqb_refl.
    by rewrite (take_app_length' k).
  - intros k. unfold toy_pubkey. eexists. split; [done|]. destruct (key_okb k) eqn:E; [|constructor].
    apply key_okb_true in E as (_ & Hk & _). by apply bytes_ok_app.
Qed.

Definition demo_key : Keys.PrivateKey := Keys.mkPrivateKey 7 1 2.
Definition demo_tx : Transaction := NewTransaction 3 (BigToAddress 0xb0) (Some 10) 2000 (Some 1) [0x55; 0x44].

Lemma demo_tx_ok : data_ok (data demo_tx).
Proof.
  split; unfold demo_tx; try (cbn; unfold is_u64, is_word, two64, two256; lia).
  - intros a <-%(inj Some). apply BigToAddress_ok.
  - split; [repeat constructor; unfold byte_ok; lia|done].
Qed.

(** Signed for chain 1, attributed to the key, refused on chain 2. *)
Lemma signed_sender_witness : exists tx',
  SignTx (H := generic) toy_sign demo_tx (NewEIP155Signer (Some 1)) demo_key = Ok (inr tx') /\
  (exists tx2, Sender (H := generic) toy_recover (NewEIP155Signer (Some 1)) tx' =
     Ok (tx2, inr (address_of_pubkey (toy_pubkey (secret demo_key))))) /\
  Sender (H := generic) toy_recover (NewEIP155Signer (Some 2)) tx' = Ok (tx', inl ErrInvalidChainId).
Proof.
  assert (key_okb (secret demo_key) = true) as Hk by (vm_compute; reflexivity).
  destruct (signed_sender generic toy_sign toy_recover toy_pubkey demo_tx (NewEIP155Signer (Some 1)) demo_key demo_tx_ok)
    as [[H _]|(v & r & t & Hs & _ & H1 & H2 & _)].
  - cbn. unfold two256. lia.
  - exfalso. revert H. unfold toy_sign. rewrite Hk. discriminate.
  - unfold toy_sign in Hs. rewrite Hk in Hs. apply (inj Some) in Hs. rewrite !app_assoc in Hs.
    apply app_inj_2 in Hs as [_ [= <-]]; [|done].
    destruct (H2 ltac:(lia) ltac:(discriminate)) as [H3 H4]. eexists. split; [exact H1|]. split; [eexists; exact H3|].
    exact (proj1 (H4 1 (1 * 2) eq_refl) 2 (2 * 2) ltac:(discriminate)).
Defined.

(** The exception: a signer made for chain 0, or for a configuration without a
    chain id, hashes the chain id with the rest, but then marks the transaction
    as unprotected; [Sender] checks the signature against the other hash. *)
Lemma chain_zero_not_attributed :
  let s := NewEIP155Signer None in
  match SignTx (H := generic) toy_sign demo_tx s demo_key with
  | Ok (inr tx') => Protected tx' = false /\ Sender (H := generic) toy_recover s tx' = Ok (tx', inl errRecover)
  | _ => False
  end.
Proof. vm_compute. split; reflexivity. Qed.

End TxLaws.

(** ** Bloom filters *)

Module BloomLaws.
Import Big Keccak KeccakSpec KeccakSponge KeccakLaws TxLaws Bloom.

(** The filter, as a number, has all bits of the mask. *)
Definition covers (bin mask : Z) : Prop := Z.land bin mask = mask.
#[export] Instance covers_dec bin mask : Decision (covers bin mask) := Z.eq_dec _ _.
Definition mask_ok (m : Z) : Prop := 0 <= m < 2 ^ 2048.
Definition bloom_ok (b : Bloom) : Prop := array_ok 256 b.

Lemma covers_bits bin m : covers bin m <-> forall i, Z.testbit m i = true -> Z.testbit bin i = true.
Proof.
  unfold covers. split.
  - intros <- i. rewrite Z.land_spec. intros [? _]%andb_true_iff. done.
  - intros H. apply Z.bits_inj. intros i. rewrite Z.land_spec. destruct (Z.testbit m i) eqn:E; [|apply andb_false_r].
    by rewrite (H i E).
Qed.

Lemma covers_lor_r bin m : covers (Z.lor bin m) m.
Proof. apply covers_bits. intros i H. by rewrite Z.lor_spec, H, orb_true_r. Qed.

Lemma covers_lor_l bin m x : covers bin m -> covers (Z.lor bin x) m.
Proof. rewrite !covers_bits. intros H i Hi. by rewrite Z.lor_spec, (H i Hi). Qed.

Lemma covers_refl m : covers m m.
Proof. apply Z.land_diag. Qed.

Lemma covers_trans a b c : covers a b -> covers b c -> covers a c.
Proof. rewrite !covers_bits. auto. Qed.

Lemma mask_lor a b : mask_ok a -> mask_ok b -> mask_ok (Z.lor a b).
Proof.
  intros [Ha1 Ha2] [Hb1 Hb2]. split; [by apply Z.lor_nonneg|].
  destruct (Z.eq_dec (Z.lor a b) 0) as [->|Hn]; [done|]. apply Z.log2_lt_pow2; [pose proof (proj2 (Z.lor_nonneg a b)); lia|].
  rewrite Z.log2_lor by done. assert (forall x, 0 <= x < 2 ^ 2048 -> Z.log2 x < 2048) as Hl; [|by apply Z.max_lub_lt; apply Hl].
  intros x Hx. destruct (Z.eq_dec x 0) as [->|]; [done|]. apply Z.log2_lt_pow2; lia.
Qed.

Lemma mask_single n : 0 <= n < 2048 -> mask_ok (Z.shiftl 1 n).
Proof. intros Hn. unfold mask_ok. rewrite Z.shiftl_1_l. split; [apply Z.pow_nonneg; lia|apply Z.pow_lt_mono_r; lia]. Qed.

Section Filter.
Context (X : Impl) `{!ImplLaws X keccak_f}.

(** *** The bits of a key *)

Lemma bloom9_loop_ok n b : bytes_ok b -> forall i r, 0 <= i -> i + 2 * Z.of_nat n <= len b -> mask_ok r ->
  exists m, bloom9_loop n i b r = Ok m /\ mask_ok m.
Proof.
  intros Hb. induction n as [|n IH]; intros i r Hi Hl Hr; [by exists r|]. cbn [bloom9_loop].
  destruct (index_Ok b i) as (hi & -> & _); [lia|]. destruct (index_Ok b (i + 1)) as (lo & -> & _); [lia|]. cbn [rbind].
  apply IH; [lia..|]. apply mask_lor; [done|]. apply mask_single.
  change 2047 with (Z.ones 11). rewrite Z.land_ones by lia. apply Z.mod_pos_bound. done.
Qed.

Lemma bloom9_ok b : bytes_ok b -> exists m, bloom9 b = Ok m /\ mask_ok m.
Proof.
  intros Hb. unfold bloom9. rewrite (Keccak256_ok X) by done. cbn [rbind].
  apply bloom9_loop_ok; [apply sponge_hash_ok|lia| |done]. unfold len, keccak256. rewrite sponge_hash_length. lia.
Qed.

(** *** Filters as numbers *)

Lemma SetBytes_written b x : bloom_ok b -> mask_ok x -> SetBytes b <= x ->
  exists b', SetBytes_ b (Bytes x) = Ok b' /\ bloom_ok b' /\ Bloom_Big b' = x.
Proof.
  intros [Hl Hb] [Hx0 Hx] Hle. pose proof (SetBytes_bound b Hb) as [Hb0 _].
  pose proof (SetBytes_bound (Bytes x) (Bytes_ok x)) as [_ Hn]. rewrite SetBytes_Bytes, Z.abs_eq in Hn by done.
  assert (len (Bytes x) <= 256) as H256.
  { rewrite len_Bytes. assert (BitLen x <= 2048) by (apply BitLen_spec; lia).
    assert ((BitLen x + 7) / 8 < 257) by (apply Z.div_lt_upper_bound; lia). lia. }
  unfold len in Hn, H256. set (n := length (Bytes x)) in *.
  assert (b = replicate (256 - n) 0 ++ be n (SetBytes b) ++ []) as Eb.
  { rewrite <-(be_SetBytes b Hb) at 1. rewrite Hl, app_nil_r. replace 256%nat with ((256 - n) + n)%nat at 1 by lia.
    apply be_pad. lia. }
  unfold SetBytes_. assert ((len b <? len (Bytes x)) = false) as -> by (apply Z.ltb_ge; unfold len; fold n; lia).
  eexists. split; [|split; [split|]].
  { rewrite Eb at 1. apply copy_at_mid; unfold len, BloomByteLength; rewrite ?length_replicate, ?length_be; fold n; lia. }
  all: rewrite ?app_nil_r.
  - rewrite length_app, length_replicate. fold n. lia.
  - apply bytes_ok_app. split; [apply Forall_replicate; unfold byte_ok; lia|apply Bytes_ok].
  - unfold Bloom_Big. rewrite SetBytes_app, SetBytes_Bytes, Z.abs_eq by done.
    pose proof (RlpStream.SetBytes_zeros (256 - Z.of_nat n) []) as Ez. rewrite app_nil_r in Ez. unfold zeros in Ez.
    replace (Z.to_nat (256 - Z.of_nat n)) with (256 - n)%nat in Ez by lia. rewrite Ez. change (SetBytes []) with 0. lia.
Qed.

Lemma emptyBloom_ok : bloom_ok emptyBloom /\ SetBytes emptyBloom = 0.
Proof. split; [split; [done|apply bytes_ok_zeros]|vm_compute; reflexivity]. Qed.

Lemma lookup_covers b k m : bloom9 k = Ok m -> BloomLookup b k = Ok (bool_decide (covers (Bloom_Big b) m)).
Proof.
  intros E. unfold BloomLookup. rewrite E. cbn [rbind]. f_equal. unfold covers. by destruct (Z.eqb_spec (Z.land (Bloom_Big b) m) m);
    [rewrite bool_decide_true|rewrite bool_decide_false].
Qed.

Lemma lookup_mono b b' k : bytes_ok k -> covers (Bloom_Big b') (Bloom_Big b) -> BloomLookup b k = Ok true -> BloomLookup b' k = Ok true.
Proof.
  intros Hk Hc. destruct (bloom9_ok k Hk) as (m & E & _). rewrite !(lookup_covers _ _ m E).
  intros [= H%bool_decide_eq_true_1]. rewrite bool_decide_true; [done|]. by eapply covers_trans.
Qed.

(** *** The bits of logs and receipts *)

Definition log_keys (l : Log) : list bytes := Address_ l :: Topics l.
Definition log_ok (l : Log) : Prop := Forall bytes_ok (log_keys l).

(** What a loop that collects masks returns. *)
Definition collects (r : result Z) (bin : Z) (keys : list bytes) : Prop := exists bin', r = Ok bin' /\ mask_ok bin' /\
  covers bin' bin /\ forall k, k ∈ keys -> exists m, bloom9 k = Ok m /\ covers bin' m.

Lemma collects_more r bin bin0 keys keys0 : covers bin bin0 -> (forall k, k ∈ keys0 -> exists m, bloom9 k = Ok m /\ covers bin m) ->
  collects r bin keys -> collects r bin0 (keys0 ++ keys).
Proof.
  intros Hc Hk0 (bin' & E & Hm & Hc' & Hk). exists bin'. split; [done|]. split; [done|]. split; [by eapply covers_trans|].
  intros k [H|H]%elem_of_app; [|by apply Hk]. destruct (Hk0 k H) as (m & Em & Hcm). exists m. split; [done|]. by eapply covers_trans.
Qed.

Lemma or_all_ok keys : forall bin, Forall bytes_ok keys -> mask_ok bin -> collects (or_all keys bin) bin keys.
Proof.
  induction keys as [|k keys IH]; intros bin Hk Hb; cbn [or_all].
  - exists bin. split; [done|]. split; [done|]. split; [apply covers_refl|]. by intros k ?%elem_of_nil.
  - apply Forall_cons in Hk as [Hk Hks]. destruct (bloom9_ok k Hk) as (m & E & Hm). rewrite E. cbn [rbind].
    apply (collects_more _ (Z.lor bin m) _ keys [k]); [apply covers_lor_l, covers_refl| |by apply IH; [|apply mask_lor]].
    intros k' ->%list_elem_of_singleton. exists m. split; [done|apply covers_lor_r].
Qed.

Lemma LogsBloom_loop_ok logs : forall bin, Forall log_ok logs -> mask_ok bin ->
  collects (LogsBloom_loop logs bin) bin (logs ≫= log_keys).
Proof.
  induction logs as [|l logs IH]; intros bin Hl Hb.
  - apply (or_all_ok [] bin); [constructor|done].
  - apply Forall_cons in Hl as [Hl Hls]. pose proof (or_all_ok (log_keys l) bin Hl Hb) as (bin' & E & Hm & Hc & Hk).
    assert (LogsBloom_loop (l :: logs) bin = LogsBloom_loop logs bin') as ->.
    { cbn [LogsBloom_loop]. cbn [log_keys or_all] in E. apply rbind_Ok_inv in E as (x & -> & E). cbn [rbind]. by rewrite E. }
    apply (collects_more _ bin' bin); [done|done|]. by apply IH.
Qed.

Lemma CreateBloom_loop_ok rs : forall bin, Forall (fun r => Forall log_ok (Logs r)) rs -> mask_ok bin ->
  collects (CreateBloom_loop rs bin) bin (rs ≫= fun r => Logs r ≫= log_keys).
Proof.
  induction rs as [|r rs IH]; intros bin Hr Hb.
  - apply (or_all_ok [] bin); [constructor|done].
  - apply Forall_cons in Hr as [Hr Hrs]. cbn [CreateBloom_loop]. unfold LogsBloom.
    destruct (LogsBloom_loop_ok (Logs r) 0 Hr ltac:(done)) as (x & -> & Hm & _ & Hk). cbn [rbind].
    apply (collects_more _ (Z.lor bin x) bin); [apply covers_lor_l, covers_refl| |by apply IH; [|apply mask_lor]].
    intros k Hk'. destruct (Hk k Hk') as (m & Em & Hc). exists m. split; [done|]. eapply covers_trans; [apply covers_lor_r|done].
Qed.

End Filter.

(** C40: Bloom filters have no false negatives.  The filter of a list of
    receipts exists and finds the address and every topic of every log; adding
    a number to a filter makes it found and loses nothing that was found. *)
Theorem bloom_complete (X : Impl) `{!ImplLaws X keccak_f} (receipts : list Receipt) (b : list Z) (d : Z) :
  Forall (fun r => Forall log_ok (Logs r)) receipts -> bloom_ok b ->
  (exists f, CreateBloom receipts = Ok f /\ bloom_ok f /\
     forall r l k, r ∈ receipts -> l ∈ Logs r -> k = Address_ l \/ k ∈ Topics l -> BloomLookup f k = Ok true) /\
  (exists b', Add b d = Ok b' /\ bloom_ok b' /\ Test b' d = Ok true /\
     forall k, bytes_ok k -> BloomLookup b k = Ok true -> BloomLookup b' k = Ok true).
Proof.
  intros Hr Hb. split.
  - destruct (CreateBloom_loop_ok X receipts 0 Hr ltac:(done)) as (bin & E & Hm & _ & Hk).
    destruct emptyBloom_ok as [He Hz].
    destruct (SetBytes_written emptyBloom bin He Hm ltac:(rewrite Hz; apply Hm)) as (f & Ef & Hf & Hv).
    exists f. unfold CreateBloom. rewrite E. cbn [rbind]. split; [done|]. split; [done|].
    intros r l k Hr' Hl Hkl. destruct (Hk k) as (m & Em & Hc).
    { apply list_elem_of_bind. exists r. split; [|done]. apply list_elem_of_bind. exists l. split; [|done].
      unfold log_keys. destruct Hkl as [->|]; [by left|by right]. }
    rewrite (lookup_covers X _ _ m Em), Hv, bool_decide_true; done.
  - destruct (bloom9_ok X (Bytes d) (Bytes_ok d)) as (m & Em & Hm).
    assert (mask_ok (SetBytes b)) as Hs.
    { destruct Hb as [Hl Hb]. pose proof (SetBytes_bound b Hb) as H. unfold len in H. rewrite Hl in H. exact H. }
    assert (SetBytes b <= Z.lor (SetBytes b) m) as Hle.
    { pose proof (Zbitwise.Z.sub_lor_l_same_l m (SetBytes b)). pose proof (proj2 (Z.land_nonneg m (Z.lnot (SetBytes b))) ltac:(left; apply Hm)). lia. }
    destruct (SetBytes_written b (Z.lor (SetBytes b) m) Hb ltac:(by apply mask_lor) Hle) as (b' & E & Hb' & Hv).
    exists b'. unfold Add. rewrite Em. cbn [rbind]. split; [done|]. split; [done|]. split.
    + unfold Test. rewrite (lookup_covers X _ _ m Em), Hv, bool_decide_true; [done|apply covers_lor_r].
    + intros k Hk. apply (lookup_mono X); [done|]. rewrite Hv. apply covers_lor_l, covers_refl.
Qed.

(** A log of an account whose address starts with a zero byte. *)
Definition demo_log : Log := mkLog (BigToAddress 0xb0) [BigToHash 5; BigToHash (2 ^ 255)] [1] 1 zeroHash 0 zeroHash 0 false.
Definition demo_receipt : Receipt := mkReceipt [] 1 21000 emptyBloom [demo_log] zeroHash zeroAddress 21000.

Lemma bloom_complete_witness : exists f, CreateBloom (H := generic) [demo_receipt] = Ok f /\
  BloomLookup (H := generic) f (BigToAddress 0xb0) = Ok true.
Proof.
  assert (Forall (fun r => Forall log_ok (Logs r)) [demo_receipt]) as Hr.
  { apply Forall_singleton, Forall_singleton. unfold log_ok, log_keys. cbn [Address_ Topics demo_log].
    repeat (apply Forall_cons; split; [first [apply BigToAddress_ok|apply BigToHash_ok]|]). constructor. }
  destruct (bloom_complete generic [demo_receipt] emptyBloom 5 Hr (proj1 emptyBloom_ok)) as [(f & E & _ & H) _].
  exists f. split; [exact E|]. apply (H demo_receipt demo_log); [by left|by left|by left].
Defined.

(** Looking for the same address with [TestBytes] does not find it: the
    conversion to a number drops the leading zero bytes before hashing. *)
Lemma TestBytes_false_negative :
  (let? f := CreateBloom (H := generic) [demo_receipt] in
   let? a := BloomLookup (H := generic) f (Address_ demo_log) in
   let? b := TestBytes (H := generic) f (Address_ demo_log) in Ok (a, b)) = Ok (true, false).
Proof. vm_compute. reflexivity. Qed.

(** ** The status of a receipt *)

(** The encoding of a status is read back by [setStatus], unless the post state
    has a length other than that of a hash; a failed transaction and a missing
    state are the same. *)
Lemma status_roundtrip r r0 : PostState r0 = [] -> (Status r = 0 \/ Status r = 1) -> PostState r = [] \/ len (PostState r) = 32 ->
  exists r', setStatus r0 (statusEncoding r) = Some r' /\ statusEncoding r' = statusEncoding r.
Proof.
  intros H0 Hs Hp. unfold statusEncoding. destruct Hp as [Hp|Hp].
  - rewrite Hp. cbn. destruct Hs as [-> | ->]; cbn; eexists; (split; [done|]); cbn; by rewrite H0.
  - assert ((len (PostState r) =? 0) = false) as -> by (apply Z.eqb_neq; lia).
    unfold setStatus. rewrite bool_decide_false; [|intros E; rewrite E in Hp; done].
    rewrite bool_decide_false; [|intros E; rewrite E in Hp; done]. rewrite Hp. cbn.
    eexists. split; [done|]. cbn. by assert ((len (PostState r) =? 0) = false) as -> by (apply Z.eqb_neq; lia).
Qed.

End BloomLaws.

(** ** Transactions by price and nonce *)

Module PriceLaws.
Import TrieIter TrieUnion Tx.

(** *** What is promised *)

(** The transactions of each account that are still to come, in order. *)
Abbreviation pool := (gmap Address (list txdata)) (only parsing).

(** The next transaction of an account, with the highest price of them all. *)
Definition best (m : pool) (a : Address) (d : txdata) : Prop :=
  (exists rest, m !! a = Some (d :: rest)) /\
  forall a' d' rest', m !! a' = Some (d' :: rest') -> Price d' <= Price d.

Inductive op := OShift | OPop.

(** Replace it by the next of the account, or discard the account. *)
Definition spec_step (o : op) (m : pool) (a : Address) : pool :=
  match o, m !! a with
  | OShift, Some (_ :: d :: rest) => <[a := d :: rest]> m
  | _, _ => delete a m
  end.

Inductive spec_run : pool -> list op -> list (Address * txdata) -> pool -> Prop :=
| run_done m : spec_run m [] [] m
| run_empty os : spec_run ∅ os [] ∅
| run_step m a d o os out m' : best m a d -> spec_run (spec_step o m a) os out m' -> spec_run m (o :: os) ((a, d) :: out) m'.

Definition total (m : pool) : nat := length (concat (snd <$> map_to_list m)).

Lemma total_lookup m a l : m !! a = Some l -> total m = (length l + total (delete a m))%nat.
Proof.
  intros H. pose proof (map_to_list_insert (delete a m) a l (lookup_delete_eq m a)) as P. rewrite insert_delete_id in P by done.
  unfold total. rewrite P. simpl. by rewrite length_app.
Qed.

Lemma total_step m a d : best m a d -> total m = S (total (spec_step OShift m a)).
Proof.
  intros [[rest H] _]. unfold spec_step. rewrite H, (total_lookup m a _ H). destruct rest as [|d' rest]; [done|].
  rewrite (total_lookup (<[a:=d' :: rest]> m) a (d' :: rest)) by apply lookup_insert_eq.
  rewrite delete_insert_eq. simpl. lia.
Qed.

(** What an account contributes to a sequence of transactions. *)
Definition of_account (a : Address) (out : list (Address * txdata)) : list txdata :=
  snd <$> filter (fun x => fst x = a) out.

Lemma spec_shifts n : forall m out m', spec_run m (replicate n OShift) out m' ->
  forall a, of_account a out ++ default [] (m' !! a) = default [] (m !! a).
Proof.
  induction n as [|n IH]; intros m out m' H a; inversion H as [| |? b d ? ? out' ? Hb Hr]; subst; try done.
  specialize (IH _ _ _ Hr a). unfold of_account in *. rewrite filter_cons. destruct Hb as [[rest Hm] _].
  unfold spec_step in IH. rewrite Hm in IH. case_decide as Hd; cbn [fst] in Hd.
  - subst b. cbn [fmap list_fmap app snd]. rewrite IH, Hm. destruct rest as [|d' rest]; [by rewrite lookup_delete_eq|by rewrite lookup_insert_eq].
  - rewrite IH. destruct rest as [|d' rest]; [by rewrite lookup_delete_ne|by rewrite lookup_insert_ne].
Qed.

Lemma spec_shifts_all n : forall m out m', (total m <= n)%nat -> (forall a l, m !! a = Some l -> l <> []) ->
  spec_run m (replicate n OShift) out m' -> m' = ∅.
Proof.
  induction n as [|n IH]; intros m out m' Ht Hne H; inversion H as [| |? b d ? ? out' ? Hb Hr]; subst; try done.
  - apply map_empty. intros a. destruct (m' !! a) as [l|] eqn:E; [|done]. pose proof (Hne a l E) as Hl.
    rewrite (total_lookup m' a l E) in Ht. destruct l; [done|]. simpl in Ht. lia.
  - eapply IH; [|clear IH|exact Hr]; [rewrite (total_step m b d Hb) in Ht; lia|].
    intros a l. destruct Hb as [[rest Hm] _]. unfold spec_step. rewrite Hm.
    destruct rest as [|d' rest]; [intros [_ ?]%lookup_delete_Some; by eapply Hne|].
    intros [[_ <-]|[_ ?]]%lookup_insert_Some; [done|by eapply Hne].
Qed.

(** *** The implementation *)

Definition R (a b : Transaction) : bool := Price (data b) <? Price (data a).
Definition any (_ : Transaction) : Prop := True.
Abbreviation is_heap := (is_heap any R).

Lemma less_R a b : any a -> any b -> by_price a b = Ok (R a b).
Proof. done. Qed.
Lemma price_asym a b : any a -> any b -> R a b = true -> R b a = false.
Proof. unfold R. intros _ _ H%Z.ltb_lt. apply Z.ltb_ge. lia. Qed.
Lemma price_trans a b c : any a -> any b -> any c -> R b a = false -> R c b = false -> R c a = false.
Proof. unfold R. intros _ _ _ H1%Z.ltb_ge H2%Z.ltb_ge. apply Z.ltb_ge. lia. Qed.

Lemma all_any h : Forall any h.
Proof. by apply Forall_forall. Qed.

Lemma Fix_ok x y t : is_heap (x :: t) -> exists h', heap_Fix0 (y :: t) = Ok h' /\ h' ≡ₚ y :: t /\ is_heap h'.
Proof.
  intros [_ Hh]. unfold heap_Fix0.
  destruct (down_ok by_price any R less_R price_asym price_trans 0 (length (y :: t)) (S (length (y :: t))) (y :: t) 0 (all_any _))
    as (h' & -> & P & _ & H); [lia..| |].
  - split; [|intros p k a b _ Hc; unfold child in Hc; lia]. intros p k a b _ Hp Hk Hc Ha Hb.
    destruct p as [|p]; [done|]. destruct k as [|k]; [unfold child in Hc; lia|]. by apply (Hh (S p) (S k)); [lia|..].
  - exists h'. split; [done|]. split; [done|]. split; [apply all_any|]. assert (length h' = length (y :: t)) as -> by (by rewrite P). done.
Qed.

Section Price.
Context (X : Keccak.Impl) (recover : bytes -> bytes -> option bytes) (s : Signer).
Abbreviation account := (account_of recover s).

(** The account the signer attributes a transaction to. *)
Definition owner (tx : Transaction) : Address := match account tx with Ok (_, a) => a | _ => zeroAddress end.
Definition owned (tx : Transaction) : Prop := is_ok (account tx) = true.

Lemma account_Ok tx : owned tx -> exists tx', account tx = Ok (tx', owner tx) /\ data tx' = data tx /\ owned tx' /\ owner tx' = owner tx.
Proof.
  unfold owned, owner. intros H. destruct (account tx) as [[tx' a]| |] eqn:E; [|done..]. exists tx'. split; [done|].
  assert (Equal s s = true) as Hs by (destruct s; simpl; [done..|apply Z.eqb_refl]).
  unfold account_of in E. apply rbind_Ok_inv in E as ([tx1 r] & Er & [= <- <-]). unfold Sender in Er.
  assert ((let? r := Signer_Sender recover s tx in
    match r with inl e => Ok (tx, inl e) | inr addr => Ok (mkTx (data tx) (cHash tx) (cSize tx) (Some (mkSigCache s addr)), inr addr) end)
    = Ok (tx1, r) -> Sender recover s tx = Ok (tx1, r) ->
    data tx1 = data tx /\ Sender recover s tx1 = Ok (tx1, r)) as Hc.
  { intros ([e|addr] & _ & [= <- <-])%rbind_Ok_inv HS; [done|]. split; [done|]. unfold Sender. cbn [cFrom signer]. by rewrite Hs. }
  assert (data tx1 = data tx /\ Sender recover s tx1 = Ok (tx1, r)) as [Hd HS].
  { pose proof Er as Er'. fold (Sender recover s tx) in Er'. destruct (cFrom tx) as [sc|] eqn:Ef; [|by apply Hc].
    destruct (Equal (signer sc) s) eqn:Eq; [|by apply Hc]. injection Er as <- <-. split; [done|]. exact Er'. }
  unfold account_of. rewrite HS. cbn [rbind]. done.
Qed.

Record holds (t : TransactionsByPriceAndNonce) (m : pool) : Prop := {
  h_signer : tsigner t = s;
  h_heap : is_heap (heads t);
  h_owned : Forall owned (heads t);
  h_once : NoDup (owner <$> heads t);
  h_pool : forall h, h ∈ heads t -> m !! owner h = Some (data h :: (data <$> default [] (txs t !! owner h)));
  h_heads : forall a, is_Some (m !! a) -> a ∈ owner <$> heads t;
  h_rest : forall h x, h ∈ heads t -> x ∈ default [] (txs t !! owner h) -> owned x /\ owner x = owner h
}.

Lemma Peek_best t m : holds t m -> match Peek t with None => m = ∅ | Some h => best m (owner h) (data h) end.
Proof.
  intros H. unfold Peek. pose proof (h_heap t m H) as Hh. destruct (heads t) as [|h hs] eqn:E; cbn [head].
  - apply map_empty. intros a. destruct (m !! a) eqn:Em; [|done]. pose proof (h_heads t m H a ltac:(by eexists)) as Hin.
    rewrite E in Hin. by apply elem_of_nil in Hin.
  - split; [eexists; apply (h_pool t m H); rewrite E; by left|]. intros a' d' rest' Ea.
    pose proof (h_heads t m H a' ltac:(by eexists)) as Hin. apply list_elem_of_fmap in Hin as (h' & -> & Hin).
    rewrite (h_pool t m H h' Hin) in Ea. injection Ea as <- _. rewrite E in Hin.
    pose proof (heap_least any R price_asym price_trans h hs h' Hh Hin) as Hl. unfold le, R in Hl. by apply Z.ltb_ge in Hl.
Qed.

(** The first head gone. *)
Lemma drop_head t m h hs hs' : holds t m -> heads t = h :: hs -> hs' ≡ₚ hs -> is_heap hs' ->
  holds (mkByPrice (txs t) hs' (tsigner t)) (delete (owner h) m).
Proof.
  intros H E P Hh. pose proof (h_once t m H) as Hn. rewrite E in Hn. apply NoDup_cons in Hn as [Hnot Hn].
  assert (forall x, x ∈ hs' -> x ∈ heads t /\ owner x <> owner h) as Hin.
  { intros x Hx. rewrite P in Hx. split; [rewrite E; by right|]. intros Eq. apply Hnot. rewrite <-Eq. by apply list_elem_of_fmap_2. }
  split; cbn [tsigner heads txs].
  - apply (h_signer t m H).
  - done.
  - rewrite P. pose proof (h_owned t m H) as Ho. rewrite E in Ho. by apply Forall_cons in Ho as [_ ?].
  - by rewrite P.
  - intros x [Hx Hne]%Hin. rewrite lookup_delete_ne by done. by apply (h_pool t m H).
  - intros a [l [Hne Hl]%lookup_delete_Some]. rewrite P. pose proof (h_heads t m H a ltac:(by eexists)) as Ha.
    rewrite E in Ha. cbn [fmap list_fmap] in Ha. apply elem_of_cons in Ha as [->|Ha]; [done|exact Ha].
  - intros x y [Hx _]%Hin. by apply (h_rest t m H).
Qed.

Lemma PopHead_ok t m h : holds t m -> Peek t = Some h ->
  exists t', PopHead t = Ok t' /\ holds t' (spec_step OPop m (owner h)).
Proof.
  intros H Hp. unfold Peek in Hp. destruct (heads t) as [|x hs] eqn:E; [done|]. injection Hp as ->. pose proof (h_heap t m H) as Hh.
  rewrite E in Hh. destruct (heap_Pop_ok by_price any R less_R price_asym price_trans h hs Hh) as (hs' & Ep & P & Hh').
  unfold PopHead. rewrite E, Ep. cbn [rbind]. eexists. split; [done|]. by apply (drop_head t m h hs).
Qed.

(** The first head replaced by the next transaction of its account. *)
Lemma next_head t m h hs x rest hs' : holds t m -> heads t = h :: hs -> txs t !! owner h = Some (x :: rest) ->
  hs' ≡ₚ x :: hs -> is_heap hs' ->
  holds (mkByPrice (<[owner h := rest]> (txs t)) hs' (tsigner t)) (<[owner h := data x :: (data <$> rest)]> m).
Proof.
  intros H E Et P Hh. pose proof (h_once t m H) as Hn. rewrite E in Hn. apply NoDup_cons in Hn as [Hnot Hn].
  destruct (h_rest t m H h x) as [Hox Hex]; [rewrite E; by left|rewrite Et; by left|].
  assert (forall y, y ∈ hs' -> y = x \/ y ∈ heads t /\ owner y <> owner h) as Hin.
  { intros y Hy. rewrite P in Hy. apply elem_of_cons in Hy as [->|Hy]; [by left|right]. split; [rewrite E; by right|].
    intros Eq. apply Hnot. rewrite <-Eq. by apply list_elem_of_fmap_2. }
  split; cbn [tsigner heads txs].
  - apply (h_signer t m H).
  - done.
  - rewrite P. pose proof (h_owned t m H) as Ho. rewrite E in Ho. apply Forall_cons in Ho as [_ ?]. by constructor.
  - rewrite P. cbn [fmap list_fmap]. rewrite Hex. by constructor.
  - intros y [->|[Hy Hne]]%Hin; [rewrite Hex, !lookup_insert_eq; done|].
    rewrite !lookup_insert_ne by done. by apply (h_pool t m H).
  - intros a Ha. rewrite P. cbn [fmap list_fmap]. rewrite Hex. destruct (decide (a = owner h)) as [->|Hne]; [by left|right].
    destruct Ha as [l Hl]. rewrite lookup_insert_ne in Hl by done. pose proof (h_heads t m H a ltac:(by eexists)) as Ha.
    rewrite E in Ha. apply elem_of_cons in Ha as [->|Ha]; [done|exact Ha].
  - intros y z [->|[Hy Hne]]%Hin.
    + rewrite Hex, lookup_insert_eq. cbn [default]. intros Hz. apply (h_rest t m H h); [rewrite E; by left|].
      rewrite Et. cbn [default]. by right.
    + rewrite lookup_insert_ne by done. by apply (h_rest t m H).
Qed.

Lemma Shift_ok t m h : holds t m -> Peek t = Some h ->
  exists t', Shift recover t = Ok t' /\ holds t' (spec_step OShift m (owner h)).
Proof.
  intros H Hp. unfold Peek in Hp. destruct (heads t) as [|x hs] eqn:E; [done|]. injection Hp as ->. pose proof (h_heap t m H) as Hh.
  rewrite E in Hh. pose proof (h_owned t m H) as Ho. rewrite E in Ho. apply Forall_cons in Ho as [Ho _].
  pose proof (h_pool t m H h ltac:(rewrite E; by left)) as Em. unfold Shift, spec_step. rewrite E, Em, (h_signer t m H).
  destruct (account_Ok h Ho) as (tx' & -> & _). cbn [rbind].
  destruct (heap_Pop_ok by_price any R less_R price_asym price_trans h hs Hh) as (hs' & Ep & P & Hh').
  destruct (txs t !! owner h) as [[|y rest]|] eqn:Et.
  - rewrite Ep. cbn [rbind]. eexists. split; [done|]. rewrite <-(h_signer t m H) at 1. by apply (drop_head t m h hs).
  - change (update (h :: hs) 0 y) with (Ok (y :: hs)). cbn [rbind].
    destruct (Fix_ok h y hs Hh) as (hs2 & -> & P2 & Hh2). cbn [rbind]. eexists. split; [done|].
    rewrite <-(h_signer t m H) at 1. by apply (next_head t m h hs).
  - rewrite Ep. cbn [rbind]. eexists. split; [done|]. rewrite <-(h_signer t m H) at 1. by apply (drop_head t m h hs).
Qed.

(** *** The constructor *)

(** Each account has transactions, and all are its own. *)
Definition sorted_out (m : gmap Address (list Transaction)) : Prop :=
  forall a l, m !! a = Some l -> l <> [] /\ forall x, x ∈ l -> owned x /\ owner x = a.

Definition pool_of (m : gmap Address (list Transaction)) : pool := (fun l : list Transaction => data <$> l) <$> m.

Definition taken (m m' : gmap Address (list Transaction)) (h : Transaction) : Prop :=
  exists x rest, m !! owner h = Some (x :: rest) /\ data h = data x /\ m' !! owner h = Some rest.

Lemma collect_ok order : forall m hs, NoDup order ->
  (forall a, a ∈ order -> exists l, m !! a = Some l /\ l <> [] /\ forall x, x ∈ l -> owned x /\ owner x = a) ->
  exists m' hs', collect_heads recover s order m hs = Ok (m', hs ++ hs') /\ (forall a, a ∉ order -> m' !! a = m !! a) /\
    Forall owned hs' /\ owner <$> hs' = order /\ Forall (taken m m') hs'.
Proof.
  induction order as [|a order IH]; intros m hs Hn Hm; cbn [collect_heads].
  { exists m, []. rewrite app_nil_r. repeat split; try done; constructor. }
  apply NoDup_cons in Hn as [Ha Hn]. destruct (Hm a ltac:(by left)) as (l & El & Hl & Hx). rewrite El.
  destruct l as [|x rest]; [done|]. destruct (Hx x ltac:(by left)) as [Hox Hex].
  destruct (account_Ok x Hox) as (x' & -> & Hd & Hox' & Hex'). cbn [rbind]. rewrite Hex in Hex' |- *.
  destruct (IH (<[a := rest]> m) (hs ++ [x']) Hn) as (m' & hs' & -> & Hout & Ho & Hown & Ht).
  { intros b Hb. rewrite lookup_insert_ne by (intros ->; done). apply Hm. by right. }
  exists m', (x' :: hs'). split; [by rewrite <-app_assoc|].
  split; [intros b [Hb1 Hb2]%not_elem_of_cons; rewrite Hout, lookup_insert_ne by done; done|].
  split; [by constructor|]. split; [cbn [fmap list_fmap]; by rewrite Hex', Hown|]. constructor.
  - exists x, rest. rewrite Hex'. split; [done|]. split; [done|]. rewrite Hout by done. apply lookup_insert_eq.
  - rewrite Forall_forall in Ht |- *. intros h Hh. destruct (Ht h Hh) as (y & r & H1 & H2 & H3).
    exists y, r. rewrite lookup_insert_ne in H1; [done|]. intros Eq. apply Ha. rewrite Eq, <-Hown. by apply list_elem_of_fmap_2.
Qed.

Lemma byprice_ok order m : sorted_out m -> NoDup order -> (forall a, a ∈ order <-> is_Some (m !! a)) ->
  exists t, NewTransactionsByPriceAndNonce recover order s m = Ok t /\ holds t (pool_of m).
Proof.
  intros Hs Hn Ho. destruct (collect_ok order m [] Hn) as (m' & hs & E & _ & Hown & Howner & Ht).
  { intros a [l Hl]%Ho. exists l. split; [done|]. by apply Hs. }
  destruct (heap_Init_ok by_price any R less_R price_asym price_trans hs (all_any _)) as (hs' & Ei & P & Hh).
  unfold NewTransactionsByPriceAndNonce. rewrite E. cbn [rbind app]. rewrite Ei. cbn [rbind]. eexists. split; [done|].
  rewrite Forall_forall in Ht. split; cbn [tsigner heads txs].
  - done.
  - done.
  - by rewrite P.
  - by rewrite P, Howner.
  - intros h Hh'. rewrite P in Hh'. destruct (Ht h Hh') as (x & rest & H1 & H2 & H3). unfold pool_of. rewrite lookup_fmap, H1, H3, H2. done.
  - intros a Ha. rewrite P, Howner. apply Ho. destruct Ha as [l Hl]. unfold pool_of in Hl. rewrite lookup_fmap in Hl. by destruct (m !! a).
  - intros h x Hh' Hx. rewrite P in Hh'. destruct (Ht h Hh') as (y & rest & H1 & _ & H3). rewrite H3 in Hx. cbn [default] in Hx.
    apply (Hs _ _ H1). by right.
Qed.

(** *** Running it *)

Definition step (o : op) (t : TransactionsByPriceAndNonce) : result TransactionsByPriceAndNonce :=
  match o with OShift => Shift recover t | OPop => PopHead t end.

(** Take the transactions offered, with their accounts, while there are any. *)
Fixpoint drive (os : list op) (t : TransactionsByPriceAndNonce) : result (list (Address * txdata) * TransactionsByPriceAndNonce) :=
  match os, Peek t with
  | [], _ | _, None => Ok ([], t)
  | o :: os, Some h =>
      let? t := step o t in
      let? (out, t) := drive os t in Ok ((owner h, data h) :: out, t)
  end.

Lemma drive_ok os : forall t m, holds t m -> exists out t' m', drive os t = Ok (out, t') /\ holds t' m' /\ spec_run m os out m'.
Proof.
  induction os as [|o os IH]; intros t m H; [exists [], t, m; split; [done|]; split; [done|constructor]|].
  cbn [drive]. pose proof (Peek_best t m H) as Hb. destruct (Peek t) as [h|] eqn:Ep.
  2: { subst m. exists [], t, ∅. split; [done|]. split; [done|constructor]. }
  assert (exists t', step o t = Ok t' /\ holds t' (spec_step o m (owner h))) as (t1 & -> & H1)
    by (destruct o; [by apply Shift_ok|by apply PopHead_ok]).
  cbn [rbind]. destruct (IH t1 _ H1) as (out & t' & m' & -> & H' & Hr). cbn [rbind].
  exists ((owner h, data h) :: out), t', m'. split; [done|]. split; [done|]. by constructor.
Qed.

(** C39: The price heap implements the choice of the best next transaction.
    From a map in which every account has transactions of its own, and for
    every order in which Go visits the map, the set is built; every sequence of
    [Shift] and [Pop] succeeds while something is offered, and each transaction
    offered is the next one of its account with the highest price among the
    next ones of all accounts.  With as many [Shift]s as there are transactions
    all are offered, each once, those of an account in their order. *)
Theorem price_nonce_refines (order : list Address) (m : gmap Address (list Transaction)) :
  sorted_out m -> NoDup order -> (forall a, a ∈ order <-> is_Some (m !! a)) ->
  exists t, NewTransactionsByPriceAndNonce recover order s m = Ok t /\
    (forall os, exists out t' m', drive os t = Ok (out, t') /\ spec_run (pool_of m) os out m') /\
    (forall n, (total (pool_of m) <= n)%nat -> exists out t', drive (replicate n OShift) t = Ok (out, t') /\
       Peek t' = None /\ forall a, of_account a out = data <$> default [] (m !! a)).
Proof.
  intros Hs Hn Ho. destruct (byprice_ok order m Hs Hn Ho) as (t & E & H). exists t. split; [done|]. split.
  - intros os. destruct (drive_ok os t _ H) as (out & t' & m' & Ed & _ & Hr). by exists out, t', m'.
  - intros n Hl. destruct (drive_ok (replicate n OShift) t _ H) as (out & t' & m' & Ed & H' & Hr). exists out, t'. split; [done|].
    assert (m' = ∅) as ->.
    { eapply spec_shifts_all; [exact Hl| |exact Hr]. intros a l. unfold pool_of. rewrite lookup_fmap. destruct (m !! a) as [l0|] eqn:Em; [|done].
      destruct (Hs a l0 Em) as [Hne _]. intros [= <-]. by destruct l0. }
    split.
    + pose proof (Peek_best t' ∅ H') as Hb. destruct (Peek t') as [h|]; [|done]. destruct Hb as [[r Hr'] _]. by rewrite lookup_empty in Hr'.
    + intros a. pose proof (spec_shifts n _ _ _ Hr a) as Ha. unfold pool_of in Ha. rewrite lookup_empty, lookup_fmap in Ha. cbn [default] in Ha.
      rewrite app_nil_r in Ha. rewrite Ha. by destruct (m !! a).
Qed.

End Price.

(** Two accounts, known to the cache, with two transactions and one. *)
Definition cached_tx (a : Address) (nonce price : Z) : Transaction :=
  mkTx (data (NewTransaction nonce zeroAddress None 21000 (Some price) [])) None None (Some (mkSigCache HomesteadSigner a)).
Definition demo_pool : gmap Address (list Transaction) :=
  {[BigToAddress 1 := [cached_tx (BigToAddress 1) 0 5; cached_tx (BigToAddress 1) 1 9];
    BigToAddress 2 := [cached_tx (BigToAddress 2) 7 6]]}.

Lemma demo_pool_ok : sorted_out Keccak.generic (fun _ _ => None) HomesteadSigner demo_pool.
Proof.
  intros a l H. unfold demo_pool in H. apply lookup_insert_Some in H as [[<- <-]|[_ [<- <-]%lookup_singleton_Some]].
  - split; [done|]. intros x Hx. apply elem_of_cons in Hx as [->|Hx%list_elem_of_singleton]; [|subst x]; split; vm_compute; reflexivity.
  - split; [done|]. intros x ->%list_elem_of_singleton. split; vm_compute; reflexivity.
Qed.

(** The prices of account 1 are offered in the order of its nonces. *)
Lemma price_nonce_refines_witness : exists t out t',
  NewTransactionsByPriceAndNonce (H := Keccak.generic) (fun _ _ => None) [BigToAddress 2; BigToAddress 1] HomesteadSigner demo_pool = Ok t /\
  drive Keccak.generic (fun _ _ => None) HomesteadSigner (replicate 3 OShift) t = Ok (out, t') /\
  Price <$> of_account (BigToAddress 1) out = [5; 9].
Proof.
  destruct (price_nonce_refines Keccak.generic (fun _ _ => None) HomesteadSigner [BigToAddress 2; BigToAddress 1] demo_pool demo_pool_ok)
    as (t & E & _ & H).
  - apply (bool_decide_eq_true_1 _). vm_compute. reflexivity.
  - intros a. unfold demo_pool. rewrite lookup_insert_is_Some', lookup_singleton_is_Some. set_solver.
  - destruct (H 3%nat) as (out & t' & Ed & _ & Ha); [vm_compute; lia|]. exists t, out, t'. split; [exact E|]. split; [exact Ed|].
    rewrite (Ha (BigToAddress 1)). vm_compute. reflexivity.
Defined.

(** When the signer attributes a transaction to another account than the one it
    is filed under, the first transaction stays in the map under the old key:
    here it is offered once, but what follows it is filed under the wrong one. *)
Lemma misfiled_transactions :
  let m := {[BigToAddress 1 := [cached_tx (BigToAddress 9) 0 5; cached_tx (BigToAddress 9) 1 4]]} in
  match NewTransactionsByPriceAndNonce (H := Keccak.generic) (fun _ _ => None) [BigToAddress 1] HomesteadSigner m with
  | Ok t => txs t !! BigToAddress 1 = m !! BigToAddress 1 /\ is_Some (txs t !! BigToAddress 9)
  | _ => False
  end.
Proof. vm_compute. split; [reflexivity|by eexists]. Qed.

End PriceLaws.
